(* ===== verification/_CoqProject ===== *)
-Q . S2P
Prelude.v
Types.v
Text.v
Json.v
Fingerprint.v
Store.v
Plan.v
Insert.v
Barrier.v
Finalize.v
Seed.v
Claim.v
Sweep.v
Client.v
Controls.v
Periodic.v
Scheduler.v
Retention.v
Batch.v
Replay.v
Ids.v
Base64.v
Query.v
Bulk.v
BulkWalk.v
BulkRun.v
Hist.v
Maintenance.v
Rollup.v
Feed.v
RollupFacts.v
RollupWindows.v
GroupFacts.v
RollupHours.v
Stats.v
StatsFacts.v
Series.v
Baselines.v
ErrorGroups.v
ErrorGroupReads.v
RollupWalks.v
RollupPass.v
RollupRebuild.v
Backfill.v
Pool.v
Runner.v
Limiter.v
Quiet.v
Machine.v
Witnesses.v
MaintenanceRuns.v
RunnerRuns.v
BulkRuns.v
StatsRuns.v
FeedRuns.v
SeriesRuns.v
