(* ===== verification/Prelude.v ===== *)
(** * Verification of the go-flywheel job runtime

    go-flywheel runs background jobs over a SQL database (SQLite or PostgreSQL).
    Producers insert jobs rows; runners claim them under a lease, run a worker and
    finalize the attempt; a sweep takes back leases whose runner died; operators
    pause, resume, retry, cancel and delete jobs; a scheduler fires periodic
    definitions, prunes finished jobs and keeps the declared definitions present.
    The parts share nothing but the database: every interaction is a transaction,
    and the correctness of the whole rests on what each transaction checks and
    writes. The sources are under src/internal/core.

    ** The model

    The database is a record of tables ([Store.db]), each a finite map from primary
    key to row; a transaction is a function from tables to a result holding the new
    tables, so an error is a rollback. The clock, minted ids, the request id and the
    registry come from a [context]; a call that reads the clock or mints an id more
    than once reads [c_Now ctx k], [c_NewID ctx k]. Rows a query leaves unordered
    come in the order of [RowOrder], of which only that it is a permutation is
    known. Instants are nanoseconds as integers; int64 arithmetic wraps where the
    source could overflow; strings are byte strings ordered by their bytes, which is
    SQLite's and PostgreSQL's C collation. A retried or concurrent statement of
    another session enters as a parameter: the locked rows of a claim or reclaim, the
    writes between the statements of an upsert, the database's refusals of an apply.

    ** Files and the code they model

    - Prelude: results, Go integers and times, row order, ORDER BY .. LIMIT.
    - Types: states, outcomes, rows, options, errors (types.go, rows.go, errors.go,
      registry.go, driver.go's options).
    - Text, Json, Fingerprint: truncation, stored JSON text, json.Valid, error
      fingerprints (driver.go, fingerprint.go).
    - Store: the tables, their unique indexes and the invariant [db_wf].
    - Plan: planFinalize, the state machine of one attempt (driver.go).
    - Insert: buildRow, stamps, hooks and the conflict insert (client.go, batch.go,
      insert_stamp.go, base.go).
    - Barrier: follow-ups, barrier declaration, resolution and firing (driver.go).
    - Finalize: run stubs, Finalize and its fence, RenewLease (driver.go). Seed: runs
      written directly (seed.go).
    - Claim: Dequeue of both dialects against one contract, class [Claims]
      (driver_sqlite.go, driver_postgres.go).
    - Sweep: reclaim of both dialects against one contract, class [Reclaims], the
      crash budget and the batch loop.
    - Client: Insert, Enqueue, InsertMany (client.go, batch.go).
    - Controls: audit, single-job controls, retry, cancel, delete, parent-scoped
      batches (job_audit.go, job_controls.go, schedule.go).
    - Periodic: periodic definitions, their writers, controls and reads
      (schedule.go, periodic_controls.go, base.go).
    - Scheduler: missed fires, ticks, the declared definitions' apply and reconcile
      (scheduler.go, scheduler_periodics.go).
    - Retention: rules, the pruning passes, the hold for the stats rollup
      (retention.go, stats_progress.go).
    - Batch: what replay and bulk share: the guarded UPDATE that returns ids, the key
      rule, staggered due times, retryable errors, keyset pages, and the
      [interference] of other connections (job_audit.go, replay.go, schedule.go).
    - Replay: Replay and ReplayByParent (replay.go).
    - Ids, Base64: the time field of an id (ids.go); unpadded URL base64.
    - Query: job filters, sorts, cursors, pages and capped counts (job_query.go,
      job_count.go, read.go).
    - Bulk: BulkJobs (bulk.go); BulkWalk: its walk against one pass over the
      selection; BulkRun: the theorems about a call.
    - Hist: duration histograms and their stored form (stats_hist.go).
    - Maintenance: the scheduler's configuration, its activities and their overlap
      guard, the retention activity (scheduler.go, stats_scheduler.go).
    - Rollup: the hourly statistics: the aggregate of a window, an hour's rows, the
      covered range, the walks, the pass and the rebuild (stats_rollup.go,
      stats_progress.go, error_groups.go); Stats: a window read from rollups and raw
      runs (stats.go). RollupFacts: aggregates as sums over their runs;
      RollupWindows: cutting windows; GroupFacts: error groups as sets of failures;
      RollupHours: the invariant [sound] of the stored hours; StatsFacts: reads;
      RollupWalks, RollupPass, RollupRebuild: the theorems about walks, passes and
      rebuilds. Series: StatsSeries and its day buckets in any time zone; Baselines:
      Baselines and its memo (stats.go). ErrorGroups: the error-group read
      (error_groups.go); ErrorGroupReads: its theorem. Backfill: the finish log of an
      upgrade and RollupStats (stats_rollup.go, stats_scheduler.go).
    - Feed: the finish feed, its cursor, and a reader polling it (feed.go).
    - Pool: the runner's slots and permits as a step relation: the claim loop and
      every dispatched job as threads over the pool's mutex (runner.go).
    - Runner: the runner's configuration, its ladders, the poll loop, an attempt from
      stub to observer events, and its heartbeat (runner.go, lease_heartbeat.go,
      queue_state.go, registry.go).
    - Limiter: the shared rate and concurrency limiter (limiter_db.go).
    - Quiet, Machine: the runtime as a transition system whose steps are the
      committed operations above.
    - Witnesses, MaintenanceRuns, RunnerRuns, BulkRuns, StatsRuns, FeedRuns, SeriesRuns:
      concrete runs, at which every theorem with hypotheses is applied.

    ** What is proved

    - The runtime (Machine): in every reachable state the tables are well formed; no
      two claims name the same job and attempt, and at most one is held; a claim once
      lost stays fenced; a declared barrier always has a live child whose end checks
      it; a terminal job changes only by an audited retry or delete.
    - Attempts (Plan, Finalize, Claim, Sweep, Barrier): what a finalize writes, when
      it is superseded, what it records; both dialects implement the claim and
      reclaim contracts and agree with each other; a sweep ends and reports its work;
      a barrier fires once; a fan-out does not depend on its chunk size; a seeded run
      keeps the run tables in order.
    - The runner (Pool, Runner): slots and permits are accounted for exactly under
      every interleaving; Stop ends the claiming and a drain waits for every job; what
      each return of the poll loop means, and after how many failed polls a drain
      gives up; the observer is told what was persisted; a failed attempt always
      settles; a heartbeat cancels an attempt only for a cancelled job; a job of no
      registered kind writes a bounded number of runs.
    - Producers and operators (Client, Controls): one row or the holder of the key;
      each control's effect, audit row and refusals; the scoped batches end.
    - Replay and bulk (Batch, Replay, Bulk, BulkWalk, BulkRun): an undisturbed replay
      is its cohort visited one job at a time, and an undisturbed bulk apply one pass
      in id order, however they are cut into batches and rerun after a lost race; a
      dry run predicts an apply; a batch beside other writers changes only what it may
      and reports, or rolls back; a call stays within its limit, and is refused whole
      when its selection passes it. A long enough stagger overflows int64.
    - Listings (Query, Ids): the pages of a listing hold every match once, in order;
      cursors read back under their sort; counts are exact up to their cap; a created
      window is a range of ids.
    - Periodics (Periodic, Scheduler): every reachable job_periodics table is well
      formed; the closed forms fire what walking the schedule would; a tick drains
      what is due; a bucket is enqueued once; a pause holds until a resume, which
      skips the backlog; a reconcile only inserts. A cron expression that matches no
      time is accepted by an update and then no tick ends.
    - Maintenance (Retention, Maintenance, Hist): a pass deletes exactly the expired
      jobs; stopped early it reports what it did; the most specific rule decides; a
      constructed scheduler's windows and intervals are sound; a stored histogram
      reads back.
    - Statistics (Rollup, Stats and their facts): passes and rebuilds, beside any
      other sessions, keep every covered hour equal to the aggregate of its runs and
      inserts and its error groups to its failures; they end; a pass that says it caught up has, within its ceiling; a
      rebuild without Force loses no count; a read served half from rollups, and every
      point of a series, and the error groups of a window are those of the raw runs;
      baselines are their kinds' runs,
      and the memo never serves past the version it was computed at; the first pass
      after an upgrade completes the finish log and recounts what it covers. Day buckets drift
      off midnight where the clock skips one.
    - The finish feed (Feed): a reader that polls is given every wanted finish once and
      in order, provided commits land within the settle window, and catches up.
    - The limiter (Limiter): unexpired holds never exceed the ceiling, and a window
      of operations grants at most its burst and accrual.

    ** Fuel

    A loop whose end depends on the data takes a bound on its iterations and returns
    [None] when it is spent. The theorems about such loops (sweep, scoped batches,
    replay, bulk, pages, retention, cron walks, bounds) show that a stated bound, one more than the rows
    left to handle, is enough, so [None] is never the answer they rely on; for the
    impossible cron expression they show that none is.

    ** Assumptions

    models.NewID never repeats an id (an id history is part of Machine's state); a
    worker's result that declares a barrier has a parent-marked follow-up that lands
    ([step_finalize]'s premise; Witnesses shows what happens without it); go-foundation's
    request-id metadata and backoff, Go's regular expressions, case folding and
    SHA-256, PostgreSQL's containment and ILIKE, encoding/json on a cursor, and
    robfig/cron are classes with their documented laws, each with a
    concrete instance in the witnesses.

    ** Not modelled

    The runner's log lines, starvation warning, captured run logs and progress (what
    its timers and contexts do is an argument of the loop and the attempt);
    the floating-point quantile and the stored percentiles; SQLite's text form of a
    time, and so the re-stamping of old rows in UTC; the read models other than
    job listings, statistics and the finish feed; schema and index DDL beyond the unique indexes' meaning; the in-process token bucket, which
    is floating point; node registration; the command line, observers, workers and
    load tests. job_run_logs rows, which are deleted with their runs, are left out of
    the tables. *)

From stdpp Require Export base gmap sets list strings sorting fin_maps.
From Stdlib Require Export ZArith Lia.

(** ** Results: Go's [(value, error)] pairs, with a transaction's rollback *)

Inductive result (E A : Type) : Type :=
| Ok (a : A)
| Err (e : E).
Arguments Ok {E A} _.
Arguments Err {E A} _.

Declare Scope flywheel_scope.
Delimit Scope flywheel_scope with fw.
Open Scope flywheel_scope.

(** [let? x := c in k]: the Go idiom [x, err := c; if err != nil { return err }]. *)
Notation "'let?' x := c 'in' k" :=
  (match c with Ok x => k | Err e => Err e end)
  (at level 10, x name, c at level 100, k at level 200) : flywheel_scope.
Notation "'let?' ' p := c 'in' k" :=
  (match c with Ok p => k | Err e => Err e end)
  (at level 10, p pattern, c at level 100, k at level 200) : flywheel_scope.

(** ** Go integers *)

Definition int64_min : Z := - 2 ^ 63.
Definition int64_max : Z := 2 ^ 63 - 1.
Definition in_int64 (z : Z) : Prop := (int64_min ≤ z ≤ int64_max)%Z.

(** Two's-complement wrap-around of int64 arithmetic. *)
Definition wrap64 (z : Z) : Z := ((z + 2 ^ 63) mod 2 ^ 64 - 2 ^ 63)%Z.

Lemma wrap64_id z : in_int64 z → wrap64 z = z.
Proof. unfold in_int64, wrap64, int64_min, int64_max. intros. rewrite Z.mod_small; lia. Qed.

Lemma wrap64_range z : in_int64 (wrap64 z).
Proof.
  unfold in_int64, wrap64, int64_min, int64_max.
  pose proof (Z.mod_pos_bound (z + 2 ^ 63) (2 ^ 64) ltac:(lia)). lia.
Qed.

(** ** Go times and durations

    A [time.Time] is its instant in nanoseconds since the Unix epoch and a
    [time.Duration] is int64 nanoseconds. [time.Time.Sub] saturates; the zero
    [time.Time] is the instant of January 1 of year 1. *)

Definition second : Z := 1000000000.
Definition millisecond : Z := 1000000.
Definition minute : Z := (60 * second)%Z.
Definition zero_time : Z := (-62135596800 * second)%Z.
Definition is_zero_time (t : Z) : bool := Z.eqb t zero_time.
Definition time_sub (a b : Z) : Z := Z.max int64_min (Z.min int64_max (a - b)%Z).
(** [Duration.Milliseconds]: integer division truncating toward zero. *)
Definition milliseconds (d : Z) : Z := Z.quot d millisecond.

Lemma time_sub_exact a b : in_int64 (a - b)%Z → time_sub a b = (a - b)%Z.
Proof. unfold time_sub, in_int64. lia. Qed.

(** ** Go strings and slices *)

Definition is_empty (s : string) : bool := bool_decide (s = "").
Definition str_mem (s : string) (l : list string) : bool := bool_decide (s ∈ l).

(** [orString], [orInt], [orDuration] of client.go. *)
Definition orString (value fallback : string) : string :=
  if is_empty value then fallback else value.
Definition orInt (value fallback : Z) : Z :=
  if (value =? 0)%Z then fallback else value.
Definition orDuration (value fallback : Z) : Z :=
  if (value <=? 0)%Z then fallback else value.
(** [derefString] of batch.go. *)
Definition derefString (p : option string) : string := default "" p.

(** ** Row order

    A SQL query returns rows in an order the source only partly fixes: rows that
    tie under ORDER BY, and every row of a query without one, come in whatever
    order the database scans them. [scan] is that order; all that is known of it
    is that it neither drops nor invents a row. *)
Class RowOrder := {
  scan : ∀ {A : Type}, list A → list A;
  scan_perm : ∀ {A : Type} (l : list A), scan l ≡ₚ l
}.

(** The order that leaves rows as they are stored, for concrete evaluation. *)
Definition stored_order : RowOrder := {| scan A l := l; scan_perm A l := reflexivity l |}.
(** Its reverse, a second concrete order. *)
Definition reversed_order : RowOrder :=
  {| scan A l := reverse l; scan_perm A l := reverse_Permutation l |}.

(** ** Lists *)

Lemma filter_all {A} (P : A → Prop) `{!∀ x, Decision (P x)} (l : list A) :
  Forall P l → filter P l = l.
Proof. induction 1; [done|]. rewrite filter_cons_True by done. by f_equal. Qed.

Lemma filter_iff_in {A} (P Q : A → Prop) `{!∀ x, Decision (P x), !∀ x, Decision (Q x)}
    (l : list A) :
  (∀ x, x ∈ l → P x ↔ Q x) → filter P l = filter Q l.
Proof.
  induction l as [|x l IH]; intros Hl; [done|]. rewrite !filter_cons.
  rewrite IH by (intros; apply Hl; by right). pose proof (Hl x ltac:(left)).
  destruct (decide (P x)), (decide (Q x)); tauto || done.
Qed.

(** ** ORDER BY ... LIMIT n *)
Section page.
Context {A : Type} (R : relation A) `{!RelDecision R, !Transitive R, !Total R}.

Definition page (n : nat) (l : list A) : list A := take n (merge_sort R l).

Lemma page_subset n l x : x ∈ page n l → x ∈ l.
Proof.
  unfold page. intros Hx. rewrite <-(merge_sort_Permutation R l).
  eapply subseteq_take; eauto.
Qed.

Lemma page_length n l : length (page n l) = n `min` length l.
Proof. unfold page. by rewrite length_take, (merge_sort_Permutation R l). Qed.

Lemma page_sorted n l : StronglySorted R (page n l).
Proof.
  unfold page. pose proof (StronglySorted_merge_sort R l) as H.
  rewrite <-(take_drop n (merge_sort R l)) in H.
  by apply StronglySorted_app_1_l in H.
Qed.

(** Everything the page leaves out sorts after everything on it. *)
Lemma page_best n l x y : x ∈ page n l → y ∈ l → y ∉ page n l → R x y.
Proof.
  unfold page. intros Hx Hy Hny.
  pose proof (StronglySorted_merge_sort R l) as H.
  rewrite <-(merge_sort_Permutation R l) in Hy.
  rewrite <-(take_drop n (merge_sort R l)) in H, Hy.
  apply elem_of_app in Hy as [Hy|Hy]; [by destruct Hny|].
  eapply StronglySorted_app_1_elem_of; eauto.
Qed.

Lemma page_all n l : length l ≤ n → page n l ≡ₚ l.
Proof.
  intros Hl. unfold page. rewrite take_ge; [apply merge_sort_Permutation|].
  by rewrite (merge_sort_Permutation R l).
Qed.

Lemma page_NoDup n l : NoDup l → NoDup (page n l).
Proof.
  intros H. eapply sublist_NoDup; [|apply sublist_take].
  by rewrite (merge_sort_Permutation R l).
Qed.

Lemma page_short n l : length (page n l) < n → page n l ≡ₚ l.
Proof. rewrite page_length. intros. apply page_all. lia. Qed.
End page.
