(* ===== verification/Types.v ===== *)
(** * The runtime's vocabulary: internal/core/types.go, rows.go, driver.go, errors.go

    States, outcomes and error classes are Go string types with named
    constants; each is an inductive type with one constructor per constant and
    one for every other string a column may hold. Rows are the GORM structs.
    JSON columns: [tags] is held as the list it encodes, [barrier_spec] as the
    struct it encodes, [args], [metadata], [output] and [error_payload] as text. *)

From S2P Require Import Prelude.

(** ** ErrorClass, JobState, RunOutcome *)

Inductive ErrorClass :=
| ErrorTransient | ErrorPermanent | ErrorValidation | ErrorTimeout
| ErrorClassOther (s : string).
#[global] Instance ErrorClass_eq_dec : EqDecision ErrorClass.
Proof. solve_decision. Defined.

(** [ErrorClass.Valid]. *)
Definition ErrorClass_Valid (c : ErrorClass) : bool :=
  match c with ErrorClassOther _ => false | _ => true end.

Inductive JobState :=
| StateAvailable | StateRunning | StateRetryable | StateScheduled | StatePaused
| StateSucceeded | StateCancelled | StateDiscarded
| StateOther (s : string).
#[global] Instance JobState_eq_dec : EqDecision JobState.
Proof. solve_decision. Defined.

(** [JobState.Valid]. *)
Definition JobState_Valid (s : JobState) : bool :=
  match s with StateOther _ => false | _ => true end.

Inductive RunOutcome :=
| OutcomeStarted | OutcomeSuccess | OutcomeError | OutcomeSnooze
| OutcomeCancelled | OutcomeTimeout | OutcomeCrashed
| OutcomeOther (s : string).
#[global] Instance RunOutcome_eq_dec : EqDecision RunOutcome.
Proof. solve_decision. Defined.

(** [RunOutcome.Valid]. *)
Definition RunOutcome_Valid (o : RunOutcome) : bool :=
  match o with OutcomeOther _ => false | _ => true end.

(** ** State sets of read.go, progress.go, driver.go, job_controls.go *)

Definition NonTerminalStates : list JobState :=
  [StateAvailable; StateRunning; StateRetryable; StateScheduled; StatePaused].
Definition TerminalStates : list JobState :=
  [StateSucceeded; StateCancelled; StateDiscarded].
Definition claimableStates : list JobState :=
  [StateAvailable; StateRetryable; StateScheduled].
Definition waitingStates : list JobState :=
  [StateAvailable; StateRetryable; StateScheduled; StatePaused].
Definition state_in (s : JobState) (l : list JobState) : bool := bool_decide (s ∈ l).
Definition isTerminalStateString (s : JobState) : bool :=
  match s with StateSucceeded | StateCancelled | StateDiscarded => true | _ => false end.

Lemma isTerminal_spec s : isTerminalStateString s = state_in s TerminalStates.
Proof. destruct s; reflexivity. Qed.

(** A recognized state is terminal or live, never both. *)
Lemma terminal_or_live s :
  JobState_Valid s = true → state_in s NonTerminalStates = negb (isTerminalStateString s).
Proof. by destruct s. Qed.

(** ** Values of type [any] and worker errors

    The runtime only ever passes an [any] to json.Marshal: it is the text that
    returns, or nothing when the value cannot be encoded. *)
Definition goany : Type := option string.

(** The parts of a worker error the driver reads: its message, the
    [classifiedError] in its chain (class and retry delay), the stack of a
    recovered panic, and the value of an [ErrorFingerprinter] in its chain. *)
Record WorkErr := {
  we_message : string;
  we_classified : option (ErrorClass * Z);
  we_panic_stack : option string;
  we_fingerprinter : option string
}.

(** ** Options *)

Record InsertOpts := {
  o_Queue : string; o_UniqueKey : string; o_UniqueActiveKey : string;
  o_ScheduleAt : option Z; o_Parent : option string; o_Priority : Z;
  o_ExecutorClass : string; o_MaxAttempts : Z; o_Timeout : Z;
  (** Whether [Tx] is set: the insert runs on a caller's transaction. *)
  o_Tx : bool;
  o_RequestID : string; o_Tags : list string; o_Metadata : gmap string goany
}.
Definition zero_opts : InsertOpts :=
  {| o_Queue := ""; o_UniqueKey := ""; o_UniqueActiveKey := ""; o_ScheduleAt := None;
     o_Parent := None; o_Priority := 0; o_ExecutorClass := ""; o_MaxAttempts := 0;
     o_Timeout := 0; o_Tx := false; o_RequestID := ""; o_Tags := []; o_Metadata := ∅ |}.

(** [kindDefaults] of registry.go. *)
Record kindDefaults := {
  kd_queue : string; kd_priority : Z; kd_maxAttempts : Z; kd_timeout : Z;
  kd_executorClass : string; kd_tags : list string
}.

(** [kindDefaultsOf]: the fields of a worker's Defaults() an insert reads. *)
Definition kindDefaultsOf (o : InsertOpts) : kindDefaults :=
  {| kd_queue := o_Queue o; kd_priority := o_Priority o; kd_maxAttempts := o_MaxAttempts o;
     kd_timeout := o_Timeout o; kd_executorClass := o_ExecutorClass o; kd_tags := o_Tags o |}.

(** [kindDefaults.applyTo]; a nil receiver returns the options unchanged. *)
Definition applyTo (d : option kindDefaults) (o : InsertOpts) : InsertOpts :=
  match d with
  | None => o
  | Some d =>
    {| o_Queue := if is_empty (o_Queue o) then kd_queue d else o_Queue o;
       o_UniqueKey := o_UniqueKey o; o_UniqueActiveKey := o_UniqueActiveKey o;
       o_ScheduleAt := o_ScheduleAt o; o_Parent := o_Parent o;
       o_Priority := if (o_Priority o =? 0)%Z then kd_priority d else o_Priority o;
       o_ExecutorClass :=
         if is_empty (o_ExecutorClass o) then kd_executorClass d else o_ExecutorClass o;
       o_MaxAttempts := if (o_MaxAttempts o =? 0)%Z then kd_maxAttempts d else o_MaxAttempts o;
       o_Timeout := if (o_Timeout o =? 0)%Z then kd_timeout d else o_Timeout o;
       o_Tx := o_Tx o; o_RequestID := o_RequestID o;
       o_Tags := match o_Tags o with [] => kd_tags d | _ => o_Tags o end;
       o_Metadata := o_Metadata o |}
  end.

(** The part of a Registry the driver reads: each registered kind's defaults,
    [None] for a worker that declares none. *)
Definition Registry : Type := gmap string (option kindDefaults).

(** [Registry.defaultsFor]; a nil registry has none. *)
Definition defaultsFor (reg : option Registry) (kind : string) : option kindDefaults :=
  match reg with
  | None => None
  | Some m => match m !! kind with Some d => d | None => None end
  end.

(** ** Worker results *)

Record FollowUp := {
  fu_Kind : string; fu_Args : goany; fu_Queue : string; fu_UniqueKey : string;
  fu_ScheduleAt : option Z; fu_Parent : bool; fu_Priority : Z;
  fu_ExecutorClass : string; fu_Tags : list string; fu_Metadata : gmap string goany
}.

Record Barrier := {
  b_Kind : string; b_Args : goany; b_Queue : string; b_ExecutorClass : string;
  b_Priority : Z
}.

Record Result := {
  (** [None] is a nil output; [Some v] is json.Marshal's view of it. *)
  res_Output : option goany;
  res_Snooze : option Z;
  res_Cancel : bool;
  res_FollowUps : list FollowUp;
  res_Barrier : option Barrier;
  res_CostMicros : Z
}.
Definition zero_result : Result :=
  {| res_Output := None; res_Snooze := None; res_Cancel := false; res_FollowUps := [];
     res_Barrier := None; res_CostMicros := 0 |}.

(** [barrierSpec] of driver.go: the resolved continuation a barrier stores. *)
Record barrierSpec := {
  bs_Args : string; bs_Queue : string; bs_ExecutorClass : string; bs_Priority : Z;
  bs_MaxAttempts : Z; bs_TimeoutMs : Z; bs_Tags : list string
}.

(** ** Rows *)

Record jobRow := {
  j_ID : string; j_CreatedAt : Z; j_UpdatedAt : Z; j_Metadata : string;
  j_Kind : string; j_Queue : string; j_Args : string; j_Priority : Z;
  j_State : JobState; j_Attempt : Z; j_MaxAttempts : Z; j_TimeoutMs : option Z;
  j_ScheduledAt : Z; j_LeasedUntil : option Z; j_LeaseToken : option string;
  j_UniqueKey : option string; j_UniqueActiveKey : option string;
  j_ParentJobID : option string; j_ExecutorClass : string; j_FinalizedAt : option Z;
  j_BarrierKind : option string; j_BarrierSpec : option barrierSpec;
  j_Tags : list string; j_DeletedAt : option Z
}.
#[global] Instance barrierSpec_eq_dec : EqDecision barrierSpec.
Proof. solve_decision. Defined.
#[global] Instance jobRow_eq_dec : EqDecision jobRow.
Proof. solve_decision. Defined.

Record jobRunRow := {
  r_ID : string; r_JobID : string; r_Attempt : Z; r_Kind : string; r_Queue : string;
  r_ExecutorClass : string; r_ExecutorID : string; r_StartedAt : Z;
  r_FinishedAt : option Z; r_Outcome : RunOutcome; r_ErrorClass : option ErrorClass;
  r_ErrorMessage : option string; r_ErrorPayload : option string;
  r_Output : option string; r_DurationMs : option Z; r_QueueWaitMs : option Z;
  r_CostMicros : option Z; r_EnqueuedChildren : Z; r_ErrorFingerprint : option string;
  r_JobState : option JobState; r_Superseded : bool; r_CreatedAt : Z
}.

(** A claimed jobs row as the driver returns it. *)
Record RawJob := {
  raw_ID : string; raw_Kind : string; raw_Queue : string; raw_Args : string;
  raw_Attempt : Z; raw_MaxAttempts : Z; raw_TimeoutMs : option Z;
  raw_LeaseToken : string; raw_ParentJobID : option string; raw_Tags : list string;
  raw_CreatedAt : Z; raw_ScheduledAt : Z; raw_Metadata : string
}.

(** [rawFromRow]: the row as a RawJob under the given attempt and token. *)
Definition rawFromRow (r : jobRow) (attempt : Z) (leaseToken : string) : RawJob :=
  {| raw_ID := j_ID r; raw_Kind := j_Kind r; raw_Queue := j_Queue r; raw_Args := j_Args r;
     raw_Attempt := attempt; raw_MaxAttempts := j_MaxAttempts r;
     raw_TimeoutMs := j_TimeoutMs r; raw_LeaseToken := leaseToken;
     raw_ParentJobID := j_ParentJobID r; raw_Tags := j_Tags r;
     raw_CreatedAt := j_CreatedAt r; raw_ScheduledAt := j_ScheduledAt r;
     raw_Metadata := j_Metadata r |}.

(** ** Errors of errors.go, and the driver's own *)

Inductive error :=
| ErrJobNotFound | ErrJobRunning | ErrJobTerminal | ErrJobNotTerminal
| ErrFollowUpLimit | ErrBarrierNoChildren | ErrBarrierTooWide
| ErrAlreadyEnqueued
(** [*AlreadyEnqueuedError] naming the holder and the key. *)
| AlreadyEnqueuedError (existingID key : string)
| ErrMissingKind
(** [newValidationError field _]. *)
| ValidationError (field : string)
(** json.Marshal refused a value. *)
| ErrMarshal
(** gorm.ErrRecordNotFound, where the code does not map it. *)
| ErrRecordNotFound
(** The database refused a row on a unique index. *)
| ErrDuplicateKey
(** [updateLockedJob]'s "changed while it was locked". *)
| ErrChangedWhileLocked
(** The context was cancelled. *)
| ErrContext
(** A host's audit hook refused the change. *)
| ErrAuditHook
| ErrPeriodicNotFound
(** errPeriodicNoSchedule: a definition with neither a cron nor an interval. *)
| ErrPeriodicNoSchedule
(** [*cronSpecError], or cron.ParseStandard's own error. *)
| ErrCronSpec
(** upsertPeriodic's "inserted and removed concurrently". *)
| ErrRemovedConcurrently
(** TriggerPeriodic's "the insert collided with a job already enqueued". *)
| ErrCollided
| ErrRunAlreadyRecorded
(** parseSparseHist's "decode histogram" errors. *)
| ErrDecodeHistogram
(** A Go run-time panic: an index out of range. *)
| ErrPanic
(** NewSchedulerWithConfig's refusals; the last wraps ErrValidation. *)
| ErrSchedulerNeedsDB | ErrSchedulerNeedsClient | ErrSchedulerNeedsDriver | ErrSchedulerConfig
(** Replay and BulkJobs: neither a kind, a window, a filter nor ids bound the call,
    or more jobs match than its limit. *)
| ErrReplayUnbounded | ErrBulkUnbounded | ErrBulkTooLarge
(** SQLSTATE 40P01 and 40001: a deadlock, a serialization failure. *)
| ErrDeadlock | ErrSerialization
(** deleteJobRows removed fewer jobs than it was given. *)
| ErrDeletedFewer
(** ErrorContains or a containment filter on a dialect without it. *)
| ErrUnsupportedDialect
(** errRollupWouldShrink, ErrStatsNotRolledUp, and "unsupported hist_version". *)
| ErrRollupWouldShrink | ErrStatsNotRolledUp | ErrHistVersion.
#[global] Instance error_eq_dec : EqDecision error.
Proof. solve_decision. Defined.

Abbreviation res := (result error).

(** ** Driver options *)

Record DriverOpts := {
  SweepBatchSize : Z; FollowUpChunkSize : Z; FollowUpLimit : Z; MaxOutputBytes : Z;
  BarrierMaxChildren : Z; MaxCrashes : Z
}.
Definition zero_driver_opts : DriverOpts :=
  {| SweepBatchSize := 0; FollowUpChunkSize := 0; FollowUpLimit := 0; MaxOutputBytes := 0;
     BarrierMaxChildren := 0; MaxCrashes := 0 |}.

Definition defaultSweepBatchSize : Z := 1000.
Definition defaultFollowUpChunk : Z := 500.
Definition defaultFollowUpLimit : Z := 10000.
Definition defaultBarrierMaxChildren : Z := 10000.
Definition defaultMaxOutputBytes : Z := 64 * 1024.

Definition sweepBatchSize (o : DriverOpts) : Z :=
  if (SweepBatchSize o <=? 0)%Z then defaultSweepBatchSize else SweepBatchSize o.
Definition followUpChunkSize (o : DriverOpts) : Z :=
  if (FollowUpChunkSize o <=? 0)%Z then defaultFollowUpChunk else FollowUpChunkSize o.
Definition followUpLimit (o : DriverOpts) : Z :=
  if (FollowUpLimit o <=? 0)%Z then defaultFollowUpLimit else FollowUpLimit o.
Definition maxOutputBytes (o : DriverOpts) : Z :=
  if (MaxOutputBytes o <=? 0)%Z then defaultMaxOutputBytes else MaxOutputBytes o.
Definition barrierMaxChildren (o : DriverOpts) : Z :=
  if (BarrierMaxChildren o <=? 0)%Z then defaultBarrierMaxChildren else BarrierMaxChildren o.

(** No batching bound of a driver is ever unbounded or zero. *)
Lemma driver_bounds_positive o :
  (0 < sweepBatchSize o ∧ 0 < followUpChunkSize o ∧ 0 < followUpLimit o ∧
   0 < maxOutputBytes o ∧ 0 < barrierMaxChildren o)%Z.
Proof.
  unfold sweepBatchSize, followUpChunkSize, followUpLimit, maxOutputBytes, barrierMaxChildren,
    defaultSweepBatchSize, defaultFollowUpChunk, defaultFollowUpLimit, defaultMaxOutputBytes,
    defaultBarrierMaxChildren.
  repeat split; case_match; lia.
Qed.

(** Producer defaults of client.go. *)
Definition defaultQueue : string := "default".
Definition defaultPriority : Z := 100.
Definition defaultMaxAttempts : Z := 25.
