(* ===== verification/Text.v ===== *)
(** * Stored text: truncation, UTF-8 and JSON text

    [truncate] of driver.go, which every stored message and output goes through;
    Go's utf8.RuneStart and utf8.ValidString; and the JSON text encoding/json
    writes for the objects the runtime stores ([runErrorFields],
    [marshalRunOutput]). A Go string is a list of bytes. *)

From Stdlib Require Import Ascii.
From Stdlib Require String.
From stdpp Require Import pretty.
From S2P Require Import Prelude Types.

Abbreviation bytes := (list N).
Definition bytes_of (s : string) : bytes := N_of_ascii <$> Stdlib.Strings.String.list_ascii_of_string s.
Definition string_of (b : bytes) : string := Stdlib.Strings.String.string_of_list_ascii (ascii_of_N <$> b).
Definition len (s : string) : Z := Z.of_nat (String.length s).

(** ** UTF-8 *)

(** utf8.RuneStart: not a continuation byte, [b & 0xC0 != 0x80]. *)
Definition RuneStart (b : N) : bool := negb (N.land b 0xC0 =? 0x80)%N.

Definition between (lo hi b : N) : bool := ((lo <=? b) && (b <=? hi))%N.
Definition cont (b : N) : bool := between 0x80 0xBF b.

(** Well-formed sequences of two, three and four bytes (RFC 3629, as utf8). *)
Definition seq2 (b0 b1 : N) : bool := between 0xC2 0xDF b0 && cont b1.
Definition seq3 (b0 b1 b2 : N) : bool :=
  ((b0 =? 0xE0)%N && between 0xA0 0xBF b1 ||
   (b0 =? 0xED)%N && between 0x80 0x9F b1 ||
   (between 0xE1 0xEC b0 || between 0xEE 0xEF b0) && cont b1) && cont b2.
Definition seq4 (b0 b1 b2 b3 : N) : bool :=
  ((b0 =? 0xF0)%N && between 0x90 0xBF b1 ||
   (b0 =? 0xF4)%N && between 0x80 0x8F b1 ||
   between 0xF1 0xF3 b0 && cont b1) && cont b2 && cont b3.

(** utf8.Valid. *)
Fixpoint valid_utf8 (l : bytes) : bool :=
  match l with
  | [] => true
  | b0 :: l1 =>
    if (b0 <? 0x80)%N then valid_utf8 l1 else
    match l1 with
    | [] => false
    | b1 :: l2 =>
      if seq2 b0 b1 then valid_utf8 l2 else
      match l2 with
      | [] => false
      | b2 :: l3 =>
        if seq3 b0 b1 b2 then valid_utf8 l3 else
        match l3 with
        | [] => false
        | b3 :: l4 => if seq4 b0 b1 b2 b3 then valid_utf8 l4 else false
        end
      end
    end
  end.
Definition ValidString (s : string) : bool := valid_utf8 (bytes_of s).

(** ** truncate *)

(** The loop [for n > 0 && !utf8.RuneStart(s[n]) { n-- }]. *)
Fixpoint cut_point (l : bytes) (n : nat) : nat :=
  match n with
  | 0 => 0
  | S m => match l !! n with
           | Some b => if RuneStart b then n else cut_point l m
           | None => n
           end
  end.

Definition truncate_bytes (l : bytes) (n : nat) : bytes :=
  if length l <=? n then l else take (cut_point l n) l.
Definition truncate (s : string) (n : nat) : string := string_of (truncate_bytes (bytes_of s) n).

(** ** JSON text *)

Definition hex_digit (n : N) : ascii :=
  ascii_of_N (if (n <? 10)%N then 48 + n else 87 + n)%N.

(** The escapes of encoding/json with HTML escaping, for a byte below 0x80. *)
Definition json_escape_ascii (b : N) : string :=
  if (b =? 34)%N then String (ascii_of_N 92) (String (ascii_of_N 34) "")
  else if (b =? 92)%N then String (ascii_of_N 92) (String (ascii_of_N 92) "")
  else if (b =? 8)%N then "\b" else if (b =? 12)%N then "\f"
  else if (b =? 10)%N then "\n" else if (b =? 13)%N then "\r" else if (b =? 9)%N then "\t"
  else if ((b <? 32) || (b =? 38) || (b =? 60) || (b =? 62))%N then
    "\u00" +:+ String (hex_digit (b / 16)) (String (hex_digit (b mod 16)) "")
  else String (ascii_of_N b) "".

(** The body of a JSON string: an invalid byte is the replacement rune, and the
    line separators U+2028 and U+2029 are escaped. *)
Fixpoint json_body (l : bytes) : string :=
  match l with
  | [] => ""
  | b0 :: l1 =>
    if (b0 <? 0x80)%N then json_escape_ascii b0 +:+ json_body l1 else
    match l1 with
    | b1 :: l2 =>
      if seq2 b0 b1 then string_of [b0; b1] +:+ json_body l2 else
      match l2 with
      | b2 :: l3 =>
        if seq3 b0 b1 b2 then
          (if ((b0 =? 0xE2) && (b1 =? 0x80) && (b2 =? 0xA8))%N then "\u2028"
           else if ((b0 =? 0xE2) && (b1 =? 0x80) && (b2 =? 0xA9))%N then "\u2029"
           else string_of [b0; b1; b2]) +:+ json_body l3 else
        match l3 with
        | b3 :: l4 =>
          if seq4 b0 b1 b2 b3 then string_of [b0; b1; b2; b3] +:+ json_body l4
          else "\ufffd" +:+ json_body l1
        | [] => "\ufffd" +:+ json_body l1
        end
      | [] => "\ufffd" +:+ json_body l1
      end
    | [] => "\ufffd" +:+ json_body l1
    end
  end.
Definition quote : string := String (ascii_of_N 34) "".
Definition json_string (s : string) : string := quote +:+ json_body (bytes_of s) +:+ quote.

(** An object: its members in the order given, "key":value. *)
Fixpoint join_members (l : list (string * string)) : string :=
  match l with
  | [] => ""
  | [(k, v)] => json_string k +:+ ":" +:+ v
  | (k, v) :: l => json_string k +:+ ":" +:+ v +:+ "," +:+ join_members l
  end.
Definition json_object (l : list (string * string)) : string := "{" +:+ join_members l +:+ "}".

(** A map[string]any marshals with its keys sorted. *)
Definition json_map (m : gmap string string) : string :=
  json_object (merge_sort (λ a b, String.le a.1 b.1) (map_to_list m)).

(** ** runErrorFields and marshalRunOutput *)

Definition maxErrorMessage : nat := Z.to_nat 4096.
Definition maxPanicStack : nat := Z.to_nat 16384.
Definition truncatedOutputHead : nat := Z.to_nat 1024.

Definition runErrorFields (message stack : string) : string * string :=
  let stored := truncate message maxErrorMessage in
  let cut := if (len stored <? len message)%Z
             then [("message_bytes", pretty (len message))] else [] in
  let stk := if is_empty stack then []
             else [("stack", json_string (truncate stack maxPanicStack))] in
  let tr := if (len stored <? len message)%Z then [("truncated", "true")] else [] in
  (stored, json_object ([("message", json_string stored)] ++ cut ++ stk ++ tr)).

(** [TruncatedOutput]'s JSON, its fields in struct order. *)
Definition TruncatedOutput_json (size : Z) (head : string) : string :=
  json_object [("$truncated", "true"); ("$bytes", pretty size); ("$head", json_string head)].

(** An output is nil, a value json.Marshal encodes, or one it refuses. *)
Definition marshalRunOutput (output : option goany) (maxBytes : Z) : res (option string) :=
  match output with
  | None => Ok None
  | Some None => Err ErrMarshal
  | Some (Some out) =>
    if (len out <=? maxBytes)%Z then Ok (Some out)
    else Ok (Some (TruncatedOutput_json (len out) (truncate out truncatedOutputHead)))
  end.

Example json_string_escapes : json_string "a<b" = quote +:+ "a\u003cb" +:+ quote.
Proof. reflexivity. Qed.
Example truncate_mid_rune : truncate_bytes [0x61; 0xC3; 0xA9; 0x62]%N 2 = [0x61%N].
Proof. reflexivity. Qed.

(** ** Facts on truncation *)

Definition byte (b : N) : Prop := (b < 256)%N.

Lemma RuneStart_cont b : byte b → RuneStart b = negb (cont b).
Proof.
  intros Hb. unfold byte in Hb.
  assert (Forall (λ n, RuneStart (N.of_nat n) = negb (cont (N.of_nat n))) (seq 0 256)) as Hall.
  { apply (bool_decide_unpack _). vm_compute. exact I. }
  rewrite Forall_forall in Hall. specialize (Hall (N.to_nat b)).
  rewrite N2Nat.id in Hall. apply Hall. apply elem_of_seq. lia.
Qed.

Lemma bytes_of_byte s : Forall byte (bytes_of s).
Proof.
  apply Forall_forall. intros b (a & -> & _)%list_elem_of_fmap. apply N_ascii_bounded.
Qed.

Lemma string_of_bytes_of s : string_of (bytes_of s) = s.
Proof.
  unfold string_of, bytes_of. rewrite <-list_fmap_compose.
  rewrite (list_fmap_ext _ id); [rewrite list_fmap_id; apply String.string_of_list_ascii_of_string|].
  intros i a _. apply ascii_N_embedding.
Qed.

Lemma bytes_of_string_of l : Forall byte l → bytes_of (string_of l) = l.
Proof.
  intros Hl. unfold string_of, bytes_of.
  rewrite String.list_ascii_of_string_of_list_ascii, <-list_fmap_compose.
  rewrite <-(list_fmap_id l) at 2. apply list_fmap_ext.
  intros i b Hb. apply N_ascii_embedding. rewrite Forall_forall in Hl.
  by apply Hl, list_elem_of_lookup_2 with i.
Qed.

(** A cut point: the end of the text or the start of a rune. *)
Definition boundary (l : bytes) (k : nat) : Prop :=
  k = 0 ∨ k = length l ∨ ∃ b, l !! k = Some b ∧ RuneStart b = true.

Lemma cut_point_le l n : cut_point l n ≤ n.
Proof. induction n as [|n IH]; simpl; [done|]. repeat case_match; lia. Qed.

Lemma cut_point_boundary l n : n < length l → boundary l (cut_point l n).
Proof.
  induction n as [|n IH]; intros Hn; [by left|]. cbn [cut_point].
  destruct (lookup_lt_is_Some_2 l (S n) Hn) as [b Hb]. rewrite Hb.
  destruct (RuneStart b) eqn:E; [right; right; eauto|]. apply IH. lia.
Qed.

Lemma cut_point_maximal l n k :
  n < length l → k ≤ n → boundary l k → k ≤ cut_point l n.
Proof.
  induction n as [|n IH]; intros Hn Hk Hb; [lia|]. cbn [cut_point].
  destruct (lookup_lt_is_Some_2 l (S n) Hn) as [b Hl]. rewrite Hl.
  destruct (RuneStart b) eqn:E; [done|].
  assert (k ≠ S n). { intros ->. destruct Hb as [?|[?|(b' & Hb' & ?)]]; [lia..|congruence]. }
  apply IH; [lia|lia|done].
Qed.

Lemma seq2_cont b0 b1 : seq2 b0 b1 = true → cont b1 = true.
Proof. unfold seq2. by rewrite andb_true_iff; intros []. Qed.
Lemma between_cont lo hi b : (0x80 <= lo)%N → (hi <= 0xBF)%N → between lo hi b = true → cont b = true.
Proof. unfold cont, between. rewrite !andb_true_iff, !N.leb_le. lia. Qed.
Lemma seq3_cont b0 b1 b2 : seq3 b0 b1 b2 = true → cont b1 = true ∧ cont b2 = true.
Proof.
  unfold seq3. rewrite !andb_true_iff, !orb_true_iff, !andb_true_iff.
  intros [H ->]. split; [|done]. destruct H as [[[_ H]|[_ H]]|[_ H]]; [| |done];
    revert H; by apply between_cont.
Qed.
Lemma seq4_cont b0 b1 b2 b3 :
  seq4 b0 b1 b2 b3 = true → cont b1 = true ∧ cont b2 = true ∧ cont b3 = true.
Proof.
  unfold seq4. rewrite !andb_true_iff, !orb_true_iff, !andb_true_iff.
  intros [[H ->] ->]. split; [|done]. destruct H as [[[_ H]|[_ H]]|[_ H]]; [| |done];
    revert H; by apply between_cont.
Qed.

(** A boundary inside a sequence of continuation bytes is impossible. *)
Lemma boundary_skip b l1 l k :
  Forall byte l1 → Forall (λ b, cont b = true) l1 →
  boundary (b :: l1 ++ l) (S k) → length l1 ≤ k ∧ (boundary l (k - length l1)).
Proof.
  intros Hby Hc Hb. destruct (decide (length l1 ≤ k)) as [Hle|Hgt].
  - split; [done|]. destruct Hb as [?|[Hb|(c & Hc' & Hr)]]; [lia| |].
    + right; left. simpl in Hb. rewrite length_app in Hb. lia.
    + right; right. exists c. split; [|done]. simpl in Hc'.
      by rewrite lookup_app_r in Hc' by lia.
  - exfalso. destruct Hb as [?|[Hb|(c & Hc' & Hr)]]; [lia| |].
    + simpl in Hb. rewrite length_app in Hb. lia.
    + simpl in Hc'. rewrite lookup_app_l in Hc' by lia.
      assert (c ∈ l1) as Hin by (eapply list_elem_of_lookup_2; eauto).
      rewrite !Forall_forall in *. specialize (Hc c Hin). specialize (Hby c Hin).
      rewrite RuneStart_cont, Hc in Hr; done.
Qed.

Lemma take_S_app {A} (b : A) l1 l k :
  length l1 ≤ k → take (S k) (b :: l1 ++ l) = b :: l1 ++ take (k - length l1) l.
Proof. intros H. simpl. f_equal. rewrite take_app_ge by lia. done. Qed.

(** Cutting valid UTF-8 at a rune boundary leaves valid UTF-8. *)
Lemma valid_utf8_take_le n l k :
  length l ≤ n → Forall byte l → valid_utf8 l = true → boundary l k →
  valid_utf8 (take k l) = true.
Proof.
  revert l k. induction n as [|n IH]; intros l [|k] Hn Hby Hv Hb; try done.
  { by destruct l; [|simpl in Hn; lia]. }
  destruct l as [|b0 l1]; [done|]. inversion_clear Hby as [|? ? _ Hby1]. simpl in Hn.
  assert (∀ pre l, l1 = pre ++ l → Forall (λ b, cont b = true) pre → valid_utf8 l = true →
    take (S k) (b0 :: l1) = b0 :: pre ++ take (k - length pre) l ∧
    valid_utf8 (take (k - length pre) l) = true) as Hstep.
  { intros pre l -> Hc Hl. apply Forall_app in Hby1 as [Hbp Hbl].
    destruct (boundary_skip _ _ _ _ Hbp Hc Hb) as [Hle Hb'].
    rewrite take_S_app by done. split; [done|]. rewrite length_app in Hn. apply IH; auto. lia. }
  simpl in Hv. destruct (b0 <? 0x80)%N eqn:E1.
  { destruct (Hstep [] l1) as [-> Hok]; auto. simpl. by rewrite E1. }
  destruct l1 as [|b1 l2]; [done|]. destruct (seq2 b0 b1) eqn:E2.
  { destruct (Hstep [b1] l2) as [-> Hok]; eauto using seq2_cont. simpl. by rewrite E1, E2. }
  destruct l2 as [|b2 l3]; [done|]. destruct (seq3 b0 b1 b2) eqn:E3.
  { destruct (Hstep [b1; b2] l3) as [-> Hok]; auto; [apply seq3_cont in E3; naive_solver|].
    simpl. by rewrite E1, E2, E3. }
  destruct l3 as [|b3 l4]; [done|]. destruct (seq4 b0 b1 b2 b3) eqn:E4; [|done].
  destruct (Hstep [b1; b2; b3] l4) as [-> Hok]; auto; [apply seq4_cont in E4; naive_solver|].
  simpl. by rewrite E1, E2, E3, E4.
Qed.

Lemma truncate_bytes_sub l n : Forall byte l → Forall byte (truncate_bytes l n).
Proof. unfold truncate_bytes. case_match; auto using Forall_take. Qed.

Lemma truncate_bytes_valid l n :
  Forall byte l → valid_utf8 l = true → valid_utf8 (truncate_bytes l n) = true.
Proof.
  intros Hby Hv. unfold truncate_bytes. destruct (length l <=? n) eqn:E; [done|].
  apply Nat.leb_gt in E. eapply valid_utf8_take_le; eauto using cut_point_boundary.
Qed.

Lemma length_bytes_of s : length (bytes_of s) = String.length s.
Proof.
  unfold bytes_of. rewrite length_fmap. induction s as [|a s IH]; simpl; [done|]. by rewrite <-IH.
Qed.

(** ** What [truncate] promises *)

Lemma bytes_of_truncate s n : bytes_of (truncate s n) = truncate_bytes (bytes_of s) n.
Proof. apply bytes_of_string_of, truncate_bytes_sub, bytes_of_byte. Qed.

Lemma truncate_length s n : String.length (truncate s n) ≤ n.
Proof.
  rewrite <-length_bytes_of, bytes_of_truncate. unfold truncate_bytes.
  destruct (_ <=? n) eqn:E; [by apply Nat.leb_le in E|].
  rewrite length_take. pose proof (cut_point_le (bytes_of s) n). lia.
Qed.

(** Stored text is a prefix of the original of at most [n] bytes, it is the
    longest such prefix that splits no rune, and cutting valid UTF-8 leaves
    valid UTF-8. *)
Theorem truncate_correct s n :
  bytes_of (truncate s n) `prefix_of` bytes_of s ∧
  String.length (truncate s n) ≤ n ∧
  (ValidString s = true → ValidString (truncate s n) = true) ∧
  (∀ k, k ≤ n → boundary (bytes_of s) k → k ≤ String.length (truncate s n)).
Proof.
  split_and!; [|apply truncate_length| |].
  - rewrite bytes_of_truncate. unfold truncate_bytes. case_match; [done|]. apply prefix_take.
  - unfold ValidString. rewrite bytes_of_truncate.
    apply truncate_bytes_valid, bytes_of_byte.
  - intros k Hk Hb. rewrite <-length_bytes_of, bytes_of_truncate. unfold truncate_bytes.
    destruct (_ <=? n) eqn:E.
    + destruct Hb as [->|[->|(b & Hb%lookup_lt_Some & _)]]; lia.
    + apply Nat.leb_gt in E. rewrite length_take.
      pose proof (cut_point_maximal _ _ _ E Hk Hb). lia.
Qed.
