(* ===== verification/Json.v ===== *)
(** * JSON text: json.Valid

    encoding/json's scanner, which json.Valid runs over an args template before a
    periodic definition is stored: a pushdown automaton over the bytes, with its
    nesting limit. [Text] has the encoder's side. *)

From Stdlib Require Import Ascii.
From S2P Require Import Prelude Types Text.

(** The container a byte is inside: an array, an object before a colon, or an
    object after one. *)
Inductive parseState := parseObjectKey | parseObjectValue | parseArrayValue.

Inductive scanState :=
| BeginValue | BeginValueOrEmpty | BeginString | BeginStringOrEmpty | EndValue
| InString | InStringEsc | InStringEscU (left : nat)
| Neg | Zero | Digits | Dot | Fraction | Exp | ExpSign | ExpDigits
(** Inside true, false or null, with the bytes still due. *)
| Literal (due : bytes).

Definition maxNestingDepth : nat := Z.to_nat 10000.

Definition is_space (c : N) : bool := (c =? 32)%N || (c =? 9)%N || (c =? 13)%N || (c =? 10)%N.
Definition is_digit (c : N) : bool := between 48 57 c.
Definition is_hex (c : N) : bool := is_digit c || between 97 102 c || between 65 70 c.

Definition scan_result : Type := option (scanState * list parseState).

(** A byte after a complete value. *)
Definition stateEndValue (stack : list parseState) (c : N) : scan_result :=
  if is_space c then Some (EndValue, stack)
  else match stack with
  | [] => None
  | parseObjectKey :: st => if (c =? 58)%N then Some (BeginValue, parseObjectValue :: st) else None
  | parseObjectValue :: st =>
    if (c =? 44)%N then Some (BeginString, parseObjectKey :: st)
    else if (c =? 125)%N then Some (EndValue, st) else None
  | parseArrayValue :: st =>
    if (c =? 44)%N then Some (BeginValue, stack)
    else if (c =? 93)%N then Some (EndValue, st) else None
  end.

Definition push (s : parseState) (next : scanState) (stack : list parseState) : scan_result :=
  if length stack <? maxNestingDepth then Some (next, s :: stack) else None.

Definition stateBeginValue (stack : list parseState) (c : N) : scan_result :=
  if is_space c then Some (BeginValue, stack)
  else if (c =? 123)%N then push parseObjectKey BeginStringOrEmpty stack
  else if (c =? 91)%N then push parseArrayValue BeginValueOrEmpty stack
  else if (c =? 34)%N then Some (InString, stack)
  else if (c =? 45)%N then Some (Neg, stack)
  else if (c =? 48)%N then Some (Zero, stack)
  else if (c =? 116)%N then Some (Literal (bytes_of "rue"), stack)
  else if (c =? 102)%N then Some (Literal (bytes_of "alse"), stack)
  else if (c =? 110)%N then Some (Literal (bytes_of "ull"), stack)
  else if between 49 57 c then Some (Digits, stack)
  else None.

Definition stateBeginString (stack : list parseState) (c : N) : scan_result :=
  if is_space c then Some (BeginString, stack)
  else if (c =? 34)%N then Some (InString, stack) else None.

(** After a number's integer part without a leading zero, or after a zero. *)
Definition state0 (stack : list parseState) (c : N) : scan_result :=
  if (c =? 46)%N then Some (Dot, stack)
  else if ((c =? 101) || (c =? 69))%N then Some (Exp, stack)
  else stateEndValue stack c.

Definition step (st : scanState) (stack : list parseState) (c : N) : scan_result :=
  match st with
  | BeginValue => stateBeginValue stack c
  | BeginValueOrEmpty =>
    if is_space c then Some (BeginValueOrEmpty, stack)
    else if (c =? 93)%N then stateEndValue stack c else stateBeginValue stack c
  | BeginString => stateBeginString stack c
  | BeginStringOrEmpty =>
    if is_space c then Some (BeginStringOrEmpty, stack)
    else if (c =? 125)%N then
      match stack with _ :: st => stateEndValue (parseObjectValue :: st) c | [] => None end
    else stateBeginString stack c
  | EndValue => stateEndValue stack c
  | InString =>
    if (c =? 34)%N then Some (EndValue, stack)
    else if (c =? 92)%N then Some (InStringEsc, stack)
    else if (c <? 32)%N then None else Some (InString, stack)
  | InStringEsc =>
    if bool_decide (c ∈ bytes_of "bfnrt\/" ++ [34%N]) then Some (InString, stack)
    else if (c =? 117)%N then Some (InStringEscU 3, stack) else None
  | InStringEscU k =>
    if is_hex c then Some (match k with 0 => InString | S k => InStringEscU k end, stack) else None
  | Neg =>
    if (c =? 48)%N then Some (Zero, stack) else if between 49 57 c then Some (Digits, stack) else None
  | Zero => state0 stack c
  | Digits => if is_digit c then Some (Digits, stack) else state0 stack c
  | Dot => if is_digit c then Some (Fraction, stack) else None
  | Fraction =>
    if is_digit c then Some (Fraction, stack)
    else if ((c =? 101) || (c =? 69))%N then Some (Exp, stack) else stateEndValue stack c
  | Exp =>
    if ((c =? 43) || (c =? 45))%N then Some (ExpSign, stack)
    else if is_digit c then Some (ExpDigits, stack) else None
  | ExpSign => if is_digit c then Some (ExpDigits, stack) else None
  | ExpDigits => if is_digit c then Some (ExpDigits, stack) else stateEndValue stack c
  | Literal due =>
    match due with
    | d :: due => if (c =? d)%N then Some (match due with [] => EndValue | _ => Literal due end, stack) else None
    | [] => None
    end
  end.

(** The scan, and its end of input: as if one more space followed. *)
Fixpoint run_scan (st : scanState) (stack : list parseState) (l : bytes) : scan_result :=
  match l with
  | [] => Some (st, stack)
  | c :: l => match step st stack c with Some (st', stack') => run_scan st' stack' l | None => None end
  end.
Definition json_Valid (s : string) : bool :=
  match run_scan BeginValue [] (bytes_of s) with
  | Some (st, stack) => match step st stack 32 with Some (EndValue, []) => true | _ => false end
  | None => false
  end.

(** ** What the encoder writes, the scanner accepts *)

Lemma run_scan_app st stack l1 l2 :
  run_scan st stack (l1 ++ l2) =
  match run_scan st stack l1 with Some (st', stack') => run_scan st' stack' l2 | None => None end.
Proof.
  revert st stack. induction l1 as [|c l1 IH]; intros st stack; simpl; [done|].
  destruct (step st stack c) as [[st' stack']|]; [apply IH|done].
Qed.

(** Inside a string, these bytes are consumed without leaving it. *)
Definition in_string (l : bytes) : Prop := ∀ stack, run_scan InString stack l = Some (InString, stack).

Lemma in_string_app l1 l2 : in_string l1 → in_string l2 → in_string (l1 ++ l2).
Proof. intros H1 H2 stack. by rewrite run_scan_app, H1. Qed.
Lemma in_string_plain b : (32 ≤ b)%N → b ≠ 34%N → b ≠ 92%N → in_string [b].
Proof.
  intros Hb H1 H2 stack. simpl. rewrite (proj2 (N.eqb_neq _ _) H1), (proj2 (N.eqb_neq _ _) H2).
  by rewrite (proj2 (N.ltb_ge _ _) Hb).
Qed.

Lemma bytes_of_app s t : bytes_of (s +:+ t) = bytes_of s ++ bytes_of t.
Proof. induction s as [|c s IH]; [done|]. unfold bytes_of in *. simpl. by f_equal. Qed.

Lemma in_string_high l : Forall byte l → Forall (λ b, 0x80 ≤ b)%N l → in_string (bytes_of (string_of l)).
Proof.
  intros Hb Hl. rewrite bytes_of_string_of by done. clear Hb. induction Hl as [|b l H _ IH]; [done|].
  apply (in_string_app [b]); [apply in_string_plain; lia|done].
Qed.

Lemma in_string_escape b : (b < 0x80)%N → in_string (bytes_of (json_escape_ascii b)).
Proof.
  intros Hb.
  assert (∀ n, n < 128 → ∀ stack, run_scan InString stack (bytes_of (json_escape_ascii (N.of_nat n))) =
    Some (InString, stack)) as Hall.
  { intros n Hn stack. do 128 (destruct n as [|n]; [reflexivity|]). lia. }
  intros stack. rewrite <-(N2Nat.id b). apply Hall. lia.
Qed.

Lemma between_spec lo hi b : between lo hi b = true ↔ (lo ≤ b ≤ hi)%N.
Proof. unfold between. rewrite andb_true_iff, !N.leb_le. done. Qed.

Lemma seq_high b0 b1 b2 b3 :
  (seq2 b0 b1 = true → 0x80 ≤ b0 ∧ 0x80 ≤ b1)%N ∧
  (seq3 b0 b1 b2 = true → 0x80 ≤ b0 ∧ 0x80 ≤ b1 ∧ 0x80 ≤ b2)%N ∧
  (seq4 b0 b1 b2 b3 = true → 0x80 ≤ b0 ∧ 0x80 ≤ b1 ∧ 0x80 ≤ b2 ∧ 0x80 ≤ b3)%N.
Proof.
  unfold seq2, seq3, seq4, cont.
  rewrite !andb_true_iff, !orb_true_iff, !andb_true_iff, !orb_true_iff, !between_spec, !N.eqb_eq.
  split_and!; intros; repeat match goal with H : _ ∧ _ |- _ => destruct H | H : _ ∨ _ |- _ => destruct H end;
    split_and!; lia.
Qed.

Lemma in_string_body l : Forall byte l → in_string (bytes_of (json_body l)).
Proof.
  remember (length l) as n eqn:Hn. revert l Hn. induction (lt_wf n) as [n _ IH]. intros l -> Hl.
  destruct l as [|b0 l1]; [done|]. apply Forall_cons in Hl as [H0 Hl].
  assert (in_string (bytes_of (json_body l1))) as Hrest by (eapply IH; [|done|done]; simpl; lia).
  assert (in_string (bytes_of "\ufffd")) as Hbad by (intros stack; reflexivity).
  cbn [json_body]. destruct (N.ltb_spec b0 0x80) as [Hlow|Hhigh].
  { rewrite bytes_of_app. apply in_string_app; [by apply in_string_escape|done]. }
  destruct l1 as [|b1 l2]; [rewrite bytes_of_app; by apply in_string_app|].
  apply Forall_cons in Hl as [H1 Hl]. destruct (seq_high b0 b1 0 0) as [S2 _].
  destruct (seq2 b0 b1); [destruct (S2 eq_refl)|].
  { rewrite bytes_of_app. apply in_string_app; [apply in_string_high; by repeat constructor|].
    eapply IH; [|done|done]. simpl; lia. }
  destruct l2 as [|b2 l3]; [rewrite bytes_of_app; by apply in_string_app|].
  apply Forall_cons in Hl as [H2 Hl]. destruct (seq_high b0 b1 b2 0) as (_ & S3 & _).
  destruct (seq3 b0 b1 b2); [destruct (S3 eq_refl) as (? & ? & ?)|].
  { rewrite bytes_of_app. apply in_string_app; [|eapply IH; [|done|done]; simpl; lia].
    destruct (_ && _); [intros stack; reflexivity|]. destruct (_ && _); [intros stack; reflexivity|].
    apply in_string_high; by repeat constructor. }
  destruct l3 as [|b3 l4]; [rewrite bytes_of_app; by apply in_string_app|].
  apply Forall_cons in Hl as [H3 Hl]. destruct (seq_high b0 b1 b2 b3) as (_ & _ & S4).
  destruct (seq4 b0 b1 b2 b3); [destruct (S4 eq_refl) as (? & ? & ? & ?)|].
  - rewrite bytes_of_app. apply in_string_app; [apply in_string_high; by repeat constructor|].
    eapply IH; [|done|done]. simpl; lia.
  - rewrite bytes_of_app; by apply in_string_app.
Qed.

(** Every string the runtime encodes is a JSON text json.Valid accepts, whatever
    bytes it holds. *)
Theorem encoded_string_valid s : json_Valid (json_string s) = true.
Proof.
  unfold json_Valid, json_string, quote. rewrite !bytes_of_app.
  change (bytes_of (String _ "")) with [34%N]. cbn [app run_scan].
  change (step BeginValue [] 34) with (Some (InString, @nil parseState)). cbv iota.
  rewrite run_scan_app, in_string_body by apply bytes_of_byte. reflexivity.
Qed.
