(* ===== verification/Fingerprint.v ===== *)
(** * Error fingerprints: internal/core/fingerprint.go

    The regular-expression engine, Unicode case folding and SHA-256 are Go's
    standard library: [GoLib] names the calls the source makes, and the patterns
    and their order are the source's own. *)

From Stdlib Require Import Ascii.
From stdpp Require Import pretty.
From S2P Require Import Prelude Types Text.

Class GoLib := {
  (** strings.ToLower *)
  ToLower : string → string;
  (** strings.TrimSpace *)
  TrimSpace : string → string;
  (** regexp.MustCompile(pattern).ReplaceAllString(src, repl) *)
  ReplaceAllString : string → string → string → string;
  (** sha256.Sum256 *)
  Sum256 : bytes → bytes
}.

(** What is used of SHA-256: a digest is 32 bytes. *)
Class GoLibLaws `{GoLib} : Prop := {
  Sum256_length : ∀ l, length (Sum256 l) = 32;
  Sum256_bytes : ∀ l, Forall byte (Sum256 l)
}.

Definition uuidPattern : string :=
  "[0-9a-f]{8}-[0-9a-f]{4}-[0-9a-f]{4}-[0-9a-f]{4}-[0-9a-f]{12}".
Definition emailPattern : string := "[a-z0-9._%+-]+@[a-z0-9.-]+\.[a-z]{2,}".
Definition urlPattern : string := "[a-z][a-z0-9+.-]*://[^\s" +:+ quote +:+ "']+".
Definition hexPattern : string := "\b(?:0x)?[0-9a-f]{8,}\b".
Definition quotedPattern : string :=
  "(^|[^\pL\pN_])(?:'[^']*'|" +:+ quote +:+ "[^" +:+ quote +:+ "]*" +:+ quote +:+ ")".
Definition numberPattern : string := "[-+]?[0-9]+(?:[.:,][0-9]+)*".
Definition spacePattern : string := "\s+".

Definition fingerprintPrefix : string := "v1".
Definition fingerprintSep : string := String (ascii_of_N 31) "".
Definition maxNormalizedMessage : nat := 512.
Definition fingerprintLen : nat := 16.

(** The wire form of an error class. *)
Definition ErrorClass_string (c : ErrorClass) : string :=
  match c with
  | ErrorTransient => "transient" | ErrorPermanent => "permanent"
  | ErrorValidation => "validation" | ErrorTimeout => "timeout"
  | ErrorClassOther s => s
  end.

Section fingerprint.
Context `{GoLib}.

Definition NormalizeErrorMessage (message : string) : string :=
  let s := ToLower message in
  let s := ReplaceAllString uuidPattern s "<uuid>" in
  let s := ReplaceAllString emailPattern s "<email>" in
  let s := ReplaceAllString urlPattern s "<url>" in
  let s := ReplaceAllString hexPattern s "<hex>" in
  let s := ReplaceAllString quotedPattern s "${1}<q>" in
  let s := ReplaceAllString numberPattern s "<n>" in
  let s := ReplaceAllString spacePattern s " " in
  truncate (TrimSpace s) maxNormalizedMessage.

(** hex.EncodeToString. *)
Definition EncodeToString (l : bytes) : string :=
  string_of (l ≫= λ b, [N_of_ascii (hex_digit (b / 16)); N_of_ascii (hex_digit (b mod 16))]).

Definition fingerprintText (kind : string) (class : ErrorClass) (text : string) : string :=
  EncodeToString (take (fingerprintLen `div` 2)
    (Sum256 (bytes_of (fingerprintPrefix +:+ fingerprintSep +:+ kind +:+ fingerprintSep +:+
       ErrorClass_string class +:+ fingerprintSep +:+ text)))).

Definition ErrorFingerprint (kind : string) (class : ErrorClass) (message : string) : string :=
  fingerprintText kind class (NormalizeErrorMessage (truncate message maxErrorMessage)).

(** [cause] is the [ErrorFingerprinter] value of the error's chain, if any. *)
Definition fingerprintOf (kind : string) (class : ErrorClass) (storedMessage : string)
    (cause : option string) : string :=
  match cause with
  | Some custom =>
    if is_empty custom then fingerprintText kind class (NormalizeErrorMessage storedMessage)
    else fingerprintText kind class ("custom" +:+ fingerprintSep +:+ custom)
  | None => fingerprintText kind class (NormalizeErrorMessage storedMessage)
  end.

End fingerprint.

Definition failedOutcome (o : RunOutcome) : bool :=
  match o with OutcomeError | OutcomeTimeout => true | _ => false end.

Definition lower_hex (c : N) : bool := between 48 57 c || between 97 102 c.
Definition validFingerprint (s : string) : bool :=
  (String.length s =? fingerprintLen) && forallb lower_hex (bytes_of s).

(** ** Facts *)

Lemma hex_digit_lower n : (n < 16)%N → lower_hex (N_of_ascii (hex_digit n)) = true.
Proof.
  intros Hn. unfold hex_digit, lower_hex, between.
  destruct (n <? 10)%N eqn:E; rewrite N_ascii_embedding by (lia || (apply N.ltb_lt in E; lia)).
  - apply N.ltb_lt in E. apply orb_true_iff. left. apply andb_true_iff. rewrite !N.leb_le. lia.
  - apply N.ltb_ge in E. apply orb_true_iff. right. apply andb_true_iff. rewrite !N.leb_le. lia.
Qed.

Lemma EncodeToString_bytes l :
  bytes_of (EncodeToString l) =
  l ≫= λ b, [N_of_ascii (hex_digit (b / 16)); N_of_ascii (hex_digit (b mod 16))].
Proof.
  apply bytes_of_string_of. apply Forall_forall.
  intros x (b & Hx & _)%list_elem_of_bind.
  rewrite !elem_of_cons, elem_of_nil in Hx.
  destruct Hx as [->|[->|[]]]; apply N_ascii_bounded.
Qed.

Lemma EncodeToString_shape l :
  Forall byte l →
  String.length (EncodeToString l) = 2 * length l ∧
  forallb lower_hex (bytes_of (EncodeToString l)) = true.
Proof.
  intros Hl. rewrite <-length_bytes_of, EncodeToString_bytes.
  induction Hl as [|b l Hb Hl [IH1 IH2]]; [done|]. unfold byte in Hb. rewrite bind_cons. split.
  - rewrite length_app, IH1. simpl. lia.
  - rewrite forallb_app, IH2. cbn [forallb]. rewrite !hex_digit_lower; [done| |].
    + apply N.mod_lt. lia.
    + apply N.Div0.div_lt_upper_bound. lia.
Qed.

Section fingerprint_facts.
Context `{GoLibLaws}.

Lemma fingerprintText_valid kind class text :
  validFingerprint (fingerprintText kind class text) = true.
Proof.
  unfold validFingerprint, fingerprintText.
  set (d := Sum256 _). pose proof (Sum256_length _ : length d = 32) as Hlen.
  destruct (EncodeToString_shape (take (fingerprintLen `div` 2) d)) as [H1 H2].
  { apply Forall_take, Sum256_bytes. }
  rewrite H1, H2, length_take, Hlen. reflexivity.
Qed.

(** Every fingerprint a run stores has the shape [validFingerprint] checks, and
    ErrorFingerprint of a message agrees with what a run that failed with it
    stores, whether it is computed from the whole message or from the message
    as the run stored it. *)
Theorem fingerprint_correct kind class message cause :
  validFingerprint (fingerprintOf kind class message cause) = true ∧
  ErrorFingerprint kind class message =
    fingerprintOf kind class (truncate message maxErrorMessage) None ∧
  ErrorFingerprint kind class (truncate message maxErrorMessage) =
    ErrorFingerprint kind class message.
Proof.
  split_and!.
  - unfold fingerprintOf. repeat case_match; apply fingerprintText_valid.
  - done.
  - unfold ErrorFingerprint. do 2 f_equal.
    unfold truncate at 1. rewrite bytes_of_truncate. unfold truncate_bytes at 1.
    pose proof (truncate_length message maxErrorMessage) as Hl.
    rewrite <-length_bytes_of, bytes_of_truncate in Hl. apply Nat.leb_le in Hl.
    rewrite Hl. done.
Qed.
End fingerprint_facts.

(** A digest of the right shape, to instantiate [GoLib]. *)
Definition toy_golib : GoLib :=
  {| ToLower s := s; TrimSpace s := s; ReplaceAllString _ src _ := src;
     Sum256 l := replicate 32 (N.of_nat (length l) mod 256)%N |}.
#[local] Existing Instance toy_golib.
Lemma toy_golib_laws : @GoLibLaws toy_golib.
Proof.
  split; intros l; simpl; [done|].
  repeat constructor; apply N.mod_lt; lia.
Qed.
