(* ===== verification/Store.v ===== *)
(** * The database: the jobs, job_runs, job_run_finishes and job_audit tables

    A table is a finite map from primary key to row. A statement is a function
    on the tables: [update_jobs] is GORM's [Model(&jobRow{}).Where(..).Updates(..)]
    (its soft-delete scope included), [insert_job] an INSERT under the partial
    unique indexes jobs_unique_key and jobs_unique_active_key of indexes.go, and
    [insert_skipping] an INSERT with a targetless ON CONFLICT DO NOTHING. *)

From S2P Require Import Prelude Types.

(** [jobAuditRow] of rows.go. The details column is the JSON object it encodes,
    before Marshal: its values are states, booleans, integers, instants or text. *)
Inductive detail :=
| DState (s : JobState) | DBool (b : bool) | DInt (z : Z) | DTime (t : Z) | DText (s : string)
(** An object whose members are integers; an absent member is omitted. *)
| DObject (m : gmap string Z).
Record jobAuditRow := {
  a_ID : string; a_CreatedAt : Z; a_TargetType : string; a_TargetID : string;
  a_Action : string; a_ActorType : string; a_ActorID : string; a_Reason : string;
  a_Source : string; a_RequestID : string; a_Details : gmap string detail
}.

Record db := {
  jobs : gmap string jobRow;
  job_runs : gmap string jobRunRow;
  job_run_finishes : gset (Z * string);
  job_audit : list jobAuditRow
}.
Definition empty_db : db :=
  {| jobs := ∅; job_runs := ∅; job_run_finishes := ∅; job_audit := [] |}.

Definition with_jobs (t : gmap string jobRow) (d : db) : db :=
  {| jobs := t; job_runs := job_runs d; job_run_finishes := job_run_finishes d;
     job_audit := job_audit d |}.
Definition with_runs (t : gmap string jobRunRow) (d : db) : db :=
  {| jobs := jobs d; job_runs := t; job_run_finishes := job_run_finishes d;
     job_audit := job_audit d |}.
Definition with_finishes (f : gset (Z * string)) (d : db) : db :=
  {| jobs := jobs d; job_runs := job_runs d; job_run_finishes := f; job_audit := job_audit d |}.
Definition with_audit (a : list jobAuditRow) (d : db) : db :=
  {| jobs := jobs d; job_runs := job_runs d; job_run_finishes := job_run_finishes d;
     job_audit := a |}.

(** ** Column assignments

    A [map[string]any] passed to Updates is a list of assignments. An expression
    (gorm.Expr) is a function of the row before the statement. *)
Inductive jobCol :=
| ColState (s : JobState)
| ColUpdatedAt (t : Z)
| ColLeasedUntil (t : option Z)
| ColLeaseToken (t : option string)
| ColScheduledAt (t : Z)
| ColFinalizedAt (t : option Z)
| ColAttempt (e : jobRow → Z)
| ColMaxAttempts (e : jobRow → Z)
| ColPriority (p : Z)
| ColBarrierKind (k : option string)
| ColBarrierSpec (s : option barrierSpec).

(** [set_col old c r] assigns column [c] of [r], evaluating expressions on [old]. *)
Definition set_col (old : jobRow) (r : jobRow) (c : jobCol) : jobRow :=
  {| j_ID := j_ID r; j_CreatedAt := j_CreatedAt r;
     j_UpdatedAt := match c with ColUpdatedAt t => t | _ => j_UpdatedAt r end;
     j_Metadata := j_Metadata r; j_Kind := j_Kind r; j_Queue := j_Queue r; j_Args := j_Args r;
     j_Priority := match c with ColPriority p => p | _ => j_Priority r end;
     j_State := match c with ColState s => s | _ => j_State r end;
     j_Attempt := match c with ColAttempt e => e old | _ => j_Attempt r end;
     j_MaxAttempts := match c with ColMaxAttempts e => e old | _ => j_MaxAttempts r end;
     j_TimeoutMs := j_TimeoutMs r;
     j_ScheduledAt := match c with ColScheduledAt t => t | _ => j_ScheduledAt r end;
     j_LeasedUntil := match c with ColLeasedUntil t => t | _ => j_LeasedUntil r end;
     j_LeaseToken := match c with ColLeaseToken t => t | _ => j_LeaseToken r end;
     j_UniqueKey := j_UniqueKey r; j_UniqueActiveKey := j_UniqueActiveKey r;
     j_ParentJobID := j_ParentJobID r; j_ExecutorClass := j_ExecutorClass r;
     j_FinalizedAt := match c with ColFinalizedAt t => t | _ => j_FinalizedAt r end;
     j_BarrierKind := match c with ColBarrierKind k => k | _ => j_BarrierKind r end;
     j_BarrierSpec := match c with ColBarrierSpec s => s | _ => j_BarrierSpec r end;
     j_Tags := j_Tags r; j_DeletedAt := j_DeletedAt r |}.

Definition Updates (cols : list jobCol) (r : jobRow) : jobRow :=
  foldl (set_col r) r cols.

(** GORM's soft-delete scope. *)
Definition not_deleted (r : jobRow) : bool :=
  match j_DeletedAt r with None => true | Some _ => false end.

(** UPDATE jobs SET cols WHERE P AND deleted_at IS NULL. *)
Definition update_where (P : jobRow → bool) (cols : list jobCol) (t : gmap string jobRow)
  : gmap string jobRow :=
  (λ r, if P r && not_deleted r then Updates cols r else r) <$> t.
Definition update_jobs (P : jobRow → bool) (cols : list jobCol) (d : db) : db :=
  with_jobs (update_where P cols (jobs d)) d.

(** The rows a WHERE selects, in scan order, under the soft-delete scope. *)
Definition select_jobs `{RowOrder} (P : jobRow → bool) (d : db) : list jobRow :=
  scan (filter (λ r, P r && not_deleted r = true) (map_to_list (jobs d)).*2).

(** SELECT by primary key under the scope (First, Take). *)
Definition find_job (d : db) (id : string) : option jobRow :=
  r ← jobs d !! id; if not_deleted r then Some r else None.

Definition count_jobs (P : jobRow → bool) (d : db) : Z :=
  Z.of_nat (length (filter (λ r, P r && not_deleted r = true) (map_to_list (jobs d)).*2)).

(** ** Unique indexes

    jobs_unique_key: (unique_key) WHERE unique_key IS NOT NULL.
    jobs_unique_active_key: (unique_active_key) WHERE it is NOT NULL and the
    state is a live one. Neither excludes a soft-deleted row. *)
Definition key_of (r : jobRow) : option string := j_UniqueKey r.
Definition active_key_of (r : jobRow) : option string :=
  if state_in (j_State r) NonTerminalStates then j_UniqueActiveKey r else None.

Definition same_key (k1 k2 : option string) : bool :=
  match k1, k2 with Some a, Some b => bool_decide (a = b) | _, _ => false end.
Definition clashes (a b : jobRow) : bool :=
  same_key (key_of a) (key_of b) || same_key (active_key_of a) (active_key_of b).

(** Whether [row] may stand in [t] beside every other row. *)
Definition index_admits (t : gmap string jobRow) (row : jobRow) : bool :=
  bool_decide (map_Forall (λ id r, id = j_ID row ∨ clashes row r = false) t).

(** INSERT INTO jobs: refused on the primary key or a unique index. *)
Definition insert_job (row : jobRow) (d : db) : res db :=
  match jobs d !! j_ID row with
  | Some _ => Err ErrDuplicateKey
  | None =>
    if index_admits (jobs d) row then Ok (with_jobs (<[j_ID row := row]> (jobs d)) d)
    else Err ErrDuplicateKey
  end.

(** INSERT ... ON CONFLICT DO NOTHING of one row, and of a chunk of rows. *)
Definition insert_skipping1 (d : db) (row : jobRow) : db :=
  match insert_job row d with Ok d' => d' | Err _ => d end.
Definition insertSkippingConflicts (rows : list jobRow) (d : db) : db :=
  foldl insert_skipping1 d rows.

(** An UPDATE of one row that the unique indexes check. *)
Definition update_checked (id : string) (cols : list jobCol) (d : db) : res db :=
  match jobs d !! id with
  | None => Ok d
  | Some r =>
    let r' := Updates cols r in
    if index_admits (jobs d) r' then Ok (with_jobs (<[id := r']> (jobs d)) d)
    else Err ErrDuplicateKey
  end.

(** ** Well-formed tables *)

Definition keyed (t : gmap string jobRow) : Prop := ∀ id r, t !! id = Some r → j_ID r = id.
Definition runs_keyed (t : gmap string jobRunRow) : Prop := ∀ id r, t !! id = Some r → r_ID r = id.

(** The two unique indexes hold. *)
Definition unique_ok (t : gmap string jobRow) : Prop :=
  ∀ i j a b, t !! i = Some a → t !! j = Some b → i ≠ j → clashes a b = false.

(** A row holds a lease exactly while it is running. *)
Definition lease_wf (r : jobRow) : Prop :=
  if decide (j_State r = StateRunning) then is_Some (j_LeaseToken r) ∧ is_Some (j_LeasedUntil r)
  else j_LeaseToken r = None ∧ j_LeasedUntil r = None.

(** A row is finalized exactly while its state is terminal. *)
Definition final_wf (r : jobRow) : Prop :=
  if isTerminalStateString (j_State r) then is_Some (j_FinalizedAt r) else j_FinalizedAt r = None.

Record row_wf (r : jobRow) : Prop := {
  row_state : JobState_Valid (j_State r) = true;
  row_lease : lease_wf r;
  row_final : final_wf r;
  (** The two barrier columns are set together. *)
  row_barrier : is_Some (j_BarrierKind r) ↔ is_Some (j_BarrierSpec r);
  row_attempt : (0 ≤ j_Attempt r)%Z
}.

(** A run is unfinished exactly while its outcome reads started. *)
Definition run_wf (r : jobRunRow) : Prop :=
  r_Outcome r = OutcomeStarted ↔ r_FinishedAt r = None.

(** job_run_finishes is exactly the set of finished runs, by finish time. *)
Definition finishes_ok (d : db) : Prop :=
  ∀ t id, (t, id) ∈ job_run_finishes d ↔
    ∃ r, job_runs d !! id = Some r ∧ r_FinishedAt r = Some t.

(** (job_id, attempt) is unique over job_runs (index job_runs_job_attempt). *)
Definition attempts_unique (d : db) : Prop :=
  ∀ i j a b, job_runs d !! i = Some a → job_runs d !! j = Some b →
    r_JobID a = r_JobID b → r_Attempt a = r_Attempt b → i = j.

Record db_wf (d : db) : Prop := {
  wf_keyed : keyed (jobs d);
  wf_unique : unique_ok (jobs d);
  wf_rows : ∀ id r, jobs d !! id = Some r → row_wf r;
  wf_runs : runs_keyed (job_runs d);
  wf_run : ∀ id r, job_runs d !! id = Some r → run_wf r;
  wf_finishes : finishes_ok d;
  wf_attempts : attempts_unique d
}.

(** ** Lemmas: assignments *)

(** A projection no assignment touches is unchanged by Updates. *)
Lemma Updates_proj {A} (f : jobRow → A) cols r :
  (∀ old r c, f (set_col old r c) = f r) → f (Updates cols r) = f r.
Proof.
  intros Hf. unfold Updates.
  enough (∀ old r', f (foldl (set_col old) r' cols) = f r') by auto. intros old.
  induction cols as [|c cols IH]; intros r'; simpl; [done|]. by rewrite IH, Hf.
Qed.

Lemma Updates_ID cols r : j_ID (Updates cols r) = j_ID r.
Proof. by apply (Updates_proj j_ID). Qed.
Lemma Updates_UniqueKey cols r : j_UniqueKey (Updates cols r) = j_UniqueKey r.
Proof. by apply (Updates_proj j_UniqueKey). Qed.
Lemma Updates_UniqueActiveKey cols r : j_UniqueActiveKey (Updates cols r) = j_UniqueActiveKey r.
Proof. by apply (Updates_proj j_UniqueActiveKey). Qed.
Lemma Updates_ParentJobID cols r : j_ParentJobID (Updates cols r) = j_ParentJobID r.
Proof. by apply (Updates_proj j_ParentJobID). Qed.
Lemma Updates_DeletedAt cols r : j_DeletedAt (Updates cols r) = j_DeletedAt r.
Proof. by apply (Updates_proj j_DeletedAt). Qed.
Lemma Updates_not_deleted cols r : not_deleted (Updates cols r) = not_deleted r.
Proof. unfold not_deleted. by rewrite Updates_DeletedAt. Qed.

Create HintDb fw discriminated.
Create Rewrite HintDb fw.
#[export] Hint Rewrite Updates_ID Updates_UniqueKey Updates_UniqueActiveKey
  Updates_ParentJobID Updates_DeletedAt Updates_not_deleted : fw.

(** ** Lemmas: UPDATE *)

Lemma lookup_update_where P cols t id :
  update_where P cols t !! id =
  (λ r, if P r && not_deleted r then Updates cols r else r) <$> t !! id.
Proof. unfold update_where. apply lookup_fmap. Qed.

Lemma lookup_update_where_Some P cols t id r' :
  update_where P cols t !! id = Some r' →
  ∃ r, t !! id = Some r ∧
    ((P r && not_deleted r = true ∧ r' = Updates cols r) ∨ (P r && not_deleted r = false ∧ r' = r)).
Proof.
  rewrite lookup_update_where. intros (r & -> & Hr)%fmap_Some_1. exists r. split; [done|].
  subst r'. destruct (P r && not_deleted r); auto.
Qed.

Lemma keyed_update_where P cols t : keyed t → keyed (update_where P cols t).
Proof.
  intros Hk id r' (r & Hr & [[_ ->]|[_ ->]])%lookup_update_where_Some.
  - rewrite Updates_ID. by apply Hk.
  - by apply Hk.
Qed.

(** ** Lemmas: the unique indexes *)

Lemma same_key_sym k1 k2 : same_key k1 k2 = same_key k2 k1.
Proof.
  unfold same_key. destruct k1, k2; [|done..]. apply bool_decide_ext. naive_solver.
Qed.
Lemma clashes_sym a b : clashes a b = clashes b a.
Proof. unfold clashes. by rewrite (same_key_sym (key_of a)), (same_key_sym (active_key_of a)). Qed.

(** [b] claims no key that [a] does not. *)
Definition keys_within (a b : jobRow) : Prop :=
  key_of b = key_of a ∧ (active_key_of b = active_key_of a ∨ active_key_of b = None).

Lemma keys_within_refl a : keys_within a a.
Proof. split; auto. Qed.

Lemma keys_within_same a b :
  key_of b = key_of a → j_State b = j_State a → j_UniqueActiveKey b = j_UniqueActiveKey a →
  keys_within a b.
Proof. intros Hk Hs Ha. split; [done|]. left. unfold active_key_of. by rewrite Hs, Ha. Qed.

Lemma clashes_mono a a' b b' :
  keys_within a a' → keys_within b b' → clashes a b = false → clashes a' b' = false.
Proof.
  intros [Hk1 Ha1] [Hk2 Ha2]. unfold clashes. rewrite !orb_false_iff, Hk1, Hk2.
  intros [Hkey Hact]. split; [done|].
  destruct Ha1 as [-> | ->]; [|done].
  destruct Ha2 as [-> | ->]; [done|]. by destruct (active_key_of a).
Qed.

Lemma unique_update_where P cols t :
  (∀ id r, t !! id = Some r → P r = true → keys_within r (Updates cols r)) →
  unique_ok t → unique_ok (update_where P cols t).
Proof.
  intros Hw Hu i j a' b' (a & Ha & Ha')%lookup_update_where_Some
    (b & Hb & Hb')%lookup_update_where_Some Hij.
  assert (keys_within a a') as HA.
  { destruct Ha' as [[[HP _]%andb_true_iff ->]|[_ ->]]; eauto using keys_within_refl. }
  assert (keys_within b b') as HB.
  { destruct Hb' as [[[HP _]%andb_true_iff ->]|[_ ->]]; eauto using keys_within_refl. }
  eapply clashes_mono; eauto.
Qed.

Lemma index_admits_spec t row :
  index_admits t row = true ↔ ∀ id r, t !! id = Some r → id ≠ j_ID row → clashes row r = false.
Proof.
  unfold index_admits. rewrite bool_decide_eq_true. unfold map_Forall.
  split; intros H id r Hr; specialize (H id r Hr); [naive_solver|].
  destruct (decide (id = j_ID row)); auto.
Qed.

Lemma insert_job_Ok row d d' :
  insert_job row d = Ok d' ↔
  jobs d !! j_ID row = None ∧ index_admits (jobs d) row = true ∧
  d' = with_jobs (<[j_ID row := row]> (jobs d)) d.
Proof.
  unfold insert_job. destruct (jobs d !! j_ID row), (index_admits (jobs d) row); naive_solver.
Qed.

Lemma unique_insert t row :
  unique_ok t → index_admits t row = true → unique_ok (<[j_ID row := row]> t).
Proof.
  intros Hu Hadm i j a b Ha Hb Hij. rewrite index_admits_spec in Hadm.
  apply lookup_insert_Some in Ha as [[<- <-]|[Hi Ha]];
    apply lookup_insert_Some in Hb as [[<- <-]|[Hj Hb]]; eauto.
  - done.
  - rewrite clashes_sym. eauto.
Qed.

Lemma keyed_insert t row : keyed t → keyed (<[j_ID row := row]> t).
Proof.
  intros Hk id r. rewrite lookup_insert. case_decide; [naive_solver|]. apply Hk.
Qed.

(** A chunk insert keeps every row there was, and adds only rows of the chunk. *)
Lemma insert_skipping_old rows d id r :
  jobs d !! id = Some r → jobs (insertSkippingConflicts rows d) !! id = Some r.
Proof.
  revert d. induction rows as [|row rows IH]; intros d Hr; [done|].
  apply IH. unfold insert_skipping1. destruct (insert_job row d) as [d'|] eqn:E; [|done].
  apply insert_job_Ok in E as (Hn & _ & ->). simpl. rewrite lookup_insert_ne; [done|congruence].
Qed.

Lemma insert_skipping_inv rows d id r :
  jobs (insertSkippingConflicts rows d) !! id = Some r →
  jobs d !! id = Some r ∨ (jobs d !! id = None ∧ r ∈ rows ∧ j_ID r = id).
Proof.
  revert d. induction rows as [|row rows IH]; intros d Hr; [by left|].
  apply IH in Hr. unfold insert_skipping1 in Hr.
  destruct (insert_job row d) as [d'|] eqn:E; [|set_solver].
  apply insert_job_Ok in E as (Hn & _ & ->). simpl in Hr.
  rewrite lookup_insert in Hr. case_decide; simplify_eq; set_solver.
Qed.

Lemma insert_skipping_rest rows d :
  job_runs (insertSkippingConflicts rows d) = job_runs d ∧
  job_run_finishes (insertSkippingConflicts rows d) = job_run_finishes d ∧
  job_audit (insertSkippingConflicts rows d) = job_audit d.
Proof.
  revert d. induction rows as [|row rows IH]; intros d; [done|].
  simpl. destruct (IH (insert_skipping1 d row)) as (-> & -> & ->).
  unfold insert_skipping1. destruct (insert_job row d) as [d'|] eqn:E; [|done].
  by apply insert_job_Ok in E as (_ & _ & ->).
Qed.

Lemma insert_skipping_unique rows d :
  keyed (jobs d) → unique_ok (jobs d) →
  keyed (jobs (insertSkippingConflicts rows d)) ∧ unique_ok (jobs (insertSkippingConflicts rows d)).
Proof.
  revert d. induction rows as [|row rows IH]; intros d Hk Hu; [done|].
  simpl. apply IH; unfold insert_skipping1; destruct (insert_job row d) as [d'|] eqn:E; try done;
    apply insert_job_Ok in E as (_ & Hadm & ->); simpl;
    auto using keyed_insert, unique_insert.
Qed.

(** ** Lemmas: SELECT *)

Lemma elem_of_table (t : gmap string jobRow) r :
  r ∈ (map_to_list t).*2 ↔ ∃ id, t !! id = Some r.
Proof.
  rewrite list_elem_of_fmap. split.
  - intros ([id r'] & -> & H%elem_of_map_to_list). eauto.
  - intros [id H]. exists (id, r). by rewrite elem_of_map_to_list.
Qed.

Lemma elem_of_select `{RowOrder} P d r :
  r ∈ select_jobs P d ↔ P r = true ∧ not_deleted r = true ∧ ∃ id, jobs d !! id = Some r.
Proof.
  unfold select_jobs. rewrite scan_perm, list_elem_of_filter, elem_of_table, andb_true_iff. tauto.
Qed.

Lemma select_jobs_ext `{RowOrder} P Q d :
  (∀ r, P r = Q r) → select_jobs P d = select_jobs Q d.
Proof. intros HPQ. unfold select_jobs. f_equal. apply list_filter_iff. intros r. by rewrite HPQ. Qed.

Lemma table_ids_NoDup (t : gmap string jobRow) : keyed t → NoDup (j_ID <$> (map_to_list t).*2).
Proof.
  intros Hk. rewrite <-list_fmap_compose.
  rewrite (list_fmap_ext _ fst (map_to_list t)); [apply NoDup_fst_map_to_list|].
  intros i [id r] Hi%list_elem_of_lookup_2%elem_of_map_to_list. simpl. by apply Hk.
Qed.

Lemma select_ids_NoDup `{RowOrder} P d :
  keyed (jobs d) → NoDup (j_ID <$> select_jobs P d).
Proof.
  intros Hk. unfold select_jobs. rewrite scan_perm.
  eapply sublist_NoDup; [by apply table_ids_NoDup|].
  apply fmap_sublist. apply sublist_filter.
Qed.

(** SELECT ... WHERE P ORDER BY R LIMIT n. *)
Lemma page_select `{RowOrder} (R : relation jobRow) `{!RelDecision R, !Transitive R, !Total R} P n d :
  keyed (jobs d) →
  let rows := page R n (select_jobs P d) in
  NoDup (j_ID <$> rows) ∧ length rows ≤ n ∧
  (∀ r, r ∈ rows → jobs d !! j_ID r = Some r ∧ not_deleted r = true ∧ P r = true) ∧
  (∀ r id r', r ∈ rows → jobs d !! id = Some r' → not_deleted r' = true → P r' = true →
     r' ∉ rows → R r r') ∧
  (length rows < n → ∀ id r', jobs d !! id = Some r' → not_deleted r' = true → P r' = true →
     r' ∈ rows).
Proof.
  intros Hk rows.
  assert (∀ id r, jobs d !! id = Some r → not_deleted r = true → P r = true →
    r ∈ select_jobs P d) as Hin by (intros; apply elem_of_select; eauto).
  split_and!.
  - eapply sublist_NoDup; [|apply fmap_sublist, sublist_take].
    rewrite (merge_sort_Permutation R). by apply select_ids_NoDup.
  - unfold rows. rewrite page_length. lia.
  - intros r Hr. eapply page_subset in Hr; [|done..].
    apply elem_of_select in Hr as (? & ? & id & Hr). pose proof (Hk _ _ Hr). by subst id.
  - intros r id r' Hr ? ? ? ?. apply (page_best R n (select_jobs P d)); eauto.
  - intros Hshort id r' Hr ? ?. unfold rows. rewrite page_short; eauto.
Qed.

Lemma find_job_Some d id r :
  find_job d id = Some r ↔ jobs d !! id = Some r ∧ not_deleted r = true.
Proof.
  unfold find_job. destruct (jobs d !! id) as [r'|]; simpl; [|by split; [|intros []]].
  destruct (not_deleted r') eqn:E; split; [intros; by simplify_eq| |done|].
  - by intros [-> _].
  - intros [? ?]; congruence.
Qed.

Lemma count_jobs_pos P d :
  (0 < count_jobs P d)%Z ↔ ∃ id r, jobs d !! id = Some r ∧ P r = true ∧ not_deleted r = true.
Proof.
  assert (∀ r, r ∈ filter (λ r, P r && not_deleted r = true) (map_to_list (jobs d)).*2 ↔
    ∃ id, jobs d !! id = Some r ∧ P r = true ∧ not_deleted r = true) as Hin.
  { intros r. rewrite list_elem_of_filter, elem_of_table, andb_true_iff. naive_solver. }
  unfold count_jobs. split.
  - intros Hpos. destruct (filter _ _) as [|r l] eqn:E; [simpl in Hpos; lia|].
    destruct (proj1 (Hin r)) as (id & ?); [left|eauto].
  - intros (id & r & Hr & ?). assert (∃ id, jobs d !! id = Some r ∧ P r = true ∧ not_deleted r = true)
      as Hex by eauto. apply Hin in Hex. destruct (filter _ _); [set_solver|simpl; lia].
Qed.

Lemma count_jobs_zero P d :
  count_jobs P d = 0%Z ↔ ∀ id r, jobs d !! id = Some r → P r && not_deleted r = false.
Proof.
  assert (0 ≤ count_jobs P d)%Z as Hge by (unfold count_jobs; lia).
  assert (count_jobs P d = 0%Z ↔ ¬ (0 < count_jobs P d)%Z) as -> by lia.
  rewrite count_jobs_pos. split.
  - intros Hn id r Hr. apply not_true_iff_false. rewrite andb_true_iff. naive_solver.
  - intros Hall (id & r & Hr & HP & Hd). specialize (Hall _ _ Hr). by rewrite HP, Hd in Hall.
Qed.

Lemma update_jobs_none P cols d : count_jobs P d = 0%Z → update_jobs P cols d = d.
Proof.
  rewrite count_jobs_zero. intros Hz. unfold update_jobs. destruct d as [j ? ? ?]. unfold with_jobs.
  simpl in *. f_equal. apply map_eq. intros id. rewrite lookup_update_where.
  destruct (j !! id) as [r|] eqn:Hr; [|done]. simpl. by rewrite (Hz _ _ Hr).
Qed.

(** ** Lemmas: well-formedness, one statement at a time *)

Lemma wf_empty : db_wf empty_db.
Proof.
  split; try (intros ?; intros; simpl in *; by simplify_map_eq).
  intros t id. simpl. split; [set_solver|]. intros (r & Hr & _). by rewrite lookup_empty in Hr.
Qed.

(** A row whose new columns are written out is well formed by computation. *)
Ltac solve_row_wf :=
  split; unfold lease_wf, final_wf in *; simpl in *;
  first [done | reflexivity | lia | by eauto | by rewrite ?decide_True, ?decide_False | idtac].

(** What an UPDATE must show of each row it writes. *)
Definition safe_update (cols : list jobCol) (r : jobRow) : Prop :=
  keys_within r (Updates cols r) ∧ row_wf (Updates cols r).

Lemma with_jobs_eq d d' :
  job_runs d' = job_runs d ∧ job_run_finishes d' = job_run_finishes d ∧ job_audit d' = job_audit d →
  d' = with_jobs (jobs d') d.
Proof. destruct d, d'. simpl. intros (-> & -> & ->). reflexivity. Qed.

(** Rewriting rows in place. *)
Lemma wf_map (f : jobRow → jobRow) d t :
  (∀ id, t !! id = f <$> jobs d !! id) →
  (∀ id r, jobs d !! id = Some r → j_ID (f r) = j_ID r ∧ keys_within r (f r) ∧ row_wf (f r)) →
  db_wf d → db_wf (with_jobs t d).
Proof.
  intros Ht Hs [Hk Hu Hr Hrk Hrw Hf Hat].
  assert (∀ id r', t !! id = Some r' → ∃ r, jobs d !! id = Some r ∧ r' = f r) as Hinv.
  { intros id r'. rewrite Ht. intros (r & -> & ?)%fmap_Some_1. eauto. }
  split; try done; simpl.
  - intros id r' (r & Hr' & ->)%Hinv. destruct (Hs _ _ Hr') as [-> _]. by apply Hk.
  - intros i j a' b' (a & Ha & ->)%Hinv (b & Hb & ->)%Hinv Hij.
    eapply clashes_mono; [by apply (Hs i)|by apply (Hs j)|by eapply Hu].
  - intros id r' (r & Hr' & ->)%Hinv. by apply (Hs id).
Qed.

Lemma wf_update_jobs P cols d :
  (∀ id r, jobs d !! id = Some r → P r = true → row_wf r → safe_update cols r) →
  db_wf d → db_wf (update_jobs P cols d).
Proof.
  intros Hs Hd. eapply wf_map; [intros; apply lookup_update_where| |done]. intros id r Hr. simpl.
  destruct (P r && not_deleted r) eqn:E.
  - apply andb_true_iff in E as [E _]. split; [apply Updates_ID|]. eapply Hs; eauto. by eapply wf_rows.
  - split_and!; eauto using keys_within_refl. by eapply wf_rows.
Qed.

Lemma wf_insert_job row d d' : row_wf row → insert_job row d = Ok d' → db_wf d → db_wf d'.
Proof.
  intros Hrow (Hn & Hadm & ->)%insert_job_Ok []. split; try done; simpl.
  - by apply keyed_insert.
  - by apply unique_insert.
  - intros id r [[<- <-]|[_ Hr]]%lookup_insert_Some; eauto.
Qed.

Lemma wf_insert_skipping rows d :
  Forall row_wf rows → db_wf d → db_wf (insertSkippingConflicts rows d).
Proof.
  intros Hrows. revert d. induction Hrows as [|row rows Hrow _ IH]; intros d Hd; [done|].
  simpl. apply IH. unfold insert_skipping1.
  destruct (insert_job row d) eqn:E; eauto using wf_insert_job.
Qed.

Lemma wf_update_checked id cols d d' :
  (∀ r, jobs d !! id = Some r → row_wf r → row_wf (Updates cols r)) →
  update_checked id cols d = Ok d' → db_wf d → db_wf d'.
Proof.
  unfold update_checked. intros Hs E Hwf. destruct (jobs d !! id) as [r|] eqn:Hr; [|by simplify_eq].
  destruct (index_admits _ _) eqn:Hadm; simplify_eq. destruct Hwf.
  assert (j_ID (Updates cols r) = id) as Hid by (rewrite Updates_ID; auto).
  split; try done; simpl.
  - rewrite <-Hid. by apply keyed_insert.
  - rewrite <-Hid. by apply unique_insert.
  - intros id' r' [[<- <-]|[_ Hr']]%lookup_insert_Some; eauto.
Qed.

Lemma wf_with_audit a d : db_wf d → db_wf (with_audit a d).
Proof. by intros []. Qed.
