(* ===== verification/Plan.v ===== *)
(** * The finalize decision: planFinalize and the column sets it writes

    internal/core/driver.go. [planFinalize] maps one attempt's result and error
    onto the job state machine; [jobFinalizeUpdate] and [runFinalizeUpdate] are
    the jobs and job_runs column sets of that decision. *)

From S2P Require Import Prelude Types Text Fingerprint Store.

(** backoff.Exponential of go-foundation, the retry ladder's implementation. *)
Class Backoff := { Exponential : Z → Z → Z → Z }.

(** Its documented behaviour: base at the first attempt, doubling once per
    attempt past it, capped at the maximum. *)
Class BackoffLaws `{Backoff} : Prop := {
  Exponential_first : ∀ base m, (0 < base ≤ m)%Z → Exponential base m 1 = base;
  Exponential_next : ∀ base m n, (0 < base ≤ m)%Z → (1 ≤ n)%Z →
    Exponential base m (n + 1) = Z.min m (2 * Exponential base m n)
}.

Record finalizePlan := {
  p_jobState : JobState; p_runOutcome : RunOutcome; p_scheduledAt : option Z;
  p_finalizedAt : option Z; p_maxAttemptsDelta : Z; p_errorClass : option ErrorClass;
  p_followUps : bool
}.

Section plan.
Context `{Backoff}.

Definition expBackoff (base maxDelay attempt : Z) : Z := Exponential base maxDelay attempt.
Definition defaultBackoff (attempt : Z) : Z := expBackoff second minute attempt.

(** The class and delay a worker error carries. *)
Definition errorVerdict (raw : RawJob) (e : WorkErr) : ErrorClass * Z :=
  match we_classified e with
  | None => (ErrorTransient, defaultBackoff (raw_Attempt raw))
  | Some (c, d) =>
    (if bool_decide (c = ErrorClassOther "") then ErrorTransient else c,
     if (0 <? d)%Z then d else defaultBackoff (raw_Attempt raw))
  end.

Definition permanent_class (c : ErrorClass) : bool :=
  match c with ErrorPermanent | ErrorValidation => true | _ => false end.

Definition planFinalize (raw : RawJob) (result : Result) (workErr : option WorkErr)
    (finishedAt : Z) : finalizePlan :=
  if res_Cancel result then
    {| p_jobState := StateCancelled; p_runOutcome := OutcomeCancelled; p_scheduledAt := None;
       p_finalizedAt := Some finishedAt; p_maxAttemptsDelta := 0; p_errorClass := None;
       p_followUps := false |}
  else match res_Snooze result with
  | Some snooze =>
    {| p_jobState := StateScheduled; p_runOutcome := OutcomeSnooze;
       p_scheduledAt := Some (finishedAt + snooze)%Z; p_finalizedAt := None;
       p_maxAttemptsDelta := 1; p_errorClass := None; p_followUps := false |}
  | None =>
    match workErr with
    | Some e =>
      let '(class, delay) := errorVerdict raw e in
      let outcome := if bool_decide (class = ErrorTimeout) then OutcomeTimeout else OutcomeError in
      if permanent_class class || (raw_MaxAttempts raw <=? raw_Attempt raw)%Z then
        {| p_jobState := StateDiscarded; p_runOutcome := outcome; p_scheduledAt := None;
           p_finalizedAt := Some finishedAt; p_maxAttemptsDelta := 0;
           p_errorClass := Some class; p_followUps := false |}
      else
        {| p_jobState := StateRetryable; p_runOutcome := outcome;
           p_scheduledAt := Some (finishedAt + delay)%Z; p_finalizedAt := None;
           p_maxAttemptsDelta := 0; p_errorClass := Some class; p_followUps := false |}
    | None =>
      {| p_jobState := StateSucceeded; p_runOutcome := OutcomeSuccess; p_scheduledAt := None;
         p_finalizedAt := Some finishedAt; p_maxAttemptsDelta := 0; p_errorClass := None;
         p_followUps := true |}
    end
  end.

End plan.

Definition jobFinalizeUpdate (plan : finalizePlan) (finishedAt : Z) : list jobCol :=
  [ColState (p_jobState plan); ColUpdatedAt finishedAt; ColLeasedUntil None; ColLeaseToken None] ++
  (match p_scheduledAt plan with Some t => [ColScheduledAt t] | None => [] end) ++
  (match p_finalizedAt plan with Some t => [ColFinalizedAt (Some t)] | None => [] end) ++
  (if (p_maxAttemptsDelta plan =? 0)%Z then []
   else [ColMaxAttempts (λ r, j_MaxAttempts r + p_maxAttemptsDelta plan)%Z]).

(** [queueWaitMs]: nil without a claimable instant, clamped at zero. *)
Definition queueWaitMs (scheduledAt startedAt : Z) : option Z :=
  if is_zero_time scheduledAt then None
  else Some (Z.max (milliseconds (time_sub startedAt scheduledAt)) 0).

(** [runFinalizeUpdate]: the run row a finalize leaves. finished_at is
    COALESCE(finished_at, finishedAt); job_state is written only when the
    finalize was not superseded; the error columns only with an error. *)
Definition runFinalizeUpdate `{GoLib} (plan : finalizePlan) (result : Result)
    (workErr : option WorkErr) (kind : string) (finishedAt durationMs enqueued : Z)
    (superseded : bool) (maxOutput : Z) (r : jobRunRow) : res jobRunRow :=
  let? out := marshalRunOutput (res_Output result) maxOutput in
  let errf := match workErr with
              | Some e => Some (runErrorFields (we_message e) (default "" (we_panic_stack e)))
              | None => None
              end in
  Ok {| r_ID := r_ID r; r_JobID := r_JobID r; r_Attempt := r_Attempt r; r_Kind := r_Kind r;
        r_Queue := r_Queue r; r_ExecutorClass := r_ExecutorClass r;
        r_ExecutorID := r_ExecutorID r; r_StartedAt := r_StartedAt r;
        r_FinishedAt := match r_FinishedAt r with Some t => Some t | None => Some finishedAt end;
        r_Outcome := p_runOutcome plan;
        r_ErrorClass := match p_errorClass plan with Some c => Some c | None => r_ErrorClass r end;
        r_ErrorMessage := match errf with Some f => Some f.1 | None => r_ErrorMessage r end;
        r_ErrorPayload := match errf with Some f => Some f.2 | None => r_ErrorPayload r end;
        r_Output := match res_Output result with Some _ => out | None => r_Output r end;
        r_DurationMs := Some durationMs; r_QueueWaitMs := r_QueueWaitMs r;
        r_CostMicros := Some (res_CostMicros result); r_EnqueuedChildren := enqueued;
        r_ErrorFingerprint :=
          match workErr, p_errorClass plan, errf with
          | Some e, Some c, Some f =>
            if failedOutcome (p_runOutcome plan)
            then Some (fingerprintOf kind c f.1 (we_fingerprinter e)) else r_ErrorFingerprint r
          | _, _, _ => r_ErrorFingerprint r
          end;
        r_JobState := if superseded then r_JobState r else Some (p_jobState plan);
        r_Superseded := superseded; r_CreatedAt := r_CreatedAt r |}.

(** ** The decision *)

Section plan_facts.
Context `{Backoff}.

(** Everything the rest of the development uses of a plan. *)
Record plan_ok (p : finalizePlan) : Prop := {
  plan_valid : JobState_Valid (p_jobState p) = true;
  plan_leaves_running : p_jobState p ≠ StateRunning;
  plan_final : is_Some (p_finalizedAt p) ↔ isTerminalStateString (p_jobState p) = true;
  plan_ended : p_runOutcome p ≠ OutcomeStarted;
  plan_follow : p_followUps p = true ↔ p_jobState p = StateSucceeded;
  plan_delta : p_maxAttemptsDelta p = (if decide (p_jobState p = StateScheduled) then 1 else 0)%Z
}.

Lemma planFinalize_ok raw result workErr t : plan_ok (planFinalize raw result workErr t).
Proof.
  unfold planFinalize. destruct (res_Cancel result); [by split|].
  destruct (res_Snooze result); [split; try done; simpl; split; [by intros []|done]|].
  destruct workErr as [e|]; [|by split]. destruct (errorVerdict raw e) as [c delay].
  destruct (permanent_class c || _); split; try done; simpl;
    try case_bool_decide; try done; split; try done; by intros [].
Qed.

(** The state machine's decision, case by case: a cancel wins over a snooze and a
    snooze over an error; a failed attempt ends the job exactly when its class is
    permanent or validation or it was the last attempt, and otherwise schedules a
    retry; only a success enqueues follow-ups. *)
Definition plan_verdict (raw : RawJob) (result : Result) (workErr : option WorkErr) (t : Z)
    (p : finalizePlan) : Prop :=
  (p_jobState p = StateCancelled ↔ res_Cancel result = true) ∧
  (p_jobState p = StateScheduled ↔ res_Cancel result = false ∧ is_Some (res_Snooze result)) ∧
  (p_jobState p = StateSucceeded ↔
     res_Cancel result = false ∧ res_Snooze result = None ∧ workErr = None) ∧
  (p_jobState p = StateDiscarded ↔
     res_Cancel result = false ∧ res_Snooze result = None ∧
     ∃ e, workErr = Some e ∧ (permanent_class (errorVerdict raw e).1 = true ∨
                              (raw_MaxAttempts raw ≤ raw_Attempt raw)%Z)) ∧
  (p_jobState p = StateRetryable ↔
     res_Cancel result = false ∧ res_Snooze result = None ∧
     ∃ e, workErr = Some e ∧ permanent_class (errorVerdict raw e).1 = false ∧
          (raw_Attempt raw < raw_MaxAttempts raw)%Z) ∧
  p_scheduledAt p =
    (match p_jobState p with
     | StateScheduled => (λ s, (t + s)%Z) <$> res_Snooze result
     | StateRetryable => (λ e, (t + (errorVerdict raw e).2)%Z) <$> workErr
     | _ => None
     end) ∧
  p_finalizedAt p = (if isTerminalStateString (p_jobState p) then Some t else None) ∧
  (p_followUps p = true ↔ p_jobState p = StateSucceeded).

Lemma planFinalize_verdict raw result workErr t :
  plan_verdict raw result workErr t (planFinalize raw result workErr t).
Proof.
  unfold plan_verdict, planFinalize. destruct (res_Cancel result); simpl; [naive_solver|].
  destruct (res_Snooze result) as [s|]; simpl; [split_and!; try done; naive_solver|].
  destruct workErr as [e|]; simpl; [|split_and!; try done; naive_solver].
  assert (∀ P : WorkErr → Prop, (∃ e', Some e = Some e' ∧ P e') ↔ P e) as Hex.
  { intros P. split; [by intros (? & [= <-] & ?)|eauto]. }
  rewrite !Hex. destruct (errorVerdict raw e) as [c delay]. simpl.
  destruct (permanent_class c), (raw_MaxAttempts raw <=? raw_Attempt raw)%Z eqn:Hm;
    rewrite ?Z.leb_le, ?Z.leb_gt in Hm; simpl;
    split_and!; split; intros; destruct_and?; destruct_or?; try done; try lia; auto 6.
Qed.

(** A ladder's rung in closed form. *)
Lemma expBackoff_closed `{!BackoffLaws} base m n :
  (0 < base ≤ m)%Z → (1 ≤ n)%Z → expBackoff base m n = Z.min m (base * 2 ^ (n - 1)).
Proof.
  intros Hr Hn. unfold expBackoff. replace n with (n - 1 + 1)%Z at 1 by lia.
  assert (0 ≤ n - 1)%Z as Hk by lia. revert Hk. generalize (n - 1)%Z as k. apply natlike_ind.
  - rewrite Exponential_first by done. lia.
  - intros k Hk IH. rewrite <-Z.add_1_r, Exponential_next, IH by lia.
    rewrite Z.add_1_r, Z.pow_succ_r by done. pose proof (Z.pow_pos_nonneg 2 k ltac:(lia) Hk). nia.
Qed.

(** A retry ladder step: the default backoff of attempt [n]. *)
Lemma defaultBackoff_closed `{!BackoffLaws} n :
  (1 ≤ n)%Z → defaultBackoff n = Z.min minute (second * 2 ^ (n - 1)).
Proof. apply expBackoff_closed. unfold minute, second. lia. Qed.
End plan_facts.

(** The documented ladder, as a concrete function. *)
Definition doubling_backoff : Backoff :=
  {| Exponential base m n := Z.min m (base * 2 ^ (n - 1)) |}.
Lemma doubling_backoff_laws : @BackoffLaws doubling_backoff.
Proof.
  split; simpl.
  - intros base m Hr. replace (1 - 1)%Z with 0%Z by lia. rewrite Z.pow_0_r. lia.
  - intros base m n Hr Hn. replace (n + 1 - 1)%Z with (Z.succ (n - 1)) by lia.
    rewrite Z.pow_succ_r by lia. pose proof (Z.pow_pos_nonneg 2 (n - 1) ltac:(lia) ltac:(lia)).
    assert (0 < base * 2 ^ (n - 1))%Z by nia. lia.
Qed.

(** ** The columns *)

Lemma jobFinalizeUpdate_row plan t r :
  let r' := Updates (jobFinalizeUpdate plan t) r in
  j_State r' = p_jobState plan ∧ j_LeasedUntil r' = None ∧ j_LeaseToken r' = None ∧
  j_UpdatedAt r' = t ∧
  j_ScheduledAt r' = default (j_ScheduledAt r) (p_scheduledAt plan) ∧
  j_FinalizedAt r' = (match p_finalizedAt plan with Some x => Some x | None => j_FinalizedAt r end) ∧
  j_MaxAttempts r' = (j_MaxAttempts r + p_maxAttemptsDelta plan)%Z ∧
  j_Attempt r' = j_Attempt r ∧ j_Priority r' = j_Priority r ∧
  j_BarrierKind r' = j_BarrierKind r ∧ j_BarrierSpec r' = j_BarrierSpec r.
Proof.
  unfold jobFinalizeUpdate.
  destruct (p_scheduledAt plan), (p_finalizedAt plan), (p_maxAttemptsDelta plan =? 0)%Z eqn:E;
    try apply Z.eqb_eq in E; simpl; split_and!; try done; lia.
Qed.

Lemma Updates_app a b r : Updates (a ++ b) r = foldl (set_col r) (Updates a r) b.
Proof. unfold Updates. apply foldl_app. Qed.

(** ** The decision's theorems *)

(** C8. The finalize decision is total and exact: a cancel wins over a snooze, a
    snooze over an error; a failed attempt ends the job exactly when its class is
    permanent or validation or no attempt is left, and otherwise schedules the
    retry at the delay its error carries; only a success enqueues follow-ups, and
    a finish time is set exactly on a terminal state. *)
Theorem planFinalize_decides `{Backoff} raw result workErr t :
  plan_verdict raw result workErr t (planFinalize raw result workErr t) ∧
  plan_ok (planFinalize raw result workErr t).
Proof. split; [apply planFinalize_verdict|apply planFinalize_ok]. Qed.

(** The default retry ladder: one second at the first attempt, doubling with
    each attempt, capped at a minute. *)
Theorem retry_ladder `{Backoff} `{!BackoffLaws} n :
  (1 ≤ n)%Z →
  defaultBackoff n = Z.min minute (second * 2 ^ (n - 1)) ∧ (second ≤ defaultBackoff n ≤ minute)%Z.
Proof.
  intros Hn. rewrite defaultBackoff_closed by done. split; [done|].
  pose proof (Z.pow_pos_nonneg 2 (n - 1) ltac:(lia) ltac:(lia)). unfold minute, second. lia.
Qed.

#[local] Existing Instance doubling_backoff.
#[local] Existing Instance doubling_backoff_laws.
Lemma retry_ladder_witness :
  defaultBackoff 4 = (8 * second)%Z ∧ defaultBackoff 10 = minute.
Proof.
  split; [rewrite (proj1 (retry_ladder 4 ltac:(lia)))|rewrite (proj1 (retry_ladder 10 ltac:(lia)))];
    reflexivity.
Defined.
