(* ===== verification/Insert.v ===== *)
(** * Building and inserting job rows

    insert_stamp.go (tags and metadata), base.go (the row's BeforeCreate hook),
    client.go's buildRow, driver.go's buildChildRow, and the conflict-insert
    primitive of batch.go every bulk path shares. *)

From S2P Require Import Prelude Types Text Store.

(** go-foundation's request-id helpers. *)
Class Foundation := {
  (** constants.FieldRequestID *)
  FieldRequestID : string;
  (** ctxutil.RequestIDToMetadata(nil, id) *)
  RequestIDToMetadata : string → string
}.

Inductive InsertSource :=
| InsertSourceClient | InsertSourcePeriodic | InsertSourceFollowUp | InsertSourceBarrier.

Record InsertInfo := {
  in_Kind : string; in_Queue : string; in_Source : InsertSource; in_SpawnedBy : string;
  in_ParentJobID : string; in_PeriodicSlug : string
}.
Definition InsertHook : Type := InsertInfo → gmap string goany.

(** What a context carries for the runtime: the clock and the id generator, each
    by the number of the reading or mint within the call; the request id; the
    Registry and InsertHook a Runner or Scheduler rides on it; and the instant
    GORM stamps on an update that names no updated_at. *)
Record context := {
  c_Now : nat → Z;
  c_NewID : nat → string;
  c_RequestID : string;
  c_Registry : option Registry;
  c_Hook : option InsertHook;
  c_GormNow : Z
}.

(** ** Tags and metadata *)

Definition MaxTags : nat := 16.
Definition MaxTagBytes : nat := 64.
Definition MaxMetadataBytes : Z := 8192.

(** strings.ContainsFunc(tag, unicode.IsControl) on valid UTF-8: a C0 control,
    DEL, or a C1 control (0xC2 followed by 0x80..0x9F). *)
Fixpoint has_control (l : bytes) : bool :=
  match l with
  | [] => false
  | b :: l' =>
    (b <? 32)%N || (b =? 127)%N ||
    ((b =? 0xC2)%N && match l' with b1 :: _ => between 0x80 0x9F b1 | [] => false end) ||
    has_control l'
  end.

(** The first of each duplicate, in order. *)
Fixpoint dedupe (seen : list string) (tags : list string) : list string :=
  match tags with
  | [] => []
  | t :: ts => if str_mem t seen then dedupe seen ts else t :: dedupe (t :: seen) ts
  end.

Definition tag_ok (t : string) : bool :=
  negb (is_empty t) && (String.length t <=? MaxTagBytes) && ValidString t &&
  negb (has_control (bytes_of t)).

Definition tagsJSON (tags : list string) : res (list string) :=
  let kept := dedupe [] tags in
  if MaxTags <? length kept then Err (ValidationError "tags")
  else if forallb tag_ok kept then Ok kept else Err (ValidationError "tags").

(** json.Marshal of a map[string]any whose values are seen through Marshal. *)
Definition marshal_map (m : gmap string goany) : option string :=
  if bool_decide (map_Forall (λ _ v, is_Some v) m)
  then Some (json_map (default "" <$> m)) else None.

Section stamp.
Context `{Foundation}.

Definition metadataJSON (requestID : string) (caller hooked : gmap string goany) : res string :=
  if bool_decide (caller = ∅) && bool_decide (hooked = ∅) then Ok (RequestIDToMetadata requestID)
  else
    let merged := delete FieldRequestID (hooked ∪ caller) in
    let merged := if is_empty requestID then merged
                  else <[FieldRequestID := Some (json_string requestID)]> merged in
    match marshal_map merged with
    | None => Err (ValidationError "metadata")
    | Some out => if (MaxMetadataBytes <? len out)%Z then Err (ValidationError "metadata") else Ok out
    end.

Definition stampRow (hook : option InsertHook) (info : InsertInfo) (tags : list string)
    (meta : gmap string goany) (requestID : string) : res (list string * string) :=
  let? tagJSON := tagsJSON tags in
  let hooked := match hook with Some h => h info | None => ∅ end in
  let? metaJSON := metadataJSON requestID meta hooked in
  Ok (tagJSON, metaJSON).

(** ** Rows *)

(** [buildRow] of client.go with [stamp.apply]: the n-th row a call builds. *)
Definition buildRow (ctx : context) (n : nat) (kind payload : string) (o : InsertOpts)
    (st : list string * string) : jobRow :=
  let now := c_Now ctx n in
  {| j_ID := c_NewID ctx n; j_CreatedAt := now; j_UpdatedAt := now; j_Metadata := st.2;
     j_Kind := kind; j_Queue := orString (o_Queue o) defaultQueue; j_Args := payload;
     j_Priority := orInt (o_Priority o) defaultPriority; j_State := StateAvailable;
     j_Attempt := 0; j_MaxAttempts := orInt (o_MaxAttempts o) defaultMaxAttempts;
     j_TimeoutMs := if (0 <? o_Timeout o)%Z then Some (milliseconds (o_Timeout o)) else None;
     j_ScheduledAt := default now (o_ScheduleAt o); j_LeasedUntil := None; j_LeaseToken := None;
     j_UniqueKey := if is_empty (o_UniqueKey o) then None else Some (o_UniqueKey o);
     j_UniqueActiveKey :=
       if is_empty (o_UniqueActiveKey o) then None else Some (o_UniqueActiveKey o);
     j_ParentJobID := o_Parent o; j_ExecutorClass := o_ExecutorClass o; j_FinalizedAt := None;
     j_BarrierKind := None; j_BarrierSpec := None; j_Tags := st.1; j_DeletedAt := None |}.

(** [buildChildRow] of driver.go. *)
Definition buildChildRow (ctx : context) (n : nat) (fu : FollowUp) (parentID spawnedBy : string)
    (source : InsertSource) (d : option kindDefaults) : res jobRow :=
  match fu_Args fu with
  | None => Err ErrMarshal
  | Some payload =>
    let routed := applyTo d
      {| o_Queue := fu_Queue fu; o_UniqueKey := ""; o_UniqueActiveKey := ""; o_ScheduleAt := None;
         o_Parent := None; o_Priority := fu_Priority fu; o_ExecutorClass := fu_ExecutorClass fu;
         o_MaxAttempts := 0; o_Timeout := 0; o_Tx := false; o_RequestID := "";
         o_Tags := fu_Tags fu; o_Metadata := ∅ |} in
    let queue := orString (o_Queue routed) defaultQueue in
    let recordedParent := if fu_Parent fu then parentID else "" in
    let? st := stampRow (c_Hook ctx)
      {| in_Kind := fu_Kind fu; in_Queue := queue; in_Source := source; in_SpawnedBy := spawnedBy;
         in_ParentJobID := recordedParent; in_PeriodicSlug := "" |}
      (o_Tags routed) (fu_Metadata fu) (c_RequestID ctx) in
    let now := c_Now ctx n in
    Ok {| j_ID := c_NewID ctx n; j_CreatedAt := now; j_UpdatedAt := now; j_Metadata := st.2;
          j_Kind := fu_Kind fu; j_Queue := queue; j_Args := payload;
          j_Priority := orInt (o_Priority routed) defaultPriority; j_State := StateAvailable;
          j_Attempt := 0; j_MaxAttempts := orInt (o_MaxAttempts routed) defaultMaxAttempts;
          j_TimeoutMs := if (0 <? o_Timeout routed)%Z then Some (milliseconds (o_Timeout routed))
                         else None;
          j_ScheduledAt := default now (fu_ScheduleAt fu); j_LeasedUntil := None;
          j_LeaseToken := None;
          j_UniqueKey := if is_empty (fu_UniqueKey fu) then None else Some (fu_UniqueKey fu);
          j_UniqueActiveKey := None;
          j_ParentJobID := if fu_Parent fu then Some recordedParent else None;
          j_ExecutorClass := o_ExecutorClass routed; j_FinalizedAt := None;
          j_BarrierKind := None; j_BarrierSpec := None; j_Tags := st.1; j_DeletedAt := None |}
  end.

(** [jobRow.BeforeCreate]: the checks and defaults every INSERT of a job runs. *)
Definition BeforeCreate (now : Z) (newID : string) (j : jobRow) : res jobRow :=
  if is_empty (j_Kind j) then Err (ValidationError "kind")
  else
    let state := if bool_decide (j_State j = StateOther "") then StateAvailable else j_State j in
    if negb (JobState_Valid state) then Err (ValidationError "state")
    else Ok
    {| j_ID := orString (j_ID j) newID;
       j_CreatedAt := if is_zero_time (j_CreatedAt j) then now else j_CreatedAt j;
       j_UpdatedAt := if is_zero_time (j_UpdatedAt j) then now else j_UpdatedAt j;
       j_Metadata := orString (j_Metadata j) "{}"; j_Kind := j_Kind j;
       j_Queue := orString (j_Queue j) defaultQueue; j_Args := orString (j_Args j) "{}";
       j_Priority := orInt (j_Priority j) defaultPriority; j_State := state;
       j_Attempt := j_Attempt j; j_MaxAttempts := orInt (j_MaxAttempts j) defaultMaxAttempts;
       j_TimeoutMs := j_TimeoutMs j;
       j_ScheduledAt := if is_zero_time (j_ScheduledAt j) then now else j_ScheduledAt j;
       j_LeasedUntil := j_LeasedUntil j; j_LeaseToken := j_LeaseToken j;
       j_UniqueKey := j_UniqueKey j; j_UniqueActiveKey := j_UniqueActiveKey j;
       j_ParentJobID := j_ParentJobID j; j_ExecutorClass := j_ExecutorClass j;
       j_FinalizedAt := j_FinalizedAt j; j_BarrierKind := j_BarrierKind j;
       j_BarrierSpec := j_BarrierSpec j; j_Tags := j_Tags j; j_DeletedAt := j_DeletedAt j |}.

End stamp.

(** GORM runs BeforeCreate on every row of a Create before its INSERT. *)
Fixpoint before_create_all (ctx : context) (rows : list jobRow) : res (list jobRow) :=
  match rows with
  | [] => Ok []
  | r :: rs =>
    let? r' := BeforeCreate (c_Now ctx 0) (c_NewID ctx 0) r in
    let? rs' := before_create_all ctx rs in
    Ok (r' :: rs')
  end.

Definition chunkHasUniqueKey (rows : list jobRow) : bool :=
  existsb (λ r, bool_decide (is_Some (j_UniqueKey r)) ||
                bool_decide (is_Some (j_UniqueActiveKey r))) rows.

(** [landedRows]: the ids of the chunk that landed, read back by primary key
    under the soft-delete scope unless no row could have been skipped. *)
Definition landedRows (rows : list jobRow) (d : db) : list string :=
  if chunkHasUniqueKey rows
  then filter (λ id, bool_decide (is_Some (find_job d id)) = true) (j_ID <$> rows)
  else j_ID <$> rows.

(** [conflictInsertChunk]: one INSERT ... ON CONFLICT DO NOTHING, then its
    read-back. *)
Definition conflictInsertChunk (ctx : context) (rows : list jobRow) (d : db)
  : res (list string * db) :=
  match rows with
  | [] => Ok ([], d)
  | _ =>
    let? rows' := before_create_all ctx rows in
    let d' := insertSkippingConflicts rows' d in
    Ok (landedRows rows' d', d')
  end.

(** ** Rows as the runtime builds them *)

(** A row no attempt has touched: available, unleased, unfinalized, no barrier. *)
Record fresh_row (r : jobRow) : Prop := {
  fr_state : j_State r = StateAvailable;
  fr_until : j_LeasedUntil r = None;
  fr_token : j_LeaseToken r = None;
  fr_final : j_FinalizedAt r = None;
  fr_bkind : j_BarrierKind r = None;
  fr_bspec : j_BarrierSpec r = None;
  fr_attempt : j_Attempt r = 0%Z;
  fr_deleted : j_DeletedAt r = None
}.

Lemma fresh_row_wf r : fresh_row r → row_wf r.
Proof.
  intros []. split.
  - by rewrite fr_state0.
  - unfold lease_wf. by rewrite decide_False by (rewrite fr_state0; done).
  - unfold final_wf. by rewrite fr_state0.
  - rewrite fr_bkind0, fr_bspec0. done.
  - by rewrite fr_attempt0.
Qed.

Lemma fresh_not_deleted r : fresh_row r → not_deleted r = true.
Proof. intros []. unfold not_deleted. by rewrite fr_deleted0. Qed.

Lemma buildRow_fresh `{Foundation} ctx n kind payload o st : fresh_row (buildRow ctx n kind payload o st).
Proof. by split. Qed.

Lemma buildChildRow_Ok `{Foundation} ctx n fu parentID by_ src d row :
  buildChildRow ctx n fu parentID by_ src d = Ok row →
  fresh_row row ∧ j_ID row = c_NewID ctx n ∧ j_Kind row = fu_Kind fu ∧
  j_ParentJobID row = (if fu_Parent fu then Some parentID else None) ∧
  j_UniqueKey row = (if is_empty (fu_UniqueKey fu) then None else Some (fu_UniqueKey fu)) ∧
  j_UniqueActiveKey row = None.
Proof.
  unfold buildChildRow. destruct (fu_Args fu); [|done]. simpl.
  destruct (stampRow _ _ _ _ _) as [st|]; [|done]. intros [= <-].
  split_and!; try done. simpl. by destruct (fu_Parent fu).
Qed.

(** The columns an INSERT's hook never changes. *)
Lemma BeforeCreate_Ok `{Foundation} now newID j j' :
  BeforeCreate now newID j = Ok j' →
  j_ID j' = orString (j_ID j) newID ∧ j_Kind j' = j_Kind j ∧ j_Kind j ≠ "" ∧
  j_ParentJobID j' = j_ParentJobID j ∧ j_UniqueKey j' = j_UniqueKey j ∧
  j_UniqueActiveKey j' = j_UniqueActiveKey j ∧ j_DeletedAt j' = j_DeletedAt j ∧
  JobState_Valid (j_State j') = true ∧
  (fresh_row j → fresh_row j').
Proof.
  unfold BeforeCreate, is_empty. case_bool_decide; [done|].
  destruct (negb _) eqn:E; [done|]. intros [= <-]. simpl.
  split_and!; try done; [by apply negb_false_iff in E|].
  intros []. split; simpl; try done. by rewrite fr_state0.
Qed.

(** The relation between a row handed to a Create and the row it stores. *)
Definition created `{Foundation} (ctx : context) (j j' : jobRow) : Prop :=
  BeforeCreate (c_Now ctx 0) (c_NewID ctx 0) j = Ok j'.

Lemma before_create_all_Ok `{Foundation} ctx rows rows' :
  before_create_all ctx rows = Ok rows' ↔ Forall2 (created ctx) rows rows'.
Proof.
  unfold created. revert rows'. induction rows as [|r rows IH]; intros rows'; simpl.
  - split; [intros [= <-]; constructor|]. by intros ->%Forall2_nil_inv_l.
  - destruct (BeforeCreate _ _ r) as [r'|] eqn:Er.
    + destruct (before_create_all ctx rows) as [rs'|] eqn:Ers.
      * split; [intros [= <-]; constructor; [done|]; by apply IH|].
        intros (r1 & l & ? & Hl & ->)%Forall2_cons_inv_l. apply IH in Hl. congruence.
      * split; [done|]. intros (r1 & l & ? & Hl & ->)%Forall2_cons_inv_l. by apply IH in Hl.
    + split; [done|]. intros (r1 & l & ? & Hl & ->)%Forall2_cons_inv_l. congruence.
Qed.

Lemma before_create_all_app `{Foundation} ctx l k :
  before_create_all ctx (l ++ k) =
  (let? l' := before_create_all ctx l in let? k' := before_create_all ctx k in Ok (l' ++ k')).
Proof.
  induction l as [|r l IH]; simpl; [by destruct (before_create_all ctx k)|].
  destruct (BeforeCreate _ _ r); [|done]. rewrite IH.
  destruct (before_create_all ctx l); [|done]. by destruct (before_create_all ctx k).
Qed.

Lemma created_fresh `{Foundation} ctx rows rows' :
  Forall2 (created ctx) rows rows' → Forall fresh_row rows → Forall fresh_row rows'.
Proof.
  induction 1 as [|r r' l l' Hr _ IH]; [done|]. inversion 1; subst. constructor; [|auto].
  apply BeforeCreate_Ok in Hr. naive_solver.
Qed.

Lemma created_ids `{Foundation} ctx rows rows' :
  Forall2 (created ctx) rows rows' → Forall (λ r, j_ID r ≠ "") rows →
  j_ID <$> rows' = j_ID <$> rows.
Proof.
  induction 1 as [|r r' l l' Hr _ IH]; [done|]. inversion 1; subst. simpl. f_equal; [|auto].
  apply BeforeCreate_Ok in Hr as (-> & _). unfold orString, is_empty. by rewrite bool_decide_false.
Qed.

(** ** The conflict insert *)

Lemma clashes_keyless a b : j_UniqueKey a = None → j_UniqueActiveKey a = None → clashes a b = false.
Proof.
  intros Hk Ha. unfold clashes, key_of, active_key_of. rewrite Hk, Ha. simpl.
  by destruct (state_in _ _).
Qed.

(** A row that claims no key always lands. *)
Lemma insert_keyless row d :
  j_UniqueKey row = None → j_UniqueActiveKey row = None → jobs d !! j_ID row = None →
  insert_job row d = Ok (with_jobs (<[j_ID row := row]> (jobs d)) d).
Proof.
  intros Hk Ha Hn. apply insert_job_Ok. split_and!; [done| |done].
  apply index_admits_spec. intros. by apply clashes_keyless.
Qed.

(** Which rows of a chunk landed, and how many rows the table gained. *)
Definition landed_in (t : gmap string jobRow) (r : jobRow) : Prop := t !! j_ID r = Some r.
#[global] Instance landed_in_dec t r : Decision (landed_in t r).
Proof. unfold landed_in. apply _. Defined.

Lemma insert_skipping_other rows d id :
  id ∉ j_ID <$> rows → jobs (insertSkippingConflicts rows d) !! id = jobs d !! id.
Proof.
  revert d. induction rows as [|row rows IH]; intros d Hid; [done|].
  rewrite fmap_cons, not_elem_of_cons in Hid. destruct Hid as [Hne Hid]. simpl. rewrite IH by done.
  unfold insert_skipping1. destruct (insert_job row d) as [d'|] eqn:E; [|done].
  apply insert_job_Ok in E as (_ & _ & ->). simpl. by rewrite lookup_insert_ne.
Qed.

Lemma insert_skipping_size rows d :
  NoDup (j_ID <$> rows) → Forall (λ r, jobs d !! j_ID r = None) rows →
  size (jobs (insertSkippingConflicts rows d)) =
  size (jobs d) + length (filter (landed_in (jobs (insertSkippingConflicts rows d))) rows).
Proof.
  revert d. induction rows as [|row rows IH]; intros d Hnd Hf; [simpl; lia|].
  rewrite fmap_cons, NoDup_cons in Hnd. destruct Hnd as [Hni Hnd].
  inversion Hf as [|? ? Hrow Hf']; subst. simpl.
  set (d1 := insert_skipping1 d row).
  assert (Forall (λ r, jobs d1 !! j_ID r = None) rows) as Hf1.
  { apply Forall_forall. intros r Hr. unfold d1, insert_skipping1.
    rewrite Forall_forall in Hf'. destruct (insert_job row d) as [d'|] eqn:E; [|by apply Hf'].
    apply insert_job_Ok in E as (_ & _ & ->). simpl. rewrite lookup_insert_ne; [by apply Hf'|].
    intros Heq. apply Hni. rewrite Heq. by apply list_elem_of_fmap_2. }
  rewrite (IH d1 Hnd Hf1). rewrite filter_cons.
  assert (jobs (insertSkippingConflicts rows d1) !! j_ID row = jobs d1 !! j_ID row) as Hsame
    by by apply insert_skipping_other.
  unfold d1, insert_skipping1 in Hsame |- *.
  destruct (insert_job row d) as [d'|] eqn:E.
  - apply insert_job_Ok in E as (_ & _ & ->). simpl in *. rewrite lookup_insert_eq in Hsame.
    rewrite decide_True by done. simpl. rewrite map_size_insert_None by done. lia.
  - rewrite decide_False; [lia|]. unfold landed_in. congruence.
Qed.

Section chunk.
Context `{Foundation}.

Lemma conflictInsertChunk_Ok ctx rows d landed d' :
  conflictInsertChunk ctx rows d = Ok (landed, d') →
  ∃ rows', Forall2 (created ctx) rows rows' ∧ d' = insertSkippingConflicts rows' d ∧
    landed = landedRows rows' d'.
Proof.
  unfold conflictInsertChunk. destruct rows as [|r rows].
  - intros [= <- <-]. exists []. split_and!; [constructor|done..].
  - destruct (before_create_all ctx (r :: rows)) as [rows'|] eqn:E; [|done].
    apply before_create_all_Ok in E. intros [= <- <-]. eauto.
Qed.

Lemma wf_conflictInsertChunk ctx rows d landed d' :
  conflictInsertChunk ctx rows d = Ok (landed, d') → Forall fresh_row rows → db_wf d → db_wf d'.
Proof.
  intros (rows' & Hc & -> & _)%conflictInsertChunk_Ok Hf Hd.
  apply wf_insert_skipping; [|done]. eapply Forall_impl; [by eapply created_fresh|apply fresh_row_wf].
Qed.

(** ids a call mints: present, distinct and not yet in the table. *)
Definition fresh_ids (d : db) (ids : list string) : Prop :=
  NoDup ids ∧ Forall (λ id, id ≠ "" ∧ jobs d !! id = None) ids.

(** A row that claims no key lands, whatever stands beside it in the chunk. *)
Lemma keyless_land rows d r :
  j_UniqueKey r = None → j_UniqueActiveKey r = None → NoDup (j_ID <$> rows) →
  Forall (λ r, jobs d !! j_ID r = None) rows → r ∈ rows →
  landed_in (jobs (insertSkippingConflicts rows d)) r.
Proof.
  unfold landed_in. intros Hk Ha. revert d. induction rows as [|x l IH]; intros d Hnd Hf Hin; [set_solver|].
  rewrite fmap_cons, NoDup_cons in Hnd. destruct Hnd as [Hni Hnd].
  inversion Hf as [|? ? Hx Hf']; subst. simpl. apply elem_of_cons in Hin as [->|Hin].
  - apply insert_skipping_old. unfold insert_skipping1. rewrite insert_keyless by done.
    simpl. by rewrite lookup_insert_eq.
  - apply IH; try done. rewrite Forall_forall in Hf' |- *. intros y Hy. unfold insert_skipping1.
    destruct (insert_job x d) as [d'|] eqn:E; [|by apply Hf'].
    apply insert_job_Ok in E as (_ & _ & ->). simpl. rewrite lookup_insert_ne; [by apply Hf'|].
    intros Heq. apply Hni. rewrite Heq. by apply list_elem_of_fmap_2.
Qed.

Lemma chunk_keyless rows r :
  chunkHasUniqueKey rows = false → r ∈ rows → j_UniqueKey r = None ∧ j_UniqueActiveKey r = None.
Proof.
  intros Hk Hr. induction Hr as [l|? ? ? ? IH]; simpl in Hk; apply orb_false_iff in Hk as [Hx Hk]; auto.
  by rewrite orb_false_iff, !bool_decide_eq_false, <-!eq_None_not_Some in Hx.
Qed.

(** A live row under a chunk row's id is that row. *)
Lemma landed_found rows d r :
  NoDup (j_ID <$> rows) → Forall (λ r, jobs d !! j_ID r = None) rows →
  Forall fresh_row rows → r ∈ rows →
  landed_in (jobs (insertSkippingConflicts rows d)) r ↔
  is_Some (find_job (insertSkippingConflicts rows d) (j_ID r)).
Proof.
  intros Hnd Hf Hfr Hr. rewrite Forall_forall in Hf, Hfr. unfold landed_in. split.
  - intros Hl. exists r. apply find_job_Some. split; [done|]. by apply fresh_not_deleted, Hfr.
  - intros [r' [Hr' _]%find_job_Some]. rewrite Hr'. apply insert_skipping_inv in Hr' as Hcase.
    specialize (Hf r Hr). destruct Hcase as [?|(_ & Hin & Hid)]; [congruence|]. f_equal.
    apply list_elem_of_lookup_1 in Hr as [i Hi], Hin as [k Hk].
    assert (i = k) as ->; [|congruence].
    apply (NoDup_lookup (j_ID <$> rows) i k (j_ID r)); [done|..];
      rewrite list_lookup_fmap; [by rewrite Hi|rewrite Hk; simpl; by rewrite Hid].
Qed.

Lemma filter_ids (P : string → Prop) (Q : jobRow → Prop) 
    `{!∀ x, Decision (P x), !∀ x, Decision (Q x)} (l : list jobRow) :
  (∀ r, r ∈ l → Q r ↔ P (j_ID r)) → filter P (j_ID <$> l) = j_ID <$> filter Q l.
Proof.
  induction l as [|r l IH]; intros Hl; [done|]. rewrite fmap_cons, !filter_cons.
  rewrite IH by (intros; apply Hl; by right). pose proof (Hl r ltac:(left)).
  destruct (decide (Q r)), (decide (P (j_ID r))); tauto || done.
Qed.

(** The read-back reports exactly the rows the INSERT wrote. *)
Lemma landedRows_spec rows d :
  NoDup (j_ID <$> rows) → Forall (λ r, jobs d !! j_ID r = None) rows →
  Forall fresh_row rows →
  landedRows rows (insertSkippingConflicts rows d) =
  j_ID <$> filter (landed_in (jobs (insertSkippingConflicts rows d))) rows.
Proof.
  intros Hnd Hf Hfr. unfold landedRows. destruct (chunkHasUniqueKey rows) eqn:Hk.
  - apply filter_ids. intros r Hr. rewrite bool_decide_eq_true. by apply landed_found.
  - f_equal. symmetry. apply filter_all, Forall_forall. intros r Hr.
    destruct (chunk_keyless _ _ Hk Hr). by apply keyless_land.
Qed.

Lemma insert_skipping_app l k d :
  insertSkippingConflicts (l ++ k) d = insertSkippingConflicts k (insertSkippingConflicts l d).
Proof. unfold insertSkippingConflicts. by rewrite foldl_app. Qed.

(** Ids of one chunk stay free while another, disjoint chunk is inserted. *)
Lemma free_after l k d :
  NoDup (j_ID <$> (l ++ k)) → Forall (λ r, jobs d !! j_ID r = None) (l ++ k) →
  Forall (λ r, jobs (insertSkippingConflicts l d) !! j_ID r = None) k.
Proof.
  rewrite fmap_app, NoDup_app. intros (_ & Hdis & _) [_ Hk]%Forall_app.
  rewrite Forall_forall in Hk |- *. intros r Hr. rewrite insert_skipping_other; [by apply Hk|].
  intros Hin. apply (Hdis _ Hin). by apply list_elem_of_fmap_2.
Qed.

Lemma landedRows_app l k d :
  NoDup (j_ID <$> (l ++ k)) → Forall (λ r, jobs d !! j_ID r = None) (l ++ k) →
  Forall fresh_row (l ++ k) →
  landedRows (l ++ k) (insertSkippingConflicts (l ++ k) d) =
  landedRows l (insertSkippingConflicts l d) ++
  landedRows k (insertSkippingConflicts k (insertSkippingConflicts l d)).
Proof.
  intros Hnd Hn Hfr. rewrite landedRows_spec by done.
  pose proof (free_after l k d Hnd Hn). rewrite fmap_app, NoDup_app in Hnd.
  destruct Hnd as (? & Hdis & ?). apply Forall_app in Hn as [? _]. apply Forall_app in Hfr as [? ?].
  rewrite !landedRows_spec by done. rewrite insert_skipping_app, filter_app, fmap_app.
  f_equal. f_equal. apply filter_iff_in. intros r Hr. unfold landed_in.
  rewrite insert_skipping_other; [done|]. intros Hin. apply (Hdis (j_ID r)); [|done].
  by apply list_elem_of_fmap_2.
Qed.

(** Two chunk inserts in a row are the insert of the whole. *)
Lemma conflictInsertChunk_app ctx l k d :
  fresh_ids d (j_ID <$> (l ++ k)) → Forall fresh_row (l ++ k) →
  conflictInsertChunk ctx (l ++ k) d =
  (let? ' (a, d1) := conflictInsertChunk ctx l d in
   let? ' (b, d2) := conflictInsertChunk ctx k d1 in Ok (a ++ b, d2)).
Proof.
  intros [Hnd Hids] Hfr.
  assert (∀ rows d, conflictInsertChunk ctx rows d =
    (let? rows' := before_create_all ctx rows in
     Ok (landedRows rows' (insertSkippingConflicts rows' d), insertSkippingConflicts rows' d))) as Hall
    by (intros [|? ?] ?; reflexivity).
  rewrite !Hall, before_create_all_app.
  destruct (before_create_all ctx l) as [l'|] eqn:El; [|done].
  rewrite Hall. destruct (before_create_all ctx k) as [k'|] eqn:Ek; [|done].
  apply before_create_all_Ok in El, Ek. pose proof (Forall2_app El Ek) as Elk.
  rewrite Forall_fmap in Hids.
  assert (j_ID <$> (l' ++ k') = j_ID <$> (l ++ k)) as Hsame.
  { eapply created_ids; [done|]. eapply Forall_impl; [exact Hids|]. intros r Hr. exact (proj1 Hr). }
  rewrite landedRows_app; [by rewrite insert_skipping_app|by rewrite Hsame| |by eapply created_fresh].
  apply (Forall_fmap j_ID (λ id, jobs d !! id = None)). rewrite Hsame. apply Forall_fmap.
  eapply Forall_impl; [exact Hids|]. intros r Hr. exact (proj2 Hr).
Qed.

Lemma fresh_ids_after ctx l k d a d1 :
  conflictInsertChunk ctx l d = Ok (a, d1) → fresh_ids d (j_ID <$> (l ++ k)) →
  fresh_ids d1 (j_ID <$> k).
Proof.
  intros (l' & Hl & -> & _)%conflictInsertChunk_Ok [Hnd Hids].
  rewrite fmap_app in Hnd, Hids. apply Forall_app in Hids as [Hl0 Hk0].
  apply NoDup_app in Hnd as (_ & Hdis & Hnd). split; [done|].
  apply (created_ids ctx) in Hl as Hsame.
  2:{ rewrite Forall_fmap in Hl0. eapply Forall_impl; [exact Hl0|]. intros r Hr. exact (proj1 Hr). }
  rewrite Forall_forall in Hk0 |- *. intros id Hid. destruct (Hk0 _ Hid) as [Hne Hn].
  split; [done|]. rewrite insert_skipping_other; [done|]. rewrite Hsame. intros Hin.
  by apply (Hdis _ Hin).
Qed.
End chunk.
