(* ===== verification/Barrier.v ===== *)
(** * Follow-ups and barriers: the fan-out a finalize makes and its fan-in

    internal/core/driver.go. A succeeded attempt may enqueue follow-up jobs and
    declare a barrier over those that name it as their parent; the transaction
    that makes the last of them terminal enqueues the barrier's continuation.
    Each definition runs inside its caller's transaction: on [Err] the caller
    rolls back, so no table is returned. *)

From S2P Require Import Prelude Types Text Store Insert.

Section barrier.
Context `{Foundation}.

(** The rows of a fan-out, numbered from [n]. *)
Fixpoint buildChildRows (ctx : context) (n : nat) (followUps : list FollowUp) (parentID : string)
  : res (list jobRow) :=
  match followUps with
  | [] => Ok []
  | fu :: rest =>
    let? row := buildChildRow ctx n fu parentID parentID InsertSourceFollowUp
                  (defaultsFor (c_Registry ctx) (fu_Kind fu)) in
    let? rows := buildChildRows ctx (S n) rest parentID in
    Ok (row :: rows)
  end.

(** The chunk loop of insertFollowUps: [for start := 0; start < len(rows);
    start += chunkSize]. Each pass drops at least one row, so [length rows]
    passes are enough. *)
Fixpoint insertChunks (fuel : nat) (ctx : context) (chunkSize : nat) (rows : list jobRow)
    (d : db) : res (Z * db) :=
  match fuel, rows with
  | _, [] => Ok (0%Z, d)
  | O, _ => Ok (0%Z, d)
  | S fuel, _ =>
    let? ' (landed, d1) := conflictInsertChunk ctx (take chunkSize rows) d in
    let? ' (rest, d2) := insertChunks fuel ctx chunkSize (drop chunkSize rows) d1 in
    Ok ((Z.of_nat (length landed) + rest)%Z, d2)
  end.

Definition insertFollowUps (opts : DriverOpts) (ctx : context) (followUps : list FollowUp)
    (parentID : string) (d : db) : res (Z * db) :=
  match followUps with
  | [] => Ok (0%Z, d)
  | _ =>
    if (followUpLimit opts <? Z.of_nat (length followUps))%Z then Err ErrFollowUpLimit
    else
      let? rows := buildChildRows ctx 0 followUps parentID in
      insertChunks (length rows) ctx (Z.to_nat (followUpChunkSize opts)) rows d
  end.

(** [InsertChild]: the single-row seam of the Driver interface. *)
Definition InsertChild (ctx : context) (fu : FollowUp) (parentID : string) (d : db) : res db :=
  let? row := buildChildRow ctx 0 fu parentID parentID InsertSourceFollowUp
                (defaultsFor (c_Registry ctx) (fu_Kind fu)) in
  let? row := BeforeCreate (c_Now ctx 0) (c_NewID ctx 0) row in
  match insert_job row d with
  | Ok d' => Ok d'
  | Err ErrDuplicateKey => Err ErrAlreadyEnqueued
  | Err e => Err e
  end.

Definition barrier_children (followUps : list FollowUp) : Z :=
  Z.of_nat (length (filter (λ fu, fu_Parent fu = true) followUps)).

Definition validateBarrier (b : Barrier) (followUps : list FollowUp) (maxChildren : Z) : res unit :=
  if is_empty (b_Kind b) then Err (ValidationError "barrier kind")
  else if (barrier_children followUps =? 0)%Z then Err ErrBarrierNoChildren
  else if (maxChildren <? barrier_children followUps)%Z then Err ErrBarrierTooWide
  else Ok tt.

(** [resolveBarrierColumns]: the continuation's kind and its resolved spec. The
    Marshal and Unmarshal of the spec are inverse on its seven fields. *)
Definition resolveBarrierColumns (ctx : context) (d : db) (raw : RawJob) (b : Barrier)
  : res (string * barrierSpec) :=
  match find_job d (raw_ID raw) with
  | None => Err ErrRecordNotFound
  | Some parent =>
    match b_Args b with
    | None => Err ErrMarshal
    | Some args =>
      let routed := applyTo (defaultsFor (c_Registry ctx) (b_Kind b))
        {| o_Queue := b_Queue b; o_UniqueKey := ""; o_UniqueActiveKey := ""; o_ScheduleAt := None;
           o_Parent := None; o_Priority := b_Priority b; o_ExecutorClass := b_ExecutorClass b;
           o_MaxAttempts := 0; o_Timeout := 0; o_Tx := false; o_RequestID := "";
           o_Tags := []; o_Metadata := ∅ |} in
      Ok (b_Kind b,
          {| bs_Args := args; bs_Queue := orString (o_Queue routed) (raw_Queue raw);
             bs_ExecutorClass := orString (o_ExecutorClass routed) (j_ExecutorClass parent);
             bs_Priority := orInt (o_Priority routed) (j_Priority parent);
             bs_MaxAttempts := o_MaxAttempts routed;
             bs_TimeoutMs := if (0 <? o_Timeout routed)%Z then milliseconds (o_Timeout routed) else 0;
             bs_Tags := o_Tags routed |})
    end
  end.

Definition barrierSpecDefaults (spec : option barrierSpec) : res kindDefaults :=
  match spec with
  | None => Err ErrMarshal
  | Some s =>
    Ok {| kd_queue := ""; kd_priority := 0; kd_maxAttempts := bs_MaxAttempts s;
          kd_timeout := wrap64 (bs_TimeoutMs s * millisecond); kd_executorClass := "";
          kd_tags := bs_Tags s |}
  end.

Definition barrierKey (parentID : string) : string := "barrier:" +:+ parentID.

Definition followUpFromBarrierSpec (kind : string) (spec : option barrierSpec)
    (parentID : string) : res FollowUp :=
  match spec with
  | None => Err ErrMarshal
  | Some s =>
    Ok {| fu_Kind := kind; fu_Args := Some (bs_Args s); fu_Queue := bs_Queue s;
          fu_UniqueKey := barrierKey parentID; fu_ScheduleAt := None; fu_Parent := true;
          fu_Priority := bs_Priority s; fu_ExecutorClass := bs_ExecutorClass s;
          fu_Tags := []; fu_Metadata := ∅ |}
  end.

(** parent_job_id = parentID AND state NOT IN (terminal states). *)
Definition pending_child (parentID : string) (r : jobRow) : bool :=
  bool_decide (j_ParentJobID r = Some parentID) && negb (state_in (j_State r) TerminalStates).

Definition has_id (id : string) (r : jobRow) : bool := bool_decide (j_ID r = id).

(** [fireBarrierIfComplete]: the transaction runs under the parent's row lock (or
    SQLite's single writer), so the gate read and the locked read agree. The
    clear names no updated_at, so GORM stamps it. [n] numbers the row it builds. *)
Definition fireBarrierIfComplete (ctx : context) (n : nat) (parentID spawnedBy : string) (d : db)
  : res (bool * db) :=
  match find_job d parentID with
  | None => Ok (false, d)
  | Some parent =>
    match j_BarrierKind parent with
    | None => Ok (false, d)
    | Some kind =>
      if (0 <? count_jobs (pending_child parentID) d)%Z then Ok (false, d)
      else
        let? fu := followUpFromBarrierSpec kind (j_BarrierSpec parent) parentID in
        let? kd := barrierSpecDefaults (j_BarrierSpec parent) in
        let? row := buildChildRow ctx n fu parentID spawnedBy InsertSourceBarrier (Some kd) in
        let? ' (_, d1) := conflictInsertChunk ctx [row] d in
        Ok (true, update_jobs (has_id parentID)
                    [ColBarrierKind None; ColBarrierSpec None; ColUpdatedAt (c_GormNow ctx)] d1)
    end
  end.

End barrier.

(** ** The fan-out is one INSERT, whatever the chunk size *)

Section fanout.
Context `{Foundation}.

(** What a built child takes from its follow-up. *)
Definition child_of (parentID : string) (fu : FollowUp) (row : jobRow) : Prop :=
  j_Kind row = fu_Kind fu ∧
  j_ParentJobID row = (if fu_Parent fu then Some parentID else None) ∧
  j_UniqueKey row = (if is_empty (fu_UniqueKey fu) then None else Some (fu_UniqueKey fu)) ∧
  j_UniqueActiveKey row = None.

Lemma buildChildRows_Ok ctx n fus parentID rows :
  buildChildRows ctx n fus parentID = Ok rows →
  Forall fresh_row rows ∧ j_ID <$> rows = c_NewID ctx <$> seq n (length fus) ∧
  Forall2 (child_of parentID) fus rows.
Proof.
  revert n rows. induction fus as [|fu fus IH]; intros n rows; simpl.
  - intros [= <-]. split_and!; constructor.
  - destruct (buildChildRow _ _ _ _ _ _ _) as [row|] eqn:E; [|done].
    apply buildChildRow_Ok in E as (Hfr & Hid & Hk & Hp & Hu & Ha).
    destruct (buildChildRows _ _ _ _) as [rs|] eqn:Ers; [|done]. intros [= <-].
    apply IH in Ers as (? & Hids & ?). split_and!; [by constructor| |by constructor].
    rewrite fmap_cons. simpl. by rewrite Hid, Hids.
Qed.

Lemma insertChunks_whole fuel ctx c rows d :
  0 < c → length rows ≤ fuel → fresh_ids d (j_ID <$> rows) → Forall fresh_row rows →
  insertChunks fuel ctx c rows d =
  (let? ' (landed, d') := conflictInsertChunk ctx rows d in Ok (Z.of_nat (length landed), d')).
Proof.
  intros Hc. revert rows d. induction fuel as [|fuel IH]; intros rows d Hlen Hids Hfr.
  - destruct rows; [done|simpl in Hlen; lia].
  - destruct rows as [|r0 rows0] eqn:Erows; [done|]. rewrite <-Erows in *. unfold insertChunks.
    fold insertChunks. rewrite Erows at 1.
    rewrite <-(take_drop c rows) in Hids, Hfr. 
    replace (conflictInsertChunk ctx rows d)
      with (conflictInsertChunk ctx (take c rows ++ drop c rows) d) by by rewrite take_drop.
    rewrite conflictInsertChunk_app by done.
    destruct (conflictInsertChunk ctx (take c rows) d) as [[a d1]|] eqn:Ea; [|done].
    rewrite IH; [|rewrite length_drop, Erows in *; simpl in *; lia
                 |by eapply fresh_ids_after|by apply Forall_app in Hfr as [_ ?]].
    destruct (conflictInsertChunk ctx (drop c rows) d1) as [[b d2]|]; [|done].
    rewrite length_app. by rewrite Nat2Z.inj_add.
Qed.

(** The ids a fan-out of [n] children mints are unused. *)
Definition fresh_context (ctx : context) (d : db) (n : nat) : Prop :=
  fresh_ids d (c_NewID ctx <$> seq 0 n).

Lemma insertFollowUps_whole opts ctx fus parentID d :
  fresh_context ctx d (length fus) → (Z.of_nat (length fus) ≤ followUpLimit opts)%Z →
  insertFollowUps opts ctx fus parentID d =
  (let? rows := buildChildRows ctx 0 fus parentID in
   let? ' (landed, d') := conflictInsertChunk ctx rows d in
   Ok (Z.of_nat (length landed), d')).
Proof.
  intros Hf Hlim. unfold insertFollowUps. destruct fus as [|fu fus]; [done|].
  rewrite (proj2 (Z.ltb_ge _ _)) by done.
  destruct (buildChildRows _ _ _ _) as [rows|] eqn:E; [|done].
  apply buildChildRows_Ok in E as (Hfr & Hids & _).
  apply insertChunks_whole; [pose proof (driver_bounds_positive opts); lia|done| |done].
  rewrite Hids. exact Hf.
Qed.

(** Without any freshness: the table a fan-out leaves. *)
Lemma insertChunks_db fuel ctx c rows d n d' :
  0 < c → length rows ≤ fuel → insertChunks fuel ctx c rows d = Ok (n, d') →
  ∃ rows', Forall2 (created ctx) rows rows' ∧ d' = insertSkippingConflicts rows' d.
Proof.
  intros Hc. revert rows d n. induction fuel as [|fuel IH]; intros rows d n Hlen.
  - destruct rows; [|simpl in Hlen; lia]. intros [= <- <-]. exists []. by split; [constructor|].
  - destruct rows as [|r0 rows0] eqn:Erows.
    { intros [= <- <-]. exists []. by split; [constructor|]. }
    rewrite <-Erows in *. unfold insertChunks. fold insertChunks. rewrite Erows at 1.
    destruct (conflictInsertChunk ctx (take c rows) d) as [[a d1]|] eqn:Ea; [|done].
    apply conflictInsertChunk_Ok in Ea as (t' & Ht & -> & _).
    destruct (insertChunks _ _ _ _ _) as [[b d2]|] eqn:Eb; [|done]. intros [= <- <-].
    apply IH in Eb as (k' & Hk & ->); [|rewrite length_drop, Erows in *; simpl in *; lia].
    exists (t' ++ k'). split; [|by rewrite insert_skipping_app].
    rewrite <-(take_drop c rows). by apply Forall2_app.
Qed.

Lemma insertFollowUps_Ok opts ctx fus parentID d n d' :
  insertFollowUps opts ctx fus parentID d = Ok (n, d') →
  (Z.of_nat (length fus) ≤ followUpLimit opts)%Z ∧
  ∃ rows rows', buildChildRows ctx 0 fus parentID = Ok rows ∧
    Forall2 (created ctx) rows rows' ∧ d' = insertSkippingConflicts rows' d.
Proof.
  pose proof (driver_bounds_positive opts) as Hb. unfold insertFollowUps.
  destruct fus as [|fu fus].
  { intros [= <- <-]. split; [simpl; lia|]. exists [], []. split_and!; [done|constructor|done]. }
  destruct (_ <? _)%Z eqn:Hlim; [done|]. apply Z.ltb_ge in Hlim.
  destruct (buildChildRows _ _ _ _) as [rows|]; [|done].
  intros (rows' & ? & ->)%insertChunks_db; [by eauto 10|lia|done].
Qed.

Lemma wf_insertFollowUps opts ctx fus parentID d n d' :
  insertFollowUps opts ctx fus parentID d = Ok (n, d') → db_wf d → db_wf d'.
Proof.
  intros (_ & rows & rows' & Hb & Hc & ->)%insertFollowUps_Ok Hd.
  apply buildChildRows_Ok in Hb as (Hfr & _). apply wf_insert_skipping; [|done].
  eapply Forall_impl; [by eapply created_fresh|apply fresh_row_wf].
Qed.
End fanout.

(** ** What a barrier check does *)

Section fire.
Context `{Foundation}.

Definition clear_barrier (ctx : context) : list jobCol :=
  [ColBarrierKind None; ColBarrierSpec None; ColUpdatedAt (c_GormNow ctx)].

(** The continuation row of a parent's barrier. *)
Record continuation (pid kind : string) (row : jobRow) : Prop := {
  cont_fresh : fresh_row row;
  cont_kind : j_Kind row = kind;
  cont_parent : j_ParentJobID row = Some pid;
  cont_key : j_UniqueKey row = Some (barrierKey pid);
  cont_active : j_UniqueActiveKey row = None
}.

(** The parent's barrier, when the check can see one. *)
Definition barrier_of (d : db) (pid : string) : option string :=
  p ← find_job d pid; j_BarrierKind p.

Lemma barrierKey_nonempty pid : is_empty (barrierKey pid) = false.
Proof. done. Qed.

Lemma fireBarrier_Ok ctx n pid by_ d fired d' :
  fireBarrierIfComplete ctx n pid by_ d = Ok (fired, d') →
  (fired = false ∧ d' = d ∧
     (barrier_of d pid = None ∨ (0 < count_jobs (pending_child pid) d)%Z)) ∨
  (fired = true ∧ count_jobs (pending_child pid) d = 0%Z ∧
   ∃ kind row, barrier_of d pid = Some kind ∧ continuation pid kind row ∧
     j_ID row = orString (c_NewID ctx n) (c_NewID ctx 0) ∧
     d' = update_jobs (has_id pid) (clear_barrier ctx) (insertSkippingConflicts [row] d)).
Proof.
  unfold fireBarrierIfComplete, barrier_of. destruct (find_job d pid) as [p|]; simpl;
    [|intros [= <- <-]; left; by auto].
  destruct (j_BarrierKind p) as [kind|]; [|intros [= <- <-]; left; by auto].
  destruct (0 <? count_jobs _ d)%Z eqn:Hc; [apply Z.ltb_lt in Hc; intros [= <- <-]; left; by auto|].
  assert (count_jobs (pending_child pid) d = 0%Z) as Hz.
  { apply Z.ltb_ge in Hc. unfold count_jobs in *. lia. }
  destruct (j_BarrierSpec p) as [spec|]; [|done]. simpl.
  destruct (buildChildRow _ _ _ _ _ _ _) as [row|] eqn:Erow; [|done].
  apply buildChildRow_Ok in Erow as (Hfr & Hid & Hk & Hp & Hu & Ha). simpl in Hk, Hp, Hu.
  destruct (BeforeCreate _ _ row) as [row'|] eqn:Ebc; [|done].
  intros [= <- <-]. right. split_and!; [done..|]. exists kind, row'.
  apply BeforeCreate_Ok in Ebc as (-> & Hk' & _ & Hp' & Hu' & Ha' & _ & _ & Hfr').
  rewrite Hid. split_and!; try done. split; [by apply Hfr'|congruence..].
Qed.

Lemma wf_fireBarrier ctx n pid by_ d fired d' :
  fireBarrierIfComplete ctx n pid by_ d = Ok (fired, d') → db_wf d → db_wf d'.
Proof.
  intros [(_ & -> & _)|(_ & _ & kind & row & _ & Hc & _ & ->)]%fireBarrier_Ok Hd; [done|].
  apply wf_update_jobs; [|apply wf_insert_skipping; [|done]].
  - intros id r Hr _ []. split; [by apply keys_within_same|]. solve_row_wf.
  - apply Forall_singleton. apply fresh_row_wf, Hc.
Qed.
End fire.

(** ** No barrier is stranded

    Every declared barrier (of a parent outside [X]) still has a pending child
    whose terminal transition will run its check. *)

Definition barriers_live_but (X : gset string) (d : db) : Prop :=
  ∀ pid, pid ∉ X → is_Some (barrier_of d pid) → (0 < count_jobs (pending_child pid) d)%Z.
Abbreviation barriers_live := (barriers_live_but ∅).

Lemma barrier_of_Some d pid kind :
  barrier_of d pid = Some kind ↔
  ∃ p, jobs d !! pid = Some p ∧ not_deleted p = true ∧ j_BarrierKind p = Some kind.
Proof.
  unfold barrier_of. split.
  - destruct (find_job d pid) as [p|] eqn:E; [|done]. apply find_job_Some in E. naive_solver.
  - intros (p & Hp & Hd & Hk). by rewrite (proj2 (find_job_Some d pid p)).
Qed.

Lemma live_weaken X Y d : X ⊆ Y → barriers_live_but X d → barriers_live_but Y d.
Proof. intros HXY Hl pid Hpid. apply Hl. set_solver. Qed.

(** Rewriting rows in place keeps barriers live when it declares none outside [X]
    and ends no child of a parent outside [X]. *)
Lemma live_map X (f : jobRow → jobRow) d d' :
  (∀ id, jobs d' !! id = f <$> jobs d !! id) →
  (∀ id r, jobs d !! id = Some r → not_deleted (f r) = not_deleted r ∧
    (is_Some (j_BarrierKind (f r)) → is_Some (j_BarrierKind r) ∨ id ∈ X) ∧
    (∀ pid, pid ∉ X → pending_child pid r = true → pending_child pid (f r) = true)) →
  barriers_live_but X d → barriers_live_but X d'.
Proof.
  intros Hf Hs Hl pid Hpid [kind (p' & Hp' & Hd' & Hk')%barrier_of_Some].
  rewrite Hf in Hp'. apply fmap_Some_1 in Hp' as (p & Hp & ->).
  destruct (Hs _ _ Hp) as (Hdel & Hbar & _).
  assert (is_Some (barrier_of d pid)) as Hb.
  { destruct Hbar as [[k Hk]|?]; [by rewrite Hk'| |done].
    exists k. apply barrier_of_Some. rewrite Hdel in Hd'. eauto. }
  specialize (Hl pid Hpid Hb). apply count_jobs_pos in Hl as (id & r & Hr & Hpc & Hd).
  destruct (Hs _ _ Hr) as (Hdr & _ & Hpend).
  apply count_jobs_pos. exists id, (f r). rewrite Hf, Hr, Hdr. auto.
Qed.

Lemma live_update X P cols d :
  (∀ id r, jobs d !! id = Some r → P r = true →
    (is_Some (j_BarrierKind (Updates cols r)) → is_Some (j_BarrierKind r) ∨ id ∈ X) ∧
    (∀ pid, pid ∉ X → pending_child pid r = true → pending_child pid (Updates cols r) = true)) →
  barriers_live_but X d → barriers_live_but X (update_jobs P cols d).
Proof.
  intros Hs. eapply live_map; [intros; apply lookup_update_where|]. intros id r Hr. simpl.
  destruct (P r && not_deleted r) eqn:E; [|by auto].
  apply andb_true_iff in E as [E _]. rewrite Updates_not_deleted. split; [done|]. by eapply Hs.
Qed.

Lemma live_insert X rows d :
  Forall fresh_row rows → barriers_live_but X d →
  barriers_live_but X (insertSkippingConflicts rows d).
Proof.
  intros Hfr Hl pid Hpid [kind (p' & Hp' & Hd' & Hk')%barrier_of_Some].
  apply insert_skipping_inv in Hp' as [Hp|(_ & Hin & _)].
  - assert (is_Some (barrier_of d pid)) as Hb by (exists kind; apply barrier_of_Some; eauto).
    specialize (Hl pid Hpid Hb). apply count_jobs_pos in Hl as (id & r & Hr & ? & ?).
    apply count_jobs_pos. exists id, r. by rewrite (insert_skipping_old _ _ _ _ Hr).
  - rewrite Forall_forall in Hfr. destruct (Hfr _ Hin). congruence.
Qed.

Lemma live_jobs X d d' : jobs d' = jobs d → barriers_live_but X d → barriers_live_but X d'.
Proof.
  intros Hj Hl pid Hp Hb. unfold barrier_of, find_job, count_jobs in *. rewrite Hj in *. by apply Hl.
Qed.

(** A parent with a pending child owes nothing. *)
Lemma live_pending X pid d :
  (0 < count_jobs (pending_child pid) d)%Z → barriers_live_but X d →
  barriers_live_but (X ∖ {[pid]}) d.
Proof.
  intros Hp Hl q Hq Hb. destruct (decide (q = pid)) as [->|Hne]; [done|]. apply Hl; [set_solver|done].
Qed.

Section live.
Context `{Foundation}.

(** A fan-out with a child that names its parent and claims no key leaves that
    parent a pending child. *)
Lemma fanout_pending opts ctx fus pid d n d' fu :
  insertFollowUps opts ctx fus pid d = Ok (n, d') → fresh_context ctx d (length fus) →
  fu ∈ fus → fu_Parent fu = true → fu_UniqueKey fu = "" →
  (0 < count_jobs (pending_child pid) d')%Z.
Proof.
  intros (_ & rows & rows' & Hb & Hc & ->)%insertFollowUps_Ok Hf Hfu Hpar Hkey.
  apply buildChildRows_Ok in Hb as (Hfr & Hids & Hch). destruct Hf as [Hnd Hfree].
  rewrite <-Hids in Hnd, Hfree. apply list_elem_of_lookup in Hfu as [i Hi].
  destruct (Forall2_lookup_l _ _ _ _ _ Hch Hi) as (row & Hrow & _ & Hp & Hk & Ha).
  destruct (Forall2_lookup_l _ _ _ _ _ Hc Hrow) as (row' & Hrow' & Hcr).
  apply BeforeCreate_Ok in Hcr as (_ & _ & _ & Hp' & Hk' & Ha' & _ & _ & _).
  assert (j_ID <$> rows' = j_ID <$> rows) as Hsame.
  { eapply created_ids; [done|]. rewrite Forall_fmap in Hfree.
    eapply Forall_impl; [exact Hfree|]. intros r Hr. exact (proj1 Hr). }
  apply list_elem_of_lookup_2 in Hrow'.
  assert (landed_in (jobs (insertSkippingConflicts rows' d)) row') as Hland.
  { apply keyless_land; [by rewrite Hk', Hk, Hkey|congruence|by rewrite Hsame| |done].
    apply (Forall_fmap j_ID (λ id, jobs d !! id = None)). rewrite Hsame.
    eapply Forall_impl; [exact Hfree|]. by intros ? [_ ?]. }
  pose proof (created_fresh _ _ _ Hc Hfr) as Hfr'. rewrite Forall_forall in Hfr'.
  apply count_jobs_pos. exists (j_ID row'), row'. split; [done|].
  split; [|by apply fresh_not_deleted, Hfr']. unfold pending_child.
  rewrite Hp', Hp, Hpar, bool_decide_true by done. by rewrite (fr_state _ (Hfr' _ Hrow')).
Qed.

(** A barrier check discharges its parent. *)
Lemma live_fire X ctx n pid by_ d fired d' :
  keyed (jobs d) → fireBarrierIfComplete ctx n pid by_ d = Ok (fired, d') →
  barriers_live_but X d → barriers_live_but (X ∖ {[pid]}) d'.
Proof.
  intros Hkey [(_ & -> & Hcase)|(_ & _ & kind & row & _ & Hc & _ & ->)]%fireBarrier_Ok Hl.
  - intros q Hq Hb. destruct (decide (q = pid)) as [->|Hne]; [|apply Hl; set_solver].
    destruct Hcase as [Hn|?]; [|done]. rewrite Hn in Hb. by destruct Hb.
  - apply live_insert with (rows := [row]) in Hl; [|by apply Forall_singleton, Hc].
    set (d1 := insertSkippingConflicts [row] d) in *.
    apply live_update with (P := has_id pid) (cols := clear_barrier ctx) in Hl.
    2:{ intros id r _ _. split; [intros [? [=]]|done]. }
    intros q Hq Hb. destruct (decide (q = pid)) as [->|Hne]; [|apply Hl; [set_solver|done]].
    destruct Hb as [k (p' & Hp' & Hd & Hk)%barrier_of_Some].
    apply lookup_update_where_Some in Hp' as (p & Hp & [[_ ->]|[HP ->]]); [done|].
    assert (j_ID p = pid) as Hid.
    { apply insert_skipping_inv in Hp as [?|(_ & _ & ?)]; [by apply Hkey|done]. }
    unfold has_id in HP. by rewrite bool_decide_true, Hd in HP.
Qed.

(** The check is exact: it fires once the last child is terminal, and a second
    check finds nothing left to fire. *)
Lemma fire_idempotent ctx n pid by_ d d' ctx2 n2 by2 :
  keyed (jobs d) → fireBarrierIfComplete ctx n pid by_ d = Ok (true, d') →
  fireBarrierIfComplete ctx2 n2 pid by2 d' = Ok (false, d').
Proof.
  intros Hkey Hf. apply fireBarrier_Ok in Hf as [[? _]|(_ & _ & kind & row & Hb & Hc & _ & ->)]; [done|].
  apply barrier_of_Some in Hb as (p & Hp & Hd & Hk).
  pose proof (insert_skipping_old [row] _ _ _ Hp) as Hp1.
  revert Hp1. generalize (insertSkippingConflicts [row] d). intros d1 Hp1.
  unfold fireBarrierIfComplete, find_job. simpl. rewrite lookup_update_where, Hp1. simpl.
  unfold has_id. rewrite bool_decide_true by by apply Hkey. rewrite Hd. simpl.
  by rewrite Updates_not_deleted, Hd.
Qed.
End live.

(** ** The fan-out's and the fan-in's theorems *)

Section theorems.
Context `{Foundation}.

(** A fan-out is all or nothing and independent of its chunking: over the
    configured limit it is refused; otherwise, whatever the chunk size, it builds
    every child and inserts them as one statement would, and reports exactly the
    children that landed. *)
Theorem fanout_chunking opts ctx fus parentID d :
  fresh_context ctx d (length fus) →
  insertFollowUps opts ctx fus parentID d =
  (if (followUpLimit opts <? Z.of_nat (length fus))%Z then Err ErrFollowUpLimit
   else
     let? rows := buildChildRows ctx 0 fus parentID in
     let? ' (landed, d') := conflictInsertChunk ctx rows d in
     Ok (Z.of_nat (length landed), d')).
Proof.
  intros Hf. destruct (Z.ltb_spec (followUpLimit opts) (Z.of_nat (length fus))) as [Hlt|Hge].
  - destruct fus as [|fu fus]; [pose proof (driver_bounds_positive opts); simpl in Hlt; lia|].
    unfold insertFollowUps. by rewrite (proj2 (Z.ltb_lt _ _) Hlt).
  - by apply insertFollowUps_whole.
Qed.

End theorems.

(** ** A second generation's continuation *)

(** The continuation's unique key names its parent alone and is never released, so
    a parent that fans out again (a forced retry) finds its own first continuation
    in the way: the check reports that it fired and clears the barrier, although it
    enqueued nothing. *)
Theorem refire_enqueues_nothing `{Foundation} ctx n pid by_ d d' id r :
  keyed (jobs d) → jobs d !! id = Some r → j_UniqueKey r = Some (barrierKey pid) →
  jobs d !! orString (c_NewID ctx n) (c_NewID ctx 0) = None →
  fireBarrierIfComplete ctx n pid by_ d = Ok (true, d') →
  dom (jobs d') = dom (jobs d) ∧ barrier_of d' pid = None.
Proof.
  intros Hkd Hr Hkey Hfree [[? _]|(_ & _ & kind & row & Hb & Hc & Hid & ->)]%fireBarrier_Ok; [done|].
  assert (insertSkippingConflicts [row] d = d) as ->.
  { cbn. unfold insert_skipping1. destruct (insert_job row d) as [d1|] eqn:E; [|done]. exfalso.
    apply insert_job_Ok in E as (_ & Hadm & _). rewrite index_admits_spec in Hadm.
    assert (clashes row r = true) as Hcl.
    { unfold clashes, key_of, same_key. rewrite (cont_key _ _ _ Hc), Hkey. by rewrite bool_decide_true. }
    rewrite (Hadm id r Hr) in Hcl; [done|]. rewrite Hid. congruence. }
  split.
  - cbn [jobs update_jobs with_jobs]. unfold update_where. apply dom_fmap_L.
  - apply eq_None_not_Some. intros [k (p' & Hp' & Hd & Hk')%barrier_of_Some].
    apply lookup_update_where_Some in Hp' as (p & Hp & [[_ ->]|[HP ->]]); [done|].
    unfold has_id in HP. by rewrite (Hkd _ _ Hp), bool_decide_true, Hd in HP.
Qed.
