(* ===== verification/Finalize.v ===== *)
(** * Attempts: run stubs, the fenced finalize and lease renewal

    internal/core/driver.go: InsertRunStub, Finalize, finalizeRunRow, RenewLease.
    An attempt commits a job_runs stub before its worker runs and finalizes once
    the worker returned. Finalize is one transaction, so its definition returns
    the outcome and the new tables together, or an error and no tables. *)

From S2P Require Import Prelude Types Text Fingerprint Store Plan Insert Barrier.

(** ** Run stubs *)

(** [jobRunRow.BeforeCreate]. *)
Definition run_BeforeCreate (ctx : context) (r : jobRunRow) : res jobRunRow :=
  if is_empty (r_JobID r) then Err (ValidationError "job_id")
  else if is_empty (r_ExecutorID r) then Err (ValidationError "executor_id")
  else if bool_decide (r_Outcome r = OutcomeOther "") then Err (ValidationError "outcome")
  else Ok
    {| r_ID := orString (r_ID r) (c_NewID ctx 0); r_JobID := r_JobID r; r_Attempt := r_Attempt r;
       r_Kind := r_Kind r; r_Queue := r_Queue r; r_ExecutorClass := r_ExecutorClass r;
       r_ExecutorID := r_ExecutorID r;
       r_StartedAt := if is_zero_time (r_StartedAt r) then c_Now ctx 0 else r_StartedAt r;
       r_FinishedAt := r_FinishedAt r; r_Outcome := r_Outcome r; r_ErrorClass := r_ErrorClass r;
       r_ErrorMessage := r_ErrorMessage r; r_ErrorPayload := r_ErrorPayload r;
       r_Output := r_Output r; r_DurationMs := r_DurationMs r; r_QueueWaitMs := r_QueueWaitMs r;
       r_CostMicros := r_CostMicros r; r_EnqueuedChildren := r_EnqueuedChildren r;
       r_ErrorFingerprint := r_ErrorFingerprint r; r_JobState := r_JobState r;
       r_Superseded := r_Superseded r;
       r_CreatedAt := if is_zero_time (r_CreatedAt r) then c_Now ctx 0 else r_CreatedAt r |}.

(** INSERT INTO job_runs, under its primary key and job_runs_job_attempt. *)
Definition insert_run (row : jobRunRow) (d : db) : res db :=
  match job_runs d !! r_ID row with
  | Some _ => Err ErrDuplicateKey
  | None =>
    if bool_decide (map_Forall (λ _ r, ¬ (r_JobID r = r_JobID row ∧ r_Attempt r = r_Attempt row))
                      (job_runs d))
    then Ok (with_runs (<[r_ID row := row]> (job_runs d)) d)
    else Err ErrDuplicateKey
  end.

Definition InsertRunStub (ctx : context) (runID : string) (raw : RawJob) (startedAt : Z)
    (class execID : string) (d : db) : res db :=
  let? row := run_BeforeCreate ctx
    {| r_ID := runID; r_JobID := raw_ID raw; r_Attempt := raw_Attempt raw; r_Kind := raw_Kind raw;
       r_Queue := raw_Queue raw; r_ExecutorClass := class; r_ExecutorID := execID;
       r_StartedAt := startedAt; r_FinishedAt := None; r_Outcome := OutcomeStarted;
       r_ErrorClass := None; r_ErrorMessage := None; r_ErrorPayload := None; r_Output := None;
       r_DurationMs := None; r_QueueWaitMs := queueWaitMs (raw_ScheduledAt raw) startedAt;
       r_CostMicros := None; r_EnqueuedChildren := 0; r_ErrorFingerprint := None;
       r_JobState := None; r_Superseded := false; r_CreatedAt := startedAt |} in
  insert_run row d.

(** ** Finalize *)

Record FinalizeOutcome := {
  fo_State : JobState; fo_RunOutcome : RunOutcome; fo_ErrorClass : option ErrorClass;
  fo_ScheduledAt : option Z; fo_Superseded : bool; fo_EnqueuedChildren : Z
}.

(** WHERE id = ? AND state = 'running' AND lease_token = ?: the claim still held. *)
Definition holds_claim (id token : string) (r : jobRow) : bool :=
  bool_decide (j_ID r = id) && bool_decide (j_State r = StateRunning) &&
  bool_decide (j_LeaseToken r = Some token).

(** [finalizeRunRow]: the run's columns, then its finish-log entry, read back from
    the row. *)
Definition finalizeRunRow (row : jobRunRow) (d : db) : db :=
  let d1 := with_runs (<[r_ID row := row]> (job_runs d)) d in
  match r_FinishedAt row with
  | Some t => with_finishes ({[(t, r_ID row)]} ∪ job_run_finishes d1) d1
  | None => d1
  end.

Section finalize.
Context `{Foundation} `{GoLib} `{Backoff}.

(** The columns Finalize advances the job with, a declared barrier included. *)
Definition finalizeColumns (opts : DriverOpts) (ctx : context) (raw : RawJob) (result : Result)
    (plan : finalizePlan) (finishedAt : Z) (d : db) : res (list jobCol) :=
  let upd := jobFinalizeUpdate plan finishedAt in
  match res_Barrier result with
  | Some b =>
    if p_followUps plan then
      let? _ := validateBarrier b (res_FollowUps result) (barrierMaxChildren opts) in
      let? ' (kind, spec) := resolveBarrierColumns ctx d raw b in
      Ok (upd ++ [ColBarrierKind (Some kind); ColBarrierSpec (Some spec)])
    else Ok upd
  | None => Ok upd
  end.

Definition Finalize (opts : DriverOpts) (ctx : context) (raw : RawJob) (runID : string)
    (result : Result) (workErr : option WorkErr) (finishedAt : Z) (d : db)
  : res (FinalizeOutcome * db) :=
  let plan := planFinalize raw result workErr finishedAt in
  match job_runs d !! runID with
  | None => Err ErrRecordNotFound
  | Some stub =>
    let durationMs := milliseconds (time_sub finishedAt (r_StartedAt stub)) in
    let? upd := finalizeColumns opts ctx raw result plan finishedAt d in
    let held := holds_claim (raw_ID raw) (raw_LeaseToken raw) in
    let superseded := (count_jobs held d =? 0)%Z in
    let d1 := update_jobs held upd d in
    let state := if superseded
                 then match find_job d1 (raw_ID raw) with
                      | Some current => j_State current
                      | None => StateOther ""
                      end
                 else p_jobState plan in
    let? ' (enqueued, d2) :=
      if p_followUps plan && negb superseded
      then insertFollowUps opts ctx (res_FollowUps result) (raw_ID raw) d1
      else Ok (0%Z, d1) in
    let? d3 :=
      match raw_ParentJobID raw with
      | Some parentID =>
        if negb superseded && isTerminalStateString (p_jobState plan) then
          let? ' (_, d3) := fireBarrierIfComplete ctx (length (res_FollowUps result)) parentID
                              (raw_ID raw) d2 in
          Ok d3
        else Ok d2
      | None => Ok d2
      end in
    let? run := runFinalizeUpdate plan result workErr (raw_Kind raw) finishedAt durationMs enqueued
                  superseded (maxOutputBytes opts) stub in
    Ok ({| fo_State := state; fo_RunOutcome := p_runOutcome plan;
           fo_ErrorClass := p_errorClass plan;
           fo_ScheduledAt := if superseded then None else p_scheduledAt plan;
           fo_Superseded := superseded; fo_EnqueuedChildren := enqueued |},
        finalizeRunRow run d3)
  end.

End finalize.

(** [RenewLease]: the same guard; reports whether the claim still holds. *)
Definition RenewLease (ctx : context) (jobID leaseToken : string) (until : Z) (d : db) : bool * db :=
  let held := holds_claim jobID leaseToken in
  ((count_jobs held d =? 1)%Z,
   update_jobs held [ColLeasedUntil (Some until); ColUpdatedAt (c_Now ctx 0)] d).

(** ** Run rows *)

Lemma run_BeforeCreate_Ok ctx r r' :
  run_BeforeCreate ctx r = Ok r' →
  r_ID r' = orString (r_ID r) (c_NewID ctx 0) ∧ r_JobID r' = r_JobID r ∧
  r_Attempt r' = r_Attempt r ∧ r_FinishedAt r' = r_FinishedAt r ∧ r_Outcome r' = r_Outcome r.
Proof.
  unfold run_BeforeCreate. repeat (destruct (_ : bool); [done|]). by intros [= <-].
Qed.

Lemma insert_run_Ok row d d' :
  insert_run row d = Ok d' ↔
  job_runs d !! r_ID row = None ∧
  (∀ id r, job_runs d !! id = Some r → r_JobID r = r_JobID row → r_Attempt r = r_Attempt row → False) ∧
  d' = with_runs (<[r_ID row := row]> (job_runs d)) d.
Proof.
  unfold insert_run. destruct (job_runs d !! r_ID row) as [r0|] eqn:E; [split; [done|by intros [? _]]|].
  case_bool_decide as Hf.
  - split; [|by intros (_ & _ & ->)]. intros [= <-]. split_and!; [done| |done].
    intros id r Hr ? ?. by apply (Hf _ _ Hr).
  - split; [done|]. intros (_ & Hn & _). destruct Hf. intros id r Hr [? ?]. eauto.
Qed.

(** Rewriting one run in place keeps the run table well formed. *)
Lemma wf_set_run row stub d F :
  job_runs d !! r_ID row = Some stub → r_JobID row = r_JobID stub → r_Attempt row = r_Attempt stub →
  run_wf row →
  finishes_ok (with_finishes F (with_runs (<[r_ID row := row]> (job_runs d)) d)) →
  db_wf d → db_wf (with_finishes F (with_runs (<[r_ID row := row]> (job_runs d)) d)).
Proof.
  intros Hs Hj Ha Hrow HF [Hk Hu Hr0 Hrk Hrw Hf Hat]. split; try done; simpl.
  - intros id r [[<- <-]|[_ Hr]]%lookup_insert_Some; eauto.
  - intros id r [[<- <-]|[_ Hr]]%lookup_insert_Some; eauto.
  - intros i j a b Hi Hj' Hjob Hatt. simpl in Hi, Hj'.
    apply lookup_insert_Some in Hi as [[<- <-]|[_ Hi]], Hj' as [[<- <-]|[_ Hj']]; try done;
      eapply Hat; eauto; congruence.
Qed.

Lemma finishes_set_run row stub d :
  job_runs d !! r_ID row = Some stub →
  (∀ t, r_FinishedAt stub = Some t → r_FinishedAt row = Some t) →
  finishes_ok d →
  finishes_ok (finalizeRunRow row d).
Proof.
  intros Hs Hfin Hok t id. unfold finalizeRunRow.
  destruct (r_FinishedAt row) as [t0|] eqn:Et; simpl; rewrite ?elem_of_union, ?elem_of_singleton, (Hok t id).
  - split.
    + intros [[= -> ->]|(r & Hr & Hft)]; [exists row; by rewrite lookup_insert_eq|].
      destruct (decide (r_ID row = id)) as [<-|Hne]; [|exists r; by rewrite lookup_insert_ne].
      exists row. rewrite lookup_insert_eq. split; [done|]. rewrite Et. apply Hfin. congruence.
    + intros (r & [[<- <-]|[_ Hr]]%lookup_insert_Some & Hft); [left; congruence|eauto].
  - split.
    + intros (r & Hr & Hft). destruct (decide (r_ID row = id)) as [<-|Hne].
      * rewrite Hs in Hr. injection Hr as ->. apply Hfin in Hft. congruence.
      * exists r. by rewrite lookup_insert_ne.
    + intros (r & [[<- <-]|[_ Hr]]%lookup_insert_Some & Hft); [congruence|eauto].
Qed.

Lemma with_finishes_same d : with_finishes (job_run_finishes d) d = d.
Proof. by destruct d. Qed.

Lemma wf_finalizeRunRow row stub d :
  job_runs d !! r_ID row = Some stub → r_JobID row = r_JobID stub → r_Attempt row = r_Attempt stub →
  (∀ t, r_FinishedAt stub = Some t → r_FinishedAt row = Some t) → run_wf row →
  db_wf d → db_wf (finalizeRunRow row d).
Proof.
  intros Hs Hj Ha Hfin Hrow Hd.
  pose proof (finishes_set_run row stub d Hs Hfin (wf_finishes _ Hd)) as HF.
  unfold finalizeRunRow in *. destruct (r_FinishedAt row); [by eapply wf_set_run|].
  rewrite <-(with_finishes_same (with_runs _ d)) in HF |- *. simpl in *. by eapply wf_set_run.
Qed.

Lemma wf_InsertRunStub ctx runID raw startedAt class execID d d' :
  InsertRunStub ctx runID raw startedAt class execID d = Ok d' → db_wf d → db_wf d'.
Proof.
  unfold InsertRunStub. destruct (run_BeforeCreate _ _) as [row|] eqn:Erow; [|done].
  apply run_BeforeCreate_Ok in Erow as (_ & Hj & Ha & Hft & Hout). simpl in *.
  intros (Hn & Huniq & ->)%insert_run_Ok [Hk Hu Hr0 Hrk Hrw Hf Hat]. split; try done; simpl.
  - intros id r [[<- <-]|[_ Hr]]%lookup_insert_Some; eauto.
  - intros id r [[<- <-]|[_ Hr]]%lookup_insert_Some; [|eauto].
    unfold run_wf. by rewrite Hft, Hout.
  - intros t id. simpl. rewrite (Hf t id). split.
    + intros (r & Hr & Ht). exists r. rewrite lookup_insert_ne; [done|congruence].
    + intros (r & [[<- <-]|[_ Hr]]%lookup_insert_Some & Ht); [congruence|eauto].
  - intros i j a b Hi Hj' Hjob Hatt. simpl in Hi, Hj'.
    apply lookup_insert_Some in Hi as [[<- <-]|[_ Hi]], Hj' as [[<- <-]|[_ Hj']]; eauto.
    + exfalso. by eapply (Huniq _ _ Hj').
    + exfalso. by eapply (Huniq _ _ Hi).
Qed.

(** ** Finalize, taken apart *)

Section finalize_facts.
Context `{Foundation} `{GoLib} `{Backoff}.

Lemma runFinalizeUpdate_Ok plan result workErr kind t dur enq sup maxo stub run :
  runFinalizeUpdate plan result workErr kind t dur enq sup maxo stub = Ok run →
  r_ID run = r_ID stub ∧ r_JobID run = r_JobID stub ∧ r_Attempt run = r_Attempt stub ∧
  r_FinishedAt run = Some (default t (r_FinishedAt stub)) ∧ r_Outcome run = p_runOutcome plan ∧
  r_Superseded run = sup ∧ r_EnqueuedChildren run = enq ∧
  r_JobState run = (if sup then r_JobState stub else Some (p_jobState plan)).
Proof.
  unfold runFinalizeUpdate. destruct (marshalRunOutput _ _) as [o|]; [|done].
  intros [= <-]. simpl. split_and!; try done. by destruct (r_FinishedAt stub).
Qed.

Lemma finalizeColumns_Ok opts ctx raw result plan t d upd :
  finalizeColumns opts ctx raw result plan t d = Ok upd →
  ∃ tail, upd = jobFinalizeUpdate plan t ++ tail ∧
    (tail = [] ∨ ∃ b kind spec, res_Barrier result = Some b ∧ p_followUps plan = true ∧
       validateBarrier b (res_FollowUps result) (barrierMaxChildren opts) = Ok tt ∧
       tail = [ColBarrierKind (Some kind); ColBarrierSpec (Some spec)]).
Proof.
  unfold finalizeColumns. destruct (res_Barrier result) as [b|].
  2:{ intros [= <-]. exists []. rewrite app_nil_r. auto. }
  destruct (p_followUps plan); [|intros [= <-]; exists []; rewrite app_nil_r; auto].
  destruct (validateBarrier _ _ _) as [[]|] eqn:Ev; [|done].
  destruct (resolveBarrierColumns _ _ _ _) as [[kind spec]|]; [|done].
  intros [= <-]. eexists. split; [done|]. right. by exists b, kind, spec.
Qed.

(** The row a finalize advances. *)
Lemma finalize_row opts ctx raw result plan t d upd r :
  finalizeColumns opts ctx raw result plan t d = Ok upd →
  let r' := Updates upd r in
  j_State r' = p_jobState plan ∧ j_LeasedUntil r' = None ∧ j_LeaseToken r' = None ∧
  j_ScheduledAt r' = default (j_ScheduledAt r) (p_scheduledAt plan) ∧
  j_FinalizedAt r' = (match p_finalizedAt plan with Some x => Some x | None => j_FinalizedAt r end) ∧
  j_MaxAttempts r' = (j_MaxAttempts r + p_maxAttemptsDelta plan)%Z ∧
  j_Attempt r' = j_Attempt r ∧ j_Priority r' = j_Priority r ∧
  ((j_BarrierKind r' = j_BarrierKind r ∧ j_BarrierSpec r' = j_BarrierSpec r) ∨
   (is_Some (res_Barrier result) ∧ p_followUps plan = true ∧
    is_Some (j_BarrierKind r') ∧ is_Some (j_BarrierSpec r'))).
Proof.
  intros (tail & -> & Htail)%finalizeColumns_Ok. pose proof (jobFinalizeUpdate_row plan t r) as Hrow.
  cbv zeta in Hrow |- *. rewrite Updates_app. revert Hrow.
  generalize (Updates (jobFinalizeUpdate plan t) r). intros r' (?&?&?&?&?&?&?&?&?&?&?).
  destruct Htail as [->|(b & kind & spec & Hb & Hf & _ & ->)]; simpl; split_and!; eauto 8.
Qed.

Lemma finalize_safe opts ctx raw result we t d upd r :
  finalizeColumns opts ctx raw result (planFinalize raw result we t) t d = Ok upd →
  j_State r = StateRunning → row_wf r → safe_update upd r.
Proof.
  intros Hc Hrun [_ _ Hfin Hbar Hatt]. destruct (planFinalize_ok raw result we t) as [Hv Hnr Hpf _ _ _].
  destruct (finalize_row _ _ _ _ _ _ _ _ r Hc) as (Hs & Hu & Ht & _ & Hf & _ & Ha & _ & Hb).
  unfold final_wf in Hfin. rewrite Hrun in Hfin. simpl in Hfin. split.
  - split; [by apply Updates_UniqueKey|]. unfold active_key_of.
    rewrite Updates_UniqueActiveKey, Hs, Hrun. simpl. destruct (state_in _ _); auto.
  - split; [by rewrite Hs| | | |by rewrite Ha].
    + unfold lease_wf. by rewrite decide_False by congruence.
    + unfold final_wf. rewrite Hs, Hf, Hfin. revert Hpf.
      destruct (isTerminalStateString _), (p_finalizedAt _); intros [Hp1 Hp2]; eauto.
      by specialize (Hp1 ltac:(eauto)).
    + destruct Hb as [[-> ->]|(_ & _ & ? & ?)]; [done|]. by split.
Qed.

(** The stages of a finalize that committed. *)
Record finalize_run (opts : DriverOpts) (ctx : context) (raw : RawJob) (runID : string)
    (result : Result) (we : option WorkErr) (t : Z) (d : db) (out : FinalizeOutcome) (d' : db)
    (plan : finalizePlan) (stub run : jobRunRow) (upd : list jobCol) (d2 d3 : db) : Prop := {
  fz_plan : plan = planFinalize raw result we t;
  fz_stub : job_runs d !! runID = Some stub;
  fz_upd : finalizeColumns opts ctx raw result plan t d = Ok upd;
  fz_sup : fo_Superseded out =
    (count_jobs (holds_claim (raw_ID raw) (raw_LeaseToken raw)) d =? 0)%Z;
  fz_follow :
    if p_followUps plan && negb (fo_Superseded out)
    then insertFollowUps opts ctx (res_FollowUps result) (raw_ID raw)
           (update_jobs (holds_claim (raw_ID raw) (raw_LeaseToken raw)) upd d) =
         Ok (fo_EnqueuedChildren out, d2)
    else fo_EnqueuedChildren out = 0%Z ∧
         d2 = update_jobs (holds_claim (raw_ID raw) (raw_LeaseToken raw)) upd d;
  fz_fire :
    match raw_ParentJobID raw with
    | Some pid =>
      if negb (fo_Superseded out) && isTerminalStateString (p_jobState plan)
      then ∃ fired, fireBarrierIfComplete ctx (length (res_FollowUps result)) pid (raw_ID raw) d2 =
             Ok (fired, d3)
      else d3 = d2
    | None => d3 = d2
    end;
  fz_run : ∃ dur, runFinalizeUpdate plan result we (raw_Kind raw) t dur (fo_EnqueuedChildren out)
             (fo_Superseded out) (maxOutputBytes opts) stub = Ok run;
  fz_db : d' = finalizeRunRow run d3;
  fz_outcome : fo_RunOutcome out = p_runOutcome plan ∧ fo_ErrorClass out = p_errorClass plan ∧
    fo_ScheduledAt out = (if fo_Superseded out then None else p_scheduledAt plan) ∧
    fo_State out = (if fo_Superseded out
      then match find_job d (raw_ID raw) with Some r => j_State r | None => StateOther "" end
      else p_jobState plan)
}.

Lemma Finalize_Ok opts ctx raw runID result we t d out d' :
  Finalize opts ctx raw runID result we t d = Ok (out, d') →
  ∃ plan stub run upd d2 d3,
    finalize_run opts ctx raw runID result we t d out d' plan stub run upd d2 d3.
Proof.
  unfold Finalize. set (plan := planFinalize raw result we t).
  destruct (job_runs d !! runID) as [stub|] eqn:Es; [|done].
  destruct (finalizeColumns _ _ _ _ _ _ _) as [upd|] eqn:Eu; [|done].
  set (held := holds_claim _ _). set (sup := (count_jobs held d =? 0)%Z).
  destruct (if p_followUps plan && negb sup then _ else _) as [[enq d2]|] eqn:Ef; [|done].
  destruct (match raw_ParentJobID raw with Some _ => _ | None => _ end) as [d3|] eqn:Eb; [|done].
  destruct (runFinalizeUpdate _ _ _ _ _ _ _ _ _ _) as [run|] eqn:Er; [|done].
  intros [= <- <-]. exists plan, stub, run, upd, d2, d3. split; simpl; try done.
  - destruct (p_followUps plan && negb sup); [done|]. by simplify_eq.
  - destruct (raw_ParentJobID raw); [|by simplify_eq].
    destruct (negb sup && _); [|by simplify_eq].
    destruct (fireBarrierIfComplete _ _ _ _ _) as [[fired d3']|]; [|done]. simplify_eq. eauto.
  - eauto.
  - split_and!; try done. destruct sup eqn:Esup; [|done].
    rewrite update_jobs_none; [done|]. by apply Z.eqb_eq.
Qed.

(** Everything between the state advance and the run row leaves the runs alone. *)
Lemma finalize_runs_same opts ctx raw runID result we t d out d' plan stub run upd d2 d3 :
  finalize_run opts ctx raw runID result we t d out d' plan stub run upd d2 d3 →
  job_runs d3 = job_runs d ∧ job_run_finishes d3 = job_run_finishes d ∧ job_audit d3 = job_audit d.
Proof.
  intros [_ _ _ _ Hfo Hfi _ _ _].
  assert (job_runs d2 = job_runs d ∧ job_run_finishes d2 = job_run_finishes d ∧
          job_audit d2 = job_audit d) as H2.
  { destruct (p_followUps plan && _); [|by destruct Hfo as [_ ->]].
    apply insertFollowUps_Ok in Hfo as (_ & rows & rows' & _ & _ & ->).
    exact (insert_skipping_rest rows' (update_jobs _ upd d)). }
  clear Hfo. destruct (raw_ParentJobID raw); [|by subst].
  destruct (negb _ && _); [|by subst].
  destruct Hfi as [fired [(_ & -> & _)|(_ & _ & k & row & _ & _ & _ & ->)]%fireBarrier_Ok]; [done|].
  simpl. destruct (insert_skipping_rest [row] d2) as (Ha & Hb & Hc). simpl in Ha, Hb, Hc.
  by rewrite Ha, Hb, Hc.
Qed.

Lemma wf_Finalize opts ctx raw runID result we t d out d' :
  Finalize opts ctx raw runID result we t d = Ok (out, d') → db_wf d → db_wf d'.
Proof.
  intros (plan & stub & run & upd & d2 & d3 & Hz)%Finalize_Ok Hd.
  pose proof (finalize_runs_same _ _ _ _ _ _ _ _ _ _ _ _ _ _ _ _ Hz) as (Hruns & _).
  destruct Hz as [-> Hs Hu Hsup Hfo Hfi [dur Hr] -> _].
  assert (db_wf (update_jobs (holds_claim (raw_ID raw) (raw_LeaseToken raw)) upd d)) as Hw1.
  { apply wf_update_jobs; [|done]. intros id r Hrow Hh Hrw. unfold holds_claim in Hh.
    apply andb_true_iff in Hh as [Hh _]. apply andb_true_iff in Hh as [_ Hh].
    apply bool_decide_eq_true in Hh. by eapply finalize_safe. }
  assert (db_wf d2) as Hw2.
  { destruct (p_followUps _ && _); [by eapply wf_insertFollowUps|by destruct Hfo as [_ ->]]. }
  assert (db_wf d3) as Hw3.
  { clear Hfo. destruct (raw_ParentJobID raw); [|by subst]. destruct (negb _ && _); [|by subst].
    destruct Hfi as [fired Hfi]. by eapply wf_fireBarrier. }
  apply runFinalizeUpdate_Ok in Hr as (Hid & Hj & Ha & Hft & Ho & _).
  eapply wf_finalizeRunRow; [|done|done| | |done].
  - rewrite Hruns, Hid, (wf_runs d Hd _ _ Hs). done.
  - intros x Hx. by rewrite Hft, Hx.
  - unfold run_wf. rewrite Ho, Hft. split; [|done]. intros E. by destruct (planFinalize_ok raw result we t).
Qed.
End finalize_facts.

(** ** The fence *)

(** The claim a finalize or a renewal acts under, as a predicate on the tables. *)
Definition claim_held (d : db) (id token : string) : Prop :=
  ∃ r, jobs d !! id = Some r ∧ not_deleted r = true ∧ j_State r = StateRunning ∧
       j_LeaseToken r = Some token.

Lemma holds_claim_true id token r :
  holds_claim id token r = true ↔
  j_ID r = id ∧ j_State r = StateRunning ∧ j_LeaseToken r = Some token.
Proof. unfold holds_claim. rewrite !andb_true_iff, !bool_decide_eq_true. tauto. Qed.

Lemma claim_count d id token :
  keyed (jobs d) →
  (count_jobs (holds_claim id token) d =? 0)%Z = false ↔ claim_held d id token.
Proof.
  intros Hk. rewrite Z.eqb_neq. assert (0 ≤ count_jobs (holds_claim id token) d)%Z
    by (unfold count_jobs; lia).
  assert (count_jobs (holds_claim id token) d ≠ 0%Z ↔ (0 < count_jobs (holds_claim id token) d)%Z)
    as -> by lia.
  rewrite count_jobs_pos. unfold claim_held. split.
  - intros (i & r & Hr & (Hid & ? & ?)%holds_claim_true & ?). rewrite (Hk _ _ Hr) in Hid. subst.
    eauto 6.
  - intros (r & Hr & ? & ? & ?). exists id, r. rewrite holds_claim_true. by rewrite (Hk _ _ Hr).
Qed.

Section fence.
Context `{Foundation} `{GoLib} `{Backoff}.
Context (opts : DriverOpts) (ctx : context) (raw : RawJob) (runID : string) (result : Result)
        (we : option WorkErr) (t : Z) (d : db) (out : FinalizeOutcome) (d' : db).
Context (Hfin : Finalize opts ctx raw runID result we t d = Ok (out, d')) (Hwf : db_wf d).

Lemma finalize_superseded_iff :
  fo_Superseded out = false ↔ claim_held d (raw_ID raw) (raw_LeaseToken raw).
Proof.
  destruct (Finalize_Ok _ _ _ _ _ _ _ _ _ _ Hfin) as (plan & stub & run & upd & d2 & d3 & Hz).
  rewrite (fz_sup _ _ _ _ _ _ _ _ _ _ _ _ _ _ _ _ Hz). apply claim_count, Hwf.
Qed.

(** The run row a finalize leaves, superseded or not. *)
Lemma finalize_run_row :
  ∃ stub run, job_runs d !! runID = Some stub ∧ job_runs d' = <[runID := run]> (job_runs d) ∧
    r_Outcome run = p_runOutcome (planFinalize raw result we t) ∧
    r_Superseded run = fo_Superseded out ∧ r_EnqueuedChildren run = fo_EnqueuedChildren out ∧
    r_FinishedAt run = Some (default t (r_FinishedAt stub)) ∧
    r_JobState run = (if fo_Superseded out then r_JobState stub
                      else Some (p_jobState (planFinalize raw result we t))) ∧
    job_run_finishes d' = {[(default t (r_FinishedAt stub), runID)]} ∪ job_run_finishes d.
Proof.
  destruct (Finalize_Ok _ _ _ _ _ _ _ _ _ _ Hfin) as (plan & stub & run & upd & d2 & d3 & Hz).
  destruct (finalize_runs_same _ _ _ _ _ _ _ _ _ _ _ _ _ _ _ _ Hz) as (Hruns & Hfins & _).
  destruct Hz as [-> Hs _ _ _ _ [dur Hr] -> _].
  apply runFinalizeUpdate_Ok in Hr as (Hid & _ & _ & Hft & Ho & Hsup & Henq & Hjs).
  exists stub, run. assert (r_ID run = runID) as Hrid by (rewrite Hid; by apply (wf_runs d Hwf)).
  unfold finalizeRunRow. rewrite Hft, Hrid. simpl. rewrite Hruns, Hfins.
  split_and!; try done.
Qed.

Lemma finalize_jobs_superseded :
  fo_Superseded out = true →
  jobs d' = jobs d ∧ fo_EnqueuedChildren out = 0%Z ∧ fo_ScheduledAt out = None ∧
  fo_State out = (match find_job d (raw_ID raw) with Some r => j_State r | None => StateOther "" end).
Proof.
  intros Hsup.
  destruct (Finalize_Ok _ _ _ _ _ _ _ _ _ _ Hfin) as (plan & stub & run & upd & d2 & d3 & Hz).
  destruct Hz as [-> _ _ Hcnt Hfo Hfi _ -> (_ & _ & Hsch & Hst)].
  rewrite Hsup in *. symmetry in Hcnt. apply Z.eqb_eq in Hcnt.
  rewrite andb_false_r in Hfo. destruct Hfo as [Henq ->]. rewrite (update_jobs_none _ _ _ Hcnt) in Hfi.
  split_and!; try done. transitivity (jobs d3).
  - unfold finalizeRunRow. by destruct (r_FinishedAt run).
  - destruct (raw_ParentJobID raw); simpl in Hfi; by rewrite Hfi.
Qed.

(** The columns a finalize wrote on a row that was there. *)
Definition finalized_row (upd : list jobCol) (r : jobRow) : jobRow :=
  if holds_claim (raw_ID raw) (raw_LeaseToken raw) r && not_deleted r then Updates upd r else r.

(** Every row there was: the claimed one is advanced, the parent's barrier may be
    cleared, and no other is touched. *)
Lemma finalize_old_row id r :
  jobs d !! id = Some r →
  ∃ upd r', finalizeColumns opts ctx raw result (planFinalize raw result we t) t d = Ok upd ∧
    jobs d' !! id = Some r' ∧
    (r' = finalized_row upd r ∨
     (raw_ParentJobID raw = Some id ∧ r' = Updates (clear_barrier ctx) (finalized_row upd r))).
Proof.
  intros Hr. pose proof (wf_keyed d Hwf _ _ Hr) as Hid.
  destruct (Finalize_Ok _ _ _ _ _ _ _ _ _ _ Hfin) as (plan & stub & run & upd & d2 & d3 & Hz).
  destruct Hz as [-> _ Hu _ Hfo Hfi _ -> _]. exists upd.
  assert (jobs d2 !! id = Some (finalized_row upd r)) as Hj2.
  { assert (jobs (update_jobs (holds_claim (raw_ID raw) (raw_LeaseToken raw)) upd d) !! id =
            Some (finalized_row upd r)) as Hj1.
    { simpl. by rewrite lookup_update_where, Hr. }
    destruct (p_followUps _ && _); [|by destruct Hfo as [_ ->]].
    apply insertFollowUps_Ok in Hfo as (_ & rows & rows' & _ & _ & ->). by apply insert_skipping_old. }
  assert (jobs (finalizeRunRow run d3) = jobs d3) as ->
    by (unfold finalizeRunRow; by destruct (r_FinishedAt run)).
  clear Hfo. destruct (raw_ParentJobID raw) as [pid|]; [|subst; by eauto].
  destruct (negb _ && _); [|subst; by eauto].
  destruct Hfi as [fired [(_ & -> & _)|(_ & _ & k & row & _ & _ & _ & ->)]%fireBarrier_Ok];
    [by eauto|]. pose proof (insert_skipping_old [row] d2 _ _ Hj2) as Hj3.
  cbn [jobs update_jobs with_jobs]. rewrite lookup_update_where, Hj3. simpl.
  destruct (has_id pid _ && _) eqn:E; [|by eauto]. apply andb_true_iff in E as [E _].
  unfold has_id, finalized_row in E. apply bool_decide_eq_true in E.
  assert (id = pid) as <-. { destruct (_ && _); by rewrite ?Updates_ID in E; congruence. }
  eauto 6.
Qed.

(** An applied finalize: the claimed row takes the planned state and gives up its
    lease. *)
Lemma finalize_jobs_applied :
  fo_Superseded out = false →
  ∃ r r', jobs d !! raw_ID raw = Some r ∧ jobs d' !! raw_ID raw = Some r' ∧
    let plan := planFinalize raw result we t in
    fo_State out = p_jobState plan ∧ fo_ScheduledAt out = p_scheduledAt plan ∧
    j_State r' = p_jobState plan ∧ j_LeaseToken r' = None ∧ j_LeasedUntil r' = None ∧
    j_ScheduledAt r' = default (j_ScheduledAt r) (p_scheduledAt plan) ∧
    j_FinalizedAt r' = p_finalizedAt plan ∧
    j_MaxAttempts r' = (j_MaxAttempts r + p_maxAttemptsDelta plan)%Z ∧
    j_Attempt r' = j_Attempt r.
Proof.
  intros Hsup. pose proof (proj1 finalize_superseded_iff Hsup) as (r & Hr & Hd & Hrun & Htok).
  destruct (finalize_old_row _ _ Hr) as (upd & r' & Hu & Hr' & Hcase).
  exists r, r'. split; [done|]. split; [done|].
  assert (finalized_row upd r = Updates upd r) as Hrow.
  { unfold finalized_row. rewrite (proj2 (holds_claim_true _ _ _)), Hd; [done|].
    split_and!; try done. by apply (wf_keyed d Hwf). }
  rewrite Hrow in Hcase.
  destruct (Finalize_Ok _ _ _ _ _ _ _ _ _ _ Hfin) as (plan & stub & run & upd' & d2 & d3 & Hz).
  destruct Hz as [-> _ _ _ _ _ _ _ (_ & _ & Hsch & Hst)]. rewrite Hsup in Hsch, Hst.
  destruct (finalize_row _ _ _ _ _ _ _ _ r Hu) as (Hs1 & Hl1 & Ht1 & Hsc1 & Hf1 & Hm1 & Ha1 & _).
  pose proof (row_final _ (wf_rows d Hwf _ _ Hr)) as Hf. unfold final_wf in Hf. rewrite Hrun in Hf.
  simpl in Hf. rewrite Hf in Hf1.
  assert (j_FinalizedAt (Updates upd r) = p_finalizedAt (planFinalize raw result we t)) as Hf2
    by by destruct (p_finalizedAt _).
  cbv zeta. destruct Hcase as [->|[_ ->]]; split_and!; try done.
Qed.

(** The claim a finalize applied is spent: nothing can act under it again. *)
Lemma finalize_spends_claim :
  fo_Superseded out = false → ¬ claim_held d' (raw_ID raw) (raw_LeaseToken raw).
Proof.
  intros (r & r' & _ & Hr' & _ & _ & _ & Ht & _)%finalize_jobs_applied (r2 & Hr2 & _ & _ & Ht2).
  congruence.
Qed.
End fence.

(** ** No barrier is stranded by a finalize *)

Lemma fresh_context_jobs ctx d d' n :
  (∀ id, jobs d !! id = None → jobs d' !! id = None) → fresh_context ctx d n → fresh_context ctx d' n.
Proof.
  intros Hj [Hnd Hf]. split; [done|]. eapply Forall_impl; [done|]. intros id [? ?]. auto.
Qed.

Section finalize_live.
Context `{Foundation} `{GoLib} `{Backoff}.

(** The parents a finalize may leave without a pending child until it has fanned
    out and run its check. *)
Definition declares (result : Result) (raw : RawJob) : gset string :=
  match res_Barrier result with Some _ => {[raw_ID raw]} | None => ∅ end.
Definition ends_child (plan : finalizePlan) (raw : RawJob) : gset string :=
  match raw_ParentJobID raw with
  | Some pid => if isTerminalStateString (p_jobState plan) then {[pid]} else ∅
  | None => ∅
  end.

Lemma live_advance opts ctx raw result we t d upd :
  let plan := planFinalize raw result we t in
  let X := (if p_followUps plan then declares result raw else ∅) ∪ ends_child plan raw in
  keyed (jobs d) →
  (∀ r, jobs d !! raw_ID raw = Some r → j_LeaseToken r = Some (raw_LeaseToken raw) →
        j_ParentJobID r = raw_ParentJobID raw) →
  finalizeColumns opts ctx raw result plan t d = Ok upd → barriers_live d →
  barriers_live_but X (update_jobs (holds_claim (raw_ID raw) (raw_LeaseToken raw)) upd d).
Proof.
  intros plan X Hk Hpar Hu Hl. apply live_update; [|by apply (live_weaken ∅); [set_solver|]].
  intros id r Hr (Hid & Hrun & Htok)%holds_claim_true. rewrite (Hk _ _ Hr) in Hid. subst id.
  specialize (Hpar r Hr Htok).
  destruct (finalize_row _ _ _ _ _ _ _ _ r Hu) as (Hs & _ & _ & _ & _ & _ & _ & _ & Hb). split.
  - intros Hsome. destruct Hb as [[-> _]|([b Hres] & Hf & _)] in Hsome; [by left|].
    right. unfold X. rewrite Hf. unfold declares. rewrite Hres. set_solver.
  - intros pid Hpid. unfold pending_child. rewrite Updates_ParentJobID, Hs, Hpar, Hrun.
    rewrite !andb_true_iff, bool_decide_eq_true. intros [Hp _]. split; [done|].
    rewrite <-isTerminal_spec. destruct (isTerminalStateString (p_jobState plan)) eqn:E; [|done].
    destruct Hpid. unfold X, ends_child. rewrite Hp, E. set_solver.
Qed.

Lemma live_Finalize opts ctx raw runID result we t d out d' :
  Finalize opts ctx raw runID result we t d = Ok (out, d') → db_wf d →
  (∀ r, jobs d !! raw_ID raw = Some r → j_LeaseToken r = Some (raw_LeaseToken raw) →
        j_ParentJobID r = raw_ParentJobID raw) →
  (is_Some (res_Barrier result) →
     ∃ fu, fu ∈ res_FollowUps result ∧ fu_Parent fu = true ∧ fu_UniqueKey fu = "") →
  fresh_context ctx d (length (res_FollowUps result)) →
  barriers_live d → barriers_live d'.
Proof.
  intros Hfin Hwf Hpar Hbar Hfresh Hl.
  destruct (fo_Superseded out) eqn:Hsup.
  { eapply live_jobs; [|exact Hl]. by eapply finalize_jobs_superseded. }
  destruct (Finalize_Ok _ _ _ _ _ _ _ _ _ _ Hfin) as (plan & stub & run & upd & d2 & d3 & Hz).
  pose proof Hz as [Hplan _ Hu _ Hfo Hfi _ -> _]. rewrite Hsup in Hfo, Hfi. simpl in Hfi.
  rewrite andb_true_r in Hfo. rewrite Hplan in Hu.
  pose proof (live_advance _ _ _ _ _ _ _ _ (wf_keyed _ Hwf) Hpar Hu Hl) as Hl1. rewrite <-Hplan in Hl1.
  set (d1 := update_jobs _ upd d) in *.
  assert (barriers_live_but (ends_child plan raw) d2 ∧ keyed (jobs d2)) as [Hl2 Hk2].
  { assert (keyed (jobs d1)) as Hk1 by by apply keyed_update_where, Hwf.
    destruct (p_followUps plan); [|destruct Hfo as [_ ->]; split; [|done]; by rewrite union_empty_l_L in Hl1].
    pose proof Hfo as (_ & rows & rows' & Hbr & Hc & ->)%insertFollowUps_Ok.
    apply buildChildRows_Ok in Hbr as (Hfr & _).
    split; [|intros i r [?|(_ & _ & ?)]%insert_skipping_inv; [by apply Hk1|done]].
    eapply live_insert in Hl1; [|by eapply created_fresh].
    unfold declares in Hl1. destruct (res_Barrier result) as [b|]; [|by rewrite union_empty_l_L in Hl1].
    destruct Hbar as (fu & Hfu & Hfp & Hfk); [done|].
    eapply (live_weaken (_ ∖ {[raw_ID raw]})); [|eapply live_pending; [|exact Hl1]; eapply fanout_pending;
      [exact Hfo| |exact Hfu|done|done]]; [set_solver|].
    eapply fresh_context_jobs; [|exact Hfresh]. intros id Hid. simpl. by rewrite lookup_update_where, Hid. }
  assert (barriers_live d3) as Hl3.
  { unfold ends_child in Hl2. destruct (raw_ParentJobID raw) as [pid|]; [|by subst].
    destruct (isTerminalStateString _); [|by subst]. destruct Hfi as [fired Hfi].
    eapply live_weaken; [|by eapply live_fire]. set_solver. }
  eapply live_jobs; [|exact Hl3]. unfold finalizeRunRow. by destruct (r_FinishedAt run).
Qed.
End finalize_live.

(** ** Renewal *)

Definition renew_columns (ctx : context) (until : Z) : list jobCol :=
  [ColLeasedUntil (Some until); ColUpdatedAt (c_Now ctx 0)].

Lemma wf_RenewLease ctx id token until d : db_wf d → db_wf (RenewLease ctx id token until d).2.
Proof.
  intros Hd. apply wf_update_jobs; [|done]. intros i r _ (_ & Hrun & Htok)%holds_claim_true [].
  split; [by apply keys_within_same|]. solve_row_wf.
Qed.

Lemma live_RenewLease ctx id token until d :
  barriers_live d → barriers_live (RenewLease ctx id token until d).2.
Proof. intros Hl. apply live_update; [|done]. by intros i r _ _; split; [left|]. Qed.

(** At most one row holds a claim. *)
Lemma claim_count_le d id token :
  keyed (jobs d) → (count_jobs (holds_claim id token) d ≤ 1)%Z.
Proof.
  intros Hk. unfold count_jobs. pose proof (table_ids_NoDup _ Hk) as Hnd.
  set (l := filter _ _). assert (l `sublist_of` (map_to_list (jobs d)).*2) as Hsub by apply sublist_filter.
  assert (NoDup (j_ID <$> l)) as Hnl.
  { eapply sublist_NoDup; [exact Hnd|by apply fmap_sublist]. }
  assert (∀ r, r ∈ l → j_ID r = id) as Hall.
  { intros r [HP _]%list_elem_of_filter. apply andb_true_iff in HP as [HP _].
    by apply holds_claim_true in HP as [? _]. }
  destruct l as [|a [|b l']]; simpl; try lia. exfalso.
  rewrite !fmap_cons, NoDup_cons, elem_of_cons in Hnl. destruct Hnl as [Hn _]. apply Hn. left.
  by rewrite (Hall a), (Hall b) by (rewrite ?elem_of_cons; auto).
Qed.

(** A renewal reports true exactly while its claim is held, and then moves the
    lease to the given expiry; a lost claim renews nothing. *)
Lemma RenewLease_spec ctx id token until d :
  db_wf d →
  ((RenewLease ctx id token until d).1 = true ↔ claim_held d id token) ∧
  (∀ i r, jobs d !! i = Some r → jobs (RenewLease ctx id token until d).2 !! i =
     Some (if holds_claim id token r && not_deleted r then Updates (renew_columns ctx until) r else r)) ∧
  (¬ claim_held d id token → (RenewLease ctx id token until d).2 = d).
Proof.
  intros Hwf. pose proof (wf_keyed _ Hwf) as Hk. pose proof (claim_count d id token Hk) as Hc.
  pose proof (claim_count_le d id token Hk).
  assert (0 ≤ count_jobs (holds_claim id token) d)%Z by (unfold count_jobs; lia).
  rewrite Z.eqb_neq in Hc. split_and!.
  - rewrite <-Hc. simpl. rewrite Z.eqb_eq. lia.
  - intros i r Hr. simpl. by rewrite lookup_update_where, Hr.
  - intros Hn. apply update_jobs_none. rewrite <-Hc in Hn. lia.
Qed.

(** ** The finalize's theorems *)

Section theorems.
Context `{Foundation} `{GoLib} `{Backoff}.
Context (opts : DriverOpts) (ctx : context) (raw : RawJob) (runID : string) (result : Result)
        (we : option WorkErr) (t : Z) (d : db) (out : FinalizeOutcome) (d' : db).

(** C6. A finalize under a held claim applies its decision: the job takes the
    planned state, schedule, finish time and attempt ceiling and gives up its
    lease; the claim is spent; and of the other jobs at most the parent changes,
    by having its barrier cleared. *)
Theorem finalize_applies :
  Finalize opts ctx raw runID result we t d = Ok (out, d') → db_wf d →
  claim_held d (raw_ID raw) (raw_LeaseToken raw) →
  let plan := planFinalize raw result we t in
  fo_Superseded out = false ∧ fo_State out = p_jobState plan ∧
  ¬ claim_held d' (raw_ID raw) (raw_LeaseToken raw) ∧
  (∃ r r', jobs d !! raw_ID raw = Some r ∧ jobs d' !! raw_ID raw = Some r' ∧
    j_State r' = p_jobState plan ∧ j_LeaseToken r' = None ∧ j_LeasedUntil r' = None ∧
    j_ScheduledAt r' = default (j_ScheduledAt r) (p_scheduledAt plan) ∧
    j_FinalizedAt r' = p_finalizedAt plan ∧
    j_MaxAttempts r' = (j_MaxAttempts r + p_maxAttemptsDelta plan)%Z ∧ j_Attempt r' = j_Attempt r) ∧
  (∀ id r, id ≠ raw_ID raw → jobs d !! id = Some r →
     jobs d' !! id = Some r ∨
     (raw_ParentJobID raw = Some id ∧ jobs d' !! id = Some (Updates (clear_barrier ctx) r))).
Proof.
  intros Hf Hwf Hheld plan.
  pose proof (proj2 (finalize_superseded_iff _ _ _ _ _ _ _ _ _ _ Hf Hwf) Hheld) as Hsup.
  destruct (finalize_jobs_applied _ _ _ _ _ _ _ _ _ _ Hf Hwf Hsup) as (r & r' & Hr & Hr' & Hst & _ & Hrow).
  split_and!; [done|done|by eapply finalize_spends_claim|by exists r, r'|].
  intros id x Hne Hx. destruct (finalize_old_row _ _ _ _ _ _ _ _ _ _ Hf Hwf _ _ Hx) as (upd & x' & _ & Hx' & Hcase).
  assert (finalized_row raw upd x = x) as E.
  { unfold finalized_row, holds_claim. rewrite bool_decide_false; [done|]. by rewrite (wf_keyed _ Hwf _ _ Hx). }
  rewrite E in Hcase. destruct Hcase as [->|[? ->]]; auto.
Qed.

(** C7. The fence: a finalize is superseded exactly when its claim is no longer
    held, and then it touches no job and enqueues nothing, while it still records
    its own run. *)
Theorem finalize_fence :
  Finalize opts ctx raw runID result we t d = Ok (out, d') → db_wf d →
  (fo_Superseded out = true ↔ ¬ claim_held d (raw_ID raw) (raw_LeaseToken raw)) ∧
  (fo_Superseded out = true → jobs d' = jobs d ∧ fo_EnqueuedChildren out = 0%Z ∧
     ∃ run, job_runs d' !! runID = Some run ∧ r_Superseded run = true ∧
       r_Outcome run = p_runOutcome (planFinalize raw result we t)).
Proof.
  intros Hf Hwf. pose proof (finalize_superseded_iff _ _ _ _ _ _ _ _ _ _ Hf Hwf) as Hiff. split.
  - rewrite <-Hiff. by destruct (fo_Superseded out).
  - intros Hsup. destruct (finalize_jobs_superseded _ _ _ _ _ _ _ _ _ _ Hf Hsup) as (Hj & He & _).
    split_and!; [done|done|].
    destruct (finalize_run_row _ _ _ _ _ _ _ _ _ _ Hf Hwf) as (stub & run & _ & Hruns & Ho & Hs & _).
    exists run. rewrite Hruns, lookup_insert_eq. by rewrite Hs.
Qed.

(** Every finalize that returns records its run, and only its run: the
    outcome, the children enqueued and whether it was superseded; the finish time
    is written once, so a second finalize of the same run keeps the first; and the
    finish log gains exactly that run at that time. *)
Theorem finalize_records_run :
  Finalize opts ctx raw runID result we t d = Ok (out, d') → db_wf d →
  ∃ stub run, job_runs d !! runID = Some stub ∧ job_runs d' = <[runID := run]> (job_runs d) ∧
    r_Outcome run = fo_RunOutcome out ∧ r_Superseded run = fo_Superseded out ∧
    r_EnqueuedChildren run = fo_EnqueuedChildren out ∧
    r_FinishedAt run = Some (default t (r_FinishedAt stub)) ∧
    r_JobState run = (if fo_Superseded out then r_JobState stub else Some (fo_State out)) ∧
    job_run_finishes d' = {[(default t (r_FinishedAt stub), runID)]} ∪ job_run_finishes d.
Proof.
  intros Hf Hwf.
  destruct (finalize_run_row _ _ _ _ _ _ _ _ _ _ Hf Hwf) as (stub & run & Hs & Hr & Ho & Hsup & He & Hfin & Hjs & Hlog).
  destruct (Finalize_Ok _ _ _ _ _ _ _ _ _ _ Hf) as (plan & stub2 & run2 & upd & d2 & d3 & Hz).
  destruct Hz as [-> _ _ _ _ _ _ _ (Hout & _ & _ & Hst)]. exists stub, run. rewrite Ho, Hout.
  split_and!; try done. rewrite Hjs. by destruct (fo_Superseded out); [|rewrite Hst].
Qed.
End theorems.

(** A renewal reports true exactly while its claim is held; it then moves that
    one lease to the given expiry, and a lost claim renews nothing. *)
Theorem renewal_fence ctx id token until d :
  db_wf d →
  ((RenewLease ctx id token until d).1 = true ↔ claim_held d id token) ∧
  (∀ i r, jobs d !! i = Some r → jobs (RenewLease ctx id token until d).2 !! i =
     Some (if holds_claim id token r && not_deleted r then Updates (renew_columns ctx until) r else r)) ∧
  (¬ claim_held d id token → (RenewLease ctx id token until d).2 = d).
Proof. apply RenewLease_spec. Qed.
