(* ===== verification/Seed.v ===== *)
(** * Seeded runs: SeedRun (seed.go)

    A run written directly, for an import or a test: the row a finalize would leave,
    and its entry in the finish log, in one transaction. *)

From S2P Require Import Prelude Types Text Json Fingerprint Store Plan Insert Barrier Finalize.

Local Open Scope Z_scope.

Record RunSeed := {
  sd_JobID : string; sd_Attempt : Z; sd_ExecutorClass : string; sd_ExecutorID : string; sd_Outcome : RunOutcome;
  sd_StartedAt : Z; sd_FinishedAt : option Z; sd_Output : option goany; sd_ErrorMessage : string
}.

Section seed.
Context `{GoLib}.

Definition seed_startedAt (ctx : context) (seed : RunSeed) : Z :=
  if is_zero_time (sd_StartedAt seed) then c_Now ctx 0 else sd_StartedAt seed.
Definition seed_outcome (seed : RunSeed) : RunOutcome :=
  if bool_decide (sd_Outcome seed = OutcomeOther "") then OutcomeStarted else sd_Outcome seed.
(** The job's kind and queue, soft-deleted or not; empty when there is no such job. *)
Definition seed_job (seed : RunSeed) (d : db) : string * string :=
  match jobs d !! sd_JobID seed with Some j => (j_Kind j, j_Queue j) | None => ("", "") end.

Definition seed_row (ctx : context) (seed : RunSeed) (d : db) : res jobRunRow :=
  let startedAt := seed_startedAt ctx seed in
  let '(kind, queue) := seed_job seed d in
  let fields := if is_empty (sd_ErrorMessage seed) then None else Some (runErrorFields (sd_ErrorMessage seed) "") in
  let? output := marshalRunOutput (sd_Output seed) defaultMaxOutputBytes in
  Ok {| r_ID := c_NewID ctx 0; r_JobID := sd_JobID seed; r_Attempt := sd_Attempt seed; r_Kind := kind; r_Queue := queue;
        r_ExecutorClass := sd_ExecutorClass seed; r_ExecutorID := sd_ExecutorID seed; r_StartedAt := startedAt;
        r_FinishedAt := sd_FinishedAt seed; r_Outcome := seed_outcome seed; r_ErrorClass := None;
        r_ErrorMessage := fst <$> fields; r_ErrorPayload := snd <$> fields; r_Output := output;
        r_DurationMs := (λ t, milliseconds (time_sub t startedAt)) <$> sd_FinishedAt seed; r_QueueWaitMs := None;
        r_CostMicros := None; r_EnqueuedChildren := 0;
        r_ErrorFingerprint := if failedOutcome (seed_outcome seed)
                              then Some (fingerprintOf kind (ErrorClassOther "") (default "" (fst <$> fields)) None) else None;
        r_JobState := None; r_Superseded := false; r_CreatedAt := startedAt |}.

Definition SeedRun (ctx : context) (seed : RunSeed) (d : db) : res (string * db) :=
  if is_empty (sd_JobID seed) then Err (ValidationError "job_id")
  else if is_empty (sd_ExecutorID seed) then Err (ValidationError "executor_id")
  else
    let? row0 := seed_row ctx seed d in
    let? row := run_BeforeCreate ctx row0 in
    match insert_run row d with
    | Err e => Err (if bool_decide (e = ErrDuplicateKey) then ErrRunAlreadyRecorded else e)
    | Ok d1 =>
      Ok (r_ID row, match r_FinishedAt row with
                    | Some t => with_finishes ({[(t, r_ID row)]} ∪ job_run_finishes d1) d1
                    | None => d1
                    end)
    end.
End seed.

(** ** What a seed writes *)

Section facts.
Context `{GoLib}.

Lemma insert_run_Err row d e : insert_run row d = Err e → e = ErrDuplicateKey ∧
  (is_Some (job_runs d !! r_ID row) ∨ ∃ id r, job_runs d !! id = Some r ∧ r_JobID r = r_JobID row ∧ r_Attempt r = r_Attempt row).
Proof.
  unfold insert_run. destruct (job_runs d !! r_ID row) eqn:E; [intros [= <-]; split; [done|left; by eexists]|].
  case_bool_decide as Hf; [done|]. intros [= <-]. split; [done|right].
  apply map_not_Forall in Hf; [|apply _]. destruct Hf as (id & r & Hr & Hn). exists id, r. apply dec_stable in Hn. done.
Qed.
(** A new run under a free key and attempt keeps the run tables in order. *)
Lemma new_run_kept row d :
  job_runs d !! r_ID row = None →
  (∀ id r, job_runs d !! id = Some r → r_JobID r = r_JobID row → r_Attempt r = r_Attempt row → False) →
  let d' := finalizeRunRow row d in
  (runs_keyed (job_runs d) → runs_keyed (job_runs d')) ∧ (finishes_ok d → finishes_ok d') ∧
  (attempts_unique d → attempts_unique d') ∧ (run_wf row → db_wf d → db_wf d').
Proof.
  intros Hn Huniq. cbv zeta.
  assert (job_runs (finalizeRunRow row d) = <[r_ID row := row]> (job_runs d)) as Hruns by (unfold finalizeRunRow; by destruct (r_FinishedAt row)).
  assert (runs_keyed (job_runs d) → runs_keyed (job_runs (finalizeRunRow row d))) as Hk.
  { intros Hk id r. rewrite Hruns. intros [[<- <-]|[_ Hr]]%lookup_insert_Some; eauto. }
  assert (finishes_ok d → finishes_ok (finalizeRunRow row d)) as Hf.
  { intros Hf t id. rewrite Hruns. unfold finalizeRunRow. split.
    - intros Hin. assert ((t, id) ∈ job_run_finishes d ∨ r_FinishedAt row = Some t ∧ id = r_ID row) as [(r & Hr & Ht)%Hf|[Ht ->]].
      + destruct (r_FinishedAt row); cbn in Hin; [set_solver|by left].
      + exists r. rewrite lookup_insert_ne; [done|congruence].
      + exists row. by rewrite lookup_insert_eq.
    - intros (r & [[<- <-]|[_ Hr]]%lookup_insert_Some & Ht).
      + rewrite Ht. cbn. set_solver.
      + assert ((t, id) ∈ job_run_finishes d) by (apply Hf; eauto). destruct (r_FinishedAt row); cbn; set_solver. }
  assert (attempts_unique d → attempts_unique (finalizeRunRow row d)) as Ha.
  { intros Hat i j a b. rewrite Hruns. intros Hi Hj' Hjob Hatt.
    apply lookup_insert_Some in Hi as [[<- <-]|[_ Hi]], Hj' as [[<- <-]|[_ Hj']]; eauto;
      exfalso; [by eapply (Huniq _ _ Hj')|by eapply (Huniq _ _ Hi)]. }
  split; [done|]. split; [done|]. split; [done|]. intros Hw [Hk0 Hu Hr0 Hrk Hrw Hf0 Hat].
  assert (jobs (finalizeRunRow row d) = jobs d) as Hj by (unfold finalizeRunRow; by destruct (r_FinishedAt row)).
  split; rewrite ?Hj; eauto. intros id r. rewrite Hruns. intros [[<- <-]|[_ Hr]]%lookup_insert_Some; eauto.
Qed.

(** What the stored row says of the seed. *)
Record seeded (ctx : context) (seed : RunSeed) (d : db) (row : jobRunRow) : Prop := {
  sw_attempt : r_JobID row = sd_JobID seed ∧ r_Attempt row = sd_Attempt seed ∧ r_ExecutorID row = sd_ExecutorID seed;
  sw_job : ∀ j, jobs d !! sd_JobID seed = Some j → r_Kind row = j_Kind j ∧ r_Queue row = j_Queue j;
  sw_outcome : r_Outcome row = seed_outcome seed ∧ r_FinishedAt row = sd_FinishedAt seed ∧ r_JobState row = None;
  sw_duration : ∀ t, sd_FinishedAt seed = Some t → r_DurationMs row = Some (milliseconds (time_sub t (seed_startedAt ctx seed)));
  sw_failure : failedOutcome (seed_outcome seed) = true → sd_ErrorMessage seed ≠ "" →
    r_ErrorFingerprint row = Some (ErrorFingerprint (r_Kind row) (ErrorClassOther "") (sd_ErrorMessage seed))
}.

End facts.
