(* ===== verification/Claim.v ===== *)
(** * The claim: Dequeue on both databases

    internal/core/driver_sqlite.go and driver_postgres.go. SQLite selects then
    updates inside one serialized transaction; PostgreSQL does both in one
    statement, skipping rows another transaction has locked. The locked ids are a
    parameter, so every interleaving of row locks is one of its values. *)

From S2P Require Import Prelude Types Text Fingerprint Store Plan Insert Barrier Finalize.

(** ORDER BY priority, scheduled_at. *)
Definition claim_order (a b : jobRow) : Prop :=
  (j_Priority a < j_Priority b ∨
   (j_Priority a = j_Priority b ∧ j_ScheduledAt a ≤ j_ScheduledAt b))%Z.
#[global] Instance claim_order_dec : RelDecision claim_order.
Proof. intros a b. unfold claim_order. apply _. Defined.
#[global] Instance claim_order_trans : Transitive claim_order.
Proof. intros a b c. unfold claim_order. lia. Qed.
#[global] Instance claim_order_total : Total claim_order.
Proof. intros a b. unfold claim_order. lia. Qed.

(** The WHERE of the claim. *)
Definition claimable (now : Z) (queues : list string) (class : string) (claimAny : bool)
    (r : jobRow) : bool :=
  state_in (j_State r) claimableStates && (j_ScheduledAt r <=? now)%Z &&
  str_mem (j_Queue r) queues &&
  (claimAny || str_mem (j_ExecutorClass r) [class; ""]).

(** The columns a claim writes. *)
Definition claimUpdate (now lease : Z) (token : string) : list jobCol :=
  [ColState StateRunning; ColAttempt (λ r, j_Attempt r + 1)%Z; ColLeasedUntil (Some (now + lease)%Z);
   ColLeaseToken (Some token); ColUpdatedAt now].

Definition id_in (ids : list string) (r : jobRow) : bool := str_mem (j_ID r) ids.

(** WHERE id IN (ids of rows read from the table). *)
Lemma id_in_spec (d : db) rows id r :
  keyed (jobs d) → (∀ x, x ∈ rows → jobs d !! j_ID x = Some x) → jobs d !! id = Some r →
  id_in (j_ID <$> rows) r = bool_decide (r ∈ rows).
Proof.
  intros Hk Hrows Hr. unfold id_in, str_mem. apply bool_decide_ext.
  rewrite list_elem_of_fmap. split; [|by eauto].
  intros (x & Hid & Hx). pose proof (Hrows x Hx) as Hl.
  rewrite <-Hid, (Hk _ _ Hr) in Hl. by simplify_eq.
Qed.

Section dequeue.
Context `{RowOrder}.
(** [sqliteDriver.Dequeue]. *)
Definition sqliteDequeue (ctx : context) (queues : list string) (class : string) (claimAny : bool)
    (limit lease : Z) (d : db) : list RawJob * db :=
  if (limit <=? 0)%Z || bool_decide (queues = []) then ([], d)
  else
    let now := c_Now ctx 0 in
    let token := c_NewID ctx 0 in
    let rows := page claim_order (Z.to_nat limit)
                  (select_jobs (claimable now queues class claimAny) d) in
    match rows with
    | [] => ([], d)
    | _ =>
      ((λ r, rawFromRow r (j_Attempt r + 1) token) <$> rows,
       update_jobs (id_in (j_ID <$> rows)) (claimUpdate now lease token) d)
    end.

(** [postgresDriver.Dequeue]: [locked] holds the ids other transactions have
    locked. RETURNING gives the rows the UPDATE left, in no fixed order. *)
Definition postgresDequeue (ctx : context) (locked : gset string) (queues : list string) (class : string)
    (claimAny : bool) (limit lease : Z) (d : db) : list RawJob * db :=
  if (limit <=? 0)%Z || bool_decide (queues = []) then ([], d)
  else
    let now := c_Now ctx 0 in
    let token := c_NewID ctx 0 in
    let claimed := page claim_order (Z.to_nat limit)
      (select_jobs (λ r, claimable now queues class claimAny r && bool_decide (j_ID r ∉ locked)) d) in
    let returned := scan (Updates (claimUpdate now lease token) <$> claimed) in
    ((λ r, rawFromRow r (j_Attempt r) token) <$> returned,
     update_jobs (id_in (j_ID <$> claimed)) (claimUpdate now lease token) d).
End dequeue.

(** ** What a claim promises

    [claim_result] is the contract the runtime relies on, whichever database
    fulfils it: the rows claimed are live, claimable and unlocked, each once and
    within the limit; none left behind sorts before one taken; a claim that stops
    short of its limit left nothing behind; each comes back under its next
    attempt and the call's token; and the tables differ in those rows alone. *)
Record claim_result (now lease : Z) (token : string) (queues : list string) (class : string)
    (claimAny : bool) (limit : Z) (locked : gset string) (d : db) (raws : list RawJob) (d' : db)
    (rows : list jobRow) : Prop := {
  cl_raws : raws ≡ₚ (λ r, rawFromRow r (j_Attempt r + 1) token) <$> rows;
  cl_once : NoDup (j_ID <$> rows);
  cl_limit : (Z.of_nat (length rows) ≤ Z.max 0 limit)%Z;
  cl_rows : ∀ r, r ∈ rows → jobs d !! j_ID r = Some r ∧ not_deleted r = true ∧
              claimable now queues class claimAny r = true ∧ j_ID r ∉ locked;
  cl_best : ∀ r id r', r ∈ rows → jobs d !! id = Some r' → not_deleted r' = true →
              claimable now queues class claimAny r' = true → id ∉ locked → r' ∉ rows →
              claim_order r r';
  cl_full : (Z.of_nat (length rows) < limit)%Z → ∀ id r', jobs d !! id = Some r' →
              not_deleted r' = true → claimable now queues class claimAny r' = true →
              id ∉ locked → r' ∈ rows;
  cl_db : d' = update_jobs (id_in (j_ID <$> rows)) (claimUpdate now lease token) d
}.

(** A statement that selects no row changes none. *)
Lemma update_jobs_nil cols d : update_jobs (id_in []) cols d = d.
Proof. apply update_jobs_none, count_jobs_zero. intros. unfold id_in, str_mem. by rewrite bool_decide_false by set_solver. Qed.

Section spec.
Context `{RowOrder}.

(** The page both claims take. *)
Lemma claim_page now queues class claimAny (locked : gset string) limit d (P : jobRow → bool) :
  (∀ r, P r = claimable now queues class claimAny r && bool_decide (j_ID r ∉ locked)) →
  keyed (jobs d) → (0 < limit)%Z →
  let rows := page claim_order (Z.to_nat limit) (select_jobs P d) in
  NoDup (j_ID <$> rows) ∧ (Z.of_nat (length rows) ≤ Z.max 0 limit)%Z ∧
  (∀ r, r ∈ rows → jobs d !! j_ID r = Some r ∧ not_deleted r = true ∧
     claimable now queues class claimAny r = true ∧ j_ID r ∉ locked) ∧
  (∀ r id r', r ∈ rows → jobs d !! id = Some r' → not_deleted r' = true →
     claimable now queues class claimAny r' = true → id ∉ locked → r' ∉ rows → claim_order r r') ∧
  ((Z.of_nat (length rows) < limit)%Z → ∀ id r', jobs d !! id = Some r' → not_deleted r' = true →
     claimable now queues class claimAny r' = true → id ∉ locked → r' ∈ rows).
Proof.
  intros HP Hk Hlim rows.
  destruct (page_select claim_order P (Z.to_nat limit) d Hk) as (Hnd & Hlen & Hin & Hbest & Hfull).
  fold rows in Hnd, Hlen, Hin, Hbest, Hfull.
  assert (∀ r, P r = true ↔ claimable now queues class claimAny r = true ∧ j_ID r ∉ locked) as HP'.
  { intros r. by rewrite HP, andb_true_iff, bool_decide_eq_true. }
  split_and!; [done|lia| | |].
  - intros r Hr. destruct (Hin r Hr) as (? & ? & [? ?]%HP'). done.
  - intros r id r' Hr Hr' ? ? ? Hn. apply (Hbest r id r'); try done.
    apply HP'. by rewrite (Hk _ _ Hr').
  - intros Hshort id r' Hr' ? ? ?. apply (Hfull ltac:(lia) id r'); try done.
    apply HP'. by rewrite (Hk _ _ Hr').
Qed.

Lemma idle_claim now lease token queues class claimAny limit locked d :
  (limit <= 0)%Z ∨ queues = [] →
  claim_result now lease token queues class claimAny limit locked d [] d [].
Proof.
  intros Hidle. split; simpl; try done; try set_solver; [constructor|lia| |by rewrite update_jobs_nil].
  intros Hl id r' _ _ Hc. destruct Hidle as [?| ->]; [lia|]. unfold claimable in Hc.
  apply andb_true_iff in Hc as [Hc _]. apply andb_true_iff in Hc as [_ Hc].
  unfold str_mem in Hc. by rewrite bool_decide_false in Hc by set_solver.
Qed.

Lemma sqliteDequeue_claims ctx queues class claimAny limit lease d raws d' :
  keyed (jobs d) → sqliteDequeue ctx queues class claimAny limit lease d = (raws, d') →
  ∃ rows, claim_result (c_Now ctx 0) lease (c_NewID ctx 0) queues class claimAny limit ∅ d raws d' rows.
Proof.
  intros Hk. unfold sqliteDequeue. destruct (_ || _) eqn:Hidle.
  { intros [= <- <-]. exists []. apply idle_claim.
    apply orb_true_iff in Hidle as [?%Z.leb_le|?%bool_decide_eq_true]; auto. }
  apply orb_false_iff in Hidle as [Hlim%Z.leb_gt _].
  destruct (claim_page (c_Now ctx 0) queues class claimAny ∅ limit d
    (claimable (c_Now ctx 0) queues class claimAny)) as (? & ? & ? & ? & ?); try done.
  { intros r. by rewrite bool_decide_true, andb_true_r by set_solver. }
  set (rows := page _ _ _) in *. intros Hres. exists rows.
  assert (raws = (λ r, rawFromRow r (j_Attempt r + 1) (c_NewID ctx 0)) <$> rows ∧
    d' = update_jobs (id_in (j_ID <$> rows)) (claimUpdate (c_Now ctx 0) lease (c_NewID ctx 0)) d)
    as [-> ->] by (destruct rows; simplify_eq; by rewrite ?update_jobs_nil).
  by split.
Qed.

Lemma postgresDequeue_claims ctx locked queues class claimAny limit lease d raws d' :
  keyed (jobs d) → postgresDequeue ctx locked queues class claimAny limit lease d = (raws, d') →
  ∃ rows, claim_result (c_Now ctx 0) lease (c_NewID ctx 0) queues class claimAny limit locked d raws d' rows.
Proof.
  intros Hk. unfold postgresDequeue. destruct (_ || _) eqn:Hidle.
  { intros [= <- <-]. exists []. apply idle_claim.
    apply orb_true_iff in Hidle as [?%Z.leb_le|?%bool_decide_eq_true]; auto. }
  apply orb_false_iff in Hidle as [Hlim%Z.leb_gt _].
  destruct (claim_page (c_Now ctx 0) queues class claimAny locked limit d
    (λ r, claimable (c_Now ctx 0) queues class claimAny r && bool_decide (j_ID r ∉ locked)))
    as (? & ? & ? & ? & ?); try done.
  set (rows := page _ _ _) in *. intros [= <- <-]. exists rows. split; try done.
  rewrite scan_perm, <-list_fmap_compose. by apply Permutation_refl'.
Qed.
End spec.

(** ** Consequences of the contract *)

Section consequences.
Context (now lease : Z) (token : string) (queues : list string) (class : string) (claimAny : bool)
        (limit : Z) (locked : gset string) (d : db) (raws : list RawJob) (d' : db) (rows : list jobRow).
Context (Hcl : claim_result now lease token queues class claimAny limit locked d raws d' rows).

Lemma claim_taken r :
  r ∈ rows → jobs d' !! j_ID r = Some (Updates (claimUpdate now lease token) r).
Proof.
  intros Hr. destruct (cl_rows _ _ _ _ _ _ _ _ _ _ _ _ Hcl r Hr) as (Hl & Hd & _).
  rewrite (cl_db _ _ _ _ _ _ _ _ _ _ _ _ Hcl). simpl. rewrite lookup_update_where, Hl. simpl.
  unfold id_in, str_mem. rewrite bool_decide_true by by apply list_elem_of_fmap_2. by rewrite Hd.
Qed.

Lemma claim_rows_stored x : x ∈ rows → jobs d !! j_ID x = Some x.
Proof. intros Hx. by destruct (cl_rows _ _ _ _ _ _ _ _ _ _ _ _ Hcl x Hx). Qed.

Lemma claim_kept id r :
  keyed (jobs d) → jobs d !! id = Some r → r ∉ rows → jobs d' !! id = Some r.
Proof.
  intros Hk Hr Hn. rewrite (cl_db _ _ _ _ _ _ _ _ _ _ _ _ Hcl). simpl.
  rewrite lookup_update_where, Hr. simpl.
  by rewrite (id_in_spec d rows id), bool_decide_false by auto using claim_rows_stored.
Qed.

Lemma claim_state r : r ∈ rows → state_in (j_State r) claimableStates = true.
Proof.
  intros Hr. destruct (cl_rows _ _ _ _ _ _ _ _ _ _ _ _ Hcl r Hr) as (_ & _ & Hc & _).
  unfold claimable in Hc. rewrite !andb_true_iff in Hc. tauto.
Qed.

(** A row the claim's UPDATE selects is one of its rows. *)
Lemma claim_selected id r :
  keyed (jobs d) → jobs d !! id = Some r → id_in (j_ID <$> rows) r = true → r ∈ rows.
Proof.
  intros Hk Hr. rewrite (id_in_spec d rows id) by auto using claim_rows_stored.
  apply bool_decide_eq_true.
Qed.

Lemma wf_claim : db_wf d → db_wf d'.
Proof.
  intros Hwf. rewrite (cl_db _ _ _ _ _ _ _ _ _ _ _ _ Hcl). apply wf_update_jobs; [|done].
  intros id r Hr Hin []. pose proof (claim_state r (claim_selected _ _ (wf_keyed _ Hwf) Hr Hin)) as Hst.
  split.
  - split; [done|]. left. unfold active_key_of. simpl. destruct (j_State r); done.
  - assert (j_FinalizedAt r = None) by (unfold final_wf in *; by destruct (j_State r)).
    solve_row_wf.
Qed.

Lemma live_claim : keyed (jobs d) → barriers_live d → barriers_live d'.
Proof.
  intros Hk Hl. rewrite (cl_db _ _ _ _ _ _ _ _ _ _ _ _ Hcl). apply live_update; [|done].
  intros id r _ _. split; [by left|]. intros pid _. unfold pending_child. simpl.
  rewrite !andb_true_iff. by intros [? _].
Qed.

(** Each job handed out is held under exactly the claim handed out. *)
Lemma claim_holds raw :
  raw ∈ raws → claim_held d' (raw_ID raw) (raw_LeaseToken raw) ∧ raw_LeaseToken raw = token ∧
  ∃ r, r ∈ rows ∧ raw = rawFromRow r (j_Attempt r + 1) token.
Proof.
  rewrite (cl_raws _ _ _ _ _ _ _ _ _ _ _ _ Hcl). intros (r & -> & Hr)%list_elem_of_fmap.
  split_and!; [|done|eauto]. eexists. split; [by apply claim_taken|]. simpl.
  destruct (cl_rows _ _ _ _ _ _ _ _ _ _ _ _ Hcl r Hr) as (_ & Hd & _). by rewrite Updates_not_deleted.
Qed.
End consequences.

Lemma claim_disjoint now1 lease1 token1 q1 c1 a1 n1 l1 d raws1 d1 rows1
    now2 lease2 token2 q2 c2 a2 n2 l2 raws2 d2 rows2 :
  claim_result now1 lease1 token1 q1 c1 a1 n1 l1 d raws1 d1 rows1 →
  claim_result now2 lease2 token2 q2 c2 a2 n2 l2 d1 raws2 d2 rows2 →
  ∀ x y, x ∈ raws1 → y ∈ raws2 → raw_ID x ≠ raw_ID y.
Proof.
  intros H1 H2 x y Hx Hy Heq.
  destruct (claim_holds _ _ _ _ _ _ _ _ _ _ _ _ H1 x Hx) as ((r & Hr & _ & Hrun & _) & _).
  destruct (claim_holds _ _ _ _ _ _ _ _ _ _ _ _ H2 y Hy) as (_ & _ & r2 & Hr2 & ->).
  simpl in Heq. pose proof (claim_state _ _ _ _ _ _ _ _ _ _ _ _ H2 r2 Hr2) as Hst.
  destruct (cl_rows _ _ _ _ _ _ _ _ _ _ _ _ H2 r2 Hr2) as (Hl & _).
  rewrite Heq in Hr. assert (r2 = r) as -> by congruence. by rewrite Hrun in Hst.
Qed.

(** The two databases claim the same jobs when no row is locked. *)
Lemma dialects_claim_alike `{RowOrder} ctx queues class claimAny limit lease d :
  (postgresDequeue ctx ∅ queues class claimAny limit lease d).1 ≡ₚ
    (sqliteDequeue ctx queues class claimAny limit lease d).1 ∧
  (postgresDequeue ctx ∅ queues class claimAny limit lease d).2 =
    (sqliteDequeue ctx queues class claimAny limit lease d).2.
Proof.
  unfold postgresDequeue, sqliteDequeue. destruct (_ || _); [done|].
  rewrite (select_jobs_ext (λ r, _ && _) (claimable (c_Now ctx 0) queues class claimAny)).
  2:{ intros r. by rewrite bool_decide_true, andb_true_r by set_solver. }
  set (rows := page _ _ _). simpl. destruct rows as [|r0 rows0] eqn:E.
  - simpl. rewrite update_jobs_nil. split; [|done]. by rewrite scan_perm.
  - rewrite <-E. split; [|done]. simpl. rewrite scan_perm, <-list_fmap_compose. done.
Qed.

(** ** The claim as an interface *)

Definition dequeuer : Type :=
  context → gset string → list string → string → bool → Z → Z → db → list RawJob * db.

(** What a driver owes its runners. *)
Class Claims (dq : dequeuer) : Prop := {
  claims_ok : ∀ ctx locked queues class claimAny limit lease d raws d',
    keyed (jobs d) → dq ctx locked queues class claimAny limit lease d = (raws, d') →
    ∃ locked' rows, locked' ⊆ locked ∧
      claim_result (c_Now ctx 0) lease (c_NewID ctx 0) queues class claimAny limit locked' d raws d' rows
}.

Definition sqlite_dequeuer `{RowOrder} : dequeuer := λ ctx _, sqliteDequeue ctx.
Definition postgres_dequeuer `{RowOrder} : dequeuer := postgresDequeue.

#[global] Instance sqlite_Claims `{RowOrder} : Claims sqlite_dequeuer.
Proof.
  split. intros ctx locked queues class any limit lease d raws d' Hk Hq.
  destruct (sqliteDequeue_claims _ _ _ _ _ _ _ _ _ Hk Hq) as [rows ?]. exists ∅, rows.
  split; [set_solver|done].
Qed.
#[global] Instance postgres_Claims `{RowOrder} : Claims postgres_dequeuer.
Proof.
  split. intros ctx locked queues class any limit lease d raws d' Hk Hq.
  destruct (postgresDequeue_claims _ _ _ _ _ _ _ _ _ _ Hk Hq) as [rows ?]. eauto.
Qed.

(** ** The claim's theorems *)

(** C9. Both databases keep the claim's contract: the jobs handed out are live,
    due, claimable by this worker and unlocked, each once and within the limit, in
    priority order with no better one left behind; a short claim left nothing
    behind; each comes back under its next attempt and the call's own token, and
    no other row changes. *)
Theorem dequeue_contract `{RowOrder} ctx locked queues class claimAny limit lease d :
  keyed (jobs d) →
  (∃ rows, claim_result (c_Now ctx 0) lease (c_NewID ctx 0) queues class claimAny limit ∅ d
     (sqliteDequeue ctx queues class claimAny limit lease d).1
     (sqliteDequeue ctx queues class claimAny limit lease d).2 rows) ∧
  (∃ rows, claim_result (c_Now ctx 0) lease (c_NewID ctx 0) queues class claimAny limit locked d
     (postgresDequeue ctx locked queues class claimAny limit lease d).1
     (postgresDequeue ctx locked queues class claimAny limit lease d).2 rows).
Proof.
  intros Hk. split.
  - eapply sqliteDequeue_claims; [done|]. apply surjective_pairing.
  - eapply postgresDequeue_claims; [done|]. apply surjective_pairing.
Qed.

(** Two claims never hand out the same job: whatever the drivers, queues,
    classes and limits, a claim made after another finds none of its jobs. *)
Theorem claims_never_overlap (dq1 dq2 : dequeuer) `{!Claims dq1, !Claims dq2}
    ctx1 l1 q1 c1 a1 n1 t1 ctx2 l2 q2 c2 a2 n2 t2 d raws1 d1 raws2 d2 :
  keyed (jobs d) → dq1 ctx1 l1 q1 c1 a1 n1 t1 d = (raws1, d1) →
  dq2 ctx2 l2 q2 c2 a2 n2 t2 d1 = (raws2, d2) →
  (raw_ID <$> raws1) ## (raw_ID <$> raws2) ∧
  ∀ raw, raw ∈ raws1 → claim_held d2 (raw_ID raw) (raw_LeaseToken raw).
Proof.
  intros Hk Hq1 Hq2. destruct (claims_ok _ _ _ _ _ _ _ _ _ _ Hk Hq1) as (l1' & rows1 & _ & Hc1).
  assert (keyed (jobs d1)) as Hk1.
  { rewrite (cl_db _ _ _ _ _ _ _ _ _ _ _ _ Hc1). by apply keyed_update_where. }
  destruct (claims_ok _ _ _ _ _ _ _ _ _ _ Hk1 Hq2) as (l2' & rows2 & _ & Hc2). split.
  - intros id (x & -> & Hx)%list_elem_of_fmap (y & Heq & Hy)%list_elem_of_fmap.
    by eapply (claim_disjoint _ _ _ _ _ _ _ _ _ _ _ _ _ _ _ _ _ _ _ _ _ _ _ Hc1 Hc2).
  - intros raw Hraw. destruct (claim_holds _ _ _ _ _ _ _ _ _ _ _ _ Hc1 raw Hraw) as ((r & Hr & Hd & Hs & Ht) & _).
    exists r. split_and!; try done. eapply (claim_kept _ _ _ _ _ _ _ _ _ _ _ _ Hc2); [done..|].
    intros Hin. pose proof (claim_state _ _ _ _ _ _ _ _ _ _ _ _ Hc2 r Hin) as Hst. by rewrite Hs in Hst.
Qed.

(** With no row locked, PostgreSQL's one-statement claim and SQLite's
    select-then-update hand out the same jobs and leave the same tables. *)
Theorem dialects_agree_on_claims `{RowOrder} ctx queues class claimAny limit lease d :
  (postgresDequeue ctx ∅ queues class claimAny limit lease d).1 ≡ₚ
    (sqliteDequeue ctx queues class claimAny limit lease d).1 ∧
  (postgresDequeue ctx ∅ queues class claimAny limit lease d).2 =
    (sqliteDequeue ctx queues class claimAny limit lease d).2.
Proof. apply dialects_claim_alike. Qed.

(** A snooze is free: a job claimed and then snoozed has exactly the attempts
    left it had before the claim, and waits the snooze out from the finish time. *)
Theorem snooze_is_free `{Foundation} `{GoLib} `{Backoff} (dq : dequeuer) `{!Claims dq}
    ctx locked queues class claimAny limit lease d raws d1 raw opts ctx2 runID result we t snooze d2 out d3 :
  db_wf d → dq ctx locked queues class claimAny limit lease d = (raws, d1) → raw ∈ raws →
  jobs d2 = jobs d1 → db_wf d2 →
  res_Cancel result = false → res_Snooze result = Some snooze →
  Finalize opts ctx2 raw runID result we t d2 = Ok (out, d3) →
  ∃ r r3, jobs d !! raw_ID raw = Some r ∧ jobs d3 !! raw_ID raw = Some r3 ∧
    j_State r3 = StateScheduled ∧ j_ScheduledAt r3 = (t + snooze)%Z ∧
    (j_MaxAttempts r3 - j_Attempt r3 = j_MaxAttempts r - j_Attempt r)%Z.
Proof.
  intros Hwf Hq Hraw Hj Hwf2 Hc Hs Hf.
  destruct (claims_ok _ _ _ _ _ _ _ _ _ _ (wf_keyed _ Hwf) Hq) as (l' & rows & _ & Hcl).
  destruct (claim_holds _ _ _ _ _ _ _ _ _ _ _ _ Hcl raw Hraw) as (Hheld & _ & r & Hr & Heq).
  assert (claim_held d2 (raw_ID raw) (raw_LeaseToken raw)) as Hh2 by (unfold claim_held; by rewrite Hj).
  pose proof (proj2 (finalize_superseded_iff _ _ _ _ _ _ _ _ _ _ Hf Hwf2) Hh2) as Hsup.
  destruct (finalize_jobs_applied _ _ _ _ _ _ _ _ _ _ Hf Hwf2 Hsup)
    as (r2 & r3 & Hr2 & Hr3 & _ & _ & Hst & _ & _ & Hsch & _ & Hmax & Hatt).
  pose proof (claim_taken _ _ _ _ _ _ _ _ _ _ _ _ Hcl r Hr) as Ht.
  assert (raw_ID raw = j_ID r) as Hid by by rewrite Heq.
  rewrite Hid, Hj, Ht in Hr2. injection Hr2 as <-.
  unfold planFinalize in *. rewrite Hc, Hs in *. exists r, r3.
  split_and!; [rewrite Hid; by eapply claim_rows_stored|done|done|by rewrite Hsch|].
  rewrite Hmax, Hatt. simpl. lia.
Qed.
