(* ===== verification/Sweep.v ===== *)
(** * The lease sweep: reclaiming expired leases on both databases

    internal/core/driver.go (sweep, sweepBatch, crashStaleStubs,
    fireDiscardedParentsBarriers) and the two dialects' reclaimExpired. A batch is
    one transaction: it takes expired leases back, crashes their run stubs, and
    checks the barriers of the parents whose children it discarded. The loop runs
    batches until one comes back short or its context is cancelled. *)

From Stdlib Require Import Ascii.
From S2P Require Import Prelude Types Text Store Insert Barrier Finalize Claim.

Record reclaimRow := {
  rr_ID : string; rr_State : JobState; rr_Kind : string; rr_Queue : string; rr_Attempt : Z;
  rr_MaxAttempts : Z; rr_ParentJobID : option string; rr_LeasedUntil : Z
}.

Record reclaimedJob := {
  rj_ID : string; rj_State : JobState; rj_Kind : string; rj_Queue : string; rj_Attempt : Z;
  rj_MaxAttempts : Z; rj_ParentJobID : option string
}.

(** strings.Compare: byte order. *)
Definition bytes_le (a b : string) : Prop := String.leb a b = true.
#[global] Instance bytes_le_dec : RelDecision bytes_le.
Proof. intros a b. unfold bytes_le. apply _. Defined.

Lemma bytes_le_cons a b s t :
  bytes_le (String a s) (String b t) ↔ (N_of_ascii a < N_of_ascii b)%N ∨ (a = b ∧ bytes_le s t).
Proof.
  unfold bytes_le, String.leb. simpl. unfold Ascii.compare.
  destruct (N.compare_spec (N_of_ascii a) (N_of_ascii b)) as [E|E|E].
  - apply (f_equal ascii_of_N) in E. rewrite !ascii_N_embedding in E. subst.
    split; [auto|]. by intros [?%N.lt_irrefl|[_ ?]].
  - by split; [left|].
  - split; [done|]. intros [?|[-> _]]; [lia|by apply N.lt_irrefl in E].
Qed.
#[global] Instance bytes_le_trans : Transitive bytes_le.
Proof.
  intros a. induction a as [|x a IH]; intros [|y b] [|z c]; try done.
  rewrite !bytes_le_cons. intros [?|[-> Hab]] [?|[-> Hbc]]; [left; lia|by left..|right; eauto].
Qed.
#[global] Instance bytes_le_total : Total bytes_le.
Proof.
  intros a. induction a as [|x a IH]; intros [|y b]; try (by left); try (by right).
  rewrite !bytes_le_cons. destruct (N.lt_trichotomy (N_of_ascii x) (N_of_ascii y)) as [?|[E|?]]; auto.
  apply (f_equal ascii_of_N) in E. rewrite !ascii_N_embedding in E. subst.
  destruct (IH b); auto.
Qed.
#[global] Instance bytes_le_antisym : AntiSymm (=) bytes_le.
Proof.
  intros a. induction a as [|x a IH]; intros [|y b]; try done.
  rewrite !bytes_le_cons. intros [?|[-> ?]] [?|[? ?]]; try (exfalso; subst; lia).
  f_equal. auto.
Qed.

Definition reclaim_le (a b : reclaimRow) : Prop :=
  (rr_LeasedUntil a < rr_LeasedUntil b)%Z ∨
  (rr_LeasedUntil a = rr_LeasedUntil b ∧ bytes_le (rr_ID a) (rr_ID b)).
#[global] Instance reclaim_le_dec : RelDecision reclaim_le.
Proof. intros a b. unfold reclaim_le. apply _. Defined.

#[global] Instance reclaim_le_trans : Transitive reclaim_le.
Proof.
  intros a b c. unfold reclaim_le. intros [?|[? ?]] [?|[? ?]]; [left; lia..|].
  right. split; [lia|]. by etrans.
Qed.
#[global] Instance reclaim_le_total : Total reclaim_le.
Proof.
  intros a b. unfold reclaim_le.
  destruct (Z.lt_trichotomy (rr_LeasedUntil a) (rr_LeasedUntil b)) as [?|[?|?]]; auto.
  destruct (total bytes_le (rr_ID a) (rr_ID b)); auto.
Qed.

Definition inReclaimOrder (rows : list reclaimRow) : list reclaimedJob :=
  (λ r, {| rj_ID := rr_ID r; rj_State := rr_State r; rj_Kind := rr_Kind r; rj_Queue := rr_Queue r;
           rj_Attempt := rr_Attempt r; rj_MaxAttempts := rr_MaxAttempts r;
           rj_ParentJobID := rr_ParentJobID r |}) <$> merge_sort reclaim_le rows.

Definition spentAttempts (attempt maxAttempts : Z) : bool := (maxAttempts <=? attempt)%Z.
Definition crashBudgetSpent (earlierCrashes maxCrashes : Z) : bool :=
  (0 <? maxCrashes)%Z && (maxCrashes <=? 1 + earlierCrashes)%Z.

(** [crashedRunCondition]. *)
Definition crashedRun (r : jobRunRow) : bool :=
  bool_decide (r_Outcome r = OutcomeCrashed) ||
  (r_Superseded r && bool_decide (is_Some (r_JobState r))).

(** SELECT count( * ) FROM job_runs r WHERE r.job_id = id AND crashedRunCondition. *)
Definition count_crashes (d : db) (id : string) : Z :=
  Z.of_nat (length (filter (λ r, r_JobID r = id ∧ crashedRun r = true) (map_to_list (job_runs d)).*2)).

(** [earlierCrashes]: zero for every job when there is no budget. *)
Definition earlierCrashes (opts : DriverOpts) (d : db) (id : string) : Z :=
  if (MaxCrashes opts <=? 0)%Z then 0%Z else count_crashes d id.

(** Whether a reclaim ends the job: its attempts or its crash budget are spent. *)
Definition reclaim_spent (opts : DriverOpts) (d : db) (r : jobRow) : bool :=
  spentAttempts (j_Attempt r) (j_MaxAttempts r) ||
  crashBudgetSpent (earlierCrashes opts d (j_ID r)) (MaxCrashes opts).

(** WHERE state = 'running' AND leased_until < now. *)
Definition expired (now : Z) (r : jobRow) : bool :=
  bool_decide (j_State r = StateRunning) &&
  match j_LeasedUntil r with Some u => (u <? now)%Z | None => false end.

(** ORDER BY leased_until. *)
Definition lease_of (r : jobRow) : Z := default 0%Z (j_LeasedUntil r).
Definition lease_order (a b : jobRow) : Prop := (lease_of a ≤ lease_of b)%Z.
#[global] Instance lease_order_dec : RelDecision lease_order.
Proof. intros a b. unfold lease_order. apply _. Defined.
#[global] Instance lease_order_trans : Transitive lease_order.
Proof. intros a b c. unfold lease_order. lia. Qed.
#[global] Instance lease_order_total : Total lease_order.
Proof. intros a b. unfold lease_order. lia. Qed.

Definition reclaimUpdate (now : Z) : list jobCol :=
  [ColState StateAvailable; ColLeasedUntil None; ColLeaseToken None; ColUpdatedAt now].
Definition reclaimDiscardUpdate (now : Z) : list jobCol :=
  [ColState StateDiscarded; ColLeasedUntil None; ColLeaseToken None; ColUpdatedAt now;
   ColFinalizedAt (Some now)].

(** An expired lease as the reclaim reads it, under the state it decides. *)
Definition reclaim_row (st : JobState) (r : jobRow) : reclaimRow :=
  {| rr_ID := j_ID r; rr_State := st; rr_Kind := j_Kind r; rr_Queue := j_Queue r;
     rr_Attempt := j_Attempt r; rr_MaxAttempts := j_MaxAttempts r;
     rr_ParentJobID := j_ParentJobID r; rr_LeasedUntil := lease_of r |}.

Section reclaim.
Context `{RowOrder}.

(** [sqliteDriver.reclaimExpired]. *)
Definition sqliteReclaimExpired (opts : DriverOpts) (now : Z) (limit : nat) (d : db)
  : list reclaimedJob * db :=
  let rows := page lease_order limit (select_jobs (expired now) d) in
  let spent := reclaim_spent opts d in
  let discard := j_ID <$> filter (λ r, spent r = true) rows in
  let available := j_ID <$> filter (λ r, spent r = false) rows in
  let d1 := update_jobs (id_in discard) (reclaimDiscardUpdate now) d in
  let d2 := update_jobs (id_in available) (reclaimUpdate now) d1 in
  (inReclaimOrder ((λ r, reclaim_row (if spent r then StateDiscarded else StateAvailable) r) <$> rows),
   d2).

(** The columns PostgreSQL's UPDATE sets on one row. *)
Definition postgresReclaimColumns (now : Z) (spent : bool) (r : jobRow) : list jobCol :=
  [ColState (if spent then StateDiscarded else StateAvailable);
   ColFinalizedAt (if spent then Some now else j_FinalizedAt r);
   ColLeasedUntil None; ColLeaseToken None; ColUpdatedAt now].

(** [postgresDriver.reclaimExpired]: one statement, skipping locked rows; the
    crash count is part of it only with a budget. *)
Definition postgresReclaimExpired (opts : DriverOpts) (locked : gset string) (now : Z) (limit : nat)
    (d : db) : list reclaimedJob * db :=
  let spent (r : jobRow) :=
    if (0 <? MaxCrashes opts)%Z
    then (j_MaxAttempts r <=? j_Attempt r)%Z || (MaxCrashes opts <=? 1 + count_crashes d (j_ID r))%Z
    else (j_MaxAttempts r <=? j_Attempt r)%Z in
  let rows := page lease_order limit
    (select_jobs (λ r, expired now r && bool_decide (j_ID r ∉ locked)) d) in
  let t := (λ r, if id_in (j_ID <$> rows) r
                 then Updates (postgresReclaimColumns now (spent r) r) r else r) <$> jobs d in
  (inReclaimOrder (scan ((λ r, reclaim_row (if spent r then StateDiscarded else StateAvailable) r)
                           <$> rows)),
   with_jobs t d).
End reclaim.

(** ** Crashing run stubs *)

(** The columns a crashed stub takes. *)
Definition crash_run (now : Z) (state : JobState) (r : jobRunRow) : jobRunRow :=
  {| r_ID := r_ID r; r_JobID := r_JobID r; r_Attempt := r_Attempt r; r_Kind := r_Kind r;
     r_Queue := r_Queue r; r_ExecutorClass := r_ExecutorClass r; r_ExecutorID := r_ExecutorID r;
     r_StartedAt := r_StartedAt r; r_FinishedAt := Some now; r_Outcome := OutcomeCrashed;
     r_ErrorClass := r_ErrorClass r; r_ErrorMessage := r_ErrorMessage r;
     r_ErrorPayload := r_ErrorPayload r; r_Output := r_Output r; r_DurationMs := r_DurationMs r;
     r_QueueWaitMs := r_QueueWaitMs r; r_CostMicros := r_CostMicros r;
     r_EnqueuedChildren := r_EnqueuedChildren r; r_ErrorFingerprint := r_ErrorFingerprint r;
     r_JobState := Some state; r_Superseded := r_Superseded r; r_CreatedAt := r_CreatedAt r |}.

(** Which stubs a batch crashes, and the state each records. SQLite reads the
    started stubs of the batch and keeps each at its job's attempt. *)
Definition sqliteStaleStub (js : list reclaimedJob) (r : jobRunRow) : option JobState :=
  if bool_decide (r_Outcome r = OutcomeStarted) then
    match list_find (λ j, rj_ID j = r_JobID r) js with
    | Some (_, j) => if (r_Attempt r =? rj_Attempt j)%Z then Some (rj_State j) else None
    | None => None
    end
  else None.

(** PostgreSQL joins job_runs to jobs on the attempt, one statement per state. *)
Definition postgresStaleStub (js : list reclaimedJob) (d : db) (r : jobRunRow) : option JobState :=
  let in_group (state : JobState) :=
    bool_decide (r_Outcome r = OutcomeStarted) &&
    str_mem (r_JobID r) (rj_ID <$> filter (λ j, rj_State j = state) js) &&
    match jobs d !! r_JobID r with Some j => (r_Attempt r =? j_Attempt j)%Z | None => false end in
  if in_group StateAvailable then Some StateAvailable
  else if in_group StateDiscarded then Some StateDiscarded else None.

(** [crashStaleStubs]: the stubs' columns, then their finish-log entries. *)
Definition crashStaleStubs (stale : jobRunRow → option JobState) (now : Z) (d : db) : db :=
  let crashed := filter (λ r, is_Some (stale r)) (map_to_list (job_runs d)).*2 in
  with_finishes (list_to_set ((λ r, (now, r_ID r)) <$> crashed) ∪ job_run_finishes d)
    (with_runs ((λ r, match stale r with Some st => crash_run now st r | None => r end) <$> job_runs d) d).

(** The run crashed for a job: [runs[s.JobID] = s.ID]. *)
Definition crashed_run_of (stale : jobRunRow → option JobState) (d : db) (jobID : string) : string :=
  foldl (λ acc r, if bool_decide (r_JobID r = jobID) && bool_decide (is_Some (stale r))
                  then r_ID r else acc) "" (map_to_list (job_runs d)).*2.

(** ** Barriers of discarded jobs *)

(** lastDiscarded[parent] = id, in reclaim order. *)
Definition lastDiscarded (js : list reclaimedJob) : gmap string string :=
  foldl (λ m j, match rj_ParentJobID j with
                | Some p => if bool_decide (rj_State j = StateDiscarded) then <[p := rj_ID j]> m else m
                | None => m
                end) ∅ js.

Definition parent_le (a b : string * string) : Prop := bytes_le a.1 b.1.
#[global] Instance parent_le_dec : RelDecision parent_le.
Proof. intros a b. unfold parent_le. apply _. Defined.

Section batch.
Context `{Foundation}.

Fixpoint fireBarriers (ctx : context) (n : nat) (parents : list (string * string)) (d : db) : res db :=
  match parents with
  | [] => Ok d
  | (p, child) :: rest =>
    let? ' (_, d1) := fireBarrierIfComplete ctx n p child d in
    fireBarriers ctx (S n) rest d1
  end.

(** slices.Sorted(maps.Keys(lastDiscarded)), each with its child. *)
Definition sorted_parents (m : gmap string string) : list (string * string) :=
  merge_sort parent_le (map_to_list m).

Definition fireDiscardedParentsBarriers (ctx : context) (js : list reclaimedJob) (d : db) : res db :=
  fireBarriers ctx 0 (sorted_parents (lastDiscarded js)) d.

Record SweptJob := {
  sj_JobID : string; sj_RunID : string; sj_Kind : string; sj_Queue : string; sj_Attempt : Z;
  sj_MaxAttempts : Z; sj_State : JobState
}.

(** One dialect: its reclaim statement and its choice of stale stubs. *)
Record dialect := {
  reclaimExpired : DriverOpts → gset string → Z → nat → db → list reclaimedJob * db;
  staleStub : list reclaimedJob → db → jobRunRow → option JobState
}.
Definition sqlite `{RowOrder} : dialect :=
  {| reclaimExpired opts _ now limit d := sqliteReclaimExpired opts now limit d;
     staleStub js _ := sqliteStaleStub js |}.
Definition postgres `{RowOrder} : dialect :=
  {| reclaimExpired := postgresReclaimExpired; staleStub := postgresStaleStub |}.

Definition sweepBatch (dl : dialect) (opts : DriverOpts) (ctx : context) (locked : gset string)
    (now : Z) (limit : nat) (d : db) : res (list SweptJob * db) :=
  let '(js, d1) := reclaimExpired dl opts locked now limit d in
  match js with
  | [] => Ok ([], d1)
  | _ =>
    let stale := staleStub dl js d1 in
    let d2 := crashStaleStubs stale now d1 in
    let? d3 := fireDiscardedParentsBarriers ctx js d2 in
    Ok ((λ j, {| sj_JobID := rj_ID j; sj_RunID := crashed_run_of stale d1 (rj_ID j);
                 sj_Kind := rj_Kind j; sj_Queue := rj_Queue j; sj_Attempt := rj_Attempt j;
                 sj_MaxAttempts := rj_MaxAttempts j; sj_State := rj_State j |}) <$> js, d3)
  end.

(** [sweep]: batches until one is short. The k-th batch runs under its own
    context values and row locks; [cancelled k] is ctx.Err() before it. The
    report lists the jobs of every committed batch; the error, if any, comes with
    the progress made. [None] is the fuel running out. *)
Fixpoint sweep (fuel : nat) (dl : dialect) (opts : DriverOpts) (ctxs : nat → context)
    (cancelled : nat → bool) (lockeds : nat → gset string) (k : nat) (now : Z) (d : db)
  : option (list SweptJob * option error * db) :=
  match fuel with
  | O => None
  | S fuel =>
    if cancelled k then Some ([], Some ErrContext, d)
    else
      let batchSize := Z.to_nat (sweepBatchSize opts) in
      match sweepBatch dl opts (ctxs k) (lockeds k) now batchSize d with
      | Err e => Some ([], Some e, d)
      | Ok (swept, d1) =>
        if length swept <? batchSize then Some (swept, None, d1)
        else match sweep fuel dl opts ctxs cancelled lockeds (S k) now d1 with
             | Some (rest, e, d2) => Some (swept ++ rest, e, d2)
             | None => None
             end
      end
  end.
End batch.

(** ** What a reclaim promises *)

Definition reclaim_state (opts : DriverOpts) (d : db) (r : jobRow) : JobState :=
  if reclaim_spent opts d r then StateDiscarded else StateAvailable.
Definition reclaim_columns (opts : DriverOpts) (now : Z) (d : db) (r : jobRow) : list jobCol :=
  if reclaim_spent opts d r then reclaimDiscardUpdate now else reclaimUpdate now.

Definition reclaimed (opts : DriverOpts) (d : db) (r : jobRow) : reclaimedJob :=
  {| rj_ID := j_ID r; rj_State := reclaim_state opts d r; rj_Kind := j_Kind r; rj_Queue := j_Queue r;
     rj_Attempt := j_Attempt r; rj_MaxAttempts := j_MaxAttempts r; rj_ParentJobID := j_ParentJobID r |}.

(** The contract of a reclaim batch, whichever database runs it: live, expired,
    unlocked rows, each once, oldest first and within the limit; a short batch
    left none; each is discarded or returned by the same rule, and nothing else
    in the tables changes. *)
Record reclaim_result (opts : DriverOpts) (locked : gset string) (now : Z) (limit : nat) (d : db)
    (js : list reclaimedJob) (d' : db) (rows : list jobRow) : Prop := {
  rc_once : NoDup (j_ID <$> rows);
  rc_limit : length rows ≤ limit;
  rc_rows : ∀ r, r ∈ rows → jobs d !! j_ID r = Some r ∧ not_deleted r = true ∧
              expired now r = true ∧ j_ID r ∉ locked;
  rc_oldest : ∀ r id r', r ∈ rows → jobs d !! id = Some r' → not_deleted r' = true →
              expired now r' = true → id ∉ locked → r' ∉ rows → lease_order r r';
  rc_full : length rows < limit → ∀ id r', jobs d !! id = Some r' → not_deleted r' = true →
              expired now r' = true → id ∉ locked → r' ∈ rows;
  rc_jobs : js ≡ₚ reclaimed opts d <$> rows;
  rc_table : ∀ id, jobs d' !! id =
    (λ r, if decide (r ∈ rows) then Updates (reclaim_columns opts now d r) r else r) <$> jobs d !! id;
  rc_rest : job_runs d' = job_runs d ∧ job_run_finishes d' = job_run_finishes d ∧
            job_audit d' = job_audit d
}.

(** What a dialect owes the shared loop. *)
Class Reclaims (dl : dialect) : Prop := {
  reclaim_ok : ∀ opts locked now limit d js d',
    keyed (jobs d) → reclaimExpired dl opts locked now limit d = (js, d') →
    ∃ locked' rows, locked' ⊆ locked ∧ reclaim_result opts locked' now limit d js d' rows;
  stale_ok : ∀ opts locked now limit d js d' rows r,
    keyed (jobs d) → reclaim_result opts locked now limit d js d' rows →
    staleStub dl js d' r =
      (if bool_decide (r_Outcome r = OutcomeStarted) then
         match jobs d !! r_JobID r with
         | Some j => if decide (j ∈ rows) then
                       if (r_Attempt r =? j_Attempt j)%Z then Some (reclaim_state opts d j) else None
                     else None
         | None => None
         end
       else None)
}.

Section dialects.
Context `{RowOrder}.

Lemma inReclaimOrder_perm opts d rows l :
  l ≡ₚ (λ r, reclaim_row (reclaim_state opts d r) r) <$> rows →
  inReclaimOrder l ≡ₚ reclaimed opts d <$> rows.
Proof.
  intros Hl. unfold inReclaimOrder. rewrite (merge_sort_Permutation reclaim_le l), Hl.
  rewrite <-list_fmap_compose. done.
Qed.

Lemma postgres_spent opts d r :
  (if (0 <? MaxCrashes opts)%Z
   then (j_MaxAttempts r <=? j_Attempt r)%Z || (MaxCrashes opts <=? 1 + count_crashes d (j_ID r))%Z
   else (j_MaxAttempts r <=? j_Attempt r)%Z) = reclaim_spent opts d r.
Proof.
  unfold reclaim_spent, spentAttempts, crashBudgetSpent, earlierCrashes.
  destruct (0 <? MaxCrashes opts)%Z eqn:E.
  - apply Z.ltb_lt in E. by rewrite (proj2 (Z.leb_gt (MaxCrashes opts) 0)) by lia.
  - by rewrite orb_false_r.
Qed.

Lemma postgres_columns opts now d r :
  Updates (postgresReclaimColumns now (reclaim_spent opts d r) r) r =
  Updates (reclaim_columns opts now d r) r.
Proof. unfold reclaim_columns. by destruct (reclaim_spent opts d r). Qed.

(** The page both reclaims take. *)
Lemma reclaim_page now (locked : gset string) limit d (P : jobRow → bool) :
  (∀ r, P r = expired now r && bool_decide (j_ID r ∉ locked)) → keyed (jobs d) →
  let rows := page lease_order limit (select_jobs P d) in
  NoDup (j_ID <$> rows) ∧ length rows ≤ limit ∧
  (∀ r, r ∈ rows → jobs d !! j_ID r = Some r ∧ not_deleted r = true ∧ expired now r = true ∧
     j_ID r ∉ locked) ∧
  (∀ r id r', r ∈ rows → jobs d !! id = Some r' → not_deleted r' = true → expired now r' = true →
     id ∉ locked → r' ∉ rows → lease_order r r') ∧
  (length rows < limit → ∀ id r', jobs d !! id = Some r' → not_deleted r' = true →
     expired now r' = true → id ∉ locked → r' ∈ rows).
Proof.
  intros HP Hk rows.
  destruct (page_select lease_order P limit d Hk) as (Hnd & Hlen & Hin & Hbest & Hfull).
  fold rows in Hnd, Hlen, Hin, Hbest, Hfull.
  assert (∀ r, P r = true ↔ expired now r = true ∧ j_ID r ∉ locked) as HP'.
  { intros r. by rewrite HP, andb_true_iff, bool_decide_eq_true. }
  split_and!; [done|done| | |].
  - intros r Hr. destruct (Hin r Hr) as (? & ? & [? ?]%HP'). done.
  - intros r id r' Hr Hr' ? ? ? Hn. apply (Hbest r id r'); try done. apply HP'. by rewrite (Hk _ _ Hr').
  - intros Hshort id r' Hr' ? ? ?. apply (Hfull Hshort id r'); try done. apply HP'. by rewrite (Hk _ _ Hr').
Qed.

Lemma sqlite_reclaims opts now limit d js d' :
  keyed (jobs d) → sqliteReclaimExpired opts now limit d = (js, d') →
  reclaim_result opts ∅ now limit d js d' (page lease_order limit (select_jobs (expired now) d)).
Proof.
  intros Hk. unfold sqliteReclaimExpired.
  destruct (reclaim_page now ∅ limit d (expired now)) as (? & ? & Hrows & ? & ?); [|done|].
  { intros r. by rewrite bool_decide_true, andb_true_r by set_solver. }
  set (rows := page _ _ _) in *. intros [= <- <-]. split; try done.
  - by apply inReclaimOrder_perm.
  - intros id. simpl. rewrite !lookup_update_where. destruct (jobs d !! id) as [r|] eqn:Hr; [|done].
    simpl. f_equal.
    assert (∀ b, id_in (j_ID <$> filter (λ r, reclaim_spent opts d r = b) rows) r =
      bool_decide (r ∈ rows ∧ reclaim_spent opts d r = b)) as Hid.
    { intros b. rewrite (id_in_spec d _ id); [|done| |done].
      - apply bool_decide_ext. rewrite list_elem_of_filter. tauto.
      - intros x [_ Hx]%list_elem_of_filter. by apply Hrows. }
    rewrite Hid. unfold id_in at 1.
    assert (∀ x, j_ID (if (x : bool) then Updates (reclaimDiscardUpdate now) r else r) = j_ID r) as Hj
      by by intros []. rewrite Hj. fold (id_in (j_ID <$> filter (λ r, reclaim_spent opts d r = false) rows) r).
    rewrite Hid. unfold reclaim_columns.
    destruct (decide (r ∈ rows)) as [Hin|Hn].
    + destruct (Hrows r Hin) as (_ & Hd & _). destruct (reclaim_spent opts d r) eqn:Es.
      * rewrite (bool_decide_false (_ ∧ true = false)), (bool_decide_true (_ ∧ true = true)), Hd by naive_solver.
        done.
      * rewrite (bool_decide_true (_ ∧ false = false)), (bool_decide_false (_ ∧ false = true)), Hd by naive_solver.
        simpl. by rewrite Hd.
    + by rewrite !bool_decide_false by tauto.
Qed.

Lemma postgres_reclaims opts locked now limit d js d' :
  keyed (jobs d) → postgresReclaimExpired opts locked now limit d = (js, d') →
  reclaim_result opts locked now limit d js d' (page lease_order limit
    (select_jobs (λ r, expired now r && bool_decide (j_ID r ∉ locked)) d)).
Proof.
  intros Hk. unfold postgresReclaimExpired.
  destruct (reclaim_page now locked limit d (λ r, expired now r && bool_decide (j_ID r ∉ locked)))
    as (? & ? & Hrows & ? & ?); [done|done|].
  set (rows := page _ _ _) in *. intros [= <- <-]. split; try done.
  - apply inReclaimOrder_perm. rewrite scan_perm. apply Permutation_refl'.
    apply list_fmap_ext. intros i r _. by rewrite postgres_spent.
  - intros id. simpl. rewrite lookup_fmap. destruct (jobs d !! id) as [r|] eqn:Hr; [|done]. simpl.
    f_equal. rewrite (id_in_spec d rows id) by naive_solver. rewrite postgres_spent, postgres_columns.
    destruct (decide (r ∈ rows)); [by rewrite bool_decide_true|by rewrite bool_decide_false].
Qed.

(** The reclaimed jobs are the reclaims of the rows. *)
Lemma elem_of_reclaimed opts locked now limit d js d' rows j :
  reclaim_result opts locked now limit d js d' rows →
  j ∈ js ↔ ∃ r, r ∈ rows ∧ j = reclaimed opts d r.
Proof.
  intros Hrc. rewrite (rc_jobs _ _ _ _ _ _ _ _ Hrc), list_elem_of_fmap. naive_solver.
Qed.

Lemma reclaim_columns_row opts now d r :
  let r' := Updates (reclaim_columns opts now d r) r in
  j_State r' = reclaim_state opts d r ∧ j_LeaseToken r' = None ∧ j_LeasedUntil r' = None ∧
  j_Attempt r' = j_Attempt r ∧ j_MaxAttempts r' = j_MaxAttempts r ∧
  j_FinalizedAt r' = (if reclaim_spent opts d r then Some now else j_FinalizedAt r) ∧
  j_BarrierKind r' = j_BarrierKind r ∧ j_BarrierSpec r' = j_BarrierSpec r.
Proof. unfold reclaim_columns, reclaim_state. by destruct (reclaim_spent opts d r). Qed.

Lemma sqlite_stale opts locked now limit d js d' rows r :
  keyed (jobs d) → reclaim_result opts locked now limit d js d' rows →
  sqliteStaleStub js r =
    (if bool_decide (r_Outcome r = OutcomeStarted) then
       match jobs d !! r_JobID r with
       | Some j => if decide (j ∈ rows) then
                     if (r_Attempt r =? j_Attempt j)%Z then Some (reclaim_state opts d j) else None
                   else None
       | None => None
       end
     else None).
Proof.
  intros Hk Hrc. unfold sqliteStaleStub. destruct (bool_decide _); [|done].
  destruct (list_find _ js) as [[i j]|] eqn:E.
  - apply list_find_Some in E as (Hi & Hid & _). apply list_elem_of_lookup_2 in Hi.
    apply (elem_of_reclaimed _ _ _ _ _ _ _ _ _ Hrc) in Hi as (x & Hx & ->). simpl in *.
    destruct (rc_rows _ _ _ _ _ _ _ _ Hrc x Hx) as (Hl & _). rewrite <-Hid, Hl.
    by rewrite decide_True.
  - apply list_find_None in E. destruct (jobs d !! r_JobID r) as [j|] eqn:Hj; [|done].
    rewrite decide_False; [done|]. intros Hin. rewrite Forall_forall in E.
    eapply (E (reclaimed opts d j)); [|simpl; by apply Hk].
    apply (elem_of_reclaimed _ _ _ _ _ _ _ _ _ Hrc). eauto.
Qed.

Lemma postgres_group opts locked now limit d js d' rows id st :
  keyed (jobs d) → reclaim_result opts locked now limit d js d' rows →
  str_mem id (rj_ID <$> filter (λ j, rj_State j = st) js) =
  match jobs d !! id with
  | Some j => bool_decide (j ∈ rows ∧ reclaim_state opts d j = st)
  | None => false
  end.
Proof.
  intros Hk Hrc. unfold str_mem.
  assert (id ∈ rj_ID <$> filter (λ j, rj_State j = st) js ↔
    ∃ j, jobs d !! id = Some j ∧ j ∈ rows ∧ reclaim_state opts d j = st) as Hiff.
  { rewrite list_elem_of_fmap. split.
    - intros (j & -> & [Hst Hj]%list_elem_of_filter).
      apply (elem_of_reclaimed _ _ _ _ _ _ _ _ _ Hrc) in Hj as (x & Hx & ->).
      destruct (rc_rows _ _ _ _ _ _ _ _ Hrc x Hx) as (Hl & _). eauto.
    - intros (j & Hj & Hin & Hst). exists (reclaimed opts d j). split; [symmetry; by apply Hk|].
      apply list_elem_of_filter. split; [done|]. apply (elem_of_reclaimed _ _ _ _ _ _ _ _ _ Hrc). eauto. }
  destruct (jobs d !! id) as [j|].
  - apply bool_decide_ext. rewrite Hiff. naive_solver.
  - apply bool_decide_false. rewrite Hiff. naive_solver.
Qed.

Lemma postgres_stale opts locked now limit d js d' rows r :
  keyed (jobs d) → reclaim_result opts locked now limit d js d' rows →
  postgresStaleStub js d' r =
    (if bool_decide (r_Outcome r = OutcomeStarted) then
       match jobs d !! r_JobID r with
       | Some j => if decide (j ∈ rows) then
                     if (r_Attempt r =? j_Attempt j)%Z then Some (reclaim_state opts d j) else None
                   else None
       | None => None
       end
     else None).
Proof.
  intros Hk Hrc. unfold postgresStaleStub.
  rewrite !(postgres_group _ _ _ _ _ _ _ _ _ _ Hk Hrc), (rc_table _ _ _ _ _ _ _ _ Hrc).
  destruct (bool_decide (r_Outcome r = OutcomeStarted)); [|done].
  destruct (jobs d !! r_JobID r) as [j|]; [|done]. simpl.
  destruct (decide (j ∈ rows)) as [Hin|Hn]; [|by rewrite !bool_decide_false by tauto].
  destruct (reclaim_columns_row opts now d j) as (_ & _ & _ & -> & _).
  unfold reclaim_state. destruct (reclaim_spent opts d j).
  - rewrite bool_decide_false, bool_decide_true by naive_solver. by destruct (_ =? _)%Z.
  - rewrite bool_decide_true by naive_solver. simpl. destruct (_ =? _)%Z; [done|].
    by rewrite bool_decide_false by naive_solver.
Qed.

(** A batch is reported in one order, whatever order the rows came in. *)
Lemma inReclaimOrder_canonical l k :
  l ≡ₚ k → NoDup (rr_ID <$> l) → inReclaimOrder l = inReclaimOrder k.
Proof.
  intros Hp Hnd. unfold inReclaimOrder. f_equal.
  apply (StronglySorted_unique_strong reclaim_le); try apply StronglySorted_merge_sort; try apply _.
  - intros x y Hx Hy Hxy Hyx. rewrite (merge_sort_Permutation reclaim_le) in Hx, Hy.
    rewrite <-Hp in Hy.
    assert (rr_ID x = rr_ID y) as Hid.
    { unfold reclaim_le in Hxy, Hyx. destruct Hxy as [?|[? ?]], Hyx as [?|[? ?]]; try (exfalso; lia).
      by apply (anti_symm bytes_le). }
    apply list_elem_of_lookup in Hx as [i Hi], Hy as [m Hm].
    assert (i = m) as ->; [|congruence].
    apply (NoDup_lookup (rr_ID <$> l) i m (rr_ID x)); [done|..]; rewrite list_lookup_fmap;
      [by rewrite Hi|rewrite Hm; simpl; by rewrite Hid].
  - by rewrite !(merge_sort_Permutation reclaim_le).
Qed.

(** With no row locked, the two databases reclaim the same jobs, report them in
    the same order and leave the same tables. *)
Lemma dialects_reclaim_alike opts now limit d :
  keyed (jobs d) →
  postgresReclaimExpired opts ∅ now limit d = sqliteReclaimExpired opts now limit d.
Proof.
  intros Hk. destruct (sqliteReclaimExpired opts now limit d) as [js1 d1] eqn:Es.
  destruct (postgresReclaimExpired opts ∅ now limit d) as [js2 d2] eqn:Ep.
  pose proof (sqlite_reclaims _ _ _ _ _ _ Hk Es) as H1.
  pose proof (postgres_reclaims _ _ _ _ _ _ _ Hk Ep) as H2.
  revert Ep. unfold postgresReclaimExpired.
  rewrite (select_jobs_ext (λ r, expired now r && _) (expired now)) in H2;
    [|intros r; by rewrite bool_decide_true, andb_true_r by set_solver].
  rewrite (select_jobs_ext (λ r, expired now r && _) (expired now));
    [|intros r; by rewrite bool_decide_true, andb_true_r by set_solver].
  revert Es. unfold sqliteReclaimExpired. set (rows := page _ _ _) in *.
  intros [= <- Ed1] [= <- Ed2]. f_equal.
  - apply inReclaimOrder_canonical; rewrite scan_perm.
    + apply Permutation_refl', list_fmap_ext. intros i r _. by rewrite postgres_spent.
    + rewrite <-list_fmap_compose. simpl. apply H1.
  - rewrite (with_jobs_eq _ _ (rc_rest _ _ _ _ _ _ _ _ H2)), (with_jobs_eq _ _ (rc_rest _ _ _ _ _ _ _ _ H1)).
    unfold with_jobs. f_equal. apply map_eq. intros id.
    by rewrite (rc_table _ _ _ _ _ _ _ _ H1), (rc_table _ _ _ _ _ _ _ _ H2).
Qed.

#[global] Instance sqlite_Reclaims : Reclaims sqlite.
Proof.
  split; [|intros; by eapply sqlite_stale].
  intros opts locked now limit d js d' Hk Hr. pose proof (sqlite_reclaims _ _ _ _ _ _ Hk Hr).
  exists ∅. eexists. split; [set_solver|done].
Qed.
#[global] Instance postgres_Reclaims : Reclaims postgres.
Proof.
  split; [|intros; by eapply postgres_stale].
  intros opts locked now limit d js d' Hk Hr.
  pose proof (postgres_reclaims _ _ _ _ _ _ _ Hk Hr). eauto.
Qed.
End dialects.

(** ** One batch *)

Section batch_facts.
Context `{Foundation} (opts : DriverOpts) (locked : gset string) (now : Z) (limit : nat).

Definition reclaim_effect (d : db) (rows : list jobRow) (r : jobRow) : jobRow :=
  if decide (r ∈ rows) then Updates (reclaim_columns opts now d r) r else r.

Lemma expired_running r : expired now r = true → j_State r = StateRunning.
Proof. unfold expired. by intros [?%bool_decide_eq_true _]%andb_true_iff. Qed.

Lemma reclaim_safe d r :
  expired now r = true → row_wf r → safe_update (reclaim_columns opts now d r) r.
Proof.
  intros Hrun%expired_running [_ _ Hfin Hbar Hatt].
  destruct (reclaim_columns_row opts now d r) as (Hs & Ht & Hu & Ha & _ & Hf & Hb1 & Hb2).
  unfold final_wf in Hfin. rewrite Hrun in Hfin. simpl in Hfin. unfold reclaim_state in Hs. split.
  - split; [by apply Updates_UniqueKey|]. unfold active_key_of.
    rewrite Updates_UniqueActiveKey, Hs, Hrun. simpl. destruct (reclaim_spent opts d r); auto.
  - split; [by rewrite Hs; destruct (reclaim_spent opts d r)| | |by rewrite Hb1, Hb2|by rewrite Ha].
    + unfold lease_wf. rewrite decide_False; [done|]. rewrite Hs. by destruct (reclaim_spent opts d r).
    + unfold final_wf. rewrite Hs, Hf, Hfin. destruct (reclaim_spent opts d r); simpl; eauto.
Qed.

Lemma wf_reclaim d js d' rows :
  reclaim_result opts locked now limit d js d' rows → db_wf d → db_wf d'.
Proof.
  intros Hrc Hd. rewrite (with_jobs_eq _ _ (rc_rest _ _ _ _ _ _ _ _ Hrc)).
  eapply wf_map; [apply (rc_table _ _ _ _ _ _ _ _ Hrc)| |done]. intros id r Hr. simpl.
  destruct (decide (r ∈ rows)) as [Hin|_].
  - split; [apply Updates_ID|]. destruct (rc_rows _ _ _ _ _ _ _ _ Hrc r Hin) as (_ & _ & He & _).
    apply reclaim_safe; [done|]. by eapply wf_rows.
  - split_and!; eauto using keys_within_refl. by eapply wf_rows.
Qed.

Lemma wf_crashStaleStubs stale d :
  (∀ r, is_Some (stale r) → r_Outcome r = OutcomeStarted) →
  db_wf d → db_wf (crashStaleStubs stale now d).
Proof.
  intros Hst [Hk Hu Hr Hrk Hrw Hf Hat].
  assert (∀ id r', job_runs (crashStaleStubs stale now d) !! id = Some r' →
    ∃ r, job_runs d !! id = Some r ∧
      r' = match stale r with Some st => crash_run now st r | None => r end) as Hinv.
  { intros id r'. simpl. rewrite lookup_fmap. intros (r & -> & ?)%fmap_Some_1. eauto. }
  split; try done.
  - intros id r' (r & Hr' & ->)%Hinv. destruct (stale r); exact (Hrk _ _ Hr').
  - intros id r' (r & Hr' & ->)%Hinv. destruct (stale r); [|by eapply Hrw].
    unfold run_wf. simpl. by split.
  - intros t id. simpl. rewrite elem_of_union, elem_of_list_to_set, list_elem_of_fmap, (Hf t id).
    rewrite lookup_fmap. split.
    + intros [(r & [= -> ->] & [Hsr Hin]%list_elem_of_filter)|(r & Hr' & Ht)].
      * apply list_elem_of_fmap in Hin as ([i x] & -> & Hi%elem_of_map_to_list). simpl in *.
        rewrite (Hrk _ _ Hi), Hi. simpl. destruct Hsr as [st ->]. eexists; by split.
      * rewrite Hr'. simpl. destruct (stale r) eqn:Es; [|by eauto].
        assert (r_Outcome r = OutcomeStarted) as Ho by (apply Hst; by rewrite Es).
        apply (Hrw _ _ Hr') in Ho. congruence.
    + intros (r' & (r & Hr' & ->)%fmap_Some_1 & Ht). destruct (stale r) eqn:Es; [|by eauto].
      left. exists r. simpl in Ht. rewrite (Hrk _ _ Hr'). split; [congruence|].
      apply list_elem_of_filter. split; [by rewrite Es|].
      apply list_elem_of_fmap. exists (id, r). by rewrite elem_of_map_to_list.
  - intros i j a b Ha Hb Hjob Hatt. apply Hinv in Ha as (a0 & Ha & ->).
    apply Hinv in Hb as (b0 & Hb & ->).
    eapply Hat; [done|done|..]; destruct (stale a0), (stale b0); done.
Qed.

Lemma wf_fireBarriers ctx n ps d d' : fireBarriers ctx n ps d = Ok d' → db_wf d → db_wf d'.
Proof.
  revert n d. induction ps as [|[p c] ps IH]; intros n d; simpl; [by intros [= <-]|].
  destruct (fireBarrierIfComplete ctx n p c d) as [[fired d1]|] eqn:E; [|done].
  intros Hf Hd. eapply IH; [done|]. by eapply wf_fireBarrier.
Qed.

Lemma live_fireBarriers X ctx n ps d d' :
  fireBarriers ctx n ps d = Ok d' → db_wf d → barriers_live_but X d →
  barriers_live_but (X ∖ list_to_set ps.*1) d'.
Proof.
  revert X n d. induction ps as [|[p c] ps IH]; intros X n d; simpl.
  - intros [= <-] _ Hl. by rewrite difference_empty_L.
  - destruct (fireBarrierIfComplete ctx n p c d) as [[fired d1]|] eqn:E; [|done].
    intros Hf Hd Hl. rewrite <-difference_difference_l_L. eapply IH; [done|by eapply wf_fireBarrier|].
    eapply live_fire; [apply Hd|done|done].
Qed.

(** The parents a batch checks are those of the jobs it discarded. *)
Lemma elem_of_lastDiscarded js p :
  p ∈ dom (lastDiscarded js) ↔ ∃ j, j ∈ js ∧ rj_ParentJobID j = Some p ∧ rj_State j = StateDiscarded.
Proof.
  unfold lastDiscarded.
  enough (∀ m, p ∈ dom (foldl _ m js) ↔ p ∈ dom m ∨
    ∃ j, j ∈ js ∧ rj_ParentJobID j = Some p ∧ rj_State j = StateDiscarded) as ->.
  { rewrite dom_empty. set_solver. }
  induction js as [|j js IH]; intros m; simpl; [set_solver|]. rewrite IH.
  destruct (rj_ParentJobID j) as [q|] eqn:Eq; [case_bool_decide as Ed|].
  - rewrite dom_insert. split; [|set_solver]. rewrite elem_of_union, elem_of_singleton.
    intros [[->|?]|?]; [right; exists j|..]; set_solver.
  - split; [set_solver|]. intros [?|(x & [->|?]%elem_of_cons & ? & ?)]; [by left|congruence|set_solver].
  - split; [set_solver|]. intros [?|(x & [->|?]%elem_of_cons & ? & ?)]; [by left|congruence|set_solver].
Qed.

Lemma sorted_parents_fst m : list_to_set (sorted_parents m).*1 = dom m.
Proof.
  apply set_eq. intros p. rewrite elem_of_list_to_set. unfold sorted_parents.
  rewrite (merge_sort_Permutation parent_le). rewrite list_elem_of_fmap, elem_of_dom. split.
  - intros ([q c] & -> & ?%elem_of_map_to_list). by eauto.
  - intros [c ?]. exists (p, c). by rewrite elem_of_map_to_list.
Qed.

Lemma live_reclaim d js d' rows :
  reclaim_result opts locked now limit d js d' rows → barriers_live d →
  barriers_live_but (dom (lastDiscarded js)) d'.
Proof.
  intros Hrc Hl. eapply live_map; [apply (rc_table _ _ _ _ _ _ _ _ Hrc)| |by eapply live_weaken; [|exact Hl]; set_solver].
  intros id r Hr. simpl. destruct (decide (r ∈ rows)) as [Hin|_]; [|by auto].
  rewrite Updates_not_deleted.
  destruct (reclaim_columns_row opts now d r) as (Hs & _ & _ & _ & _ & _ & -> & _).
  split_and!; [done|by left|]. intros pid Hpid. unfold pending_child.
  rewrite Updates_ParentJobID, Hs, !andb_true_iff, bool_decide_eq_true. intros [Hp _]. split; [done|].
  unfold reclaim_state. destruct (reclaim_spent opts d r) eqn:Es; [|done]. destruct Hpid.
  apply elem_of_lastDiscarded. exists (reclaimed opts d r). simpl. unfold reclaim_state. rewrite Es.
  split; [|done]. apply (elem_of_reclaimed _ _ _ _ _ _ _ _ _ Hrc). eauto.
Qed.
End batch_facts.

(** ** The backlog a sweep works off *)

(** The live jobs whose lease has expired. *)
Definition backlog (now : Z) (d : db) : gset string :=
  dom (filter (λ kv, expired now kv.2 && not_deleted kv.2 = true) (jobs d)).

Lemma elem_of_backlog now d id :
  id ∈ backlog now d ↔ ∃ r, jobs d !! id = Some r ∧ expired now r = true ∧ not_deleted r = true.
Proof.
  unfold backlog. rewrite elem_of_dom. split.
  - intros [r [Hr [? ?]%andb_true_iff]%map_lookup_filter_Some]. by exists r.
  - intros (r & Hr & He & Hd). exists r. apply map_lookup_filter_Some. split; [done|].
    simpl. by rewrite He, Hd.
Qed.

Section sweep_facts.
Context `{Foundation} (dl : dialect) `{!Reclaims dl}.

(** A batch, taken apart: the reclaim, then, when it took a job, the crashed stubs
    and the barrier checks. *)
Lemma sweepBatch_Ok opts ctx locked now limit d swept d' :
  db_wf d → sweepBatch dl opts ctx locked now limit d = Ok (swept, d') →
  ∃ locked' js d1 rows, locked' ⊆ locked ∧ reclaim_result opts locked' now limit d js d1 rows ∧
    length swept = length rows ∧ sj_JobID <$> swept = rj_ID <$> js ∧ sj_State <$> swept = rj_State <$> js ∧
    ((js = [] ∧ d' = d1) ∨
     (db_wf (crashStaleStubs (staleStub dl js d1) now d1) ∧
      fireDiscardedParentsBarriers ctx js (crashStaleStubs (staleStub dl js d1) now d1) = Ok d')).
Proof.
  intros Hwf. unfold sweepBatch. destruct (reclaimExpired dl opts locked now limit d) as [js d1] eqn:Er.
  destruct (reclaim_ok _ _ _ _ _ _ _ (wf_keyed _ Hwf) Er) as (locked' & rows & Hsub & Hrc).
  assert (length js = length rows) as Hlen.
  { rewrite (rc_jobs _ _ _ _ _ _ _ _ Hrc). by rewrite length_fmap. }
  intros Hsw. exists locked', js, d1, rows. split; [done|]. split; [done|].
  destruct js as [|j js'] eqn:Ejs; [injection Hsw as <- <-; split_and!; by auto|].
  rewrite <-Ejs in *. destruct (fireDiscardedParentsBarriers _ _ _) as [d3|] eqn:Ef; [|done].
  injection Hsw as <- <-. rewrite length_fmap, <-!list_fmap_compose. split_and!; [done..|].
  right. split; [|done]. apply wf_crashStaleStubs; [|by eapply wf_reclaim]. intros r Hst.
  rewrite (stale_ok _ _ _ _ _ _ _ _ _ (wf_keyed _ Hwf) Hrc) in Hst.
  case_bool_decide; [done|by destruct Hst].
Qed.

Lemma wf_sweepBatch opts ctx locked now limit d swept d' :
  sweepBatch dl opts ctx locked now limit d = Ok (swept, d') → db_wf d → db_wf d'.
Proof.
  intros Hs Hwf. apply sweepBatch_Ok in Hs as (l' & js & d1 & rows & _ & Hrc & _ & _ & _ & Hcase); [|done].
  destruct Hcase as [[_ ->]|[Hwf2 Hf]]; [by eapply wf_reclaim|]. by eapply wf_fireBarriers.
Qed.

Lemma live_sweepBatch opts ctx locked now limit d swept d' :
  sweepBatch dl opts ctx locked now limit d = Ok (swept, d') → db_wf d →
  barriers_live d → barriers_live d'.
Proof.
  intros Hs Hwf Hl. apply sweepBatch_Ok in Hs as (l' & js & d1 & rows & _ & Hrc & _ & _ & _ & Hcase); [|done].
  pose proof (live_reclaim _ _ _ _ _ _ _ _ Hrc Hl) as Hl1.
  destruct Hcase as [[-> ->]|[Hwf2 Hf]].
  - eapply live_weaken; [|exact Hl1]. set_solver.
  - eapply live_weaken; [|eapply live_fireBarriers; [exact Hf|done|]].
    2:{ eapply live_jobs; [|exact Hl1]. done. }
    rewrite sorted_parents_fst. set_solver.
Qed.

(** Barrier checks touch no lease. *)
Lemma fireBarriers_backlog ctx n ps now d d' :
  fireBarriers ctx n ps d = Ok d' → backlog now d' = backlog now d.
Proof.
  revert n d. induction ps as [|[p c] ps IH]; intros n d; simpl; [by intros [= <-]|].
  destruct (fireBarrierIfComplete ctx n p c d) as [[fired d1]|] eqn:E; [|done].
  intros ->%IH. apply fireBarrier_Ok in E as [(_ & -> & _)|(_ & _ & k & row & _ & Hc & _ & ->)]; [done|].
  apply set_eq. intros id. rewrite !elem_of_backlog. split.
  - intros (r' & Hr' & He & Hd). apply lookup_update_where_Some in Hr' as (r & Hr & Hcase).
    assert (expired now r = true ∧ not_deleted r = true) as [He' Hd'].
    { destruct Hcase as [[_ ->]|[_ ->]]; [|done]. by rewrite Updates_not_deleted in Hd. }
    apply insert_skipping_inv in Hr as [?|(_ & ->%list_elem_of_singleton & _)]; [by eauto|].
    unfold expired in He'. by rewrite (fr_state _ (cont_fresh _ _ _ Hc)) in He'.
  - intros (r & Hr & He & Hd). apply (insert_skipping_old [row]) in Hr.
    cbn [jobs update_jobs with_jobs]. rewrite lookup_update_where, Hr. simpl. eexists. split; [done|].
    destruct (_ && _); [|done]. by rewrite Updates_not_deleted.
Qed.

(** A batch takes its jobs out of the backlog and adds none. *)
Lemma sweepBatch_backlog opts ctx locked now limit d swept d' :
  db_wf d → sweepBatch dl opts ctx locked now limit d = Ok (swept, d') →
  list_to_set (sj_JobID <$> swept) ⊆ backlog now d ∧ NoDup (sj_JobID <$> swept) ∧
  length swept ≤ limit ∧
  backlog now d' = backlog now d ∖ list_to_set (sj_JobID <$> swept) ∧
  (length swept < limit → backlog now d' ⊆ locked).
Proof.
  intros Hwf (l' & js & d1 & rows & Hl & Hrc & Hlen & Hids & _ & Hcase)%sweepBatch_Ok; [|done].
  assert (∀ id, id ∈ sj_JobID <$> swept ↔ ∃ r, r ∈ rows ∧ id = j_ID r) as Hin.
  { intros id. rewrite Hids, (rc_jobs _ _ _ _ _ _ _ _ Hrc), <-list_fmap_compose, list_elem_of_fmap.
    simpl. naive_solver. }
  assert (backlog now d' = backlog now d1) as ->.
  { destruct Hcase as [[_ ->]|[_ Hf]]; [done|]. unfold fireDiscardedParentsBarriers in Hf.
    apply fireBarriers_backlog with (now := now) in Hf. by rewrite Hf. }
  assert (backlog now d1 = backlog now d ∖ list_to_set (sj_JobID <$> swept)) as Hb.
  { apply set_eq. intros id. rewrite elem_of_difference, elem_of_list_to_set, Hin, !elem_of_backlog.
    rewrite (rc_table _ _ _ _ _ _ _ _ Hrc). split.
    - intros (r' & (r & Hr & ->)%fmap_Some_1 & He & Hd). destruct (decide (r ∈ rows)) as [Hx|Hx].
      + unfold expired in He. destruct (reclaim_columns_row opts now d r) as (_ & _ & Hu & _).
        by rewrite Hu, andb_false_r in He.
      + split; [eauto|]. intros (x & Hxr & ->). destruct (rc_rows _ _ _ _ _ _ _ _ Hrc x Hxr) as (? & _).
        congruence.
    - intros [(r & Hr & He & Hd) Hn]. exists r. rewrite Hr. simpl. rewrite decide_False; [done|].
      intros Hx. apply Hn. exists r. split; [done|]. symmetry. by apply (wf_keyed _ Hwf). }
  split_and!; [|rewrite Hids, (rc_jobs _ _ _ _ _ _ _ _ Hrc), <-list_fmap_compose; by apply Hrc
    |rewrite Hlen; by apply Hrc|done|].
  - intros id. rewrite elem_of_list_to_set, Hin. intros (r & Hr & ->). apply elem_of_backlog.
    destruct (rc_rows _ _ _ _ _ _ _ _ Hrc r Hr) as (? & ? & ? & _). eauto.
  - rewrite Hlen, Hb. intros Hshort id. rewrite elem_of_difference, elem_of_list_to_set, Hin, elem_of_backlog.
    intros [(r & Hr & He & Hd) Hn]. destruct (decide (id ∈ l')) as [?|Hnl]; [set_solver|].
    destruct Hn. exists r. split; [|symmetry; by apply (wf_keyed _ Hwf)].
    by eapply (rc_full _ _ _ _ _ _ _ _ Hrc Hshort).
Qed.

(** Fuel above the backlog is enough, and the loop's report is exactly what left
    the backlog; a sweep that was not interrupted leaves only locked rows. *)
Lemma sweep_run fuel opts ctxs cancelled lockeds k now d :
  db_wf d → size (backlog now d) < fuel →
  ∃ report e d', sweep fuel dl opts ctxs cancelled lockeds k now d = Some (report, e, d') ∧
    db_wf d' ∧ NoDup (sj_JobID <$> report) ∧
    list_to_set (sj_JobID <$> report) ⊆ backlog now d ∧
    backlog now d' = backlog now d ∖ list_to_set (sj_JobID <$> report) ∧
    (e = None → ∃ k', backlog now d' ⊆ lockeds k').
Proof.
  revert k d. induction fuel as [|fuel IH]; intros k d Hwf Hfuel; [lia|]. simpl.
  assert (∀ e : error, NoDup (sj_JobID <$> ([] : list SweptJob)) ∧
    list_to_set (sj_JobID <$> ([] : list SweptJob)) ⊆ backlog now d ∧
    backlog now d = backlog now d ∖ list_to_set (sj_JobID <$> ([] : list SweptJob)) ∧
    (Some e = None → ∃ k', backlog now d ⊆ lockeds k')) as Hstop
    by (intros e; split_and!; [constructor|set_solver..|done]).
  destruct (cancelled k); [exists [], (Some ErrContext), d; split; [done|]; by split|].
  set (n := Z.to_nat (sweepBatchSize opts)).
  destruct (sweepBatch dl opts (ctxs k) (lockeds k) now n d) as [[swept d1]|e] eqn:Eb;
    [|exists [], (Some e), d; split; [done|]; by split].
  pose proof (wf_sweepBatch _ _ _ _ _ _ _ _ Eb Hwf) as Hwf1.
  destruct (sweepBatch_backlog _ _ _ _ _ _ _ _ Hwf Eb) as (Hsub & Hnd & Hlim & Hback & Hshort).
  destruct (Nat.ltb_spec (length swept) n) as [Hlt|Hge].
  { exists swept, None, d1. split_and!; try done. intros _. exists k. by apply Hshort. }
  assert (0 < length swept) as Hpos by (pose proof (driver_bounds_positive opts); unfold n in *; lia).
  destruct (IH (S k) d1 Hwf1) as (rest & e & d2 & Hs & Hwf2 & Hnd2 & Hsub2 & Hback2 & Hend).
  { assert (size (backlog now d1) + length swept = size (backlog now d)) as Hsz; [|lia].
    rewrite Hback, size_difference by done. rewrite size_list_to_set, length_fmap by done.
    pose proof (subseteq_size _ _ Hsub) as Hle. rewrite size_list_to_set, length_fmap in Hle by done. lia. }
  rewrite Hs. exists (swept ++ rest), e, d2. split; [done|].
  rewrite fmap_app, list_to_set_app_L. split_and!; [done| |set_solver|set_solver|done].
  apply NoDup_app. split_and!; [done| |done]. intros id Hin Hin2.
  assert (id ∈ backlog now d1) as Hb1 by (apply Hsub2; by apply elem_of_list_to_set).
  rewrite Hback in Hb1. set_solver.
Qed.

Lemma live_sweep fuel opts ctxs cancelled lockeds k now d report e d' :
  sweep fuel dl opts ctxs cancelled lockeds k now d = Some (report, e, d') → db_wf d →
  barriers_live d → barriers_live d'.
Proof.
  revert k d report. induction fuel as [|fuel IH]; intros k d report; simpl; [done|].
  destruct (cancelled k); [by intros [= <- <- <-]|].
  destruct (sweepBatch _ _ _ _ _ _ _) as [[swept d1]|] eqn:Eb; [|by intros [= <- <- <-]].
  destruct (_ <? _); [intros [= <- <- <-]; by eapply live_sweepBatch|].
  destruct (sweep _ _ _ _ _ _ _ _ _) as [[[rest e'] d2]|] eqn:Es; [|done].
  intros [= <- <- <-] Hwf Hl. eapply IH; [done|by eapply wf_sweepBatch|by eapply live_sweepBatch].
Qed.
End sweep_facts.

(** ** The sweep's theorems *)

(** C10. A sweep ends and reports exactly its work: with more passes than there are
    expired leases it returns; the jobs it reports are, each once, exactly those it
    took out of the backlog; and when neither its context nor the database stopped
    it, whatever is left was locked by another transaction during its last batch. *)
Theorem sweep_drains `{Foundation} (dl : dialect) `{!Reclaims dl} opts ctxs cancelled lockeds now d fuel :
  db_wf d → size (backlog now d) < fuel →
  ∃ report e d', sweep fuel dl opts ctxs cancelled lockeds 0 now d = Some (report, e, d') ∧
    db_wf d' ∧ NoDup (sj_JobID <$> report) ∧
    list_to_set (sj_JobID <$> report) ⊆ backlog now d ∧
    backlog now d' = backlog now d ∖ list_to_set (sj_JobID <$> report) ∧
    (e = None → ∃ k, backlog now d' ⊆ lockeds k).
Proof. apply sweep_run; done. Qed.

(** Both databases keep the reclaim's contract: live, expired, unlocked jobs,
    each once, longest expired first and within the batch; each is discarded when
    its attempts or its crash budget are spent and otherwise made available again,
    always without its lease; a short batch left none behind; nothing else
    changes. *)
Theorem reclaim_contract `{RowOrder} opts locked now limit d :
  keyed (jobs d) →
  (∃ rows, reclaim_result opts ∅ now limit d (sqliteReclaimExpired opts now limit d).1
             (sqliteReclaimExpired opts now limit d).2 rows) ∧
  (∃ rows, reclaim_result opts locked now limit d (postgresReclaimExpired opts locked now limit d).1
             (postgresReclaimExpired opts locked now limit d).2 rows).
Proof.
  intros Hk. split.
  - eexists. eapply sqlite_reclaims; [done|]. apply surjective_pairing.
  - eexists. eapply postgres_reclaims; [done|]. apply surjective_pairing.
Qed.

(** With no row locked, PostgreSQL's one-statement reclaim and SQLite's
    read-then-write reclaim return the same jobs in the same order and leave the
    same tables. *)
Theorem dialects_agree_on_reclaims `{RowOrder} opts now limit d :
  keyed (jobs d) →
  postgresReclaimExpired opts ∅ now limit d = sqliteReclaimExpired opts now limit d.
Proof. apply dialects_reclaim_alike. Qed.

(** The crash budget bounds redelivery: once a job has crashed MaxCrashes - 1
    times before, the reclaim of its next expired lease discards it, whatever its
    attempt ceiling; without a budget only the ceiling does. *)
Theorem crash_budget_bounds opts now d r :
  j_State (Updates (reclaim_columns opts now d r) r) =
    (if bool_decide ((j_MaxAttempts r ≤ j_Attempt r)%Z ∨
          (0 < MaxCrashes opts ∧ MaxCrashes opts ≤ 1 + count_crashes d (j_ID r))%Z)
     then StateDiscarded else StateAvailable) ∧
  j_FinalizedAt (Updates (reclaim_columns opts now d r) r) =
    (if bool_decide ((j_MaxAttempts r ≤ j_Attempt r)%Z ∨
          (0 < MaxCrashes opts ∧ MaxCrashes opts ≤ 1 + count_crashes d (j_ID r))%Z)
     then Some now else j_FinalizedAt r) ∧
  j_LeaseToken (Updates (reclaim_columns opts now d r) r) = None ∧
  j_Attempt (Updates (reclaim_columns opts now d r) r) = j_Attempt r.
Proof.
  assert (reclaim_spent opts d r = bool_decide ((j_MaxAttempts r ≤ j_Attempt r)%Z ∨
    (0 < MaxCrashes opts ∧ MaxCrashes opts ≤ 1 + count_crashes d (j_ID r))%Z)) as Hs.
  { apply eq_bool_prop_intro. rewrite bool_decide_spec, Is_true_true.
    unfold reclaim_spent, spentAttempts, crashBudgetSpent, earlierCrashes.
    rewrite orb_true_iff, andb_true_iff, Z.ltb_lt, !Z.leb_le.
    destruct (Z.leb_spec (MaxCrashes opts) 0); lia. }
  unfold reclaim_columns. rewrite Hs. by case_bool_decide.
Qed.
