(* ===== verification/Client.v ===== *)
(** * Producers: Insert, Enqueue and InsertMany

    internal/core/client.go and batch.go. One insert writes one row or reports
    the job that already holds its key; a bulk insert writes bounded chunks, each
    its own transaction unless the caller supplies one. *)

From S2P Require Import Prelude Types Text Store Insert Barrier.

Record Client := { cl_registry : option Registry; cl_hook : option InsertHook }.

Definition withKindDefaults (c : Client) (kind : string) (o : InsertOpts) : InsertOpts :=
  applyTo (defaultsFor (cl_registry c) kind) o.

(** ** Who holds a key *)

(** [readKeyHolders]: the rows matching either partial index, read without the
    soft-delete scope, folded into one map per index. *)
Record keyHolders := { byKey : gmap string string; byActiveKey : gmap string string }.

Definition holds_any (keys activeKeys : list string) (r : jobRow) : bool :=
  match j_UniqueKey r with Some k => str_mem k keys && negb (is_empty k) | None => false end ||
  match j_UniqueActiveKey r with
  | Some k => str_mem k activeKeys && negb (is_empty k) && state_in (j_State r) NonTerminalStates
  | None => false
  end.

Definition add_holder (keys activeKeys : list string) (h : keyHolders) (r : jobRow) : keyHolders :=
  {| byKey :=
       match j_UniqueKey r with
       | Some k => if str_mem k keys && negb (is_empty k) then <[k := j_ID r]> (byKey h) else byKey h
       | None => byKey h
       end;
     byActiveKey :=
       match j_UniqueActiveKey r with
       | Some k => if str_mem k activeKeys && negb (is_empty k) && state_in (j_State r) NonTerminalStates
                   then <[k := j_ID r]> (byActiveKey h) else byActiveKey h
       | None => byActiveKey h
       end |}.

Definition readKeyHolders `{RowOrder} (d : db) (keys activeKeys : list string) : keyHolders :=
  foldl (add_holder keys activeKeys) {| byKey := ∅; byActiveKey := ∅ |}
    (scan (filter (λ r, holds_any keys activeKeys r = true) (map_to_list (jobs d)).*2)).

(** [holderOf]: the holder's id, and the key it holds. *)
Definition holderOf (h : keyHolders) (uniqueKey activeKey : string) : string * string :=
  let byk := if is_empty uniqueKey then "" else default "" (byKey h !! uniqueKey) in
  if negb (is_empty byk) then (byk, uniqueKey)
  else if negb (is_empty activeKey) then
    let bya := default "" (byActiveKey h !! activeKey) in
    if negb (is_empty bya) then (bya, activeKey) else ("", activeKey)
  else ("", uniqueKey).

Definition alreadyEnqueued `{RowOrder} (d : db) (uniqueKey activeKey : string) : error :=
  let keys := if is_empty uniqueKey then [] else [uniqueKey] in
  let activeKeys := if is_empty activeKey then [] else [activeKey] in
  let '(id, key) := holderOf (readKeyHolders d keys activeKeys) uniqueKey activeKey in
  AlreadyEnqueuedError id key.

Section client.
Context `{Foundation} `{RowOrder}.

(** ** One insert *)

Definition stampFor (c : Client) (ctx : context) (kind : string) (o : InsertOpts)
    (source : InsertSource) (periodicSlug : string) : res (list string * string) :=
  stampRow (cl_hook c)
    {| in_Kind := kind; in_Queue := orString (o_Queue o) defaultQueue; in_Source := source;
       in_SpawnedBy := ""; in_ParentJobID := derefString (o_Parent o);
       in_PeriodicSlug := periodicSlug |}
    (o_Tags o) (o_Metadata o) (orString (o_RequestID o) (c_RequestID ctx)).

(** [Client.insert]: [Ok None] is a collision. A keyed row on the caller's
    transaction goes through the conflict insert and its read-back; any other is
    a plain INSERT whose duplicate-key error is the collision. *)
Definition client_insert (c : Client) (ctx : context) (kind payload : string) (o : InsertOpts)
    (source : InsertSource) (periodicSlug : string) (d : db) : res (option string * db) :=
  let o := withKindDefaults c kind o in
  let? st := stampFor c ctx kind o source periodicSlug in
  let row := buildRow ctx 0 kind payload o st in
  if o_Tx o && (bool_decide (is_Some (j_UniqueKey row)) || bool_decide (is_Some (j_UniqueActiveKey row)))
  then
    let? rows := before_create_all ctx [row] in
    let d' := insertSkippingConflicts rows d in
    match rows with
    | [row'] => if str_mem (j_ID row') (landedRows rows d') then Ok (Some (j_ID row'), d') else Ok (None, d')
    | _ => Ok (None, d')
    end
  else
    let? row' := BeforeCreate (c_Now ctx 0) (c_NewID ctx 0) row in
    match insert_job row' d with
    | Ok d' => Ok (Some (j_ID row'), d')
    | Err ErrDuplicateKey => Ok (None, d)
    | Err e => Err e
    end.

(** [Client.enqueue], the body of Insert and Enqueue. *)
Definition enqueue (c : Client) (ctx : context) (kind payload : string) (o : InsertOpts) (d : db)
  : res (string * db) :=
  let? ' (id, d') := client_insert c ctx kind payload o InsertSourceClient "" d in
  match id with
  | Some id => Ok (id, d')
  | None => Err (alreadyEnqueued d' (o_UniqueKey o) (o_UniqueActiveKey o))
  end.

(** [Insert]: args that name no kind are refused before anything is marshaled. *)
Definition Insert (c : Client) (ctx : context) (kind : option string) (args : goany) (o : InsertOpts)
    (d : db) : res (string * db) :=
  match kind with
  | None => Err ErrMissingKind
  | Some kind =>
    match args with
    | None => Err ErrMarshal
    | Some payload => enqueue c ctx kind payload o d
    end
  end.

Definition Enqueue (c : Client) (ctx : context) (kind args : string) (o : InsertOpts) (d : db)
  : res (string * db) := enqueue c ctx kind args o d.

(** ** Bulk insert *)

Definition jobRowColumns : Z := 24.
Definition defaultPostgresChunk : Z := 1000.
Definition defaultSQLiteChunk : Z := 500.
Definition maxPostgresChunk : Z := 65535 / jobRowColumns.
Definition maxSQLiteChunk : Z := 32766 / jobRowColumns.

Definition chunkSizeFor (dialect : string) (requested : Z) : Z :=
  let '(def, hardMax) :=
    if bool_decide (dialect = "postgres") then (defaultPostgresChunk, maxPostgresChunk)
    else (defaultSQLiteChunk, maxSQLiteChunk) in
  if (requested <=? 0)%Z then def else if (hardMax <? requested)%Z then hardMax else requested.

Record BatchItem := { bi_Kind : string; bi_Args : string; bi_Opts : InsertOpts }.
Record BatchOpts := { bo_ChunkSize : Z; bo_Tx : bool; bo_SkipDuplicates : bool }.
Record BatchResult := {
  br_IDs : list string; br_ExistingIDs : list string; br_Inserted : Z; br_Skipped : Z; br_Chunks : Z
}.

(** Every item is stamped and built before the first chunk is written. *)
Fixpoint buildItems (c : Client) (ctx : context) (n : nat) (items : list BatchItem)
  : res (list jobRow) :=
  match items with
  | [] => Ok []
  | it :: rest =>
    let o := withKindDefaults c (bi_Kind it) (bi_Opts it) in
    let? st := stampFor c ctx (bi_Kind it) o InsertSourceClient "" in
    let? rows := buildItems c ctx (S n) rest in
    Ok (buildRow ctx n (bi_Kind it) (bi_Args it) o st :: rows)
  end.

(** [nameHolders], for one chunk's rows: the holder of each skipped row's key. *)
Definition nameHolders (rows : list jobRow) (landed : list string) (d : db) : list string :=
  let skipped := filter (λ r, str_mem (j_ID r) landed = false) rows in
  let h := readKeyHolders d (omap j_UniqueKey skipped) (omap j_UniqueActiveKey skipped) in
  (λ r, if str_mem (j_ID r) landed then ""
        else (holderOf h (derefString (j_UniqueKey r)) (derefString (j_UniqueActiveKey r))).1) <$> rows.

Definition blank {A} (l : list A) : list string := (λ _, "") <$> l.

(** The chunk loop. A chunk that fails leaves the chunks before it; the ids of the
    rows from it on are cleared. *)
Fixpoint insertManyLoop (fuel : nat) (ctx : context) (skipDuplicates : bool) (chunkSize : nat)
    (rows : list jobRow) (d : db) : BatchResult * option error * db :=
  match fuel, rows with
  | S fuel, _ :: _ =>
    let chunk := take chunkSize rows in
    match conflictInsertChunk ctx chunk d with
    | Err e =>
      ({| br_IDs := blank rows; br_ExistingIDs := blank rows; br_Inserted := 0; br_Skipped := 0;
          br_Chunks := 0 |}, Some e, d)
    | Ok (landed, d1) =>
      let hit := length (filter (λ r, str_mem (j_ID r) landed = true) chunk) in
      let miss := length (filter (λ r, str_mem (j_ID r) landed = false) chunk) in
      let '(rest, e, d2) := insertManyLoop fuel ctx skipDuplicates chunkSize (drop chunkSize rows) d1 in
      ({| br_IDs := ((λ r, if str_mem (j_ID r) landed then j_ID r else "") <$> chunk) ++ br_IDs rest;
          br_ExistingIDs := (if skipDuplicates then blank chunk else nameHolders chunk landed d1) ++
                            br_ExistingIDs rest;
          br_Inserted := (Z.of_nat hit + br_Inserted rest)%Z;
          br_Skipped := ((if skipDuplicates then 0 else Z.of_nat miss) + br_Skipped rest)%Z;
          br_Chunks := (1 + br_Chunks rest)%Z |}, e, d2)
    end
  | _, _ =>
    ({| br_IDs := []; br_ExistingIDs := []; br_Inserted := 0; br_Skipped := 0; br_Chunks := 0 |},
     None, d)
  end.

Definition zero_batch : BatchResult :=
  {| br_IDs := []; br_ExistingIDs := []; br_Inserted := 0; br_Skipped := 0; br_Chunks := 0 |}.

Definition InsertMany (c : Client) (ctx : context) (dialect : string) (items : list BatchItem)
    (o : BatchOpts) (d : db) : BatchResult * option error * db :=
  match items with
  | [] => (zero_batch, None, d)
  | _ =>
    match buildItems c ctx 0 items with
    | Err e => (zero_batch, Some e, d)
    | Ok rows =>
      insertManyLoop (length rows) ctx (bo_SkipDuplicates o)
        (Z.to_nat (chunkSizeFor dialect (bo_ChunkSize o))) rows d
    end
  end.
End client.

(** ** Key holders *)

Section holders.
Context `{RowOrder}.

(** A row of the table that the first index, or the second, counts under [k]. *)
Definition holds_key (d : db) (k id : string) : Prop :=
  ∃ r, jobs d !! id = Some r ∧ key_of r = Some k.
Definition holds_active_key (d : db) (k id : string) : Prop :=
  ∃ r, jobs d !! id = Some r ∧ active_key_of r = Some k.

Lemma add_holders_key keys activeKeys l h k id :
  byKey (foldl (add_holder keys activeKeys) h l) !! k = Some id →
  byKey h !! k = Some id ∨ ∃ r, r ∈ l ∧ j_UniqueKey r = Some k ∧ j_ID r = id.
Proof.
  revert h. induction l as [|r l IH]; intros h; simpl; [auto|]. intros [Hb|(x & ? & ? & ?)]%IH; [|set_solver].
  simpl in Hb. destruct (j_UniqueKey r) as [k'|] eqn:Ek; [|auto].
  destruct (_ && _); [|auto]. apply lookup_insert_Some in Hb as [[-> <-]|[_ ?]]; [|auto]. set_solver.
Qed.

Lemma add_holders_active keys activeKeys l h k id :
  byActiveKey (foldl (add_holder keys activeKeys) h l) !! k = Some id →
  byActiveKey h !! k = Some id ∨ ∃ r, r ∈ l ∧ active_key_of r = Some k ∧ j_ID r = id.
Proof.
  revert h. induction l as [|r l IH]; intros h; simpl; [auto|]. intros [Hb|(x & ? & ? & ?)]%IH; [|set_solver].
  simpl in Hb. destruct (j_UniqueActiveKey r) as [k'|] eqn:Ek; [|auto].
  destruct (str_mem k' activeKeys && negb (is_empty k')); [|auto]. simpl in Hb.
  destruct (state_in (j_State r) NonTerminalStates) eqn:Es; [|auto].
  apply lookup_insert_Some in Hb as [[-> <-]|[_ ?]]; [|auto].
  right. exists r. unfold active_key_of. rewrite Es. set_solver.
Qed.

(** A key once found stays found. *)
Lemma add_holders_mono keys activeKeys l h k :
  (is_Some (byKey h !! k) → is_Some (byKey (foldl (add_holder keys activeKeys) h l) !! k)) ∧
  (is_Some (byActiveKey h !! k) → is_Some (byActiveKey (foldl (add_holder keys activeKeys) h l) !! k)).
Proof.
  revert h. induction l as [|r l IH]; intros h; simpl; [done|].
  destruct (IH (add_holder keys activeKeys h r)) as [IH1 IH2]. split; intros Hk; [apply IH1|apply IH2]; simpl.
  - destruct (j_UniqueKey r); [|done]. destruct (_ && _); [|done]. rewrite lookup_insert. case_decide; eauto.
  - destruct (j_UniqueActiveKey r); [|done]. destruct (_ && _); [|done]. rewrite lookup_insert. case_decide; eauto.
Qed.

Lemma add_holders_found keys activeKeys l h r k :
  r ∈ l → k ≠ "" →
  (j_UniqueKey r = Some k → k ∈ keys →
     is_Some (byKey (foldl (add_holder keys activeKeys) h l) !! k)) ∧
  (active_key_of r = Some k → k ∈ activeKeys →
     is_Some (byActiveKey (foldl (add_holder keys activeKeys) h l) !! k)).
Proof.
  intros Hr Hne. assert (is_empty k = false) as He by (unfold is_empty; by rewrite bool_decide_false).
  revert h. induction Hr as [r l|r y l _ IH]; intros h; simpl; [|apply IH].
  destruct (add_holders_mono keys activeKeys l (add_holder keys activeKeys h r) k) as [M1 M2].
  split; intros Hk Hin; [apply M1|apply M2]; simpl.
  - rewrite Hk, He. unfold str_mem. rewrite bool_decide_true by done. simpl. by rewrite lookup_insert_eq.
  - unfold active_key_of in Hk. destruct (state_in (j_State r) NonTerminalStates); [|done].
    rewrite Hk, He. unfold str_mem. rewrite bool_decide_true by done. simpl. by rewrite lookup_insert_eq.
Qed.

(** The read names a holder exactly when there is one. *)
Lemma readKeyHolders_spec d keys activeKeys k :
  keyed (jobs d) → k ≠ "" →
  (k ∈ keys → match byKey (readKeyHolders d keys activeKeys) !! k with
              | Some id => holds_key d k id | None => ∀ id, ¬ holds_key d k id end) ∧
  (k ∈ activeKeys → match byActiveKey (readKeyHolders d keys activeKeys) !! k with
              | Some id => holds_active_key d k id | None => ∀ id, ¬ holds_active_key d k id end).
Proof.
  intros Hkd Hne. unfold readKeyHolders. set (l := scan _).
  assert (is_empty k = false) as He by (unfold is_empty; by rewrite bool_decide_false).
  assert (∀ r, r ∈ l ↔ holds_any keys activeKeys r = true ∧ ∃ id, jobs d !! id = Some r) as Hl.
  { intros r. unfold l. rewrite scan_perm, list_elem_of_filter, elem_of_table. done. }
  split; intros Hin; destruct (_ !! k) as [id|] eqn:E.
  - apply add_holders_key in E as [?|(r & (_ & i & Hr)%Hl & Hk & <-)]; [by simplify_map_eq|].
    exists r. by rewrite (Hkd _ _ Hr).
  - intros id (r & Hr & Hk). apply eq_None_not_Some in E. apply E.
    apply (add_holders_found keys activeKeys l _ r k); [|done..]. apply Hl. split; [|eauto].
    unfold holds_any, key_of in *. rewrite Hk, He. unfold str_mem. by rewrite bool_decide_true.
  - apply add_holders_active in E as [?|(r & (_ & i & Hr)%Hl & Hk & <-)]; [by simplify_map_eq|].
    exists r. by rewrite (Hkd _ _ Hr).
  - intros id (r & Hr & Hk). apply eq_None_not_Some in E. apply E.
    apply (add_holders_found keys activeKeys l _ r k); [|done..]. apply Hl. split; [|eauto].
    unfold holds_any, active_key_of in *. destruct (state_in (j_State r) NonTerminalStates); [|done].
    rewrite Hk, He. unfold str_mem. rewrite (bool_decide_true (k ∈ activeKeys)) by done.
    by rewrite orb_true_r.
Qed.
End holders.

(** ** One insert, whichever path it takes *)

Section insert_facts.
Context `{Foundation} `{RowOrder}.

(** The id an insert mints is present and unused. *)
Definition fresh_id (ctx : context) (d : db) : Prop :=
  c_NewID ctx 0 ≠ "" ∧ jobs d !! c_NewID ctx 0 = None.

(** The insert as one step: build, check, write or collide. *)
Definition insert_once (c : Client) (ctx : context) (kind payload : string) (o : InsertOpts)
    (source : InsertSource) (slug : string) (d : db) : res (option string * db) :=
  let? st := stampFor c ctx kind (withKindDefaults c kind o) source slug in
  let? row := BeforeCreate (c_Now ctx 0) (c_NewID ctx 0)
                (buildRow ctx 0 kind payload (withKindDefaults c kind o) st) in
  Ok (match insert_job row d with Ok d' => (Some (j_ID row), d') | Err _ => (None, d) end).

Lemma insert_job_Err row d e : insert_job row d = Err e → e = ErrDuplicateKey.
Proof. unfold insert_job. destruct (jobs d !! j_ID row), (index_admits (jobs d) row); congruence. Qed.

Lemma client_insert_once c ctx kind payload o source slug d :
  fresh_id ctx d →
  client_insert c ctx kind payload o source slug d = insert_once c ctx kind payload o source slug d.
Proof.
  intros [Hne Hfree]. unfold client_insert, insert_once.
  destruct (stampFor _ _ _ _ _ _) as [st|]; [|done]. set (row := buildRow _ _ _ _ _ _).
  assert (fresh_row row) as Hfr by apply buildRow_fresh.
  destruct (_ && _).
  - simpl. destruct (BeforeCreate _ _ row) as [row'|] eqn:Eb; [|done].
    apply BeforeCreate_Ok in Eb as (Hid & _ & _ & _ & _ & _ & _ & _ & Hfr').
    assert (j_ID row' = c_NewID ctx 0) as Hid'.
    { rewrite Hid. unfold orString, is_empty. simpl. by rewrite bool_decide_false. }
    assert (landedRows [row'] (insertSkippingConflicts [row'] d) =
      j_ID <$> filter (landed_in (jobs (insertSkippingConflicts [row'] d))) [row']) as ->.
    { apply landedRows_spec; [apply NoDup_singleton|by apply Forall_singleton; rewrite Hid'|].
      by apply Forall_singleton, Hfr'. }
    simpl. unfold insert_skipping1. destruct (insert_job row' d) as [d'|e] eqn:Ei.
    + apply insert_job_Ok in Ei as (_ & _ & ->). rewrite filter_cons_True
        by (unfold landed_in; simpl; by rewrite lookup_insert_eq).
      unfold str_mem. rewrite bool_decide_true by (simpl; left). done.
    + rewrite filter_cons_False; [done|]. unfold landed_in. rewrite Hid'. congruence.
  - destruct (BeforeCreate _ _ row) as [row'|]; [|done].
    destruct (insert_job row' d) as [d'|e] eqn:Ei; [done|]. by rewrite (insert_job_Err _ _ _ Ei).
Qed.

(** What an insert that returned did. *)
Lemma insert_once_Ok c ctx kind payload o source slug d id d' :
  fresh_id ctx d → insert_once c ctx kind payload o source slug d = Ok (id, d') →
  ∃ row, fresh_row row ∧ j_ID row = c_NewID ctx 0 ∧ j_Kind row = kind ∧ j_ParentJobID row = o_Parent o ∧
    j_UniqueKey row = (if is_empty (o_UniqueKey o) then None else Some (o_UniqueKey o)) ∧
    j_UniqueActiveKey row = (if is_empty (o_UniqueActiveKey o) then None else Some (o_UniqueActiveKey o)) ∧
    match id with
    | Some id => id = c_NewID ctx 0 ∧ insert_job row d = Ok d'
    | None => index_admits (jobs d) row = false ∧ d' = d
    end.
Proof.
  intros [Hne Hfree]. unfold insert_once.
  destruct (stampFor _ _ _ _ _ _) as [st|]; [|done]. set (row := buildRow _ _ _ _ _ _).
  destruct (BeforeCreate _ _ row) as [row'|] eqn:Eb; [|done].
  apply BeforeCreate_Ok in Eb as (Hid & Hk & _ & Hp & Hu & Ha & _ & _ & Hfr).
  assert (j_ID row' = c_NewID ctx 0) as Hid'.
  { rewrite Hid. unfold orString, is_empty. simpl. by rewrite bool_decide_false. }
  assert (∀ f : InsertOpts → string, (∀ d o, f (applyTo d o) = f o) →
    f (withKindDefaults c kind o) = f o) as Hopt by (intros f Hf; apply Hf).
  intros Hres. exists row'. split; [by apply Hfr, buildRow_fresh|].
  split_and!; [done|done| | | |].
  - rewrite Hp. simpl. unfold withKindDefaults. by destruct (defaultsFor _ _).
  - rewrite Hu. simpl. by rewrite (Hopt o_UniqueKey) by (intros [] ?; done).
  - rewrite Ha. simpl. by rewrite (Hopt o_UniqueActiveKey) by (intros [] ?; done).
  - destruct (insert_job row' d) as [d1|e] eqn:Ei; injection Hres as <- <-; [done|].
    unfold insert_job in Ei. rewrite Hid', Hfree in Ei. by destruct (index_admits (jobs d) row').
Qed.

(** A row the indexes refuse clashes with a holder of one of its keys. *)
Lemma refused_held d uk ak row :
  index_admits (jobs d) row = false →
  j_UniqueKey row = (if is_empty uk then None else Some uk) →
  j_UniqueActiveKey row = (if is_empty ak then None else Some ak) →
  ∃ i, (uk ≠ "" ∧ holds_key d uk i) ∨ (ak ≠ "" ∧ holds_active_key d ak i).
Proof.
  intros Hadm Huk Hak. apply not_true_iff_false in Hadm. rewrite index_admits_spec in Hadm.
  destruct (decide (map_Exists (λ i r, clashes row r = true) (jobs d))) as [(i & r & Hr & Hc)|Hn].
  - exists i. unfold clashes, same_key in Hc. apply orb_true_iff in Hc as [Hc|Hc].
    + left. unfold key_of in Hc. rewrite Huk in Hc. unfold is_empty in Hc. case_bool_decide; [done|].
      destruct (j_UniqueKey r) eqn:E; [|done]. apply bool_decide_eq_true in Hc as <-. split; [done|].
      by exists r.
    + right. unfold active_key_of in Hc at 1. rewrite Hak in Hc. unfold is_empty in Hc.
      destruct (state_in _ _); [|done]. case_bool_decide; [done|].
      destruct (active_key_of r) eqn:E; [|done]. apply bool_decide_eq_true in Hc as <-. split; [done|].
      by exists r.
  - destruct Hadm. intros i r Hr _. apply not_true_iff_false. intros Hc. apply Hn. by exists i, r.
Qed.

Lemma nonempty s : s ≠ "" → is_empty s = false.
Proof. intros. unfold is_empty. by rewrite bool_decide_false. Qed.

(** A collision is reported with the job that caused it. *)
Lemma alreadyEnqueued_names d uk ak :
  keyed (jobs d) → jobs d !! "" = None →
  (∃ i, (uk ≠ "" ∧ holds_key d uk i) ∨ (ak ≠ "" ∧ holds_active_key d ak i)) →
  ∃ id key, alreadyEnqueued d uk ak = AlreadyEnqueuedError id key ∧
    ((uk ≠ "" ∧ key = uk ∧ holds_key d uk id) ∨ (ak ≠ "" ∧ key = ak ∧ holds_active_key d ak id)).
Proof.
  intros Hk Hnil Hheld. unfold alreadyEnqueued.
  set (keys := if is_empty uk then [] else [uk]). set (aks := if is_empty ak then [] else [ak]).
  destruct (holderOf _ uk ak) as [id key] eqn:E. exists id, key. split; [done|]. revert E.
  assert (∀ k i, holds_key d k i ∨ holds_active_key d k i → is_empty i = false) as Hid.
  { intros k i [(r & Hr & _)|(r & Hr & _)]; apply nonempty; congruence. }
  assert (ak ≠ "" → (∀ i, ¬ holds_key d uk i) ∨ uk = "" → (if negb (is_empty ak)
    then (if negb (is_empty (default "" (byActiveKey (readKeyHolders d keys aks) !! ak)))
          then (default "" (byActiveKey (readKeyHolders d keys aks) !! ak), ak) else ("", ak))
    else ("", uk)) = (id, key) → ak ≠ "" ∧ key = ak ∧ holds_active_key d ak id) as Hactive.
  { intros Ha Hno. rewrite (nonempty ak Ha). simpl.
    destruct (readKeyHolders_spec d keys aks ak Hk Ha) as [_ Hs].
    specialize (Hs ltac:(unfold aks; rewrite (nonempty ak Ha); left)).
    destruct (byActiveKey _ !! ak) as [h|]; simpl.
    - rewrite (Hid ak h) by auto. simpl. by intros [= <- <-].
    - destruct Hheld as [i [[? ?]|[_ ?]]]; [destruct Hno as [Hno|?]; [by destruct (Hno i)|done]|].
      by destruct (Hs i). }
  unfold holderOf. destruct (decide (uk = "")) as [->|Hu].
  - simpl. intros Hres. right. apply Hactive; [|by right|done]. destruct Hheld as [i [[? _]|[? _]]]; done.
  - rewrite (nonempty uk Hu). destruct (readKeyHolders_spec d keys aks uk Hk Hu) as [Hs _].
    specialize (Hs ltac:(unfold keys; rewrite (nonempty uk Hu); left)).
    destruct (byKey _ !! uk) as [h|]; simpl.
    + rewrite (Hid uk h) by auto. simpl. intros [= <- <-]. auto.
    + intros Hres. right. apply Hactive; [|by left|done].
      destruct Hheld as [i [[_ ?]|[? _]]]; [by destruct (Hs i)|done].
Qed.
End insert_facts.

(** ** Bulk insert *)

Section bulk_facts.
Context `{Foundation} `{RowOrder}.

(** A chunk's read-back, in the chunk's own order, counts what the table gained. *)
Lemma chunk_landed ctx rows d landed d1 :
  conflictInsertChunk ctx rows d = Ok (landed, d1) →
  fresh_ids d (j_ID <$> rows) → Forall fresh_row rows →
  length (filter (λ r, str_mem (j_ID r) landed = true) rows) = length landed ∧
  size (jobs d1) = size (jobs d) + length landed.
Proof.
  intros (rows' & Hc & -> & ->)%conflictInsertChunk_Ok [Hnd Hids] Hfr.
  assert (j_ID <$> rows' = j_ID <$> rows) as Hsame.
  { eapply created_ids; [done|]. rewrite Forall_fmap in Hids. eapply Forall_impl; [exact Hids|].
    intros r Hr. exact (proj1 Hr). }
  assert (NoDup (j_ID <$> rows')) as Hnd' by by rewrite Hsame.
  assert (Forall (λ r, jobs d !! j_ID r = None) rows') as Hfree.
  { apply (Forall_fmap j_ID (λ id, jobs d !! id = None)). rewrite Hsame.
    eapply Forall_impl; [exact Hids|]. by intros ? [_ ?]. }
  rewrite landedRows_spec by (done || by eapply created_fresh).
  rewrite length_fmap. split; [|by apply insert_skipping_size].
  set (L := filter (landed_in _) rows').
  transitivity (length (filter (λ id, id ∈ j_ID <$> L) (j_ID <$> rows))).
  - rewrite (filter_ids _ (λ r, str_mem (j_ID r) (j_ID <$> L) = true)), length_fmap; [done|].
    intros r _. unfold str_mem. by rewrite bool_decide_eq_true.
  - rewrite <-Hsame. rewrite (filter_ids _ (landed_in (jobs (insertSkippingConflicts rows' d)))), length_fmap;
      [done|]. intros r Hr. rewrite list_elem_of_fmap. split.
    + intros Hl. exists r. split; [done|]. by apply list_elem_of_filter.
    + intros (x & Hid & [Hlx Hx]%list_elem_of_filter).
      apply list_elem_of_lookup in Hr as [i Hi], Hx as [m Hm].
      assert (i = m) as ->; [|congruence].
      apply (NoDup_lookup (j_ID <$> rows') i m (j_ID r)); [done|..]; rewrite list_lookup_fmap;
        [by rewrite Hi|rewrite Hm; simpl; by rewrite Hid].
Qed.

Lemma filter_split {A} (f : A → bool) l :
  length (filter (λ x, f x = true) l) + length (filter (λ x, f x = false) l) = length l.
Proof.
  induction l as [|x l IH]; [done|]. rewrite !filter_cons. destruct (f x) eqn:E.
  - rewrite decide_True, decide_False by congruence. simpl. lia.
  - rewrite decide_False, decide_True by congruence. simpl. lia.
Qed.

(** The loop accounts for every row, and its count of inserted rows is what the
    table gained even when a later chunk failed. *)
Lemma insertManyLoop_accounts fuel ctx skip c rows d r e d' :
  0 < c → length rows ≤ fuel → fresh_ids d (j_ID <$> rows) → Forall fresh_row rows →
  insertManyLoop fuel ctx skip c rows d = (r, e, d') →
  length (br_IDs r) = length rows ∧ length (br_ExistingIDs r) = length rows ∧
  Z.of_nat (size (jobs d')) = (Z.of_nat (size (jobs d)) + br_Inserted r)%Z ∧
  (e = None → (br_Inserted r + br_Skipped r =
                 if skip then br_Inserted r else Z.of_nat (length rows))%Z ∧
     ∃ rows', Forall2 (created ctx) rows rows' ∧ d' = insertSkippingConflicts rows' d).
Proof.
  intros Hc. revert rows d r e d'. induction fuel as [|fuel IH]; intros rows d r e d' Hlen Hids Hfr.
  { destruct rows; [|simpl in Hlen; lia]. simpl. intros [= <- <- <-]. split_and!; simpl; try done; [lia|].
    intros _. split; [by destruct skip|]. exists []. by split; [constructor|]. }
  destruct rows as [|r0 rows0] eqn:Erows.
  { simpl. intros [= <- <- <-]. split_and!; simpl; try done; [lia|].
    intros _. split; [by destruct skip|]. exists []. by split; [constructor|]. }
  rewrite <-Erows in *. unfold insertManyLoop. fold insertManyLoop. rewrite Erows at 1.
  destruct (conflictInsertChunk ctx (take c rows) d) as [[landed d1]|err] eqn:Ech.
  2:{ intros [= <- <- <-]. cbn [br_IDs br_ExistingIDs br_Inserted]. unfold blank.
      rewrite !length_fmap, Z.add_0_r. by split_and!. }
  rewrite <-(take_drop c rows) in Hids, Hfr.
  assert (fresh_ids d1 (j_ID <$> drop c rows)) as Hids1 by by eapply fresh_ids_after.
  apply Forall_app in Hfr as [Hfr1 Hfr2].
  assert (fresh_ids d (j_ID <$> take c rows)) as Hids0.
  { destruct Hids as [Hn Hf]. rewrite fmap_app in Hn, Hf. apply Forall_app in Hf as [? _].
    apply NoDup_app in Hn as (? & _). by split. }
  destruct (chunk_landed _ _ _ _ _ Ech Hids0 Hfr1) as [Hhit Hsize].
  destruct (insertManyLoop fuel ctx skip c (drop c rows) d1) as [[rest e1] d2] eqn:Er.
  assert (length (drop c rows) ≤ fuel) as Hfuel.
  { rewrite length_drop. assert (length rows = S (length rows0)) by (by rewrite Erows). lia. }
  destruct (IH _ _ _ _ _ Hfuel Hids1 Hfr2 Er) as (Hl1 & Hl2 & Hsz & Hok).
  pose proof (filter_split (λ r, str_mem (j_ID r) landed) (take c rows)) as Hsplit.
  assert (length (take c rows) + length (drop c rows) = length rows) as Htd
    by (rewrite <-length_app, take_drop; done).
  intros [= <- <- <-]. cbn [br_IDs br_ExistingIDs br_Inserted br_Skipped]. rewrite !length_app, !length_fmap, Hl1, Hl2.
  split_and!; [lia| |lia|].
  - destruct skip; unfold blank, nameHolders; rewrite length_fmap; lia.
  - intros He. destruct (Hok He) as (Hsk & rows2 & Hc2 & ->). split; [destruct skip; lia|].
    apply conflictInsertChunk_Ok in Ech as (rows1 & Hc1 & -> & _).
    exists (rows1 ++ rows2). split; [|by rewrite insert_skipping_app].
    rewrite <-(take_drop c rows). by apply Forall2_app.
Qed.

Lemma buildItems_Ok c ctx n items rows :
  buildItems c ctx n items = Ok rows →
  Forall fresh_row rows ∧ j_ID <$> rows = c_NewID ctx <$> seq n (length items).
Proof.
  revert n rows. induction items as [|it items IH]; intros n rows; simpl.
  { intros [= <-]. by split. }
  destruct (stampFor _ _ _ _ _ _) as [st|]; [|done].
  destruct (buildItems _ _ _ _) as [rs|] eqn:E; [|done]. intros [= <-].
  destruct (IH _ _ E) as [Hf Hids]. split; [constructor; [apply buildRow_fresh|done]|].
  rewrite fmap_cons. simpl. by rewrite Hids.
Qed.

Lemma chunkSizeFor_bounds dialect requested :
  (0 < chunkSizeFor dialect requested ∧
   chunkSizeFor dialect requested * jobRowColumns ≤
     (if bool_decide (dialect = "postgres") then 65535 else 32766))%Z.
Proof.
  unfold chunkSizeFor. change maxPostgresChunk with 2730%Z. change maxSQLiteChunk with 1365%Z.
  unfold defaultPostgresChunk, defaultSQLiteChunk, jobRowColumns.
  destruct (bool_decide _), (Z.leb_spec requested 0); try lia;
    match goal with |- context [(?a <? ?b)%Z] => destruct (Z.ltb_spec a b) end; lia.
Qed.

(** Well-formedness and barriers through every producer. *)
Lemma wf_insert_once c ctx kind payload o source slug d id d' :
  fresh_id ctx d → insert_once c ctx kind payload o source slug d = Ok (id, d') → db_wf d → db_wf d'.
Proof.
  intros Hf (row & Hfr & _ & _ & _ & _ & _ & Hcase)%insert_once_Ok Hwf; [|done].
  destruct id; [destruct Hcase as [_ Hi]|by destruct Hcase as [_ ->]].
  eapply wf_insert_job; [by apply fresh_row_wf|done|done].
Qed.
End bulk_facts.

(** ** The producers' theorems *)

Section theorems.
Context `{Foundation} `{RowOrder}.

Lemma stampRow_Err hook info tags meta rid e :
  stampRow hook info tags meta rid = Err e → ∃ field, e = ValidationError field.
Proof.
  unfold stampRow, tagsJSON, metadataJSON. repeat case_match; intros; simplify_eq; eauto.
Qed.

(** An insert that fails before its INSERT failed a check of its input. *)
Lemma insert_once_Err c ctx kind payload o source slug d e :
  insert_once c ctx kind payload o source slug d = Err e → ∃ field, e = ValidationError field.
Proof.
  unfold insert_once. destruct (stampFor _ _ _ _ _ _) as [st|e'] eqn:Es.
  - unfold BeforeCreate. repeat case_match; intros; simplify_eq; eauto.
  - intros [= <-]. by eapply stampRow_Err.
Qed.

Lemma insertManyLoop_rows fuel ctx skip n rows d r e d' :
  insertManyLoop fuel ctx skip n rows d = (r, e, d') →
  ∀ id x, jobs d !! id = Some x → jobs d' !! id = Some x.
Proof.
  revert rows d r e d'. induction fuel as [|fuel IH]; intros rows d r e d'; [by intros [= <- <- <-]|].
  destruct rows as [|r0 rows0]; [by intros [= <- <- <-]|]. cbn [insertManyLoop].
  destruct (conflictInsertChunk _ _ _) as [[landed d1]|] eqn:Ec; [|by intros [= <- <- <-]].
  destruct (insertManyLoop fuel _ _ _ _ d1) as [[rest e1] d2] eqn:El. intros [= <- <- <-] id x Hx.
  eapply IH; [done|]. apply conflictInsertChunk_Ok in Ec as (rows' & _ & -> & _).
  by apply insert_skipping_old.
Qed.


(** The two insert paths are one operation: on a caller's transaction or not,
    keyed or not, an insert has the same result and leaves the same tables. *)
Theorem insert_paths_agree c ctx kind payload o source slug d :
  fresh_id ctx d →
  client_insert c ctx kind payload o source slug d = insert_once c ctx kind payload o source slug d.
Proof. apply client_insert_once. Qed.

(** A bulk insert accounts for every item: it reports one id and one holder
    slot per item; the inserted count is exactly what the table gained, even when
    a later chunk failed; and when it did not fail, inserted and skipped add up to
    the items. *)
Theorem InsertMany_accounts c ctx dialect items o d r e d' :
  fresh_ids d (c_NewID ctx <$> seq 0 (length items)) →
  InsertMany c ctx dialect items o d = (r, e, d') →
  Z.of_nat (size (jobs d')) = (Z.of_nat (size (jobs d)) + br_Inserted r)%Z ∧
  (∀ id x, jobs d !! id = Some x → jobs d' !! id = Some x) ∧
  (e = None → length (br_IDs r) = length items ∧ length (br_ExistingIDs r) = length items ∧
     (bo_SkipDuplicates o = false → br_Inserted r + br_Skipped r = Z.of_nat (length items))%Z).
Proof.
  intros Hids. unfold InsertMany. destruct items as [|it items].
  { intros [= <- <- <-]. split_and!; [simpl; lia|done|]. intros _. by split_and!. }
  destruct (buildItems c ctx 0 (it :: items)) as [rows|] eqn:Eb.
  2:{ intros [= <- <- <-]. split_and!; [simpl; lia|done|done]. }
  apply buildItems_Ok in Eb as [Hfr Hrid]. intros Hl.
  assert (length rows = length (it :: items)) as Hlen.
  { rewrite <-(length_fmap j_ID), Hrid, length_fmap, length_seq. done. }
  pose proof (insertManyLoop_rows _ _ _ _ _ _ _ _ _ Hl) as Hold.
  destruct (chunkSizeFor_bounds dialect (bo_ChunkSize o)) as [Hc _].
  apply insertManyLoop_accounts in Hl as (H1' & H2' & Hsz & Hend); [|lia|done|by rewrite Hrid|done].
  split_and!; [done|done|]. intros He. destruct (Hend He) as [Hsum _]. rewrite H1', H2', Hlen.
  split_and!; [done..|]. intros Hsk. by rewrite Hsk, Hlen in Hsum.
Qed.
End theorems.

(** A chunk never exceeds the database's bind-parameter limit, and is never
    empty, whatever size was asked for. *)
Theorem chunks_fit dialect requested :
  (0 < chunkSizeFor dialect requested ∧
   chunkSizeFor dialect requested * jobRowColumns ≤
     (if bool_decide (dialect = "postgres") then 65535 else 32766))%Z.
Proof. apply chunkSizeFor_bounds. Qed.
