(* ===== verification/Controls.v ===== *)
(** * Operator controls: audit, single-job controls and parent-scoped batches

    internal/core/job_audit.go, job_controls.go, schedule.go (RetryJob, CancelJob,
    Pause/Resume/CancelByParent) and retention.go's deleteJobRows. Each control is
    one transaction: it reads the job under a row lock, refuses from the state it
    read, makes its change and writes one job_audit row, or does none of it. *)

From S2P Require Import Prelude Types Text Store Insert Barrier Claim Sweep Client.

(** ** Actors and the audit *)

Inductive ActorType := ActorUser | ActorAgent | ActorSystem | ActorTypeOther (s : string).
Definition ActorType_Valid (t : ActorType) : bool :=
  match t with ActorTypeOther _ => false | _ => true end.
Definition ActorType_string (t : ActorType) : string :=
  match t with
  | ActorUser => "user" | ActorAgent => "agent" | ActorSystem => "system" | ActorTypeOther s => s
  end.

Definition MaxReasonBytes : nat := Z.to_nat 1024.
Definition MaxActorSourceBytes : nat := 64.

Record Actor := {
  ac_Type : ActorType; ac_ID : string; ac_Reason : string; ac_Source : string; ac_RequestID : string
}.

(** What a control's context carries: the runtime's values, the actor WithActor
    put there, and the host's audit hook, which refuses with [false]. *)
Record control := {
  cc_ctx : context;
  cc_Actor : option Actor;
  cc_AuditHook : option (list jobAuditRow → bool)
}.

Definition resolveActor (cc : control) : res Actor :=
  let actor := default {| ac_Type := ActorSystem; ac_ID := ""; ac_Reason := ""; ac_Source := "";
                          ac_RequestID := "" |} (cc_Actor cc) in
  if negb (ActorType_Valid (ac_Type actor)) then Err (ValidationError "actor.type")
  else if MaxReasonBytes <? String.length (ac_Reason actor) then Err (ValidationError "actor.reason")
  else if MaxActorSourceBytes <? String.length (ac_Source actor) then Err (ValidationError "actor.source")
  else Ok {| ac_Type := ac_Type actor; ac_ID := ac_ID actor; ac_Reason := ac_Reason actor;
             ac_Source := ac_Source actor;
             ac_RequestID := orString (ac_RequestID actor) (c_RequestID (cc_ctx cc)) |}.

(** AuditAction. *)
Definition AuditRetried := "retried".
Definition AuditCancelled := "cancelled".
Definition AuditPaused := "paused".
Definition AuditResumed := "resumed".
Definition AuditDeleted := "deleted".
Definition AuditRescheduled := "rescheduled".
Definition AuditReprioritized := "reprioritized".
Definition AuditTargetJob := "job".

Record auditChange := {
  ch_target : string; ch_targetID : string; ch_action : string; ch_details : gmap string detail
}.

(** The n-th entry of a recordAudit call. *)
Definition audit_row (cc : control) (actor : Actor) (at_ : Z) (n : nat) (c : auditChange) : jobAuditRow :=
  {| a_ID := c_NewID (cc_ctx cc) n; a_CreatedAt := at_; a_TargetType := ch_target c;
     a_TargetID := ch_targetID c; a_Action := ch_action c;
     a_ActorType := ActorType_string (ac_Type actor); a_ActorID := ac_ID actor;
     a_Reason := ac_Reason actor; a_Source := ac_Source actor; a_RequestID := ac_RequestID actor;
     a_Details := ch_details c |}.

(** [recordAudit]: the rows, then the host's hook on the same transaction. *)
Definition recordAudit (cc : control) (actor : Actor) (at_ : Z) (changes : list auditChange) (d : db)
  : res db :=
  match changes with
  | [] => Ok d
  | _ =>
    let rows := imap (audit_row cc actor at_) changes in
    let d' := with_audit (job_audit d ++ rows) d in
    match cc_AuditHook cc with
    | Some hook => if hook rows then Ok d' else Err ErrAuditHook
    | None => Ok d'
    end
  end.

Definition lockJob (d : db) (id : string) : res jobRow :=
  match find_job d id with Some r => Ok r | None => Err ErrJobNotFound end.

(** [updateLockedJob]: guarded on the state read; the unique indexes may refuse. *)
Definition updateLockedJob (job : jobRow) (cols : list jobCol) (d : db) : res db :=
  match find_job d (j_ID job) with
  | Some r => if bool_decide (j_State r = j_State job) then update_checked (j_ID job) cols d
              else Err ErrChangedWhileLocked
  | None => Err ErrChangedWhileLocked
  end.

Definition controlMiss (state : JobState) : error :=
  if bool_decide (state = StateRunning) then ErrJobRunning
  else if state_in state TerminalStates then ErrJobTerminal else ErrJobNotTerminal.

(** ** Single-job controls *)

(** [jobChange]: [None] is the no-op that wrote nothing. *)
Definition jobChange : Type := jobRow → Z → db → res (option (gmap string detail) * db).

Definition controlJob (cc : control) (actor : Actor) (action id : string) (acts : list JobState)
    (change : jobChange) (d : db) : res db :=
  let? job := lockJob d id in
  if negb (state_in (j_State job) acts) then Err (controlMiss (j_State job))
  else
    let now := c_Now (cc_ctx cc) 0 in
    let? ' (details, d1) := change job now d in
    match details with
    | None => Ok d1
    | Some details =>
      recordAudit cc actor now [{| ch_target := AuditTargetJob; ch_targetID := id; ch_action := action; ch_details := details |}] d1
    end.

Definition RescheduleJob (cc : control) (id : string) (at_ : Z) (d : db) : res db :=
  let? actor := resolveActor cc in
  if is_zero_time at_ then Err (ValidationError "at")
  else controlJob cc actor AuditRescheduled id waitingStates (λ job now d,
    let? d1 := updateLockedJob job [ColScheduledAt at_; ColUpdatedAt now] d in
    Ok (Some {["from_state" := DState (j_State job); "from" := DTime (j_ScheduledAt job);
               "to" := DTime at_]}, d1)) d.

Definition SetJobPriority (cc : control) (id : string) (priority : Z) (d : db) : res db :=
  let? actor := resolveActor cc in
  if (priority <? 1)%Z then Err (ValidationError "priority")
  else controlJob cc actor AuditReprioritized id waitingStates (λ job now d,
    if (j_Priority job =? priority)%Z then Ok (None, d)
    else
      let? d1 := updateLockedJob job [ColPriority priority; ColUpdatedAt now] d in
      Ok (Some {["from_state" := DState (j_State job); "from" := DInt (j_Priority job);
                 "to" := DInt priority]}, d1)) d.

Definition PauseJob (cc : control) (id : string) (d : db) : res db :=
  let? actor := resolveActor cc in
  controlJob cc actor AuditPaused id waitingStates (λ job now d,
    if bool_decide (j_State job = StatePaused) then Ok (None, d)
    else
      let? d1 := updateLockedJob job [ColState StatePaused; ColUpdatedAt now] d in
      Ok (Some {["from_state" := DState (j_State job)]}, d1)) d.

Definition ResumeJob (cc : control) (id : string) (d : db) : res db :=
  let? actor := resolveActor cc in
  controlJob cc actor AuditResumed id waitingStates (λ job now d,
    if negb (bool_decide (j_State job = StatePaused)) then Ok (None, d)
    else
      let? d1 := updateLockedJob job [ColState StateAvailable; ColUpdatedAt now] d in
      Ok (Some {["from_state" := DState (j_State job)]}, d1)) d.

(** [deleteJobRows]: the runs' finish-log entries, then the runs, then the jobs,
    past the soft-delete scope; reports how many jobs went. *)
Definition deleteJobRows (ids : list string) (d : db) : Z * db :=
  let gone := filter (λ kv, str_mem (r_JobID kv.2) ids = true) (job_runs d) in
  let keys : gset (Z * string) :=
    list_to_set (omap (λ kv, t ← r_FinishedAt kv.2; Some (t, r_ID kv.2)) (map_to_list gone)) in
  let n := length (filter (λ kv, str_mem (j_ID kv.2) ids = true) (map_to_list (jobs d))) in
  (Z.of_nat n,
   {| jobs := filter (λ kv, str_mem (j_ID kv.2) ids = false) (jobs d);
      job_runs := filter (λ kv, str_mem (r_JobID kv.2) ids = false) (job_runs d);
      job_run_finishes := job_run_finishes d ∖ keys; job_audit := job_audit d |}).

Definition DeleteJob (cc : control) (id : string) (d : db) : res db :=
  let? actor := resolveActor cc in
  controlJob cc actor AuditDeleted id TerminalStates (λ job _ d,
    let '(deleted, d1) := deleteJobRows [j_ID job] d in
    if negb (deleted =? 1)%Z then Err ErrChangedWhileLocked
    else Ok (Some {["from_state" := DState (j_State job); "kind" := DText (j_Kind job);
                    "state" := DState (j_State job)]}, d1)) d.

(** ** Retry *)

Record RetryOpts := {
  ro_Force : bool; ro_AllowRunning : bool; ro_ResetAttempts : bool; ro_Budget : Z; ro_Delay : Z
}.

Definition retryStateStrings (o : RetryOpts) : list JobState :=
  [StateAvailable; StateRetryable; StateScheduled; StatePaused] ++
  (if ro_Force o then TerminalStates else []) ++ (if ro_AllowRunning o then [StateRunning] else []).

Definition applyRetryBudget (o : RetryOpts) : list jobCol :=
  if negb (ro_ResetAttempts o) then []
  else if (ro_Budget o <=? 0)%Z then [ColMaxAttempts (λ r, j_Attempt r + j_MaxAttempts r)%Z]
  else [ColMaxAttempts (λ r, j_Attempt r + ro_Budget o)%Z].

Definition retryUpdates (now : Z) (o : RetryOpts) : list jobCol :=
  [ColState StateAvailable; ColLeasedUntil None; ColLeaseToken None; ColFinalizedAt None;
   ColScheduledAt (now + ro_Delay o)%Z; ColUpdatedAt now] ++ applyRetryBudget o.

Definition retryDetails (from : JobState) (o : RetryOpts) : gmap string detail :=
  {["from_state" := DState from; "force" := DBool (ro_Force o);
    "allow_running" := DBool (ro_AllowRunning o); "reset_attempts" := DBool (ro_ResetAttempts o);
    "budget" := DInt (ro_Budget o); "delay_ms" := DInt (milliseconds (ro_Delay o))]}.

Definition attemptStillRuns (d : db) (job : jobRow) : bool :=
  bool_decide (map_Exists (λ _ r, r_JobID r = j_ID job ∧ r_Attempt r = j_Attempt job ∧
                                  r_Outcome r = OutcomeStarted) (job_runs d)).

(** [retryHolder]: the job whose live key refused the retry. *)
Definition retryHolder `{RowOrder} (d : db) (id : string) : error :=
  match find_job d id with
  | Some r => match j_UniqueActiveKey r with
              | Some k => alreadyEnqueued d "" k
              | None => AlreadyEnqueuedError "" ""
              end
  | None => AlreadyEnqueuedError "" ""
  end.

Definition RetryJobWithOptions `{RowOrder} (cc : control) (id : string) (o : RetryOpts) (d : db) : res db :=
  let? actor := resolveActor cc in
  let attempt :=
    let? job := lockJob d id in
    if negb (state_in (j_State job) (retryStateStrings o)) then Err (controlMiss (j_State job))
    else if bool_decide (j_State job = StateCancelled) && ro_Force o && negb (ro_AllowRunning o) &&
            attemptStillRuns d job then Err ErrJobRunning
    else
      let now := c_Now (cc_ctx cc) 0 in
      let? d1 := updateLockedJob job (retryUpdates now o) d in
      recordAudit cc actor now
        [{| ch_target := AuditTargetJob; ch_targetID := id; ch_action := AuditRetried; ch_details := retryDetails (j_State job) o |}] d1 in
  match attempt with
  | Err ErrDuplicateKey => Err (retryHolder d id)
  | r => r
  end.

Definition RetryJob `{RowOrder} (cc : control) (id : string) (d : db) : res db :=
  RetryJobWithOptions cc id
    {| ro_Force := false; ro_AllowRunning := false; ro_ResetAttempts := false; ro_Budget := 0;
       ro_Delay := 0 |} d.

(** ** Cancel *)

Definition cancelUpdates (now : Z) : list jobCol :=
  [ColState StateCancelled; ColLeasedUntil None; ColLeaseToken None; ColFinalizedAt (Some now);
   ColUpdatedAt now].

(** The context of a control carries no Client, so a continuation it enqueues runs
    no insert hook. *)
Definition hookless (ctx : context) : context :=
  {| c_Now := c_Now ctx; c_NewID := c_NewID ctx; c_RequestID := c_RequestID ctx;
     c_Registry := c_Registry ctx; c_Hook := None; c_GormNow := c_GormNow ctx |}.

Definition CancelJob `{Foundation} (cc : control) (id : string) (d : db) : res db :=
  let? actor := resolveActor cc in
  let? job := lockJob d id in
  if negb (state_in (j_State job) NonTerminalStates) then Err (controlMiss (j_State job))
  else
    let now := c_Now (cc_ctx cc) 0 in
    let? d1 := updateLockedJob job (cancelUpdates now) d in
    let? d2 :=
      match j_ParentJobID job with
      | Some p => let? ' (_, d2) := fireBarrierIfComplete (hookless (cc_ctx cc)) 1 p id d1 in Ok d2
      | None => Ok d1
      end in
    recordAudit cc actor now
      [{| ch_target := AuditTargetJob; ch_targetID := id; ch_action := AuditCancelled;
          ch_details := {["from_state" := DState (j_State job);
                          "was_running" := DBool (bool_decide (j_State job = StateRunning))]} |}] d2.

(** ** Parent-scoped batches *)

Record scopeTransition := {
  t_action : string; t_source : list JobState; t_updates : Z → list jobCol; t_fireBarrier : bool
}.

Definition pauseTransition : scopeTransition :=
  {| t_action := AuditPaused; t_source := [StateAvailable; StateRetryable; StateScheduled];
     t_updates now := [ColState StatePaused; ColUpdatedAt now]; t_fireBarrier := false |}.
Definition resumeTransition : scopeTransition :=
  {| t_action := AuditResumed; t_source := [StatePaused];
     t_updates now := [ColState StateAvailable; ColUpdatedAt now]; t_fireBarrier := false |}.
Definition cancelTransition : scopeTransition :=
  {| t_action := AuditCancelled;
     t_source := [StatePaused; StateAvailable; StateRetryable; StateScheduled];
     t_updates now := [ColState StateCancelled; ColFinalizedAt (Some now); ColLeasedUntil None;
                       ColLeaseToken None; ColUpdatedAt now];
     t_fireBarrier := true |}.

Record ScopeResult := {
  sr_Changed : Z; sr_SkippedTerminal : Z; sr_SkippedRunning : Z; sr_SkippedActiveKey : Z; sr_Batches : Z
}.

Definition defaultScopeBatchSize : Z := 1000.
Definition scope_batchSize (requested : Z) : Z :=
  if (requested <=? 0)%Z then defaultScopeBatchSize else requested.

(** parent_job_id = ? AND state IN ?. *)
Definition scoped (parent : string) (source : list JobState) (r : jobRow) : bool :=
  bool_decide (j_ParentJobID r = Some parent) && state_in (j_State r) source.

Section scope.
Context `{Foundation} `{RowOrder}.

(** [scopeBatch]: how many it selected, how many it changed, whether it fired the
    parent's barrier. *)
Definition scopeBatch (cc : control) (actor : Actor) (parent : string) (t : scopeTransition)
    (batchSize : nat) (now : Z) (d : db) : res (nat * Z * bool * db) :=
  let rows := take batchSize (select_jobs (scoped parent (t_source t)) d) in
  match rows with
  | [] => Ok (0, 0%Z, false, d)
  | _ =>
    let eligible := filter (λ r, state_in (j_State r) (t_source t) = true) rows in
    let d1 := update_jobs (λ r, id_in (j_ID <$> rows) r && state_in (j_State r) (t_source t))
                (t_updates t now) d in
    match eligible with
    | [] => Ok (length rows, 0%Z, false, d1)
    | _ =>
      let? ' (fired, d2) :=
        if t_fireBarrier t
        then fireBarrierIfComplete (hookless (cc_ctx cc)) (length rows) parent "" d1
        else Ok (false, d1) in
      let states : gmap string JobState := list_to_map ((λ r, (j_ID r, j_State r)) <$> rows) in
      let moved := merge_sort bytes_le (j_ID <$> eligible) in
      let changes := (λ id,
        {| ch_target := AuditTargetJob; ch_targetID := id; ch_action := t_action t;
           ch_details :=
             (if bool_decide (t_action t = AuditCancelled) then {["was_running" := DBool false]} else ∅) ∪
             {["from_state" := DState (default (StateOther "") (states !! id));
               "via" := DText "parent"; "parent_job_id" := DText parent]} |}) <$> moved in
      let? d3 := recordAudit cc actor (c_Now (cc_ctx cc) 1) changes d2 in
      Ok (length rows, Z.of_nat (length moved), fired, d3)
    end
  end.

(** The batches of scopeByParent; the k-th runs under its own context. *)
Fixpoint scopeLoop (fuel : nat) (ccs : nat → control) (cancelled : nat → bool) (actor : Actor)
    (parent : string) (t : scopeTransition) (batchSize : nat) (now : Z) (k : nat) (acc : ScopeResult)
    (d : db) : option (ScopeResult * option error * db) :=
  match fuel with
  | O => None
  | S fuel =>
    if cancelled k then Some (acc, Some ErrContext, d)
    else match scopeBatch (ccs k) actor parent t batchSize now d with
    | Err e => Some (acc, Some e, d)
    | Ok (selected, changed, fired, d1) =>
      let acc := {| sr_Changed := (sr_Changed acc + changed)%Z;
                    sr_SkippedTerminal := sr_SkippedTerminal acc;
                    sr_SkippedRunning := sr_SkippedRunning acc;
                    sr_SkippedActiveKey := sr_SkippedActiveKey acc;
                    sr_Batches := if (0 <? changed)%Z then (sr_Batches acc + 1)%Z else sr_Batches acc |} in
      if fired || (selected <? batchSize) then Some (acc, None, d1)
      else scopeLoop fuel ccs cancelled actor parent t batchSize now (S k) acc d1
    end
  end.

Definition zero_scope : ScopeResult :=
  {| sr_Changed := 0; sr_SkippedTerminal := 0; sr_SkippedRunning := 0; sr_SkippedActiveKey := 0;
     sr_Batches := 0 |}.

(** [scopeByParent]: [dead] is ctx.Err() on entry. *)
Definition scopeByParent (fuel : nat) (ccs : nat → control) (dead : bool) (cancelled : nat → bool)
    (parent : string) (batchSize : Z) (t : scopeTransition) (d : db)
  : option (ScopeResult * option error * db) :=
  match resolveActor (ccs 0) with
  | Err e => Some (zero_scope, Some e, d)
  | Ok actor =>
    if dead then Some (zero_scope, Some ErrContext, d)
    else
      scopeLoop fuel ccs cancelled actor parent t (Z.to_nat (scope_batchSize batchSize))
        (c_Now (cc_ctx (ccs 0)) 0) 0
        {| sr_Changed := 0;
           sr_SkippedTerminal := count_jobs (scoped parent TerminalStates) d;
           sr_SkippedRunning := count_jobs (scoped parent [StateRunning]) d;
           sr_SkippedActiveKey := 0; sr_Batches := 0 |} d
  end.

Definition PauseByParent fuel ccs dead cancelled parent batchSize d :=
  scopeByParent fuel ccs dead cancelled parent batchSize pauseTransition d.
Definition ResumeByParent fuel ccs dead cancelled parent batchSize d :=
  scopeByParent fuel ccs dead cancelled parent batchSize resumeTransition d.
Definition CancelByParent fuel ccs dead cancelled parent batchSize d :=
  scopeByParent fuel ccs dead cancelled parent batchSize cancelTransition d.
End scope.

(** ** What a control changes *)

Lemma recordAudit_Ok cc actor at_ changes d d' :
  recordAudit cc actor at_ changes d = Ok d' →
  d' = with_audit (job_audit d ++ imap (audit_row cc actor at_) changes) d.
Proof.
  unfold recordAudit. destruct changes as [|c cs].
  { intros [= <-]. simpl. rewrite app_nil_r. by destruct d. }
  destruct (cc_AuditHook cc) as [h|]; [destruct (h _); [|done]|]; by intros [= <-].
Qed.

Lemma lockJob_Ok d id job : lockJob d id = Ok job ↔ find_job d id = Some job.
Proof. unfold lockJob. destruct (find_job d id); split; congruence. Qed.

(** The locked row is rewritten in place; the guard on its state never misses. *)
Lemma updateLockedJob_Ok job cols d d' :
  keyed (jobs d) → find_job d (j_ID job) = Some job → updateLockedJob job cols d = Ok d' →
  d' = update_jobs (has_id (j_ID job)) cols d ∧ update_checked (j_ID job) cols d = Ok d'.
Proof.
  intros Hk Hf. unfold updateLockedJob. rewrite Hf, bool_decide_true by done.
  intros Hu. split; [|done]. apply find_job_Some in Hf as [Hr Hd]. unfold update_checked in Hu.
  rewrite Hr in Hu. destruct (index_admits _ _); [|done]. injection Hu as <-.
  unfold update_jobs, with_jobs. f_equal. apply map_eq. intros i. rewrite lookup_update_where.
  destruct (decide (i = j_ID job)) as [->|Hne].
  - rewrite lookup_insert_eq, Hr. simpl. unfold has_id. by rewrite bool_decide_true, Hd.
  - rewrite lookup_insert_ne by done. destruct (jobs d !! i) as [r|] eqn:Hi; [|done]. simpl.
    unfold has_id. rewrite bool_decide_false; [done|]. rewrite (Hk _ _ Hi). done.
Qed.

Lemma updateLockedJob_never_misses job cols d :
  find_job d (j_ID job) = Some job → updateLockedJob job cols d ≠ Err ErrChangedWhileLocked.
Proof.
  intros Hf. unfold updateLockedJob. rewrite Hf, bool_decide_true by done. unfold update_checked.
  apply find_job_Some in Hf as [-> _]. by destruct (index_admits _ _).
Qed.

(** A control that changed its job: the row's new columns and one audit row. *)
Record control_effect (cc : control) (actor : Actor) (action id : string) (job : jobRow)
    (cols : list jobCol) (details : gmap string detail) (d d' : db) : Prop := {
  ce_job : find_job d id = Some job;
  ce_jobs : jobs d' = update_where (has_id id) cols (jobs d);
  ce_rest : job_runs d' = job_runs d ∧ job_run_finishes d' = job_run_finishes d;
  ce_audit : job_audit d' = job_audit d ++
    [audit_row cc actor (c_Now (cc_ctx cc) 0) 0
       {| ch_target := AuditTargetJob; ch_targetID := id; ch_action := action; ch_details := details |}];
  ce_checked : update_checked id cols d = Ok (update_jobs (has_id id) cols d)
}.

(** The controls that rewrite one waiting job, as one scheme: [noop] is when the
    control has nothing to do, [cols] what it writes otherwise. *)
Lemma controlJob_update cc actor action id acts (noop : jobRow → bool)
    (cols : Z → list jobCol) (details : jobRow → gmap string detail) d d' :
  keyed (jobs d) →
  controlJob cc actor action id acts (λ job now d,
    if noop job then Ok (None, d)
    else let? d1 := updateLockedJob job (cols now) d in Ok (Some (details job), d1)) d = Ok d' →
  ∃ job, find_job d id = Some job ∧ state_in (j_State job) acts = true ∧
    ((noop job = true ∧ d' = d) ∨
     (noop job = false ∧
      control_effect cc actor action id job (cols (c_Now (cc_ctx cc) 0)) (details job) d d')).
Proof.
  intros Hk. unfold controlJob. destruct (lockJob d id) as [job|] eqn:El; [|done].
  apply lockJob_Ok in El. destruct (state_in (j_State job) acts) eqn:Es; [|done]. cbn [negb].
  intros Hres. exists job. split; [done|]. split; [done|].
  destruct (noop job); [left; by injection Hres as <-|]. right. split; [done|].
  destruct (updateLockedJob _ _ _) as [d1|] eqn:Eu; [|done]. apply recordAudit_Ok in Hres as ->.
  assert (j_ID job = id) as <- by (apply find_job_Some in El as [Hr _]; by apply Hk).
  destruct (updateLockedJob_Ok _ _ _ _ Hk El Eu) as [-> Hc]. by split.
Qed.

Lemma wf_control cc actor action id job cols details d d' :
  control_effect cc actor action id job cols details d d' → db_wf d →
  (row_wf job → row_wf (Updates cols job)) → db_wf d'.
Proof.
  intros [Hf Hj [Hr1 Hr2] Ha Hc] Hd Hrow.
  assert (d' = with_audit (job_audit d') (update_jobs (has_id id) cols d)) as ->.
  { destruct d'. simpl in *. unfold with_audit. simpl. by subst. }
  apply wf_with_audit. eapply wf_update_checked; [|exact Hc|done].
  intros r Hr Hw. apply find_job_Some in Hf as [Hr' _]. simplify_eq. auto.
Qed.

(** Moving a waiting job between waiting states, times or priorities. *)
Lemma row_wf_waiting cols job :
  state_in (j_State job) waitingStates = true → row_wf job →
  state_in (j_State (Updates cols job)) waitingStates = true →
  j_LeaseToken (Updates cols job) = j_LeaseToken job → j_LeasedUntil (Updates cols job) = j_LeasedUntil job →
  j_FinalizedAt (Updates cols job) = j_FinalizedAt job →
  j_BarrierKind (Updates cols job) = j_BarrierKind job → j_BarrierSpec (Updates cols job) = j_BarrierSpec job →
  j_Attempt (Updates cols job) = j_Attempt job → row_wf (Updates cols job).
Proof.
  intros Hs [_ Hl Hf Hb Ha] Hs' Ht Hu Hfin Hbk Hbs Hat.
  assert (∀ s, state_in s waitingStates = true →
    JobState_Valid s = true ∧ s ≠ StateRunning ∧ isTerminalStateString s = false) as Hw.
  { intros s. by destruct s. }
  destruct (Hw _ Hs) as (_ & Hnr & Hnt), (Hw _ Hs') as (Hv' & Hnr' & Hnt').
  unfold lease_wf, final_wf in *. rewrite decide_False in Hl by done. rewrite Hnt in Hf.
  split; [done| | |by rewrite Hbk, Hbs|by rewrite Hat].
  - unfold lease_wf. rewrite decide_False by done. by rewrite Ht, Hu.
  - unfold final_wf. by rewrite Hnt', Hfin.
Qed.

(** ** The waiting-job controls as one family *)

Inductive waitingControl :=
| Reschedule (at_ : Z) | Reprioritize (priority : Z) | Pause | Resume.

Definition run_waiting (cc : control) (c : waitingControl) (id : string) (d : db) : res db :=
  match c with
  | Reschedule at_ => RescheduleJob cc id at_ d
  | Reprioritize p => SetJobPriority cc id p d
  | Pause => PauseJob cc id d
  | Resume => ResumeJob cc id d
  end.

(** What each checks before it reads, when it has nothing to do, what it writes
    and what its audit row says. *)
Definition waiting_valid (c : waitingControl) : option error :=
  match c with
  | Reschedule at_ => if is_zero_time at_ then Some (ValidationError "at") else None
  | Reprioritize p => if (p <? 1)%Z then Some (ValidationError "priority") else None
  | _ => None
  end.
Definition waiting_noop (c : waitingControl) (job : jobRow) : bool :=
  match c with
  | Reschedule _ => false
  | Reprioritize p => (j_Priority job =? p)%Z
  | Pause => bool_decide (j_State job = StatePaused)
  | Resume => negb (bool_decide (j_State job = StatePaused))
  end.
Definition waiting_columns (c : waitingControl) (now : Z) : list jobCol :=
  match c with
  | Reschedule at_ => [ColScheduledAt at_; ColUpdatedAt now]
  | Reprioritize p => [ColPriority p; ColUpdatedAt now]
  | Pause => [ColState StatePaused; ColUpdatedAt now]
  | Resume => [ColState StateAvailable; ColUpdatedAt now]
  end.
Definition waiting_action (c : waitingControl) : string :=
  match c with
  | Reschedule _ => AuditRescheduled | Reprioritize _ => AuditReprioritized
  | Pause => AuditPaused | Resume => AuditResumed
  end.
Definition waiting_details (c : waitingControl) (job : jobRow) : gmap string detail :=
  match c with
  | Reschedule at_ => {["from_state" := DState (j_State job); "from" := DTime (j_ScheduledAt job);
                        "to" := DTime at_]}
  | Reprioritize p => {["from_state" := DState (j_State job); "from" := DInt (j_Priority job);
                        "to" := DInt p]}
  | Pause | Resume => {["from_state" := DState (j_State job)]}
  end.

Lemma run_waiting_Ok cc c id d d' :
  keyed (jobs d) → run_waiting cc c id d = Ok d' →
  ∃ actor job, resolveActor cc = Ok actor ∧ find_job d id = Some job ∧
    state_in (j_State job) waitingStates = true ∧
    ((waiting_noop c job = true ∧ d' = d) ∨
     (waiting_noop c job = false ∧ control_effect cc actor (waiting_action c) id job
        (waiting_columns c (c_Now (cc_ctx cc) 0)) (waiting_details c job) d d')).
Proof.
  intros Hk. destruct c; simpl;
    unfold RescheduleJob, SetJobPriority, PauseJob, ResumeJob;
    (destruct (resolveActor cc) as [actor|]; [|done]);
    try (case_match; [done|]); intros Hc; exists actor.
  - destruct (controlJob_update cc actor AuditRescheduled id waitingStates (λ _, false)
      (waiting_columns (Reschedule at_)) (waiting_details (Reschedule at_)) d d' Hk Hc) as (job & ?). eauto.
  - destruct (controlJob_update cc actor AuditReprioritized id waitingStates _
      (waiting_columns (Reprioritize priority)) (waiting_details (Reprioritize priority)) d d' Hk Hc)
      as (job & ?). eauto.
  - destruct (controlJob_update cc actor AuditPaused id waitingStates _
      (waiting_columns Pause) (waiting_details Pause) d d' Hk Hc) as (job & ?). eauto.
  - destruct (controlJob_update cc actor AuditResumed id waitingStates _
      (waiting_columns Resume) (waiting_details Resume) d d' Hk Hc) as (job & ?). eauto.
Qed.

(** A refusal is decided by the state read, and names it. *)
Lemma run_waiting_refuses cc c id d :
  waiting_valid c = None → (∃ actor, resolveActor cc = Ok actor) →
  match find_job d id with
  | None => run_waiting cc c id d = Err ErrJobNotFound
  | Some job => state_in (j_State job) waitingStates = false →
                run_waiting cc c id d = Err (controlMiss (j_State job))
  end.
Proof.
  intros Hv [actor Ha]. destruct (find_job d id) as [job|] eqn:Ef; [intros Hs|];
  destruct c; simpl in *; unfold RescheduleJob, SetJobPriority, PauseJob, ResumeJob; rewrite Ha;
    try (case_match; [done|]); unfold controlJob, lockJob; rewrite Ef; try done; by rewrite Hs.
Qed.

Lemma waiting_row c now job :
  state_in (j_State job) waitingStates = true → row_wf job →
  row_wf (Updates (waiting_columns c now) job).
Proof. intros Hs Hw. apply row_wf_waiting; try done; destruct c; done. Qed.

Lemma wf_run_waiting cc c id d d' : run_waiting cc c id d = Ok d' → db_wf d → db_wf d'.
Proof.
  intros Hr Hwf. destruct (run_waiting_Ok _ _ _ _ _ (wf_keyed _ Hwf) Hr)
    as (actor & job & _ & Hf & Hs & [[_ ->]|[_ He]]); [done|].
  eapply wf_control; [done|done|]. by apply waiting_row.
Qed.

(** ** Retry *)

Section retry_facts.
Context `{RowOrder}.

Lemma Retry_Ok cc id o d d' :
  keyed (jobs d) → RetryJobWithOptions cc id o d = Ok d' →
  ∃ actor job, resolveActor cc = Ok actor ∧ find_job d id = Some job ∧
    state_in (j_State job) (retryStateStrings o) = true ∧
    (j_State job = StateCancelled → ro_AllowRunning o = false → ro_Force o = true →
       attemptStillRuns d job = false) ∧
    control_effect cc actor AuditRetried id job (retryUpdates (c_Now (cc_ctx cc) 0) o)
      (retryDetails (j_State job) o) d d'.
Proof.
  intros Hk. unfold RetryJobWithOptions. destruct (resolveActor cc) as [actor|]; [|done].
  destruct (lockJob d id) as [job|] eqn:El; [|by destruct e]. apply lockJob_Ok in El.
  destruct (state_in (j_State job) (retryStateStrings o)) eqn:Es.
  2:{ cbn [negb]. unfold controlMiss. by repeat case_match. }
  cbn [negb]. destruct (_ && attemptStillRuns d job) eqn:Ea; [done|].
  assert (j_ID job = id) as <- by (apply find_job_Some in El as [Hr _]; by apply Hk).
  destruct (updateLockedJob _ _ _) as [d1|e] eqn:Eu; [|by destruct e].
  destruct (recordAudit _ _ _ _ d1) as [d2|e] eqn:Er; [|by destruct e].
  intros [= ->]. apply recordAudit_Ok in Er as ->. exists actor, job.
  split_and!; [done..| |].
  - intros Hc Har Hfo. rewrite Hc, Har, Hfo in Ea. by destruct (attemptStillRuns d job).
  - destruct (updateLockedJob_Ok _ _ _ _ Hk El Eu) as [-> Hc]. by split.
Qed.

Lemma retry_row now o job :
  let r := Updates (retryUpdates now o) job in
  j_State r = StateAvailable ∧ j_LeaseToken r = None ∧ j_LeasedUntil r = None ∧ j_FinalizedAt r = None ∧
  j_ScheduledAt r = (now + ro_Delay o)%Z ∧ j_Attempt r = j_Attempt job ∧
  j_BarrierKind r = j_BarrierKind job ∧ j_BarrierSpec r = j_BarrierSpec job ∧
  j_MaxAttempts r =
    (if ro_ResetAttempts o
     then j_Attempt job + (if (ro_Budget o <=? 0)%Z then j_MaxAttempts job else ro_Budget o)
     else j_MaxAttempts job)%Z.
Proof.
  unfold retryUpdates, applyRetryBudget. destruct (ro_ResetAttempts o); [|done].
  by destruct (ro_Budget o <=? 0)%Z.
Qed.

Lemma wf_Retry cc id o d d' : RetryJobWithOptions cc id o d = Ok d' → db_wf d → db_wf d'.
Proof.
  intros Hr Hwf. destruct (Retry_Ok _ _ _ _ _ (wf_keyed _ Hwf) Hr) as (actor & job & _ & _ & _ & _ & He).
  eapply wf_control; [done|done|]. intros [_ _ _ Hb Ha].
  destruct (retry_row (c_Now (cc_ctx cc) 0) o job) as (Hs & Ht & Hu & Hf & _ & Hat & Hbk & Hbs & _).
  split; [by rewrite Hs| | |by rewrite Hbk, Hbs|by rewrite Hat].
  - unfold lease_wf. rewrite decide_False by (rewrite Hs; done). done.
  - unfold final_wf. by rewrite Hs, Hf.
Qed.

(** Returning a job to a live state can only clash on its live key. *)
Lemma revive_clash d id job r' :
  db_wf d → jobs d !! id = Some job → index_admits (jobs d) r' = false → j_ID r' = id →
  j_State r' = StateAvailable → j_UniqueKey r' = j_UniqueKey job →
  j_UniqueActiveKey r' = j_UniqueActiveKey job →
  ∃ i k, j_UniqueActiveKey job = Some k ∧ holds_active_key d k i.
Proof.
  intros Hwf Hr Hadm Hid Hst Huk Hak. apply not_true_iff_false in Hadm. rewrite index_admits_spec in Hadm.
  destruct (decide (map_Exists (λ i r, i ≠ id ∧ clashes r' r = true) (jobs d)))
    as [(i & r & Hr2 & Hi & Hc)|Hn].
  - exists i. unfold clashes in Hc. apply orb_true_iff in Hc as [Hc|Hc].
    + exfalso. pose proof (wf_unique _ Hwf _ _ _ _ Hr Hr2 (not_eq_sym Hi)) as Hu.
      unfold clashes, key_of in Hu, Hc. apply orb_false_iff in Hu as [Hu _]. congruence.
    + unfold active_key_of in Hc at 1. rewrite Hst, Hak in Hc. simpl in Hc. unfold same_key in Hc.
      destruct (j_UniqueActiveKey job) as [k|]; [|done].
      destruct (active_key_of r) eqn:E; [|done]. apply bool_decide_eq_true in Hc as <-.
      exists k. split; [done|]. by exists r.
  - destruct Hadm. intros i r Hr2 Hi. apply not_true_iff_false. intros Hc. apply Hn. exists i, r.
    rewrite Hid in Hi. done.
Qed.

(** A retry refused by the live-key index names the job that holds the key. *)
Lemma retry_collision cc id o d job actor :
  db_wf d → jobs d !! "" = None → resolveActor cc = Ok actor →
  find_job d id = Some job → state_in (j_State job) (retryStateStrings o) = true →
  (j_State job = StateCancelled → ro_AllowRunning o = false → ro_Force o = true →
     attemptStillRuns d job = false) →
  index_admits (jobs d) (Updates (retryUpdates (c_Now (cc_ctx cc) 0) o) job) = false →
  j_UniqueActiveKey job ≠ Some "" →
  ∃ h k, RetryJobWithOptions cc id o d = Err (AlreadyEnqueuedError h k) ∧
    j_UniqueActiveKey job = Some k ∧ holds_active_key d k h.
Proof.
  intros Hwf Hnil Hact Hf Hs Hrun Hadm Hne. unfold RetryJobWithOptions, lockJob. rewrite Hact, Hf, Hs.
  cbn [negb]. apply find_job_Some in Hf as Hf'. destruct Hf' as [Hr Hd].
  pose proof (wf_keyed _ Hwf _ _ Hr) as Hid.
  assert (bool_decide (j_State job = StateCancelled) && ro_Force o && negb (ro_AllowRunning o) &&
    attemptStillRuns d job = false) as ->.
  { case_bool_decide; [|done]. destruct (ro_Force o) eqn:?, (ro_AllowRunning o) eqn:?; simpl; auto. }
  unfold updateLockedJob. rewrite Hid, Hf, bool_decide_true by done. unfold update_checked.
  rewrite Hr, Hadm. unfold retryHolder. rewrite Hf.
  destruct (revive_clash d id job _ Hwf Hr Hadm) as (i & k & Hk & Hh);
    [by rewrite Updates_ID|by apply retry_row|apply Updates_UniqueKey|apply Updates_UniqueActiveKey|].
  rewrite Hk. assert (k ≠ "") as Hkne by congruence.
  destruct (alreadyEnqueued_names d "" k (wf_keyed _ Hwf) Hnil) as (h & key & -> & Hcase); [by eauto|].
  exists h, key. destruct Hcase as [[? _]|(_ & -> & ?)]; done.
Qed.
End retry_facts.

(** ** Cancel *)

Section cancel_facts.
Context `{Foundation}.

(** A cancel that returned: the job's columns, then its parent's barrier check,
    then one audit row. *)
Lemma Cancel_Ok cc id d d' :
  keyed (jobs d) → CancelJob cc id d = Ok d' →
  ∃ actor job d2, resolveActor cc = Ok actor ∧ find_job d id = Some job ∧
    state_in (j_State job) NonTerminalStates = true ∧
    (match j_ParentJobID job with
     | Some p => ∃ fired, fireBarrierIfComplete (hookless (cc_ctx cc)) 1 p id
                   (update_jobs (has_id id) (cancelUpdates (c_Now (cc_ctx cc) 0)) d) = Ok (fired, d2)
     | None => d2 = update_jobs (has_id id) (cancelUpdates (c_Now (cc_ctx cc) 0)) d
     end) ∧
    d' = with_audit (job_audit d2 ++
      [audit_row cc actor (c_Now (cc_ctx cc) 0) 0
         {| ch_target := AuditTargetJob; ch_targetID := id; ch_action := AuditCancelled;
            ch_details := {["from_state" := DState (j_State job);
                            "was_running" := DBool (bool_decide (j_State job = StateRunning))]} |}]) d2.
Proof.
  intros Hk. unfold CancelJob. destruct (resolveActor cc) as [actor|]; [|done].
  destruct (lockJob d id) as [job|] eqn:El; [|done]. apply lockJob_Ok in El.
  destruct (state_in (j_State job) NonTerminalStates) eqn:Es; [|done]. cbn [negb].
  destruct (updateLockedJob _ _ _) as [d1|] eqn:Eu; [|done].
  destruct (match j_ParentJobID job with Some _ => _ | None => _ end) as [d2|] eqn:Ef; [|done].
  intros ->%recordAudit_Ok. exists actor, job, d2. split_and!; [done..| |done].
  assert (j_ID job = id) as Hid by (apply find_job_Some in El as [Hr _]; by apply Hk).
  rewrite <-Hid in El. destruct (updateLockedJob_Ok _ _ _ _ Hk El Eu) as [-> _]. rewrite Hid in Ef.
  destruct (j_ParentJobID job); [|by injection Ef as <-].
  destruct (fireBarrierIfComplete _ _ _ _ _) as [[fired d3]|]; [|done]. injection Ef as <-. eauto.
Qed.

Lemma cancel_row now job :
  row_wf job → row_wf (Updates (cancelUpdates now) job).
Proof.
  intros [_ _ _ Hb Ha]. split; try done. unfold final_wf. simpl. eauto.
Qed.

Lemma cancel_safe now job :
  row_wf job → safe_update (cancelUpdates now) job.
Proof. intros Hw. split; [|by apply cancel_row]. split; [done|]. by right. Qed.

Lemma wf_Cancel cc id d d' : CancelJob cc id d = Ok d' → db_wf d → db_wf d'.
Proof.
  intros Hc Hwf. destruct (Cancel_Ok _ _ _ _ (wf_keyed _ Hwf) Hc) as (actor & job & d2 & _ & _ & _ & Hf & ->).
  apply wf_with_audit.
  assert (db_wf (update_jobs (has_id id) (cancelUpdates (c_Now (cc_ctx cc) 0)) d)) as Hw1.
  { apply wf_update_jobs; [|done]. intros i r _ _ Hw. by apply cancel_safe. }
  destruct (j_ParentJobID job); [|by subst]. destruct Hf as [fired Hf]. by eapply wf_fireBarrier.
Qed.

Lemma live_Cancel cc id d d' :
  CancelJob cc id d = Ok d' → db_wf d → barriers_live d → barriers_live d'.
Proof.
  intros Hc Hwf Hl. pose proof (wf_keyed _ Hwf) as Hk.
  destruct (Cancel_Ok _ _ _ _ Hk Hc) as (actor & job & d2 & _ & Hj & _ & Hf & ->).
  eapply (live_jobs ∅ d2); [done|]. apply find_job_Some in Hj as [Hr Hd].
  set (X := match j_ParentJobID job with Some p => {[p]} | None => ∅ end : gset string).
  assert (barriers_live_but X (update_jobs (has_id id) (cancelUpdates (c_Now (cc_ctx cc) 0)) d)) as Hl1.
  { apply live_update; [|by eapply live_weaken; [|exact Hl]; set_solver].
    intros i r Hi Hid. split; [by left|]. unfold has_id in Hid. apply bool_decide_eq_true in Hid.
    assert (r = job) as -> by (rewrite <-Hid, (Hk _ _ Hi) in Hr; congruence).
    intros pid Hpid. unfold pending_child. rewrite !andb_true_iff, bool_decide_eq_true. intros [Hp _].
    destruct Hpid. unfold X. rewrite Hp. set_solver. }
  unfold X in Hl1. destruct (j_ParentJobID job) as [p|]; [|by subst]. destruct Hf as [fired Hf].
  eapply live_weaken; [|eapply live_fire; [|exact Hf|exact Hl1]]; [set_solver|].
  by apply keyed_update_where.
Qed.
End cancel_facts.

(** ** Delete *)

Lemma deleteJobRows_finishes ids d t id :
  (t, id) ∈ (list_to_set (omap (λ kv : string * jobRunRow, t ← r_FinishedAt kv.2; Some (t, r_ID kv.2))
    (map_to_list (filter (λ kv, str_mem (r_JobID kv.2) ids = true) (job_runs d)))) : gset (Z * string)) ↔
  ∃ i r, job_runs d !! i = Some r ∧ str_mem (r_JobID r) ids = true ∧ r_FinishedAt r = Some t ∧ r_ID r = id.
Proof.
  rewrite elem_of_list_to_set, list_elem_of_omap. split.
  - intros ([i r] & Hin & Hs). apply elem_of_map_to_list, map_lookup_filter_Some in Hin as [Hi Hm].
    simpl in *. destruct (r_FinishedAt r) eqn:E; [|done]. simplify_eq/=. eauto 6.
  - intros (i & r & Hi & Hm & Ht & Hid). exists (i, r). simpl. rewrite Ht, elem_of_map_to_list,
      map_lookup_filter_Some. simpl. by rewrite Hid.
Qed.

Lemma wf_deleteJobRows ids d : db_wf d → db_wf (deleteJobRows ids d).2.
Proof.
  intros [Hk Hu Hr Hrk Hrw Hf Hat]. split; simpl.
  - intros id r [H1 _]%map_lookup_filter_Some. eauto.
  - intros i j a b [Ha _]%map_lookup_filter_Some [Hb _]%map_lookup_filter_Some. eauto.
  - intros id r [H1 _]%map_lookup_filter_Some. eauto.
  - intros id r [H1 _]%map_lookup_filter_Some. eauto.
  - intros id r [H1 _]%map_lookup_filter_Some. eauto.
  - intros t id. simpl. rewrite elem_of_difference, deleteJobRows_finishes, (Hf t id). split.
    + intros [(r & Hi & Ht) Hn]. exists r. rewrite map_lookup_filter_Some. simpl. split_and!; try done.
      apply not_true_iff_false. intros Hm. apply Hn. exists id, r. by rewrite (Hrk _ _ Hi).
    + intros (r & [Hi Hm]%map_lookup_filter_Some & Ht). split; [eauto|].
      intros (i & r2 & Hi2 & Hm2 & _ & Hid). rewrite (Hrk _ _ Hi2) in Hid. simplify_eq. simpl in Hm. congruence.
  - intros i j a b [Ha _]%map_lookup_filter_Some [Hb _]%map_lookup_filter_Some. eauto.
Qed.

Lemma deleteJobRows_jobs id d :
  keyed (jobs d) → jobs (deleteJobRows [id] d).2 = delete id (jobs d).
Proof.
  intros Hk. simpl. apply map_eq. intros i. rewrite map_lookup_filter.
  destruct (decide (i = id)) as [->|Hne].
  - rewrite lookup_delete_eq. destruct (jobs d !! id) as [r|] eqn:E; [|done]. simpl.
    rewrite (Hk _ _ E). unfold str_mem. by rewrite bool_decide_true by set_solver.
  - rewrite lookup_delete_ne by done. destruct (jobs d !! i) as [r|] eqn:Hi; [|done]. simpl.
    rewrite (Hk _ _ Hi). unfold str_mem. by rewrite bool_decide_false by set_solver.
Qed.

Lemma Delete_Ok cc id d d' :
  keyed (jobs d) → DeleteJob cc id d = Ok d' →
  ∃ actor job, resolveActor cc = Ok actor ∧ find_job d id = Some job ∧
    state_in (j_State job) TerminalStates = true ∧
    jobs d' = delete id (jobs d) ∧ job_runs d' = job_runs (deleteJobRows [id] d).2 ∧
    job_run_finishes d' = job_run_finishes (deleteJobRows [id] d).2 ∧
    job_audit d' = job_audit d ++ [audit_row cc actor (c_Now (cc_ctx cc) 0) 0
      {| ch_target := AuditTargetJob; ch_targetID := id; ch_action := AuditDeleted;
         ch_details := {["from_state" := DState (j_State job); "kind" := DText (j_Kind job);
                         "state" := DState (j_State job)]} |}].
Proof.
  intros Hk. unfold DeleteJob. destruct (resolveActor cc) as [actor|]; [|done].
  unfold controlJob. destruct (lockJob d id) as [job|] eqn:El; [|done]. apply lockJob_Ok in El.
  destruct (state_in (j_State job) TerminalStates) eqn:Es; [|done]. cbn [negb].
  apply find_job_Some in El as El'. destruct El' as [Hr _]. rewrite (Hk _ _ Hr).
  destruct (deleteJobRows [id] d) as [n d1] eqn:Ed. destruct (negb _); [done|].
  assert (d1 = (deleteJobRows [id] d).2) as -> by (by rewrite Ed). clear Ed.
  intros ->%recordAudit_Ok. exists actor, job. split_and!; try done. by apply deleteJobRows_jobs.
Qed.

Lemma wf_Delete cc id d d' : DeleteJob cc id d = Ok d' → db_wf d → db_wf d'.
Proof.
  intros Hd Hwf. destruct (Delete_Ok _ _ _ _ (wf_keyed _ Hwf) Hd) as (actor & job & _ & _ & _ & Hj & Hr & Hf & Ha).
  pose proof (wf_deleteJobRows [id] d Hwf) as Hw.
  pose proof (deleteJobRows_jobs id d (wf_keyed _ Hwf)) as Hj2.
  assert (d' = with_audit (job_audit d') (deleteJobRows [id] d).2) as ->.
  { destruct d' as [j r f a]. unfold with_audit. simpl in *. by rewrite Hj, <-Hj2, Hr, Hf. }
  by apply wf_with_audit.
Qed.

(** Only a terminal job goes, so no pending child is lost. *)
Lemma live_Delete cc id d d' :
  DeleteJob cc id d = Ok d' → db_wf d → barriers_live d → barriers_live d'.
Proof.
  intros Hd Hwf Hl. destruct (Delete_Ok _ _ _ _ (wf_keyed _ Hwf) Hd) as (actor & job & _ & Hfj & Hs & Hj & _).
  apply find_job_Some in Hfj as [Hr _].
  intros pid Hpid [kind (p & Hp & Hdp & Hkp)%barrier_of_Some]. rewrite Hj in Hp.
  apply lookup_delete_Some in Hp as [Hne Hp].
  assert (is_Some (barrier_of d pid)) as Hb by (exists kind; apply barrier_of_Some; eauto).
  specialize (Hl pid Hpid Hb). apply count_jobs_pos in Hl as (i & c & Hc & Hpc & Hdc).
  apply count_jobs_pos. exists i, c. rewrite Hj, lookup_delete_ne; [done|]. intros ->. simplify_eq.
  unfold pending_child in Hpc. by rewrite Hs, andb_false_r in Hpc.
Qed.

(** ** Parent-scoped batches *)

Section scope_facts.
Context `{Foundation} `{RowOrder}.

(** The children a transition still has to move. *)
Definition scope_ids (parent : string) (source : list JobState) (d : db) : gset string :=
  dom (filter (λ kv, scoped parent source kv.2 && not_deleted kv.2 = true) (jobs d)).

Lemma elem_of_scope_ids parent source d id :
  id ∈ scope_ids parent source d ↔
  ∃ r, jobs d !! id = Some r ∧ scoped parent source r = true ∧ not_deleted r = true.
Proof.
  unfold scope_ids. rewrite elem_of_dom. split.
  - intros [r [Hr [? ?]%andb_true_iff]%map_lookup_filter_Some]. by exists r.
  - intros (r & Hr & He & Hd). exists r. apply map_lookup_filter_Some. simpl. by rewrite He, Hd.
Qed.

(** What the three transitions have in common: they move waiting children out of
    their source, and only the cancel ends them. *)
Record transition_ok (t : scopeTransition) : Prop := {
  tr_source : ∀ s, state_in s (t_source t) = true → state_in s waitingStates = true;
  tr_leaves : ∀ now r, state_in (j_State (Updates (t_updates t now) r)) (t_source t) = false;
  tr_safe : ∀ now r, state_in (j_State r) (t_source t) = true → row_wf r → safe_update (t_updates t now) r;
  tr_keeps : ∀ now r, j_BarrierKind (Updates (t_updates t now) r) = j_BarrierKind r ∧
               (j_LeaseToken r = None → j_LeaseToken (Updates (t_updates t now) r) = None) ∧
               j_Attempt (Updates (t_updates t now) r) = j_Attempt r;
  tr_live : t_fireBarrier t = false → ∀ now r,
              state_in (j_State (Updates (t_updates t now) r)) TerminalStates = false
}.

Lemma waiting_safe cols r :
  state_in (j_State r) waitingStates = true → state_in (j_State (Updates cols r)) waitingStates = true →
  row_wf (Updates cols r) → safe_update cols r.
Proof.
  intros Hs Hs' Hw. split; [|done]. split; [apply Updates_UniqueKey|]. left. unfold active_key_of.
  rewrite Updates_UniqueActiveKey. destruct (j_State r), (j_State (Updates cols r)); done.
Qed.

Lemma pause_transition_ok : transition_ok pauseTransition.
Proof.
  split; try done; [by intros []|]. intros now r Hs Hw.
  assert (state_in (j_State r) waitingStates = true) by by destruct (j_State r).
  apply waiting_safe; try done. by apply (waiting_row Pause).
Qed.
Lemma resume_transition_ok : transition_ok resumeTransition.
Proof.
  split; try done; [by intros []|]. intros now r Hs Hw.
  assert (state_in (j_State r) waitingStates = true) by by destruct (j_State r).
  apply waiting_safe; try done. by apply (waiting_row Resume).
Qed.
Lemma cancel_transition_ok : transition_ok cancelTransition.
Proof.
  split; try done; [by intros []|]. intros now r Hs Hw. split; [split; [done|by right]|].
  destruct Hw as [_ _ _ Hb Ha]. split; try done. unfold final_wf. simpl. eauto.
Qed.

Section batch.
Context (cc : control) (actor : Actor) (parent : string) (t : scopeTransition) (Ht : transition_ok t)
        (n : nat) (now : Z) (d : db) (Hwf : db_wf d).
Context (sel : nat) (ch : Z) (fired : bool) (d' : db)
        (Hb : scopeBatch cc actor parent t n now d = Ok (sel, ch, fired, d')).

Definition scope_rows : list jobRow := take n (select_jobs (scoped parent (t_source t)) d).
Definition scope_update : db :=
  update_jobs (λ r, id_in (j_ID <$> scope_rows) r && state_in (j_State r) (t_source t))
    (t_updates t now) d.

Lemma scope_rows_in r : r ∈ scope_rows →
  jobs d !! j_ID r = Some r ∧ not_deleted r = true ∧ j_ParentJobID r = Some parent ∧
  state_in (j_State r) (t_source t) = true.
Proof.
  intros Hr. assert (r ∈ select_jobs (scoped parent (t_source t)) d) as Hin
    by (eapply subseteq_take; exact Hr).
  apply elem_of_select in Hin as ([Hp Hs]%andb_true_iff & Hd & id & Hl).
  pose proof (wf_keyed _ Hwf _ _ Hl). subst id. apply bool_decide_eq_true in Hp. done.
Qed.

(** Every selected row is still eligible inside the transaction, so the batch
    changes exactly what it selected, one audit row each. *)
Lemma scopeBatch_Ok :
  sel = length scope_rows ∧ ch = Z.of_nat sel ∧
  ∃ d2 entries, d' = with_audit (job_audit d ++ entries) d2 ∧ length entries = sel ∧
    job_runs d2 = job_runs d ∧
    (if t_fireBarrier t && negb (bool_decide (sel = 0))
     then fireBarrierIfComplete (hookless (cc_ctx cc)) (length scope_rows) parent "" scope_update =
            Ok (fired, d2)
     else fired = false ∧ d2 = scope_update).
Proof.
  revert Hb. unfold scopeBatch. fold scope_rows.
  destruct scope_rows as [|r0 rows0] eqn:Erows.
  { intros [= <- <- <- <-]. split_and!; [done..|]. exists scope_update, [].
    assert (scope_update = d) as ->.
    { apply update_jobs_none, count_jobs_zero. intros id r _. unfold id_in, str_mem.
      rewrite Erows. by rewrite bool_decide_false by set_solver. }
    rewrite app_nil_r, andb_false_r. by destruct d. }
  rewrite <-Erows in *.
  assert (filter (λ r, state_in (j_State r) (t_source t) = true) scope_rows = scope_rows) as ->.
  { apply filter_all, Forall_forall. intros r Hr. by apply scope_rows_in. }
  rewrite Erows at 1. fold scope_update.
  destruct (if t_fireBarrier t then _ else _) as [[f d2]|] eqn:Ef; [|done].
  destruct (recordAudit _ _ _ _ d2) as [d3|] eqn:Er; [|done]. intros [= <- <- <- <-].
  apply recordAudit_Ok in Er.
  assert (length (merge_sort bytes_le (j_ID <$> scope_rows)) = length scope_rows) as Hlen
    by (rewrite (merge_sort_Permutation bytes_le); apply length_fmap).
  assert (job_audit d2 = job_audit d ∧ job_runs d2 = job_runs d) as [Ha Hr2].
  { destruct (t_fireBarrier t); [|by injection Ef as <- <-].
    apply fireBarrier_Ok in Ef as [(_ & -> & _)|(_ & _ & k & row & _ & _ & _ & ->)]; [done|].
    destruct (insert_skipping_rest [row] scope_update) as (H1 & _ & H3). simpl in *. by rewrite H1, H3. }
  split; [done|]. split; [by rewrite Hlen|].
  exists d2. eexists. rewrite <-Ha. split; [exact Er|]. rewrite length_imap, length_fmap, Hlen.
  split_and!; [done|done|]. rewrite (bool_decide_false (length scope_rows = 0)) by (rewrite Erows; done).
  rewrite andb_true_r. destruct (t_fireBarrier t); [done|]. by injection Ef as <- <-.
Qed.

(** A row the batch's UPDATE selects is one of its rows. *)
Lemma scope_selected id r :
  jobs d !! id = Some r →
  id_in (j_ID <$> scope_rows) r && state_in (j_State r) (t_source t) = bool_decide (r ∈ scope_rows).
Proof.
  intros Hr. rewrite (id_in_spec d scope_rows id r (wf_keyed _ Hwf)); [|apply scope_rows_in|done].
  case_bool_decide as Hin; [|done]. by destruct (scope_rows_in r Hin) as (_ & _ & _ & ->).
Qed.

Lemma wf_scope_update : db_wf scope_update.
Proof.
  apply wf_update_jobs; [|done]. intros id r Hr [_ Hs]%andb_true_iff Hw. by apply (tr_safe t Ht).
Qed.

Lemma wf_scopeBatch : db_wf d'.
Proof.
  destruct scopeBatch_Ok as (_ & _ & d2 & es & -> & _ & _ & Hd2). apply wf_with_audit.
  destruct (_ && _); [eapply wf_fireBarrier; [exact Hd2|apply wf_scope_update]|].
  destruct Hd2 as [_ ->]. apply wf_scope_update.
Qed.

Lemma live_scopeBatch : barriers_live d → barriers_live d'.
Proof.
  intros Hl. destruct scopeBatch_Ok as (Hsel & _ & d2 & es & -> & _ & _ & Hd2).
  eapply (live_jobs ∅ d2); [done|].
  assert (∀ X, (t_fireBarrier t = true → sel ≠ 0 → parent ∈ X) → barriers_live_but X d →
    barriers_live_but X scope_update) as Hup.
  { intros X HX. apply live_update. intros id r Hr Hin. rewrite (scope_selected id r Hr) in Hin.
    apply bool_decide_eq_true in Hin. destruct (scope_rows_in r Hin) as (_ & _ & Hp & _).
    destruct (tr_keeps t Ht now r) as (-> & _). split; [by left|]. intros pid Hpid.
    unfold pending_child. rewrite Updates_ParentJobID, !andb_true_iff, bool_decide_eq_true.
    intros [Hpp _]. split; [done|]. destruct (t_fireBarrier t) eqn:Ef.
    - destruct Hpid. rewrite Hp in Hpp. injection Hpp as <-. apply HX; [done|]. rewrite Hsel.
      intros E. apply nil_length_inv in E. rewrite E in Hin. by apply not_elem_of_nil in Hin.
    - by rewrite (tr_live t Ht Ef). }
  destruct (t_fireBarrier t && _) eqn:E.
  - apply andb_true_iff in E as [Ef Es].
    eapply live_weaken; [|eapply (live_fire {[parent]}); [apply wf_scope_update|exact Hd2|]]; [set_solver|].
    apply Hup; [set_solver|]. eapply live_weaken; [|exact Hl]. set_solver.
  - destruct Hd2 as [_ ->]. apply Hup; [|done]. intros Ef Es. rewrite Ef in E. simpl in E.
    by rewrite bool_decide_false in E.
Qed.

(** Unless it fired the barrier, a batch only shrinks what is left to move. *)
Lemma scopeBatch_scope :
  fired = false →
  scope_ids parent (t_source t) d' = scope_ids parent (t_source t) d ∖ list_to_set (j_ID <$> scope_rows).
Proof.
  intros Hfired. destruct scopeBatch_Ok as (Hsel & _ & d2 & es & -> & _ & _ & Hd2).
  assert (jobs (with_audit (job_audit d ++ es) d2) = jobs scope_update) as Hj.
  { destruct (_ && _); [|by destruct Hd2 as [_ ->]]. subst fired.
    apply fireBarrier_Ok in Hd2 as [(_ & -> & _)|[? _]]; done. }
  apply set_eq. intros id. rewrite elem_of_difference, elem_of_list_to_set, !elem_of_scope_ids, Hj.
  simpl. rewrite lookup_update_where. split.
  - intros (r' & (r & Hr & ->)%fmap_Some_1 & Hsc & Hd). rewrite (scope_selected id r Hr) in Hsc, Hd.
    case_bool_decide as Hin.
    + destruct (scope_rows_in r Hin) as (_ & Hdr & _). rewrite Hdr in Hsc. simpl in Hsc.
      unfold scoped in Hsc. by rewrite (tr_leaves t Ht), andb_false_r in Hsc.
    + simpl in *. split; [eauto|]. intros (x & Hid & Hx)%list_elem_of_fmap.
      destruct (scope_rows_in x Hx) as (Hl & _). rewrite <-Hid, Hr in Hl. by injection Hl as ->.
  - intros [(r & Hr & Hsc & Hd) Hn]. exists r. rewrite Hr. simpl. rewrite (scope_selected id r Hr).
    rewrite bool_decide_false; [done|]. intros Hin. apply Hn. apply list_elem_of_fmap. exists r.
    by rewrite (wf_keyed _ Hwf _ _ Hr).
Qed.

Lemma scope_rows_NoDup : NoDup (j_ID <$> scope_rows).
Proof.
  eapply sublist_NoDup; [apply (select_ids_NoDup (scoped parent (t_source t)) d), Hwf|].
  apply fmap_sublist, sublist_take.
Qed.

Lemma scope_rows_scope : list_to_set (j_ID <$> scope_rows) ⊆ scope_ids parent (t_source t) d.
Proof.
  intros id. rewrite elem_of_list_to_set, list_elem_of_fmap, elem_of_scope_ids.
  intros (r & -> & Hr). destruct (scope_rows_in r Hr) as (Hl & Hd & Hp & Hs). exists r.
  unfold scoped. rewrite Hp, bool_decide_true by done. done.
Qed.

(** A short batch selected everything there was. *)
Lemma scope_rows_short :
  length scope_rows < n → scope_ids parent (t_source t) d ⊆ list_to_set (j_ID <$> scope_rows).
Proof.
  intros Hlt id (r & Hr & Hs & Hd)%elem_of_scope_ids. apply elem_of_list_to_set, list_elem_of_fmap.
  exists r. split; [symmetry; by apply (wf_keyed _ Hwf)|]. unfold scope_rows in *.
  rewrite length_take in Hlt. rewrite take_ge by lia. apply elem_of_select. eauto.
Qed.
End batch.

(** The loop: enough fuel for the scope gives a result; the count it reports is
    one per audit row; and a run that neither failed nor fired a barrier leaves no
    child in a source state. *)
Lemma scopeLoop_run fuel ccs cancelled actor parent t n now k acc d :
  transition_ok t → db_wf d → 0 < n → size (scope_ids parent (t_source t) d) < fuel →
  ∃ r e d', scopeLoop fuel ccs cancelled actor parent t n now k acc d = Some (r, e, d') ∧ db_wf d' ∧
    (barriers_live d → barriers_live d') ∧
    (sr_Changed r - sr_Changed acc = Z.of_nat (length (job_audit d')) - Z.of_nat (length (job_audit d)))%Z ∧
    sr_SkippedTerminal r = sr_SkippedTerminal acc ∧ sr_SkippedRunning r = sr_SkippedRunning acc ∧
    (e = None → t_fireBarrier t = false → scope_ids parent (t_source t) d' = ∅).
Proof.
  intros Ht. revert k acc d. induction fuel as [|fuel IH]; intros k acc d Hwf Hn Hfuel; [lia|]. simpl.
  destruct (cancelled k); [exists acc, (Some ErrContext), d; split_and!; done || lia|].
  destruct (scopeBatch (ccs k) actor parent t n now d) as [[[[sel ch] fired] d1]|e] eqn:Eb;
    [|exists acc, (Some e), d; split_and!; done || lia].
  destruct (scopeBatch_Ok _ _ _ _ Ht _ _ _ Hwf _ _ _ _ Eb) as (Hsel & Hch & d2 & es & Hd1 & Hes & _ & Hd2).
  pose proof (wf_scopeBatch _ _ _ _ Ht _ _ _ Hwf _ _ _ _ Eb) as Hwf1.
  pose proof (live_scopeBatch _ _ _ _ Ht _ _ _ Hwf _ _ _ _ Eb) as Hl1.
  pose proof (scope_rows_NoDup parent t n d Hwf) as Hnd.
  pose proof (scope_rows_scope parent t n d Hwf) as Hsub.
  assert (length (job_audit d1) = length (job_audit d) + sel) as Haud.
  { rewrite Hd1. simpl. by rewrite length_app, Hes. }
  destruct (fired || (sel <? n)) eqn:Estop.
  - eexists _, None, d1. split_and!; try done; [simpl; lia|]. intros _ Hnf.
    rewrite Hnf in Hd2. destruct Hd2 as [-> _]. simpl in Estop. apply Nat.ltb_lt in Estop.
    rewrite (scopeBatch_scope _ _ _ _ Ht _ _ _ Hwf _ _ _ _ Eb eq_refl).
    rewrite Hsel in Estop. pose proof (scope_rows_short parent t n d Hwf Estop). set_solver.
  - apply orb_false_iff in Estop as [-> Hge%Nat.ltb_ge].
    pose proof (scopeBatch_scope _ _ _ _ Ht _ _ _ Hwf _ _ _ _ Eb eq_refl) as Hsc.
    set (acc' := {| sr_Changed := _ |}).
    destruct (IH (S k) acc' d1 Hwf1 Hn) as (r & e & d3 & Hs & Hwf3 & Hl3 & Hcnt & Hst & Hsr & Hend).
    { rewrite Hsc, size_difference by done. rewrite size_list_to_set, length_fmap by done.
      pose proof (subseteq_size _ _ Hsub) as Hle. rewrite size_list_to_set, length_fmap in Hle by done.
      rewrite <-Hsel in *. lia. }
    rewrite Hs. exists r, e, d3. split_and!; try done; [by auto|]. simpl in Hcnt. lia.
Qed.
End scope_facts.

(** ** The controls' theorems *)

Section theorems.
Context `{Foundation} `{RowOrder}.

(** A control on a waiting job (reschedule, reprioritize, pause, resume) acts
    only on a waiting job; when it has something to do it writes exactly its own
    columns on that job and exactly one audit row naming the actor, the action and
    what it changed; when it has nothing to do it writes nothing. *)
Theorem waiting_control_effect cc c id d d' :
  keyed (jobs d) → run_waiting cc c id d = Ok d' →
  ∃ actor job, resolveActor cc = Ok actor ∧ find_job d id = Some job ∧
    state_in (j_State job) waitingStates = true ∧
    (if waiting_noop c job then d' = d
     else jobs d' = update_where (has_id id) (waiting_columns c (c_Now (cc_ctx cc) 0)) (jobs d) ∧
          job_runs d' = job_runs d ∧
          job_audit d' = job_audit d ++
            [audit_row cc actor (c_Now (cc_ctx cc) 0) 0
               {| ch_target := AuditTargetJob; ch_targetID := id; ch_action := waiting_action c;
                  ch_details := waiting_details c job |}]).
Proof.
  intros Hk Hr. destruct (run_waiting_Ok _ _ _ _ _ Hk Hr) as (actor & job & Ha & Hf & Hs & Hcase).
  exists actor, job. split_and!; [done..|].
  destruct Hcase as [[-> ->]|[-> [_ Hj [Hr1 _] Hau _]]]; [done|]. by split_and!.
Qed.

(** A control refuses from the state it read: with valid input, a missing job
    is not found, a running one reports running, a terminal one reports terminal;
    and a waiting job is never refused for its state. *)
Theorem waiting_control_refuses cc c id d actor :
  waiting_valid c = None → resolveActor cc = Ok actor →
  match find_job d id with
  | None => run_waiting cc c id d = Err ErrJobNotFound
  | Some job =>
    (j_State job = StateRunning → run_waiting cc c id d = Err ErrJobRunning) ∧
    (state_in (j_State job) TerminalStates = true → run_waiting cc c id d = Err ErrJobTerminal)
  end.
Proof.
  intros Hv Ha. pose proof (run_waiting_refuses cc c id d Hv ltac:(by eauto)) as Hr.
  destruct (find_job d id) as [job|]; [|done]. split; intros Hs.
  - rewrite Hr by by rewrite Hs. by rewrite Hs.
  - rewrite Hr by by destruct (j_State job). by destruct (j_State job).
Qed.

(** A retry that returns: it acted on a state its options allow (a running job
    only with AllowRunning, a terminal one only with Force) and, without
    AllowRunning, never on a cancelled job whose attempt still runs; the job is
    available again without lease or finish time, at the asked delay, with the
    attempt budget asked for, and one audit row records it. *)
Theorem retry_effect cc id o d d' :
  keyed (jobs d) → RetryJobWithOptions cc id o d = Ok d' →
  ∃ actor job, resolveActor cc = Ok actor ∧ find_job d id = Some job ∧
    (j_State job = StateRunning → ro_AllowRunning o = true) ∧
    (isTerminalStateString (j_State job) = true → ro_Force o = true) ∧
    (j_State job = StateCancelled → ro_AllowRunning o = false → attemptStillRuns d job = false) ∧
    jobs d' = update_where (has_id id) (retryUpdates (c_Now (cc_ctx cc) 0) o) (jobs d) ∧
    (let r := Updates (retryUpdates (c_Now (cc_ctx cc) 0) o) job in
     j_State r = StateAvailable ∧ j_LeaseToken r = None ∧ j_FinalizedAt r = None ∧
     j_ScheduledAt r = (c_Now (cc_ctx cc) 0 + ro_Delay o)%Z ∧ j_Attempt r = j_Attempt job ∧
     j_MaxAttempts r =
       (if ro_ResetAttempts o
        then j_Attempt job + (if (ro_Budget o <=? 0)%Z then j_MaxAttempts job else ro_Budget o)
        else j_MaxAttempts job)%Z) ∧
    job_audit d' = job_audit d ++
      [audit_row cc actor (c_Now (cc_ctx cc) 0) 0
         {| ch_target := AuditTargetJob; ch_targetID := id; ch_action := AuditRetried; ch_details := retryDetails (j_State job) o |}].
Proof.
  intros Hk Hr. destruct (Retry_Ok _ _ _ _ _ Hk Hr) as (actor & job & Ha & Hf & Hs & Hrun & [_ Hj _ Hau _]).
  destruct (retry_row (c_Now (cc_ctx cc) 0) o job) as (? & ? & ? & ? & ? & ? & ? & ? & ?).
  assert (isTerminalStateString (j_State job) = true → ro_Force o = true) as Hforce.
  { unfold retryStateStrings in Hs. destruct (ro_Force o); [done|].
    by destruct (ro_AllowRunning o), (j_State job). }
  exists actor, job. split_and!; try done.
  - intros E. unfold retryStateStrings in Hs. rewrite E in Hs. by destruct (ro_Force o), (ro_AllowRunning o).
  - intros E Hno. apply Hrun; [done..|]. apply Hforce. by rewrite E.
Qed.

(** A retry refused by a live key names its holder: when the job may be
    retried but another live job holds its active key, the error carries that key
    and the id of a job that holds it. *)
Theorem retry_names_holder cc id o d job actor :
  db_wf d → jobs d !! "" = None → resolveActor cc = Ok actor →
  find_job d id = Some job → state_in (j_State job) (retryStateStrings o) = true →
  (j_State job = StateCancelled → ro_AllowRunning o = false → ro_Force o = true →
     attemptStillRuns d job = false) →
  index_admits (jobs d) (Updates (retryUpdates (c_Now (cc_ctx cc) 0) o) job) = false →
  j_UniqueActiveKey job ≠ Some "" →
  ∃ h k, RetryJobWithOptions cc id o d = Err (AlreadyEnqueuedError h k) ∧
    j_UniqueActiveKey job = Some k ∧ holds_active_key d k h.
Proof. apply retry_collision. Qed.

(** A cancel that returns ended a live job: its row is cancelled, without a
    lease, finished now; its parent's barrier was checked in the same transaction;
    and one audit row says whether an attempt was running. *)
Theorem cancel_effect cc id d d' :
  db_wf d → CancelJob cc id d = Ok d' →
  ∃ actor job r', resolveActor cc = Ok actor ∧ find_job d id = Some job ∧
    isTerminalStateString (j_State job) = false ∧
    jobs d' !! id = Some r' ∧ j_State r' = StateCancelled ∧ j_LeaseToken r' = None ∧
    j_FinalizedAt r' = Some (c_Now (cc_ctx cc) 0) ∧
    (barriers_live d → barriers_live d') ∧
    job_audit d' = job_audit d ++
      [audit_row cc actor (c_Now (cc_ctx cc) 0) 0
         {| ch_target := AuditTargetJob; ch_targetID := id; ch_action := AuditCancelled;
            ch_details := {["from_state" := DState (j_State job);
                            "was_running" := DBool (bool_decide (j_State job = StateRunning))]} |}].
Proof.
  intros Hwf Hc. pose proof (wf_keyed _ Hwf) as Hk.
  pose proof (live_Cancel _ _ _ _ Hc Hwf) as Hlive.
  destruct (Cancel_Ok _ _ _ _ Hk Hc) as (actor & job & d2 & Ha & Hf & Hs & Hfi & ->).
  pose proof Hf as [Hr Hd]%find_job_Some.
  set (d1 := update_jobs (has_id id) (cancelUpdates (c_Now (cc_ctx cc) 0)) d) in *.
  assert (jobs d1 !! id = Some (Updates (cancelUpdates (c_Now (cc_ctx cc) 0)) job)) as Hr1.
  { simpl. rewrite lookup_update_where, Hr. simpl. unfold has_id.
    by rewrite bool_decide_true, Hd by by apply Hk. }
  assert (∃ r', jobs d2 !! id = Some r' ∧ j_State r' = StateCancelled ∧ j_LeaseToken r' = None ∧
    j_FinalizedAt r' = Some (c_Now (cc_ctx cc) 0) ∧ job_audit d2 = job_audit d) as (r' & ? & ? & ? & ? & Hau).
  { destruct (j_ParentJobID job) as [p|]; [|subst d2; eexists; split; [exact Hr1|done]].
    destruct Hfi as [fired [(_ & -> & _)|(_ & _ & kind & row & _ & _ & _ & ->)]%fireBarrier_Ok];
      [eexists; split; [exact Hr1|done]|].
    pose proof (insert_skipping_old [row] _ _ _ Hr1) as Hr2.
    cbn [jobs update_jobs with_jobs job_audit]. rewrite lookup_update_where, Hr2. eexists. split; [done|].
    destruct (insert_skipping_rest [row] d1) as (_ & _ & ->).
    destruct (_ && _); done. }
  exists actor, job, r'. split_and!; try done; [by destruct (j_State job)|].
  cbn [job_audit with_audit]. by rewrite Hau.
Qed.

(** A delete removes a terminal job and everything recorded under it, and
    nothing else: the job, its runs and their finish-log entries are gone, every
    other row stays, and one audit row keeps what was deleted. *)
Theorem delete_effect cc id d d' :
  db_wf d → DeleteJob cc id d = Ok d' →
  ∃ actor job, resolveActor cc = Ok actor ∧ find_job d id = Some job ∧
    isTerminalStateString (j_State job) = true ∧ jobs d' = delete id (jobs d) ∧
    (∀ rid run, job_runs d' !! rid = Some run ↔ job_runs d !! rid = Some run ∧ r_JobID run ≠ id) ∧
    db_wf d' ∧ (barriers_live d → barriers_live d') ∧
    job_audit d' = job_audit d ++
      [audit_row cc actor (c_Now (cc_ctx cc) 0) 0
         {| ch_target := AuditTargetJob; ch_targetID := id; ch_action := AuditDeleted;
            ch_details := {["from_state" := DState (j_State job); "kind" := DText (j_Kind job);
                            "state" := DState (j_State job)]} |}].
Proof.
  intros Hwf Hd. pose proof (wf_Delete _ _ _ _ Hd Hwf) as Hwf'.
  pose proof (live_Delete _ _ _ _ Hd Hwf) as Hl.
  destruct (Delete_Ok _ _ _ _ (wf_keyed _ Hwf) Hd) as (actor & job & Ha & Hf & Hs & Hj & Hr & _ & Hau).
  exists actor, job. split_and!; try done; [by rewrite isTerminal_spec|].
  intros rid run. rewrite Hr. simpl. rewrite map_lookup_filter_Some. simpl. unfold str_mem.
  rewrite bool_decide_eq_false, list_elem_of_singleton. done.
Qed.

(** A parent-scoped pause, resume or cancel ends: with more passes than there
    are children to move it returns; it keeps the tables well formed and every
    barrier live; its changed count is the number of audit rows it wrote; and a
    pause or resume that was not stopped leaves no child it should have moved. *)
Theorem scope_by_parent_ends fuel ccs cancelled parent batchSize t d actor :
  t ∈ [pauseTransition; resumeTransition; cancelTransition] → db_wf d →
  resolveActor (ccs 0) = Ok actor → size (scope_ids parent (t_source t) d) < fuel →
  ∃ r e d', scopeByParent fuel ccs false cancelled parent batchSize t d = Some (r, e, d') ∧ db_wf d' ∧
    (barriers_live d → barriers_live d') ∧
    sr_Changed r = (Z.of_nat (length (job_audit d')) - Z.of_nat (length (job_audit d)))%Z ∧
    sr_SkippedRunning r = count_jobs (scoped parent [StateRunning]) d ∧
    (e = None → t_fireBarrier t = false → scope_ids parent (t_source t) d' = ∅).
Proof.
  intros Ht Hwf Ha Hfuel. unfold scopeByParent. rewrite Ha.
  assert (transition_ok t) as Hok.
  { rewrite !elem_of_cons, elem_of_nil in Ht.
    destruct Ht as [->|[->|[->|[]]]]; [apply pause_transition_ok|apply resume_transition_ok|apply cancel_transition_ok]. }
  edestruct (scopeLoop_run fuel ccs cancelled actor parent t (Z.to_nat (scope_batchSize batchSize)))
    as (r & e & d' & Hs & Hw & Hl & Hc & _ & Hsr & Hend); [done|done| |done|].
  { unfold scope_batchSize, defaultScopeBatchSize. case_match; lia. }
  exists r, e, d'. split; [exact Hs|]. simpl in Hc, Hsr. split_and!; try done. lia.
Qed.
End theorems.
