(* ===== verification/Periodic.v ===== *)
(** * Periodic definitions: the job_periodics table and its writers

    internal/core/schedule.go (PeriodicSpec, UpsertPeriodic, SetPeriodicActive,
    DeletePeriodic, ListPeriodics, NextPeriodicFires), periodic_controls.go
    (PausePeriodic, ResumePeriodic, TriggerPeriodic, the fire history) and the
    jobPeriodicRow hooks of base.go. robfig/cron is a parameter: an expression
    parses to a function from an instant to the next matching one, in the zone the
    host evaluates it in. *)

From Stdlib Require Import Ascii.
From stdpp Require Import pretty.
From S2P Require Import Prelude Types Text Json Store Insert Barrier Sweep Client Controls.

(** ** Cron *)

(** cron.ParseStandard: [None] is a refused expression, [Some next] the Next
    method of the schedule it returns. *)
Class Cron := { ParseStandard : string → option (Z → Z) }.

(** Next's documentation: "the next time this schedule is activated, greater than
    the given time. If no time can be found to satisfy the schedule, return the
    zero time." *)
Class CronLaws `{Cron} : Prop := {
  cron_next_later : ∀ expr next t, ParseStandard expr = Some next → next t = zero_time ∨ (t < next t)%Z
}.

(** ** Rows and specs *)

Record periodicFireEntry := { fe_JobID : string; fe_FiredAt : Z; fe_Manual : bool }.
#[global] Instance periodicFireEntry_eq_dec : EqDecision periodicFireEntry.
Proof. solve_decision. Defined.

(** The recent_jobs column is what json.Unmarshal makes of it: [None] is a value
    that does not decode. *)
Record jobPeriodicRow := {
  p_ID : string; p_Slug : string; p_Kind : string; p_ArgsTemplate : string; p_Queue : string;
  p_CronExpr : option string; p_IntervalSeconds : option Z; p_NextRunAt : Z;
  p_LastEnqueuedAt : option Z; p_IsActive : bool; p_Source : string; p_PausedAt : option Z;
  p_PausedByType : string; p_PausedByID : string; p_PausedReason : string;
  p_RecentJobs : option (list periodicFireEntry); p_CreatedAt : Z; p_UpdatedAt : Z
}.
#[global] Instance jobPeriodicRow_eq_dec : EqDecision jobPeriodicRow.
Proof. solve_decision. Defined.

Abbreviation periodics := (gmap string jobPeriodicRow).

Record PeriodicSpec := {
  ps_Slug : string; ps_Kind : string; ps_Queue : string; ps_ArgsTemplate : string; ps_Cron : string;
  ps_Every : Z; ps_Active : bool
}.

(** PeriodicSource. *)
Definition PeriodicDeclared := "declared".
Definition PeriodicUpserted := "upserted".
Definition defaultPeriodicQueue := "periodic".
Definition AuditTargetPeriodic := "periodic".
Definition AuditActivated := "activated".
Definition AuditDeactivated := "deactivated".
Definition AuditTriggered := "triggered".

(** ** int(Duration.Seconds())

    Seconds is float64(d/Second) + float64(d%Second)/1e9, each operation rounded
    to the nearest double, ties to even. A double of the range that occurs is
    [m / 2^k]. *)
Definition round_half_even (n d : Z) : Z :=
  let q := (n / d)%Z in
  let r := (n mod d)%Z in
  if (2 * r <? d)%Z then q
  else if (d <? 2 * r)%Z then (q + 1)%Z
  else if Z.even q then q else (q + 1)%Z.
Definition to_float (n d : Z) : Z * Z :=
  if (n <=? 0)%Z then (0, 0)%Z
  else
    let k := Z.max 0 (52 - (Z.log2 n - Z.log2 d)) in
    let k := if (n * 2 ^ k <? 2 ^ 52 * d)%Z then (k + 1)%Z else k in
    (round_half_even (n * 2 ^ k) d, k).
Definition int_seconds (d : Z) : Z :=
  let '(m1, k1) := to_float (d mod second) second in
  let '(m2, k2) := to_float (d / second * 2 ^ k1 + m1) (2 ^ k1) in
  (m2 / 2 ^ k2)%Z.

Section periodic.
Context `{Cron}.

(** ** Writing a definition *)

Definition validate (s : PeriodicSpec) : res unit :=
  if is_empty (ps_Slug s) then Err (ValidationError "slug")
  else if is_empty (ps_Kind s) then Err (ValidationError "kind")
  else
    let hasCron := negb (is_empty (ps_Cron s)) in
    let hasEvery := (0 <? ps_Every s)%Z in
    if Bool.eqb hasCron hasEvery then Err (ValidationError "schedule")
    else if hasEvery && (ps_Every s <? second)%Z then Err (ValidationError "every")
    else if hasCron && match ParseStandard (ps_Cron s) with None => true | Some _ => false end
    then Err ErrCronSpec
    else if negb (is_empty (ps_ArgsTemplate s)) && negb (json_Valid (ps_ArgsTemplate s))
    then Err (ValidationError "args_template")
    else Ok ().

Definition nextFireAfter (spec : PeriodicSpec) (now : Z) : res Z :=
  if (0 <? ps_Every spec)%Z then Ok (now + ps_Every spec)%Z
  else match ParseStandard (ps_Cron spec) with
  | None => Err ErrCronSpec
  | Some next => Ok (next now)
  end.

(** The rows a WHERE selects, by primary key. *)
Definition id_before (a b : jobPeriodicRow) : Prop := bytes_le (p_ID a) (p_ID b).
#[global] Instance id_before_dec : RelDecision id_before.
Proof. intros a b. unfold id_before. apply _. Defined.

(** First: the first match ordered by primary key. *)
Definition first_periodic (P : jobPeriodicRow → bool) (t : periodics) : option jobPeriodicRow :=
  head (merge_sort id_before (filter (λ r, P r = true) (map_to_list t).*2)).
Definition has_slug (slug : string) (r : jobPeriodicRow) : bool := bool_decide (p_Slug r = slug).

Definition loadPeriodic (slug : string) (t : periodics) : option jobPeriodicRow :=
  first_periodic (has_slug slug) t.

Definition periodicQueueAndArgs (spec : PeriodicSpec) : string * string :=
  (if is_empty (ps_Queue spec) then defaultPeriodicQueue else ps_Queue spec,
   if is_empty (ps_ArgsTemplate spec) then "{}" else ps_ArgsTemplate spec).

(** The row before its hooks ran: no id and no timestamps yet. *)
Definition periodicRow (spec : PeriodicSpec) (source : string) (now : Z) : res jobPeriodicRow :=
  let? nextRun := nextFireAfter spec now in
  let '(queue, args) := periodicQueueAndArgs spec in
  Ok {| p_ID := ""; p_Slug := ps_Slug spec; p_Kind := ps_Kind spec; p_ArgsTemplate := args;
        p_Queue := queue;
        p_CronExpr := if (0 <? ps_Every spec)%Z then None else Some (ps_Cron spec);
        p_IntervalSeconds := if (0 <? ps_Every spec)%Z then Some (int_seconds (ps_Every spec)) else None;
        p_NextRunAt := nextRun; p_LastEnqueuedAt := None; p_IsActive := ps_Active spec;
        p_Source := source; p_PausedAt := None; p_PausedByType := ""; p_PausedByID := "";
        p_PausedReason := ""; p_RecentJobs := Some []; p_CreatedAt := zero_time;
        p_UpdatedAt := zero_time |}.

(** [jobPeriodicRow.BeforeSave] on a create, then [BeforeCreate]. *)
Definition periodic_BeforeSave (now : Z) (p : jobPeriodicRow) : res jobPeriodicRow :=
  if is_empty (p_ID p) && is_empty (p_Slug p) && is_empty (p_Kind p) then Ok p
  else if is_empty (p_Slug p) then Err (ValidationError "slug")
  else if is_empty (p_Kind p) then Err (ValidationError "kind")
  else if is_zero_time (p_NextRunAt p) then Err (ValidationError "next_run_at")
  else
    let hasCron := match p_CronExpr p with Some e => negb (is_empty e) | None => false end in
    let hasInterval := match p_IntervalSeconds p with Some _ => true | None => false end in
    if Bool.eqb hasCron hasInterval then Err (ValidationError "schedule")
    else Ok {| p_ID := p_ID p; p_Slug := p_Slug p; p_Kind := p_Kind p;
               p_ArgsTemplate := orString (p_ArgsTemplate p) "{}";
               p_Queue := orString (p_Queue p) defaultPeriodicQueue; p_CronExpr := p_CronExpr p;
               p_IntervalSeconds := p_IntervalSeconds p; p_NextRunAt := p_NextRunAt p;
               p_LastEnqueuedAt := p_LastEnqueuedAt p; p_IsActive := p_IsActive p;
               p_Source := p_Source p; p_PausedAt := p_PausedAt p; p_PausedByType := p_PausedByType p;
               p_PausedByID := p_PausedByID p; p_PausedReason := p_PausedReason p;
               p_RecentJobs := p_RecentJobs p; p_CreatedAt := p_CreatedAt p; p_UpdatedAt := now |}.
Definition periodic_BeforeCreate (now : Z) (newID : string) (p : jobPeriodicRow) : jobPeriodicRow :=
  {| p_ID := orString (p_ID p) newID; p_Slug := p_Slug p; p_Kind := p_Kind p;
     p_ArgsTemplate := p_ArgsTemplate p; p_Queue := p_Queue p; p_CronExpr := p_CronExpr p;
     p_IntervalSeconds := p_IntervalSeconds p; p_NextRunAt := p_NextRunAt p;
     p_LastEnqueuedAt := p_LastEnqueuedAt p; p_IsActive := p_IsActive p; p_Source := p_Source p;
     p_PausedAt := p_PausedAt p; p_PausedByType := p_PausedByType p; p_PausedByID := p_PausedByID p;
     p_PausedReason := p_PausedReason p; p_RecentJobs := p_RecentJobs p;
     p_CreatedAt := if is_zero_time (p_CreatedAt p) then now else p_CreatedAt p;
     p_UpdatedAt := p_UpdatedAt p |}.

(** Whether the primary key and the unique slug index let the row in. *)
Definition periodic_admits (t : periodics) (row : jobPeriodicRow) : bool :=
  bool_decide (map_Forall (λ id r, id ≠ p_ID row ∧ p_Slug r ≠ p_Slug row) t).

(** [insertPeriodic]: the row when the insert landed. *)
Definition insertPeriodic (ctx : context) (spec : PeriodicSpec) (source : string) (now : Z) (t : periodics)
  : res (option jobPeriodicRow * periodics) :=
  let? row := periodicRow spec source now in
  let? row := periodic_BeforeSave (c_Now ctx 1) row in
  let row := periodic_BeforeCreate (c_Now ctx 2) (c_NewID ctx 0) row in
  if periodic_admits t row then Ok (Some row, <[p_ID row := row]> t) else Ok (None, t).

Definition scheduleChanged (existing : jobPeriodicRow) (spec : PeriodicSpec) : bool :=
  if (0 <? ps_Every spec)%Z then
    match p_IntervalSeconds existing with None => true | Some s => negb (s =? int_seconds (ps_Every spec))%Z end
  else match p_CronExpr existing with None => true | Some e => negb (bool_decide (e = ps_Cron spec)) end.

(** The columns updatePeriodic writes; [nextRun] only when the schedule changed. *)
Definition set_definition (spec : PeriodicSpec) (source : string) (now : Z) (nextRun : option Z)
    (r : jobPeriodicRow) : jobPeriodicRow :=
  let '(queue, args) := periodicQueueAndArgs spec in
  {| p_ID := p_ID r; p_Slug := p_Slug r; p_Kind := ps_Kind spec; p_ArgsTemplate := args; p_Queue := queue;
     p_CronExpr := if (0 <? ps_Every spec)%Z then None else Some (ps_Cron spec);
     p_IntervalSeconds := if (0 <? ps_Every spec)%Z then Some (int_seconds (ps_Every spec)) else None;
     p_NextRunAt := default (p_NextRunAt r) nextRun; p_LastEnqueuedAt := p_LastEnqueuedAt r;
     p_IsActive := ps_Active spec; p_Source := source; p_PausedAt := p_PausedAt r;
     p_PausedByType := p_PausedByType r; p_PausedByID := p_PausedByID r;
     p_PausedReason := p_PausedReason r; p_RecentJobs := p_RecentJobs r; p_CreatedAt := p_CreatedAt r;
     p_UpdatedAt := now |}.

(** [updatePeriodic]: a partial column update, which BeforeSave lets through
    unchecked. *)
Definition updatePeriodic (existing : jobPeriodicRow) (spec : PeriodicSpec) (source : string) (now : Z)
    (t : periodics) : res periodics :=
  let? nextRun :=
    if scheduleChanged existing spec
    then let? n := nextFireAfter spec now in Ok (Some n)
    else Ok None in
  Ok (alter (set_definition spec source now nextRun) (p_ID existing) t).

(** [upsertPeriodic]: each statement commits on its own, and [w k] is what other
    sessions committed before the statement that follows the k-th. Returns the row
    it updated, as it read it. *)
Definition upsertPeriodic (ctx : context) (w : nat → periodics → periodics) (spec : PeriodicSpec)
    (source : string) (t : periodics) : res (option jobPeriodicRow * periodics) :=
  let? _ := validate spec in
  let now := c_Now ctx 0 in
  match loadPeriodic (ps_Slug spec) t with
  | Some existing =>
    let? t' := updatePeriodic existing spec source now (w 0 t) in Ok (Some existing, t')
  | None =>
    let? ' (inserted, t1) := insertPeriodic ctx spec source now (w 0 t) in
    match inserted with
    | Some _ => Ok (None, t1)
    | None =>
      match loadPeriodic (ps_Slug spec) (w 1 t1) with
      | None => Err ErrRemovedConcurrently
      | Some existing =>
        let? t' := updatePeriodic existing spec source now (w 2 (w 1 t1)) in Ok (Some existing, t')
      end
    end
  end.

Definition UpsertPeriodic (ctx : context) (w : nat → periodics → periodics) (spec : PeriodicSpec)
    (t : periodics) : res periodics :=
  let? ' (_, t') := upsertPeriodic ctx w spec PeriodicUpserted t in Ok t'.

(** ** Controls on a definition *)

Definition lockPeriodicWhere (P : jobPeriodicRow → bool) (t : periodics) : option jobPeriodicRow :=
  first_periodic P t.
Definition lockPeriodic (slug : string) (t : periodics) : res jobPeriodicRow :=
  match lockPeriodicWhere (has_slug slug) t with Some r => Ok r | None => Err ErrPeriodicNotFound end.

Definition set_active (active : bool) (now : Z) (r : jobPeriodicRow) : jobPeriodicRow :=
  {| p_ID := p_ID r; p_Slug := p_Slug r; p_Kind := p_Kind r; p_ArgsTemplate := p_ArgsTemplate r;
     p_Queue := p_Queue r; p_CronExpr := p_CronExpr r; p_IntervalSeconds := p_IntervalSeconds r;
     p_NextRunAt := p_NextRunAt r; p_LastEnqueuedAt := p_LastEnqueuedAt r; p_IsActive := active;
     p_Source := p_Source r; p_PausedAt := p_PausedAt r; p_PausedByType := p_PausedByType r;
     p_PausedByID := p_PausedByID r; p_PausedReason := p_PausedReason r; p_RecentJobs := p_RecentJobs r;
     p_CreatedAt := p_CreatedAt r; p_UpdatedAt := now |}.

(** One audit entry naming a definition. *)
Definition periodic_change (slug action : string) (details : gmap string detail) : auditChange :=
  {| ch_target := AuditTargetPeriodic; ch_targetID := slug; ch_action := action; ch_details := details |}.

Definition SetPeriodicActive (cc : control) (slug : string) (active : bool) (t : periodics) (d : db)
  : res (periodics * db) :=
  let? actor := resolveActor cc in
  let? row := lockPeriodic slug t in
  let now := c_Now (cc_ctx cc) 0 in
  let t1 := alter (set_active active now) (p_ID row) t in
  if Bool.eqb (p_IsActive row) active then Ok (t1, d)
  else
    let action := if active then AuditActivated else AuditDeactivated in
    let? d1 := recordAudit cc actor now [periodic_change slug action ∅] d in
    Ok (t1, d1).

Definition DeletePeriodic (cc : control) (slug : string) (t : periodics) (d : db) : res (periodics * db) :=
  let? actor := resolveActor cc in
  let? row := lockPeriodic slug t in
  let t1 := delete (p_ID row) t in
  let? d1 := recordAudit cc actor (c_Now (cc_ctx cc) 0) [periodic_change slug AuditDeleted ∅] d in
  Ok (t1, d1).

Definition set_pause (at_ : option Z) (byType byID reason : string) (nextRun now : Z) (r : jobPeriodicRow)
  : jobPeriodicRow :=
  {| p_ID := p_ID r; p_Slug := p_Slug r; p_Kind := p_Kind r; p_ArgsTemplate := p_ArgsTemplate r;
     p_Queue := p_Queue r; p_CronExpr := p_CronExpr r; p_IntervalSeconds := p_IntervalSeconds r;
     p_NextRunAt := nextRun; p_LastEnqueuedAt := p_LastEnqueuedAt r; p_IsActive := p_IsActive r;
     p_Source := p_Source r; p_PausedAt := at_; p_PausedByType := byType; p_PausedByID := byID;
     p_PausedReason := reason; p_RecentJobs := p_RecentJobs r; p_CreatedAt := p_CreatedAt r;
     p_UpdatedAt := now |}.

Definition PausePeriodic (cc : control) (slug : string) (t : periodics) (d : db) : res (periodics * db) :=
  let? actor := resolveActor cc in
  let now := c_Now (cc_ctx cc) 0 in
  let? row := lockPeriodic slug t in
  match p_PausedAt row with
  | Some _ => Ok (t, d)
  | None =>
    let t1 := alter (λ r, set_pause (Some now) (ActorType_string (ac_Type actor)) (ac_ID actor)
                            (ac_Reason actor) (p_NextRunAt r) now r) (p_ID row) t in
    let? d1 := recordAudit cc actor now [periodic_change slug AuditPaused ∅] d in
    Ok (t1, d1)
  end.

(** time.Duration(seconds) * time.Second, on int64. *)
Definition interval_of (seconds : Z) : Z := wrap64 (seconds * second).

Definition resumedNextRun (row : jobPeriodicRow) (now : Z) : res Z :=
  if (now <? p_NextRunAt row)%Z then Ok (p_NextRunAt row)
  else
    let by_cron :=
      match p_CronExpr row with
      | Some e =>
        if is_empty e then Err ErrPeriodicNoSchedule
        else match ParseStandard e with None => Err ErrCronSpec | Some next => Ok (next now) end
      | None => Err ErrPeriodicNoSchedule
      end in
    match p_IntervalSeconds row with
    | Some s =>
      if (0 <? s)%Z then
        let passed := Z.quot (time_sub now (p_NextRunAt row)) (interval_of s) in
        Ok (p_NextRunAt row + wrap64 ((passed + 1) * interval_of s))%Z
      else by_cron
    | None => by_cron
    end.

Definition ResumePeriodic (cc : control) (slug : string) (t : periodics) (d : db) : res (periodics * db) :=
  let? actor := resolveActor cc in
  let now := c_Now (cc_ctx cc) 0 in
  let? row := lockPeriodic slug t in
  match p_PausedAt row with
  | None => Ok (t, d)
  | Some _ =>
    let? nextRun := resumedNextRun row now in
    let t1 := alter (set_pause None "" "" "" nextRun now) (p_ID row) t in
    let? d1 := recordAudit cc actor now [periodic_change slug AuditResumed ∅] d in
    Ok (t1, d1)
  end.

(** ** The fire history *)

Definition PeriodicHistorySize : nat := 20.

Definition decodeFires (stored : option (list periodicFireEntry)) : list periodicFireEntry := default [] stored.

(** json.Marshal of a time refuses a year outside [0, 9999]. *)
Definition json_year_ok (t : Z) : bool :=
  ((-62167219200 * second <=? t) && (t <? 253402300800 * second))%Z.

Definition prependFires (stored : option (list periodicFireEntry)) (fires : list periodicFireEntry)
  : res (list periodicFireEntry) :=
  let ring := take PeriodicHistorySize (reverse fires) in
  let ring := ring ++ take (PeriodicHistorySize - length ring) (decodeFires stored) in
  if forallb (λ e, json_year_ok (fe_FiredAt e)) ring then Ok ring else Err ErrMarshal.

Definition set_fires (nextRun : option Z) (lastEnqueuedAt : Z) (history : list periodicFireEntry) (now : Z)
    (r : jobPeriodicRow) : jobPeriodicRow :=
  {| p_ID := p_ID r; p_Slug := p_Slug r; p_Kind := p_Kind r; p_ArgsTemplate := p_ArgsTemplate r;
     p_Queue := p_Queue r; p_CronExpr := p_CronExpr r; p_IntervalSeconds := p_IntervalSeconds r;
     p_NextRunAt := default (p_NextRunAt r) nextRun; p_LastEnqueuedAt := Some lastEnqueuedAt;
     p_IsActive := p_IsActive r; p_Source := p_Source r; p_PausedAt := p_PausedAt r;
     p_PausedByType := p_PausedByType r; p_PausedByID := p_PausedByID r;
     p_PausedReason := p_PausedReason r; p_RecentJobs := Some history; p_CreatedAt := p_CreatedAt r;
     p_UpdatedAt := now |}.

(** ** A manual run *)

Definition TriggerPeriodic `{Foundation} `{RowOrder} (cl : Client) (cc : control) (slug : string)
    (t : periodics) (d : db) : res (string * periodics * db) :=
  let? actor := resolveActor cc in
  let? row := lockPeriodic slug t in
  let payload := if is_empty (p_ArgsTemplate row) then "{}" else p_ArgsTemplate row in
  let now := c_Now (cc_ctx cc) 0 in
  let opts := {| o_Queue := p_Queue row; o_UniqueKey := ""; o_UniqueActiveKey := "";
                 o_ScheduleAt := Some now; o_Parent := None; o_Priority := 0; o_ExecutorClass := "";
                 o_MaxAttempts := 0; o_Timeout := 0; o_Tx := true; o_RequestID := ""; o_Tags := [];
                 o_Metadata := ∅ |} in
  let? ' (id, d1) := client_insert cl (cc_ctx cc) (p_Kind row) payload opts InsertSourcePeriodic slug d in
  match id with
  | None => Err ErrCollided
  | Some jobID =>
    let? history := prependFires (p_RecentJobs row) [{| fe_JobID := jobID; fe_FiredAt := now; fe_Manual := true |}] in
    let t1 := alter (set_fires None now history now) (p_ID row) t in
    let? d2 := recordAudit cc actor now
      [periodic_change slug AuditTriggered {["job_id" := DText jobID]}] d1 in
    Ok (jobID, t1, d2)
  end.

(** ** Reads *)

Record PeriodicView := {
  pv_Slug : string; pv_Kind : string; pv_Queue : string; pv_Cron : string; pv_IntervalSeconds : Z;
  pv_NextRunAt : Z; pv_LastEnqueuedAt : option Z; pv_Active : bool; pv_Source : string;
  pv_Paused : bool; pv_PausedAt : option Z; pv_PausedBy : option (string * string * string);
  pv_LastJobID : string; pv_TimeZone : string
}.

(** strings.CutPrefix, and strings.Cut at the first space. *)
Fixpoint cut_prefix (prefix s : string) : option string :=
  match prefix, s with
  | "", _ => Some s
  | String a p, String b s => if bool_decide (a = b) then cut_prefix p s else None
  | String _ _, "" => None
  end.
Fixpoint before_space (s : string) : string :=
  match s with
  | "" => ""
  | String c s => if bool_decide (c = " "%char) then "" else String c (before_space s)
  end.
Definition cronTimeZone (expr : string) : string :=
  match cut_prefix "CRON_TZ=" expr with
  | Some rest => before_space rest
  | None => match cut_prefix "TZ=" expr with Some rest => before_space rest | None => "" end
  end.

Definition periodicViewFromRow (r : jobPeriodicRow) : PeriodicView :=
  {| pv_Slug := p_Slug r; pv_Kind := p_Kind r; pv_Queue := p_Queue r; pv_Cron := derefString (p_CronExpr r);
     pv_IntervalSeconds := default 0%Z (p_IntervalSeconds r); pv_NextRunAt := p_NextRunAt r;
     pv_LastEnqueuedAt := p_LastEnqueuedAt r; pv_Active := p_IsActive r; pv_Source := p_Source r;
     pv_Paused := bool_decide (is_Some (p_PausedAt r)); pv_PausedAt := p_PausedAt r;
     pv_PausedBy := match p_PausedAt r with
                    | Some _ => Some (p_PausedByType r, p_PausedByID r, p_PausedReason r)
                    | None => None
                    end;
     pv_LastJobID := match decodeFires (p_RecentJobs r) with e :: _ => fe_JobID e | [] => "" end;
     pv_TimeZone := match p_CronExpr r with Some e => cronTimeZone e | None => "" end |}.

Definition slug_before (a b : jobPeriodicRow) : Prop := bytes_le (p_Slug a) (p_Slug b).
#[global] Instance slug_before_dec : RelDecision slug_before.
Proof. intros a b. unfold slug_before. apply _. Defined.
Definition ListPeriodics `{RowOrder} (t : periodics) : list PeriodicView :=
  periodicViewFromRow <$> merge_sort slug_before (scan (map_to_list t).*2).

Definition MaxNextFires : Z := 100.

(** The appends of the interval branch, and of the cron branch. *)
Fixpoint interval_fires (n : nat) (next interval : Z) : list Z :=
  match n with O => [] | S n => next :: interval_fires n (next + interval)%Z interval end.
Fixpoint cron_fires (n : nat) (schedule : Z → Z) (next : Z) : list Z :=
  match n with
  | O => []
  | S n => if is_zero_time next then [] else next :: cron_fires n schedule (schedule next)
  end.

Definition NextPeriodicFires (p : PeriodicView) (after n : Z) : res (list Z) :=
  if (n <? 1)%Z || (MaxNextFires <? n)%Z then Err (ValidationError "n")
  else
    let next := pv_NextRunAt p in
    if (0 <? pv_IntervalSeconds p)%Z then
      let interval := interval_of (pv_IntervalSeconds p) in
      let next :=
        if is_zero_time next then (after + interval)%Z
        else if (next <=? after)%Z then
          (next + wrap64 ((Z.quot (time_sub after next) interval + 1) * interval))%Z
        else next in
      Ok (interval_fires (Z.to_nat n) next interval)
    else if negb (is_empty (pv_Cron p)) then
      match ParseStandard (pv_Cron p) with
      | None => Err ErrCronSpec
      | Some schedule =>
        let next := if (next <=? after)%Z then schedule after else next in
        Ok (cron_fires (Z.to_nat n) schedule next)
      end
    else Err (ValidationError "schedule").

Record PeriodicFire := {
  pf_JobID : string; pf_FiredAt : Z; pf_Manual : bool; pf_State : option JobState;
  pf_Outcome : option RunOutcome; pf_FinishedAt : option Z
}.

(** The jobs are read past the soft-delete scope; the run of a job is the one of
    its current attempt. *)
Definition PeriodicHistory `{RowOrder} (slug : string) (t : periodics) (d : db) : res (list PeriodicFire) :=
  match loadPeriodic slug t with
  | None => Err ErrPeriodicNotFound
  | Some row =>
    let ring := decodeFires (p_RecentJobs row) in
    let ids := fe_JobID <$> ring in
    let found := scan (filter (λ r, str_mem (j_ID r) ids = true) (map_to_list (jobs d)).*2) in
    let byID : gmap string jobRow := foldl (λ m r, <[j_ID r := r]> m) ∅ found in
    let latest := (λ r, (j_ID r, j_Attempt r)) <$> filter (λ r, 0 < j_Attempt r)%Z found in
    let rows := scan (filter (λ r, (r_JobID r, r_Attempt r) ∈ latest) (map_to_list (job_runs d)).*2) in
    let runs : gmap string jobRunRow := foldl (λ m r, <[r_JobID r := r]> m) ∅ rows in
    Ok ((λ e,
      let blank := {| pf_JobID := fe_JobID e; pf_FiredAt := fe_FiredAt e; pf_Manual := fe_Manual e;
                      pf_State := None; pf_Outcome := None; pf_FinishedAt := None |} in
      match byID !! fe_JobID e with
      | None => blank
      | Some job =>
        let run := runs !! j_ID job in
        {| pf_JobID := fe_JobID e; pf_FiredAt := fe_FiredAt e; pf_Manual := fe_Manual e;
           pf_State := Some (j_State job); pf_Outcome := r_Outcome <$> run;
           pf_FinishedAt := run ≫= r_FinishedAt |}
      end) <$> ring)
  end.
End periodic.

(** ** Whole seconds of a duration *)

Lemma round_half_even_bounds n d :
  (0 < d)%Z → (n / d ≤ round_half_even n d ≤ n / d + 1)%Z.
Proof. unfold round_half_even. intros Hd. repeat case_match; lia. Qed.

Lemma round_half_even_exact q d : (0 < d)%Z → round_half_even (q * d) d = q.
Proof.
  intros Hd. unfold round_half_even. rewrite Z.div_mul, Z.mod_mul by lia. simpl.
  rewrite (proj2 (Z.ltb_lt _ _)); lia.
Qed.

Lemma to_float_floor n d :
  (0 ≤ n)%Z → (0 < d)%Z → let '(m, k) := to_float n d in (0 ≤ m ∧ 0 ≤ k ∧ n / d * 2 ^ k ≤ m)%Z.
Proof.
  intros Hn Hd. unfold to_float. destruct (Z.leb_spec n 0).
  { assert (n = 0)%Z as -> by lia. rewrite Z.div_0_l by lia. lia. }
  set (k0 := Z.max 0 _). set (k := if (n * 2 ^ k0 <? 2 ^ 52 * d)%Z then (k0 + 1)%Z else k0).
  assert (0 ≤ k)%Z as Hk by (unfold k, k0; case_match; lia).
  pose proof (round_half_even_bounds (n * 2 ^ k) d Hd) as [Hlo _].
  assert (n / d * 2 ^ k ≤ n * 2 ^ k / d)%Z as Hfl.
  { apply Z.div_le_lower_bound; [done|]. pose proof (Z.mul_div_le n d Hd).
    pose proof (Z.pow_nonneg 2 k ltac:(lia)). nia. }
  pose proof (Z.div_pos n d Hn Hd). pose proof (Z.pow_nonneg 2 k ltac:(lia)). split_and!; nia.
Qed.

(** The stored interval never rounds below the whole seconds asked for, so a spec
    of at least a second never stores an interval of zero. *)
Lemma int_seconds_ge d : (0 ≤ d)%Z → (d / second ≤ int_seconds d)%Z.
Proof.
  intros Hd. unfold int_seconds.
  pose proof (to_float_floor (d mod second) second (proj1 (Z.mod_pos_bound d second ltac:(unfold second; lia)))
    ltac:(unfold second; lia)) as H1.
  destruct (to_float (d mod second) second) as [m1 k1]. destruct H1 as (Hm1 & Hk1 & _).
  pose proof (Z.pow_pos_nonneg 2 k1 ltac:(lia) Hk1) as Hp1.
  pose proof (Z.div_pos d second Hd ltac:(unfold second; lia)) as Hs.
  pose proof (to_float_floor (d / second * 2 ^ k1 + m1) (2 ^ k1) ltac:(nia) Hp1) as H2.
  destruct (to_float _ _) as [m2 k2]. destruct H2 as (_ & Hk2 & Hm2).
  pose proof (Z.pow_pos_nonneg 2 k2 ltac:(lia) Hk2) as Hp2.
  apply Z.div_le_lower_bound; [done|].
  assert (d / second ≤ (d / second * 2 ^ k1 + m1) / 2 ^ k1)%Z by (apply Z.div_le_lower_bound; lia). nia.
Qed.

Lemma int_seconds_whole s : (0 ≤ s)%Z → int_seconds (s * second) = s.
Proof.
  intros Hs. unfold int_seconds. rewrite Z.mod_mul, Z.div_mul by (unfold second; lia).
  change (to_float 0 second) with (0%Z, 0%Z). cbv beta iota. change (2 ^ 0)%Z with 1%Z.
  rewrite Z.mul_1_r, Z.add_0_r. unfold to_float. destruct (Z.leb_spec s 0); [by assert (s = 0)%Z as -> by lia|].
  set (k0 := Z.max 0 _). set (k := if (s * 2 ^ k0 <? _)%Z then (k0 + 1)%Z else k0).
  assert (0 ≤ k)%Z as Hk by (unfold k, k0; case_match; lia).
  rewrite <-(Z.mul_1_r (s * 2 ^ k)), round_half_even_exact by lia. apply Z.div_mul.
  pose proof (Z.pow_pos_nonneg 2 k). lia.
Qed.

(** ** Finding a definition *)

#[global] Instance id_before_trans : Transitive id_before.
Proof. intros a b c. unfold id_before. apply transitivity. Qed.
#[global] Instance id_before_total : Total id_before.
Proof. intros a b. unfold id_before. apply (total bytes_le). Qed.

(** A well-formed definition: named, with exactly one schedule, a bounded history,
    and a pausing actor only while paused. *)
Record periodic_ok (r : jobPeriodicRow) : Prop := {
  pok_slug : p_Slug r ≠ "";
  pok_kind : p_Kind r ≠ "";
  pok_schedule : (∃ e, p_CronExpr r = Some e ∧ e ≠ "" ∧ p_IntervalSeconds r = None) ∨
                 (∃ s, p_IntervalSeconds r = Some s ∧ (0 < s)%Z ∧ p_CronExpr r = None);
  pok_history : length (decodeFires (p_RecentJobs r)) ≤ PeriodicHistorySize;
  pok_pause : p_PausedAt r = None → p_PausedByType r = "" ∧ p_PausedByID r = "" ∧ p_PausedReason r = ""
}.

Record periodics_wf (t : periodics) : Prop := {
  pwf_keyed : ∀ id r, t !! id = Some r → p_ID r = id;
  pwf_slug : ∀ i j a b, t !! i = Some a → t !! j = Some b → p_Slug a = p_Slug b → i = j;
  pwf_rows : map_Forall (λ _ r, periodic_ok r) t
}.

Lemma periodics_wf_empty : periodics_wf ∅.
Proof. split; [by intros id r ?%lookup_empty_Some|by intros i j a b ?%lookup_empty_Some|apply map_Forall_empty]. Qed.

Lemma first_periodic_Some P t r :
  (∀ id r, t !! id = Some r → p_ID r = id) → first_periodic P t = Some r →
  t !! p_ID r = Some r ∧ P r = true.
Proof.
  intros Hk Hh. unfold first_periodic in Hh. apply head_Some_elem_of in Hh.
  rewrite (merge_sort_Permutation id_before) in Hh. apply list_elem_of_filter in Hh as [HP Hr].
  apply list_elem_of_fmap in Hr as ([id r'] & -> & Hr%elem_of_map_to_list). simpl in *.
  by rewrite (Hk _ _ Hr).
Qed.
Lemma first_periodic_None P t : first_periodic P t = None → map_Forall (λ _ r, P r = false) t.
Proof.
  unfold first_periodic. intros Hn%head_None. intros id r Hr. apply not_true_iff_false. intros HP.
  assert (r ∈ merge_sort id_before (filter (λ r, P r = true) (map_to_list t).*2)) as Hin.
  { rewrite (merge_sort_Permutation id_before). apply list_elem_of_filter. split; [done|].
    apply list_elem_of_fmap. exists (id, r). split; [done|]. by apply elem_of_map_to_list. }
  rewrite Hn in Hin. set_solver.
Qed.

Lemma lockPeriodic_Ok slug t r :
  periodics_wf t → lockPeriodic slug t = Ok r ↔ t !! p_ID r = Some r ∧ p_Slug r = slug.
Proof.
  intros Hwf. unfold lockPeriodic, lockPeriodicWhere. split.
  - destruct (first_periodic _ t) as [r'|] eqn:E; [intros [= ->]|done].
    apply first_periodic_Some in E as [? Hs%bool_decide_eq_true]; [done|apply Hwf].
  - intros [Hr Hs]. destruct (first_periodic _ t) as [r'|] eqn:E.
    + apply first_periodic_Some in E as [Hr' Hs'%bool_decide_eq_true]; [|apply Hwf].
      assert (p_ID r' = p_ID r) as Heq by (eapply (pwf_slug _ Hwf); [done..|congruence]). congruence.
    + apply first_periodic_None in E. specialize (E _ _ Hr). unfold has_slug in E.
      by apply bool_decide_eq_false in E.
Qed.

Lemma loadPeriodic_spec slug t :
  periodics_wf t →
  match loadPeriodic slug t with
  | Some r => t !! p_ID r = Some r ∧ p_Slug r = slug
  | None => ∀ id r, t !! id = Some r → p_Slug r ≠ slug
  end.
Proof.
  intros Hwf. unfold loadPeriodic. destruct (first_periodic _ t) as [r|] eqn:E.
  - apply first_periodic_Some in E as [? Hs%bool_decide_eq_true]; [done|apply Hwf].
  - apply first_periodic_None in E. intros id r Hr. specialize (E _ _ Hr). unfold has_slug in E.
    by apply bool_decide_eq_false in E.
Qed.

(** Rewriting one row in place. *)
Lemma wf_alter_periodic (f : jobPeriodicRow → jobPeriodicRow) id t :
  (∀ r, p_ID (f r) = p_ID r ∧ p_Slug (f r) = p_Slug r) →
  (∀ r, t !! id = Some r → periodic_ok r → periodic_ok (f r)) →
  periodics_wf t → periodics_wf (alter f id t).
Proof.
  intros Hf Hok [Hk Hs Hr].
  assert (∀ i r', alter f id t !! i = Some r' →
    ∃ r, t !! i = Some r ∧ p_ID r' = p_ID r ∧ p_Slug r' = p_Slug r) as Hinv.
  { intros i r'. destruct (decide (i = id)) as [->|Hne].
    - rewrite lookup_alter_eq. intros (r & Hr' & ->)%fmap_Some_1. exists r. by destruct (Hf r).
    - rewrite lookup_alter_ne by done. eauto. }
  split.
  - intros i r' (r & Hr' & -> & _)%Hinv. by apply Hk.
  - intros i j a b (a' & Ha & _ & ->)%Hinv (b' & Hb & _ & ->)%Hinv. by eapply Hs.
  - intros i r'. destruct (decide (i = id)) as [->|Hne].
    + rewrite lookup_alter_eq. intros (r & Hr' & ->)%fmap_Some_1. apply Hok; [done|by eapply Hr].
    + rewrite lookup_alter_ne by done. apply Hr.
Qed.

(** ** Writers keep the table well formed *)

Section writers.
Context `{Cron}.

(** The schedule columns a spec stores. *)
Definition spec_cron (spec : PeriodicSpec) : option string :=
  if (0 <? ps_Every spec)%Z then None else Some (ps_Cron spec).
Definition spec_interval (spec : PeriodicSpec) : option Z :=
  if (0 <? ps_Every spec)%Z then Some (int_seconds (ps_Every spec)) else None.

(** A row that carries a spec's definition. *)
Record carries (spec : PeriodicSpec) (source : string) (r : jobPeriodicRow) : Prop := {
  cr_slug : p_Slug r = ps_Slug spec;
  cr_kind : p_Kind r = ps_Kind spec;
  cr_queue : p_Queue r = orString (ps_Queue spec) defaultPeriodicQueue;
  cr_args : p_ArgsTemplate r = orString (ps_ArgsTemplate spec) "{}";
  cr_cron : p_CronExpr r = spec_cron spec;
  cr_interval : p_IntervalSeconds r = spec_interval spec;
  cr_active : p_IsActive r = ps_Active spec;
  cr_source : p_Source r = source
}.

Lemma validate_Ok spec :
  validate spec = Ok () →
  ps_Slug spec ≠ "" ∧ ps_Kind spec ≠ "" ∧
  ((second ≤ ps_Every spec)%Z ∧ ps_Cron spec = "" ∨
   (ps_Every spec ≤ 0)%Z ∧ ps_Cron spec ≠ "" ∧ is_Some (ParseStandard (ps_Cron spec))) ∧
  (ps_ArgsTemplate spec = "" ∨ json_Valid (ps_ArgsTemplate spec) = true).
Proof.
  unfold validate, is_empty. case_bool_decide; [done|]. case_bool_decide; [done|].
  destruct (Z.ltb_spec 0 (ps_Every spec)), (bool_decide (ps_Cron spec = "")) eqn:Ec; simpl; try done;
    apply bool_decide_eq_true in Ec || apply bool_decide_eq_false in Ec.
  - destruct (Z.ltb_spec (ps_Every spec) second); [done|]. simpl.
    case_bool_decide; simpl; [intros _; split_and!; auto|].
    destruct (json_Valid _) eqn:Ev; [|done]. intros _. split_and!; auto.
  - destruct (ParseStandard (ps_Cron spec)) eqn:Ep; [|done]. simpl.
    case_bool_decide; simpl; [intros _; split_and!; eauto|].
    destruct (json_Valid _) eqn:Ev; [|done]. intros _. split_and!; eauto.
Qed.

(** A validated spec stores exactly one schedule. *)
Lemma spec_schedule spec :
  validate spec = Ok () →
  (∃ e, spec_cron spec = Some e ∧ e ≠ "" ∧ spec_interval spec = None) ∨
  (∃ s, spec_interval spec = Some s ∧ (0 < s)%Z ∧ spec_cron spec = None).
Proof.
  intros (_ & _ & Hs & _)%validate_Ok. unfold spec_cron, spec_interval.
  destruct Hs as [[Hge _]|(Hle & Hc & _)].
  - right. rewrite (proj2 (Z.ltb_lt _ _)) by (unfold second in *; lia). eexists. split_and!; [done| |done].
    pose proof (int_seconds_ge (ps_Every spec) ltac:(unfold second in *; lia)).
    enough (1 ≤ ps_Every spec / second)%Z by lia. apply Z.div_le_lower_bound; unfold second in *; lia.
  - left. rewrite (proj2 (Z.ltb_ge _ _)) by lia. eauto.
Qed.

Lemma periodicQueueAndArgs_eq spec :
  periodicQueueAndArgs spec =
  (orString (ps_Queue spec) defaultPeriodicQueue, orString (ps_ArgsTemplate spec) "{}").
Proof. done. Qed.

(** A landed insert adds one row that carries the spec, unpaused, with no history
    and its cursor at the first fire after now; a skipped one changes nothing, and
    the slug (or the minted id) is taken. *)
Lemma insertPeriodic_Ok ctx spec source now t o t' :
  c_NewID ctx 0 ≠ "" → validate spec = Ok () → insertPeriodic ctx spec source now t = Ok (o, t') →
  match o with
  | Some row => carries spec source row ∧ p_ID row = c_NewID ctx 0 ∧ t !! p_ID row = None ∧
      (∀ id r, t !! id = Some r → p_Slug r ≠ ps_Slug spec) ∧ t' = <[p_ID row := row]> t ∧
      (p_PausedAt row = None ∧ p_PausedByType row = "" ∧ p_PausedByID row = "" ∧ p_PausedReason row = "") ∧
      p_RecentJobs row = Some [] ∧ nextFireAfter spec now = Ok (p_NextRunAt row) ∧ p_NextRunAt row ≠ zero_time
  | None => t' = t ∧ ((∃ r, t !! c_NewID ctx 0 = Some r) ∨ (∃ id r, t !! id = Some r ∧ p_Slug r = ps_Slug spec))
  end.
Proof.
  intros Hid (Hs & Hk & _)%validate_Ok. unfold insertPeriodic, periodicRow.
  destruct (nextFireAfter spec now) as [next|] eqn:En; [|done].
  rewrite periodicQueueAndArgs_eq. unfold periodic_BeforeSave. cbn [p_ID p_Slug p_Kind p_NextRunAt].
  rewrite (nonempty _ Hs), (nonempty _ Hk), andb_false_r.
  destruct (is_zero_time next) eqn:Ez; [done|]. destruct (Bool.eqb _ _); [done|].
  set (row := periodic_BeforeCreate _ _ _).
  assert (p_ID row = c_NewID ctx 0) as Hrow by done.
  unfold periodic_admits. case_bool_decide as Hadm; intros [= <- <-].
  - split_and!; try done.
    + split; try done; unfold row, periodic_BeforeCreate; cbn [p_Queue p_ArgsTemplate].
      * unfold orString. by destruct (is_empty (ps_Queue spec)) eqn:E; [|rewrite E].
      * unfold orString. by destruct (is_empty (ps_ArgsTemplate spec)) eqn:E; [|rewrite E].
    + destruct (t !! p_ID row) as [r|] eqn:Hr; [|done]. by destruct (Hadm _ _ Hr).
    + intros id r Hr. by destruct (Hadm _ _ Hr).
    + unfold is_zero_time in Ez. by apply Z.eqb_neq in Ez.
  - split; [done|]. destruct (decide (map_Exists (λ _ r, p_Slug r = ps_Slug spec) t)) as [(id & r & ? & ?)|Hn].
    { right; eauto. }
    left. destruct (t !! c_NewID ctx 0) as [r|] eqn:Hr; [eauto|]. destruct Hadm. intros id r Hr'. split.
    + intros ->. by rewrite Hrow, Hr in Hr'.
    + intros Hsl. apply Hn. by exists id, r.
Qed.

Lemma wf_insertPeriodic ctx spec source now t o t' :
  c_NewID ctx 0 ≠ "" → validate spec = Ok () → insertPeriodic ctx spec source now t = Ok (o, t') →
  periodics_wf t → periodics_wf t'.
Proof.
  intros Hid Hv Hi [Hk Hs Hr]. pose proof (insertPeriodic_Ok _ _ _ _ _ _ _ Hid Hv Hi) as Ho.
  destruct o as [row|]; [|by destruct Ho as [-> _]].
  destruct Ho as (Hc & _ & Hnew & Hslug & -> & Hp & Hh & _).
  pose proof (cr_slug _ _ _ Hc) as Hsl. pose proof (validate_Ok _ Hv) as (Hs1 & Hk1 & _). split.
  - intros id r [[<- <-]|[_ ?]]%lookup_insert_Some; [done|by apply Hk].
  - intros i j a b [[<- <-]|[? Ha]]%lookup_insert_Some [[<- <-]|[? Hb]]%lookup_insert_Some Hab; try done.
    + destruct (Hslug _ _ Hb). congruence.
    + destruct (Hslug _ _ Ha). congruence.
    + by eapply Hs.
  - apply map_Forall_insert_2; [|done]. split.
    + congruence.
    + by rewrite (cr_kind _ _ _ Hc).
    + rewrite (cr_cron _ _ _ Hc), (cr_interval _ _ _ Hc). by apply spec_schedule.
    + rewrite Hh. simpl. unfold PeriodicHistorySize. lia.
    + intros _. by destruct Hp as (_ & ? & ? & ?).
Qed.

(** An update leaves one row carrying the spec; it keeps the pause and the
    history, and moves the cursor only when the schedule changed. *)
Lemma updatePeriodic_Ok existing spec source now t t' :
  updatePeriodic existing spec source now t = Ok t' →
  ∃ nextRun, t' = alter (set_definition spec source now nextRun) (p_ID existing) t ∧
    match nextRun with
    | Some n => scheduleChanged existing spec = true ∧ nextFireAfter spec now = Ok n
    | None => scheduleChanged existing spec = false
    end.
Proof.
  unfold updatePeriodic. destruct (scheduleChanged existing spec) eqn:E.
  - destruct (nextFireAfter spec now) as [n|]; [|done]. intros [= <-]. by exists (Some n).
  - intros [= <-]. by exists None.
Qed.

Lemma set_definition_carries spec source now nextRun r :
  p_Slug r = ps_Slug spec → carries spec source (set_definition spec source now nextRun r).
Proof. intros Hs. by split. Qed.

Lemma wf_updatePeriodic existing spec source now t t' :
  validate spec = Ok () → updatePeriodic existing spec source now t = Ok t' →
  periodics_wf t → periodics_wf t'.
Proof.
  intros Hv (nextRun & -> & _)%updatePeriodic_Ok Hwf. apply wf_alter_periodic; [done| |done].
  intros r _ [? ? ? ? ?]. pose proof (validate_Ok _ Hv) as (? & ? & _).
  split; unfold set_definition; cbn; try done. by apply spec_schedule.
Qed.

(** ** Upsert *)

Lemma wf_upsertPeriodic ctx w spec source t o t' :
  c_NewID ctx 0 ≠ "" → (∀ k t, periodics_wf t → periodics_wf (w k t)) → periodics_wf t →
  upsertPeriodic ctx w spec source t = Ok (o, t') → periodics_wf t'.
Proof.
  intros Hid Hw Hwf. unfold upsertPeriodic. destruct (validate spec) as [[]|] eqn:Hv; [|done].
  destruct (loadPeriodic _ t) as [e|].
  { destruct (updatePeriodic _ _ _ _ _) eqn:Eu; [|done]. intros [= <- <-].
    by eapply wf_updatePeriodic; eauto. }
  destruct (insertPeriodic _ _ _ _ _) as [[o1 t1]|] eqn:Ei; [|done].
  assert (periodics_wf t1) as Hwf1 by (eapply wf_insertPeriodic; eauto).
  destruct o1 as [row|]; [intros [= <- <-]; done|].
  destruct (loadPeriodic _ (w 1 t1)) as [e|]; [|done].
  destruct (updatePeriodic _ _ _ _ _) eqn:Eu; [|done]. intros [= <- <-].
  by eapply wf_updatePeriodic; eauto.
Qed.

(** What an operator wrote on a definition, and what it fired. *)
Record same_operator (a b : jobPeriodicRow) : Prop := {
  so_paused : p_PausedAt b = p_PausedAt a;
  so_by : p_PausedByType b = p_PausedByType a ∧ p_PausedByID b = p_PausedByID a ∧
          p_PausedReason b = p_PausedReason a;
  so_history : p_RecentJobs b = p_RecentJobs a ∧ p_LastEnqueuedAt b = p_LastEnqueuedAt a
}.

(** Other sessions keep the table well formed and never move a row to another slug. *)
Record others_ok (w : nat → periodics → periodics) : Prop := {
  ow_wf : ∀ k t, periodics_wf t → periodics_wf (w k t);
  ow_slug : ∀ k t id a b, t !! id = Some a → w k t !! id = Some b → p_Slug b = p_Slug a
}.

Lemma alter_carries spec source now nextRun old (base : periodics) :
  (∀ cur, base !! p_ID old = Some cur → p_Slug cur = ps_Slug spec) →
  let t' := alter (set_definition spec source now nextRun) (p_ID old) base in
  (∀ id, id ≠ p_ID old → t' !! id = base !! id) ∧
  match base !! p_ID old with
  | None => t' = base
  | Some cur => ∃ r, t' !! p_ID old = Some r ∧ carries spec source r ∧ same_operator cur r ∧
      p_NextRunAt r = default (p_NextRunAt cur) nextRun
  end.
Proof.
  intros Hslug t'. split; [intros id Hne; by apply lookup_alter_ne|].
  destruct (base !! p_ID old) as [cur|] eqn:Hcur.
  - exists (set_definition spec source now nextRun cur). unfold t'. rewrite lookup_alter_eq, Hcur.
    split_and!; [done|by apply set_definition_carries, Hslug|done|done].
  - unfold t'. apply map_eq. intros id. destruct (decide (id = p_ID old)) as [->|].
    + by rewrite lookup_alter_eq, Hcur.
    + by rewrite lookup_alter_ne.
Qed.

(** The update of an upsert, against the table it finds. *)
Lemma update_applies old spec source now (base t' : periodics) :
  (∀ cur, base !! p_ID old = Some cur → p_Slug cur = ps_Slug spec) →
  updatePeriodic old spec source now base = Ok t' →
  (∀ id, id ≠ p_ID old → t' !! id = base !! id) ∧
  match base !! p_ID old with
  | None => t' = base
  | Some cur => ∃ r, t' !! p_ID old = Some r ∧ carries spec source r ∧ same_operator cur r ∧
      (if scheduleChanged old spec then nextFireAfter spec now = Ok (p_NextRunAt r)
       else p_NextRunAt r = p_NextRunAt cur)
  end.
Proof.
  intros Hslug (nextRun & -> & Hn)%updatePeriodic_Ok.
  destruct (alter_carries spec source now nextRun old base Hslug) as [Hf Hr]. split; [done|].
  destruct (base !! p_ID old); [|done]. destruct Hr as (r & ? & ? & ? & Hnr). exists r. split_and!; try done.
  destruct nextRun; [destruct Hn as [-> ->]; by rewrite Hnr|by rewrite Hn].
Qed.

(** UpsertPeriodic, whatever other sessions commit between its statements: it
    either inserts one row carrying the spec, unpaused, its cursor at the first
    fire after now; or it updates the one row that holds the slug, leaving that
    row's pause and history as they stand and its cursor too unless the schedule
    changed, in which case the cursor is the first fire after now. Only when that
    row was deleted under it does nothing carry the spec. *)
Theorem upsert_applies ctx w spec source t o t' :
  c_NewID ctx 0 ≠ "" → others_ok w → periodics_wf t → upsertPeriodic ctx w spec source t = Ok (o, t') →
  match o with
  | None => ∃ r, t' = <[p_ID r := r]> (w 0 t) ∧ w 0 t !! p_ID r = None ∧ carries spec source r ∧
      p_PausedAt r = None ∧ p_RecentJobs r = Some [] ∧ nextFireAfter spec (c_Now ctx 0) = Ok (p_NextRunAt r)
  | Some old => p_Slug old = ps_Slug spec ∧
      ∃ base, (base = w 0 t ∨ base = w 2 (w 1 (w 0 t))) ∧
        (∀ id, id ≠ p_ID old → t' !! id = base !! id) ∧
        match base !! p_ID old with
        | None => t' = base
        | Some cur => ∃ r, t' !! p_ID old = Some r ∧ carries spec source r ∧ same_operator cur r ∧
            (if scheduleChanged old spec then nextFireAfter spec (c_Now ctx 0) = Ok (p_NextRunAt r)
             else p_NextRunAt r = p_NextRunAt cur)
        end
  end.
Proof.
  intros Hid [Hww Hws] Hwf. unfold upsertPeriodic. destruct (validate spec) as [[]|] eqn:Hv; [|done].
  pose proof (loadPeriodic_spec (ps_Slug spec) t Hwf) as Hload.
  destruct (loadPeriodic (ps_Slug spec) t) as [old|].
  { destruct (updatePeriodic _ _ _ _ _) as [t1|] eqn:Eu; [|done]. intros [= <- <-].
    destruct Hload as [Hold Hs]. split; [done|]. exists (w 0 t). split; [by left|].
    eapply update_applies; [|done]. intros cur Hcur. by rewrite (Hws _ _ _ _ _ Hold Hcur). }
  destruct (insertPeriodic _ _ _ _ _) as [[o1 t1]|] eqn:Ei; [|done].
  pose proof (insertPeriodic_Ok _ _ _ _ _ _ _ Hid Hv Ei) as Hi. destruct o1 as [row|].
  { intros [= <- <-]. exists row. naive_solver. }
  destruct Hi as [-> _]. pose proof (loadPeriodic_spec (ps_Slug spec) (w 1 (w 0 t)) ltac:(auto)) as Hload2.
  destruct (loadPeriodic _ (w 1 _)) as [old|]; [|done].
  destruct (updatePeriodic _ _ _ _ _) as [t2|] eqn:Eu; [|done]. intros [= <- <-].
  destruct Hload2 as [Hold Hs]. split; [done|]. exists (w 2 (w 1 (w 0 t))). split; [by right|].
  eapply update_applies; [|done]. intros cur Hcur. by rewrite (Hws _ _ _ _ _ Hold Hcur).
Qed.
End writers.

(** ** The schedule's grid *)

Lemma interval_of_small s : (0 < s)%Z → (s * second ≤ int64_max)%Z → interval_of s = (s * second)%Z.
Proof. intros. unfold interval_of. apply wrap64_id. unfold in_int64, int64_min, second in *. lia. Qed.

(** The closed form both resumedNextRun and NextPeriodicFires use: the first
    point of the grid after an instant. *)
Lemma grid_after next now i :
  (0 < i)%Z → (next ≤ now)%Z → (now - next + i ≤ int64_max)%Z →
  let v := (next + wrap64 ((Z.quot (time_sub now next) i + 1) * i))%Z in
  (now < v ≤ now + i)%Z ∧ ∃ k, (0 < k)%Z ∧ v = (next + k * i)%Z.
Proof.
  intros Hi Hle Hfit v. unfold v, time_sub.
  rewrite Z.min_r, Z.max_r by (unfold int64_min, int64_max in *; lia).
  rewrite Z.quot_div_nonneg by lia. set (q := ((now - next) / i)%Z).
  pose proof (Z.mul_div_le (now - next) i Hi) as H1. pose proof (Z.mul_succ_div_gt (now - next) i Hi) as H2.
  fold q in H1, H2. assert (0 ≤ q)%Z by (apply Z.div_pos; lia).
  rewrite wrap64_id by (unfold in_int64, int64_min in *; nia). split; [nia|]. exists (q + 1)%Z. lia.
Qed.

Section schedule.
Context `{Cron} {CL : CronLaws}.

(** What keeps a row's next fire representable: int64 durations do not overflow,
    and a cron expression still matches some time. *)
Definition next_representable (r : jobPeriodicRow) (now : Z) : Prop :=
  match p_IntervalSeconds r with
  | Some s => (0 < s ∧ Z.max 0 (now - p_NextRunAt r) + s * second ≤ int64_max)%Z
  | None => ∀ e next, p_CronExpr r = Some e → ParseStandard e = Some next → next now ≠ zero_time
  end.

Lemma resumedNextRun_later r now n :
  next_representable r now → resumedNextRun r now = Ok n →
  (now < n)%Z ∧ ((now < p_NextRunAt r)%Z → n = p_NextRunAt r) ∧
  ∀ s, p_IntervalSeconds r = Some s →
    ∃ k, (0 ≤ k)%Z ∧ n = (p_NextRunAt r + k * (s * second))%Z ∧
      (n ≤ Z.max (p_NextRunAt r) (now + s * second))%Z.
Proof.
  intros Hrep. unfold resumedNextRun, next_representable in *.
  destruct (Z.ltb_spec now (p_NextRunAt r)) as [Hlt|Hge].
  { intros [= <-]. split_and!; [done|done|]. intros s Hs. exists 0%Z. lia. }
  destruct (p_IntervalSeconds r) as [s|].
  - destruct Hrep as [Hs Hfit]. rewrite (proj2 (Z.ltb_lt _ _) Hs). rewrite Z.max_r in Hfit by lia.
    rewrite interval_of_small by lia.
    intros [= <-]. destruct (grid_after (p_NextRunAt r) now (s * second)) as ([H1 H2] & k & Hk & Hv);
      [unfold second in *; lia|lia|lia|].
    split_and!; [done|lia|]. intros s' [= <-]. exists k. split_and!; [lia|done|lia].
  - destruct (p_CronExpr r) as [e|]; [|done]. destruct (is_empty e); [done|].
    destruct (ParseStandard e) as [next|] eqn:Ep; [|done]. intros [= <-].
    split_and!; [|lia|done]. destruct (cron_next_later e next now Ep) as [Hz|]; [|done].
    by destruct (Hrep e next).
Qed.

Lemma interval_fires_eq n next i :
  interval_fires n next i = (λ k, next + Z.of_nat k * i)%Z <$> seq 0 n.
Proof.
  revert next. induction n as [|n IH]; intros next; [done|]. simpl. rewrite IH, <-fmap_S_seq. f_equal; [lia|].
  rewrite <-list_fmap_compose. apply list_fmap_ext. intros k x _. simpl. lia.
Qed.

Lemma interval_fires_sorted n next i :
  (0 < i)%Z → StronglySorted Z.lt (interval_fires n next i) ∧ Forall (Z.le next) (interval_fires n next i).
Proof.
  intros Hi. revert next. induction n as [|n IH]; intros next; simpl; [by repeat constructor|].
  destruct (IH (next + i)%Z) as [Hs Hf]. split; constructor; first [done | lia | eapply Forall_impl; [exact Hf|]; simpl; lia].
Qed.

Lemma cron_fires_sorted expr schedule n next :
  ParseStandard expr = Some schedule →
  StronglySorted Z.lt (cron_fires n schedule next) ∧
  (next ≠ zero_time → Forall (Z.le next) (cron_fires n schedule next)) ∧
  length (cron_fires n schedule next) ≤ n ∧
  (length (cron_fires n schedule next) < n → next = zero_time ∨ ∃ t, schedule t = zero_time).
Proof.
  intros Hp. revert next. induction n as [|n IH]; intros next; simpl; [split_and!; try lia; by constructor|].
  unfold is_zero_time. destruct (Z.eqb_spec next zero_time) as [Hz|Hz].
  { split_and!; simpl; auto with lia; constructor. }
  destruct (IH (schedule next)) as (Hs & Hf & Hl & Hshort).
  assert (Forall (Z.lt next) (cron_fires n schedule (schedule next))) as Hlt.
  { destruct (cron_next_later expr schedule next Hp) as [E|Hlater].
    - destruct n; simpl; [constructor|]. rewrite E. unfold is_zero_time. rewrite Z.eqb_refl. constructor.
    - destruct (Z.eq_dec (schedule next) zero_time) as [E|E].
      + destruct n; simpl; [constructor|]. rewrite E. unfold is_zero_time. rewrite Z.eqb_refl. constructor.
      + eapply Forall_impl; [by apply Hf|]. simpl. lia. }
  split_and!.
  - by constructor.
  - intros _. constructor; [lia|]. eapply Forall_impl; [exact Hlt|]. simpl. lia.
  - simpl. lia.
  - simpl. intros Hlen. destruct Hshort as [?|?]; [lia|eauto..].
Qed.

(** The fire times a schedule lists are the ones it will fire at: strictly after
    the given instant, earliest first, at most as many as asked. An interval lists
    exactly that many, one interval apart from the first point of the definition's
    own grid after the instant; a cron lists fewer only where it matches no further
    time. *)
Theorem next_fires_listed p after n fires :
  NextPeriodicFires p after n = Ok fires → (zero_time ≤ after)%Z →
  (pv_IntervalSeconds p * second + Z.max 0 (after - pv_NextRunAt p) ≤ int64_max)%Z →
  StronglySorted Z.lt fires ∧ Forall (Z.lt after) fires ∧ (Z.of_nat (length fires) ≤ n ≤ MaxNextFires)%Z ∧
  (if (0 <? pv_IntervalSeconds p)%Z then
     let i := (pv_IntervalSeconds p * second)%Z in
     ∃ first, fires = (λ k, first + Z.of_nat k * i)%Z <$> seq 0 (Z.to_nat n) ∧
       (first ≤ Z.max (pv_NextRunAt p) (after + i))%Z ∧
       (pv_NextRunAt p ≠ zero_time → ∃ k, (0 ≤ k)%Z ∧ first = (pv_NextRunAt p + k * i)%Z)
   else (Z.of_nat (length fires) < n)%Z →
     ∃ schedule t, ParseStandard (pv_Cron p) = Some schedule ∧ schedule t = zero_time).
Proof.
  unfold NextPeriodicFires. destruct (Z.ltb_spec n 1), (Z.ltb_spec MaxNextFires n); try done.
  cbn [orb]. destruct (Z.ltb_spec 0 (pv_IntervalSeconds p)) as [Hs|Hs].
  - intros [= <-] _ Hfit. rewrite interval_of_small by lia.
    set (i := (pv_IntervalSeconds p * second)%Z) in *. assert (0 < i)%Z as Hi by (unfold i, second in *; lia).
    set (first := if is_zero_time (pv_NextRunAt p) then _ else _).
    assert (after < first ≤ Z.max (pv_NextRunAt p) (after + i) ∧
      (pv_NextRunAt p ≠ zero_time → ∃ k, 0 ≤ k ∧ first = pv_NextRunAt p + k * i))%Z as ([Hlo Hhi] & Hgrid).
    { unfold first, is_zero_time. destruct (Z.eqb_spec (pv_NextRunAt p) zero_time) as [?|?]; [split; [lia|done]|].
      destruct (Z.leb_spec (pv_NextRunAt p) after).
      - destruct (grid_after (pv_NextRunAt p) after i) as (? & k & ? & ?); [lia..|].
        split; [lia|]. intros _. exists k. lia.
      - split; [lia|]. intros _. exists 0%Z. lia. }
    destruct (interval_fires_sorted (Z.to_nat n) first i Hi) as [Hsort Hall]. split_and!.
    + done.
    + eapply Forall_impl; [exact Hall|]. simpl. lia.
    + rewrite interval_fires_eq, length_fmap, length_seq. lia.
    + done.
    + exists first. split_and!; [apply interval_fires_eq|done|done].
  - destruct (negb _); [|done]. destruct (ParseStandard (pv_Cron p)) as [schedule|] eqn:Ep; [|done].
    intros [= <-] Hafter _. set (next := if (pv_NextRunAt p <=? after)%Z then _ else _).
    destruct (cron_fires_sorted _ schedule (Z.to_nat n) next Ep) as (Hsort & Hall & Hlen & Hshort).
    split_and!; [done| |lia|done|].
    + destruct (Z.eq_dec next zero_time) as [Hz|Hz].
      { destruct (Z.to_nat n); simpl; [constructor|]. rewrite Hz. unfold is_zero_time.
        rewrite Z.eqb_refl. constructor. }
      eapply Forall_impl; [by apply Hall|]. simpl. intros t Ht. unfold next in *.
      destruct (Z.leb_spec (pv_NextRunAt p) after); [|lia].
      destruct (cron_next_later _ schedule after Ep) as [?|?]; [done|lia].
    + intros Hl. exists schedule. destruct Hshort as [Hz|[t Ht]]; [lia| |by exists t].
      unfold next in Hz. destruct (Z.leb_spec (pv_NextRunAt p) after); [by exists after|lia].
Qed.
End schedule.

(** ** The controls, one row at a time *)

Lemma prependFires_Ok stored fires ring :
  prependFires stored fires = Ok ring → ring = take PeriodicHistorySize (reverse fires ++ decodeFires stored).
Proof.
  unfold prependFires. set (r1 := take _ (reverse fires)). case_match; [|done]. intros [= <-].
  unfold r1. rewrite firstn_app. f_equal. f_equal. rewrite length_take, length_reverse. lia.
Qed.

Section controls.
Context `{Cron} `{Foundation} `{RowOrder}.

(** What a control on a definition did: it read the one row of its slug, rewrote
    it with [f] (or not at all), and wrote the audit entries [entries]. *)
Record controlled (cc : control) (slug : string) (row : jobPeriodicRow)
    (f : jobPeriodicRow → jobPeriodicRow) (entries : list auditChange) (t t' : periodics) (d d' : db)
  : Prop := {
  ct_actor : ∃ actor, resolveActor cc = Ok actor ∧
    d' = with_audit (job_audit d ++ imap (audit_row cc actor (c_Now (cc_ctx cc) 0)) entries) d;
  ct_row : t !! p_ID row = Some row ∧ p_Slug row = slug;
  ct_table : t' = alter f (p_ID row) t
}.

Lemma with_audit_same d : with_audit (job_audit d ++ []) d = d.
Proof. rewrite app_nil_r. by destruct d. Qed.
Lemma alter_same (id : string) (t : periodics) : alter (λ r, r) id t = t.
Proof. apply alter_id. done. Qed.

Ltac controlled_tac :=
  repeat match goal with
  | Hwf : periodics_wf ?t, E : lockPeriodic ?slug ?t = Ok ?row |- _ =>
    apply (lockPeriodic_Ok slug t row Hwf) in E
  | E : recordAudit _ _ _ _ _ = Ok _ |- _ => apply recordAudit_Ok in E as ->
  end;
  split; [eexists; split; [done|]; by rewrite ?with_audit_same|done|by rewrite ?alter_same].

Lemma SetPeriodicActive_Ok cc slug active t d t' d' :
  periodics_wf t → SetPeriodicActive cc slug active t d = Ok (t', d') →
  ∃ row, controlled cc slug row (set_active active (c_Now (cc_ctx cc) 0))
    (if Bool.eqb (p_IsActive row) active then []
     else [periodic_change slug (if active then AuditActivated else AuditDeactivated) ∅]) t t' d d'.
Proof.
  intros Hwf. unfold SetPeriodicActive. destruct (resolveActor cc) as [actor|] eqn:Ea; [|done].
  destruct (lockPeriodic slug t) as [row|] eqn:E; [|done]. intros Hres. exists row. revert Hres.
  destruct (Bool.eqb _ _); [intros [= <- <-]; controlled_tac|].
  destruct (recordAudit _ _ _ _ _) as [d1|] eqn:Er; [|done]. intros [= <- <-]. controlled_tac.
Qed.

Lemma PausePeriodic_Ok cc slug t d t' d' :
  periodics_wf t → PausePeriodic cc slug t d = Ok (t', d') →
  ∃ row actor, resolveActor cc = Ok actor ∧
    match p_PausedAt row with
    | Some _ => controlled cc slug row (λ r, r) [] t t' d d'
    | None => controlled cc slug row
        (λ r, set_pause (Some (c_Now (cc_ctx cc) 0)) (ActorType_string (ac_Type actor)) (ac_ID actor)
                (ac_Reason actor) (p_NextRunAt r) (c_Now (cc_ctx cc) 0) r)
        [periodic_change slug AuditPaused ∅] t t' d d'
    end.
Proof.
  intros Hwf. unfold PausePeriodic. destruct (resolveActor cc) as [actor|] eqn:Ea; [|done].
  destruct (lockPeriodic slug t) as [row|] eqn:E; [|done]. intros Hres. exists row, actor.
  split; [done|]. revert Hres. destruct (p_PausedAt row); [intros [= <- <-]; controlled_tac|].
  destruct (recordAudit _ _ _ _ _) as [d1|] eqn:Er; [|done]. intros [= <- <-]. controlled_tac.
Qed.

Lemma ResumePeriodic_Ok cc slug t d t' d' :
  periodics_wf t → ResumePeriodic cc slug t d = Ok (t', d') →
  ∃ row, match p_PausedAt row with
    | None => controlled cc slug row (λ r, r) [] t t' d d'
    | Some _ => ∃ nextRun, resumedNextRun row (c_Now (cc_ctx cc) 0) = Ok nextRun ∧
        controlled cc slug row (set_pause None "" "" "" nextRun (c_Now (cc_ctx cc) 0))
          [periodic_change slug AuditResumed ∅] t t' d d'
    end.
Proof.
  intros Hwf. unfold ResumePeriodic. destruct (resolveActor cc) as [actor|] eqn:Ea; [|done].
  destruct (lockPeriodic slug t) as [row|] eqn:E; [|done]. intros Hres. exists row. revert Hres.
  destruct (p_PausedAt row); [|intros [= <- <-]; controlled_tac].
  destruct (resumedNextRun _ _) as [n|]; [|done].
  destruct (recordAudit _ _ _ _ _) as [d1|] eqn:Er; [|done]. intros [= <- <-]. exists n. split; [done|].
  controlled_tac.
Qed.

Lemma DeletePeriodic_Ok cc slug t d t' d' :
  periodics_wf t → DeletePeriodic cc slug t d = Ok (t', d') →
  ∃ row actor, resolveActor cc = Ok actor ∧ t !! p_ID row = Some row ∧ p_Slug row = slug ∧
    t' = delete (p_ID row) t ∧
    d' = with_audit (job_audit d ++ imap (audit_row cc actor (c_Now (cc_ctx cc) 0))
                                      [periodic_change slug AuditDeleted ∅]) d.
Proof.
  intros Hwf. unfold DeletePeriodic. destruct (resolveActor cc) as [actor|] eqn:Ea; [|done].
  destruct (lockPeriodic slug t) as [row|] eqn:E; [|done]. apply lockPeriodic_Ok in E as [? ?]; [|done].
  destruct (recordAudit _ _ _ _ _) as [d1|] eqn:Er; [|done]. intros [= <- <-].
  apply recordAudit_Ok in Er as ->. by exists row, actor.
Qed.

(** A manual run commits its job, its history entry and its audit entry together. *)
Lemma TriggerPeriodic_Ok cl cc slug t d id t' d' :
  periodics_wf t → TriggerPeriodic cl cc slug t d = Ok (id, t', d') →
  ∃ row d1 ring, prependFires (p_RecentJobs row)
      [{| fe_JobID := id; fe_FiredAt := c_Now (cc_ctx cc) 0; fe_Manual := true |}] = Ok ring ∧
    (∃ o, client_insert cl (cc_ctx cc) (p_Kind row) (orString (p_ArgsTemplate row) "{}") o
       InsertSourcePeriodic slug d = Ok (Some id, d1) ∧ o_UniqueKey o = "" ∧ o_UniqueActiveKey o = "") ∧
    controlled cc slug row (set_fires None (c_Now (cc_ctx cc) 0) ring (c_Now (cc_ctx cc) 0))
      [periodic_change slug AuditTriggered {["job_id" := DText id]}] t t' d1 d'.
Proof.
  intros Hwf. unfold TriggerPeriodic. destruct (resolveActor cc) as [actor|] eqn:Ea; [|done].
  destruct (lockPeriodic slug t) as [row|] eqn:E; [|done].
  destruct (client_insert _ _ _ _ _ _ _ _) as [[[jid|] d1]|] eqn:Ei; [|done..].
  destruct (prependFires _ _) as [ring|] eqn:Ep; [|done].
  destruct (recordAudit _ _ _ _ _) as [d2|] eqn:Er; [|done]. intros [= <- <- <-].
  exists row, d1, ring. split; [done|]. split; [eexists; split; [exact Ei|done]|]. controlled_tac.
Qed.

Lemma wf_controlled cc slug row f entries t t' d d' :
  controlled cc slug row f entries t t' d d' →
  (∀ r, p_ID (f r) = p_ID r ∧ p_Slug (f r) = p_Slug r) → (∀ r, periodic_ok r → periodic_ok (f r)) →
  periodics_wf t → periodics_wf t'.
Proof. intros [_ _ ->] Hf Hok. apply wf_alter_periodic; auto. Qed.

Lemma wf_delete_periodic (id : string) (t : periodics) : periodics_wf t → periodics_wf (delete id t).
Proof.
  intros [Hk Hs Hr]. split.
  - intros i r [_ ?]%lookup_delete_Some. by apply Hk.
  - intros i j a b [_ ?]%lookup_delete_Some [_ ?]%lookup_delete_Some. by eapply Hs.
  - by apply map_Forall_delete.
Qed.

Lemma set_fires_ok nextRun last ring now r :
  length ring ≤ PeriodicHistorySize → periodic_ok r → periodic_ok (set_fires nextRun last ring now r).
Proof. intros Hl [? ? ? ? ?]. by split. Qed.
Lemma prependFires_length stored fires ring :
  prependFires stored fires = Ok ring → length ring ≤ PeriodicHistorySize.
Proof. intros ->%prependFires_Ok. rewrite length_take. lia. Qed.
End controls.
