(* ===== verification/Scheduler.v ===== *)
(** * The scheduler: firing periodic definitions

    internal/core/scheduler.go and scheduler_periodics.go: which buckets of a
    schedule a tick fires, the enqueue of each under its bucketed key, the advance
    of the cursor with its history, the tick over every due definition, the
    start-up apply of declared definitions with its retry, and the insert-only
    reconcile. A tick is a sequence of transactions, one per insert and one per
    advance. *)

From Stdlib Require Import Ascii.
From stdpp Require Import pretty.
From S2P Require Import Prelude Types Text Json Store Insert Barrier Sweep Client Controls Periodic.

(** ** Missed fires *)

(** [intervalBuckets]: int is int64; a product of durations wraps. *)
Definition intervalBuckets (start intervalSeconds now limit : Z) : list Z * Z :=
  let interval := interval_of intervalSeconds in
  if (interval <=? 0)%Z || (now <? start)%Z then ([], start)
  else
    let n := Z.quot (time_sub now start) interval in
    let first := if (0 <? limit)%Z && (limit <? n + 1)%Z then (n + 1 - limit)%Z else 0%Z in
    ((λ k, start + wrap64 ((first + Z.of_nat k) * interval))%Z <$> seq 0 (Z.to_nat (n - first + 1)),
     (start + wrap64 ((n + 1) * interval))%Z).

(** The loop of [cronBuckets] with a limit: a ring of the last [limit] fires, how
    many it saw, and the first one after now. [None] is the fuel running out. *)
Fixpoint cron_ring (fuel : nat) (schedule : Z → Z) (limit : nat) (now : Z) (ring : list Z) (n : nat) (t : Z)
  : option (list Z * nat * Z) :=
  match fuel with
  | O => None
  | S fuel =>
    if (now <? t)%Z then Some (ring, n, t)
    else cron_ring fuel schedule limit now (<[n mod limit := t]> ring) (S n) (schedule t)
  end.
(** Without one it collects every fire. *)
Fixpoint cron_all (fuel : nat) (schedule : Z → Z) (now t : Z) : option (list Z * Z) :=
  match fuel with
  | O => None
  | S fuel =>
    if (now <? t)%Z then Some ([], t)
    else match cron_all fuel schedule now (schedule t) with
         | Some (all, next) => Some (t :: all, next)
         | None => None
         end
  end.

Section scheduler.
Context `{Cron} `{Foundation} `{RowOrder}.

Definition cronBuckets (fuel : nat) (expr : string) (start now limit : Z) : option (res (list Z * Z)) :=
  match ParseStandard expr with
  | None => Some (Err ErrCronSpec)
  | Some schedule =>
    if (limit <=? 0)%Z then
      match cron_all fuel schedule now start with Some r => Some (Ok r) | None => None end
    else
      let limit := Z.to_nat limit in
      match cron_ring fuel schedule limit now (replicate limit zero_time) 0 start with
      | None => None
      | Some (ring, n, t) =>
        let count := n `min` limit in
        Some (Ok ((λ i, ring !!! ((n - count + i) mod limit)) <$> seq 0 count, t))
      end
  end.

(** ** Firing one definition *)

Definition bucket_key (slug : string) (bucket : Z) : string := slug +:+ "@" +:+ pretty (bucket / second)%Z.

(** [enqueueBucket]: the job's id, or [None] for a collision. *)
Definition enqueueBucket (cl : Client) (ctx : context) (def : jobPeriodicRow) (bucket : Z) (d : db)
  : res (option string * db) :=
  let payload := if is_empty (p_ArgsTemplate def) then "{}" else p_ArgsTemplate def in
  client_insert cl ctx (p_Kind def) payload
    {| o_Queue := p_Queue def; o_UniqueKey := bucket_key (p_Slug def) bucket; o_UniqueActiveKey := "";
       o_ScheduleAt := Some bucket; o_Parent := None; o_Priority := 0; o_ExecutorClass := "";
       o_MaxAttempts := 0; o_Timeout := 0; o_Tx := false; o_RequestID := ""; o_Tags := [];
       o_Metadata := ∅ |} InsertSourcePeriodic (p_Slug def) d.

(** The enqueue loop of [fire]; the k-th insert runs under its own context. *)
Fixpoint enqueueBuckets (cl : Client) (ctxs : nat → context) (k : nat) (def : jobPeriodicRow)
    (buckets : list Z) (d : db) : list periodicFireEntry * option error * db :=
  match buckets with
  | [] => ([], None, d)
  | bucket :: rest =>
    match enqueueBucket cl (ctxs k) def bucket d with
    | Err e => ([], Some e, d)
    | Ok (id, d1) =>
      let '(fires, e, d2) := enqueueBuckets cl ctxs (S k) def rest d1 in
      (match id with
       | Some id => {| fe_JobID := id; fe_FiredAt := bucket; fe_Manual := false |} :: fires
       | None => fires
       end, e, d2)
    end
  end.

Definition set_next_run (nextRun now : Z) (r : jobPeriodicRow) : jobPeriodicRow :=
  {| p_ID := p_ID r; p_Slug := p_Slug r; p_Kind := p_Kind r; p_ArgsTemplate := p_ArgsTemplate r;
     p_Queue := p_Queue r; p_CronExpr := p_CronExpr r; p_IntervalSeconds := p_IntervalSeconds r;
     p_NextRunAt := nextRun; p_LastEnqueuedAt := p_LastEnqueuedAt r; p_IsActive := p_IsActive r;
     p_Source := p_Source r; p_PausedAt := p_PausedAt r; p_PausedByType := p_PausedByType r;
     p_PausedByID := p_PausedByID r; p_PausedReason := p_PausedReason r; p_RecentJobs := p_RecentJobs r;
     p_CreatedAt := p_CreatedAt r; p_UpdatedAt := now |}.

(** [advanceWithFires]: a definition deleted since stays deleted. *)
Definition advanceWithFires (def : jobPeriodicRow) (fires : list periodicFireEntry) (nextRun now : Z)
    (t : periodics) : res periodics :=
  match lockPeriodicWhere (λ r, bool_decide (p_ID r = p_ID def)) t with
  | None => Ok t
  | Some row =>
    let? history := prependFires (p_RecentJobs row) fires in
    Ok (alter (set_fires (Some nextRun) now history now) (p_ID def) t)
  end.

(** The buckets a due definition fires, and its next cursor. *)
Definition due_buckets (fuel : nat) (backfillCap : Z) (def : jobPeriodicRow) (now : Z)
  : option (res (list Z * Z)) :=
  let by_cron :=
    match p_CronExpr def with
    | Some e => if is_empty e then Some (Err ErrPeriodicNoSchedule)
                else cronBuckets fuel e (p_NextRunAt def) now backfillCap
    | None => Some (Err ErrPeriodicNoSchedule)
    end in
  match p_IntervalSeconds def with
  | Some s => if (0 <? s)%Z then Some (Ok (intervalBuckets (p_NextRunAt def) s now backfillCap)) else by_cron
  | None => by_cron
  end.

(** [fire]: how many jobs it enqueued, even when it then failed. [None] is a
    bucket computation that has not ended. *)
Definition fire (fuel : nat) (cl : Client) (backfillCap : Z) (ctxs : nat → context) (def : jobPeriodicRow)
    (now : Z) (t : periodics) (d : db) : option (nat * option error * periodics * db) :=
  match due_buckets fuel backfillCap def now with
  | None => None
  | Some (Err e) => Some (0, Some e, t, d)
  | Some (Ok (buckets, nextRun)) =>
    let '(fires, e, d1) := enqueueBuckets cl ctxs 0 def buckets d in
    match e with
    | Some e => Some (length fires, Some e, t, d1)
    | None =>
      match fires with
      | [] => Some (0, None, alter (set_next_run nextRun now) (p_ID def) t, d1)
      | _ =>
        match advanceWithFires def fires nextRun now t with
        | Err e => Some (length fires, Some e, t, d1)
        | Ok t1 => Some (length fires, None, t1, d1)
        end
      end
    end
  end.

(** ** A tick *)

Definition due (now : Z) (r : jobPeriodicRow) : bool :=
  p_IsActive r && bool_decide (p_PausedAt r = None) && (p_NextRunAt r <=? now)%Z.

Fixpoint fire_each (fuel : nat) (cl : Client) (backfillCap : Z) (ctxs : nat → nat → context) (i : nat)
    (defs : list jobPeriodicRow) (now : Z) (t : periodics) (d : db)
  : option (nat * list error * periodics * db) :=
  match defs with
  | [] => Some (0, [], t, d)
  | def :: rest =>
    match fire fuel cl backfillCap (ctxs i) def now t d with
    | None => None
    | Some (n, e, t1, d1) =>
      match fire_each fuel cl backfillCap ctxs (S i) rest now t1 d1 with
      | None => None
      | Some (m, errs, t2, d2) =>
        Some (n + m, match e with Some e => e :: errs | None => errs end, t2, d2)
      end
    end
  end.

(** [Tick]: the due definitions as one query returned them, each fired on its own. *)
Definition Tick (fuel : nat) (cl : Client) (backfillCap : Z) (ctxs : nat → nat → context) (now : Z)
    (t : periodics) (d : db) : option (nat * list error * periodics * db) :=
  fire_each fuel cl backfillCap ctxs 0 (scan (filter (λ r, due now r = true) (map_to_list t).*2)) now t d.

(** ** Declared definitions *)

Record declared := {
  sd_periodics : list PeriodicSpec; sd_reconcileInterval : Z; sd_pending : list PeriodicSpec;
  sd_applyFailed : bool
}.
Definition defaultReconcileInterval : Z := minute.

Definition resolveReconcileInterval (d : Z) : Z :=
  if (d <? 0)%Z then 0%Z else if (d =? 0)%Z then defaultReconcileInterval else d.

Fixpoint check_periodics (seen : gset string) (specs : list PeriodicSpec) : res unit :=
  match specs with
  | [] => Ok ()
  | spec :: rest =>
    let? _ := validate spec in
    if bool_decide (ps_Slug spec ∈ seen) then Err (ValidationError "periodics")
    else check_periodics ({[ps_Slug spec]} ∪ seen) rest
  end.
Definition configurePeriodics (specs : list PeriodicSpec) (interval : Z) : res declared :=
  let? _ := check_periodics ∅ specs in
  Ok {| sd_periodics := specs; sd_reconcileInterval := resolveReconcileInterval interval;
        sd_pending := []; sd_applyFailed := false |}.

Definition reconcileCadence (s : declared) : Z :=
  if (0 <? sd_reconcileInterval s)%Z then sd_reconcileInterval s else defaultReconcileInterval.
Definition slugSet (specs : list PeriodicSpec) : gset string := list_to_set (ps_Slug <$> specs).
Definition pendingSlugs (s : declared) : gset string := slugSet (sd_pending s).
Definition hasPendingPeriodics (s : declared) : bool := bool_decide (0 < size (pendingSlugs s)).
Definition reconcileEnabled (s : declared) : bool :=
  match sd_periodics s with [] => false | _ => (0 <? sd_reconcileInterval s)%Z || hasPendingPeriodics s end.
Definition reconcileFinished (s : declared) : bool :=
  (sd_reconcileInterval s <=? 0)%Z && negb (hasPendingPeriodics s).

(** What the database does to the k-th upsert of a pass: [None] runs it, an error
    is the statement failing with nothing written. *)
Definition faults : Type := nat → option error.

Fixpoint apply_each (ctxs : nat → context) (faulty : faults) (cancelled : nat → bool) (k : nat)
    (specs : list PeriodicSpec) (t : periodics) : list PeriodicSpec * periodics :=
  match specs with
  | [] => ([], t)
  | spec :: rest =>
    if cancelled k then (specs, t)
    else
      let r := match faulty k with
               | Some e => Err e
               | None => upsertPeriodic (ctxs k) (λ _ t, t) spec PeriodicDeclared t
               end in
      match r with
      | Err _ => let '(failed, t') := apply_each ctxs faulty cancelled (S k) rest t in (spec :: failed, t')
      | Ok (_, t1) => apply_each ctxs faulty cancelled (S k) rest t1
      end
  end.

Definition applyPendingPeriodics (ctxs : nat → context) (faulty : faults) (cancelled : nat → bool)
    (s : declared) (t : periodics) : declared * periodics :=
  match sd_pending s with
  | [] => (s, t)
  | pending =>
    let '(failed, t') := apply_each ctxs faulty cancelled 0 pending t in
    ({| sd_periodics := sd_periodics s; sd_reconcileInterval := sd_reconcileInterval s;
        sd_pending := failed;
        sd_applyFailed := match failed with [] => false | _ => true end |}, t')
  end.

Definition applyDeclaredPeriodics (ctxs : nat → context) (faulty : faults) (cancelled : nat → bool)
    (s : declared) (t : periodics) : declared * periodics :=
  match sd_periodics s with
  | [] => (s, t)
  | _ => applyPendingPeriodics ctxs faulty cancelled
           {| sd_periodics := sd_periodics s; sd_reconcileInterval := sd_reconcileInterval s;
              sd_pending := sd_periodics s; sd_applyFailed := sd_applyFailed s |} t
  end.

Fixpoint recreate_each (ctxs : nat → context) (faulty : faults) (cancelled : nat → bool) (k : nat) (now : Z)
    (exists_ : gset string) (specs : list PeriodicSpec) (t : periodics) : nat * list error * periodics :=
  match specs with
  | [] => (0, [], t)
  | spec :: rest =>
    if bool_decide (ps_Slug spec ∈ exists_) then
      recreate_each ctxs faulty cancelled (S k) now exists_ rest t
    else if cancelled k then (0, [ErrContext], t)
    else
      let r := match faulty k with
               | Some e => Err e
               | None => insertPeriodic (ctxs k) spec PeriodicDeclared now t
               end in
      match r with
      | Err e =>
        let '(n, errs, t') := recreate_each ctxs faulty cancelled (S k) now exists_ rest t in
        (n, e :: errs, t')
      | Ok (row, t1) =>
        let '(n, errs, t') := recreate_each ctxs faulty cancelled (S k) now exists_ rest t1 in
        (match row with Some _ => S n | None => n end, errs, t')
      end
  end.

(** [reconcilePeriodics]; [w] is what other sessions committed while it ran, before
    its inserts. *)
Definition reconcilePeriodics (ctxs : nat → context) (faulty : faults) (cancelled : nat → bool) (now : Z)
    (w : periodics → periodics) (skip : gset string) (s : declared) (t : periodics)
  : nat * list error * periodics :=
  let specs := filter (λ spec, ps_Slug spec ∉ skip) (sd_periodics s) in
  match specs with
  | [] => (0, [], w t)
  | _ =>
    let present : gset string :=
      list_to_set (filter (λ slug, slug ∈ ps_Slug <$> specs) (p_Slug <$> (map_to_list t).*2)) in
    recreate_each ctxs faulty cancelled 0 now present specs (w t)
  end.

Definition ReconcilePeriodics (ctxs : nat → context) (faulty : faults) (cancelled : nat → bool) (now : Z)
    (w : periodics → periodics) (s : declared) (t : periodics) : nat * list error * periodics :=
  reconcilePeriodics ctxs faulty cancelled now w (pendingSlugs s) s t.

Definition reconcileOnce (ctxs rctxs : nat → context) (faulty : faults) (cancelled : nat → bool) (now : Z)
    (s : declared) (t : periodics) : declared * periodics :=
  let '(s1, t1) := applyPendingPeriodics ctxs faulty cancelled s t in
  if (sd_reconcileInterval s1 <=? 0)%Z then (s1, t1)
  else
    let '(_, _, t2) := reconcilePeriodics rctxs faulty cancelled now (λ t, t) (slugSet (sd_pending s1)) s1 t1 in
    (s1, t2).
End scheduler.

(** ** The reference: the fires a schedule missed

    [missed schedule now start all next]: from [start] on, [all] are the fires not
    after [now], in order, and [next] is the first one after it. *)
Inductive missed (schedule : Z → Z) (now : Z) : Z → list Z → Z → Prop :=
| missed_none t : (now < t)%Z → missed schedule now t [] t
| missed_fire t all next :
    (t ≤ now)%Z → missed schedule now (schedule t) all next → missed schedule now t (t :: all) next.

(** The most recent [limit] of them; all when there is no limit. *)
Definition recent {A} (limit : Z) (l : list A) : list A :=
  if (limit <=? 0)%Z then l else drop (length l - Z.to_nat limit) l.

Lemma missed_later schedule now start all next : missed schedule now start all next → (now < next)%Z.
Proof. by induction 1. Qed.
Lemma missed_due schedule now start all next : missed schedule now start all next → Forall (λ t, t ≤ now)%Z all.
Proof. induction 1; by constructor. Qed.
Lemma missed_det schedule now start all next all' next' :
  missed schedule now start all next → missed schedule now start all' next' → all = all' ∧ next = next'.
Proof.
  intros Hm. revert all' next'. induction Hm; inversion 1; simplify_eq; try lia; [done|].
  edestruct IHHm as [-> ->]; done.
Qed.

(** A schedule that moves forward ends: it misses at most one fire per instant. *)
Lemma missed_exists schedule now start :
  (∀ t, (start ≤ t ≤ now)%Z → (t < schedule t)%Z) →
  ∃ all next, missed schedule now start all next ∧ length all ≤ Z.to_nat (now - start + 1).
Proof.
  remember (Z.to_nat (now - start + 1)) as m eqn:Hm. revert start Hm.
  induction (lt_wf m) as [m _ IH]. intros start -> Hfwd.
  destruct (Z.ltb_spec now start) as [Hlt|Hge].
  { exists [], start. split; [by constructor|simpl; lia]. }
  pose proof (Hfwd start ltac:(lia)) as Hs.
  destruct (IH (Z.to_nat (now - schedule start + 1)) ltac:(lia) (schedule start) eq_refl) as (all & next & Hm & Hl).
  { intros t Ht. apply Hfwd. lia. }
  exists (start :: all), next. split; [by constructor|]. simpl. lia.
Qed.

(** ** Intervals *)

Lemma missed_interval i now n start :
  (0 < i)%Z → (start + Z.of_nat n * i ≤ now < start + (Z.of_nat n + 1) * i)%Z →
  missed (λ t, t + i)%Z now start ((λ k, start + Z.of_nat k * i)%Z <$> seq 0 (S n))
    (start + (Z.of_nat n + 1) * i)%Z.
Proof.
  intros Hi. revert start. induction n as [|n IH]; intros start Hn.
  - cbn [seq fmap list_fmap]. replace (start + Z.of_nat 0 * i)%Z with start by lia. constructor; [lia|].
    replace (start + (Z.of_nat 0 + 1) * i)%Z with (start + i)%Z by lia. constructor. lia.
  - rewrite <-cons_seq, fmap_cons, <-fmap_S_seq, <-list_fmap_compose.
    replace (start + Z.of_nat 0 * i)%Z with start by lia. constructor; [lia|].
    pose proof (IH (start + i)%Z ltac:(lia)) as Hm.
    replace (start + (Z.of_nat (S n) + 1) * i)%Z with (start + i + (Z.of_nat n + 1) * i)%Z by lia.
    erewrite list_fmap_ext; [exact Hm|]. intros j k _. simpl. lia.
Qed.

(** No product of the closed form overflows. *)
Definition interval_fits (start s now : Z) : Prop :=
  (0 < s ∧ Z.max 0 (now - start) + s * second ≤ int64_max)%Z.

Lemma intervalBuckets_recent start s now limit :
  interval_fits start s now →
  ∃ all next, missed (λ t, t + s * second)%Z now start all next ∧
    intervalBuckets start s now limit = (recent limit all, next).
Proof.
  intros [Hs Hfit]. unfold intervalBuckets. rewrite interval_of_small by lia.
  set (i := (s * second)%Z) in *. assert (0 < i)%Z as Hi by (unfold i, second; lia).
  rewrite (proj2 (Z.leb_gt i 0)) by lia. destruct (Z.ltb_spec now start) as [Hlt|Hge].
  { exists [], start. split; [by constructor|]. unfold recent. simpl. by destruct (_ <=? _)%Z. }
  cbn [orb]. unfold time_sub. rewrite Z.min_r, Z.max_r by (unfold int64_min, int64_max in *; lia).
  rewrite Z.quot_div_nonneg by lia. set (n := ((now - start) / i)%Z).
  pose proof (Z.mul_div_le (now - start) i Hi) as H1. pose proof (Z.mul_succ_div_gt (now - start) i Hi) as H2.
  fold n in H1, H2. assert (0 ≤ n)%Z as Hn by (apply Z.div_pos; lia).
  exists ((λ k, start + Z.of_nat k * i)%Z <$> seq 0 (S (Z.to_nat n))), (start + (n + 1) * i)%Z.
  split; [rewrite <-(Z2Nat.id n) at 2 by done; apply missed_interval; [done|rewrite Z2Nat.id by done; lia]|].
  assert (∀ k, (0 ≤ k ≤ n + 1)%Z → wrap64 (k * i) = (k * i)%Z) as Hw.
  { intros k Hk. apply wrap64_id. unfold in_int64, int64_min in *. nia. }
  rewrite (Hw (n + 1)%Z) by lia. f_equal.
  set (first := if (_ && _ : bool) then (n + 1 - limit)%Z else 0%Z).
  assert (recent limit ((λ k, start + Z.of_nat k * i)%Z <$> seq 0 (S (Z.to_nat n))) =
    (λ k, start + Z.of_nat k * i)%Z <$> seq (Z.to_nat first) (Z.to_nat (n - first + 1))) as ->.
  { unfold recent, first. rewrite length_fmap, length_seq.
    destruct (Z.leb_spec limit 0).
    - rewrite (proj2 (Z.ltb_ge 0 limit)) by lia. cbn [andb]. do 2 f_equal. lia.
    - rewrite (proj2 (Z.ltb_lt 0 limit)) by lia. cbn [andb]. rewrite <-fmap_drop, skipn_seq. do 2 f_equal;
        destruct (Z.ltb_spec limit (n + 1)); lia. }
  assert (0 ≤ first ≤ n + 1)%Z as Hfirst.
  { unfold first. destruct (Z.ltb_spec 0 limit); [|simpl; lia]. destruct (Z.ltb_spec limit (n + 1)); simpl; lia. }
  apply list_eq. intros k. rewrite !list_lookup_fmap.
  destruct (decide (k < Z.to_nat (n - first + 1))) as [Hk|Hk].
  - rewrite !lookup_seq_lt by done. simpl. rewrite Hw by lia. f_equal. nia.
  - rewrite !lookup_seq_ge by lia. done.
Qed.

(** ** Cron *)

Lemma cron_all_missed schedule now start all next fuel :
  missed schedule now start all next → length all < fuel →
  cron_all fuel schedule now start = Some (all, next).
Proof.
  intros Hm. revert fuel. induction Hm as [t Ht|t all next Ht Hm IH]; intros fuel Hf;
    (destruct fuel as [|fuel]; [simpl in Hf; lia|]); simpl.
  - by rewrite (proj2 (Z.ltb_lt _ _) Ht).
  - rewrite (proj2 (Z.ltb_ge _ _) Ht). rewrite IH by (simpl in Hf; lia). done.
Qed.

(** Positions less than a ring's length apart have different slots. *)
Lemma ring_slots i n l : i < n → n - i < l → i mod l ≠ n mod l.
Proof.
  intros Hin Hl He. pose proof (Nat.div_mod i l ltac:(lia)) as Hi. pose proof (Nat.div_mod n l ltac:(lia)) as Hn.
  rewrite He in Hi. assert (n - i = l * (n / l - i / l)) by nia. nia.
Qed.

(** The ring holds the last fires seen. *)
Definition ring_holds (limit : nat) (ring seen : list Z) : Prop :=
  length ring = limit ∧
  ∀ i, length seen - limit ≤ i < length seen → ring !! (i mod limit) = seen !! i.

Lemma ring_holds_snoc limit ring seen t :
  0 < limit → ring_holds limit ring seen →
  ring_holds limit (<[length seen mod limit := t]> ring) (seen ++ [t]).
Proof.
  intros Hl [Hlen Hr]. split; [by rewrite length_insert|]. intros i. rewrite length_app. simpl. intros Hi.
  destruct (decide (i = length seen)) as [->|Hne].
  - rewrite list_lookup_insert_eq, lookup_app_r, Nat.sub_diag by (rewrite ?Hlen; auto using Nat.mod_upper_bound with lia).
    done.
  - rewrite list_lookup_insert_ne by (intros ?; eapply (ring_slots i (length seen) limit); lia).
    rewrite lookup_app_l by lia. apply Hr. lia.
Qed.

Lemma cron_ring_missed schedule limit now start all next fuel ring seen :
  missed schedule now start all next → 0 < limit → ring_holds limit ring seen → length all < fuel →
  ∃ ring', cron_ring fuel schedule limit now ring (length seen) start =
      Some (ring', length (seen ++ all), next) ∧ ring_holds limit ring' (seen ++ all).
Proof.
  intros Hm Hl. revert fuel ring seen. induction Hm as [t Ht|t all next Ht Hm IH]; intros fuel ring seen Hr Hf;
    (destruct fuel as [|fuel]; [simpl in Hf; lia|]); simpl.
  - rewrite (proj2 (Z.ltb_lt _ _) Ht), app_nil_r. eauto.
  - rewrite (proj2 (Z.ltb_ge _ _) Ht).
    destruct (IH fuel (<[length seen mod limit := t]> ring) (seen ++ [t])) as (ring' & Hc & Hr').
    + by apply ring_holds_snoc.
    + simpl in Hf. lia.
    + rewrite length_app, Nat.add_1_r in Hc. rewrite <-app_assoc in Hc, Hr'. eauto.
Qed.

Section buckets.
Context `{Cron}.

Lemma cronBuckets_recent expr schedule start now limit all next fuel :
  ParseStandard expr = Some schedule → missed schedule now start all next → length all < fuel →
  cronBuckets fuel expr start now limit = Some (Ok (recent limit all, next)).
Proof.
  intros Hp Hm Hf. unfold cronBuckets, recent. rewrite Hp. destruct (Z.leb_spec limit 0) as [|Hl].
  { by rewrite (cron_all_missed _ _ _ _ _ _ Hm Hf). }
  set (l := Z.to_nat limit). assert (0 < l) as Hl' by lia.
  destruct (cron_ring_missed schedule l now start all next fuel (replicate l zero_time) [] Hm Hl') as (ring & Hc & Hlen & Hr).
  { split; [by rewrite length_replicate|]. simpl. lia. }
  { done. }
  cbn [app length] in *. rewrite Hc. do 3 f_equal. apply list_eq. intros i. rewrite list_lookup_fmap, lookup_drop.
  destruct (decide (i < length all `min` l)) as [Hi|Hi].
  - rewrite lookup_seq_lt by done. simpl. replace (length all - l + i) with (length all - length all `min` l + i) by lia.
    rewrite <-Hr by lia. symmetry. apply list_lookup_lookup_total_lt. rewrite Hlen. apply Nat.mod_upper_bound. lia.
  - rewrite lookup_seq_ge by lia. simpl. symmetry. apply lookup_ge_None. lia.
Qed.

(** ** A definition's own schedule *)

Definition row_schedule (r : jobPeriodicRow) : option (Z → Z) :=
  match p_IntervalSeconds r with
  | Some s => Some (λ t, t + s * second)%Z
  | None => match p_CronExpr r with Some e => ParseStandard e | None => None end
  end.

(** No interval of the row overflows int64 nanoseconds. *)
Definition row_fits (r : jobPeriodicRow) (now : Z) : Prop :=
  match p_IntervalSeconds r with Some s => interval_fits (p_NextRunAt r) s now | None => True end.

(** Which buckets a due definition fires: exactly the most recent BackfillCap of
    the fires its schedule missed since its cursor, oldest first, and its cursor
    moves to the first fire after now. The closed form for intervals and the ring
    buffer for cron agree with walking the schedule one fire at a time, and end
    whenever the walk does. *)
Theorem due_buckets_recent r now cap schedule all next fuel :
  periodic_ok r → row_schedule r = Some schedule → row_fits r now →
  missed schedule now (p_NextRunAt r) all next → length all < fuel →
  due_buckets fuel cap r now = Some (Ok (recent cap all, next)).
Proof.
  intros Hok Hs Hfit Hm Hf. unfold due_buckets, row_schedule, row_fits in *.
  destruct (pok_schedule _ Hok) as [(e & Hc & Hne & Hi)|(s & Hi & Hpos & Hc)]; rewrite Hi, Hc in *.
  - rewrite (nonempty _ Hne). by apply (cronBuckets_recent e schedule).
  - injection Hs as <-. rewrite (proj2 (Z.ltb_lt _ _) Hpos).
    destruct (intervalBuckets_recent (p_NextRunAt r) s now cap Hfit) as (all' & next' & Hm' & ->).
    by destruct (missed_det _ _ _ _ _ _ _ Hm Hm') as [-> ->].
Qed.

(** ** A schedule that matches no time *)

Lemma cron_ring_stuck schedule limit now ring n fuel :
  schedule zero_time = zero_time → (zero_time ≤ now)%Z →
  cron_ring fuel schedule limit now ring n zero_time = None.
Proof.
  intros Hz Hnow. revert ring n. induction fuel as [|fuel IH]; intros ring n; simpl; [done|].
  rewrite (proj2 (Z.ltb_ge _ _) Hnow), Hz. apply IH.
Qed.
Lemma cron_all_stuck schedule now fuel :
  schedule zero_time = zero_time → (zero_time ≤ now)%Z → cron_all fuel schedule now zero_time = None.
Proof.
  intros Hz Hnow. induction fuel as [|fuel IH]; simpl; [done|].
  by rewrite (proj2 (Z.ltb_ge _ _) Hnow), Hz, IH.
Qed.
Lemma due_buckets_stuck r e schedule cap now fuel :
  p_IntervalSeconds r = None → p_CronExpr r = Some e → e ≠ "" → ParseStandard e = Some schedule →
  schedule zero_time = zero_time → (zero_time ≤ now)%Z → p_NextRunAt r = zero_time →
  due_buckets fuel cap r now = None.
Proof.
  intros Hi Hc Hne Hp Hz Hnow Hnext. unfold due_buckets. rewrite Hi, Hc, (nonempty _ Hne), Hnext.
  unfold cronBuckets. rewrite Hp. case_match; [by rewrite cron_all_stuck|by rewrite cron_ring_stuck].
Qed.
End buckets.

(** ** What one fire writes *)

Section fire_facts.
Context `{Cron} `{Foundation} `{RowOrder}.

Lemma cron_ring_later schedule limit now ring n t fuel ring' n' t' :
  cron_ring fuel schedule limit now ring n t = Some (ring', n', t') → (now < t')%Z.
Proof.
  revert ring n t. induction fuel as [|fuel IH]; intros ring n t; simpl; [done|].
  destruct (Z.ltb_spec now t); [intros [= <- <- <-]; done|]. apply IH.
Qed.
Lemma cron_all_later schedule now t fuel all t' :
  cron_all fuel schedule now t = Some (all, t') → (now < t')%Z.
Proof.
  revert t all. induction fuel as [|fuel IH]; intros t all; simpl; [done|].
  destruct (Z.ltb_spec now t); [intros [= <- <-]; done|].
  destruct (cron_all fuel schedule now (schedule t)) as [[al nx]|] eqn:E; [|done]. intros [= <- <-]. eauto.
Qed.

(** Whatever a definition fires, its next cursor is after now. *)
Lemma due_buckets_later r cap now fuel buckets next :
  row_fits r now → due_buckets fuel cap r now = Some (Ok (buckets, next)) → (now < next)%Z.
Proof.
  unfold row_fits, due_buckets, cronBuckets. intros Hfit.
  destruct (p_IntervalSeconds r) as [s|]; [destruct (0 <? s)%Z|].
  { destruct (intervalBuckets_recent (p_NextRunAt r) s now cap Hfit) as (all & nx & Hm & ->).
    intros [= <- <-]. by eapply missed_later. }
  all: destruct (p_CronExpr r) as [e|]; [|done]; destruct (is_empty e); [done|];
    destruct (ParseStandard e) as [schedule|]; [|done]; destruct (cap <=? 0)%Z;
    [destruct (cron_all _ _ _ _) as [[al nx]|] eqn:E; [|done]; intros [= <- <-]; by eapply cron_all_later|
     destruct (cron_ring _ _ _ _ _ _ _) as [[[ring n] nx]|] eqn:E; [|done]; intros [= <- <-];
     by eapply cron_ring_later].
Qed.

(** The columns a fire never writes. *)
Record kept (r r' : jobPeriodicRow) : Prop := {
  kp_id : p_ID r' = p_ID r;
  kp_slug : p_Slug r' = p_Slug r;
  kp_active : p_IsActive r' = p_IsActive r;
  kp_paused : p_PausedAt r' = p_PausedAt r;
  kp_by : p_PausedByType r' = p_PausedByType r ∧ p_PausedByID r' = p_PausedByID r ∧
          p_PausedReason r' = p_PausedReason r
}.

(** A fire rewrites its own definition's row or none; one that succeeded left that
    row's cursor after now. *)
Record fired (id : string) (now : Z) (clean : Prop) (t t1 : periodics) : Prop := {
  fd_wf : periodics_wf t1;
  fd_frame : ∀ i, i ≠ id → t1 !! i = t !! i;
  fd_row : ∀ r', t1 !! id = Some r' → ∃ r, t !! id = Some r ∧ kept r r' ∧ (clean → (now < p_NextRunAt r')%Z);
  fd_dom : ∀ i, is_Some (t1 !! i) ↔ is_Some (t !! i)
}.

Lemma kept_refl r : kept r r.
Proof. by split. Qed.

Lemma fired_same id now (clean : Prop) t : periodics_wf t → (clean → t !! id = None) → fired id now clean t t.
Proof.
  intros Hwf Hc. split; try done. intros r' Hr. exists r'. split_and!; [done|apply kept_refl|].
  intros Hcl. by rewrite (Hc Hcl) in Hr.
Qed.

Lemma fired_alter id now clean t (f : jobPeriodicRow → jobPeriodicRow) :
  periodics_wf t → (∀ r, kept r (f r)) → (∀ r, periodic_ok r → periodic_ok (f r)) →
  (∀ r, (now < p_NextRunAt (f r))%Z) → fired id now clean t (alter f id t).
Proof.
  intros Hwf Hk Hok Hn. split.
  - apply wf_alter_periodic; [intros r; split; apply Hk|by auto|done].
  - intros i Hne. by apply lookup_alter_ne.
  - intros r'. rewrite lookup_alter_eq. intros (r & Hr & ->)%fmap_Some_1. eauto.
  - intros i. destruct (decide (i = id)) as [->|]; [rewrite lookup_alter_eq; by rewrite fmap_is_Some|].
    by rewrite lookup_alter_ne.
Qed.

Lemma fire_row fuel cl cap ctxs def now t d n e t1 d1 :
  periodics_wf t → row_fits def now → fire fuel cl cap ctxs def now t d = Some (n, e, t1, d1) →
  fired (p_ID def) now (e = None) t t1.
Proof.
  intros Hwf Hfit. unfold fire. destruct (due_buckets fuel cap def now) as [[[buckets nextRun]|er]|] eqn:Ed; [| |done].
  2:{ intros [= <- <- <- <-]. by apply fired_same. }
  apply due_buckets_later in Ed; [|done].
  destruct (enqueueBuckets _ _ _ _ _ _) as [[fires eo] d2]. destruct eo as [er|].
  { intros [= <- <- <- <-]. by apply fired_same. }
  destruct fires as [|f0 fires].
  { intros [= <- <- <- <-]. apply fired_alter; [done|by split|intros r [? ? ? ? ?]; by split|done]. }
  unfold advanceWithFires, lockPeriodicWhere. destruct (first_periodic _ t) as [row|] eqn:El.
  - destruct (prependFires _ _) as [ring|] eqn:Ep; intros [= <- <- <- <-]; [|by apply fired_same].
    apply fired_alter; [done|by split| |done]. intros r Hr.
    apply set_fires_ok; [by eapply prependFires_length|done].
  - intros [= <- <- <- <-]. apply fired_same; [done|]. intros _. destruct (t !! p_ID def) as [r|] eqn:Hr; [|done].
    apply first_periodic_None in El. specialize (El _ _ Hr). simpl in El.
    rewrite (pwf_keyed _ Hwf _ _ Hr), bool_decide_true in El; done.
Qed.

(** ** A tick *)

(** The rows of [t'] against those of [t], after firing [defs]. *)
Record ticked (defs : list jobPeriodicRow) (now : Z) (clean : Prop) (t t' : periodics) : Prop := {
  td_wf : periodics_wf t';
  td_other : ∀ id, id ∉ p_ID <$> defs → t' !! id = t !! id;
  td_row : ∀ id r', t' !! id = Some r' → ∃ r, t !! id = Some r ∧ kept r r';
  td_fired : clean → ∀ id r', id ∈ p_ID <$> defs → t' !! id = Some r' → (now < p_NextRunAt r')%Z;
  td_dom : ∀ id, is_Some (t' !! id) ↔ is_Some (t !! id)
}.

Lemma kept_trans a b c : kept a b → kept b c → kept a c.
Proof. intros [? ? ? ? ?] [? ? ? ? ?]. split; naive_solver congruence. Qed.

Lemma fire_each_rows fuel cl cap ctxs i defs now t d n errs t' d' :
  periodics_wf t → Forall (λ r, row_fits r now) defs → NoDup (p_ID <$> defs) →
  fire_each fuel cl cap ctxs i defs now t d = Some (n, errs, t', d') → ticked defs now (errs = []) t t'.
Proof.
  revert i t d n errs. induction defs as [|def defs IH]; intros i t d n errs Hwf Hfit Hnd; cbn [fire_each].
  { intros [= <- <- <- <-]. split; try done; [|intros _ id r' Hin; by apply elem_of_nil in Hin].
    intros id r' Hr. eauto using kept_refl. }
  apply Forall_cons in Hfit as [Hf Hfit]. rewrite fmap_cons, NoDup_cons in Hnd. destruct Hnd as [Hni Hnd].
  destruct (fire fuel cl cap (ctxs i) def now t d) as [[[[n1 e1] t1] d1]|] eqn:Ef; [|done].
  destruct (fire_each fuel cl cap ctxs (S i) defs now t1 d1) as [[[[m errs'] t2] d2]|] eqn:El; [|done].
  intros [= <- <- <- <-]. apply fire_row in Ef as [Hwf1 Hframe Hrow Hdom]; [|done..].
  apply IH in El as [Hwf2 Hother Hrow2 Hfired Hdom2]; [|done..]. split.
  - done.
  - intros id [Hne Hin]%not_elem_of_cons. rewrite Hother by done. by apply Hframe.
  - intros id r' (r1 & Hr1 & Hk)%Hrow2. destruct (decide (id = p_ID def)) as [->|Hne].
    + destruct (Hrow _ Hr1) as (r & Hr & Hk1 & _). eauto using kept_trans.
    + rewrite Hframe in Hr1 by done. eauto.
  - intros Hclean id r' Hin Hr'. destruct e1; [done|].
    apply elem_of_cons in Hin as [->|Hin]; [|by eapply Hfired].
    rewrite Hother in Hr' by done. destruct (Hrow _ Hr') as (r & _ & _ & Hn). by apply Hn.
  - intros id. by rewrite Hdom2.
Qed.

Definition due_defs (now : Z) (t : periodics) : list jobPeriodicRow :=
  scan (filter (λ r, due now r = true) (map_to_list t).*2).

Lemma elem_of_due_defs now t r :
  r ∈ due_defs now t ↔ due now r = true ∧ ∃ id, t !! id = Some r.
Proof.
  unfold due_defs. rewrite scan_perm, list_elem_of_filter, list_elem_of_fmap. split.
  - intros [? ([id r'] & -> & Hr%elem_of_map_to_list)]. eauto.
  - intros [? [id Hr]]. split; [done|]. exists (id, r). split; [done|]. by apply elem_of_map_to_list.
Qed.
Lemma due_defs_NoDup now t : periodics_wf t → NoDup (p_ID <$> due_defs now t).
Proof.
  intros Hwf. unfold due_defs. rewrite scan_perm.
  eapply sublist_NoDup; [|apply fmap_sublist, sublist_filter].
  rewrite <-list_fmap_compose, (list_fmap_ext _ fst (map_to_list t)); [apply NoDup_fst_map_to_list|].
  intros i [id r] Hi%list_elem_of_lookup_2%elem_of_map_to_list. simpl. by apply Hwf.
Qed.

(** A tick reaches every due definition and only those: a definition that is
    inactive, paused or not yet due keeps its whole row; a tick never writes a
    definition's pause or Active flag; and when no definition failed, none is due
    any more, whatever order they were read in. *)
Theorem tick_drains fuel cl cap ctxs now t d n errs t' d' :
  periodics_wf t → map_Forall (λ _ r, row_fits r now) t →
  Tick fuel cl cap ctxs now t d = Some (n, errs, t', d') →
  periodics_wf t' ∧
  (∀ id r, t !! id = Some r → due now r = false → t' !! id = Some r) ∧
  (∀ id r', t' !! id = Some r' → ∃ r, t !! id = Some r ∧ kept r r') ∧
  (errs = [] → map_Forall (λ _ r, due now r = false) t').
Proof.
  intros Hwf Hfit Ht.
  assert (ticked (due_defs now t) now (errs = []) t t') as [Hwf' Hother Hrow Hfired Hdom].
  { eapply fire_each_rows; [done| |by apply due_defs_NoDup|exact Ht].
    apply Forall_forall. intros r [_ [id Hr]]%elem_of_due_defs. by eapply Hfit. }
  assert (∀ id r, t !! id = Some r → id ∈ p_ID <$> due_defs now t ↔ due now r = true) as Hin.
  { intros id r Hr. rewrite list_elem_of_fmap. split.
    - intros (r1 & -> & [Hd [id1 Hr1]]%elem_of_due_defs). rewrite (pwf_keyed _ Hwf _ _ Hr1) in Hr. congruence.
    - intros Hd. exists r. split; [by rewrite (pwf_keyed _ Hwf _ _ Hr)|]. apply elem_of_due_defs. eauto. }
  split_and!; [done| |done|].
  - intros id r Hr Hd. rewrite Hother; [done|]. rewrite (Hin _ _ Hr), Hd. done.
  - intros Hclean id r' Hr'. destruct (Hrow _ _ Hr') as (r & Hr & Hk).
    destruct (due now r) eqn:Hd.
    + pose proof (Hfired Hclean id r' (proj2 (Hin _ _ Hr) Hd) Hr') as Hlt. unfold due.
      by rewrite (proj2 (Z.leb_gt _ _) Hlt), andb_false_r.
    + rewrite Hother in Hr' by (rewrite (Hin _ _ Hr), Hd; done). congruence.
Qed.
End fire_facts.

(** ** A cron that matches no time *)

Section impossible.
Context `{Cron} `{Foundation} `{RowOrder}.

Lemma fire_each_stuck fuel cl cap ctxs i defs def now t d :
  def ∈ defs → (∀ ctxs t d, fire fuel cl cap ctxs def now t d = None) →
  fire_each fuel cl cap ctxs i defs now t d = None.
Proof.
  intros Hin Hstuck. revert i t d. induction Hin as [def defs|def def' defs _ IH]; intros i t d; simpl.
  - by rewrite Hstuck.
  - destruct (fire _ _ _ _ def' _ _ _) as [[[[n e] t1] d1]|]; [|done]. by rewrite IH.
Qed.

(** C40. A cron expression that parses but matches no time within the library's
    horizon is refused when it would create a definition, yet accepted when it
    changes one: the update stores the zero time as the cursor, and from then on no
    tick ends, however long it runs. *)
Theorem impossible_cron_hangs ctx spec next t old cl cap ctxs now d :
  periodics_wf t → validate spec = Ok () → ParseStandard (ps_Cron spec) = Some next →
  ps_Every spec = 0%Z → ps_Active spec = true →
  next (c_Now ctx 0) = zero_time → next zero_time = zero_time → (zero_time ≤ now)%Z →
  loadPeriodic (ps_Slug spec) t = Some old → p_PausedAt old = None → scheduleChanged old spec = true →
  insertPeriodic ctx spec PeriodicUpserted (c_Now ctx 0) ∅ = Err (ValidationError "next_run_at") ∧
  ∃ t', UpsertPeriodic ctx (λ _ t, t) spec t = Ok t' ∧
    ∀ fuel, Tick fuel cl cap ctxs now t' d = None.
Proof.
  intros Hwf Hv Hp Hev Hact Hn0 Hz Hnow Hold Hpaused Hch.
  pose proof (validate_Ok _ Hv) as (Hs & Hk & Hsched & _).
  assert (ps_Cron spec ≠ "") as Hc by (destruct Hsched as [[? _]|(_ & ? & _)]; [unfold second in *; lia|done]).
  assert (nextFireAfter spec (c_Now ctx 0) = Ok zero_time) as Hnf.
  { unfold nextFireAfter. rewrite Hev, Hp. simpl. by rewrite Hn0. }
  split.
  { unfold insertPeriodic, periodicRow. rewrite Hnf, periodicQueueAndArgs_eq. unfold periodic_BeforeSave. simpl.
    by rewrite (nonempty _ Hs), (nonempty _ Hk). }
  unfold UpsertPeriodic, upsertPeriodic, updatePeriodic. rewrite Hv, Hold, Hch, Hnf.
  eexists. split; [done|]. intros fuel.
  pose proof (loadPeriodic_spec (ps_Slug spec) t Hwf) as Hl. rewrite Hold in Hl. destruct Hl as [Hrow _].
  set (f := set_definition spec PeriodicUpserted (c_Now ctx 0) (Some zero_time)).
  apply (fire_each_stuck fuel cl cap ctxs 0 _ (f old)).
  - rewrite scan_perm, list_elem_of_filter. split.
    + unfold due, f, set_definition. simpl. by rewrite Hact, Hpaused, (proj2 (Z.leb_le _ _) Hnow).
    + apply list_elem_of_fmap. exists (p_ID old, f old). split; [done|]. apply elem_of_map_to_list.
      by rewrite lookup_alter_eq, Hrow.
  - intros ctxs' t' d'. unfold fire.
    rewrite (due_buckets_stuck (f old) (ps_Cron spec) next); try done; unfold f, set_definition; simpl; by rewrite Hev.
Qed.
End impossible.

(** ** One job per bucket *)

Fixpoint has_at (s : string) : bool :=
  match s with "" => false | String c s => Ascii.eqb c "@" || has_at s end.

Lemma has_at_app s t : has_at (s +:+ t) = has_at s || has_at t.
Proof. induction s as [|c s IH]; [done|]. change (String c s +:+ t) with (String c (s +:+ t)). simpl. by rewrite IH, orb_assoc. Qed.

(** The part after the last '@' of a text is its suffix without one. *)
Lemma at_split s1 s2 d1 d2 :
  has_at d1 = false → has_at d2 = false →
  s1 +:+ String "@" d1 = s2 +:+ String "@" d2 → s1 = s2 ∧ d1 = d2.
Proof.
  intros H1 H2. revert s2. induction s1 as [|c s1 IH]; intros [|c2 s2]; simpl; intros He; injection He; clear He.
  - by intros ->.
  - intros -> _. by rewrite has_at_app, orb_true_r in H1.
  - intros <- _. by rewrite has_at_app, orb_true_r in H2.
  - intros He ->. by destruct (IH _ He) as [-> ->].
Qed.

Lemma pretty_N_no_at (x : N) : has_at (pretty x) = false.
Proof.
  assert (∀ s, has_at s = false → has_at (pretty_N_go x s) = false) as Hgo.
  { induction (N.lt_wf_0 x) as [x _ IH]. intros s Hs. destruct (decide (x = 0%N)) as [->|Hx].
    - by rewrite pretty_N_go_0.
    - rewrite pretty_N_go_step by lia. apply IH; [apply N.div_lt; lia|]. simpl. rewrite Hs, orb_false_r.
      unfold pretty_N_char. by repeat case_match. }
  unfold pretty, pretty_N. case_decide; [done|]. by apply Hgo.
Qed.
Lemma pretty_Z_no_at (z : Z) : has_at (pretty z) = false.
Proof. destruct z as [|x|x]; [done|apply pretty_N_no_at|]. apply (pretty_N_no_at (N.pos x)). Qed.

(** A bucket's key names its definition and its second, and nothing else. *)
Lemma bucket_key_inj slug slug' b b' :
  bucket_key slug b = bucket_key slug' b' → slug = slug' ∧ (b / second = b' / second)%Z.
Proof.
  unfold bucket_key. intros He. apply at_split in He as [-> He]; [|apply pretty_Z_no_at..].
  split; [done|]. by apply (inj pretty).
Qed.

Section once.
Context `{Cron} `{Foundation} `{RowOrder}.

(** Every insert of a fire mints an id of its own. *)
Definition fresh_ctxs (ctxs : nat → context) (from : nat) (d : db) : Prop :=
  (∀ k, from ≤ k → fresh_id (ctxs k) d) ∧
  (∀ j k, c_NewID (ctxs j) 0 = c_NewID (ctxs k) 0 → j = k).

Lemma bucket_key_nonempty slug b : bucket_key slug b ≠ "".
Proof. unfold bucket_key. by destruct slug. Qed.

(** An enqueue of a bucket leaves a job holding its key, and adds at most one. *)
Lemma enqueueBucket_Ok cl ctx def b d o d' :
  fresh_id ctx d → enqueueBucket cl ctx def b d = Ok (o, d') →
  (∃ i, holds_key d' (bucket_key (p_Slug def) b) i) ∧
  match o with
  | Some id => id = c_NewID ctx 0 ∧ (∀ i, ¬ holds_key d (bucket_key (p_Slug def) b) i) ∧
      ∃ row, fresh_row row ∧ key_of row = Some (bucket_key (p_Slug def) b) ∧ jobs d' = <[id := row]> (jobs d)
  | None => d' = d
  end.
Proof.
  intros Hf He. unfold enqueueBucket in He. rewrite client_insert_once in He by done.
  apply insert_once_Ok in He as (row & Hfr & Hid & _ & _ & Hk & Ha & Hcase); [|done].
  cbn [o_UniqueKey o_UniqueActiveKey] in Hk, Ha. rewrite (nonempty _ (bucket_key_nonempty _ _)) in Hk.
  destruct o as [id|].
  - destruct Hcase as [-> (Hnone & Hadm & ->)%insert_job_Ok]. split.
    { exists (j_ID row), row. split; [apply lookup_insert_eq|done]. }
    split_and!; [done| |by exists row; rewrite <-Hid].
    intros i (r & Hr & Hkr). rewrite index_admits_spec in Hadm.
    assert (i ≠ j_ID row) as Hne by congruence. specialize (Hadm _ _ Hr Hne).
    unfold clashes, key_of in *. rewrite Hk, Hkr in Hadm. simpl in Hadm. by rewrite bool_decide_true in Hadm.
  - destruct Hcase as [Hadm ->]. split; [|done].
    destruct (refused_held d (bucket_key (p_Slug def) b) "" row) as (i & [[_ ?]|[? _]]); [done| |done|eauto|done].
    by rewrite Hk, (nonempty _ (bucket_key_nonempty _ _)).
Qed.

Lemma enqueueBuckets_rows cl ctxs k def buckets d fires e d' :
  fresh_ctxs ctxs k d → enqueueBuckets cl ctxs k def buckets d = (fires, e, d') →
  jobs d ⊆ jobs d' ∧ size (jobs d') = size (jobs d) + length fires ∧
  (e = None → ∀ b, b ∈ buckets → ∃ i, holds_key d' (bucket_key (p_Slug def) b) i).
Proof.
  revert k d fires e. induction buckets as [|b buckets IH]; intros k d fires e [Hfr Hinj]; simpl.
  { intros [= <- <- <-]. split_and!; [done|simpl; lia|]. intros _ b Hb. by apply elem_of_nil in Hb. }
  destruct (enqueueBucket cl (ctxs k) def b d) as [[o d1]|er] eqn:Eb.
  2:{ intros [= <- <- <-]. split_and!; [done|simpl; lia|done]. }
  apply enqueueBucket_Ok in Eb as [[i Hi] Ho]; [|by apply Hfr].
  assert (jobs d ⊆ jobs d1 ∧ size (jobs d1) = size (jobs d) + match o with Some _ => 1 | None => 0 end ∧
    fresh_ctxs ctxs (S k) d1) as (Hsub & Hsize & Hfr1).
  { destruct o as [id|]; [|subst d1; split_and!; [done|lia|split; [intros; apply Hfr; lia|done]]].
    destruct Ho as (-> & _ & row & _ & _ & Hj). destruct (Hfr k ltac:(lia)) as [Hne Hnone].
    rewrite Hj. split_and!; [by apply insert_subseteq|rewrite map_size_insert_None by done; lia|].
    split; [|done]. intros j Hjk. destruct (Hfr j ltac:(lia)) as [? ?]. split; [done|].
    rewrite Hj, lookup_insert_ne; [done|]. intros Heq%Hinj. lia. }
  destruct (enqueueBuckets cl ctxs (S k) def buckets d1) as [[fires' e'] d2] eqn:El.
  intros [= <- <- <-]. apply IH in El as (Hsub2 & Hsize2 & Hheld); [|done]. split_and!.
  - by etrans.
  - rewrite Hsize2, Hsize. destruct o; simpl; lia.
  - intros He x [->|Hx]%elem_of_cons; [|by apply Hheld]. destruct Hi as (r & Hr & Hk).
    exists i, r. split; [|done]. by eapply lookup_weaken.
Qed.

Lemma enqueueBuckets_held cl ctxs k def buckets d fires e d' :
  (∀ j, k ≤ j → fresh_id (ctxs j) d) →
  (∀ b, b ∈ buckets → ∃ i, holds_key d (bucket_key (p_Slug def) b) i) →
  enqueueBuckets cl ctxs k def buckets d = (fires, e, d') → fires = [] ∧ d' = d.
Proof.
  revert k fires e. induction buckets as [|b buckets IH]; intros k fires e Hfr Hheld; simpl.
  { by intros [= <- <- <-]. }
  destruct (enqueueBucket cl (ctxs k) def b d) as [[o d1]|er] eqn:Eb; [|by intros [= <- <- <-]].
  apply enqueueBucket_Ok in Eb as [_ Ho]; [|by apply Hfr].
  destruct o as [id|].
  { destruct Ho as (_ & Hnot & _). destruct (Hheld b ltac:(left)) as [i Hi]. by destruct (Hnot i). }
  subst d1. destruct (enqueueBuckets cl ctxs (S k) def buckets d) as [[fires' e'] d2] eqn:El.
  intros [= <- <- <-]. eapply IH; [|by intros; apply Hheld; right|exact El]. intros; apply Hfr; lia.
Qed.

(** A bucket is enqueued once. A fire adds exactly the jobs it counts and
    disturbs none there was; and firing the same definition at the same instant
    again, from another process or after a crash before the cursor moved, by any
    client, enqueues nothing as long as the jobs of the first fire have not been
    deleted. *)
Theorem bucket_fires_once fuel cl cap ctxs def now t d n t1 d1 :
  fresh_ctxs ctxs 0 d → fire fuel cl cap ctxs def now t d = Some (n, None, t1, d1) →
  jobs d ⊆ jobs d1 ∧ size (jobs d1) = size (jobs d) + n ∧
  ∀ cl' ctxs' t2 d2 n' e' t3 d3,
    (∀ k i, holds_key d1 k i → ∃ i', holds_key d2 k i') → fresh_ctxs ctxs' 0 d2 →
    fire fuel cl' cap ctxs' def now t2 d2 = Some (n', e', t3, d3) → n' = 0 ∧ d3 = d2.
Proof.
  intros Hfr. unfold fire. destruct (due_buckets fuel cap def now) as [[[buckets nextRun]|er]|]; [|done|done].
  destruct (enqueueBuckets cl ctxs 0 def buckets d) as [[fires e] dd] eqn:Eb.
  destruct e as [er|]; [done|]. intros Hres.
  assert (d1 = dd ∧ n = length fires) as [-> ->].
  { destruct fires; [by injection Hres|]. destruct (advanceWithFires _ _ _ _ _); by injection Hres. }
  clear Hres. apply enqueueBuckets_rows in Eb as (Hsub & Hsize & Hheld); [|done]. split_and!; [done|done|].
  intros cl' ctxs' t2 d2 n' e' t3 d3 Hkeys [Hfr' _].
  destruct (enqueueBuckets cl' ctxs' 0 def buckets d2) as [[fires' e2] dd'] eqn:Eb'.
  apply enqueueBuckets_held in Eb' as [-> ->]; [|intros; apply Hfr'; lia|].
  - destruct e2; by intros [= <- <- <- <-].
  - intros b Hb. destruct (Hheld eq_refl b Hb) as [i Hi]. eauto.
Qed.
End once.

(** ** Every writer of job_periodics, one statement or transaction at a time *)

Inductive pevent := EvResume (slug : string) | EvDelete (slug : string) | EvOther.

Section steps.
Context `{Cron} `{Foundation} `{RowOrder}.

Inductive pstep : pevent → periodics * db → periodics * db → Prop :=
| ps_insert ctx spec source now o t t' d :
    c_NewID ctx 0 ≠ "" → validate spec = Ok () → insertPeriodic ctx spec source now t = Ok (o, t') →
    pstep EvOther (t, d) (t', d)
| ps_update existing spec source now t t' d :
    validate spec = Ok () → updatePeriodic existing spec source now t = Ok t' → pstep EvOther (t, d) (t', d)
| ps_active cc slug active t d t' d' :
    SetPeriodicActive cc slug active t d = Ok (t', d') → pstep EvOther (t, d) (t', d')
| ps_pause cc slug t d t' d' :
    PausePeriodic cc slug t d = Ok (t', d') → pstep EvOther (t, d) (t', d')
| ps_resume cc slug t d t' d' :
    ResumePeriodic cc slug t d = Ok (t', d') → pstep (EvResume slug) (t, d) (t', d')
| ps_delete cc slug t d t' d' :
    DeletePeriodic cc slug t d = Ok (t', d') → pstep (EvDelete slug) (t, d) (t', d')
| ps_trigger cl cc slug t d id t' d' :
    TriggerPeriodic cl cc slug t d = Ok (id, t', d') → pstep EvOther (t, d) (t', d')
(** The end of a fire of a definition read at any earlier time. *)
| ps_advance def fires nextRun now t t' d :
    advanceWithFires def fires nextRun now t = Ok t' → pstep EvOther (t, d) (t', d)
| ps_advance_alone id nextRun now t d :
    pstep EvOther (t, d) (alter (set_next_run nextRun now) id t, d)
(** Anything the runtime does to the other tables. *)
| ps_rest t d d' : pstep EvOther (t, d) (t, d').

Definition psteps (allowed : pevent → Prop) : periodics * db → periodics * db → Prop :=
  rtc (λ s s', ∃ e, allowed e ∧ pstep e s s').

Lemma wf_pstep e t d t' d' : pstep e (t, d) (t', d') → periodics_wf t → periodics_wf t'.
Proof.
  inversion 1; intros Hwf; simplify_eq.
  - by eapply wf_insertPeriodic.
  - by eapply wf_updatePeriodic.
  - edestruct SetPeriodicActive_Ok as (row & Hc); [done..|].
    eapply wf_controlled; [done|done|intros r [? ? ? ? ?]; by split|done].
  - edestruct PausePeriodic_Ok as (row & actor & _ & Hc); [done..|].
    destruct (p_PausedAt row); (eapply wf_controlled; [done|done| |done]); intros r [? ? ? ? ?]; by split.
  - edestruct ResumePeriodic_Ok as (row & Hc); [done..|].
    destruct (p_PausedAt row); [destruct Hc as (n & _ & Hc)|];
      (eapply wf_controlled; [done|done| |done]); intros r [? ? ? ? ?]; by split.
  - edestruct DeletePeriodic_Ok as (row & actor & _ & _ & _ & -> & _); [done..|]. by apply wf_delete_periodic.
  - edestruct TriggerPeriodic_Ok as (row & d1 & ring & Hp & _ & Hc); [done..|].
    eapply wf_controlled; [done|done| |done]. intros r. apply set_fires_ok. by eapply prependFires_length.
  - match goal with Ha : advanceWithFires _ _ _ _ _ = Ok _ |- _ => unfold advanceWithFires in Ha end.
    destruct (lockPeriodicWhere _ _); [|by simplify_eq]. destruct (prependFires _ _) as [ring|] eqn:Ep; simplify_eq.
    apply wf_alter_periodic; [done| |done]. intros r _. apply set_fires_ok. by eapply prependFires_length.
  - apply wf_alter_periodic; [done| |done]. intros r _ [? ? ? ? ?]. by split.
  - done.
Qed.

(** C37. In every state the writers of job_periodics can reach, from an empty table
    and in any interleaving of their statements: ids and slugs are unique, every
    definition is named and has exactly one schedule (an interval of at least a
    second, or a cron expression), its history holds at most PeriodicHistorySize
    fires, and a pausing actor is recorded only while it is paused. *)
Theorem periodics_reachable_wf d0 t d :
  psteps (λ _, True) (∅, d0) (t, d) → periodics_wf t.
Proof.
  intros Hs. assert (∀ s s', psteps (λ _, True) s s' → periodics_wf s.1 → periodics_wf s'.1) as Hall.
  { intros s s' Hr. induction Hr as [|[t1 d1] [t2 d2] s3 (e & _ & Hst) _ IH]; [done|].
    intros Hwf. apply IH. by eapply wf_pstep. }
  apply (Hall _ _ Hs). apply periodics_wf_empty.
Qed.

(** The pause of a row. *)
Definition pause_of (r : jobPeriodicRow) : option Z * string * string * string :=
  (p_PausedAt r, p_PausedByType r, p_PausedByID r, p_PausedReason r).

Lemma alter_paused (f : jobPeriodicRow → jobPeriodicRow) (i id : string) (t : periodics) r :
  (∀ r, p_Slug (f r) = p_Slug r ∧ pause_of (f r) = pause_of r) → t !! id = Some r →
  ∃ r', alter f i t !! id = Some r' ∧ p_Slug r' = p_Slug r ∧ pause_of r' = pause_of r.
Proof.
  intros Hf Hr. destruct (decide (i = id)) as [->|].
  - exists (f r). by rewrite lookup_alter_eq, Hr.
  - exists r. by rewrite lookup_alter_ne.
Qed.

Lemma paused_step e t d t' d' id r :
  periodics_wf t → pstep e (t, d) (t', d') → e ≠ EvResume (p_Slug r) → e ≠ EvDelete (p_Slug r) →
  t !! id = Some r → is_Some (p_PausedAt r) →
  ∃ r', t' !! id = Some r' ∧ p_Slug r' = p_Slug r ∧ pause_of r' = pause_of r.
Proof.
  intros Hwf Hst Hnr Hnd Hr Hp. inversion Hst; simplify_eq.
  - pose proof (insertPeriodic_Ok _ _ _ _ _ _ _ ltac:(done) ltac:(done) ltac:(done)) as Ho.
    destruct o as [row|]; [|destruct Ho as [-> _]; eauto].
    destruct Ho as (_ & _ & Hnone & _ & -> & _). exists r. rewrite lookup_insert_ne by congruence. done.
  - edestruct updatePeriodic_Ok as (n & -> & _); [done|]. by apply alter_paused.
  - edestruct SetPeriodicActive_Ok as (row & [_ _ ->]); [done..|]. by apply alter_paused.
  - edestruct PausePeriodic_Ok as (row & actor & _ & Hc); [done..|].
    destruct (p_PausedAt row) eqn:Ep; destruct Hc as [_ [Hrow _] ->]; [by apply alter_paused|].
    exists r. rewrite lookup_alter_ne; [done|]. intros <-. rewrite Hrow in Hr. simplify_eq.
    rewrite Ep in Hp. by destruct Hp.
  - edestruct ResumePeriodic_Ok as (row & Hc); [done..|].
    destruct (p_PausedAt row); [destruct Hc as (n & _ & [_ [Hrow Hs] ->])|destruct Hc as [_ [Hrow Hs] ->];
      by apply alter_paused].
    exists r. rewrite lookup_alter_ne; [done|]. intros <-. rewrite Hrow in Hr. by simplify_eq.
  - edestruct DeletePeriodic_Ok as (row & actor & _ & Hrow & Hs & -> & _); [done..|].
    exists r. rewrite lookup_delete_ne; [done|]. intros <-. rewrite Hrow in Hr. by simplify_eq.
  - edestruct TriggerPeriodic_Ok as (row & d1 & ring & _ & _ & [_ _ ->]); [done..|]. by apply alter_paused.
  - match goal with Ha : advanceWithFires _ _ _ _ _ = Ok _ |- _ => unfold advanceWithFires in Ha end.
    destruct (lockPeriodicWhere _ _); [|simplify_eq; eauto]. destruct (prependFires _ _); simplify_eq.
    by apply alter_paused.
  - by apply alter_paused.
  - eauto.
Qed.

(** A pause holds. Whatever the declarations, upserts, activations, manual runs
    and fires of any hosts, in any interleaving of their statements, until a
    ResumePeriodic or a DeletePeriodic of its slug a paused definition keeps its
    row, its pause and the actor who paused it, and is due at no tick. *)
Theorem pause_holds t d t' d' id r :
  periodics_wf t → t !! id = Some r → is_Some (p_PausedAt r) →
  psteps (λ e, e ≠ EvResume (p_Slug r) ∧ e ≠ EvDelete (p_Slug r)) (t, d) (t', d') →
  ∃ r', t' !! id = Some r' ∧ p_Slug r' = p_Slug r ∧ pause_of r' = pause_of r ∧ ∀ now, due now r' = false.
Proof.
  intros Hwf Hr Hp Hs.
  assert (∀ s s', psteps (λ e, e ≠ EvResume (p_Slug r) ∧ e ≠ EvDelete (p_Slug r)) s s' →
    periodics_wf s.1 → (∃ r', s.1 !! id = Some r' ∧ p_Slug r' = p_Slug r ∧ pause_of r' = pause_of r) →
    ∃ r', s'.1 !! id = Some r' ∧ p_Slug r' = p_Slug r ∧ pause_of r' = pause_of r) as Hall.
  { clear t d t' d' Hwf Hr Hs. intros s s' Hst. induction Hst as [|[t1 d1] [t2 d2] s3 (e & [Hn1 Hn2] & Hst) _ IH]; [done|].
    intros Hwf (r1 & Hr1 & Hs1 & Hp1). apply IH; [by eapply wf_pstep|]. simpl in *.
    destruct (paused_step e t1 d1 t2 d2 id r1) as (r2 & ? & ? & ?); [done|done|congruence|congruence|done| |].
    - unfold pause_of in Hp1. injection Hp1 as -> _ _ _. done.
    - exists r2. split_and!; congruence. }
  destruct (Hall _ _ Hs Hwf) as (r' & Hr' & Hs' & Hp'); [simpl; eauto|]. exists r'. split_and!; [done..|].
  intros now. unfold due. unfold pause_of in Hp'. injection Hp' as -> _ _ _. destruct Hp as [x ->].
  rewrite bool_decide_false by done. by rewrite andb_false_r.
Qed.
End steps.

(** ** The operations as sequences of those steps *)

Section composed.
Context `{Cron} `{Foundation} `{RowOrder}.

Definition quiet_step (e : pevent) : Prop := e = EvOther.

Lemma pstep_quiet s s' : pstep EvOther s s' → psteps quiet_step s s'.
Proof. intros Hs. apply rtc_once. by exists EvOther. Qed.

Lemma upsert_psteps ctx spec source t o t' d :
  c_NewID ctx 0 ≠ "" → upsertPeriodic ctx (λ _ t, t) spec source t = Ok (o, t') →
  psteps quiet_step (t, d) (t', d).
Proof.
  intros Hid. unfold upsertPeriodic. destruct (validate spec) as [[]|] eqn:Hv; [|done].
  destruct (loadPeriodic _ t) as [old|].
  { destruct (updatePeriodic _ _ _ _ _) eqn:Eu; [|done]. intros [= <- <-]. by eapply pstep_quiet, ps_update. }
  destruct (insertPeriodic _ _ _ _ _) as [[o1 t1]|] eqn:Ei; [|done].
  assert (psteps quiet_step (t, d) (t1, d)) as Hs1 by by eapply pstep_quiet, ps_insert.
  destruct o1; [by intros [= <- <-]|]. destruct (loadPeriodic _ t1); [|done].
  destruct (updatePeriodic _ _ _ _ _) eqn:Eu; [|done]. intros [= <- <-].
  etrans; [exact Hs1|]. by eapply pstep_quiet, ps_update.
Qed.

Lemma fire_psteps fuel cl cap ctxs def now t d n e t1 d1 :
  fire fuel cl cap ctxs def now t d = Some (n, e, t1, d1) → psteps quiet_step (t, d) (t1, d1).
Proof.
  unfold fire. destruct (due_buckets _ _ _ _) as [[[buckets nextRun]|er]|]; [| |done].
  2:{ intros [= <- <- <- <-]. apply rtc_refl. }
  destruct (enqueueBuckets _ _ _ _ _ _) as [[fires eo] d2].
  assert (psteps quiet_step (t, d) (t, d2)) as Hd by by apply pstep_quiet, ps_rest.
  destruct eo; [by intros [= <- <- <- <-]|]. destruct fires as [|f fires].
  { intros [= <- <- <- <-]. etrans; [exact Hd|]. by apply pstep_quiet, ps_advance_alone. }
  destruct (advanceWithFires _ _ _ _ _) eqn:Ea; intros [= <- <- <- <-]; [|done].
  etrans; [exact Hd|]. by eapply pstep_quiet, ps_advance.
Qed.

(** A tick is such a sequence, so a pause or a delete between two of its fires is
    covered. *)
Lemma tick_psteps fuel cl cap ctxs now t d n errs t' d' :
  Tick fuel cl cap ctxs now t d = Some (n, errs, t', d') → psteps quiet_step (t, d) (t', d').
Proof.
  unfold Tick. generalize (scan (filter (λ r, due now r = true) (map_to_list t).*2)) as defs. intros defs.
  generalize 0 as i. revert t d n errs. induction defs as [|def defs IH]; intros t d n errs i; simpl.
  { intros [= <- <- <- <-]. apply rtc_refl. }
  destruct (fire _ _ _ _ _ _ _ _) as [[[[n1 e1] t1] d1]|] eqn:Ef; [|done].
  destruct (fire_each _ _ _ _ _ _ _ _ _) as [[[[m errs'] t2] d2]|] eqn:El; [|done].
  intros [= <- <- <- <-]. etrans; [by eapply fire_psteps|by eapply IH].
Qed.

(** ** Resume *)

(** A resume releases the definition and skips what the pause missed: the row
    is no longer paused and its cursor is after now, so nothing is due at once; an
    interval keeps its phase, on the first point of its grid after now, and a
    cursor still in the future is kept. Every other definition and every job stands
    as it was, and one audit entry records it. *)
Theorem resume_skips_backlog {CL : CronLaws} cc slug t d t' d' row :
  periodics_wf t → lockPeriodic slug t = Ok row → is_Some (p_PausedAt row) →
  next_representable row (c_Now (cc_ctx cc) 0) → ResumePeriodic cc slug t d = Ok (t', d') →
  let now := c_Now (cc_ctx cc) 0 in
  jobs d' = jobs d ∧ length (job_audit d') = S (length (job_audit d)) ∧
  (∀ id, id ≠ p_ID row → t' !! id = t !! id) ∧
  ∃ r, t' !! p_ID row = Some r ∧ p_PausedAt r = None ∧ p_IsActive r = p_IsActive row ∧ due now r = false ∧
    (now < p_NextRunAt r)%Z ∧ ((now < p_NextRunAt row)%Z → p_NextRunAt r = p_NextRunAt row) ∧
    ∀ s, p_IntervalSeconds row = Some s →
      ∃ k, (0 ≤ k)%Z ∧ p_NextRunAt r = (p_NextRunAt row + k * (s * second))%Z ∧
        (p_NextRunAt r ≤ Z.max (p_NextRunAt row) (now + s * second))%Z.
Proof.
  intros Hwf Hlock Hp Hrep Hres now. destruct (ResumePeriodic_Ok _ _ _ _ _ _ Hwf Hres) as (row' & Hc).
  assert (row' = row) as ->.
  { assert (t !! p_ID row' = Some row' ∧ p_Slug row' = slug) as Hl.
    { destruct (p_PausedAt row'); [destruct Hc as (_ & _ & [_ ? _])|destruct Hc as [_ ? _]]; done. }
    apply (lockPeriodic_Ok slug t row' Hwf) in Hl. congruence. }
  destruct Hp as [x Hx]. rewrite Hx in Hc. destruct Hc as (n & Hn & [(actor & _ & ->) [Hrow _] ->]).
  destruct (resumedNextRun_later row now n Hrep Hn) as (Hlt & Hfut & Hgrid).
  split_and!; [done| | |].
  - simpl. rewrite length_app. simpl. lia.
  - intros id Hne. by apply lookup_alter_ne.
  - exists (set_pause None "" "" "" n now row). rewrite lookup_alter_eq, Hrow.
    split_and!; try done. unfold due. simpl. by rewrite (proj2 (Z.leb_gt _ _) Hlt), andb_false_r.
Qed.

(** ** Reconcile *)

Definition slugs_of (t : periodics) : gset string := list_to_set (p_Slug <$> (map_to_list t).*2).

Lemma elem_of_slugs_of slug t : slug ∈ slugs_of t ↔ ∃ id r, t !! id = Some r ∧ p_Slug r = slug.
Proof.
  unfold slugs_of. rewrite elem_of_list_to_set, list_elem_of_fmap. split.
  - intros (r & -> & ([id r'] & -> & Hr%elem_of_map_to_list)%list_elem_of_fmap). eauto.
  - intros (id & r & Hr & <-). exists r. split; [done|]. apply list_elem_of_fmap. exists (id, r).
    split; [done|]. by apply elem_of_map_to_list.
Qed.

Definition fresh_periodic_ids (ctxs : nat → context) (from : nat) (t : periodics) : Prop :=
  (∀ k, from ≤ k → c_NewID (ctxs k) 0 ≠ "" ∧ t !! c_NewID (ctxs k) 0 = None) ∧
  (∀ j k, c_NewID (ctxs j) 0 = c_NewID (ctxs k) 0 → j = k).

(** A reconcile over [specs]: it only added rows, each carrying one of them, as
    many as it counted, and without an error none of their slugs is missing. *)
Record recreated (now : Z) (present : gset string) (specs : list PeriodicSpec) (t : periodics) (n : nat)
    (errs : list error) (t' : periodics) : Prop := {
  rc_kept : t ⊆ t';
  rc_count : size t' = size t + n;
  rc_wf : periodics_wf t';
  rc_all : errs = [] → ∀ spec, spec ∈ specs → ps_Slug spec ∈ present ∨ ps_Slug spec ∈ slugs_of t';
  rc_new : ∀ id r, t' !! id = Some r → t !! id = Some r ∨
    ∃ spec, spec ∈ specs ∧ carries spec PeriodicDeclared r ∧ p_PausedAt r = None ∧
      nextFireAfter spec now = Ok (p_NextRunAt r)
}.

Lemma recreated_skip now present spec specs t n errs errs' t' :
  (errs = [] → errs' = [] ∧ ps_Slug spec ∈ present) →
  recreated now present specs t n errs' t' → recreated now present (spec :: specs) t n errs t'.
Proof.
  intros He [? ? ? Hall Hnew]. split; try done.
  - intros Hn s [->|Hs]%elem_of_cons; destruct (He Hn); [by left|by apply Hall].
  - intros id r [?|(s & ? & ?)]%Hnew; [by left|right; exists s; split; [by right|done]].
Qed.

Lemma recreated_insert ctx now present spec specs t o t1 n errs t' :
  c_NewID ctx 0 ≠ "" → t !! c_NewID ctx 0 = None → validate spec = Ok () →
  insertPeriodic ctx spec PeriodicDeclared now t = Ok (o, t1) → recreated now present specs t1 n errs t' →
  recreated now present (spec :: specs) t (match o with Some _ => S n | None => n end) errs t'.
Proof.
  intros Hne Hnone Hv Ei [Hsub2 Hsize2 Hwf2 Hall Hnew2].
  pose proof (insertPeriodic_Ok _ _ _ _ _ _ _ Hne Hv Ei) as Ho.
  assert (t ⊆ t1 ∧ size t1 = size t + match o with Some _ => 1 | None => 0 end ∧
    (∃ id r, t1 !! id = Some r ∧ p_Slug r = ps_Slug spec) ∧
    (∀ id r, t1 !! id = Some r → t !! id = Some r ∨ carries spec PeriodicDeclared r ∧ p_PausedAt r = None ∧
       nextFireAfter spec now = Ok (p_NextRunAt r))) as (Hsub & Hsize & (i & r & Hi & Hs) & Hnew1).
  { destruct o as [row|].
    - destruct Ho as (Hc & Hid & Hn & _ & -> & (Hp & _) & _ & Hnf & _). split_and!.
      + by apply insert_subseteq.
      + rewrite map_size_insert_None by done. lia.
      + exists (p_ID row), row. split; [apply lookup_insert_eq|apply Hc].
      + intros id r [[<- <-]|[_ ?]]%lookup_insert_Some; auto.
    - destruct Ho as [-> [[r Hr]|(id & r & Hr & Hs)]]; [congruence|].
      split_and!; [done|lia|eauto|by left]. }
  split.
  - by etrans.
  - rewrite Hsize2, Hsize. destruct o; lia.
  - done.
  - intros Herr s [->|Hin]%elem_of_cons; [|by apply Hall]. right.
    apply elem_of_slugs_of. exists i, r. split; [by eapply lookup_weaken|done].
  - intros id r' [Hr|(s & ? & ?)]%Hnew2; [|right; exists s; split; [by right|done]].
    destruct (Hnew1 _ _ Hr) as [?|?]; [by left|right]. exists spec. split; [by left|done].
Qed.

Lemma recreate_each_inserts ctxs faulty cancelled k now present specs t n errs t' :
  Forall (λ s, validate s = Ok ()) specs → fresh_periodic_ids ctxs k t → periodics_wf t →
  recreate_each ctxs faulty cancelled k now present specs t = (n, errs, t') →
  recreated now present specs t n errs t'.
Proof.
  revert k t n errs. induction specs as [|spec specs IH]; intros k t n errs Hv [Hfr Hinj] Hwf; simpl.
  { intros [= <- <- <-]. split; [done|lia|done|by intros _ s ?%elem_of_nil|by left]. }
  apply Forall_cons in Hv as [Hv Hvs].
  assert (fresh_periodic_ids ctxs (S k) t) as Hfr' by (split; [intros; apply Hfr; lia|done]).
  case_bool_decide as Hpres.
  { intros He. eapply (recreated_skip _ _ _ _ _ _ _ errs); [done|by eapply IH]. }
  destruct (cancelled k).
  { intros [= <- <- <-]. split; [done|lia|done|done|by left]. }
  destruct (match faulty k with Some e => Err e | None => _ end) as [[o t1]|er] eqn:Ei.
  - destruct (faulty k); [done|]. destruct (Hfr k ltac:(lia)) as [Hne Hnone].
    destruct (recreate_each _ _ _ _ _ _ _ t1) as [[m errs'] t2] eqn:El. intros [= <- <- <-].
    eapply recreated_insert; [done..|]. eapply IH; [done| |by eapply wf_insertPeriodic|done].
    pose proof (insertPeriodic_Ok _ _ _ _ _ _ _ Hne Hv Ei) as Ho.
    destruct o as [row|]; [|by destruct Ho as [-> _]]. destruct Ho as (_ & Hid & _ & _ & -> & _).
    split; [|done]. intros j Hj. destruct (Hfr j ltac:(lia)). split; [done|].
    rewrite lookup_insert_ne; [done|]. rewrite Hid. intros Heq%Hinj. lia.
  - destruct (recreate_each _ _ _ _ _ _ _ t) as [[m errs'] t2] eqn:El. intros [= <- <- <-].
    eapply recreated_skip; [|by eapply IH]. done.
Qed.

(** A reconcile only ever inserts: every definition another session left is kept
    as it is, paused, edited or inactive; each new row carries a declaration that
    was missing, unpaused, with its cursor at the first fire after now; the count is
    the number of rows added; and when it reports no error, every declaration not
    waiting on the start-up apply's retry is present, or was when it looked. *)
Theorem reconcile_only_inserts ctxs faulty cancelled now w s t n errs t' :
  Forall (λ spec, validate spec = Ok ()) (sd_periodics s) → periodics_wf (w t) →
  fresh_periodic_ids ctxs 0 (w t) →
  ReconcilePeriodics ctxs faulty cancelled now w s t = (n, errs, t') →
  w t ⊆ t' ∧ size t' = size (w t) + n ∧ periodics_wf t' ∧
  (∀ id r, t' !! id = Some r → w t !! id = Some r ∨
     ∃ spec, spec ∈ sd_periodics s ∧ carries spec PeriodicDeclared r ∧ p_PausedAt r = None ∧
       nextFireAfter spec now = Ok (p_NextRunAt r)) ∧
  (errs = [] → ∀ spec, spec ∈ sd_periodics s → ps_Slug spec ∉ pendingSlugs s →
     ps_Slug spec ∈ slugs_of t ∨ ps_Slug spec ∈ slugs_of t').
Proof.
  intros Hv Hwf Hfr. unfold ReconcilePeriodics, reconcilePeriodics.
  set (specs := filter _ (sd_periodics s)).
  assert (∀ spec, spec ∈ specs ↔ (ps_Slug spec ∉ pendingSlugs s) ∧ spec ∈ sd_periodics s) as Hin.
  { intros spec. unfold specs. by rewrite list_elem_of_filter. }
  destruct specs as [|s0 specs0] eqn:Es.
  { intros [= <- <- <-]. split_and!; [done|lia|done|by left|]. intros _ spec Hs Hnp.
    exfalso. by eapply elem_of_nil, Hin. }
  rewrite <-Es in *.
  intros Hr. eapply recreate_each_inserts in Hr as [? ? ? Hall Hnew]; [|  |done|done].
  - split_and!; try done.
    + intros id r [?|(spec & Hs & ?)]%Hnew; [by left|right]. exists spec. split; [by apply Hin|done].
    + intros He spec Hs Hnp. destruct (Hall He spec) as [Hp|]; [by apply Hin| |by right]. left.
      apply elem_of_list_to_set, list_elem_of_filter in Hp as [_ Hp].
      unfold slugs_of. by apply elem_of_list_to_set.
  - apply Forall_forall. intros spec [_ Hs]%Hin. by eapply Forall_forall in Hv.
Qed.

(** ** The start-up apply and its retry *)

Lemma others_ok_id : others_ok (λ _ t, t).
Proof. split; [done|]. intros k t id a b Ha Hb. congruence. Qed.

(** An upsert that lands leaves a row carrying its spec, and the rows of other
    slugs as they were. *)
Lemma upsert_lands ctx spec source t o t' :
  c_NewID ctx 0 ≠ "" → periodics_wf t → upsertPeriodic ctx (λ _ t, t) spec source t = Ok (o, t') →
  periodics_wf t' ∧ (∃ id r, t' !! id = Some r ∧ carries spec source r) ∧
  (∀ id r, t !! id = Some r → p_Slug r ≠ ps_Slug spec → t' !! id = Some r).
Proof.
  intros Hid Hwf Hu. split.
  { eapply (wf_upsertPeriodic ctx (λ _ t, t)); [done|by intros|done|exact Hu]. }
  pose proof (upsert_applies _ _ _ _ _ _ _ Hid others_ok_id Hwf Hu) as Ha.
  assert (loadPeriodic (ps_Slug spec) t = o) as Hload.
  { revert Hu. unfold upsertPeriodic. destruct (validate spec) as [[]|] eqn:Hv; [|done].
    pose proof (loadPeriodic_spec (ps_Slug spec) t Hwf) as Hl.
    destruct (loadPeriodic (ps_Slug spec) t) as [old|] eqn:El.
    - destruct (updatePeriodic _ _ _ _ _); [|done]. by intros [= <- _].
    - destruct (insertPeriodic _ _ _ _ _) as [[o1 t1]|] eqn:Ei; [|done].
      pose proof (insertPeriodic_Ok _ _ _ _ _ _ _ Hid Hv Ei) as Hi.
      destruct o1; [by intros [= <- _]|]. destruct Hi as [-> _]. by rewrite El. }
  destruct o as [old|].
  - destruct Ha as [Hs (base & Hbase & Hframe & Hr)]. assert (base = t) as -> by (by destruct Hbase).
    pose proof (loadPeriodic_spec (ps_Slug spec) t Hwf) as Hl. rewrite Hload in Hl. destruct Hl as [Hold _].
    rewrite Hold in Hr. destruct Hr as (r & Hr & Hc & _). split; [eauto|].
    intros id r' Hr' Hne. rewrite Hframe; [done|]. intros ->. congruence.
  - destruct Ha as (r & -> & Hnone & Hc & _). split; [exists (p_ID r), r; by rewrite lookup_insert_eq|].
    intros id r' Hr' _. rewrite lookup_insert_ne; [done|congruence].
Qed.

Lemma apply_each_accounts ctxs faulty cancelled k specs t failed t' :
  (∀ k, c_NewID (ctxs k) 0 ≠ "") → NoDup (ps_Slug <$> specs) → periodics_wf t →
  apply_each ctxs faulty cancelled k specs t = (failed, t') →
  failed `sublist_of` specs ∧ periodics_wf t' ∧
  (∀ id r, t !! id = Some r → p_Slug r ∉ ps_Slug <$> specs → t' !! id = Some r) ∧
  ∀ spec, spec ∈ specs → spec ∈ failed ∨ ∃ id r, t' !! id = Some r ∧ carries spec PeriodicDeclared r.
Proof.
  intros Hid. revert k t failed. induction specs as [|spec specs IH]; intros k t failed Hnd Hwf; simpl.
  { intros [= <- <-]. split_and!; [done|done|done|by intros s ?%elem_of_nil]. }
  rewrite fmap_cons, NoDup_cons in Hnd. destruct Hnd as [Hni Hnd].
  destruct (cancelled k); [intros [= <- <-]; split_and!; [done|done|done|by left]|].
  destruct (match faulty k with Some e => Err e | None => _ end) as [[o t1]|er] eqn:Eu.
  - destruct (faulty k); [done|]. apply upsert_lands in Eu as (Hwf1 & (i & ri & Hi & Hc) & Hframe); [|done..].
    intros (Hsub & Hwf2 & Hother & Hall)%IH; [|done..]. split_and!; [by apply sublist_cons|done| |].
    + intros id r Hr [Hne Hnin]%not_elem_of_cons. apply Hother; [by apply Hframe|done].
    + intros x [->|Hx]%elem_of_cons; [right|by apply Hall]. exists i, ri. split; [|done].
      apply Hother; [done|]. by rewrite (cr_slug _ _ _ Hc).
  - destruct (apply_each ctxs faulty cancelled (S k) specs t) as [failed1 t1] eqn:El. intros [= <- <-].
    apply IH in El as (Hsub & Hwf2 & Hother & Hall); [|done..]. split_and!; [by apply sublist_skip|done| |].
    + intros id r Hr [Hne Hnin]%not_elem_of_cons. by apply Hother.
    + intros x [->|Hx]%elem_of_cons; [left; by left|]. destruct (Hall _ Hx); [left; by right|by right].
Qed.

(** The start-up apply and each retry account for every pending declaration: it
    is still pending, or a definition now carries it; nothing landed is ever pending
    again, and definitions of other slugs are left as they were. *)
Theorem apply_accounts ctxs faulty cancelled s t s' t' :
  (∀ k, c_NewID (ctxs k) 0 ≠ "") → NoDup (ps_Slug <$> sd_pending s) → periodics_wf t →
  applyPendingPeriodics ctxs faulty cancelled s t = (s', t') →
  sd_periodics s' = sd_periodics s ∧ sd_pending s' `sublist_of` sd_pending s ∧ periodics_wf t' ∧
  (∀ id r, t !! id = Some r → p_Slug r ∉ ps_Slug <$> sd_pending s → t' !! id = Some r) ∧
  (∀ spec, spec ∈ sd_pending s →
     spec ∈ sd_pending s' ∨ ∃ id r, t' !! id = Some r ∧ carries spec PeriodicDeclared r) ∧
  (sd_pending s' = [] ↔ hasPendingPeriodics s' = false).
Proof.
  intros Hid Hnd Hwf Ha.
  assert (∀ s, sd_pending s = [] ↔ hasPendingPeriodics s = false) as Hpend.
  { intros x. unfold hasPendingPeriodics, pendingSlugs, slugSet. rewrite bool_decide_eq_false.
    destruct (sd_pending x) as [|y l].
    { split; [|done]. intros _. change (list_to_set (ps_Slug <$> [])) with (∅ : gset string). rewrite size_empty. lia. }
    split; [done|]. intros Hs. exfalso. apply Hs, Nat.neq_0_lt_0, size_non_empty_iff. set_solver. }
  unfold applyPendingPeriodics in Ha. destruct (sd_pending s) as [|p0 ps] eqn:Ep.
  { injection Ha as <- <-. rewrite Ep. split_and!; try done. by intros x ?%elem_of_nil. by rewrite <-Hpend. }
  destruct (apply_each ctxs faulty cancelled 0 (p0 :: ps) t) as [failed t1] eqn:El. injection Ha as <- <-.
  apply apply_each_accounts in El as (? & ? & ? & ?); [|done..]. split_and!; try done; apply (Hpend (Build_declared _ _ _ _)).
Qed.
End composed.
