(* ===== verification/Retention.v ===== *)
(** * Retention: internal/core/retention.go, stats_progress.go's retention cap

    A pass deletes finished jobs in batches, walking the primary key with a cursor:
    [retentionCutoff] is the WHERE clause as a predicate on a row (a CASE over the
    rules), [deleteFinishedBatch] one transaction, and
    [DeleteFinishedJobsWithOptions] the loop, which returns its count beside an
    optional error. The control history is pruned by the same kind of loop. *)

From stdpp Require Import pretty.
From S2P Require Import Prelude Types Store Insert Sweep Controls.

(** ** Options and rules *)

Record RetentionRule := { rule_Kind : string; rule_State : JobState; rule_MaxAge : Z }.
#[global] Instance RetentionRule_eq_dec : EqDecision RetentionRule.
Proof. solve_decision. Defined.

Record RetentionOpts := {
  rt_BatchSize : Z; rt_MaxBatches : Z; rt_HoldForStatsRollup : bool; rt_Rules : list RetentionRule
}.
Definition zero_retention : RetentionOpts :=
  {| rt_BatchSize := 0; rt_MaxBatches := 0; rt_HoldForStatsRollup := false; rt_Rules := [] |}.

Definition defaultRetentionBatchSize : Z := 1000.
Definition batchSize (o : RetentionOpts) : Z :=
  if (rt_BatchSize o <=? 0)%Z then defaultRetentionBatchSize else rt_BatchSize o.

(** Whether a rule names a kind, and whether it names a state. *)
Definition names_kind (r : RetentionRule) : bool := negb (is_empty (rule_Kind r)).
Definition names_state (r : RetentionRule) : bool := negb (bool_decide (rule_State r = StateOther "")).

(** [validateRetentionRules]: the first refusal, or [None]. [seen] holds the keys
    of the rules before this one. *)
Fixpoint validate_rules (seen : list (string * JobState)) (i : nat) (rules : list RetentionRule)
  : option error :=
  match rules with
  | [] => None
  | r :: rest =>
    let field := "rules[" +:+ pretty i +:+ "]" in
    if names_state r && negb (isTerminalStateString (rule_State r))
    then Some (ValidationError (field +:+ ".state"))
    else if (rule_MaxAge r <=? 0)%Z then Some (ValidationError (field +:+ ".max_age"))
    else if negb (names_kind r) && negb (names_state r) then Some (ValidationError field)
    else
      let k := (rule_Kind r, rule_State r) in
      if bool_decide (k ∈ seen) then Some (ValidationError field)
      else validate_rules (k :: seen) (S i) rest
  end.
Definition validateRetentionRules (rules : list RetentionRule) : option error :=
  validate_rules [] 0 rules.

(** [retentionRuleOrder]: the indexes of the rules, group by group. *)
Definition rule_groups : list (RetentionRule → bool) :=
  [λ r, names_kind r && names_state r; λ r, names_kind r && negb (names_state r);
   λ r, negb (names_kind r) && names_state r].
Definition retentionRuleOrder (rules : list RetentionRule) : list nat :=
  concat ((λ g, (filter (λ ir, g ir.2 = true) (imap pair rules)).*1) <$> rule_groups).

(** The WHEN condition a rule's branch carries. *)
Definition rule_when (r : RetentionRule) (row : jobRow) : bool :=
  if names_kind r && names_state r
  then bool_decide (j_Kind row = rule_Kind r) && bool_decide (j_State row = rule_State r)
  else if names_kind r then bool_decide (j_Kind row = rule_Kind r)
  else bool_decide (j_State row = rule_State r).

(** [retentionCase]: what the CASE yields for a row. *)
Fixpoint case_when {A} (rules : list RetentionRule) (order : list nat) (then_ : nat → A)
    (otherwise : A) (row : jobRow) : A :=
  match order with
  | [] => otherwise
  | i :: order =>
    match rules !! i with
    | Some r => if rule_when r row then then_ i else case_when rules order then_ otherwise row
    | None => case_when rules order then_ otherwise row
    end
  end.
Definition retentionCase {A} (rules : list RetentionRule) (then_ : nat → A) (otherwise : A)
    (row : jobRow) : A :=
  match rules with
  | [] => otherwise
  | _ => case_when rules (retentionRuleOrder rules) then_ otherwise row
  end.

(** finalized_at < ?; a NULL compares with nothing. *)
Definition finalized_before (t : Z) (row : jobRow) : bool :=
  match j_FinalizedAt row with Some f => (f <? t)%Z | None => false end.

Definition retentionCutoff (now olderThan : Z) (rules : list RetentionRule) (capAt : Z → Z)
    (row : jobRow) : bool :=
  match rules with
  | [] => finalized_before olderThan row
  | _ =>
    retentionCase rules
      (λ i, finalized_before
        (capAt (now - default 0 (rule_MaxAge <$> rules !! i))%Z) row)
      (finalized_before olderThan row) row
  end.

(** ** One batch *)

(** state IN terminal AND finalized_at IS NOT NULL AND cutoff. *)
Definition expired (cutoff : jobRow → bool) (r : jobRow) : bool :=
  isTerminalStateString (j_State r) && bool_decide (is_Some (j_FinalizedAt r)) && cutoff r.

(** id > ?, added only once there is a cursor. *)
Definition past (cursor id : string) : bool :=
  if is_empty cursor then true else negb (bool_decide (bytes_le id cursor)).

Section batch.
Context `{RowOrder}.

(** The ids a batch selects: past the soft-delete scope, ORDER BY id LIMIT. *)
Definition finished_ids (cutoff : jobRow → bool) (cursor : string) (limit : nat) (d : db) : list string :=
  page bytes_le limit
    (j_ID <$> scan (filter (λ r, expired cutoff r && past cursor (j_ID r) = true) (map_to_list (jobs d)).*2)).

Definition deleteFinishedBatch (cutoff : jobRow → bool) (cursor : string) (limit : nat) (d : db)
  : Z * string * db :=
  match finished_ids cutoff cursor limit d with
  | [] => (0%Z, "", d)
  | ids => let '(n, d1) := deleteJobRows ids d in (n, default "" (last ids), d1)
  end.

(** The loop of [DeleteFinishedJobsWithOptions]. [cancelled k] is whether the
    context is found cancelled before batch [k]; [None] is fuel spent. *)
Fixpoint delete_batches (fuel : nat) (cancelled : nat → bool) (cutoff : jobRow → bool) (limit : nat)
    (maxBatches : Z) (batch : nat) (deleted : Z) (cursor : string) (d : db)
  : option (Z * option error * db) :=
  match fuel with
  | O => None
  | S fuel =>
    if negb ((maxBatches <=? 0)%Z || (Z.of_nat batch <? maxBatches)%Z) then Some (deleted, None, d)
    else if cancelled batch then Some (deleted, Some ErrContext, d)
    else
      let '(n, last, d1) := deleteFinishedBatch cutoff cursor limit d in
      if is_empty last then Some ((deleted + n)%Z, None, d1)
      else delete_batches fuel cancelled cutoff limit maxBatches (S batch) (deleted + n)%Z last d1
  end.
End batch.

(** [Scheduler.prunedOnItsCeiling] on the retention options; the product is int64. *)
Definition prunedOnItsCeiling (o : RetentionOpts) (n : Z) : bool :=
  (0 <? rt_MaxBatches o)%Z && (n =? wrap64 (rt_MaxBatches o * batchSize o))%Z.

(** ** The hold for the stats rollup *)

(** [statsProgress]: the hours [From, To) rolled up, and the oldest hour kept. *)
Record statsProgress := { sp_From : Z; sp_To : Z; sp_RetainFrom : Z; sp_Version : Z }.
Definition covered (p : statsProgress) : bool := (sp_From p <? sp_To p)%Z.

(** [statsRetentionCap] on what readStatsProgress returned. *)
Definition statsRetentionCap (progress : option statsProgress) : option Z :=
  match progress with
  | Some p =>
    if negb (covered p) then None
    else if (sp_RetainFrom p <? sp_From p)%Z then Some (sp_RetainFrom p) else Some (sp_To p)
  | None => None
  end.

(** The cap the pass applies: [None] deletes nothing. *)
Definition retention_cap (hold : bool) (progress : option statsProgress) : option (Z → Z) :=
  if hold then
    match statsRetentionCap progress with
    | None => None
    | Some held => Some (λ t, if (held <? t)%Z then held else t)
    end
  else Some (λ t, t).

(** ** The pass *)

Section pass.
Context `{RowOrder}.

Definition DeleteFinishedJobsWithOptions (fuel : nat) (cancelled : nat → bool) (now : Z)
    (progress : option statsProgress) (olderThan : Z) (opts : RetentionOpts) (d : db)
  : option (Z * option error * db) :=
  match validateRetentionRules (rt_Rules opts) with
  | Some err => Some (0%Z, Some err, d)
  | None =>
    match retention_cap (rt_HoldForStatsRollup opts) progress with
    | None => Some (0%Z, None, d)
    | Some capAt =>
      let cutoff := retentionCutoff now (capAt olderThan) (rt_Rules opts) capAt in
      delete_batches fuel cancelled cutoff (Z.to_nat (batchSize opts)) (rt_MaxBatches opts) 0 0 "" d
    end
  end.

Definition DeleteFinishedJobs (fuel : nat) (cancelled : nat → bool) (olderThan : Z) (d : db) :=
  DeleteFinishedJobsWithOptions fuel cancelled zero_time None olderThan zero_retention d.

(** ** The control history *)

(** ORDER BY created_at, id. *)
Definition audit_le (a b : jobAuditRow) : Prop :=
  (a_CreatedAt a < a_CreatedAt b)%Z ∨ (a_CreatedAt a = a_CreatedAt b ∧ bytes_le (a_ID a) (a_ID b)).
#[global] Instance audit_le_dec : RelDecision audit_le.
Proof. intros a b. unfold audit_le. apply _. Defined.
#[global] Instance audit_le_trans : Transitive audit_le.
Proof.
  intros a b c [?|[E1 L1]] [?|[E2 L2]]; unfold audit_le; [left; lia..|].
  right. split; [congruence|]. by etrans.
Qed.
#[global] Instance audit_le_total : Total audit_le.
Proof.
  intros a b. unfold audit_le.
  destruct (Z.lt_trichotomy (a_CreatedAt a) (a_CreatedAt b)) as [?|[E|?]]; auto.
  destruct (total bytes_le (a_ID a) (a_ID b)); auto.
Qed.

Definition deleteAuditBatch (cutoff : Z) (limit : nat) (d : db) : Z * nat * db :=
  let ids := a_ID <$> page audit_le limit
    (scan (filter (λ a, (a_CreatedAt a <? cutoff)%Z = true) (job_audit d))) in
  let gone := filter (λ a, str_mem (a_ID a) ids = true) (job_audit d) in
  let kept := filter (λ a, str_mem (a_ID a) ids = false) (job_audit d) in
  (Z.of_nat (length gone), length ids, with_audit kept d).

Fixpoint audit_batches (fuel : nat) (cancelled : nat → bool) (cutoff : Z) (limit : nat)
    (maxBatches : Z) (batch : nat) (deleted : Z) (d : db) : option (Z * option error * db) :=
  match fuel with
  | O => None
  | S fuel =>
    if negb ((maxBatches <=? 0)%Z || (Z.of_nat batch <? maxBatches)%Z) then Some (deleted, None, d)
    else if cancelled batch then Some (deleted, Some ErrContext, d)
    else
      let '(n, selected, d1) := deleteAuditBatch cutoff limit d in
      if (selected <? limit)%nat then Some ((deleted + n)%Z, None, d1)
      else audit_batches fuel cancelled cutoff limit maxBatches (S batch) (deleted + n)%Z d1
  end.

Definition DeleteAuditEntriesWithOptions (fuel : nat) (cancelled : nat → bool) (olderThan : Z)
    (opts : RetentionOpts) (d : db) : option (Z * option error * db) :=
  audit_batches fuel cancelled olderThan (Z.to_nat (batchSize opts)) (rt_MaxBatches opts) 0 0 d.

Definition DeleteAuditEntries (fuel : nat) (cancelled : nat → bool) (olderThan : Z) (d : db) :=
  DeleteAuditEntriesWithOptions fuel cancelled olderThan zero_retention d.
End pass.

(** ** Which rule decides a job *)

(** A rule covers a job when what it names agrees with it. *)
Definition covers (r : RetentionRule) (row : jobRow) : Prop :=
  (rule_Kind r = "" ∨ rule_Kind r = j_Kind row) ∧
  (rule_State r = StateOther "" ∨ rule_State r = j_State row).

(** Naming a kind is more specific than naming a state; naming both is most. *)
Definition specificity (r : RetentionRule) : nat :=
  (if names_kind r then 2 else 0) + (if names_state r then 1 else 0).

(** The rule of [rules] that decides [row]: none covering it is more specific. *)
Definition decides (rules : list RetentionRule) (row : jobRow) (r : RetentionRule) : Prop :=
  r ∈ rules ∧ covers r row ∧ ∀ r', r' ∈ rules → covers r' row → specificity r' ≤ specificity r.

Definition rule_key (r : RetentionRule) : string * JobState := (rule_Kind r, rule_State r).

(** What validation accepts. *)
Record rules_ok (rules : list RetentionRule) : Prop := {
  ok_named : ∀ r, r ∈ rules → names_kind r = true ∨ names_state r = true;
  ok_age : ∀ r, r ∈ rules → (0 < rule_MaxAge r)%Z;
  ok_state : ∀ r, r ∈ rules → names_state r = true → isTerminalStateString (rule_State r) = true;
  ok_keys : NoDup (rule_key <$> rules)
}.

Lemma validate_rules_ok seen i rules :
  validate_rules seen i rules = None →
  rules_ok rules ∧ ∀ r, r ∈ rules → rule_key r ∉ seen.
Proof.
  revert seen i. induction rules as [|r rules IH]; intros seen i; simpl.
  { intros _. split; [split; try set_solver; constructor|set_solver]. }
  destruct (names_state r && _) eqn:Es; [done|]. destruct (_ <=? _)%Z eqn:Ea; [done|].
  destruct (negb (names_kind r) && _) eqn:En; [done|]. destruct (bool_decide _) eqn:Ek; [done|].
  intros [[Hn Hage Hst Hk] Hseen]%IH. apply bool_decide_eq_false in Ek. split.
  - split.
    + intros r' [->|?]%elem_of_cons; [|auto]. destruct (names_kind r), (names_state r); auto.
    + intros r' [->|?]%elem_of_cons; [lia|auto].
    + intros r' [->|?]%elem_of_cons; [|auto]. intros Hs. rewrite Hs in Es. simpl in Es.
      by destruct (isTerminalStateString _).
    + rewrite fmap_cons. apply NoDup_cons. split; [|done].
      intros (r' & Heq & Hin)%list_elem_of_fmap. apply (Hseen r' Hin). rewrite <-Heq. left.
  - intros r' [->|Hin]%elem_of_cons; [done|]. specialize (Hseen r' Hin). set_solver.
Qed.

Lemma rules_key_inj rules r r' :
  NoDup (rule_key <$> rules) → r ∈ rules → r' ∈ rules → rule_key r = rule_key r' → r = r'.
Proof.
  intros Hnd [i Hi]%list_elem_of_lookup [j Hj]%list_elem_of_lookup Hk.
  assert (i = j) as ->; [|congruence].
  eapply (NoDup_lookup _ i j (rule_key r)); [done|..]; rewrite list_lookup_fmap;
    [by rewrite Hi|by rewrite Hj, Hk].
Qed.

Lemma rule_when_covers r row :
  names_kind r = true ∨ names_state r = true → rule_when r row = true ↔ covers r row.
Proof.
  unfold rule_when, covers, names_kind, names_state, is_empty.
  destruct (decide (rule_Kind r = "")) as [Hk|Hk], (decide (rule_State r = StateOther "")) as [Hs|Hs];
    rewrite ?(bool_decide_true _ Hk), ?(bool_decide_false _ Hk), ?(bool_decide_true _ Hs),
      ?(bool_decide_false _ Hs); simpl;
    rewrite ?andb_true_iff, ?bool_decide_eq_true; naive_solver.
Qed.

(** The CASE, one group at a time: the first rule of the group that covers the row. *)
Lemma case_when_app {A} rules o1 o2 (t : nat → A) e row :
  case_when rules (o1 ++ o2) t e row = case_when rules o1 t (case_when rules o2 t e row) row.
Proof. induction o1 as [|i o1 IH]; simpl; [done|]. by destruct (rules !! i); rewrite IH. Qed.

Lemma case_when_group {A} rules (g : RetentionRule → bool) (h : option RetentionRule → A) e row :
  case_when rules (filter (λ ir, g ir.2 = true) (imap pair rules)).*1 (λ i, h (rules !! i)) e row =
  match List.find (λ r, g r && rule_when r row) rules with Some r => h (Some r) | None => e end.
Proof.
  enough (∀ pre rest, rules = pre ++ rest →
    case_when rules (filter (λ ir, g ir.2 = true) (imap (λ i, pair (length pre + i)) rest)).*1
      (λ i, h (rules !! i)) e row =
    match List.find (λ r, g r && rule_when r row) rest with Some r => h (Some r) | None => e end)
    as Hgen by (by apply (Hgen [] rules)).
  intros pre rest. revert pre. induction rest as [|r rest IH]; intros pre Hr; [done|].
  specialize (IH (pre ++ [r])). rewrite length_app in IH. simpl in IH.
  assert (rules !! length pre = Some r) as Hl by (by rewrite Hr, lookup_app_r, Nat.sub_diag by lia).
  rewrite imap_cons, Nat.add_0_r, filter_cons. simpl.
  assert (imap ((λ i, pair (length pre + i)) ∘ S) rest = imap (λ i, pair (length pre + 1 + i)) rest) as ->.
  { apply imap_ext. intros. simpl. f_equal. lia. }
  rewrite <-app_assoc in IH. specialize (IH Hr).
  destruct (decide (g r = true)) as [Hg|Hg]; simpl.
  - rewrite Hl, Hg. simpl. by destruct (rule_when r row).
  - apply not_true_is_false in Hg. by rewrite Hg.
Qed.

Lemma find_list_Some {A} (f : A → bool) l x : List.find f l = Some x → x ∈ l ∧ f x = true.
Proof. intros [H1 H2]%List.find_some. by rewrite list_elem_of_In. Qed.
Lemma find_list_None {A} (f : A → bool) l x : List.find f l = None → x ∈ l → f x = false.
Proof. rewrite list_elem_of_In. intros. by eapply List.find_none. Qed.

(** The groups in order are the specificities 3, 2 and 1. *)
Lemma covers_same_key rules row r r' :
  rules_ok rules → r ∈ rules → r' ∈ rules → covers r row → covers r' row →
  specificity r = specificity r' → r = r'.
Proof.
  intros [_ _ _ Hk] Hr Hr' [Ck Cs] [Ck' Cs'] Hs. eapply rules_key_inj; eauto.
  unfold rule_key. unfold specificity, names_kind, names_state, is_empty in Hs.
  repeat case_bool_decide; simpl in Hs; try done; f_equal; destruct Ck, Ck', Cs, Cs'; congruence.
Qed.

Definition cutoff_of (now : Z) (capAt : Z → Z) (row : jobRow) (r : RetentionRule) : bool :=
  finalized_before (capAt (now - rule_MaxAge r)%Z) row.

Lemma retentionCutoff_find now olderThan rules capAt row :
  retentionCutoff now olderThan rules capAt row =
  match List.find (λ r, names_kind r && names_state r && rule_when r row) rules with
  | Some r => cutoff_of now capAt row r
  | None =>
    match List.find (λ r, names_kind r && negb (names_state r) && rule_when r row) rules with
    | Some r => cutoff_of now capAt row r
    | None =>
      match List.find (λ r, negb (names_kind r) && names_state r && rule_when r row) rules with
      | Some r => cutoff_of now capAt row r
      | None => finalized_before olderThan row
      end
    end
  end.
Proof.
  set (h := λ o : option RetentionRule,
    finalized_before (capAt (now - default 0 (rule_MaxAge <$> o))%Z) row).
  set (grp := λ g : RetentionRule → bool, (filter (λ ir, g ir.2 = true) (imap pair rules)).*1).
  assert (retentionCutoff now olderThan rules capAt row =
    case_when rules (grp (λ r, names_kind r && names_state r) ++
      grp (λ r, names_kind r && negb (names_state r)) ++ grp (λ r, negb (names_kind r) && names_state r))
      (λ i, h (rules !! i)) (finalized_before olderThan row) row) as ->.
  { destruct rules; [done|]. unfold retentionCutoff, retentionCase, retentionRuleOrder.
    cbn [concat rule_groups fmap list_fmap]. by rewrite app_nil_r. }
  assert (∀ g e, case_when rules (grp g) (λ i, h (rules !! i)) e row =
    match List.find (λ r, g r && rule_when r row) rules with Some r => h (Some r) | None => e end) as Hg.
  { intros g e. apply (case_when_group rules g h). }
  by rewrite !case_when_app, !Hg.
Qed.

(** A rule found in a group is the deciding one, when the groups above have none. *)
Lemma found_decides rules row r n :
  rules_ok rules → r ∈ rules → covers r row → specificity r = n →
  (∀ r', r' ∈ rules → covers r' row → specificity r' ≤ n) →
  decides rules row r ∧ ∀ r', decides rules row r' → r' = r.
Proof.
  intros Hok Hr Hc Hs Hmax. split; [split_and!; [done..|]; rewrite Hs; done|].
  intros r' (Hr' & Hc' & Hm'). symmetry. apply (covers_same_key rules row); try done.
  specialize (Hm' r Hr Hc). specialize (Hmax r' Hr' Hc'). lia.
Qed.

Definition decided (now olderThan : Z) (rules : list RetentionRule) (capAt : Z → Z) (row : jobRow) (cut : bool) : Prop :=
  (∃ r, decides rules row r ∧ (∀ r', decides rules row r' → r' = r) ∧
     cut = finalized_before (capAt (now - rule_MaxAge r)%Z) row) ∨
  ((∀ r, r ∈ rules → ¬ covers r row) ∧ cut = finalized_before olderThan row).

Lemma retentionCutoff_decided now olderThan rules capAt row :
  validateRetentionRules rules = None →
  decided now olderThan rules capAt row (retentionCutoff now olderThan rules capAt row).
Proof.
  intros [Hok _]%validate_rules_ok. rewrite retentionCutoff_find. unfold decided. fold (cutoff_of now capAt row).
  assert (∀ r, r ∈ rules → covers r row → rule_when r row = true) as Hw.
  { intros r Hr. by apply rule_when_covers, (ok_named _ Hok). }
  assert (∀ r, r ∈ rules → names_kind r = true ∨ names_state r = true) as Hn by apply Hok.
  assert (∀ r b, r ∈ rules → b && rule_when r row = true → covers r row) as Hc.
  { intros r b Hr [_ Hf]%andb_true_iff. by apply rule_when_covers; auto. }
  destruct (List.find _ rules) as [r|] eqn:E3.
  { apply find_list_Some in E3 as [Hr Hf]. cbv beta in Hf. left. exists r.
    destruct (found_decides rules row r 3) as [? ?]; eauto; unfold specificity.
    - by destruct (names_kind r), (names_state r).
    - intros r' _ _. destruct (names_kind r'), (names_state r'); simpl; lia. }
  assert (∀ r, r ∈ rules → covers r row → specificity r ≤ 2) as H2.
  { intros r Hr Hcr. pose proof (find_list_None _ _ r E3 Hr) as Hf. simpl in Hf.
    rewrite (Hw r Hr Hcr) in Hf. unfold specificity. destruct (names_kind r), (names_state r); simpl in *; done || lia. }
  clear E3. destruct (List.find _ rules) as [r|] eqn:E2.
  { apply find_list_Some in E2 as [Hr Hf]. cbv beta in Hf. left. exists r.
    destruct (found_decides rules row r 2) as [? ?]; eauto. unfold specificity.
    by destruct (names_kind r), (names_state r). }
  assert (∀ r, r ∈ rules → covers r row → specificity r ≤ 1) as H1.
  { intros r Hr Hcr. pose proof (find_list_None _ _ r E2 Hr) as Hf. simpl in Hf. specialize (H2 r Hr Hcr).
    rewrite (Hw r Hr Hcr) in Hf. unfold specificity in *. destruct (names_kind r), (names_state r); simpl in *; done || lia. }
  clear E2. destruct (List.find _ rules) as [r|] eqn:E1.
  { apply find_list_Some in E1 as [Hr Hf]. cbv beta in Hf. left. exists r.
    destruct (found_decides rules row r 1) as [? ?]; eauto. unfold specificity.
    by destruct (names_kind r), (names_state r). }
  right. split; [|done]. intros r Hr Hcr. pose proof (find_list_None _ _ r E1 Hr) as Hf. simpl in Hf.
  specialize (H1 r Hr Hcr). rewrite (Hw r Hr Hcr) in Hf. specialize (Hn r Hr). unfold specificity in *.
  destruct (names_kind r), (names_state r); simpl in *; done || lia || naive_solver.
Qed.

Lemma decided_perm now olderThan rules rules' capAt row cut cut' :
  rules ≡ₚ rules' → decided now olderThan rules capAt row cut →
  decided now olderThan rules' capAt row cut' → cut = cut'.
Proof.
  intros Hp. unfold decided, decides. setoid_rewrite Hp.
  intros [(r & Hr & Hu & ->)|[Hn ->]] [(r' & Hr' & Hu' & ->)|[Hn' ->]]; try naive_solver.
Qed.

(** The most specific rule decides. For validated rules, either exactly one rule
    is the most specific of those covering the job (kind and state, then kind, then
    state) and the job is past its cutoff exactly when it finalized before now minus
    that rule's age, capped; or no rule covers it and the pass's default cutoff
    applies. The order the rules are given in never matters. *)
Theorem most_specific_rule_decides now olderThan rules capAt row :
  validateRetentionRules rules = None →
  decided now olderThan rules capAt row (retentionCutoff now olderThan rules capAt row) ∧
  ∀ rules', rules ≡ₚ rules' → validateRetentionRules rules' = None →
    retentionCutoff now olderThan rules' capAt row = retentionCutoff now olderThan rules capAt row.
Proof.
  intros Hv. pose proof (retentionCutoff_decided now olderThan rules capAt row Hv) as Hd. split; [done|].
  intros rules' Hp Hv'. symmetry. eapply decided_perm; eauto using retentionCutoff_decided.
Qed.

(** ** Deleting in batches *)

Lemma str_mem_app s l1 l2 : str_mem s (l1 ++ l2) = str_mem s l1 || str_mem s l2.
Proof.
  unfold str_mem. rewrite <-bool_decide_or. apply bool_decide_ext. apply elem_of_app.
Qed.

Lemma lookup_delete_rows ids d id :
  keyed (jobs d) →
  jobs (deleteJobRows ids d).2 !! id = if str_mem id ids then None else jobs d !! id.
Proof.
  intros Hk. simpl. rewrite map_lookup_filter. destruct (jobs d !! id) as [r|] eqn:E; simpl.
  - rewrite (Hk _ _ E). by destruct (str_mem id ids).
  - by destruct (str_mem id ids).
Qed.

(** Deleting twice is deleting both lists at once, in every table. *)
Lemma delete_rows_app ids1 ids2 d :
  (deleteJobRows ids2 (deleteJobRows ids1 d).2).2 = (deleteJobRows (ids1 ++ ids2) d).2.
Proof.
  assert (∀ {A} (f : A → string) (m : gmap string A),
    filter (λ kv, str_mem (f kv.2) ids2 = false) (filter (λ kv, str_mem (f kv.2) ids1 = false) m) =
    filter (λ kv, str_mem (f kv.2) (ids1 ++ ids2) = false) m) as Hf.
  { intros A f m. rewrite map_filter_filter. apply map_filter_ext. intros i x _. simpl.
    rewrite str_mem_app. destruct (str_mem _ ids1), (str_mem _ ids2); naive_solver. }
  unfold deleteJobRows at 1 3. cbn [snd]. f_equal; [apply Hf|apply Hf|].
  apply leibniz_equiv. intros [t id]. unfold deleteJobRows at 1. cbn [snd job_run_finishes].
  rewrite !elem_of_difference, !deleteJobRows_finishes. cbn [snd deleteJobRows job_runs].
  setoid_rewrite map_lookup_filter_Some. setoid_rewrite str_mem_app. simpl. split.
  - intros [[HF H1] H2]. split; [done|]. intros (i & r & Hi & Hm & Ht & Hid).
    destruct (str_mem (r_JobID r) ids1) eqn:E1; [apply H1; eauto 8|]. apply H2. eauto 8.
  - intros [HF H1]. split_and!; [done|..].
    + intros (i & r & Hi & Hm & ?). apply H1. exists i, r. rewrite Hm. eauto.
    + intros (i & r & [Hi _] & Hm & ?). apply H1. exists i, r. rewrite Hm, orb_true_r. eauto.
Qed.

Lemma delete_rows_nil d : (deleteJobRows [] d).2 = d.
Proof.
  destruct d as [j r f a]. unfold deleteJobRows, str_mem. simpl. f_equal.
  - by apply map_filter_id.
  - by apply map_filter_id.
  - apply leibniz_equiv. intros [t id]. rewrite elem_of_difference.
    rewrite (deleteJobRows_finishes [] {| jobs := j; job_runs := r; job_run_finishes := f; job_audit := a |}).
    unfold str_mem. split; [by intros []|]. intros Hin. split; [done|].
    intros (i & x & _ & Hm & _). apply bool_decide_eq_true in Hm. set_solver.
Qed.

Lemma delete_rows_count ids d :
  keyed (jobs d) → NoDup ids → (∀ id, id ∈ ids → is_Some (jobs d !! id)) →
  (deleteJobRows ids d).1 = Z.of_nat (length ids).
Proof.
  intros Hk Hnd Hin. simpl. f_equal.
  rewrite <-(length_fmap fst). apply Permutation_length, NoDup_Permutation; [|done|].
  - eapply sublist_NoDup; [apply (NoDup_fst_map_to_list (jobs d))|apply fmap_sublist, sublist_filter].
  - intros id. rewrite list_elem_of_fmap. split.
    + intros ([i r] & -> & [Hm Hi%elem_of_map_to_list]%list_elem_of_filter). simpl in *.
      rewrite (Hk _ _ Hi) in Hm. by apply bool_decide_eq_true in Hm.
    + intros H. destruct (Hin id H) as [r Hr]. exists (id, r). split; [done|].
      rewrite list_elem_of_filter, elem_of_map_to_list. simpl. split; [|done].
      rewrite (Hk _ _ Hr). by apply bool_decide_true.
Qed.

Section batches.
Context `{RowOrder} (cutoff : jobRow → bool).

(** The expired jobs a batch may still reach. *)
Definition reachable (cursor : string) (d : db) (id : string) : Prop :=
  ∃ r, jobs d !! id = Some r ∧ expired cutoff r = true ∧ past cursor id = true.

Lemma finished_ids_spec cursor n d :
  keyed (jobs d) →
  let ids := finished_ids cutoff cursor n d in
  NoDup ids ∧ length ids ≤ n ∧ StronglySorted bytes_le ids ∧
  (∀ id, id ∈ ids → reachable cursor d id) ∧
  (∀ a b, a ∈ ids → reachable cursor d b → b ∉ ids → bytes_le a b) ∧
  (length ids < n → ∀ id, reachable cursor d id → id ∈ ids).
Proof.
  intros Hk ids. unfold ids, finished_ids. set (l := j_ID <$> scan _).
  assert (∀ id, id ∈ l ↔ reachable cursor d id) as Hl.
  { intros id. unfold l, reachable. rewrite list_elem_of_fmap. setoid_rewrite scan_perm.
    setoid_rewrite list_elem_of_filter. setoid_rewrite elem_of_table. split.
    - intros (r & -> & [He Hp]%andb_true_iff & i & Hi). exists r. by rewrite (Hk _ _ Hi) in *.
    - intros (r & Hr & He & Hp). exists r. rewrite (Hk _ _ Hr), He, Hp. eauto. }
  assert (NoDup l) as Hnd.
  { unfold l. rewrite scan_perm. eapply sublist_NoDup; [by apply table_ids_NoDup|].
    apply fmap_sublist, sublist_filter. }
  split_and!.
  - by apply page_NoDup.
  - rewrite page_length. lia.
  - apply page_sorted; apply _.
  - intros id Hid%page_subset. by apply Hl.
  - intros a b Ha Hb Hnb. eapply page_best; eauto; [apply _..|]. by apply Hl.
  - intros Hs id Hid%Hl. by rewrite (page_short bytes_le n l) by (done || apply _).
Qed.

Lemma sorted_last (ids : list string) m :
  StronglySorted bytes_le ids → last ids = Some m → ∀ a, a ∈ ids → bytes_le a m.
Proof.
  intros Hs [pre ->]%last_Some a Ha. apply elem_of_app in Ha as [Ha|Ha].
  - eapply StronglySorted_app_1_elem_of; [exact Hs|done|set_solver].
  - apply list_elem_of_singleton in Ha as ->. by destruct (total bytes_le m m).
Qed.

(** The ids of the expired jobs. *)
Definition prunable (d : db) : gset string :=
  dom (filter (λ kv, expired cutoff kv.2 = true) (jobs d)).

Lemma elem_of_prunable d id :
  id ∈ prunable d ↔ ∃ r, jobs d !! id = Some r ∧ expired cutoff r = true.
Proof.
  unfold prunable. rewrite elem_of_dom. unfold is_Some. by setoid_rewrite map_lookup_filter_Some.
Qed.

Lemma prunable_delete ids d id :
  keyed (jobs d) → id ∈ prunable (deleteJobRows ids d).2 ↔ id ∈ prunable d ∧ id ∉ ids.
Proof.
  intros Hk. rewrite !elem_of_prunable. setoid_rewrite (lookup_delete_rows ids d id Hk).
  unfold str_mem. case_bool_decide; naive_solver.
Qed.

(** What one run of the loop from batch [k] deleted, and how it ended. *)
Record prune_run (cancelled : nat → bool) (n : nat) (maxBatches : Z) (k : nat) (d : db)
    (ids : list string) (e : option error) : Prop := {
  pr_NoDup : NoDup ids;
  pr_expired : ∀ id, id ∈ ids → id ∈ prunable d;
  pr_prefix : ∀ a b, a ∈ ids → b ∈ prunable d → bytes_le b a → b ∈ ids;
  pr_ceiling : (0 < maxBatches → Z.of_nat (length ids) ≤ (maxBatches - Z.of_nat k) * Z.of_nat n)%Z;
  pr_err : e = None ∨ (e = Some ErrContext ∧ ∃ j, k ≤ j ∧ cancelled j = true);
  pr_done : e = None → (∀ id, id ∈ prunable d → id ∈ ids) ∨
    (0 < maxBatches ∧ Z.of_nat (length ids) = (maxBatches - Z.of_nat k) * Z.of_nat n)%Z
}.

Lemma prune_run_nil cancelled n maxBatches k d e :
  (0 < maxBatches → Z.of_nat k ≤ maxBatches)%Z →
  e = None ∨ (e = Some ErrContext ∧ ∃ j, k ≤ j ∧ cancelled j = true) →
  (e = None → (∀ id, id ∉ prunable d) ∨ (0 < maxBatches ∧ maxBatches = Z.of_nat k)%Z) →
  prune_run cancelled n maxBatches k d [] e.
Proof.
  intros Hk He Hd. split; try set_solver.
  - constructor.
  - simpl. nia.
  - intros [Hb|[? ?]]%Hd; [left; set_solver|right]. simpl. split; [done|nia].
Qed.

(** One page and the run after it make a run. *)
Lemma prune_run_app cancelled n maxBatches k d ids1 ids2 e :
  keyed (jobs d) → NoDup ids1 → length ids1 ≤ n →
  (∀ id, id ∈ ids1 → id ∈ prunable d) →
  (∀ a b, a ∈ ids1 → b ∈ prunable d → b ∉ ids1 → bytes_le a b) →
  (length ids1 < n → ∀ id, id ∈ prunable d → id ∈ ids1) →
  prune_run cancelled n maxBatches (S k) (deleteJobRows ids1 d).2 ids2 e →
  prune_run cancelled n maxBatches k d (ids1 ++ ids2) e.
Proof.
  intros Hk Hnd Hlen Hin Hbest Hfull [Hnd2 Hex2 Hpre2 Hceil2 Herr2 Hdone2].
  assert (∀ id, id ∈ prunable (deleteJobRows ids1 d).2 ↔ id ∈ prunable d ∧ id ∉ ids1) as Hb
    by (intros; by apply prunable_delete).
  split.
  - apply NoDup_app. split_and!; [done| |done]. intros id H1 H2%Hex2%Hb. naive_solver.
  - intros id [?|?%Hex2%Hb]%elem_of_app; naive_solver.
  - intros a b Ha Hbb Hle. rewrite elem_of_app. destruct (decide (b ∈ ids1)) as [|Hn]; [by left|].
    apply elem_of_app in Ha as [Ha|Ha].
    + pose proof (Hbest a b Ha Hbb Hn). assert (a = b) as -> by (by apply (anti_symm bytes_le)). by left.
    + right. apply (Hpre2 a b); try done. by apply Hb.
  - intros Hm. specialize (Hceil2 Hm). rewrite length_app. nia.
  - destruct Herr2 as [|(-> & j & ? & ?)]; [by left|right]. split; [done|]. exists j. split; [lia|done].
  - intros [Hall|[Hm Hl]]%Hdone2.
    + left. intros id Hid. rewrite elem_of_app. destruct (decide (id ∈ ids1)); [by left|right].
      apply Hall, Hb. done.
    + destruct (decide (length ids1 < n)) as [Hlt|Hge].
      * left. intros id Hid. rewrite elem_of_app. left. by apply Hfull.
      * right. split; [done|]. rewrite length_app. nia.
Qed.

(** A batch, by the ids it selects. *)
Lemma deleteFinishedBatch_eq cursor n d :
  keyed (jobs d) →
  let ids := finished_ids cutoff cursor n d in
  deleteFinishedBatch cutoff cursor n d =
    (Z.of_nat (length ids), default "" (last ids), (deleteJobRows ids d).2).
Proof.
  intros Hk ids. destruct (finished_ids_spec cursor n d Hk) as (Hnd & _ & _ & Hin & _). fold ids in Hnd, Hin.
  pose proof (delete_rows_count ids d Hk Hnd) as Hc. unfold deleteFinishedBatch. fold ids.
  destruct ids as [|i ids0]; [by rewrite delete_rows_nil|].
  rewrite <-Hc by (intros id (r & ? & _)%Hin; eauto). by destruct (deleteJobRows (i :: ids0) d).
Qed.

Lemma delete_batches_run fuel cancelled n maxBatches k deleted cursor d :
  keyed (jobs d) → jobs d !! "" = None → 0 < n → (0 < maxBatches → Z.of_nat k ≤ maxBatches)%Z →
  (∀ id, id ∈ prunable d → past cursor id = true) → size (prunable d) < fuel →
  ∃ ids e,
    delete_batches fuel cancelled cutoff n maxBatches k deleted cursor d =
      Some ((deleted + Z.of_nat (length ids))%Z, e, (deleteJobRows ids d).2) ∧
    prune_run cancelled n maxBatches k d ids e.
Proof.
  revert k deleted cursor d. induction fuel as [|fuel IH]; intros k deleted cursor d Hk He Hn Hkm Hpast Hfuel;
    [lia|]. cbn [delete_batches].
  assert (∀ id, id ∈ prunable d ↔ reachable cursor d id) as Hreach.
  { intros id. split; [|unfold reachable; rewrite elem_of_prunable; naive_solver].
    intros Hid. pose proof (Hpast id Hid). apply elem_of_prunable in Hid as (r & ? & ?). by exists r. }
  destruct (negb _) eqn:Em.
  { exists [], None. rewrite delete_rows_nil, Z.add_0_r. split; [done|]. apply prune_run_nil; auto.
    intros _. right. lia. }
  destruct (cancelled k) eqn:Ec.
  { exists [], (Some ErrContext). rewrite delete_rows_nil, Z.add_0_r. split; [done|].
    apply prune_run_nil; auto; [|done]. right. eauto. }
  destruct (finished_ids_spec cursor n d Hk) as (Hnd & Hlen & Hsort & Hin & Hbest & Hfull).
  setoid_rewrite <-Hreach in Hin. setoid_rewrite <-Hreach in Hbest. setoid_rewrite <-Hreach in Hfull.
  rewrite (deleteFinishedBatch_eq cursor n d Hk). set (ids := finished_ids cutoff cursor n d) in *.
  destruct (last ids) as [m|] eqn:El; cycle 1.
  { apply last_None in El. rewrite El in *. exists [], None. rewrite delete_rows_nil. split; [done|].
    apply prune_run_nil; auto. intros _. left. intros id Hid%Hfull; [set_solver|done]. }
  assert (m ∈ ids) as Hm by (apply last_Some in El as [pre ->]; set_solver).
  change (default "" (Some m)) with m. assert (is_empty m = false) as ->.
  { apply bool_decide_false. intros ->. apply Hin, elem_of_prunable in Hm as (r & Hr & _). congruence. }
  assert (∀ id, id ∈ prunable (deleteJobRows ids d).2 ↔ id ∈ prunable d ∧ id ∉ ids) as Hb
    by (intros; by apply prunable_delete).
  edestruct (IH (S k) (deleted + Z.of_nat (length ids))%Z m (deleteJobRows ids d).2)
    as (ids2 & e & -> & Hrun); [..|exists (ids ++ ids2), e; split].
  - intros id r [? _]%map_lookup_filter_Some. eauto.
  - rewrite lookup_delete_rows by done. by destruct (str_mem _ _).
  - done.
  - lia.
  - intros id [Hid Hnid]%Hb. unfold past. destruct (is_empty m); [done|].
    rewrite bool_decide_false; [done|]. intros Hle. pose proof (Hbest m id Hm Hid Hnid).
    assert (id = m) as -> by (by apply (anti_symm bytes_le)). done.
  - assert (prunable (deleteJobRows ids d).2 ⊂ prunable d) as Hsub%subset_size; [|lia].
    split; [intros id ?%Hb; naive_solver|]. intros Hall. apply Hin in Hm as Hmb.
    by apply Hall, Hb in Hmb as [_ ?].
  - rewrite delete_rows_app, length_app, Nat2Z.inj_add. by rewrite Z.add_assoc.
  - apply prune_run_app; try done.
Qed.
End batches.

(** ** The pass *)

Lemma batchSize_pos o : (0 < batchSize o)%Z.
Proof. unfold batchSize, defaultRetentionBatchSize. case_match; lia. Qed.

Lemma prunable_size cutoff d : size (prunable cutoff d) ≤ size (jobs d).
Proof.
  rewrite <-(size_dom (D:=gset string) (jobs d)). apply subseteq_size. intros id.
  rewrite elem_of_prunable, elem_of_dom. naive_solver.
Qed.

Section pass_theorems.
Context `{RowOrder}.

(** The WHERE clause a pass over [opts] uses, once its cap is known. *)
Definition pass_cutoff (now olderThan : Z) (opts : RetentionOpts) (capAt : Z → Z) : jobRow → bool :=
  retentionCutoff now (capAt olderThan) (rt_Rules opts) capAt.

Lemma pass_run fuel cancelled now progress olderThan opts capAt d :
  validateRetentionRules (rt_Rules opts) = None →
  retention_cap (rt_HoldForStatsRollup opts) progress = Some capAt →
  db_wf d → jobs d !! "" = None → size (jobs d) < fuel →
  ∃ ids e,
    DeleteFinishedJobsWithOptions fuel cancelled now progress olderThan opts d =
      Some (Z.of_nat (length ids), e, (deleteJobRows ids d).2) ∧
    prune_run (pass_cutoff now olderThan opts capAt) cancelled (Z.to_nat (batchSize opts))
      (rt_MaxBatches opts) 0 d ids e.
Proof.
  intros Hv Hc Hwf He Hf. unfold DeleteFinishedJobsWithOptions. rewrite Hv, Hc.
  fold (pass_cutoff now olderThan opts capAt).
  pose proof (batchSize_pos opts). pose proof (prunable_size (pass_cutoff now olderThan opts capAt) d).
  destruct (delete_batches_run (pass_cutoff now olderThan opts capAt) fuel cancelled
    (Z.to_nat (batchSize opts)) (rt_MaxBatches opts) 0 0 "" d) as (ids & e & -> & Hrun);
    try done || lia; [apply Hwf|].
  exists ids, e. by rewrite Z.add_0_l.
Qed.

(** C39. A full retention pass deletes exactly the expired jobs. With no batch
    ceiling and no cancellation, whatever order the database scans rows in, the
    pass ends, returns the number of jobs that were terminal, finalized and past
    the cutoff deciding them, and leaves every other job, soft-deleted or not, as it
    was; the deleted jobs' runs go with them and no other job's, the control history
    stays, and the tables keep their invariants. *)
Theorem retention_prunes_exactly fuel cancelled now progress olderThan opts capAt d :
  validateRetentionRules (rt_Rules opts) = None →
  retention_cap (rt_HoldForStatsRollup opts) progress = Some capAt →
  (rt_MaxBatches opts ≤ 0)%Z → (∀ k, cancelled k = false) →
  db_wf d → jobs d !! "" = None → size (jobs d) < fuel →
  let gone := expired (pass_cutoff now olderThan opts capAt) in
  ∃ d',
    DeleteFinishedJobsWithOptions fuel cancelled now progress olderThan opts d =
      Some (Z.of_nat (size (filter (λ kv, gone kv.2 = true) (jobs d))), None, d') ∧
    jobs d' = filter (λ kv, gone kv.2 = false) (jobs d) ∧
    (∀ id run, job_runs d' !! id = Some run ↔
       job_runs d !! id = Some run ∧
       ∀ r, jobs d !! r_JobID run = Some r → gone r = false) ∧
    job_audit d' = job_audit d ∧ db_wf d'.
Proof.
  intros Hv Hc Hm Hcan Hwf He Hf gone.
  destruct (pass_run fuel cancelled now progress olderThan opts capAt d) as (ids & e & -> & Hrun); try done.
  destruct Hrun as [Hnd Hex _ _ Herr Hdone]. destruct Herr as [->|(_ & j & _ & Hj)]; [|by rewrite Hcan in Hj].
  assert (∀ id, id ∈ ids ↔ id ∈ prunable (pass_cutoff now olderThan opts capAt) d) as Hids.
  { intros id. split; [auto|]. destruct (Hdone eq_refl) as [Hall|[? _]]; [auto|lia]. }
  clear Hex Hdone. exists (deleteJobRows ids d).2. split_and!.
  - assert (size (filter (λ kv, gone kv.2 = true) (jobs d)) = length ids) as ->; [|done].
    rewrite <-(size_dom (D:=gset string)), <-(size_list_to_set (C:=gset string) ids Hnd). f_equal.
    apply leibniz_equiv. intros id. by rewrite elem_of_list_to_set, Hids.
  - apply map_eq. intros id. rewrite lookup_delete_rows, map_lookup_filter by apply Hwf.
    destruct (jobs d !! id) as [r|] eqn:E; simpl; [|by destruct (str_mem _ _)].
    unfold str_mem. destruct (bool_decide (id ∈ ids)) eqn:Eb.
    + apply bool_decide_eq_true, Hids, elem_of_prunable in Eb as (r2 & ? & Hx). simplify_eq.
      unfold gone. by rewrite Hx.
    + destruct (gone r) eqn:Eg; [|done]. apply bool_decide_eq_false in Eb. destruct Eb.
      apply Hids, elem_of_prunable. eauto.
  - intros id run. cbn [deleteJobRows snd job_runs]. rewrite map_lookup_filter_Some. simpl.
    apply and_iff_compat_l. unfold str_mem. rewrite bool_decide_eq_false, Hids, elem_of_prunable.
    fold gone. split.
    + intros Hn r Hr. destruct (gone r) eqn:Eg; [|done]. destruct Hn. eauto.
    + intros Hall (r & Hr & Hg). apply Hall in Hr. congruence.
  - done.
  - by apply wf_deleteJobRows.
Qed.

Lemma expired_final cutoff r :
  expired cutoff r = true →
  isTerminalStateString (j_State r) = true ∧ is_Some (j_FinalizedAt r) ∧ cutoff r = true.
Proof. unfold expired. rewrite !andb_true_iff, bool_decide_eq_true. tauto. Qed.

(** A pass that stops early keeps its word. However many batches it is allowed
    and whenever it is cancelled, the pass ends; the count it returns, beside an
    error too, is exactly the jobs that are gone; each of them was terminal and
    expired, and every expired job it left sorts after every job it deleted; it
    never deletes more than MaxBatches times the batch size, fails only when
    cancelled, and, when it ends without an error and not on its ceiling, has left
    no expired job behind. *)
Theorem retention_partial_pass fuel cancelled now progress olderThan opts capAt d :
  validateRetentionRules (rt_Rules opts) = None →
  retention_cap (rt_HoldForStatsRollup opts) progress = Some capAt →
  db_wf d → jobs d !! "" = None → size (jobs d) < fuel → (Z.of_nat (size (jobs d)) ≤ int64_max)%Z →
  let gone := expired (pass_cutoff now olderThan opts capAt) in
  ∃ n e d',
    DeleteFinishedJobsWithOptions fuel cancelled now progress olderThan opts d = Some (n, e, d') ∧
    db_wf d' ∧ n = Z.of_nat (size (jobs d) - size (jobs d')) ∧ jobs d' ⊆ jobs d ∧
    (∀ id r, jobs d !! id = Some r → jobs d' !! id = None →
       isTerminalStateString (j_State r) = true ∧ gone r = true) ∧
    (∀ a b r, is_Some (jobs d !! a) → jobs d' !! a = None → jobs d' !! b = Some r → gone r = true →
       ¬ bytes_le b a) ∧
    ((0 < rt_MaxBatches opts)%Z → (n ≤ rt_MaxBatches opts * batchSize opts)%Z) ∧
    (e = None ∨ (e = Some ErrContext ∧ ∃ k, cancelled k = true)) ∧
    (e = None → prunedOnItsCeiling opts n = false →
       ∀ id r, jobs d' !! id = Some r → gone r = false).
Proof.
  intros Hv Hc Hwf He Hf Hint gone. pose proof (batchSize_pos opts) as Hbs.
  destruct (pass_run fuel cancelled now progress olderThan opts capAt d) as (ids & e & -> & Hrun); try done.
  destruct Hrun as [Hnd Hex Hpre Hceil Herr Hdone]. set (cut := pass_cutoff now olderThan opts capAt) in *.
  pose proof (wf_keyed _ Hwf) as Hk.
  assert (∀ id, jobs (deleteJobRows ids d).2 !! id = if str_mem id ids then None else jobs d !! id) as Hl
    by (intros; by apply lookup_delete_rows).
  assert (∀ id r, jobs (deleteJobRows ids d).2 !! id = Some r ↔ jobs d !! id = Some r ∧ id ∉ ids) as Hl'.
  { intros id r. rewrite Hl. unfold str_mem. case_bool_decide; naive_solver. }
  assert (∀ id r, jobs d !! id = Some r → jobs (deleteJobRows ids d).2 !! id = None → id ∈ ids) as Hgone.
  { intros id r Hr. rewrite Hl. unfold str_mem. case_bool_decide; naive_solver. }
  assert (length ids + size (jobs (deleteJobRows ids d).2) = size (jobs d)) as Hsize.
  { rewrite <-!(size_dom (D:=gset string)), <-(size_list_to_set (C:=gset string) ids Hnd), <-size_union.
    - f_equal. apply leibniz_equiv. intros id. rewrite elem_of_union, elem_of_list_to_set, !elem_of_dom, Hl.
      unfold str_mem. case_bool_decide as Hi; [|tauto]. split; [|by left]. intros _.
      apply Hex, elem_of_prunable in Hi as (r & -> & _). eauto.
    - intros id Hi%elem_of_list_to_set [r Hr]%elem_of_dom. by apply Hl' in Hr as [_ ?]. }
  exists (Z.of_nat (length ids)), e, (deleteJobRows ids d).2. split_and!.
  - done.
  - by apply wf_deleteJobRows.
  - lia.
  - apply map_subseteq_spec. intros id r [? _]%Hl'. done.
  - intros id r Hr Hn. pose proof (Hex id (Hgone _ _ Hr Hn)) as (r2 & Hr2 & Hx)%elem_of_prunable.
    simplify_eq. by destruct (expired_final _ _ Hx).
  - intros a b r [ra Ha] Hna [Hb Hnb]%Hl' Hg Hle. apply Hnb. apply (Hpre a b); eauto.
    apply elem_of_prunable. eauto.
  - intros Hm. specialize (Hceil Hm). nia.
  - destruct Herr as [|(-> & j & _ & ?)]; eauto.
  - intros -> Hnc id r [Hr Hn]%Hl'. destruct (gone r) eqn:Eg; [|done]. exfalso.
    destruct (Hdone eq_refl) as [Hall|[Hm Hlen]].
    + apply Hn, Hall, elem_of_prunable. eauto.
    + unfold prunedOnItsCeiling in Hnc. rewrite wrap64_id in Hnc; [nia|].
      unfold in_int64, int64_min, int64_max in *. nia.
Qed.

Lemma cutoff_capped now olderThan opts capAt held r :
  (∀ t, capAt t ≤ held)%Z → validateRetentionRules (rt_Rules opts) = None →
  pass_cutoff now olderThan opts capAt r = true → finalized_before held r = true.
Proof.
  intros Hcap [Hok _]%validate_rules_ok. unfold pass_cutoff. rewrite retentionCutoff_find.
  assert (∀ t, finalized_before (capAt t) r = true → finalized_before held r = true) as Hle.
  { intros t. unfold finalized_before. destruct (j_FinalizedAt r); [|done]. specialize (Hcap t). lia. }
  unfold cutoff_of. repeat (destruct (List.find _ _); [apply Hle|]). apply Hle.
Qed.

(** Retention waits for the stats rollup. A pass that holds for the rollup
    deletes nothing while no hour is covered, and otherwise only jobs finalized
    before the covered range ends and, while the rollup is still working back
    toward the oldest hour it keeps, before that hour: whatever the rules, no job
    finalized in an hour the rollup has yet to count is deleted. *)
Theorem retention_waits_for_rollup fuel cancelled now progress olderThan opts d id r :
  rt_HoldForStatsRollup opts = true → validateRetentionRules (rt_Rules opts) = None →
  db_wf d → jobs d !! "" = None → size (jobs d) < fuel → jobs d !! id = Some r →
  ∃ n e d',
    DeleteFinishedJobsWithOptions fuel cancelled now progress olderThan opts d = Some (n, e, d') ∧
    (jobs d' !! id = None →
       ∃ p f, progress = Some p ∧ covered p = true ∧ j_FinalizedAt r = Some f ∧
         (f < sp_To p)%Z ∧
         ((sp_RetainFrom p < sp_From p)%Z → (f < sp_RetainFrom p)%Z)).
Proof.
  intros Hh Hv Hwf He Hf Hr.
  destruct (retention_cap true progress) as [capAt|] eqn:Hc.
  - destruct (pass_run fuel cancelled now progress olderThan opts capAt d) as (ids & e & -> & Hrun);
      try done; [by rewrite Hh|].
    eexists _, _, _. split; [done|]. intros Hn. rewrite lookup_delete_rows in Hn by apply Hwf.
    unfold str_mem in Hn. case_bool_decide as Hi; [|congruence].
    apply (pr_expired _ _ _ _ _ _ _ _ Hrun), elem_of_prunable in Hi as (r2 & ? & Hx). simplify_eq.
    apply expired_final in Hx as (_ & [f Hfin] & Hcut).
    unfold retention_cap in Hc. destruct (statsRetentionCap progress) as [held|] eqn:Hcap; [|done]. simplify_eq.
    apply (cutoff_capped _ _ _ _ held) in Hcut; [|intros t; case_match; lia|done].
    unfold finalized_before in Hcut. rewrite Hfin in Hcut.
    unfold statsRetentionCap in Hcap. destruct progress as [p|]; [|done].
    destruct (covered p) eqn:Ecov; [|done]. unfold covered in *. cbn [negb] in Hcap. exists p, f. split_and!; try done;
      destruct (sp_RetainFrom p <? sp_From p)%Z eqn:E; simplify_eq; lia.
  - exists 0%Z, None, d. unfold DeleteFinishedJobsWithOptions. rewrite Hv, Hh, Hc. split; [done|]. congruence.
Qed.
End pass_theorems.

(** ** Pruning the control history *)

Lemma length_filter_bool {A} (f : A → bool) l :
  length (filter (λ x, f x = true) l) + length (filter (λ x, f x = false) l) = length l.
Proof.
  induction l as [|x l IH]; [done|]. rewrite !filter_cons.
  destruct (f x); repeat (rewrite decide_True by done || rewrite decide_False by done); simpl; lia.
Qed.

#[global] Instance detail_eq_dec : EqDecision detail.
Proof. solve_decision. Defined.
#[global] Instance jobAuditRow_eq_dec : EqDecision jobAuditRow.
Proof. solve_decision. Defined.

Section audit.
Context `{RowOrder} (cutoff : Z).

Definition old_entry (a : jobAuditRow) : Prop := (a_CreatedAt a < cutoff)%Z.

(** The entries [kept] of [all] a run of the loop leaves, and how it ended. *)
Record audit_run (cancelled : nat → bool) (maxBatches : Z) (all kept : list jobAuditRow)
    (e : option error) : Prop := {
  ar_sub : kept `sublist_of` all;
  ar_old : ∀ a, a ∈ all → a ∉ kept → old_entry a;
  ar_first : ∀ a b, a ∈ all → a ∉ kept → b ∈ kept → old_entry b → audit_le a b;
  ar_err : e = None ∨ (e = Some ErrContext ∧ ∃ j, cancelled j = true);
  ar_done : e = None → (maxBatches ≤ 0)%Z → ∀ a, a ∈ kept → ¬ old_entry a
}.

Lemma audit_id_inj l (a b : jobAuditRow) :
  NoDup (a_ID <$> l) → a ∈ l → b ∈ l → a_ID a = a_ID b → a = b.
Proof.
  intros Hnd [i Hi]%list_elem_of_lookup [j Hj]%list_elem_of_lookup Hid.
  assert (i = j) as ->; [|congruence].
  eapply (NoDup_lookup _ i j (a_ID a)); [done|..]; rewrite list_lookup_fmap; [by rewrite Hi|by rewrite Hj, Hid].
Qed.

(** One batch deletes its page: the oldest entries before the cutoff. *)
Lemma deleteAuditBatch_spec n d :
  NoDup (a_ID <$> job_audit d) → 0 < n →
  ∃ kept sel,
    deleteAuditBatch cutoff n d =
      (Z.of_nat (length (job_audit d)) - Z.of_nat (length kept), sel, with_audit kept d)%Z ∧
    audit_run (λ _, false) 1 (job_audit d) kept None ∧
    (sel < n → ∀ a, a ∈ kept → ¬ old_entry a) ∧ (n ≤ sel → length kept < length (job_audit d)).
Proof.
  intros Hnd Hn. unfold deleteAuditBatch. set (l := scan _). set (rows := page audit_le n l).
  set (kept := filter (λ a, str_mem (a_ID a) (a_ID <$> rows) = false) (job_audit d)).
  assert (∀ a, a ∈ l ↔ a ∈ job_audit d ∧ old_entry a) as Hl.
  { intros a. unfold l. rewrite scan_perm, list_elem_of_filter. unfold old_entry. rewrite Z.ltb_lt. tauto. }
  assert (∀ a, a ∈ rows → a ∈ job_audit d ∧ old_entry a) as Hrows.
  { intros a Ha%page_subset. by apply Hl. }
  assert (∀ a, a ∈ kept ↔ a ∈ job_audit d ∧ a ∉ rows) as Hkept.
  { intros a. unfold kept. rewrite list_elem_of_filter. unfold str_mem. rewrite bool_decide_eq_false.
    split; intros [H1 H2]; split; try done.
    - intros Hr. apply H1. apply list_elem_of_fmap. eauto.
    - intros (b & Hab & Hb)%list_elem_of_fmap. apply H2. destruct (Hrows b Hb).
      by rewrite (audit_id_inj (job_audit d) a b). }
  assert (length (filter (λ a, str_mem (a_ID a) (a_ID <$> rows) = true) (job_audit d)) + length kept =
    length (job_audit d)) as Hlen.
  { apply (length_filter_bool (λ a, str_mem (a_ID a) (a_ID <$> rows))). }
  exists kept, (length (a_ID <$> rows)). split_and!.
  - f_equal. f_equal. lia.
  - split; try (by auto).
    + apply sublist_filter.
    + intros a Ha Hna. destruct (decide (a ∈ rows)) as [Hr|Hr]; [by apply Hrows|].
      destruct Hna. by apply Hkept.
    + intros a b Ha Hna Hb Hob. apply Hkept in Hb as [Hb Hnb].
      apply (page_best audit_le n l); [apply _..| |by apply Hl|done].
      destruct (decide (a ∈ rows)) as [Hr|Hr]; [done|]. destruct Hna. by apply Hkept.
  - rewrite length_fmap. intros Hs a Ha Hoa. apply Hkept in Ha as [Ha Hna]. apply Hna.
    unfold rows in *. rewrite (page_short audit_le n l); [by apply Hl|done].
  - rewrite length_fmap. intros Hs.
    assert (∃ a0, a0 ∈ rows) as [a0 Ha0].
    { destruct rows as [|a0 ?]; [simpl in Hs; lia|]. exists a0. left. }
    enough (0 < length (filter (λ a, str_mem (a_ID a) (a_ID <$> rows) = true) (job_audit d))) by lia.
    assert (a0 ∈ filter (λ a, str_mem (a_ID a) (a_ID <$> rows) = true) (job_audit d)) as Hin.
    { apply list_elem_of_filter. split; [|by apply Hrows]. apply bool_decide_true.
      apply list_elem_of_fmap. eauto. }
    apply list_elem_of_split in Hin as (l1 & l2 & ->). rewrite length_app. simpl. lia.
Qed.

Lemma audit_batches_run fuel cancelled n maxBatches k deleted d :
  NoDup (a_ID <$> job_audit d) → 0 < n → length (job_audit d) < fuel →
  ∃ kept e,
    audit_batches fuel cancelled cutoff n maxBatches k deleted d =
      Some ((deleted + (Z.of_nat (length (job_audit d)) - Z.of_nat (length kept)))%Z, e, with_audit kept d) ∧
    audit_run cancelled maxBatches (job_audit d) kept e.
Proof.
  revert k deleted d. induction fuel as [|fuel IH]; intros k deleted d Hnd Hn Hf; [lia|].
  cbn [audit_batches].
  assert (with_audit (job_audit d) d = d) as Hid by (by destruct d).
  assert (∀ e, e = None ∨ (e = Some ErrContext ∧ ∃ j, cancelled j = true) →
    (e = None → (0 < maxBatches)%Z) → audit_run cancelled maxBatches (job_audit d) (job_audit d) e) as Hstop.
  { intros e He Hm. split; [done|naive_solver..|]. intros ?%Hm ?. exfalso. lia. }
  destruct (negb _) eqn:Em.
  { exists (job_audit d), None. rewrite Z.sub_diag, Z.add_0_r, Hid. split; [done|]. apply Hstop; [auto|lia]. }
  destruct (cancelled k) eqn:Ec.
  { exists (job_audit d), (Some ErrContext). rewrite Z.sub_diag, Z.add_0_r, Hid. split; [done|].
    apply Hstop; [eauto|done]. }
  destruct (deleteAuditBatch_spec n d Hnd Hn) as (kept & sel & -> & [Hsub Hold Hfirst _ _] & Hshort & Hless).
  destruct (sel <? n) eqn:Es.
  { exists kept, None. split; [done|]. split; auto. intros _ _. apply Hshort. by apply Nat.ltb_lt. }
  apply Nat.ltb_ge in Es. specialize (Hless Es).
  destruct (IH (S k) (deleted + (Z.of_nat (length (job_audit d)) - Z.of_nat (length kept)))%Z (with_audit kept d))
    as (kept2 & e & -> & [Hsub2 Hold2 Hfirst2 Herr2 Hdone2]); simpl in *; [|done|lia|].
  { eapply sublist_NoDup; [exact Hnd|by apply fmap_sublist]. }
  exists kept2, e. split; [do 3 f_equal; lia|]. split; try done.
  - by etrans.
  - intros a Ha Hna. destruct (decide (a ∈ kept)); auto.
  - intros a b Ha Hna Hb Hob. destruct (decide (a ∈ kept)); auto.
    apply Hfirst; try done. by eapply sublist_subseteq.
Qed.
End audit.

(** Pruning the control history. The pass ends within one batch per entry and
    one more; it keeps the entries' order and touches no other table; everything it
    deletes was recorded before the cutoff, and the oldest go first; its count is
    exactly what is gone; it fails only when cancelled; and without a batch ceiling
    an uncancelled pass leaves no entry recorded before the cutoff. *)
Theorem audit_prune_exact `{RowOrder} fuel cancelled olderThan opts d :
  NoDup (a_ID <$> job_audit d) → length (job_audit d) < fuel →
  ∃ kept e,
    DeleteAuditEntriesWithOptions fuel cancelled olderThan opts d =
      Some ((Z.of_nat (length (job_audit d)) - Z.of_nat (length kept))%Z, e, with_audit kept d) ∧
    kept `sublist_of` job_audit d ∧
    (∀ a, a ∈ job_audit d → a ∉ kept → (a_CreatedAt a < olderThan)%Z) ∧
    (∀ a b, a ∈ job_audit d → a ∉ kept → b ∈ kept → (a_CreatedAt b < olderThan)%Z → audit_le a b) ∧
    (e = None ∨ (e = Some ErrContext ∧ ∃ k, cancelled k = true)) ∧
    (e = None → (rt_MaxBatches opts ≤ 0)%Z → ∀ a, a ∈ kept → (olderThan ≤ a_CreatedAt a)%Z).
Proof.
  intros Hnd Hf. unfold DeleteAuditEntriesWithOptions. pose proof (batchSize_pos opts).
  destruct (audit_batches_run olderThan fuel cancelled (Z.to_nat (batchSize opts)) (rt_MaxBatches opts) 0 0 d)
    as (kept & e & -> & [Hsub Hold Hfirst Herr Hdone]); [done|lia|done|].
  exists kept, e. split_and!; try done. intros He Hm a Ha. specialize (Hdone He Hm a Ha).
  unfold old_entry in Hdone. lia.
Qed.
