(* ===== verification/Batch.v ===== *)
(** * What the bulk operations share

    The statements that replay.go and bulk.go both issue on the jobs table: the
    guarded UPDATE ... RETURNING id and the locked read of job_audit.go, the
    correlated key and running-attempt predicates, the key rule over a batch's
    candidates, the staggered due times, and which errors of a batch are retried.
    A walk reads the table in id order behind a cursor; [remaining] is what such a
    walk still has ahead of it. *)

From S2P Require Import Prelude Types Store Insert Sweep Controls Retention.

(** ** Statements *)

(** [Updates] where an assignment may depend on the row (a CASE over its id). *)
Definition update_each (P : jobRow → bool) (cols : jobRow → list jobCol) (d : db) : db :=
  with_jobs ((λ r, if P r && not_deleted r then Updates (cols r) r else r) <$> jobs d) d.

(** Both unique indexes admit every row of the table. *)
Definition indexes_hold (t : gmap string jobRow) : bool :=
  forallb (index_admits t) (map_to_list t).*2.

(** [updateJobsReturningIDs]: the statement fails whole when its result breaks a
    unique index, and otherwise reports the ids it changed, sorted. *)
Definition updateJobsReturningIDs (guard : jobRow → bool) (cols : jobRow → list jobCol) (d : db)
  : res (list string * db) :=
  let d' := update_each guard cols d in
  if indexes_hold (jobs d')
  then Ok (merge_sort bytes_le
             (j_ID <$> filter (λ r, guard r && not_deleted r = true) (map_to_list (jobs d)).*2), d')
  else Err ErrDuplicateKey.

(** [lockJobStates]: the states of the jobs of [ids] still there. *)
Definition lockJobStates (ids : list string) (d : db) : gmap string JobState :=
  list_to_map (omap (λ id, r ← find_job d id; Some (id, j_State r)) ids).

(** [activeKeyHeld]: another row, soft-deleted or not, is live with this row's key. *)
Definition activeKeyHeld (d : db) (r : jobRow) : bool :=
  match j_UniqueActiveKey r with
  | None => false
  | Some k =>
    bool_decide (map_Exists (λ _ h, j_UniqueActiveKey h = Some k ∧
      state_in (j_State h) NonTerminalStates = true ∧ j_ID h ≠ j_ID r) (jobs d))
  end.

Definition cancelledAttemptStillRuns (d : db) (r : jobRow) : bool :=
  bool_decide (j_State r = StateCancelled) && attemptStillRuns d r.

(** ** The key rule *)

Record replayCandidate := { rc_ID : string; rc_UniqueActiveKey : option string; rc_Held : bool }.

(** The loop of [liveReplayCandidates]; [taken] holds the keys taken so far. *)
Fixpoint live_candidates (taken : list string) (rows : list replayCandidate) : list string :=
  match rows with
  | [] => []
  | r :: rows =>
    match rc_UniqueActiveKey r with
    | None => rc_ID r :: live_candidates taken rows
    | Some k =>
      if rc_Held r || str_mem k taken then live_candidates taken rows
      else rc_ID r :: live_candidates (k :: taken) rows
    end
  end.
Definition liveReplayCandidates (rows : list replayCandidate) : list string := live_candidates [] rows.

(** ** Staggered due times *)

(** time.Duration(int64(window) * int64(i) / int64(total)): the product wraps. *)
Definition slot_offset (window total i : Z) : Z := Z.quot (wrap64 (window * i)) total.

(** [scheduledAtValue]: the value the CASE yields for a row. *)
Definition scheduledAtValue (ids : list string) (base window total placed : Z) (r : jobRow) : Z :=
  if (window <=? 0)%Z || (total <=? 0)%Z then base
  else match list_find (λ id, id = j_ID r) ids with
       | Some (k, _) => (base + slot_offset window total (placed + Z.of_nat k))%Z
       | None => j_ScheduledAt r
       end.

(** ** Retried batches *)

Definition replayBatchRetries : nat := 3.
Definition retryableBatchError (e : error) : bool :=
  match e with ErrDuplicateKey | ErrDeadlock | ErrSerialization => true | _ => false end.

(** What other connections commit while one attempt at a batch runs: before its
    first read, before it locks its rows, before its UPDATE; and an error the
    database raises in it. *)
Record interference := {
  iv_read : db → db; iv_lock : db → db; iv_update : db → db; iv_fail : option error
}.
Definition undisturbed : interference :=
  {| iv_read := id; iv_lock := id; iv_update := id; iv_fail := None |}.

(** ** Rows in id order *)

Definition id_le (a b : jobRow) : Prop := bytes_le (j_ID a) (j_ID b).
#[global] Instance id_le_dec : RelDecision id_le.
Proof. intros a b. unfold id_le. apply _. Defined.
#[global] Instance id_le_trans : Transitive id_le.
Proof. intros a b c. unfold id_le. by etrans. Qed.
#[global] Instance id_le_total : Total id_le.
Proof. intros a b. unfold id_le. apply (total bytes_le). Qed.

Lemma filter_none {A} (P : A → Prop) `{!∀ x, Decision (P x)} (l : list A) :
  (∀ x, x ∈ l → ¬ P x) → filter P l = [].
Proof.
  intros Hn. induction l as [|x l IH]; [done|]. rewrite filter_cons_False by (apply Hn; set_solver).
  apply IH. set_solver.
Qed.

Lemma sorted_sublist {A} (R : relation A) (l1 l2 : list A) :
  l1 `sublist_of` l2 → StronglySorted R l2 → StronglySorted R l1.
Proof.
  induction 1 as [|x l1 l2 Hsub IH|x l1 l2 Hsub IH]; intros Hs; [done|..];
    apply StronglySorted_inv in Hs as [Hs Hx]; [|auto].
  constructor; [auto|]. rewrite Forall_forall in *. intros y Hy. apply Hx. by eapply elem_of_sublist.
Qed.

Lemma sorted_ids l : StronglySorted id_le l → StronglySorted bytes_le (j_ID <$> l).
Proof. apply (StronglySorted_fmap j_ID id_le bytes_le). auto. Qed.

(** SELECT ... WHERE P AND id > cursor ORDER BY id LIMIT n. *)
Definition id_page `{RowOrder} (P : jobRow → bool) (cursor : string) (n : nat) (d : db) : list jobRow :=
  page id_le n (select_jobs (λ r, P r && past cursor (j_ID r)) d).

(** [l] is what a walk over [P] has ahead of it behind [cursor], in id order. *)
Record remaining (P : jobRow → bool) (cursor : string) (d : db) (l : list jobRow) : Prop := {
  rem_sorted : StronglySorted id_le l;
  rem_NoDup : NoDup (j_ID <$> l);
  rem_elem : ∀ r, r ∈ l ↔ jobs d !! j_ID r = Some r ∧ not_deleted r = true ∧ P r = true ∧
                          past cursor (j_ID r) = true
}.

Lemma past_trans cursor m id :
  past cursor m = true → past m id = true → m ≠ "" → past cursor id = true.
Proof.
  unfold past, is_empty. intros Hc Hm Hne. rewrite (bool_decide_false (m = "")) in Hm by done.
  destruct (bool_decide (cursor = "")); [done|].
  rewrite !negb_true_iff, !bool_decide_eq_false in *. intros Hle. apply Hm.
  destruct (total bytes_le cursor m); [by etrans|done].
Qed.

Lemma past_iff m id : m ≠ "" → past m id = true ↔ ¬ bytes_le id m.
Proof.
  intros Hne. unfold past, is_empty. rewrite bool_decide_false by done.
  by rewrite negb_true_iff, bool_decide_eq_false.
Qed.

Lemma select_NoDup `{RowOrder} P d : keyed (jobs d) → NoDup (j_ID <$> merge_sort id_le (select_jobs P d)).
Proof. intros Hk. rewrite (merge_sort_Permutation id_le). by apply select_ids_NoDup. Qed.

(** A walk starts with every matching row ahead of it. *)
Lemma remaining_start `{RowOrder} P cursor d :
  keyed (jobs d) →
  remaining P cursor d (merge_sort id_le (select_jobs (λ r, P r && past cursor (j_ID r)) d)).
Proof.
  intros Hk. split.
  - apply (StronglySorted_merge_sort id_le).
  - by apply select_NoDup.
  - intros r. rewrite (merge_sort_Permutation id_le), elem_of_select, andb_true_iff. split.
    + intros ([? ?] & ? & id & Hr). pose proof (Hk _ _ Hr). by subst id.
    + naive_solver.
Qed.

Lemma remaining_row P cursor d l r : remaining P cursor d l → r ∈ l →
  jobs d !! j_ID r = Some r ∧ not_deleted r = true ∧ P r = true ∧ past cursor (j_ID r) = true.
Proof. intros Hl. apply (rem_elem _ _ _ _ Hl). Qed.

Lemma remaining_inj P cursor d l r r' : remaining P cursor d l → r ∈ l → r' ∈ l → j_ID r = j_ID r' → r = r'.
Proof.
  intros Hl (Hr & _)%(remaining_row _ _ _ _ _ Hl) (Hr' & _)%(remaining_row _ _ _ _ _ Hl) He. congruence.
Qed.

Lemma remaining_prefix P cursor d l1 l2 : remaining P cursor d (l1 ++ l2) →
  NoDup (j_ID <$> l1) ∧ StronglySorted id_le l1 ∧ ∀ r, r ∈ l1 → jobs d !! j_ID r = Some r.
Proof.
  intros Hl. split_and!.
  - pose proof (rem_NoDup _ _ _ _ Hl) as Hnd. rewrite fmap_app in Hnd. by apply NoDup_app in Hnd as [? _].
  - eapply StronglySorted_app_1_l, (rem_sorted _ _ _ _ Hl).
  - intros r Hr. apply (remaining_row _ _ _ _ r Hl). set_solver.
Qed.

(** The table decides what is ahead, in which order. *)
Lemma remaining_unique P cursor d l l' : remaining P cursor d l → remaining P cursor d l' → l = l'.
Proof.
  intros Hl Hl'.
  assert (∀ r, r ∈ l ↔ r ∈ l') as Hiff.
  { intros r. by rewrite (rem_elem _ _ _ _ Hl), (rem_elem _ _ _ _ Hl'). }
  apply (StronglySorted_unique_strong id_le).
  - intros a b Ha Hb Hab Hba. apply (remaining_inj _ _ _ _ a b Hl); [done|by apply Hiff|].
    by apply (anti_symm bytes_le).
  - apply (rem_sorted _ _ _ _ Hl).
  - apply (rem_sorted _ _ _ _ Hl').
  - apply NoDup_Permutation; [eapply NoDup_fmap_1, (rem_NoDup _ _ _ _ Hl)|
      eapply NoDup_fmap_1, (rem_NoDup _ _ _ _ Hl')|done].
Qed.

Lemma id_page_remaining `{RowOrder} P cursor n d l :
  keyed (jobs d) → remaining P cursor d l → id_page P cursor n d = take n l.
Proof.
  intros Hk Hl. unfold id_page, page. f_equal.
  eapply remaining_unique; [by apply remaining_start|done].
Qed.

(** The walk moves past a batch: whatever the batch did to its own rows, what is
    ahead of the next one is the rest. *)
Lemma remaining_step P Q cursor d d' l1 l2 m :
  remaining P cursor d (l1 ++ l2) → keyed (jobs d') → last l1 = Some m → j_ID m ≠ "" →
  (∀ id, id ∉ j_ID <$> l1 → jobs d' !! id = jobs d !! id) →
  (∀ r, jobs d !! j_ID r = Some r → j_ID r ∉ j_ID <$> l1 → Q r = P r) →
  remaining Q (j_ID m) d' l2.
Proof.
  intros Hl Hk Hm Hne Hsame HQ. pose proof (last_Some_elem_of _ _ Hm) as Hin.
  pose proof (rem_NoDup _ _ _ _ Hl) as Hnd. rewrite fmap_app in Hnd.
  apply NoDup_app in Hnd as (Hnd1 & Hdisj & Hnd2).
  assert (∀ r, r ∈ l1 → bytes_le (j_ID r) (j_ID m)) as Hmax.
  { apply last_Some in Hm as [l1' ->]. intros r [Hr| ->%list_elem_of_singleton]%elem_of_app.
    - eapply (StronglySorted_app_1_elem_of id_le l1' ([m] ++ l2)); [|done|set_solver].
      rewrite app_assoc. apply (rem_sorted _ _ _ _ Hl).
    - by destruct (total bytes_le (j_ID m) (j_ID m)). }
  split.
  - eapply StronglySorted_app_1_r, (rem_sorted _ _ _ _ Hl).
  - done.
  - intros r. rewrite past_iff by done. split.
    + intros Hr. assert (r ∈ l1 ++ l2) as Hrl by set_solver.
      apply (remaining_row _ _ _ _ _ Hl) in Hrl as (Hr1 & Hr2 & Hr3 & _).
      assert (j_ID r ∉ j_ID <$> l1) as Hn.
      { intros Hx. apply (Hdisj _ Hx). by apply list_elem_of_fmap_2. }
      split_and!; [by rewrite Hsame|done|by rewrite HQ|].
      intros Hle. apply Hn. apply list_elem_of_fmap. exists m. split; [|done].
      apply (anti_symm bytes_le); [done|]. by eapply (StronglySorted_app_1_elem_of id_le l1 l2); [apply (rem_sorted _ _ _ _ Hl)|..].
    + intros (Hr1 & Hr2 & Hr3 & Hr4).
      assert (j_ID r ∉ j_ID <$> l1) as Hn.
      { intros (r' & He & Hr')%list_elem_of_fmap. apply Hr4. rewrite He. by apply Hmax. }
      assert (r ∈ l1 ++ l2) as [Hx|Hx]%elem_of_app; [|by apply (list_elem_of_fmap_2 j_ID) in Hx|done].
      apply (rem_elem _ _ _ _ Hl). rewrite Hsame in Hr1 by done. split_and!; [done..|by rewrite <-HQ|].
      apply past_trans with (j_ID m); [|by apply past_iff|done].
      apply (remaining_row _ _ _ _ m Hl). set_solver.
Qed.

(** ** One row at a time

    The reference a batched walk is compared with: it visits the rows in order,
    decides each on the tables as the rows before it left them, and writes it at
    once. [cols i] is what the [i]-th visited row is set to. *)

Fixpoint act_each (changes : db → jobRow → bool) (cols : nat → list jobCol) (i : nat) (l : list jobRow)
    (d : db) : list jobRow * db :=
  match l with
  | [] => ([], d)
  | r :: l =>
    if changes d r
    then let '(c, d') := act_each changes cols (S i) l
                           (with_jobs (<[j_ID r := Updates (cols i) r]> (jobs d)) d) in (r :: c, d')
    else act_each changes cols (S i) l d
  end.

Lemma activeKeyHeld_true d r :
  activeKeyHeld d r = true ↔
  ∃ k id h, j_UniqueActiveKey r = Some k ∧ jobs d !! id = Some h ∧ j_UniqueActiveKey h = Some k ∧
            state_in (j_State h) NonTerminalStates = true ∧ j_ID h ≠ j_ID r.
Proof.
  unfold activeKeyHeld. destruct (j_UniqueActiveKey r) as [k|]; [|naive_solver].
  rewrite bool_decide_eq_true. unfold map_Exists. naive_solver.
Qed.

(** Going live where no one holds the key breaks neither index. *)
Lemma free_key_admits d r cols :
  keyed (jobs d) → unique_ok (jobs d) → jobs d !! j_ID r = Some r → activeKeyHeld d r = false →
  index_admits (jobs d) (Updates cols r) = true.
Proof.
  intros Hk Hu Hr Hfree. apply index_admits_spec. rewrite Updates_ID. intros id h Hh Hne.
  pose proof (Hu _ _ _ _ Hr Hh (not_eq_sym Hne)) as Hc. unfold clashes in *.
  apply orb_false_iff in Hc as [Hc _]. apply orb_false_iff. split.
  { unfold key_of in *. by rewrite Updates_UniqueKey. }
  unfold active_key_of. rewrite Updates_UniqueActiveKey.
  destruct (state_in (j_State (Updates cols r)) _); [|done]. unfold same_key.
  destruct (j_UniqueActiveKey r) as [k|] eqn:Ek; [|done].
  destruct (state_in (j_State h) NonTerminalStates) eqn:Es; [|done].
  destruct (j_UniqueActiveKey h) as [k'|] eqn:Ek'; [|done]. apply bool_decide_eq_false. intros ->.
  assert (activeKeyHeld d r = true); [|congruence]. apply activeKeyHeld_true.
  exists k', id, h. split_and!; try done. by rewrite (Hk _ _ Hh).
Qed.

Lemma str_mem_cons s a l : str_mem s (a :: l) = bool_decide (s = a) || str_mem s l.
Proof.
  apply eq_true_iff_eq. unfold str_mem. rewrite orb_true_iff, !bool_decide_eq_true. apply elem_of_cons.
Qed.

Lemma act_each_app changes cols i l1 l2 d :
  act_each changes cols i (l1 ++ l2) d =
  let '(c1, d1) := act_each changes cols i l1 d in
  let '(c2, d2) := act_each changes cols (i + length l1) l2 d1 in (c1 ++ c2, d2).
Proof.
  revert i d. induction l1 as [|r l1 IH]; intros i d; simpl.
  { rewrite Nat.add_0_r. by destruct (act_each _ _ i l2 d). }
  rewrite <-Nat.add_succ_comm. destruct (changes d r).
  - rewrite IH. destruct (act_each _ _ (S i) l1 _) as [c1 d1]. by destruct (act_each _ _ _ l2 d1).
  - apply IH.
Qed.

Lemma act_each_sublist changes cols i l d : (act_each changes cols i l d).1 `sublist_of` l.
Proof.
  revert i d. induction l as [|r l IH]; intros i d; simpl; [done|].
  destruct (changes d r); [|by apply sublist_cons].
  specialize (IH (S i) (with_jobs (<[j_ID r := Updates (cols i) r]> (jobs d)) d)).
  destruct (act_each _ _ _ _ _). by apply sublist_skip.
Qed.

Lemma act_each_nil changes cols i l d :
  (act_each changes cols i l d).1 = [] → (act_each changes cols i l d).2 = d.
Proof.
  revert i. induction l as [|r l IH]; intros i; simpl; [done|]. destruct (changes d r); [|apply IH].
  by destruct (act_each _ _ _ _ _).
Qed.

Lemma act_each_other changes cols i l d id :
  id ∉ j_ID <$> l → jobs (act_each changes cols i l d).2 !! id = jobs d !! id.
Proof.
  revert i d. induction l as [|r l IH]; intros i d Hid; simpl; [done|].
  destruct (changes d r); [|apply IH; set_solver].
  specialize (IH (S i) (with_jobs (<[j_ID r := Updates (cols i) r]> (jobs d)) d)).
  destruct (act_each _ _ _ _ _). simpl in *. rewrite IH by set_solver.
  apply lookup_insert_ne. set_solver.
Qed.

(** What it leaves of each row. *)
Lemma act_each_lookup changes cols colsB i l d :
  NoDup (j_ID <$> l) → (∀ r, r ∈ l → jobs d !! j_ID r = Some r) →
  (∀ k r, l !! k = Some r → colsB r = cols (i + k)) →
  ∀ id, jobs (act_each changes cols i l d).2 !! id =
        if str_mem id (j_ID <$> (act_each changes cols i l d).1)
        then (λ r, Updates (colsB r) r) <$> jobs d !! id else jobs d !! id.
Proof.
  revert i d. induction l as [|r l IH]; intros i d Hnd Hrows Hcols id; simpl.
  { done. }
  apply NoDup_cons in Hnd as [Hn Hnd].
  assert (∀ k r', l !! k = Some r' → colsB r' = cols (S i + k)) as Hcols'.
  { intros k r' Hk. rewrite (Hcols (S k) r' Hk). f_equal. lia. }
  destruct (changes d r); [|apply IH; auto; intros; apply Hrows; set_solver].
  set (d1 := with_jobs _ d).
  assert (∀ r', r' ∈ l → jobs d1 !! j_ID r' = Some r') as Hrows1.
  { intros r' Hr'. simpl. rewrite lookup_insert_ne; [apply Hrows; set_solver|].
    intros He. apply Hn. rewrite He. by apply list_elem_of_fmap_2. }
  specialize (IH (S i) d1 Hnd Hrows1 Hcols' id).
  pose proof (act_each_sublist changes cols (S i) l d1) as Hsub.
  destruct (act_each changes cols (S i) l d1) as [c d'] eqn:E. simpl in *. rewrite IH.
  rewrite str_mem_cons. destruct (decide (id = j_ID r)) as [->|Hne].
  - rewrite (bool_decide_true (j_ID r = j_ID r)) by done. unfold str_mem. rewrite bool_decide_false.
    + simpl. rewrite lookup_insert_eq, (Hrows r) by set_solver. simpl. do 2 f_equal.
      specialize (Hcols 0 r eq_refl). by rewrite Nat.add_0_r in Hcols.
    + intros Hx. apply Hn. eapply elem_of_sublist; [done|]. by apply fmap_sublist.
  - by rewrite lookup_insert_ne, (bool_decide_false (id = j_ID r)) by done.
Qed.

Lemma act_each_rest changes cols i l d :
  job_runs (act_each changes cols i l d).2 = job_runs d ∧
  job_run_finishes (act_each changes cols i l d).2 = job_run_finishes d ∧
  job_audit (act_each changes cols i l d).2 = job_audit d.
Proof.
  revert i d. induction l as [|r l IH]; intros i d; simpl; [done|]. destruct (changes d r); [|apply IH].
  specialize (IH (S i) (with_jobs (<[j_ID r := Updates (cols i) r]> (jobs d)) d)).
  by destruct (act_each _ _ _ _ _).
Qed.

(** The indexes hold throughout when only rows with a free key change. *)
Lemma act_each_unique changes cols i l d :
  NoDup (j_ID <$> l) → (∀ r, r ∈ l → jobs d !! j_ID r = Some r) →
  (∀ d r, changes d r = true → activeKeyHeld d r = false) →
  keyed (jobs d) → unique_ok (jobs d) →
  keyed (jobs (act_each changes cols i l d).2) ∧ unique_ok (jobs (act_each changes cols i l d).2).
Proof.
  intros Hnd Hrows Hfree. revert i d Hnd Hrows.
  induction l as [|r l IH]; intros i d Hnd Hrows Hk Hu; simpl; [done|].
  apply NoDup_cons in Hnd as [Hn Hnd].
  destruct (changes d r) eqn:Ec; [|apply IH; auto; intros; apply Hrows; set_solver].
  set (d1 := with_jobs _ d).
  specialize (IH (S i) d1 Hnd). destruct (act_each changes cols (S i) l d1). simpl in *. apply IH.
  - intros r' Hr'. rewrite lookup_insert_ne; [apply Hrows; set_solver|].
    intros He. apply Hn. rewrite He. by apply list_elem_of_fmap_2.
  - rewrite <-(Updates_ID (cols i) r). by apply keyed_insert.
  - rewrite <-(Updates_ID (cols i) r) at 1. apply unique_insert; [done|].
    apply free_key_admits; auto. apply Hrows. set_solver.
Qed.

(** ** The key rule, one row at a time *)

Definition goes_live (cols : list jobCol) : Prop :=
  ∀ r, state_in (j_State (Updates cols r)) NonTerminalStates = true.

(** A row that went live holds its key for the rows after it. *)
Lemma held_after cols r0 r d :
  goes_live cols → jobs d !! j_ID r0 = Some r0 → j_ID r ≠ j_ID r0 → keyed (jobs d) →
  activeKeyHeld (with_jobs (<[j_ID r0 := Updates cols r0]> (jobs d)) d) r =
  activeKeyHeld d r || same_key (j_UniqueActiveKey r) (j_UniqueActiveKey r0).
Proof.
  intros Hlive Hr0 Hne Hk. apply eq_true_iff_eq. rewrite orb_true_iff, !activeKeyHeld_true. simpl. split.
  - intros (k & id & h & Ek & Hh & Eh & Hs & Hid).
    apply lookup_insert_Some in Hh as [[<- <-]|[_ Hh]]; [|left; naive_solver].
    right. rewrite Updates_UniqueActiveKey in Eh. rewrite Ek, Eh. simpl. by apply bool_decide_eq_true.
  - intros [(k & id & h & Ek & Hh & Eh & Hs & Hid)|Hsame].
    + destruct (decide (id = j_ID r0)) as [->|Hi].
      * exists k, (j_ID r0), (Updates cols r0). rewrite lookup_insert_eq, Updates_UniqueActiveKey, Updates_ID.
        assert (h = r0) as -> by congruence. auto.
      * exists k, id, h. by rewrite lookup_insert_ne.
    + unfold same_key in Hsame. destruct (j_UniqueActiveKey r) as [k|] eqn:Ek; [|done].
      destruct (j_UniqueActiveKey r0) as [k'|] eqn:Ek'; [|done]. apply bool_decide_eq_true in Hsame as ->.
      exists k', (j_ID r0), (Updates cols r0). rewrite lookup_insert_eq, Updates_UniqueActiveKey, Updates_ID.
      auto.
Qed.

Definition has_taken (taken : list string) (r : jobRow) : bool :=
  match j_UniqueActiveKey r with Some k => str_mem k taken | None => false end.

Definition candidate (held : jobRow → bool) (r : jobRow) : replayCandidate :=
  {| rc_ID := j_ID r; rc_UniqueActiveKey := j_UniqueActiveKey r; rc_Held := held r |}.

Definition key_free (d : db) (r : jobRow) : bool := negb (activeKeyHeld d r).

Lemma key_free_true d r : key_free d r = true → activeKeyHeld d r = false.
Proof. apply negb_true_iff. Qed.

(** Choosing a batch's rows by the flags read before any of them changed is
    choosing them one at a time. *)
Lemma live_candidates_each held taken cols i l d :
  (∀ i, goes_live (cols i)) → NoDup (j_ID <$> l) → (∀ r, r ∈ l → jobs d !! j_ID r = Some r) →
  keyed (jobs d) → (∀ r, r ∈ l → activeKeyHeld d r = held r || has_taken taken r) →
  j_ID <$> (act_each key_free cols i l d).1 = live_candidates taken (candidate held <$> l).
Proof.
  intros Hlive. revert taken i d. induction l as [|r l IH]; intros taken i d Hnd Hrows Hk Hheld; [done|].
  apply NoDup_cons in Hnd as [Hn Hnd].
  assert (∀ r', r' ∈ l → j_ID r' ≠ j_ID r) as Hne.
  { intros r' Hr' He. apply Hn. rewrite <-He. by apply list_elem_of_fmap_2. }
  assert (jobs d !! j_ID r = Some r) as Hr by (apply Hrows; set_solver).
  assert (∀ taken', (∀ r', r' ∈ l →
      has_taken taken' r' = has_taken taken r' || same_key (j_UniqueActiveKey r') (j_UniqueActiveKey r)) →
    j_ID <$> (act_each key_free cols (S i) l (with_jobs (<[j_ID r := Updates (cols i) r]> (jobs d)) d)).1
    = live_candidates taken' (candidate held <$> l)) as Hgo.
  { intros taken' Ht. apply IH; [done|..].
    - intros r' Hr'. simpl. rewrite lookup_insert_ne by (by apply not_eq_sym, Hne). apply Hrows. set_solver.
    - simpl. rewrite <-(Updates_ID (cols i) r) at 1. by apply keyed_insert.
    - intros r' Hr'. rewrite held_after, Hheld, Ht by (auto || set_solver). by rewrite orb_assoc. }
  simpl. unfold key_free at 1. rewrite (Hheld r) by set_solver. unfold has_taken at 1.
  destruct (j_UniqueActiveKey r) as [k|] eqn:Ek.
  - destruct (held r || str_mem k taken) eqn:Et; simpl.
    + apply IH; auto; intros; [apply Hrows|apply Hheld]; set_solver.
    + specialize (Hgo (k :: taken)). destruct (act_each _ _ _ _ _) as [c d']. simpl in *. f_equal.
      apply Hgo. intros r' _. unfold has_taken, same_key. destruct (j_UniqueActiveKey r') as [k'|]; [|done].
      rewrite str_mem_cons. apply orb_comm.
  - assert (held r = false) as ->.
    { specialize (Hheld r). unfold activeKeyHeld, has_taken in Hheld. rewrite Ek in Hheld.
      destruct (held r); [|done]. symmetry. apply Hheld. set_solver. }
    simpl. specialize (Hgo taken). destruct (act_each _ _ _ _ _) as [c d']. simpl in *. f_equal.
    apply Hgo. intros r' _. unfold same_key. destruct (j_UniqueActiveKey r'); by rewrite orb_false_r.
Qed.

(** A row is chosen only when it has no key or no one held it. *)
Lemma live_candidates_free taken rows id :
  id ∈ live_candidates taken rows →
  ∃ c, c ∈ rows ∧ rc_ID c = id ∧ (rc_UniqueActiveKey c = None ∨ rc_Held c = false).
Proof.
  revert taken. induction rows as [|c rows IH]; intros taken; simpl; [set_solver|].
  destruct (rc_UniqueActiveKey c) as [k|] eqn:Ek.
  - destruct (rc_Held c || str_mem k taken) eqn:Eh.
    + intros (c' & ? & ?)%IH. exists c'. split; [set_solver|done].
    + apply orb_false_iff in Eh as [Eh _]. intros [->|(c' & ? & ?)%IH]%elem_of_cons.
      * exists c. split; [set_solver|auto].
      * exists c'. split; [set_solver|done].
  - intros [->|(c' & ? & ?)%IH]%elem_of_cons.
    + exists c. split; [set_solver|auto].
    + exists c'. split; [set_solver|done].
Qed.

Lemma liveReplayCandidates_free d rows id :
  id ∈ liveReplayCandidates (candidate (activeKeyHeld d) <$> rows) →
  ∃ r, r ∈ rows ∧ j_ID r = id ∧ activeKeyHeld d r = false.
Proof.
  intros (c & (r & -> & Hr)%list_elem_of_fmap & Hid & Hfree)%live_candidates_free. exists r.
  split_and!; [done..|]. simpl in Hfree. destruct Hfree as [Ek|]; [|done].
  unfold activeKeyHeld. by rewrite Ek.
Qed.

(** ** The guarded UPDATE *)

Lemma indexes_hold_iff t : keyed t → indexes_hold t = true ↔ unique_ok t.
Proof.
  intros Hk. unfold indexes_hold. rewrite List.forallb_forall. split.
  - intros Hall i j a b Ha Hb Hij. specialize (Hall a). rewrite <-list_elem_of_In, elem_of_table in Hall.
    specialize (Hall (ex_intro _ i Ha)). rewrite index_admits_spec in Hall. eapply Hall; [done|].
    rewrite (Hk _ _ Ha). by apply not_eq_sym.
  - intros Hu a [i Ha]%list_elem_of_In%elem_of_table. apply index_admits_spec. intros j b Hb Hij.
    rewrite (Hk _ _ Ha) in Hij. by apply (Hu i j).
Qed.

Lemma lookup_update_each P cols d id :
  jobs (update_each P cols d) !! id =
  (λ r, if P r && not_deleted r then Updates (cols r) r else r) <$> jobs d !! id.
Proof. simpl. apply lookup_fmap. Qed.

Lemma keyed_update_each P cols d : keyed (jobs d) → keyed (jobs (update_each P cols d)).
Proof.
  intros Hk id r'. rewrite lookup_update_each. intros (r & Hr & ->)%fmap_Some_1.
  destruct (P r && not_deleted r); rewrite ?Updates_ID; by apply Hk.
Qed.

(** What a successful UPDATE ... RETURNING id did. *)
Record updated (guard : jobRow → bool) (cols : jobRow → list jobCol) (d : db) (ids : list string) (d' : db)
    : Prop := {
  up_db : d' = update_each guard cols d;
  up_unique : unique_ok (jobs d');
  up_sorted : StronglySorted bytes_le ids;
  up_NoDup : NoDup ids;
  up_ids : ∀ id, id ∈ ids ↔ ∃ r, jobs d !! id = Some r ∧ guard r = true ∧ not_deleted r = true
}.

Lemma updateJobs_Ok guard cols d ids d' :
  keyed (jobs d) → updateJobsReturningIDs guard cols d = Ok (ids, d') → updated guard cols d ids d'.
Proof.
  intros Hk. unfold updateJobsReturningIDs. destruct (indexes_hold _) eqn:E; [|done]. intros [= <- <-].
  apply indexes_hold_iff in E; [|by apply keyed_update_each]. split; [done..| | |].
  - apply (StronglySorted_merge_sort bytes_le).
  - rewrite (merge_sort_Permutation bytes_le). eapply sublist_NoDup; [by apply table_ids_NoDup|].
    apply fmap_sublist, sublist_filter.
  - intros id. rewrite (merge_sort_Permutation bytes_le), list_elem_of_fmap.
    setoid_rewrite list_elem_of_filter. setoid_rewrite elem_of_table. setoid_rewrite andb_true_iff. split.
    + intros (r & -> & [? ?] & id' & Hr). exists r. by rewrite (Hk _ _ Hr).
    + intros (r & Hr & ? & ?). exists r. rewrite (Hk _ _ Hr). eauto.
Qed.

(** The ids an UPDATE returns are the sorted list of what it changed. *)
Lemma updated_ids guard cols d ids d' ids' :
  updated guard cols d ids d' → StronglySorted bytes_le ids' → NoDup ids' →
  (∀ id, id ∈ ids' ↔ ∃ r, jobs d !! id = Some r ∧ guard r = true ∧ not_deleted r = true) → ids = ids'.
Proof.
  intros [_ _ Hs Hnd Hi] Hs' Hnd' Hi'. apply (StronglySorted_unique bytes_le); [done..|].
  apply NoDup_Permutation; [done..|]. intros id. by rewrite Hi, Hi'.
Qed.

Lemma updateJobs_runs guard cols d :
  keyed (jobs d) → unique_ok (jobs (update_each guard cols d)) →
  ∃ ids, updateJobsReturningIDs guard cols d = Ok (ids, update_each guard cols d).
Proof.
  intros Hk Hu. unfold updateJobsReturningIDs.
  rewrite (proj2 (indexes_hold_iff _ (keyed_update_each guard cols d Hk)) Hu). eauto.
Qed.

Lemma lockJobStates_lookup ids d id :
  lockJobStates ids d !! id = if str_mem id ids then j_State <$> find_job d id else None.
Proof.
  unfold lockJobStates. set (f := λ id, r ← find_job d id; Some (id, j_State r)).
  assert (∀ i, f i = r ← find_job d i; Some (i, j_State r)) as Hfi by done. clearbody f.
  induction ids as [|i ids IH]; [done|]. rewrite str_mem_cons. csimpl. rewrite Hfi.
  destruct (find_job d i) as [r|] eqn:Hf; simpl.
  - destruct (decide (id = i)) as [->|Hne].
    + by rewrite lookup_insert_eq, bool_decide_true, Hf.
    + by rewrite lookup_insert_ne, IH, (bool_decide_false (id = i)) by done.
  - rewrite IH. destruct (decide (id = i)) as [->|Hne].
    + rewrite Hf. simpl. by repeat case_match.
    + by rewrite (bool_decide_false (id = i)).
Qed.

(** An UPDATE the indexes admit keeps the tables well formed. *)
Lemma wf_updated guard cols d ids d' :
  (∀ r, row_wf r → guard r = true → row_wf (Updates (cols r) r)) →
  updated guard cols d ids d' → db_wf d → db_wf d'.
Proof.
  intros Hrow [-> Hu _ _ _] []. split; try done; [by apply keyed_update_each|].
  intros id r'. rewrite lookup_update_each. intros (r & Hr & ->)%fmap_Some_1.
  destruct (guard r && not_deleted r) eqn:E; [|eauto]. apply andb_true_iff in E as [? _]. eauto.
Qed.

(** A retry's columns keep a row well formed, whatever its due time and budget. *)
Definition revive (at_ now : Z) (o : RetryOpts) : list jobCol :=
  [ColState StateAvailable; ColLeasedUntil None; ColLeaseToken None; ColFinalizedAt None;
   ColScheduledAt at_; ColUpdatedAt now] ++ applyRetryBudget o.

Lemma revive_State at_ now o r : j_State (Updates (revive at_ now o) r) = StateAvailable.
Proof. unfold revive, applyRetryBudget. by destruct (ro_ResetAttempts o), (ro_Budget o <=? 0)%Z. Qed.
Lemma revive_live at_ now o : goes_live (revive at_ now o).
Proof. intros r. by rewrite revive_State. Qed.
Lemma revive_ScheduledAt at_ now o r : j_ScheduledAt (Updates (revive at_ now o) r) = at_.
Proof. unfold revive, applyRetryBudget. by destruct (ro_ResetAttempts o), (ro_Budget o <=? 0)%Z. Qed.
Lemma revive_row_wf at_ now o r : row_wf r → row_wf (Updates (revive at_ now o) r).
Proof.
  intros [Hs Hl Hf Hb Ha]. unfold revive, applyRetryBudget.
  destruct (ro_ResetAttempts o), (ro_Budget o <=? 0)%Z;
    (split; [reflexivity|by unfold lease_wf; cbn; rewrite decide_False|reflexivity|exact Hb|exact Ha]).
Qed.

(** ** Due times *)

(** While the product fits, the slots rise from [0] and stay inside the window. *)
Lemma slot_offset_bounds window total i :
  (0 < window)%Z → (0 ≤ i < total)%Z → (window * total ≤ int64_max)%Z →
  (0 ≤ slot_offset window total i < window)%Z.
Proof.
  intros Hw Hi Hfit. unfold slot_offset. assert (0 ≤ window * i)%Z by nia.
  rewrite wrap64_id by (unfold in_int64, int64_min, int64_max in *; nia).
  rewrite Z.quot_div_nonneg by lia. split; [by apply Z.div_pos; lia|].
  apply Z.div_lt_upper_bound; nia.
Qed.

Lemma slot_offset_mono window total i j :
  (0 < window)%Z → (0 ≤ i ≤ j)%Z → (j < total)%Z → (window * total ≤ int64_max)%Z →
  (slot_offset window total i ≤ slot_offset window total j)%Z.
Proof.
  intros Hw Hi Hj Hfit. unfold slot_offset.
  rewrite !wrap64_id by (unfold in_int64, int64_min, int64_max in *; nia).
  rewrite !Z.quot_div_nonneg by nia. apply Z.div_le_mono; nia.
Qed.

