(* ===== verification/Replay.v ===== *)
(** * Bulk replay: internal/core/replay.go

    A replay returns a cohort of finished jobs to available, in batches of one
    transaction each, walking the ids behind a cursor. [replayBatch] is one attempt
    at a batch; what other connections commit while it runs is the [interference]
    argument, so the re-guard of its UPDATE has something to guard against.
    [replay] is the loop with its counts and its reruns after a lost race. *)

From S2P Require Import Prelude Types Store Insert Claim Sweep Controls Retention Batch.

Definition AuditReplayed := "replayed".

Record ReplayOpts := {
  rp_Retry : RetryOpts; rp_States : list JobState; rp_Kinds : list string; rp_FailedSince : Z;
  rp_Stagger : Z; rp_BatchSize : Z
}.

Definition replay_batchSize (o : ReplayOpts) : Z :=
  if (rp_BatchSize o <=? 0)%Z then defaultScopeBatchSize else rp_BatchSize o.
Definition replayStates (o : ReplayOpts) : list JobState :=
  match rp_States o with [] => [StateDiscarded] | l => l end.

(** ** The cohort *)

Definition applyKindFilter (kinds : list string) (r : jobRow) : bool :=
  match kinds with [] => true | _ => str_mem (j_Kind r) kinds end.
Definition parent_scope (parent : string) (kinds : list string) (r : jobRow) : bool :=
  bool_decide (j_ParentJobID r = Some parent) && applyKindFilter kinds r.

Definition namesCancelled (states : list JobState) : bool := state_in StateCancelled states.
Definition skipAttemptsStillRunning (states : list JobState) (d : db) (r : jobRow) : bool :=
  if namesCancelled states then negb (cancelledAttemptStillRuns d r) else true.

(** finalized_at >= FailedSince, when it is set. *)
Definition failed_since (o : ReplayOpts) (r : jobRow) : bool :=
  if is_zero_time (rp_FailedSince o) then true
  else match j_FinalizedAt r with Some f => (rp_FailedSince o <=? f)%Z | None => false end.

(** The WHERE of the changeable count and of each batch's SELECT. *)
Definition targeted (scope : jobRow → bool) (o : ReplayOpts) (d : db) (r : jobRow) : bool :=
  scope r && state_in (j_State r) (replayStates o) &&
  skipAttemptsStillRunning (replayStates o) d r && failed_since o r.

(** ** One batch *)

Record auditScope := { as_via : string; as_parentJobID : string }.

Record replayBatchResult := {
  rb_selected : nat; rb_changed : Z; rb_skippedActiveKey : Z; rb_last : string
}.

Definition no_running (o : RetryOpts) : RetryOpts :=
  {| ro_Force := ro_Force o; ro_AllowRunning := false; ro_ResetAttempts := ro_ResetAttempts o;
     ro_Budget := ro_Budget o; ro_Delay := ro_Delay o |}.

Definition replayDetails (from : JobState) (o : ReplayOpts) (a : auditScope) : gmap string detail :=
  let details := <["via" := DText (as_via a)]> (retryDetails from (no_running (rp_Retry o))) in
  if is_empty (as_parentJobID a) then details
  else <["parent_job_id" := DText (as_parentJobID a)]> details.
Definition replayChanges (ids : list string) (states : gmap string JobState) (o : ReplayOpts)
    (a : auditScope) : list auditChange :=
  (λ id, {| ch_target := AuditTargetJob; ch_targetID := id; ch_action := AuditReplayed;
            ch_details := replayDetails (default (StateOther "") (states !! id)) o a |}) <$> ids.

(** The UPDATE's re-guard. *)
Definition replay_guard (live : list string) (states : list JobState) (d : db) (r : jobRow) : bool :=
  id_in live r && state_in (j_State r) states && negb (activeKeyHeld d r) &&
  skipAttemptsStillRunning states d r.

Definition replay_cols (ids : list string) (o : ReplayOpts) (now base total placed : Z) (r : jobRow)
  : list jobCol :=
  [ColState StateAvailable; ColLeasedUntil None; ColLeaseToken None; ColFinalizedAt None;
   ColScheduledAt (scheduledAtValue ids base (rp_Stagger o) total placed r); ColUpdatedAt now] ++
  applyRetryBudget (rp_Retry o).

Section replay.
Context `{RowOrder}.

(** A failed batch rolls its own writes back; the others' commits stay. *)
Definition replayBatch (cc : control) (iv : interference) (scope : jobRow → bool) (o : ReplayOpts)
    (cursor : string) (batchSize : nat) (now base total : Z) (placed : nat) (actor : Actor)
    (a : auditScope) (d : db) : res replayBatchResult * db :=
  let d0 := iv_read iv d in
  let d1 := iv_lock iv d0 in
  let d2 := iv_update iv d1 in
  match iv_fail iv with
  | Some e => (Err e, d2)
  | None =>
    let rows := id_page (targeted scope o d0) cursor batchSize d0 in
    match last rows with
    | None => (Ok {| rb_selected := 0; rb_changed := 0; rb_skippedActiveKey := 0; rb_last := "" |}, d0)
    | Some m =>
      let live := liveReplayCandidates (candidate (activeKeyHeld d0) <$> rows) in
      let b changed :=
        {| rb_selected := length rows; rb_changed := changed;
           rb_skippedActiveKey := Z.of_nat (length rows) - Z.of_nat (length live);
           rb_last := j_ID m |} in
      match live with
      | [] => (Ok (b 0%Z), d0)
      | _ =>
        let states := lockJobStates live d1 in
        match updateJobsReturningIDs (replay_guard live (replayStates o) d2)
                (replay_cols (j_ID <$> rows) o now base total (Z.of_nat placed)) d2 with
        | Err e => (Err e, d2)
        | Ok (replayed, d3) =>
          match recordAudit cc actor (c_Now (cc_ctx cc) 1) (replayChanges replayed states o a) d3 with
          | Err e => (Err e, d2)
          | Ok d4 => (Ok (b (Z.of_nat (length replayed))), d4)
          end
        end
      end
    end
  end.

(** ** The loop

    [k] counts attempts: the k-th runs under [ccs k], beside [ivs k], and
    [cancelled k] is ctx.Err() before it. [None] is fuel spent. *)
Fixpoint replay_loop (fuel : nat) (ccs : nat → control) (ivs : nat → interference)
    (cancelled : nat → bool) (scope : jobRow → bool) (o : ReplayOpts) (now base total : Z)
    (actor : Actor) (a : auditScope) (k : nat) (cursor : string) (placed races : nat)
    (acc : ScopeResult) (d : db) : option (ScopeResult * option error * db) :=
  match fuel with
  | O => None
  | S fuel =>
    if cancelled k then Some (acc, Some ErrContext, d)
    else
      let batchSize := Z.to_nat (replay_batchSize o) in
      match replayBatch (ccs k) (ivs k) scope o cursor batchSize now base total placed actor a d with
      | (Err e, d1) =>
        if (races <? replayBatchRetries) && retryableBatchError e
        then replay_loop fuel ccs ivs cancelled scope o now base total actor a (S k) cursor placed
               (S races) acc d1
        else Some (acc, Some e, d1)
      | (Ok b, d1) =>
        let acc := {| sr_Changed := (sr_Changed acc + rb_changed b)%Z;
                      sr_SkippedTerminal := sr_SkippedTerminal acc;
                      sr_SkippedRunning := sr_SkippedRunning acc;
                      sr_SkippedActiveKey := (sr_SkippedActiveKey acc + rb_skippedActiveKey b)%Z;
                      sr_Batches := if (0 <? rb_changed b)%Z then (sr_Batches acc + 1)%Z
                                    else sr_Batches acc |} in
        if rb_selected b <? batchSize then Some (acc, None, d1)
        else replay_loop fuel ccs ivs cancelled scope o now base total actor a (S k) (rb_last b)
               (placed + rb_selected b) 0 acc d1
      end
  end.

(** What the replay leaves alone, counted before it runs. *)
Definition replay_counts (scope : jobRow → bool) (o : ReplayOpts) (d : db) : ScopeResult :=
  let states := replayStates o in
  {| sr_Changed := 0;
     sr_SkippedTerminal :=
       count_jobs (λ r, scope r && state_in (j_State r) TerminalStates &&
                        negb (state_in (j_State r) states)) d;
     sr_SkippedRunning :=
       count_jobs (λ r, scope r && bool_decide (j_State r = StateRunning)) d +
       (if namesCancelled states
        then count_jobs (λ r, scope r && cancelledAttemptStillRuns d r && failed_since o r) d else 0);
     sr_SkippedActiveKey := 0; sr_Batches := 0 |}%Z.

(** The stagger's denominator. *)
Definition replay_total (scope : jobRow → bool) (o : ReplayOpts) (d : db) : Z :=
  if (0 <? rp_Stagger o)%Z then count_jobs (targeted scope o d) d else 0%Z.

Definition replay (fuel : nat) (ccs : nat → control) (ivs : nat → interference) (dead : bool)
    (cancelled : nat → bool) (scope : jobRow → bool) (a : auditScope) (o : ReplayOpts) (d : db)
  : option (ScopeResult * option error * db) :=
  let states := replayStates o in
  if state_in StateRunning states then Some (zero_scope, Some (ValidationError "states"), d)
  else if negb (ro_Force (rp_Retry o)) && state_in StateSucceeded states
  then Some (zero_scope, Some ErrJobTerminal, d)
  else match resolveActor (ccs 0) with
  | Err e => Some (zero_scope, Some e, d)
  | Ok actor =>
    let now := c_Now (cc_ctx (ccs 0)) 0 in
    let base := (now + ro_Delay (rp_Retry o))%Z in
    if dead then Some (zero_scope, Some ErrContext, d)
    else replay_loop fuel ccs ivs cancelled scope o now base (replay_total scope o d) actor a 0 "" 0 0
           (replay_counts scope o d) d
  end.

Definition ReplayByParent (fuel : nat) (ccs : nat → control) (ivs : nat → interference) (dead : bool)
    (cancelled : nat → bool) (parent : string) (o : ReplayOpts) (d : db) :=
  replay fuel ccs ivs dead cancelled (parent_scope parent (rp_Kinds o))
    {| as_via := "parent"; as_parentJobID := parent |} o d.

Definition Replay (fuel : nat) (ccs : nat → control) (ivs : nat → interference) (dead : bool)
    (cancelled : nat → bool) (o : ReplayOpts) (d : db) :=
  if bool_decide (rp_Kinds o = []) && is_zero_time (rp_FailedSince o)
  then Some (zero_scope, Some ErrReplayUnbounded, d)
  else replay fuel ccs ivs dead cancelled (applyKindFilter (rp_Kinds o))
         {| as_via := "replay"; as_parentJobID := "" |} o d.
End replay.

(** ** The reference

    The same cohort, visited one job at a time in id order: the [i]-th goes back to
    available at its slot unless another live job holds its key then. *)

Definition replay_slot (o : ReplayOpts) (base total : Z) (i : nat) : Z :=
  if (rp_Stagger o <=? 0)%Z || (total <=? 0)%Z then base
  else (base + slot_offset (rp_Stagger o) total (Z.of_nat i))%Z.
Definition replay_one (o : ReplayOpts) (now base total : Z) (i : nat) : list jobCol :=
  revive (replay_slot o base total i) now (rp_Retry o).

(** What an entry of the history says of a replayed job. *)
Definition entry_facts (e : jobAuditRow) : string * string * string * gmap string detail :=
  (a_TargetType e, a_TargetID e, a_Action e, a_Details e).
Definition replay_entry (o : ReplayOpts) (a : auditScope) (r : jobRow)
  : string * string * string * gmap string detail :=
  (AuditTargetJob, j_ID r, AuditReplayed, replayDetails (j_State r) o a).

Lemma act_each_audit cols i l x d :
  act_each key_free cols i l (with_audit x d) =
  let '(c, d') := act_each key_free cols i l d in (c, with_audit x d').
Proof.
  revert i d. induction l as [|r l IH]; intros i d; [done|]. simpl.
  change (key_free (with_audit x d) r) with (key_free d r).
  destruct (key_free d r); [|apply IH].
  change (with_jobs ?t (with_audit x d)) with (with_audit x (with_jobs t d)). rewrite IH.
  by destruct (act_each _ _ _ _ _).
Qed.

Lemma targeted_runs scope o d d' r : job_runs d' = job_runs d → targeted scope o d' r = targeted scope o d r.
Proof.
  intros He. unfold targeted, skipAttemptsStillRunning, cancelledAttemptStillRuns, attemptStillRuns.
  by rewrite He.
Qed.

Lemma targeted_guard scope o d r :
  targeted scope o d r = true →
  state_in (j_State r) (replayStates o) = true ∧ skipAttemptsStillRunning (replayStates o) d r = true.
Proof. unfold targeted. rewrite !andb_true_iff. tauto. Qed.

Lemma entry_facts_rows cc actor at_ changes :
  entry_facts <$> imap (audit_row cc actor at_) changes =
  (λ c, (ch_target c, ch_targetID c, ch_action c, ch_details c)) <$> changes.
Proof.
  rewrite fmap_imap. apply (imap_const (λ c, (ch_target c, ch_targetID c, ch_action c, ch_details c))).
Qed.

Section quiet.
Context `{RowOrder} (scope : jobRow → bool) (o : ReplayOpts) (now base total : Z) (actor : Actor)
  (a : auditScope).

(** No one else writes; an attempt may still fail. *)
Definition calm (iv : interference) : Prop :=
  (∀ d, iv_read iv d = d) ∧ (∀ d, iv_lock iv d = d) ∧ (∀ d, iv_update iv d = d).

Local Abbreviation each := (act_each key_free (replay_one o now base total)).

Lemma replay_cols_slot ids placed k r :
  NoDup ids → ids !! k = Some (j_ID r) →
  replay_cols ids o now base total (Z.of_nat placed) r = replay_one o now base total (placed + k).
Proof.
  intros Hnd Hk. unfold replay_cols, replay_one, revive, replay_slot, scheduledAtValue.
  destruct ((rp_Stagger o <=? 0)%Z || (total <=? 0)%Z); [done|].
  assert (list_find (λ id, id = j_ID r) ids = Some (k, j_ID r)) as ->.
  { apply list_find_Some. split_and!; [done..|]. intros j y Hj Hjk ->.
    pose proof (NoDup_lookup _ _ _ _ Hnd Hj Hk). lia. }
  by rewrite Nat2Z.inj_add.
Qed.

(** The batch's UPDATE reaches exactly the rows the reference changes. *)
Lemma batch_update_each cursor d l1 l2 placed :
  db_wf d → remaining (targeted scope o d) cursor d (l1 ++ l2) →
  let live := liveReplayCandidates (candidate (activeKeyHeld d) <$> l1) in
  live = j_ID <$> (each placed l1 d).1 ∧
  update_each (replay_guard live (replayStates o) d)
    (replay_cols (j_ID <$> l1) o now base total (Z.of_nat placed)) d = (each placed l1 d).2.
Proof.
  intros Hwf Hl live.
  destruct (remaining_prefix _ _ _ _ _ Hl) as (Hnd & _ & Hrows).
  assert (live = j_ID <$> (each placed l1 d).1) as Hlive.
  { symmetry. apply live_candidates_each; [intros; apply revive_live|done|done|apply Hwf|].
    intros r _. unfold has_taken. destruct (j_UniqueActiveKey r); by rewrite orb_false_r. }
  split; [done|].
  pose proof (act_each_sublist key_free (replay_one o now base total) placed l1 d) as Hsub.
  pose proof (act_each_rest key_free (replay_one o now base total) placed l1 d) as (E1 & E2 & E3).
  rewrite (with_jobs_eq d (each placed l1 d).2) by done. unfold update_each. f_equal.
  apply map_eq. intros id. rewrite lookup_fmap.
  rewrite (act_each_lookup key_free (replay_one o now base total)
             (replay_cols (j_ID <$> l1) o now base total (Z.of_nat placed)) placed l1 d Hnd Hrows)
    by (intros k r Hk; apply replay_cols_slot; [done|by rewrite list_lookup_fmap, Hk]).
  rewrite <-Hlive. destruct (jobs d !! id) as [r|] eqn:Hr; [|by destruct (str_mem id live)]. simpl.
  pose proof (wf_keyed _ Hwf _ _ Hr) as Hid. unfold replay_guard at 1, id_in. rewrite Hid.
  destruct (str_mem id live) eqn:Em; [|done]. simpl. f_equal.
  apply bool_decide_eq_true, liveReplayCandidates_free in Em as (r' & Hr' & Hid' & Hfree).
  assert (r' = r) as -> by (apply Hrows in Hr'; congruence).
  destruct (remaining_row _ _ _ _ r Hl) as (_ & Hnd' & [Hs Hk]%targeted_guard & _); [set_solver|].
  by rewrite Hs, Hfree, Hk, Hnd'.
Qed.

(** The columns are a retry's, so the row stays well formed and goes live. *)
Lemma replay_cols_revive ids placed r :
  replay_cols ids o now base total placed r =
  revive (scheduledAtValue ids base (rp_Stagger o) total placed r) now (rp_Retry o).
Proof. done. Qed.

(** The rows the guard admits are the live candidates. *)
Lemma guard_live cursor d l1 l2 id :
  db_wf d → remaining (targeted scope o d) cursor d (l1 ++ l2) →
  let live := liveReplayCandidates (candidate (activeKeyHeld d) <$> l1) in
  id ∈ live ↔ ∃ r, jobs d !! id = Some r ∧ replay_guard live (replayStates o) d r = true ∧
                   not_deleted r = true.
Proof.
  intros Hwf Hl live. unfold replay_guard, id_in. split.
  - intros Hin. pose proof Hin as (r & Hr & <- & Hfree)%liveReplayCandidates_free.
    destruct (remaining_row _ _ _ _ r Hl) as (Hrow & Hnd & [Hs Hk]%targeted_guard & _); [set_solver|].
    exists r. rewrite Hs, Hfree, Hk. unfold str_mem. by rewrite bool_decide_true.
  - intros (r & Hr & Hg & _). rewrite !andb_true_iff in Hg. destruct Hg as [[[Hin _] _] _].
    rewrite (wf_keyed _ Hwf _ _ Hr) in Hin. by apply bool_decide_eq_true in Hin.
Qed.

(** One undisturbed attempt is a stretch of the reference. *)
Lemma replayBatch_calm cc iv cursor n placed d l1 l2 m :
  db_wf d → remaining (targeted scope o d) cursor d (l1 ++ l2) → take n (l1 ++ l2) = l1 →
  last l1 = Some m → calm iv → iv_fail iv = None → cc_AuditHook cc = None →
  ∃ aud, replayBatch cc iv scope o cursor n now base total placed actor a d =
    (Ok {| rb_selected := length l1; rb_changed := Z.of_nat (length (each placed l1 d).1);
           rb_skippedActiveKey := Z.of_nat (length l1) - Z.of_nat (length (each placed l1 d).1);
           rb_last := j_ID m |}, with_audit (job_audit d ++ aud) (each placed l1 d).2) ∧
    entry_facts <$> aud = replay_entry o a <$> (each placed l1 d).1.
Proof.
  intros Hwf Hl Htake Hm (Hc1 & Hc2 & Hc3) Hf Hhook. unfold replayBatch. rewrite Hf, Hc3, Hc2, Hc1.
  rewrite (id_page_remaining _ _ _ _ _ (wf_keyed _ Hwf) Hl), Htake, Hm.
  destruct (batch_update_each cursor d l1 l2 placed Hwf Hl) as [Hlive Hupd].
  set (live := liveReplayCandidates _) in *.
  assert (length live = length (each placed l1 d).1) as Hlen by (by rewrite Hlive, length_fmap).
  destruct live as [|i0 live0] eqn:El.
  { (* no row may go live *)
    assert ((each placed l1 d).1 = []) as Hc by (by apply (fmap_nil_inv j_ID)).
    exists []. rewrite app_nil_r, (act_each_nil _ _ _ _ _ Hc), Hc. split; [|done]. by destruct d. }
  rewrite <-El in *. rewrite Hlen.
  pose proof (act_each_sublist key_free (replay_one o now base total) placed l1 d) as Hsub.
  destruct (remaining_prefix _ _ _ _ _ Hl) as (Hnd & Hsort & Hrows).
  destruct (updateJobs_runs (replay_guard live (replayStates o) d)
    (replay_cols (j_ID <$> l1) o now base total (Z.of_nat placed)) d) as [ids Hu].
  { apply Hwf. }
  { rewrite Hupd. apply act_each_unique; auto using key_free_true; apply Hwf. }
  rewrite Hu.
  assert (ids = j_ID <$> (each placed l1 d).1) as ->.
  { rewrite <-Hlive. eapply updated_ids; [eapply updateJobs_Ok, Hu; apply Hwf|rewrite Hlive..|].
    - apply sorted_ids. by eapply sorted_sublist.
    - eapply sublist_NoDup; [done|]. by apply fmap_sublist.
    - intros id. by apply (guard_live cursor d l1 l2 id). }
  set (c := (each placed l1 d).1) in *. rewrite Hupd, length_fmap.
  destruct (act_each_rest key_free (replay_one o now base total) placed l1 d) as (_ & _ & Haud).
  set (ch := replayChanges _ _ _ _).
  exists (imap (audit_row cc actor (c_Now (cc_ctx cc) 1)) ch).
  assert (recordAudit cc actor (c_Now (cc_ctx cc) 1) ch (each placed l1 d).2 =
    Ok (with_audit (job_audit d ++ imap (audit_row cc actor (c_Now (cc_ctx cc) 1)) ch) (each placed l1 d).2)) as ->.
  { unfold recordAudit. rewrite Haud, Hhook. destruct ch; [|done]. simpl. rewrite app_nil_r, <-Haud.
    by destruct (each placed l1 d).2. }
  split; [done|]. rewrite entry_facts_rows. unfold ch, replayChanges. rewrite <-!list_fmap_compose.
  apply list_fmap_ext. intros k r Hr%list_elem_of_lookup_2. unfold replay_entry. simpl. do 2 f_equal.
  rewrite lockJobStates_lookup, Hlive. unfold str_mem.
  rewrite bool_decide_true by (by apply list_elem_of_fmap_2).
  assert (r ∈ l1) as Hr1 by (by eapply elem_of_sublist).
  destruct (remaining_row _ _ _ _ r Hl) as (Hrow & Hdel & _); [set_solver|].
  by rewrite (proj2 (find_job_Some d _ r)).
Qed.

(** Attempts fail only in ways a rerun gets past, and never four times in a row. *)
Record patient (ivs : nat → interference) : Prop := {
  pa_calm : ∀ k, calm (ivs k);
  pa_retryable : ∀ k e, iv_fail (ivs k) = Some e → retryableBatchError e = true;
  pa_four : ∀ k, ∃ j, j ≤ replayBatchRetries ∧ iv_fail (ivs (k + j)) = None
}.

(** What a finished walk over [l] adds to the result and the tables. *)
Definition walked (placed : nat) (l : list jobRow) (acc : ScopeResult) (d : db)
    (out : option (ScopeResult * option error * db)) : Prop :=
  ∃ batches aud,
    out = Some ({| sr_Changed := sr_Changed acc + Z.of_nat (length (each placed l d).1);
                   sr_SkippedTerminal := sr_SkippedTerminal acc;
                   sr_SkippedRunning := sr_SkippedRunning acc;
                   sr_SkippedActiveKey := sr_SkippedActiveKey acc +
                     (Z.of_nat (length l) - Z.of_nat (length (each placed l d).1));
                   sr_Batches := batches |}, None,
                with_audit (job_audit d ++ aud) (each placed l d).2)%Z ∧
    entry_facts <$> aud = replay_entry o a <$> (each placed l d).1.

(** One stretch, then the rest. *)
Lemma walked_app placed l1 l2 acc b1 d aud1 out :
  entry_facts <$> aud1 = replay_entry o a <$> (each placed l1 d).1 →
  walked (placed + length l1) l2
    {| sr_Changed := sr_Changed acc + Z.of_nat (length (each placed l1 d).1);
       sr_SkippedTerminal := sr_SkippedTerminal acc; sr_SkippedRunning := sr_SkippedRunning acc;
       sr_SkippedActiveKey := sr_SkippedActiveKey acc +
         (Z.of_nat (length l1) - Z.of_nat (length (each placed l1 d).1));
       sr_Batches := b1 |}%Z (with_audit (job_audit d ++ aud1) (each placed l1 d).2) out →
  walked placed (l1 ++ l2) acc d out.
Proof.
  intros He1 (b2 & aud2 & -> & He2). unfold walked. rewrite act_each_app.
  rewrite act_each_audit in He2 |- *.
  destruct (act_each key_free _ placed l1 d) as [c1 d1]. simpl in *.
  destruct (act_each key_free _ _ l2 d1) as [c2 d2]. simpl in *.
  exists b2, (aud1 ++ aud2). rewrite !length_app, !fmap_app, He1, He2, app_assoc. split; [|done].
  do 3 f_equal. f_equal; lia.
Qed.

Lemma each_lookup cursor placed l1 l2 d id :
  remaining (targeted scope o d) cursor d (l1 ++ l2) →
  jobs (each placed l1 d).2 !! id =
  if str_mem id (j_ID <$> (each placed l1 d).1)
  then (λ r, Updates (replay_cols (j_ID <$> l1) o now base total (Z.of_nat placed) r) r) <$> jobs d !! id
  else jobs d !! id.
Proof.
  intros (Hnd & _ & Hrows)%remaining_prefix. apply act_each_lookup; [done..|].
  intros k r Hk. apply replay_cols_slot; [done|by rewrite list_lookup_fmap, Hk].
Qed.

Lemma each_wf cursor placed l1 l2 d :
  db_wf d → remaining (targeted scope o d) cursor d (l1 ++ l2) → db_wf (each placed l1 d).2.
Proof.
  intros Hwf Hl. destruct (remaining_prefix _ _ _ _ _ Hl) as (Hnd & _ & Hrows).
  destruct (batch_update_each cursor d l1 l2 placed Hwf Hl) as [_ Hupd].
  destruct (act_each_unique key_free (replay_one o now base total) placed l1 d) as [_ Hu];
    [done|done|apply key_free_true|apply Hwf|apply Hwf|].
  rewrite <-Hupd in Hu |- *.
  destruct (updateJobs_runs _ _ d (wf_keyed _ Hwf) Hu) as [ids Hok].
  eapply wf_updated; [|eapply updateJobs_Ok, Hok; apply Hwf|done].
  intros r Hr _. rewrite replay_cols_revive. by apply revive_row_wf.
Qed.

(** The walk moves past the rows of a stretch. *)
Lemma each_remaining cursor placed l1 l2 d aud m :
  db_wf d → remaining (targeted scope o d) cursor d (l1 ++ l2) → last l1 = Some m → j_ID m ≠ "" →
  let d' := with_audit (job_audit d ++ aud) (each placed l1 d).2 in
  db_wf d' ∧ remaining (targeted scope o d') (j_ID m) d' l2.
Proof.
  intros Hwf Hl Hm Hne d'. assert (db_wf d') as Hwf' by (eapply wf_with_audit, each_wf; eauto).
  split; [done|]. eapply remaining_step; [done|apply Hwf'|done..| |].
  - intros id Hid. simpl. rewrite (each_lookup cursor placed l1 l2 d id Hl).
    unfold str_mem. rewrite bool_decide_false; [done|]. intros Hx. apply Hid. eapply elem_of_sublist; [done|].
    apply fmap_sublist, act_each_sublist.
  - intros r _ _. apply targeted_runs. simpl. apply act_each_rest.
Qed.

Lemma replay_loop_walks ccs ivs cancelled fuel k cursor placed races acc d l :
  patient ivs → (∀ k, cancelled k = false) → (∀ k, cc_AuditHook (ccs k) = None) →
  db_wf d → jobs d !! "" = None → remaining (targeted scope o d) cursor d l →
  races ≤ k → races ≤ replayBatchRetries → (∀ j, k - races ≤ j < k → iv_fail (ivs j) ≠ None) →
  4 * (length l + 1) - races ≤ fuel →
  walked placed l acc d
    (replay_loop fuel ccs ivs cancelled scope o now base total actor a k cursor placed races acc d).
Proof.
  intros Hp Hcan Hhook. revert k cursor placed races acc d l.
  induction fuel as [|fuel IH]; intros k cursor placed races acc d l Hwf Hno Hl Hrk Hr3 Hfails Hfuel;
    [unfold replayBatchRetries in Hr3; lia|].
  simpl. rewrite Hcan. set (n := Z.to_nat (replay_batchSize o)).
  assert (0 < n) as Hn.
  { unfold n, replay_batchSize, defaultScopeBatchSize. destruct (Z.leb_spec (rp_BatchSize o) 0); lia. }
  destruct (pa_calm _ Hp k) as (Hc1 & Hc2 & Hc3).
  destruct (iv_fail (ivs k)) as [e|] eqn:Hf.
  { unfold replayBatch. rewrite Hf, Hc3, Hc2, Hc1, (pa_retryable _ Hp _ _ Hf), andb_true_r.
    assert (races < replayBatchRetries) as Hlt.
    { destruct (pa_four _ Hp (k - races)) as (j & Hj & Hnone).
      destruct (decide (races = replayBatchRetries)) as [He|]; [exfalso|lia].
      destruct (decide (k - races + j = k)) as [E|]; [rewrite E in Hnone; congruence|].
      apply (Hfails (k - races + j)); [lia|done]. }
    rewrite (proj2 (Nat.ltb_lt _ _) Hlt). apply IH; try done; try lia.
    intros j Hj. destruct (decide (j = k)) as [->|]; [congruence|]. apply Hfails. lia. }
  rewrite <-(take_drop n l) in Hl.
  destruct (last (take n l)) as [m|] eqn:Hm.
  2:{ (* nothing ahead *)
    apply last_None in Hm. assert (l = []) as -> by (destruct l, n; simpl in *; done || lia).
    unfold replayBatch. rewrite Hf, Hc3, Hc2, Hc1.
    rewrite (id_page_remaining _ _ _ _ _ (wf_keyed _ Hwf) Hl), take_drop, Hm. simpl.
    rewrite (proj2 (Nat.ltb_lt 0 n) Hn). exists (sr_Batches acc), []. simpl. split; [|done].
    rewrite app_nil_r, !Z.add_0_r. by destruct d. }
  destruct (replayBatch_calm (ccs k) (ivs k) cursor n placed d (take n l) (drop n l) m) as (aud & -> & He);
    [done|done|by rewrite take_drop|done|by apply Hp|done|done|].
  simpl. assert (j_ID m ≠ "") as Hne.
  { intros E. assert (m ∈ take n l) as Hin by (by apply last_Some_elem_of).
    destruct (remaining_row _ _ _ _ m Hl) as [Hrow _]; [set_solver|]. congruence. }
  rewrite <-(take_drop n l) at 1.
  eapply walked_app; [done|]. rewrite length_take. destruct (Nat.ltb_spec (n `min` length l) n) as [Hlast|Hmore].
  - assert (drop n l = []) as -> by (apply drop_ge; lia). simpl.
    eexists _, []. rewrite app_nil_r, !Z.add_0_r. by split.
  - destruct (each_remaining cursor placed (take n l) (drop n l) d aud m) as [Hwf' Hl']; [done..|].
    apply IH; try done; try lia.
    + simpl. rewrite (each_lookup _ _ _ _ _ _ Hl), Hno. by destruct (str_mem _ _).
    + rewrite length_drop. unfold replayBatchRetries in Hr3. lia.
Qed.
End quiet.

(** ** The whole call *)

(** The jobs a replay targets, in id order. *)
Definition cohort `{RowOrder} (scope : jobRow → bool) (o : ReplayOpts) (d : db) : list jobRow :=
  merge_sort id_le (select_jobs (targeted scope o d) d).

(** The states a replay accepts. *)
Definition admitted (o : ReplayOpts) : Prop :=
  state_in StateRunning (replayStates o) = false ∧
  (ro_Force (rp_Retry o) = true ∨ state_in StateSucceeded (replayStates o) = false).

Lemma cohort_remaining `{RowOrder} scope o d :
  keyed (jobs d) → remaining (targeted scope o d) "" d (cohort scope o d).
Proof.
  intros Hk. pose proof (remaining_start (targeted scope o d) "" d Hk) as Hs. unfold cohort.
  erewrite select_jobs_ext; [exact Hs|]. intros r. simpl. by rewrite andb_true_r.
Qed.

Lemma length_cohort `{RowOrder} scope o d :
  Z.of_nat (length (cohort scope o d)) = count_jobs (targeted scope o d) d.
Proof. unfold cohort, count_jobs, select_jobs. by rewrite (merge_sort_Permutation id_le), scan_perm. Qed.

Lemma cohort_size `{RowOrder} scope o d : length (cohort scope o d) ≤ size (jobs d).
Proof.
  unfold cohort, select_jobs. rewrite (merge_sort_Permutation id_le), scan_perm, length_filter.
  by rewrite length_fmap, length_map_to_list.
Qed.

Lemma count_jobs_or P Q d :
  (∀ r, P r && Q r = false) →
  count_jobs (λ r, P r || Q r) d = (count_jobs P d + count_jobs Q d)%Z.
Proof.
  intros Hd. unfold count_jobs. generalize ((map_to_list (jobs d)).*2). intros l.
  induction l as [|r l IH]; [done|]. specialize (Hd r). rewrite !filter_cons.
  destruct (P r), (Q r), (not_deleted r); simpl in *; try done; lia.
Qed.

Lemma count_jobs_ext P Q d : (∀ id r, jobs d !! id = Some r → P r = Q r) → count_jobs P d = count_jobs Q d.
Proof.
  intros HPQ. unfold count_jobs. f_equal. f_equal. apply filter_iff_in.
  intros r [id Hr]%elem_of_table. by rewrite (HPQ _ _ Hr).
Qed.

Section theorems.
Context `{RowOrder} (scope : jobRow → bool) (o : ReplayOpts) (ccs : nat → control)
  (ivs : nat → interference) (cancelled : nat → bool) (a : auditScope) (actor : Actor) (d : db).
Hypothesis Hwf : db_wf d.
Hypothesis Hids : jobs d !! "" = None.
Hypothesis Hadm : admitted o.
Hypothesis Hactor : resolveActor (ccs 0) = Ok actor.
Hypothesis Hcan : ∀ k, cancelled k = false.
Hypothesis Hhook : ∀ k, cc_AuditHook (ccs k) = None.
Hypothesis Hpatient : patient ivs.

Let now := c_Now (cc_ctx (ccs 0)) 0.
Let base := (now + ro_Delay (rp_Retry o))%Z.
Let total := replay_total scope o d.
Let each := act_each key_free (replay_one o now base total) 0 (cohort scope o d) d.

Lemma replay_walks fuel :
  4 * (size (jobs d) + 1) ≤ fuel →
  walked o now base total a 0 (cohort scope o d) (replay_counts scope o d) d
    (replay fuel ccs ivs false cancelled scope a o d).
Proof.
  intros Hfuel. destruct Hadm as [Hr Hs]. unfold replay. rewrite Hr.
  assert (negb (ro_Force (rp_Retry o)) && state_in StateSucceeded (replayStates o) = false) as ->
    by (destruct Hs as [-> | ->]; [done|apply andb_false_r]).
  rewrite Hactor. apply replay_loop_walks; auto using cohort_remaining, wf_keyed; try lia.
  pose proof (cohort_size scope o d). lia.
Qed.


Lemma targeted_disjoint r :
  rp_FailedSince o = zero_time → Forall (λ s, s ∈ TerminalStates) (replayStates o) →
  scope r && (state_in (j_State r) TerminalStates || bool_decide (j_State r = StateRunning)) =
  targeted scope o d r ||
  ((scope r && state_in (j_State r) TerminalStates && negb (state_in (j_State r) (replayStates o))) ||
   (scope r && bool_decide (j_State r = StateRunning) ||
    (namesCancelled (replayStates o) && (scope r && cancelledAttemptStillRuns d r && failed_since o r)))).
Proof.
  intros Hz Hterm. unfold targeted, failed_since, skipAttemptsStillRunning, namesCancelled, cancelledAttemptStillRuns.
  rewrite Hz. change (is_zero_time zero_time) with true. rewrite Forall_forall in Hterm.
  destruct (scope r); simpl; [|by rewrite andb_false_r].
  destruct (decide (j_State r = StateCancelled)) as [->|Hc].
  - change (state_in StateCancelled TerminalStates) with true.
    rewrite (bool_decide_true (StateCancelled = StateCancelled)) by done.
    change (bool_decide (StateCancelled = StateRunning)) with false.
    by destruct (state_in StateCancelled (replayStates o)), (attemptStillRuns d r).
  - rewrite (bool_decide_false (j_State r = StateCancelled)) by done. simpl.
    rewrite andb_false_r, orb_false_r, andb_true_r.
    assert ((if state_in StateCancelled (replayStates o) then true else true) = true) as ->
      by (by destruct (state_in _ _)). rewrite andb_true_r.
    destruct (state_in (j_State r) (replayStates o)) eqn:Es; simpl.
    + apply bool_decide_eq_true, Hterm in Es. unfold state_in. by rewrite bool_decide_true.
    + by rewrite andb_true_r.
Qed.

(** With no window and terminal target states, Changed, SkippedTerminal,
    SkippedRunning and SkippedActiveKey add up to the jobs in scope that were
    terminal or running when the replay began. *)
Theorem replay_accounts_for_all fuel :
  rp_FailedSince o = zero_time → Forall (λ s, s ∈ TerminalStates) (replayStates o) →
  4 * (size (jobs d) + 1) ≤ fuel →
  ∃ res d', replay fuel ccs ivs false cancelled scope a o d = Some (res, None, d') ∧
    (sr_Changed res + sr_SkippedTerminal res + sr_SkippedRunning res + sr_SkippedActiveKey res =
     count_jobs (λ r, scope r && (state_in (j_State r) TerminalStates ||
                                  bool_decide (j_State r = StateRunning))) d)%Z.
Proof.
  intros Hz Hterm Hfuel. destruct (replay_walks fuel Hfuel) as (b & aud & -> & _).
  eexists _, _. split; [done|]. simpl. rewrite length_cohort.
  rewrite (count_jobs_ext _ _ d (λ _ r _, targeted_disjoint r Hz Hterm)).
  rewrite !count_jobs_or.
  1: destruct (namesCancelled _); simpl; [lia|].
  1: rewrite (proj2 (count_jobs_zero (λ _, false) d)) by done; lia.
  all: intros r.
  all: unfold targeted, skipAttemptsStillRunning, namesCancelled, cancelledAttemptStillRuns.
  all: destruct Hadm as [Hrun _].
  all: destruct (decide (j_State r = StateRunning)) as [E|Hnr];
    [rewrite E, ?Hrun, ?andb_false_r; simpl; rewrite ?andb_false_r; try done|].
  all: rewrite ?(bool_decide_false (j_State r = StateRunning)) by done.
  all: destruct (decide (j_State r = StateCancelled)) as [E|Hnc];
    [rewrite E|rewrite ?(bool_decide_false (j_State r = StateCancelled)) by done].
  all: destruct (scope r); simpl; rewrite ?andb_false_r; try done.
  - by destruct (state_in StateCancelled (replayStates o)).
  - by destruct (state_in StateCancelled (replayStates o)), (attemptStillRuns d r), (failed_since o r).
  - by destruct (state_in StateCancelled (replayStates o)), (state_in (j_State r) (replayStates o)),
      (state_in (j_State r) TerminalStates), (failed_since o r).
Qed.
End theorems.

(** A holder a row was skipped for is still live when the walk ends. *)
Lemma held_stays cols r i l d :
  (∀ i, goes_live (cols i)) → keyed (jobs d) → (∀ r, r ∈ l → jobs d !! j_ID r = Some r) →
  NoDup (j_ID <$> l) → j_ID r ∉ j_ID <$> l →
  activeKeyHeld d r = true → activeKeyHeld (act_each key_free cols i l d).2 r = true.
Proof.
  intros Hlive. revert i d. induction l as [|r0 l IH]; intros i d Hk Hrows Hnd Hn Hh; [done|].
  apply NoDup_cons in Hnd as [Hn0 Hnd]. simpl.
  destruct (key_free d r0); [|apply IH; set_solver].
  set (d1 := with_jobs _ d).
  assert (activeKeyHeld (act_each key_free cols (S i) l d1).2 r = true) as Hgo;
    [|by destruct (act_each _ _ _ l d1)].
  apply IH; [|..|set_solver|].
  - simpl. rewrite <-(Updates_ID (cols i) r0) at 1. by apply keyed_insert.
  - intros r' Hr'. simpl. rewrite lookup_insert_ne; [apply Hrows; set_solver|].
    intros He. apply Hn0. rewrite He. by apply list_elem_of_fmap_2.
  - done.
  - unfold d1. rewrite held_after, Hh; [done|auto|apply Hrows; set_solver|set_solver|done].
Qed.

(** Each visited row ends up live again, or keeps what it had with its key held. *)
Lemma act_each_outcome cols i l d r :
  (∀ i, goes_live (cols i)) → keyed (jobs d) → (∀ r, r ∈ l → jobs d !! j_ID r = Some r) →
  NoDup (j_ID <$> l) → r ∈ l →
  let d' := (act_each key_free cols i l d).2 in
  (∃ k, (r ∈ (act_each key_free cols i l d).1) ∧ l !! k = Some r ∧
        jobs d' !! j_ID r = Some (Updates (cols (i + k)) r)) ∨
  ((r ∉ (act_each key_free cols i l d).1) ∧ jobs d' !! j_ID r = Some r ∧ activeKeyHeld d' r = true).
Proof.
  intros Hlive. revert i d. induction l as [|r0 l IH]; intros i d Hk Hrows Hnd Hin; [set_solver|].
  apply NoDup_cons in Hnd as [Hn0 Hnd]. simpl.
  assert (jobs d !! j_ID r0 = Some r0) as Hr0 by (apply Hrows; set_solver).
  assert (∀ d', r0 ∉ (act_each key_free cols (S i) l d').1) as Hnot.
  { intros d' Hx. apply Hn0, list_elem_of_fmap_2. eapply elem_of_sublist; [done|apply act_each_sublist]. }
  destruct (key_free d r0) eqn:Ef.
  - set (d1 := with_jobs _ d).
    assert (keyed (jobs d1)) as Hk1.
    { simpl. rewrite <-(Updates_ID (cols i) r0) at 1. by apply keyed_insert. }
    assert (∀ r, r ∈ l → jobs d1 !! j_ID r = Some r) as Hrows1.
    { intros r' Hr'. simpl. rewrite lookup_insert_ne; [apply Hrows; set_solver|].
      intros He. apply Hn0. rewrite He. by apply list_elem_of_fmap_2. }
    specialize (IH (S i) d1 Hk1 Hrows1 Hnd). specialize (Hnot d1).
    pose proof (act_each_other key_free cols (S i) l d1 (j_ID r0) Hn0) as Hother.
    destruct (act_each key_free cols (S i) l d1) as [c d']. simpl in *.
    destruct (decide (r = r0)) as [->|Hne].
    + left. exists 0. split; [set_solver|]. split; [done|]. by rewrite Nat.add_0_r, Hother, lookup_insert_eq.
    + destruct IH as [(k & Hc & Hl & Hj)|(Hc & Hj & Hh)]; [set_solver|left|right; set_solver].
      exists (S k). split; [set_solver|]. split; [done|]. by rewrite <-Nat.add_succ_comm.
  - destruct (decide (r = r0)) as [->|Hne].
    + right. split; [done|]. rewrite act_each_other by done. split; [done|].
      apply held_stays; auto; [set_solver|]. unfold key_free in Ef. by apply negb_false_iff in Ef.
    + destruct (IH (S i) d) as [(k & Hc & Hl & Hj)|?]; [done|set_solver|done|set_solver|left|by right].
      exists (S k). split; [done|]. split; [done|]. by rewrite <-Nat.add_succ_comm.
Qed.

(** Every job the replay targets ends up available at its slot, its lease and
    finish cleared, or is exactly as it was and its key is held by another live job. *)
Theorem replay_leaves_none_behind `{RowOrder} fuel scope o ccs ivs cancelled a actor d r :
  db_wf d → jobs d !! "" = None → admitted o → resolveActor (ccs 0) = Ok actor →
  (∀ k, cancelled k = false) → (∀ k, cc_AuditHook (ccs k) = None) → patient ivs →
  4 * (size (jobs d) + 1) ≤ fuel → r ∈ cohort scope o d →
  ∃ res d', replay fuel ccs ivs false cancelled scope a o d = Some (res, None, d') ∧ db_wf d' ∧
    let now := c_Now (cc_ctx (ccs 0)) 0 in
    let base := (now + ro_Delay (rp_Retry o))%Z in
    ((∃ k, cohort scope o d !! k = Some r ∧
       jobs d' !! j_ID r =
         Some (Updates (revive (replay_slot o base (replay_total scope o d) k) now (rp_Retry o)) r)) ∨
     (jobs d' !! j_ID r = Some r ∧ activeKeyHeld d' r = true)).
Proof.
  intros Hwf Hno Hadm Ha Hcan Hhook Hp Hfuel Hin.
  destruct (replay_walks scope o ccs ivs cancelled a actor d Hwf Hno Hadm Ha Hcan Hhook Hp fuel Hfuel)
    as (b & aud & -> & _).
  pose proof (cohort_remaining scope o d (wf_keyed _ Hwf)) as Hl. rewrite <-(app_nil_r (cohort _ _ _)) in Hl.
  eexists _, _. split; [done|]. split; [by eapply wf_with_audit, each_wf|]. simpl.
  destruct (remaining_prefix _ _ _ _ _ Hl) as (Hnd & _ & Hrows).
  destruct (act_each_outcome (replay_one o (c_Now (cc_ctx (ccs 0)) 0)
      (c_Now (cc_ctx (ccs 0)) 0 + ro_Delay (rp_Retry o)) (replay_total scope o d)) 0 (cohort scope o d) d r)
    as [(k & _ & Hk & Hj)|(_ & Hj & Hh)]; [intros; apply revive_live|apply Hwf|done..| |].
  - left. eauto.
  - right. eauto.
Qed.

(** ** Beside other writers *)

(** What one attempt wrote: each row it changed was, in the tables its UPDATE ran
    on, a targeted one no attempt of which was running and whose key no one held. *)
Record replay_wrote (o : ReplayOpts) (now base total : Z) (d2 d' : db) (ids : list string) : Prop := {
  rw_NoDup : NoDup ids;
  rw_row : ∀ id, id ∈ ids → ∃ r at_,
    jobs d2 !! id = Some r ∧ not_deleted r = true ∧ state_in (j_State r) (replayStates o) = true ∧
    j_State r ≠ StateRunning ∧ (j_State r = StateCancelled → attemptStillRuns d2 r = false) ∧
    activeKeyHeld d2 r = false ∧ jobs d' !! id = Some (Updates (revive at_ now (rp_Retry o)) r);
  rw_other : ∀ id, id ∉ ids → jobs d' !! id = jobs d2 !! id;
  rw_rest : job_runs d' = job_runs d2 ∧ job_run_finishes d' = job_run_finishes d2;
  rw_audit : ∃ aud, job_audit d' = job_audit d2 ++ aud ∧
    (λ e, (a_TargetID e, a_Action e)) <$> aud = (λ id, (id, AuditReplayed)) <$> ids
}.

Lemma guard_safe live o d r :
  admitted o → replay_guard live (replayStates o) d r = true →
  state_in (j_State r) (replayStates o) = true ∧ j_State r ≠ StateRunning ∧
  (j_State r = StateCancelled → attemptStillRuns d r = false) ∧ activeKeyHeld d r = false.
Proof.
  intros [Hrun _]. unfold replay_guard. rewrite !andb_true_iff, negb_true_iff.
  intros [[[_ Hs] Hk] Hr]. split_and!; [done| |  |done].
  - intros E. by rewrite E, Hrun in Hs.
  - intros E. rewrite E in Hs. unfold skipAttemptsStillRunning, namesCancelled in Hr. rewrite Hs in Hr.
    apply negb_true_iff in Hr. unfold cancelledAttemptStillRuns in Hr. by rewrite E in Hr.
Qed.

(** Whatever other connections commit between a batch's statements, one attempt
    either changes nothing of its own (an error rolls back whole) or moves to
    available exactly the rows it reports, each of them still targeted, not
    running and with a free key when the UPDATE ran, with one entry each. *)
Theorem replay_batch_safe `{RowOrder} cc iv scope o cursor n now base total placed actor a d out d' :
  admitted o →
  replayBatch cc iv scope o cursor n now base total placed actor a d = (out, d') →
  let d2 := iv_update iv (iv_lock iv (iv_read iv d)) in
  db_wf (iv_read iv d) → db_wf d2 →
  db_wf d' ∧
  match out with
  | Err _ => d' = d2
  | Ok b => (d' = iv_read iv d ∧ rb_changed b = 0%Z) ∨
            ∃ ids, rb_changed b = Z.of_nat (length ids) ∧ replay_wrote o now base total d2 d' ids
  end.
Proof.
  intros Hadm Hrun d2 Hwf0 Hwf2. unfold replayBatch in Hrun. fold d2 in Hrun.
  destruct (iv_fail iv); [by simplify_eq|]. destruct (last _) as [m|]; [|simplify_eq; auto].
  set (rows := id_page _ _ _ _) in *.
  set (live := liveReplayCandidates _) in *.
  destruct live as [|i0 live0] eqn:El; [simplify_eq; auto|]. rewrite <-El in Hrun.
  destruct (updateJobsReturningIDs _ _ d2) as [[ids d3]|] eqn:Hu; [|by simplify_eq].
  destruct (recordAudit _ _ _ _ d3) as [d4|] eqn:Haud; [|by simplify_eq].
  simplify_eq. apply updateJobs_Ok in Hu; [|apply Hwf2]. apply recordAudit_Ok in Haud as ->.
  split.
  { apply wf_with_audit. eapply wf_updated; [|done|done]. intros r Hr _. by apply revive_row_wf. }
  right. exists ids. split; [done|]. destruct Hu as [-> Hu _ Hnd Hids]. split; [done| | |done|].
  - intros id (r & Hr & Hg & Hdel)%Hids. destruct (guard_safe _ _ _ _ Hadm Hg) as (? & ? & ? & ?).
    eexists r, _. split_and!; [done..|]. simpl. rewrite lookup_fmap, Hr. simpl. rewrite Hg, Hdel. done.
  - intros id Hid. simpl. rewrite lookup_fmap. destruct (jobs d2 !! id) as [r|] eqn:Hr; [|done]. simpl.
    destruct (replay_guard _ _ _ r && not_deleted r) eqn:Hg; [|done]. apply andb_true_iff in Hg as [? ?].
    exfalso. apply Hid, Hids. eauto.
  - eexists. split; [done|]. rewrite fmap_imap. unfold replayChanges.
    rewrite imap_fmap. apply (imap_const (λ id, (id, AuditReplayed))).
Qed.

(** ** Staggered arrival *)

(** While Stagger times the cohort's size fits an int64, job [i] of [n] lands inside
    the window and never before a job ahead of it. *)
Theorem replay_stagger_in_window o base total i j :
  (0 < rp_Stagger o)%Z → i ≤ j → (Z.of_nat j < total)%Z → (rp_Stagger o * total ≤ int64_max)%Z →
  (base ≤ replay_slot o base total i ≤ replay_slot o base total j)%Z ∧
  (replay_slot o base total j < base + rp_Stagger o)%Z.
Proof.
  intros Hs Hij Hj Hfit. unfold replay_slot.
  destruct (Z.leb_spec (rp_Stagger o) 0), (Z.leb_spec total 0); try lia. simpl.
  pose proof (slot_offset_bounds (rp_Stagger o) total (Z.of_nat i)).
  pose proof (slot_offset_bounds (rp_Stagger o) total (Z.of_nat j)).
  pose proof (slot_offset_mono (rp_Stagger o) total (Z.of_nat i) (Z.of_nat j)). lia.
Qed.
