(* ===== verification/Ids.v ===== *)
(** * Ids and the insert time they carry: internal/core/ids.go

    A UUIDv7 id starts with its millisecond, so a created window is a range of the
    primary key: [idFloor] is the smallest id of a millisecond and [idTime] reads
    the millisecond back. The theorems say that the two agree, and that comparing
    an id with a floor as text compares their milliseconds. *)

From Stdlib Require Import Ascii.
From S2P Require Import Prelude Types Text Sweep.

Definition maxIDMillis : Z := 2 ^ 48 - 1.

(** Time.UnixMilli of an instant in nanoseconds. *)
Definition UnixMilli (t : Z) : Z := (t / millisecond)%Z.

(** The low [k] hex digits of [n], most significant first. *)
Fixpoint hex_fixed (k : nat) (n : Z) : string :=
  match k with
  | O => ""
  | S k => String (hex_digit (Z.to_N ((n / 16 ^ Z.of_nat k) mod 16))) (hex_fixed k n)
  end.

(** The part of an id after its time: "-0000-0000-000000000000". *)
Definition floor_tail : string := "-0000-0000-000000000000".

Definition id_millis_of (t : Z) : Z := Z.min (Z.max (UnixMilli t) 0) maxIDMillis.
Definition idFloor (t : Z) : string :=
  let h := hex_fixed 12 (id_millis_of t) in
  String.substring 0 8 h +:+ "-" +:+ String.substring 8 4 h +:+ floor_tail.

(** A lowercase hex digit's value. *)
Definition hex_value (c : ascii) : option Z :=
  let b := N_of_ascii c in
  if ((48 <=? b) && (b <=? 57))%N then Some (Z.of_N b - 48)%Z
  else if ((97 <=? b) && (b <=? 102))%N then Some (Z.of_N b - 97 + 10)%Z
  else None.

(** The loop of [idTime] over the next [k] characters, the first at index [i]. *)
Fixpoint id_millis (k i : nat) (s : string) (ms : Z) : option Z :=
  match k with
  | O => Some ms
  | S k =>
    match s with
    | "" => None
    | String c s =>
      if (i =? 8)%nat then id_millis k (S i) s ms
      else match hex_value c with
           | Some v => id_millis k (S i) s (Z.lor (Z.shiftl ms 4) v)
           | None => None
           end
    end
  end.
Definition idTime (id : string) : option Z :=
  if (String.length id <? 13) || negb (bool_decide (String.get 8 id = Some "-"%char)) then None
  else (λ ms, ms * millisecond)%Z <$> id_millis 13 0 id 0.

(** ** Hex digits *)

Lemma hex_digit_N n : (n < 16)%N → N_of_ascii (hex_digit n) = (if (n <? 10)%N then 48 + n else 87 + n)%N.
Proof. intros Hn. unfold hex_digit. rewrite N_ascii_embedding; [done|]. destruct (N.ltb_spec n 10); lia. Qed.

Lemma hex_digit_value n : (n < 16)%N → hex_value (hex_digit n) = Some (Z.of_N n).
Proof.
  intros Hn. unfold hex_value. rewrite hex_digit_N by done.
  destruct (N.ltb_spec n 10).
  - destruct (N.leb_spec 48 (48 + n)), (N.leb_spec (48 + n) 57); try lia. simpl. f_equal. lia.
  - destruct (N.leb_spec 48 (87 + n)), (N.leb_spec (87 + n) 57), (N.leb_spec 97 (87 + n)),
      (N.leb_spec (87 + n) 102); try lia. simpl. f_equal. lia.
Qed.

(** Digits compare as their values. *)
Lemma hex_digit_lt m n : (m < 16)%N → (n < 16)%N →
  (N_of_ascii (hex_digit m) < N_of_ascii (hex_digit n))%N ↔ (m < n)%N.
Proof. intros Hm Hn. rewrite !hex_digit_N by done. destruct (N.ltb_spec m 10), (N.ltb_spec n 10); lia. Qed.
Lemma hex_digit_inj m n : (m < 16)%N → (n < 16)%N → hex_digit m = hex_digit n → m = n.
Proof.
  intros Hm Hn He. apply hex_digit_value in Hm. apply hex_digit_value in Hn. rewrite He in Hm.
  rewrite Hn in Hm. injection Hm. lia.
Qed.

Definition top (k : nat) (n : Z) : N := Z.to_N ((n / 16 ^ Z.of_nat k) mod 16).
Lemma top_lt k n : (top k n < 16)%N.
Proof. unfold top. pose proof (Z.mod_pos_bound (n / 16 ^ Z.of_nat k) 16). lia. Qed.

Lemma pow16 k : (0 < 16 ^ Z.of_nat k)%Z.
Proof. apply Z.pow_pos_nonneg; lia. Qed.

Lemma pow16_S k : (16 ^ Z.of_nat (S k) = 16 * 16 ^ Z.of_nat k)%Z.
Proof. rewrite Nat2Z.inj_succ, Z.pow_succ_r by lia. done. Qed.

(** A number below [16^(k+1)] is its top digit and the rest. *)
Lemma split_top k n :
  (0 ≤ n < 16 ^ Z.of_nat (S k))%Z → n = (Z.of_N (top k n) * 16 ^ Z.of_nat k + n mod 16 ^ Z.of_nat k)%Z.
Proof.
  intros Hn. pose proof (pow16 k). rewrite pow16_S in Hn.
  assert (0 ≤ n / 16 ^ Z.of_nat k < 16)%Z as Hd.
  { split; [apply Z.div_pos; lia|]. apply Z.div_lt_upper_bound; lia. }
  unfold top. rewrite Z.mod_small, Z2N.id by lia. rewrite Z.mul_comm. apply Z.div_mod. lia.
Qed.

(** The digits only see the number below [16^k]. *)
Lemma hex_fixed_mod k n m : (n mod 16 ^ Z.of_nat k = m mod 16 ^ Z.of_nat k)%Z → hex_fixed k n = hex_fixed k m.
Proof.
  revert n m. induction k as [|k IH]; intros n m He; simpl; [done|]. pose proof (pow16 k).
  rewrite pow16_S in He.
  assert (∀ x, (x mod (16 * 16 ^ Z.of_nat k) mod 16 ^ Z.of_nat k = x mod 16 ^ Z.of_nat k)%Z) as Hm.
  { intros x. apply Z.mod_mod_divide. by exists 16%Z. }
  assert (∀ x, ((x / 16 ^ Z.of_nat k) mod 16 = x mod (16 * 16 ^ Z.of_nat k) / 16 ^ Z.of_nat k)%Z) as Hd.
  { intros x. rewrite (Z.mul_comm 16), Z.rem_mul_r by lia.
    rewrite (Z.mul_comm (16 ^ _) _), Z.add_comm, Z.div_add_l by lia.
    rewrite (Z.div_small (x mod _)) by (apply Z.mod_pos_bound; lia). lia. }
  f_equal; [by rewrite !Hd, He|]. apply IH. by rewrite <-(Hm n), <-(Hm m), He.
Qed.

Lemma string_app_cons c s t : String c s +:+ t = String c (s +:+ t).
Proof. done. Qed.
Lemma string_app_assoc (s t u : string) : s +:+ t +:+ u = (s +:+ t) +:+ u.
Proof. induction s as [|c s IH]; [done|]. by rewrite !string_app_cons, IH. Qed.

Lemma hex_fixed_app j k n :
  hex_fixed (j + k) n = hex_fixed j (n / 16 ^ Z.of_nat k) +:+ hex_fixed k n.
Proof.
  induction j as [|j IH]; [done|]. simpl. rewrite string_app_cons. f_equal; [|done].
  rewrite Nat2Z.inj_add, Z.pow_add_r by lia. by rewrite Z.mul_comm, Z.div_div by (pose proof (pow16 k); pose proof (pow16 j); lia).
Qed.

Lemma hex_fixed_length k n : String.length (hex_fixed k n) = k.
Proof. induction k; simpl; auto. Qed.

Lemma substring_prefix s t : String.substring 0 (String.length s) (s +:+ t) = s.
Proof. induction s as [|c s IH]; simpl; [by destruct t|]. by rewrite IH. Qed.
Lemma substring_all t : String.substring 0 (String.length t) t = t.
Proof. induction t as [|c t IH]; simpl; [done|]. by rewrite IH. Qed.
Lemma substring_suffix s t : String.substring (String.length s) (String.length t) (s +:+ t) = t.
Proof. induction s as [|c s IH]; [apply substring_all|done]. Qed.

Lemma idFloor_eq t :
  let ms := id_millis_of t in
  idFloor t = hex_fixed 8 (ms / 65536) +:+ "-" +:+ hex_fixed 4 ms +:+ floor_tail.
Proof.
  intros ms. unfold idFloor. fold ms. pose proof (hex_fixed_app 8 4 ms) as Happ.
  change (8 + 4)%nat with 12%nat in Happ. rewrite Happ. clear Happ. change (16 ^ Z.of_nat 4)%Z with 65536%Z.
  pose proof (substring_prefix (hex_fixed 8 (ms / 65536)) (hex_fixed 4 ms)) as Hp.
  pose proof (substring_suffix (hex_fixed 8 (ms / 65536)) (hex_fixed 4 ms)) as Hs.
  rewrite (hex_fixed_length 8) in Hp, Hs. rewrite (hex_fixed_length 4) in Hs. by rewrite Hp, Hs.
Qed.

(** Fixed-width digits compare as text the way their numbers do. *)
Lemma hex_fixed_le k a b x y :
  (0 ≤ a < 16 ^ Z.of_nat k)%Z → (0 ≤ b < 16 ^ Z.of_nat k)%Z →
  bytes_le (hex_fixed k a +:+ x) (hex_fixed k b +:+ y) ↔ (a < b)%Z ∨ (a = b ∧ bytes_le x y).
Proof.
  revert a b. induction k as [|k IH]; intros a b Ha Hb.
  { simpl in *. assert (a = 0 ∧ b = 0)%Z as [-> ->] by lia. simpl. naive_solver lia. }
  cbn [hex_fixed]. fold (top k a) (top k b). rewrite !string_app_cons, bytes_le_cons, hex_digit_lt by apply top_lt.
  pose proof (split_top k a Ha) as Ea. pose proof (split_top k b Hb) as Eb. pose proof (pow16 k).
  pose proof (Z.mod_pos_bound a (16 ^ Z.of_nat k)). pose proof (Z.mod_pos_bound b (16 ^ Z.of_nat k)).
  rewrite (hex_fixed_mod k a (a mod 16 ^ Z.of_nat k)), (hex_fixed_mod k b (b mod 16 ^ Z.of_nat k))
    by (by rewrite Z.mod_mod by lia).
  rewrite IH by lia. set (ta := top k a) in *. set (tb := top k b) in *.
  set (ra := (a mod _)%Z) in *. set (rb := (b mod _)%Z) in *. set (p := (16 ^ Z.of_nat k)%Z) in *.
  assert (hex_digit ta = hex_digit tb ↔ ta = tb) as ->.
  { split; [apply hex_digit_inj; apply top_lt|by intros ->]. }
  split.
  - intros [Hlt|[He [Hr|[Hr Hxy]]]]; [left; nia|left; rewrite He in Ea; lia|right]. split; [|done].
    rewrite Ea, Eb, He, Hr. done.
  - intros [Hlt|[-> Hxy]]; [|right; auto].
    destruct (decide (ta = tb)) as [He|Hne]; [right; split; [done|left; rewrite He in Ea; lia]|left].
    destruct (N.lt_trichotomy ta tb) as [?|[?|?]]; [done..|nia].
Qed.

(** ** Reading the time back *)

Lemma shift_digit ms v : (0 ≤ v < 16)%Z → Z.lor (Z.shiftl ms 4) v = (ms * 16 + v)%Z.
Proof.
  intros Hv. rewrite Z.shiftl_mul_pow2 by lia. change (2 ^ 4)%Z with 16%Z.
  rewrite <-Z.lxor_lor, <-Z.add_nocarry_lxor; [done|..].
  all: apply Z.bits_inj'; intros n Hn; rewrite Z.land_spec, Z.bits_0.
  all: change 16%Z with (2 ^ 4)%Z; destruct (Z.ltb_spec n 4).
  all: try (by rewrite Z.mul_pow2_bits_low).
  all: rewrite (Z.bits_above_log2 v n); [apply andb_false_r|lia|].
  all: destruct (decide (v = 0%Z)) as [->|]; [simpl; lia|].
  all: assert (Z.log2 v < 4)%Z; [apply Z.log2_lt_pow2; lia|lia].
Qed.

(** The digits of a number are read as the number. *)
Lemma id_millis_hex k m i n rest acc :
  i + k ≤ 8 ∨ 8 < i →
  id_millis (k + m) i (hex_fixed k n +:+ rest) acc =
  id_millis m (i + k) rest (acc * 16 ^ Z.of_nat k + n mod 16 ^ Z.of_nat k)%Z.
Proof.
  revert i n acc. induction k as [|k IH]; intros i n acc Hi.
  { simpl. rewrite Z.mod_1_r, Nat.add_0_r. f_equal. lia. }
  cbn [hex_fixed plus id_millis]. fold (top k n). rewrite string_app_cons.
  destruct (Nat.eqb_spec i 8); [lia|]. rewrite hex_digit_value by apply top_lt.
  rewrite shift_digit by (pose proof (top_lt k n); lia). rewrite IH by lia.
  rewrite <-Nat.add_succ_comm. f_equal. rewrite pow16_S. pose proof (pow16 k).
  assert (n mod (16 * 16 ^ Z.of_nat k) = Z.of_N (top k n) * 16 ^ Z.of_nat k + n mod 16 ^ Z.of_nat k)%Z as ->.
  { unfold top. rewrite Z2N.id by (apply Z.mod_pos_bound; lia).
    rewrite (Z.mul_comm 16), Z.rem_mul_r by lia. lia. }
  lia.
Qed.

(** An id of millisecond [ms]: its time in hex, then [rest]. *)
Definition timed (ms : Z) (rest : string) : string :=
  hex_fixed 8 (ms / 65536) +:+ "-" +:+ hex_fixed 4 ms +:+ rest.

Lemma timed_length ms rest : String.length (timed ms rest) = 13 + String.length rest.
Proof. done. Qed.

Lemma timed_get ms rest : String.get 8 (timed ms rest) = Some "-"%char.
Proof. done. Qed.

Lemma id_millis_timed ms rest :
  id_millis 13 0 (timed ms rest) 0 =
  Some ((ms / 65536) mod 16 ^ 8 * 16 ^ 4 + ms mod 16 ^ 4)%Z.
Proof.
  pose proof (id_millis_hex 8 5 0 (ms / 65536) ("-" +:+ hex_fixed 4 ms +:+ rest) 0) as H8.
  pose proof (id_millis_hex 4 0 9 ms rest (0 * 16 ^ 8 + (ms / 65536) mod 16 ^ 8)) as H4.
  specialize (H8 ltac:(lia)). specialize (H4 ltac:(lia)). exact (eq_trans H8 H4).
Qed.

Lemma idTime_timed ms rest :
  (0 ≤ ms ≤ maxIDMillis)%Z → idTime (timed ms rest) = Some (ms * millisecond)%Z.
Proof.
  intros Hms. unfold maxIDMillis in Hms. unfold idTime. rewrite timed_length, timed_get.
  rewrite (bool_decide_true (Some _ = Some _)) by done.
  destruct (Nat.ltb_spec (13 + String.length rest) 13); [lia|]. rewrite id_millis_timed. simpl.
  rewrite (Z.mod_small (ms / 65536)); [do 2 f_equal; rewrite Z.mul_comm; symmetry; apply Z.div_mod; lia|].
  change (Z.pow_pos 16 8) with 4294967296%Z.
  split; [apply Z.div_pos; lia|apply Z.div_lt_upper_bound; lia].
Qed.

Lemma id_millis_of_range t : (0 ≤ id_millis_of t ≤ maxIDMillis)%Z.
Proof. unfold id_millis_of, maxIDMillis. lia. Qed.

Lemma timed_le a b x y :
  (0 ≤ a ≤ maxIDMillis)%Z → (0 ≤ b ≤ maxIDMillis)%Z →
  bytes_le (timed a x) (timed b y) ↔ (a < b)%Z ∨ (a = b ∧ bytes_le x y).
Proof.
  unfold maxIDMillis. intros Ha Hb. unfold timed.
  assert (∀ n, (0 ≤ n ≤ 2 ^ 48 - 1)%Z → (0 ≤ n / 65536 < 16 ^ Z.of_nat 8)%Z) as H8.
  { intros n Hn. change (16 ^ Z.of_nat 8)%Z with 4294967296%Z.
    split; [apply Z.div_pos; lia|apply Z.div_lt_upper_bound; lia]. }
  rewrite hex_fixed_le by auto. rewrite !string_app_cons, bytes_le_cons.
  change ("" +:+ ?s) with s.
  rewrite (hex_fixed_mod 4 a (a mod 65536)), (hex_fixed_mod 4 b (b mod 65536))
    by (change (16 ^ Z.of_nat 4)%Z with 65536%Z; by rewrite Z.mod_mod by lia).
  rewrite hex_fixed_le by (change (16 ^ Z.of_nat 4)%Z with 65536%Z; apply Z.mod_pos_bound; lia).
  pose proof (Z.div_mod a 65536). pose proof (Z.div_mod b 65536).
  pose proof (Z.mod_pos_bound a 65536). pose proof (Z.mod_pos_bound b 65536).
  split.
  - intros [?|[? [?|[_ [?|[? ?]]]]]]; [left; lia|lia|left; lia|right; split; [lia|done]].
  - intros [?|[-> ?]]; [|right; split; [done|right; split; [done|by right]]].
    destruct (decide (a / 65536 = b / 65536)%Z); [right|left; lia].
    split; [done|]. right. split; [done|]. left. lia.
Qed.

(** A floor reads back as its own millisecond, clamped to what an id holds. *)
Theorem idTime_idFloor t : idTime (idFloor t) = Some (id_millis_of t * millisecond)%Z.
Proof. rewrite idFloor_eq. apply idTime_timed, id_millis_of_range. Qed.

(** ** What idTime accepts *)

Lemma hex_value_digit c v : hex_value c = Some v → (0 ≤ v < 16)%Z ∧ c = hex_digit (Z.to_N v).
Proof.
  destruct c as [[] [] [] [] [] [] [] []]; intros Hv; vm_compute in Hv; try done; injection Hv as <-;
    (split; [lia|reflexivity]).
Qed.

Lemma id_millis_inv k m i s acc x :
  i + k ≤ 8 ∨ 8 < i → id_millis (k + m) i s acc = Some x →
  ∃ n rest, s = hex_fixed k n +:+ rest ∧ (0 ≤ n < 16 ^ Z.of_nat k)%Z ∧
            id_millis m (i + k) rest (acc * 16 ^ Z.of_nat k + n)%Z = Some x.
Proof.
  revert i s acc. induction k as [|k IH]; intros i s acc Hi Hx.
  { exists 0%Z, s. split_and!; [done|simpl; lia..|]. rewrite Nat.add_0_r. simpl in *.
    by rewrite Z.mul_1_r, Z.add_0_r. }
  cbn [plus id_millis] in Hx. destruct s as [|c s]; [done|]. destruct (Nat.eqb_spec i 8) as [|Hne]; [lia|].
  destruct (hex_value c) as [v|] eqn:Ev; [|done]. apply hex_value_digit in Ev as [Hv ->].
  rewrite shift_digit in Hx by done. apply IH in Hx as (n & rest & -> & Hn & Hx); [|lia].
  pose proof (pow16 k). exists (v * 16 ^ Z.of_nat k + n)%Z, rest. rewrite pow16_S. split_and!.
  - cbn [hex_fixed]. rewrite string_app_cons. f_equal.
    + f_equal. f_equal. rewrite Z.div_add_l, (Z.div_small n), Z.add_0_r, Z.mod_small by lia. done.
    + f_equal. apply hex_fixed_mod. by rewrite Z.add_comm, Z.mod_add by lia.
  - nia.
  - nia.
  - rewrite <-Nat.add_succ_comm. rewrite <-Hx. f_equal. lia.
Qed.

(** The ids whose time is read are the ones that start as a floor does. *)
Lemma idTime_Some id t :
  idTime id = Some t → ∃ ms rest, id = timed ms rest ∧ (0 ≤ ms ≤ maxIDMillis)%Z ∧ t = (ms * millisecond)%Z.
Proof.
  unfold idTime. destruct (_ <? 13); [done|]. destruct (bool_decide _) eqn:Hg; [|done]. cbn [orb negb].
  apply bool_decide_eq_true in Hg. intros (x & Hx & ->)%fmap_Some_1.
  apply (id_millis_inv 8 5) in Hx as (hi & r1 & -> & Hhi & Hx); [|lia].
  change (0 + 8) with 8 in Hx. destruct r1 as [|c r1]; [done|].
  assert (c = "-"%char) as ->.
  { revert Hg. change 8 with (0 + 8) at 1.
    rewrite <-(hex_fixed_length 8 hi) at 1. generalize (hex_fixed 8 hi). intros s. induction s as [|c' s IH]; [|done].
    simpl. by intros [= ->]. }
  change (id_millis 4 9 r1 (0 * 16 ^ Z.of_nat 8 + hi)%Z = Some x) in Hx.
  apply (id_millis_inv 4 0) in Hx as (lo & rest & -> & Hlo & Hx); [|lia]. simpl in Hx. injection Hx as <-.
  change (16 ^ Z.of_nat 8)%Z with 4294967296%Z in Hhi. change (16 ^ Z.of_nat 4)%Z with 65536%Z in Hlo.
  change (Z.pow_pos 16 4) with 65536%Z.
  exists (hi * 65536 + lo)%Z, rest. split_and!; [|unfold maxIDMillis; lia..|done].
  unfold timed. rewrite Z.div_add_l, (Z.div_small lo), Z.add_0_r by lia.
  rewrite (hex_fixed_mod 4 (hi * 65536 + lo) lo); [done|].
  change (16 ^ Z.of_nat 4)%Z with 65536%Z. by rewrite Z.add_comm, Z.mod_add by lia.
Qed.

(** Whether an id is at or past a floor, as text, is whether its millisecond is:
    a created window on the id selects by insert time. [rest] is an id's tail,
    which no floor's exceeds. *)
Theorem created_window_by_id id t from to rest :
  idTime id = Some t → String.substring 13 (String.length id - 13) id = rest → bytes_le floor_tail rest →
  (0 ≤ UnixMilli from ≤ maxIDMillis)%Z → (0 ≤ UnixMilli to ≤ maxIDMillis)%Z →
  (bytes_le (idFloor from) id ∧ ¬ bytes_le (idFloor to) id) ↔
  (UnixMilli from ≤ UnixMilli t < UnixMilli to)%Z.
Proof.
  intros (ms & rest' & -> & Hms & ->)%idTime_Some Hrest Htail Hf Ht.
  assert (rest' = rest) as ->.
  { rewrite <-Hrest, timed_length. replace (13 + String.length rest' - 13) with (String.length rest') by lia.
    symmetry. apply (substring_suffix (hex_fixed 8 (ms / 65536) +:+ "-" +:+ hex_fixed 4 ms) rest'). }
  assert (∀ u, (0 ≤ UnixMilli u ≤ maxIDMillis)%Z → bytes_le (idFloor u) (timed ms rest) ↔ (UnixMilli u ≤ ms)%Z) as Hle.
  { intros u Hu. rewrite idFloor_eq. fold (timed (id_millis_of u) floor_tail).
    assert (id_millis_of u = UnixMilli u) as -> by (unfold id_millis_of; lia).
    rewrite timed_le by done. split; [intros [?|[? _]]; lia|].
    intros Hx. destruct (decide (UnixMilli u = ms)); [by right|left; lia]. }
  assert (UnixMilli (ms * millisecond) = ms) as -> by (by apply Z.div_mul).
  rewrite !Hle by done. lia.
Qed.
