(* ===== verification/Base64.v ===== *)
(** * base64.RawURLEncoding

    The unpadded URL-safe base64 of Go's encoding/base64, which every page cursor
    is written in: three bytes are four characters, a last one or two bytes are two
    or three. The decoder drops line breaks, as Go's does, and refuses any other
    character outside the alphabet and a lone last character. *)

From Stdlib Require Import Ascii.
From Stdlib Require String.
From S2P Require Import Prelude Types Text.

(** The character of a six-bit value, and back. *)
Definition b64_char (v : N) : N :=
  (if v <? 26 then 65 + v else if v <? 52 then 71 + v else if v <? 62 then v - 4
   else if v =? 62 then 45 else 95)%N.
Definition b64_value (c : N) : option N :=
  (if (65 <=? c) && (c <=? 90) then Some (c - 65) else if (97 <=? c) && (c <=? 122) then Some (c - 71)
   else if (48 <=? c) && (c <=? 57) then Some (c + 4) else if c =? 45 then Some 62
   else if c =? 95 then Some 63 else None)%N.

Fixpoint b64_encode (l : bytes) : bytes :=
  match l with
  | a :: b :: c :: l =>
    b64_char (a / 4) :: b64_char (a mod 4 * 16 + b / 16) :: b64_char (b mod 16 * 4 + c / 64) ::
    b64_char (c mod 64) :: b64_encode l
  | [a; b] => [b64_char (a / 4); b64_char (a mod 4 * 16 + b / 16); b64_char (b mod 16 * 4)]
  | [a] => [b64_char (a / 4); b64_char (a mod 4 * 16)]
  | [] => []
  end%N.

Fixpoint b64_decode (l : bytes) : option bytes :=
  match l with
  | w :: x :: y :: z :: l =>
    w ← b64_value w; x ← b64_value x; y ← b64_value y; z ← b64_value z; rest ← b64_decode l;
    Some ((w * 4 + x / 16) mod 256 :: (x * 16 + y / 4) mod 256 :: (y * 64 + z) mod 256 :: rest)
  | [w; x; y] =>
    w ← b64_value w; x ← b64_value x; y ← b64_value y;
    Some [(w * 4 + x / 16) mod 256; (x * 16 + y / 4) mod 256]
  | [w; x] => w ← b64_value w; x ← b64_value x; Some [(w * 4 + x / 16) mod 256]
  | [_] => None
  | [] => Some []
  end%N.

Definition line_break (c : N) : bool := ((c =? 10) || (c =? 13))%N.
Definition RawURL_EncodeToString (s : string) : string := string_of (b64_encode (bytes_of s)).
Definition RawURL_DecodeString (s : string) : option string :=
  string_of <$> b64_decode (filter (λ c, line_break c = false) (bytes_of s)).

(** ** The round trip *)

Lemma b64_value_char v : (v < 64)%N → b64_value (b64_char v) = Some v.
Proof.
  intros Hv. unfold b64_char.
  destruct (N.ltb_spec v 26); [|destruct (N.ltb_spec v 52); [|destruct (N.ltb_spec v 62);
    [|destruct (N.eqb_spec v 62) as [->|]; [done|assert (v = 63)%N as -> by lia; done]]]];
    unfold b64_value;
    repeat match goal with |- context [(?a <=? ?b)%N] => destruct (N.leb_spec a b); try lia end; simpl;
    f_equal; lia.
Qed.

Lemma b64_char_byte v : (v < 64)%N → byte (b64_char v) ∧ line_break (b64_char v) = false.
Proof.
  intros Hv. unfold b64_char, byte, line_break.
  repeat match goal with |- context [(?a <? ?b)%N] => destruct (N.ltb_spec a b) end;
    [| | |destruct (N.eqb_spec v 62) as [->|]; [done|by assert (v = 63)%N as -> by lia]];
    (split; [lia|]);
    repeat match goal with |- context [(?a =? ?b)%N] => destruct (N.eqb_spec a b); try lia end; done.
Qed.

(** Linear arithmetic with division by constants. *)
Ltac dm := zify; Z.to_euclidean_division_equations; lia.

Lemma b64_roundtrip l : Forall byte l → b64_decode (b64_encode l) = Some l.
Proof.
  revert l. fix IH 1. intros [|a [|b [|c l]]] Hl; [done|..]; rewrite ?Forall_cons in Hl; unfold byte in Hl.
  - cbn [b64_encode b64_decode]. rewrite !b64_value_char by dm. simpl. do 2 f_equal. dm.
  - cbn [b64_encode b64_decode]. rewrite !b64_value_char by dm. simpl. do 2 f_equal; [dm|f_equal; dm].
  - destruct Hl as (Ha & Hb & Hc & Hl). cbn [b64_encode b64_decode].
    rewrite !b64_value_char, IH by (done || dm). simpl. do 2 f_equal; [dm|f_equal; [dm|f_equal; dm]].
Qed.

Lemma b64_encode_chars l : Forall byte l → Forall (λ c, byte c ∧ line_break c = false) (b64_encode l).
Proof.
  revert l. fix IH 1. intros [|a [|b [|c l]]] Hl; [constructor|..]; rewrite ?Forall_cons in Hl; unfold byte in Hl;
    cbn [b64_encode]; rewrite ?Forall_cons; split_and!; try (apply b64_char_byte; dm); try constructor.
  apply IH. by destruct Hl as (_ & _ & _ & ?).
Qed.

(** What was encoded decodes to itself. *)
Theorem base64_roundtrip s : RawURL_DecodeString (RawURL_EncodeToString s) = Some s.
Proof.
  unfold RawURL_DecodeString, RawURL_EncodeToString.
  pose proof (b64_encode_chars _ (bytes_of_byte s)) as Hc.
  rewrite bytes_of_string_of by (eapply Forall_impl; [done|naive_solver]).
  rewrite filter_all by (eapply Forall_impl; [done|naive_solver]).
  rewrite b64_roundtrip by apply bytes_of_byte. simpl. by rewrite string_of_bytes_of.
Qed.
