(* ===== verification/Query.v ===== *)
(** * Listing and counting jobs: internal/core/job_query.go, job_count.go

    A [JobQuery] is a filter, an order and a page. [applyJobFilter] is the WHERE
    clause as a predicate on a row of the tables; [queryRows] and
    [finishedQueryRows] are the statements of a page, one row longer than it; and
    [QueryJobs] is the whole call, its refusals first. A cursor is the key of the
    last row of a page, so following NextCursor lists every match once. *)

From Stdlib Require Import Ascii.
From S2P Require Import Prelude Types Text Json Fingerprint Store Insert Sweep Retention Batch Ids Base64.

(** ** Sorts and queries *)

Inductive JobSort :=
| JobSortNewest | JobSortOldest | JobSortFinished | JobSortScheduled | JobSortOther (s : string).
#[global] Instance JobSort_eq_dec : EqDecision JobSort.
Proof. solve_decision. Defined.

Definition MaxContainmentWindow : Z := (7 * 24 * 60 * minute)%Z.
Definition MaxReadLimit : Z := 200.
Definition defaultQueryLimit : Z := 50.
Definition maxRunErrorBytes : nat := Z.to_nat 256.

(** A nil bound or slice is [None] or []; a zero time is [zero_time]. *)
Record JobQuery := {
  q_IDs : list string; q_States : list JobState; q_Kinds : list string; q_Queues : list string;
  q_Tags : list string; q_ParentJobID : string;
  q_PriorityMin : option Z; q_PriorityMax : option Z; q_AttemptMin : option Z; q_AttemptMax : option Z;
  q_CreatedFrom : Z; q_CreatedTo : Z; q_ScheduledFrom : Z; q_ScheduledTo : Z;
  q_FinalizedFrom : Z; q_FinalizedTo : Z;
  q_ArgsContains : string; q_MetadataContains : string;
  q_ErrorClasses : list ErrorClass; q_Fingerprint : string; q_ErrorContains : string;
  q_Sort : JobSort; q_Cursor : string; q_Limit : Z
}.
Definition zero_query : JobQuery :=
  {| q_IDs := []; q_States := []; q_Kinds := []; q_Queues := []; q_Tags := []; q_ParentJobID := "";
     q_PriorityMin := None; q_PriorityMax := None; q_AttemptMin := None; q_AttemptMax := None;
     q_CreatedFrom := zero_time; q_CreatedTo := zero_time; q_ScheduledFrom := zero_time;
     q_ScheduledTo := zero_time; q_FinalizedFrom := zero_time; q_FinalizedTo := zero_time;
     q_ArgsContains := ""; q_MetadataContains := ""; q_ErrorClasses := []; q_Fingerprint := "";
     q_ErrorContains := ""; q_Sort := JobSortOther ""; q_Cursor := ""; q_Limit := 0 |}.

(** [queryCursor]: the key of the last row on a page. *)
Record queryCursor := { qc_Sort : JobSort; qc_Time : option Z; qc_ID : string }.

(** PostgreSQL's operators, and encoding/json on a [queryCursor] (Marshal refuses
    an instant whose year has no RFC 3339 form). *)
Class QueryLib := {
  (** column @> CAST(value AS jsonb) *)
  jsonb_contains : string → string → bool;
  (** text ILIKE pattern ESCAPE '\' *)
  ilike : string → string → bool;
  marshalCursor : queryCursor → option string;
  unmarshalCursor : string → option queryCursor
}.
(** Unmarshal reads back what Marshal wrote. *)
Class QueryLibLaws `{QueryLib} : Prop :=
  cursor_marshal_roundtrip : ∀ c b, marshalCursor c = Some b → unmarshalCursor b = Some c.

Definition readLimit (limit def : Z) : Z := if (limit <=? 0)%Z then def else Z.min limit MaxReadLimit.

(** ** The filter *)

(** [distinctStates]: each repeat dropped, in order. *)
Definition distinctStates (states : list JobState) : list JobState :=
  foldl (λ out s, if state_in s out then out else out ++ [s]) [] states.

(** A condition a field adds only when it is set. *)
Definition when_list {A} (l : list A) (b : bool) : bool := match l with [] => true | _ => b end.
Definition when_some {A} (o : option A) (f : A → bool) : bool := match o with Some x => f x | None => true end.
Definition when_time (t : Z) (b : bool) : bool := if is_zero_time t then true else b.
Definition when_text (s : string) (b : bool) : bool := if is_empty s then true else b.

(** finalized_at compared with a bound; a NULL compares with nothing. *)
Definition finalized_cmp (f : Z → bool) (r : jobRow) : bool :=
  match j_FinalizedAt r with Some t => f t | None => false end.

Section filter.
Context `{QueryLib}.

(** likeEscaper: a backslash before each of \ % _. *)
Fixpoint like_escape (s : string) : string :=
  match s with
  | "" => ""
  | String c s =>
    if bool_decide (c ∈ [ascii_of_N 92; "%"%char; "_"%char])
    then String (ascii_of_N 92) (String c (like_escape s)) else String c (like_escape s)
  end.

(** [applyLatestRunFilter]: one run of the attempt the job names meets every
    condition. A NULL column meets none. *)
Definition applyLatestRunFilter (q : JobQuery) (d : db) (r : jobRow) : bool :=
  bool_decide (map_Exists (λ _ lr, r_JobID lr = j_ID r ∧ r_Attempt lr = j_Attempt r ∧
    when_list (q_ErrorClasses q)
      (match r_ErrorClass lr with Some c => bool_decide (c ∈ q_ErrorClasses q) | None => false end) = true ∧
    when_text (q_Fingerprint q) (bool_decide (r_ErrorFingerprint lr = Some (q_Fingerprint q))) = true ∧
    when_text (q_ErrorContains q)
      (match r_ErrorMessage lr with
       | Some m => ilike m ("%" +:+ like_escape (q_ErrorContains q) +:+ "%") | None => false end) = true)
    (job_runs d)).

(** [applyTagFilter]: on either dialect, some tag of the job is one of [tags]. *)
Definition applyTagFilter (tags : list string) (r : jobRow) : bool :=
  bool_decide (j_Tags r ≠ []) && existsb (λ t, str_mem t (j_Tags r)) tags.

(** The states of the filter, and its other fields. *)
Definition filter_states (q : JobQuery) (r : jobRow) : bool :=
  when_list (q_States q) (state_in (j_State r) (distinctStates (q_States q))).
Definition filter_rest (q : JobQuery) (d : db) (r : jobRow) : bool :=
  when_list (q_IDs q) (str_mem (j_ID r) (q_IDs q)) &&
  when_list (q_Kinds q) (str_mem (j_Kind r) (q_Kinds q)) &&
  when_list (q_Queues q) (str_mem (j_Queue r) (q_Queues q)) &&
  when_text (q_ParentJobID q) (bool_decide (j_ParentJobID r = Some (q_ParentJobID q))) &&
  when_some (q_PriorityMin q) (λ m, (m <=? j_Priority r)%Z) &&
  when_some (q_PriorityMax q) (λ m, (j_Priority r <=? m)%Z) &&
  when_some (q_AttemptMin q) (λ m, (m <=? j_Attempt r)%Z) &&
  when_some (q_AttemptMax q) (λ m, (j_Attempt r <=? m)%Z) &&
  when_time (q_CreatedFrom q) (bool_decide (bytes_le (idFloor (q_CreatedFrom q)) (j_ID r))) &&
  when_time (q_CreatedTo q) (negb (bool_decide (bytes_le (idFloor (q_CreatedTo q)) (j_ID r)))) &&
  when_time (q_ScheduledFrom q) (q_ScheduledFrom q <=? j_ScheduledAt r)%Z &&
  when_time (q_ScheduledTo q) (j_ScheduledAt r <? q_ScheduledTo q)%Z &&
  when_time (q_FinalizedFrom q) (finalized_cmp (λ t, q_FinalizedFrom q <=? t)%Z r) &&
  when_time (q_FinalizedTo q) (finalized_cmp (λ t, t <? q_FinalizedTo q)%Z r) &&
  when_list (q_Tags q) (applyTagFilter (q_Tags q) r) &&
  when_text (q_ArgsContains q) (jsonb_contains (j_Args r) (q_ArgsContains q)) &&
  when_text (q_MetadataContains q) (jsonb_contains (j_Metadata r) (q_MetadataContains q)) &&
  (if bool_decide (q_ErrorClasses q = []) && is_empty (q_Fingerprint q) && is_empty (q_ErrorContains q)
   then true else applyLatestRunFilter q d r).
Definition applyJobFilter (q : JobQuery) (d : db) (r : jobRow) : bool :=
  filter_states q r && filter_rest q d r.
End filter.

(** [jobQueryFilters] of bulk.go: whether any field of the filter is set. *)
Definition jobQueryFilters (q : JobQuery) : bool :=
  bool_decide (q_IDs q ≠ []) || bool_decide (q_States q ≠ []) || bool_decide (q_Kinds q ≠ []) ||
  bool_decide (q_Queues q ≠ []) || bool_decide (q_Tags q ≠ []) || negb (is_empty (q_ParentJobID q)) ||
  bool_decide (is_Some (q_PriorityMin q)) || bool_decide (is_Some (q_PriorityMax q)) ||
  bool_decide (is_Some (q_AttemptMin q)) || bool_decide (is_Some (q_AttemptMax q)) ||
  negb (is_zero_time (q_CreatedFrom q)) || negb (is_zero_time (q_CreatedTo q)) ||
  negb (is_zero_time (q_ScheduledFrom q)) || negb (is_zero_time (q_ScheduledTo q)) ||
  negb (is_zero_time (q_FinalizedFrom q)) || negb (is_zero_time (q_FinalizedTo q)) ||
  negb (is_empty (q_ArgsContains q)) || negb (is_empty (q_MetadataContains q)) ||
  bool_decide (q_ErrorClasses q ≠ []) || negb (is_empty (q_Fingerprint q)) ||
  negb (is_empty (q_ErrorContains q)).

(** ** Refusals *)

(** An error the first check to refuse returns; [None] when all accept. *)
Definition refuse (b : bool) (e : error) : option error := if b then Some e else None.
Definition first_error (l : list (option error)) : option error :=
  foldr (λ e rest, match e with Some e => Some e | None => rest end) None l.

Definition above (lo hi : option Z) : bool :=
  match lo, hi with Some a, Some b => (b <? a)%Z | _, _ => false end.
Definition bad_window (from to : Z) : bool :=
  negb (is_zero_time from) && negb (is_zero_time to) && negb (from <? to)%Z.

Definition validateSearchWindow (now : Z) (field : string) (q : JobQuery) : option error :=
  if is_zero_time (q_CreatedFrom q) then Some (ValidationError field)
  else
    let to := if is_zero_time (q_CreatedTo q) then now else q_CreatedTo q in
    refuse (MaxContainmentWindow <? time_sub to (q_CreatedFrom q))%Z (ValidationError field).

Section validate.
Context `{GoLib}.

Definition validateContainment (now : Z) (field value : string) (q : JobQuery) : option error :=
  if is_empty value then None
  else
    let trimmed := TrimSpace value in
    if is_empty trimmed || negb (bool_decide (String.get 0 trimmed = Some "{"%char)) ||
       negb (json_Valid trimmed)
    then Some (ValidationError field)
    else validateSearchWindow now field q.

(** [clock k] is the context clock when the k-th search filter reads it. *)
Definition validateJobFilter (clock : nat → Z) (q : JobQuery) (dialect : string) : option error :=
  let postgres := bool_decide (dialect = "postgres") in
  first_error [
    refuse (existsb (λ s, negb (JobState_Valid s)) (q_States q)) (ValidationError "states");
    refuse (above (q_PriorityMin q) (q_PriorityMax q)) (ValidationError "priority");
    refuse (above (q_AttemptMin q) (q_AttemptMax q)) (ValidationError "attempt");
    refuse (bad_window (q_CreatedFrom q) (q_CreatedTo q)) (ValidationError "created");
    refuse (bad_window (q_ScheduledFrom q) (q_ScheduledTo q)) (ValidationError "scheduled");
    refuse (bad_window (q_FinalizedFrom q) (q_FinalizedTo q)) (ValidationError "finalized");
    refuse (MaxReadLimit <? Z.of_nat (length (q_IDs q)))%Z (ValidationError "ids");
    refuse (existsb (λ c, negb (ErrorClass_Valid c)) (q_ErrorClasses q)) (ValidationError "error_classes");
    refuse (negb (is_empty (q_Fingerprint q)) && negb (validFingerprint (q_Fingerprint q)))
      (ValidationError "fingerprint");
    validateContainment (clock 0) "args_contains" (q_ArgsContains q) q;
    validateContainment (clock 1) "metadata_contains" (q_MetadataContains q) q;
    (if is_empty (q_ErrorContains q) then None else validateSearchWindow (clock 2) "error_contains" q);
    refuse (negb postgres && (negb (is_empty (q_ArgsContains q)) || negb (is_empty (q_MetadataContains q))))
      ErrUnsupportedDialect;
    refuse (negb postgres && negb (is_empty (q_ErrorContains q))) ErrUnsupportedDialect].
End validate.

(** ** Cursors *)

Definition queryCursorPrefix : string := "jq1.".

(** strings.CutPrefix. *)
Fixpoint CutPrefix (s prefix : string) : option string :=
  match prefix, s with
  | "", _ => Some s
  | String p prefix, String c s => if bool_decide (c = p) then CutPrefix s prefix else None
  | String _ _, "" => None
  end.

Definition time_sort (s : JobSort) : bool :=
  match s with JobSortFinished | JobSortScheduled => true | _ => false end.

Section cursor.
Context `{QueryLib}.

Definition encodeQueryCursor (c : queryCursor) : res string :=
  match marshalCursor c with
  | Some body => Ok (queryCursorPrefix +:+ RawURL_EncodeToString body)
  | None => Err ErrMarshal
  end.

Definition decodeQueryCursor (raw : string) (sortBy : JobSort) : res queryCursor :=
  let malformed := Err (ValidationError "cursor") in
  match CutPrefix raw queryCursorPrefix with
  | None => malformed
  | Some body =>
    match RawURL_DecodeString body with
    | None => malformed
    | Some data =>
      match unmarshalCursor data with
      | None => malformed
      | Some c =>
        if is_empty (qc_ID c) then malformed
        else if negb (bool_decide (qc_Sort c = sortBy)) then Err (ValidationError "cursor")
        else if time_sort sortBy && bool_decide (qc_Time c = None) then malformed
        else Ok c
      end
    end
  end.

(** [validateJobSort]: the sort, and the cursor when there is one. *)
Definition validateJobSort (q : JobQuery) : res (JobSort * option queryCursor) :=
  let sortBy := match q_Sort q with JobSortOther "" => JobSortNewest | s => s end in
  let states_error : option error :=
    match sortBy with
    | JobSortNewest | JobSortOldest => None
    | JobSortFinished =>
      refuse (bool_decide (q_States q = []) || existsb (λ s, negb (isTerminalStateString s)) (q_States q))
        (ValidationError "states")
    | JobSortScheduled =>
      refuse (bool_decide (q_States q = []) || existsb isTerminalStateString (q_States q))
        (ValidationError "states")
    | JobSortOther _ => Some (ValidationError "sort")
    end in
  match states_error with
  | Some e => Err e
  | None =>
    if is_empty (q_Cursor q) then Ok (sortBy, None)
    else let? c := decodeQueryCursor (q_Cursor q) sortBy in Ok (sortBy, Some c)
  end.
End cursor.

(** [cursorAfter]: the cursor that continues past a job. *)
Definition cursorAfter (sortBy : JobSort) (job : jobRow) : queryCursor :=
  {| qc_Sort := sortBy;
     qc_Time := match sortBy with
                | JobSortFinished => j_FinalizedAt job
                | JobSortScheduled => Some (j_ScheduledAt job)
                | _ => None
                end;
     qc_ID := j_ID job |}.

(** ** The statements of a page *)

(** ORDER BY time, id ascending, and time DESC, id DESC. *)
Definition time_id_le (time : jobRow → Z) (a b : jobRow) : Prop :=
  (time a < time b)%Z ∨ (time a = time b ∧ bytes_le (j_ID a) (j_ID b)).
Definition finalized (r : jobRow) : Z := default 0%Z (j_FinalizedAt r).

Definition sort_le (s : JobSort) (a b : jobRow) : Prop :=
  match s with
  | JobSortOldest => bytes_le (j_ID a) (j_ID b)
  | JobSortScheduled => time_id_le j_ScheduledAt a b
  | JobSortFinished => time_id_le finalized b a
  | _ => bytes_le (j_ID b) (j_ID a)
  end.

(** The rows past a cursor. *)
Definition id_after (c : queryCursor) (r : jobRow) : bool := negb (bool_decide (bytes_le (j_ID r) (qc_ID c))).
Definition id_before_cursor (c : queryCursor) (r : jobRow) : bool :=
  negb (bool_decide (bytes_le (qc_ID c) (j_ID r))).
Definition past_cursor (s : JobSort) (c : option queryCursor) (r : jobRow) : bool :=
  match c with
  | None => true
  | Some c =>
    match s with
    | JobSortOldest => id_after c r
    | JobSortScheduled =>
      when_some (qc_Time c) (λ t, (t <? j_ScheduledAt r)%Z ||
                                  ((t =? j_ScheduledAt r)%Z && id_after c r))
    | JobSortFinished =>
      when_some (qc_Time c) (λ t, finalized_cmp (λ f, (f <? t)%Z || ((f =? t)%Z && id_before_cursor c r)) r)
    | _ => id_before_cursor c r
    end
  end.

#[global] Instance time_id_le_dec time : RelDecision (time_id_le time).
Proof. intros a b. unfold time_id_le. apply _. Defined.
#[global] Instance time_id_le_trans time : Transitive (time_id_le time).
Proof.
  intros a b c [?|[E1 L1]] [?|[E2 L2]]; unfold time_id_le; [left; lia..|].
  right. split; [congruence|]. by etrans.
Qed.
#[global] Instance time_id_le_total time : Total (time_id_le time).
Proof.
  intros a b. unfold time_id_le.
  destruct (Z.lt_trichotomy (time a) (time b)) as [?|[E|?]]; auto.
  destruct (total bytes_le (j_ID a) (j_ID b)); auto.
Qed.
#[global] Instance sort_le_dec s : RelDecision (sort_le s).
Proof. intros a b. unfold sort_le. destruct s; apply _. Defined.
#[global] Instance sort_le_trans s : Transitive (sort_le s).
Proof. intros a b c. destruct s; simpl; intros Hab Hbc; by etrans. Qed.
#[global] Instance sort_le_total s : Total (sort_le s).
Proof.
  intros a b. destruct s; simpl.
  all: try (destruct (total bytes_le (j_ID a) (j_ID b)); by auto).
  - destruct (total (time_id_le finalized) a b); auto.
  - apply (total (time_id_le j_ScheduledAt)).
Qed.

(** Two jobs in the same place of a sort share their id. *)
Lemma sort_le_antisym s a b : sort_le s a b → sort_le s b a → j_ID a = j_ID b.
Proof.
  destruct s; simpl; unfold time_id_le; intros Hab Hba;
    try (destruct Hab as [?|[? Hab]], Hba as [?|[? Hba]]; [lia..|]); by apply (anti_symm bytes_le).
Qed.

(** ** Items *)

Record JobView := {
  v_ID : string; v_Kind : string; v_Queue : string; v_State : JobState; v_ParentJobID : string;
  v_EnqueuedAt : Z; v_Attempt : Z; v_MaxAttempts : Z; v_Priority : Z; v_ExecutorClass : string;
  v_ScheduledAt : Z; v_FinalizedAt : option Z; v_UpdatedAt : Z; v_Tags : list string
}.
Definition jobViewFromRow (r : jobRow) : JobView :=
  {| v_ID := j_ID r; v_Kind := j_Kind r; v_Queue := j_Queue r; v_State := j_State r;
     v_ParentJobID := derefString (j_ParentJobID r); v_EnqueuedAt := j_CreatedAt r;
     v_Attempt := j_Attempt r; v_MaxAttempts := j_MaxAttempts r; v_Priority := j_Priority r;
     v_ExecutorClass := j_ExecutorClass r; v_ScheduledAt := j_ScheduledAt r;
     v_FinalizedAt := j_FinalizedAt r; v_UpdatedAt := j_UpdatedAt r; v_Tags := j_Tags r |}.

Record RunSummary := {
  rs_RunID : string; rs_Attempt : Z; rs_Outcome : RunOutcome; rs_ErrorClass : option ErrorClass;
  rs_Error : string; rs_StartedAt : Z; rs_FinishedAt : option Z; rs_DurationMs : option Z
}.
Record JobListItem := { li_View : JobView; li_Metadata : string; li_LatestRun : option RunSummary }.

(** substr(s, 1, n): the first [n] characters. *)
Fixpoint substr (n : nat) (l : bytes) : bytes :=
  match l with
  | [] => []
  | b :: l =>
    if RuneStart b then match n with O => [] | S n => b :: substr n l end else b :: substr n l
  end.

(** Up to the first line break. *)
Fixpoint first_line (l : bytes) : bytes :=
  match l with
  | [] => []
  | b :: l => if ((b =? 13) || (b =? 10))%N then [] else b :: first_line l
  end.
Definition runErrorLine (s : string) : string :=
  truncate (string_of (first_line (bytes_of s))) maxRunErrorBytes.

(** LEFT JOIN job_runs on (job_id, attempt), which job_runs_job_attempt makes
    unique. *)
Definition joined_run (d : db) (r : jobRow) : option jobRunRow :=
  snd <$> head (filter (λ kv, r_JobID kv.2 = j_ID r ∧ r_Attempt kv.2 = j_Attempt r) (map_to_list (job_runs d))).

Definition runSummary (lr : jobRunRow) : RunSummary :=
  {| rs_RunID := r_ID lr; rs_Attempt := r_Attempt lr; rs_Outcome := r_Outcome lr;
     rs_ErrorClass := r_ErrorClass lr;
     rs_Error := runErrorLine (string_of (substr maxRunErrorBytes (bytes_of (derefString (r_ErrorMessage lr)))));
     rs_StartedAt := r_StartedAt lr; rs_FinishedAt := r_FinishedAt lr; rs_DurationMs := r_DurationMs lr |}.
Definition jobListItemFromRow (d : db) (r : jobRow) : JobListItem :=
  {| li_View := jobViewFromRow r;
     li_Metadata := if is_empty (j_Metadata r) then "{}" else j_Metadata r;
     li_LatestRun := runSummary <$> joined_run d r |}.

Record JobPage := { pg_Items : list JobListItem; pg_NextCursor : string }.

Section query.
Context `{GoLib} `{QueryLib} `{RowOrder}.

Definition queryRows (q : JobQuery) (sortBy : JobSort) (c : option queryCursor) (limit : nat) (d : db)
  : list jobRow :=
  page (sort_le sortBy) (S limit) (select_jobs (λ r, applyJobFilter q d r && past_cursor sortBy c r) d).

Definition with_states (states : list JobState) (q : JobQuery) : JobQuery :=
  {| q_IDs := q_IDs q; q_States := states; q_Kinds := q_Kinds q; q_Queues := q_Queues q;
     q_Tags := q_Tags q; q_ParentJobID := q_ParentJobID q; q_PriorityMin := q_PriorityMin q;
     q_PriorityMax := q_PriorityMax q; q_AttemptMin := q_AttemptMin q; q_AttemptMax := q_AttemptMax q;
     q_CreatedFrom := q_CreatedFrom q; q_CreatedTo := q_CreatedTo q;
     q_ScheduledFrom := q_ScheduledFrom q; q_ScheduledTo := q_ScheduledTo q;
     q_FinalizedFrom := q_FinalizedFrom q; q_FinalizedTo := q_FinalizedTo q;
     q_ArgsContains := q_ArgsContains q; q_MetadataContains := q_MetadataContains q;
     q_ErrorClasses := q_ErrorClasses q; q_Fingerprint := q_Fingerprint q;
     q_ErrorContains := q_ErrorContains q; q_Sort := q_Sort q; q_Cursor := q_Cursor q;
     q_Limit := q_Limit q |}.

(** One state's range of jobs_finished, one row past the page. *)
Definition finished_range (q : JobQuery) (c : option queryCursor) (limit : nat) (d : db) (s : JobState)
  : list jobRow :=
  page (sort_le JobSortFinished) (S limit)
    (select_jobs (λ r, applyJobFilter (with_states [s] q) d r && bool_decide (is_Some (j_FinalizedAt r)) &&
                       past_cursor JobSortFinished c r) d).
Definition finishedQueryRows (q : JobQuery) (c : option queryCursor) (limit : nat) (d : db) : list jobRow :=
  merge_sort (sort_le JobSortFinished) (concat (finished_range q c limit d <$> distinctStates (q_States q))).

Definition QueryJobs (clock : nat → Z) (dialect : string) (q : JobQuery) (d : db) : res JobPage :=
  match validateJobFilter clock q dialect with
  | Some e => Err e
  | None =>
    let? ' (sortBy, cursor) := validateJobSort q in
    let limit := Z.to_nat (readLimit (q_Limit q) defaultQueryLimit) in
    let rows := if bool_decide (sortBy = JobSortFinished) then finishedQueryRows q cursor limit d
                else queryRows q sortBy cursor limit d in
    if length rows <=? limit
    then Ok {| pg_Items := jobListItemFromRow d <$> rows; pg_NextCursor := "" |}
    else match rows !! (limit - 1) with
    | None => Err ErrPanic
    | Some last =>
      let? next := encodeQueryCursor (cursorAfter sortBy last) in
      Ok {| pg_Items := jobListItemFromRow d <$> take limit rows; pg_NextCursor := next |}
    end
  end.

(** ** Counting *)

Definition DefaultCountCap : Z := 10000.
Definition MaxCountCap : Z := 100000.
Record JobCount := { jc_N : Z; jc_Capped : bool; jc_Estimate : Z }.

(** [estimate] is what EXPLAIN answered for this statement, 0 when it failed. *)
Definition CountJobsWithOptions (clock : nat → Z) (dialect : string) (estimate : Z) (q : JobQuery) (cap : Z)
    (d : db) : res JobCount :=
  match validateJobFilter clock q dialect with
  | Some e => Err e
  | None =>
    let countCap := Z.min (if (cap <=? 0)%Z then DefaultCountCap else cap) MaxCountCap in
    let n := Z.of_nat (length (take (Z.to_nat (countCap + 1)) (select_jobs (applyJobFilter q d) d))) in
    if (n <=? countCap)%Z then Ok {| jc_N := n; jc_Capped := false; jc_Estimate := 0 |}
    else Ok {| jc_N := countCap; jc_Capped := true;
               jc_Estimate := if bool_decide (dialect = "postgres") then Z.max estimate (countCap + 1) else 0 |}
  end.
Definition CountJobs (clock : nat → Z) (dialect : string) (estimate : Z) (q : JobQuery) (d : db) :=
  CountJobsWithOptions clock dialect estimate q 0 d.
End query.

(** ** Sorted selections *)

Lemma distinctStates_elem l s : s ∈ distinctStates l ↔ s ∈ l.
Proof.
  unfold distinctStates.
  enough (∀ out, s ∈ foldl (λ out s, if state_in s out then out else out ++ [s]) out l ↔ s ∈ out ∨ s ∈ l)
    as Hgen by (rewrite Hgen; set_solver).
  induction l as [|x l IH]; intros out; simpl; [set_solver|]. rewrite IH. unfold state_in.
  destruct (bool_decide (x ∈ out)) eqn:E; [apply bool_decide_eq_true in E|]; set_solver.
Qed.

Lemma distinctStates_NoDup l : NoDup (distinctStates l).
Proof.
  unfold distinctStates.
  enough (∀ out, NoDup out → NoDup (foldl (λ out s, if state_in s out then out else out ++ [s]) out l))
    as Hgen by (apply Hgen; constructor).
  induction l as [|x l IH]; intros out Hout; simpl; [done|]. apply IH. unfold state_in.
  destruct (bool_decide (x ∈ out)) eqn:E; [done|]. apply bool_decide_eq_false in E.
  apply NoDup_app. split_and!; [done|set_solver|apply NoDup_singleton].
Qed.

Section sorted.
Context `{RowOrder} (s : JobSort).

(** The rows a predicate selects, in the sort's order. *)
Definition listing (P : jobRow → bool) (d : db) : list jobRow :=
  merge_sort (sort_le s) (select_jobs P d).

Lemma listing_elem P d r : keyed (jobs d) →
  r ∈ listing P d ↔ jobs d !! j_ID r = Some r ∧ not_deleted r = true ∧ P r = true.
Proof.
  intros Hk. unfold listing. rewrite (merge_sort_Permutation (sort_le s)), elem_of_select. split.
  - intros (? & ? & id & Hr). pose proof (Hk _ _ Hr). by subst id.
  - naive_solver.
Qed.

Lemma listing_NoDup P d : keyed (jobs d) → NoDup (j_ID <$> listing P d).
Proof. intros Hk. unfold listing. rewrite (merge_sort_Permutation (sort_le s)). by apply select_ids_NoDup. Qed.

Lemma listing_sorted P d : StronglySorted (sort_le s) (listing P d).
Proof. apply (StronglySorted_merge_sort (sort_le s)). Qed.

(** The table and the sort decide the list. *)
Lemma listing_unique P d l :
  keyed (jobs d) → StronglySorted (sort_le s) l → NoDup (j_ID <$> l) →
  (∀ r, r ∈ l ↔ jobs d !! j_ID r = Some r ∧ not_deleted r = true ∧ P r = true) → listing P d = l.
Proof.
  intros Hk Hs Hnd Hin. apply (StronglySorted_unique_strong (sort_le s)); [|apply listing_sorted|done|].
  - intros a b (Ha & _)%listing_elem (Hb & _)%Hin Hab Hba; [|done].
    pose proof (sort_le_antisym _ _ _ Hab Hba). congruence.
  - apply NoDup_Permutation; [eapply NoDup_fmap_1; by apply listing_NoDup|by eapply NoDup_fmap_1|].
    intros r. by rewrite listing_elem, Hin.
Qed.

Lemma listing_filter P Q d :
  keyed (jobs d) → listing (λ r, P r && Q r) d = filter (λ r, Q r = true) (listing P d).
Proof.
  intros Hk. apply listing_unique; [done|..].
  - eapply sorted_sublist, listing_sorted. apply sublist_filter.
  - eapply sublist_NoDup; [by apply (listing_NoDup P)|]. apply fmap_sublist, sublist_filter.
  - intros r. rewrite list_elem_of_filter, listing_elem, andb_true_iff by done. tauto.
Qed.

(** The rows strictly after one of the list are what follows it. *)
Lemma filter_after pre x l :
  StronglySorted (sort_le s) (pre ++ x :: l) → NoDup (j_ID <$> pre ++ x :: l) →
  filter (λ r, negb (bool_decide (sort_le s r x)) = true) (pre ++ x :: l) = l.
Proof.
  intros Hs Hnd. rewrite filter_app. rewrite (filter_none _ pre).
  - rewrite filter_cons_False.
    + apply filter_all. apply Forall_forall. intros r Hr. apply negb_true_iff, bool_decide_eq_false.
      intros Hle. rewrite fmap_app, NoDup_app in Hnd. destruct Hnd as (_ & _ & [Hn _]%NoDup_cons).
      apply Hn. assert (sort_le s x r) as Hle'.
      { apply StronglySorted_app_1_r, StronglySorted_inv in Hs as [_ Hx]. by eapply Forall_forall in Hx. }
      rewrite (sort_le_antisym _ _ _ Hle' Hle). by apply list_elem_of_fmap_2.
    + rewrite bool_decide_true; [done|]. by destruct (total (sort_le s) x x).
  - intros r Hr. rewrite bool_decide_true; [done|].
    eapply (StronglySorted_app_1_elem_of (sort_le s)); [done..|set_solver].
Qed.

(** What a cursor selects. *)
Lemma past_cursorAfter x r :
  (s = JobSortFinished → is_Some (j_FinalizedAt x) ∧ is_Some (j_FinalizedAt r)) →
  past_cursor s (Some (cursorAfter s x)) r = negb (bool_decide (sort_le s r x)).
Proof.
  intros Hf. unfold past_cursor, cursorAfter, id_after, id_before_cursor. destruct s; simpl; try done.
  - destruct Hf as [[tx Hx] [tr Hr]]; [done|]. rewrite Hx. simpl. unfold finalized_cmp. rewrite Hr.
    rewrite <-(bool_decide_not (time_id_le finalized x r)). apply eq_true_iff_eq.
    rewrite orb_true_iff, andb_true_iff, negb_true_iff, bool_decide_eq_false, bool_decide_eq_true.
    rewrite Z.ltb_lt, Z.eqb_eq. unfold time_id_le, finalized. rewrite Hx, Hr. simpl. split; [intros [?|[? ?]] [?|[? ?]]; try lia; done|].
    intros Hn. destruct (Z.lt_trichotomy tr tx) as [?|[->|?]]; [by left|right|exfalso; apply Hn; by left].
    split; [done|]. intros Hle. apply Hn. by right.
  - rewrite <-(bool_decide_not (time_id_le j_ScheduledAt r x)). apply eq_true_iff_eq.
    rewrite orb_true_iff, andb_true_iff, negb_true_iff, bool_decide_eq_false, bool_decide_eq_true.
    rewrite Z.ltb_lt, Z.eqb_eq. unfold time_id_le. split; [intros [?|[? ?]] [?|[? ?]]; try lia; done|].
    intros Hn. destruct (Z.lt_trichotomy (j_ScheduledAt x) (j_ScheduledAt r)) as [?|[E|?]];
      [by left|right|exfalso; apply Hn; by left].
    split; [done|]. intros Hle. apply Hn. by right.
Qed.
End sorted.

(** ** One range per state, merged *)

Lemma take_filter_elem {A} (p : A → Prop) `{!∀ x, Decision (p x)} n (l : list A) x :
  x ∈ take n l → p x → x ∈ take n (filter p l).
Proof.
  intros Hx Hp. rewrite <-(take_drop n l) at 1. rewrite filter_app.
  assert (length (filter p (take n l)) ≤ n) by (rewrite length_filter, length_take; lia).
  rewrite take_app_ge by done. apply elem_of_app. left. by apply list_elem_of_filter.
Qed.

Lemma elem_of_concat {A} (x : A) ls : x ∈ concat ls ↔ ∃ l, l ∈ ls ∧ x ∈ l.
Proof. rewrite list_elem_of_In, in_concat. by setoid_rewrite list_elem_of_In. Qed.

Lemma elem_of_take_inv {A} (x : A) n l : x ∈ take n l → x ∈ l.
Proof. intros Hx. eapply elem_of_sublist; [done|apply sublist_take]. Qed.

Section merge.
Context `{RowOrder} (s : JobSort).

Lemma merged_prefix P states n d :
  keyed (jobs d) → NoDup states → (∀ r, P r = true → j_State r ∈ states) →
  ∃ extra,
    merge_sort (sort_le s)
      (concat ((λ st, take n (listing s (λ r, P r && bool_decide (j_State r = st)) d)) <$> states)) =
    take n (listing s P d) ++ extra ∧ (length (listing s P d) ≤ n → extra = []).
Proof.
  intros Hk Hnd Hst. set (range := λ st, take n (listing s (λ r, P r && bool_decide (j_State r = st)) d)).
  set (C := concat (range <$> states)).
  assert (∀ r, r ∈ C ↔ ∃ st, st ∈ states ∧ r ∈ range st) as HC.
  { intros r. unfold C. rewrite elem_of_concat. setoid_rewrite list_elem_of_fmap. naive_solver. }
  assert (∀ st r, r ∈ range st → r ∈ listing s P d ∧ j_State r = st) as Hrange.
  { intros st r Hr%elem_of_take_inv. rewrite !listing_elem in * by done. rewrite andb_true_iff, bool_decide_eq_true in Hr.
    tauto. }
  assert (NoDup (j_ID <$> C)) as HndC.
  { unfold C. clear HC Hst. induction Hnd as [|st states Hst Hnd IH]; [constructor|]. simpl.
    rewrite fmap_app. apply NoDup_app. split_and!; [| |done].
    - eapply sublist_NoDup; [|apply fmap_sublist, sublist_take]. by apply listing_NoDup.
    - intros id (r & -> & Hr)%list_elem_of_fmap (r' & He & Hr')%list_elem_of_fmap.
      apply elem_of_concat in Hr' as (l & (st' & -> & Hst')%list_elem_of_fmap & Hr').
      apply Hrange in Hr as [Hr Es], Hr' as [Hr' Es']. rewrite listing_elem in Hr, Hr' by done.
      assert (r = r') by naive_solver congruence. congruence. }
  assert (merge_sort (sort_le s) C = filter (λ r, bool_decide (r ∈ C) = true) (listing s P d)) as ->.
  { rewrite <-listing_filter by done. symmetry. apply listing_unique; [done|..].
    - apply (StronglySorted_merge_sort (sort_le s)).
    - by rewrite (merge_sort_Permutation (sort_le s)).
    - intros r. rewrite (merge_sort_Permutation (sort_le s)), andb_true_iff, bool_decide_eq_true. split.
      + intros Hr. pose proof Hr as (st & _ & [Hl _]%Hrange)%HC. rewrite listing_elem in Hl by done. tauto.
      + tauto. }
  assert (filter (λ r, bool_decide (r ∈ C) = true) (listing s P d) =
    filter (λ r, bool_decide (r ∈ C) = true) (take n (listing s P d)) ++
    filter (λ r, bool_decide (r ∈ C) = true) (drop n (listing s P d))) as -> by (by rewrite <-filter_app, take_drop).
  exists (filter (λ r, bool_decide (r ∈ C) = true) (drop n (listing s P d))). split.
  - rewrite filter_all; [done|]. apply Forall_forall. intros r Hr. apply bool_decide_eq_true, HC.
    exists (j_State r). pose proof (elem_of_take_inv _ _ _ Hr) as Hl. rewrite listing_elem in Hl by done.
    split; [by apply Hst, Hl|]. unfold range. rewrite listing_filter by done.
    apply take_filter_elem; [done|]. by apply bool_decide_eq_true.
  - intros Hle. by rewrite drop_ge.
Qed.
End merge.

(** ** A page *)

Lemma filter_one_state `{QueryLib} q d r st :
  st ∈ q_States q →
  applyJobFilter (with_states [st] q) d r = applyJobFilter q d r && bool_decide (j_State r = st).
Proof.
  intros Hst. unfold applyJobFilter.
  change (filter_rest (with_states [st] q) d r) with (filter_rest q d r).
  assert (filter_states (with_states [st] q) r = filter_states q r && bool_decide (j_State r = st)) as ->.
  { unfold filter_states at 1. simpl. unfold distinctStates, state_in. simpl.
    destruct (decide (j_State r = st)) as [E|E].
    - rewrite (bool_decide_true (j_State r = st)), andb_true_r by done. unfold filter_states.
      destruct (q_States q) as [|s0 l] eqn:El; [set_solver|]. unfold when_list, state_in.
      rewrite !bool_decide_true; [done| |set_solver]. apply distinctStates_elem. by rewrite E.
    - rewrite (bool_decide_false (j_State r = st)), andb_false_r by done. apply bool_decide_eq_false. set_solver. }
  by destruct (filter_states q r), (bool_decide (j_State r = st)), (filter_rest q d r).
Qed.

Section pages.
Context `{GoLib} `{QueryLib} `{!QueryLibLaws} `{RowOrder}.

(** What a sort lists of a filter's matches. *)
Definition listed (q : JobQuery) (s : JobSort) (d : db) (r : jobRow) : bool :=
  applyJobFilter q d r && (if bool_decide (s = JobSortFinished) then bool_decide (is_Some (j_FinalizedAt r)) else true).

Definition ahead (q : JobQuery) (s : JobSort) (c : option queryCursor) (d : db) : list jobRow :=
  listing s (λ r, listed q s d r && past_cursor s c r) d.

Lemma sort_states q s c :
  validateJobSort q = Ok (s, c) → s = JobSortFinished →
  q_States q ≠ [] ∧ ∀ st, st ∈ q_States q → isTerminalStateString st = true.
Proof.
  intros Hv ->. unfold validateJobSort in Hv.
  assert (q_Sort q = JobSortFinished) as Hs.
  { destruct (q_Sort q) as [| | | |[|]]; simpl in Hv; try done;
      repeat (case_match; simplify_eq; try done). }
  rewrite Hs in Hv. unfold refuse in Hv. destruct (bool_decide (q_States q = [])) eqn:E1; [done|].
  destruct (existsb _ _) eqn:E2; [done|]. apply bool_decide_eq_false in E1. split; [done|].
  intros st Hst%list_elem_of_In. apply not_false_iff_true. intros Hf.
  apply not_true_iff_false in E2. apply E2, existsb_exists. exists st. by rewrite Hf.
Qed.

Lemma page_rows q s c limit d :
  keyed (jobs d) → validateJobSort q = Ok (s, c) →
  ∃ extra,
    (if bool_decide (s = JobSortFinished) then finishedQueryRows q c limit d else queryRows q s c limit d) =
    take (S limit) (ahead q s c d) ++ extra ∧ (length (ahead q s c d) ≤ limit → extra = []).
Proof.
  intros Hk Hv. case_bool_decide as Hs.
  - subst s. destruct (sort_states _ _ _ Hv eq_refl) as [Hne _].
    destruct (merged_prefix JobSortFinished
      (λ r, listed q JobSortFinished d r && past_cursor JobSortFinished c r) (distinctStates (q_States q)) (S limit) d)
      as (extra & He & Hx); [done|apply distinctStates_NoDup|..].
    + intros r. unfold listed, applyJobFilter, filter_states, when_list. rewrite !andb_true_iff.
      destruct (q_States q); [done|]. unfold state_in. rewrite bool_decide_eq_true. tauto.
    + exists extra. split; [|intros; apply Hx; unfold ahead in *; lia]. unfold ahead. rewrite <-He. unfold finishedQueryRows.
      f_equal. f_equal. apply list_fmap_ext. intros i st Hst%list_elem_of_lookup_2.
      rewrite distinctStates_elem in Hst.
      unfold finished_range, page, listing. f_equal. f_equal. apply select_jobs_ext. intros r.
      rewrite (filter_one_state q d r st Hst). unfold listed. simpl.
      destruct (applyJobFilter q d r), (bool_decide (j_State r = st)), (bool_decide (is_Some _)),
        (past_cursor JobSortFinished c r); done.
  - exists []. rewrite app_nil_r. split; [|done]. unfold queryRows, page, ahead, listing. f_equal. f_equal.
    apply select_jobs_ext. intros r. unfold listed. by rewrite bool_decide_false, andb_true_r.
Qed.

Lemma readLimit_pos q : 0 < Z.to_nat (readLimit (q_Limit q) defaultQueryLimit).
Proof.
  unfold readLimit, defaultQueryLimit, MaxReadLimit. destruct (Z.leb_spec (q_Limit q) 0); lia.
Qed.

(** A page is the next rows ahead, and a cursor when there are more. *)
Lemma QueryJobs_page clock dialect q s c d :
  keyed (jobs d) → validateJobFilter clock q dialect = None → validateJobSort q = Ok (s, c) →
  let limit := Z.to_nat (readLimit (q_Limit q) defaultQueryLimit) in
  let F := ahead q s c d in
  QueryJobs clock dialect q d =
  if length F <=? limit then Ok {| pg_Items := jobListItemFromRow d <$> F; pg_NextCursor := "" |}
  else match F !! (limit - 1) with
  | None => Err ErrPanic
  | Some last =>
    let? next := encodeQueryCursor (cursorAfter s last) in
    Ok {| pg_Items := jobListItemFromRow d <$> take limit F; pg_NextCursor := next |}
  end.
Proof.
  intros Hk Hf Hv limit F. unfold QueryJobs. rewrite Hf, Hv. simpl. fold limit.
  destruct (page_rows q s c limit d Hk Hv) as (extra & -> & Hx). fold F in Hx |- *.
  pose proof (readLimit_pos q) as Hpos. fold limit in Hpos. rewrite length_app, length_take.
  destruct (Nat.leb_spec (length F) limit) as [Hle|Hgt].
  - rewrite (Hx Hle), app_nil_r. simpl length. rewrite (proj2 (Nat.leb_le _ _)) by lia.
    by rewrite take_ge by lia.
  - rewrite (proj2 (Nat.leb_gt _ _)) by lia.
    rewrite lookup_app_l, lookup_take_lt by (rewrite ?length_take; lia).
    rewrite take_app_le, take_take by (rewrite ?length_take; lia). by replace (limit `min` S limit) with limit by lia.
Qed.

(** ** Cursors *)

Lemma CutPrefix_app p s : CutPrefix (p +:+ s) p = Some s.
Proof. induction p as [|c p IH]; [by destruct s|]. rewrite string_app_cons. simpl. by rewrite bool_decide_true. Qed.

Lemma decode_encode c raw :
  encodeQueryCursor c = Ok raw → qc_ID c ≠ "" → (time_sort (qc_Sort c) = true → qc_Time c ≠ None) →
  raw ≠ "" ∧ ∀ s, decodeQueryCursor raw s = if bool_decide (s = qc_Sort c) then Ok c else Err (ValidationError "cursor").
Proof.
  intros He Hid Ht. unfold encodeQueryCursor in He. destruct (marshalCursor c) as [b|] eqn:Hm; [|done].
  injection He as <-. split; [done|]. intros s. unfold decodeQueryCursor.
  rewrite CutPrefix_app, base64_roundtrip, (cursor_marshal_roundtrip _ _ Hm).
  unfold is_empty. rewrite (bool_decide_false (qc_ID c = "")) by done.
  destruct (decide (s = qc_Sort c)) as [->|Hne].
  - rewrite !(bool_decide_true (qc_Sort c = qc_Sort c)) by done. simpl.
    destruct (time_sort (qc_Sort c)) eqn:Hts; [|done]. by rewrite bool_decide_false by auto.
  - by rewrite (bool_decide_false (qc_Sort c = s)), (bool_decide_false (s = qc_Sort c)) by congruence.
Qed.


(** ** Every page *)

Definition with_cursor (raw : string) (q : JobQuery) : JobQuery :=
  {| q_IDs := q_IDs q; q_States := q_States q; q_Kinds := q_Kinds q; q_Queues := q_Queues q;
     q_Tags := q_Tags q; q_ParentJobID := q_ParentJobID q; q_PriorityMin := q_PriorityMin q;
     q_PriorityMax := q_PriorityMax q; q_AttemptMin := q_AttemptMin q; q_AttemptMax := q_AttemptMax q;
     q_CreatedFrom := q_CreatedFrom q; q_CreatedTo := q_CreatedTo q;
     q_ScheduledFrom := q_ScheduledFrom q; q_ScheduledTo := q_ScheduledTo q;
     q_FinalizedFrom := q_FinalizedFrom q; q_FinalizedTo := q_FinalizedTo q;
     q_ArgsContains := q_ArgsContains q; q_MetadataContains := q_MetadataContains q;
     q_ErrorClasses := q_ErrorClasses q; q_Fingerprint := q_Fingerprint q;
     q_ErrorContains := q_ErrorContains q; q_Sort := q_Sort q; q_Cursor := raw; q_Limit := q_Limit q |}.

(** A reader that follows NextCursor to the last page. *)
Fixpoint all_pages (fuel : nat) (clock : nat → Z) (dialect : string) (q : JobQuery) (d : db)
  : option (res (list JobListItem)) :=
  match fuel with
  | O => None
  | S fuel =>
    match QueryJobs clock dialect q d with
    | Err e => Some (Err e)
    | Ok p =>
      if is_empty (pg_NextCursor p) then Some (Ok (pg_Items p))
      else match all_pages fuel clock dialect (with_cursor (pg_NextCursor p) q) d with
      | Some (Ok rest) => Some (Ok (pg_Items p ++ rest))
      | other => other
      end
    end
  end.

Lemma ahead_after q s d pre x l :
  keyed (jobs d) → ahead q s None d = pre ++ x :: l → ahead q s (Some (cursorAfter s x)) d = l.
Proof.
  intros Hk Hfull.
  assert (ahead q s None d = listing s (listed q s d) d) as Hall.
  { unfold ahead, listing. f_equal. apply select_jobs_ext. intros r. apply andb_true_r. }
  unfold ahead. rewrite listing_filter, <-Hall by done.
  assert (∀ r, r ∈ ahead q s None d → s = JobSortFinished → is_Some (j_FinalizedAt r)) as Hfin.
  { intros r Hr ->. rewrite Hall, listing_elem in Hr by done. destruct Hr as (_ & _ & Hr).
    unfold listed in Hr. rewrite bool_decide_true in Hr by done. apply andb_true_iff in Hr as [_ Hr].
    by apply bool_decide_eq_true in Hr. }
  rewrite (filter_iff_in _ (λ r, negb (bool_decide (sort_le s r x)) = true)).
  - rewrite Hfull. apply filter_after; rewrite <-Hfull, Hall; [apply listing_sorted|by apply listing_NoDup].
  - intros r Hr. rewrite past_cursorAfter; [done|]. intros ->. split; apply Hfin; try done.
    rewrite Hfull. set_solver.
Qed.

Lemma validate_next q s c0 raw c :
  validateJobSort q = Ok (s, c0) → raw ≠ "" → decodeQueryCursor raw s = Ok c →
  validateJobSort (with_cursor raw q) = Ok (s, Some c).
Proof.
  intros Hv Hraw Hd. unfold validateJobSort in *. simpl.
  unfold is_empty at 1. rewrite (bool_decide_false (raw = "")) by done.
  destruct (match (match q_Sort q with JobSortOther "" => _ | s => s end) with JobSortNewest => None | _ => _ end) eqn:E; [done|].
  assert (match q_Sort q with JobSortOther "" => JobSortNewest | s => s end = s) as Hs.
  { destruct (is_empty (q_Cursor q)); [by simplify_eq|]. destruct (decodeQueryCursor _ _); simpl in Hv; by simplify_eq. }
  rewrite Hs in E |- *. by rewrite Hd.
Qed.

Lemma pages_walk clock dialect q s d :
  db_wf d → jobs d !! "" = None → validateJobFilter clock q dialect = None →
  (∀ r, r ∈ ahead q s None d → is_Some (marshalCursor (cursorAfter s r))) →
  ∀ fuel raw c pre, validateJobSort (with_cursor raw q) = Ok (s, c) →
    ahead q s None d = pre ++ ahead q s c d → length (ahead q s c d) < fuel →
    all_pages fuel clock dialect (with_cursor raw q) d = Some (Ok (jobListItemFromRow d <$> ahead q s c d)).
Proof.
  intros Hwf Hno Hf Henc. pose proof (wf_keyed _ Hwf) as Hk.
  induction fuel as [|fuel IH]; intros raw c pre Hv Hfull Hlen; [lia|]. simpl.
  rewrite (QueryJobs_page clock dialect (with_cursor raw q) s c d Hk Hf Hv).
  change (ahead (with_cursor raw q) s c d) with (ahead q s c d).
  change (q_Limit (with_cursor raw q)) with (q_Limit q).
  pose proof (readLimit_pos q) as Hpos. set (limit := Z.to_nat _) in *. set (F := ahead q s c d) in *.
  destruct (Nat.leb_spec (length F) limit) as [Hle|Hgt]; [done|].
  destruct (lookup_lt_is_Some_2 F (limit - 1)) as [x Hx]; [lia|]. rewrite Hx.
  assert (F = take (limit - 1) F ++ x :: drop limit F) as HF.
  { replace (drop limit F) with (drop (S (limit - 1)) F) by (f_equal; lia). by rewrite take_drop_middle. }
  assert (x ∈ ahead q s None d) as Hin by (rewrite Hfull; apply elem_of_app; right; by eapply list_elem_of_lookup_2).
  destruct (Henc x Hin) as [body Hb].
  assert (encodeQueryCursor (cursorAfter s x) = Ok (queryCursorPrefix +:+ RawURL_EncodeToString body)) as He
    by (unfold encodeQueryCursor; by rewrite Hb).
  assert (jobs d !! j_ID x = Some x ∧ listed q s d x = true) as [Hrow Hlisted].
  { unfold ahead in Hin. rewrite listing_elem, andb_true_iff in Hin by done. tauto. }
  rewrite He. simpl pg_NextCursor. simpl pg_Items. cbn [mbind].
  destruct (decode_encode _ _ He) as [Hraw Hdec].
  { simpl. intros E. congruence. }
  { unfold listed in Hlisted. destruct s; simpl; try done. intros _ E. rewrite E in Hlisted.
    rewrite bool_decide_true in Hlisted by done. by rewrite andb_false_r in Hlisted. }
  specialize (Hdec s). simpl qc_Sort in Hdec. rewrite bool_decide_true in Hdec by done.
  pose proof (validate_next (with_cursor raw q) _ _ _ _ Hv Hraw Hdec) as Hv'.
  change (with_cursor ?r (with_cursor raw q)) with (with_cursor r q) in Hv' |- *.
  assert (ahead q s (Some (cursorAfter s x)) d = drop limit F) as Hnext.
  { apply (ahead_after q s d (pre ++ take (limit - 1) F)); [done|]. by rewrite Hfull, <-app_assoc, <-HF. }
  simpl. rewrite (IH _ _ (pre ++ take limit F) Hv').
  - rewrite Hnext, <-fmap_app, take_drop. done.
  - by rewrite Hnext, <-app_assoc, take_drop.
  - rewrite Hnext, length_drop. lia.
Qed.

Lemma listed_matches q s c d id r :
  db_wf d → validateJobSort q = Ok (s, c) → jobs d !! id = Some r → listed q s d r = applyJobFilter q d r.
Proof.
  intros Hwf Hv Hr. unfold listed. case_bool_decide as Hs; [|by rewrite andb_true_r].
  destruct (applyJobFilter q d r) eqn:Em; [|done]. simpl. apply bool_decide_eq_true.
  destruct (sort_states _ _ _ Hv Hs) as [Hne Hterm].
  unfold applyJobFilter, filter_states, when_list in Em. apply andb_true_iff in Em as [Em _].
  destruct (q_States q) as [|s0 l] eqn:El; [done|]. rewrite <-El in *.
  apply bool_decide_eq_true, distinctStates_elem, Hterm in Em.
  pose proof (row_final _ (wf_rows _ Hwf _ _ Hr)) as Hfin. unfold final_wf in Hfin. by rewrite Em in Hfin.
Qed.


(** A count is exact up to the cap, and past it the cap with a larger estimate: it
    counts what the pages list. *)
Theorem count_is_exact_to_cap clock dialect estimate q cap d :
  validateJobFilter clock q dialect = None →
  let countCap := Z.min (if (cap <=? 0)%Z then DefaultCountCap else cap) MaxCountCap in
  let matched := count_jobs (applyJobFilter q d) d in
  CountJobsWithOptions clock dialect estimate q cap d =
  if (matched <=? countCap)%Z then Ok {| jc_N := matched; jc_Capped := false; jc_Estimate := 0 |}
  else Ok {| jc_N := countCap; jc_Capped := true;
             jc_Estimate := if bool_decide (dialect = "postgres") then Z.max estimate (countCap + 1) else 0 |}.
Proof.
  intros Hf countCap matched. unfold CountJobsWithOptions. rewrite Hf. fold countCap.
  assert (0 < countCap)%Z as Hpos.
  { unfold countCap, DefaultCountCap, MaxCountCap. destruct (Z.leb_spec cap 0); lia. }
  assert (matched = Z.of_nat (length (select_jobs (applyJobFilter q d) d))) as Hm.
  { unfold matched, count_jobs, select_jobs. by rewrite scan_perm. }
  rewrite length_take. destruct (Z.leb_spec matched countCap) as [Hle|Hgt].
  - assert (Z.of_nat (Z.to_nat (countCap + 1) `min` length (select_jobs (applyJobFilter q d) d)) = matched)%Z as -> by lia.
    by rewrite (proj2 (Z.leb_le _ _)) by lia.
  - by rewrite (proj2 (Z.leb_gt _ _)) by lia.
Qed.
End pages.
