(* ===== verification/Bulk.v ===== *)
(** * Bulk controls: internal/core/bulk.go

    BulkJobs applies one action to every job a filter or a list of ids selects, or
    with DryRun counts what it would do. [newBulkRun] refuses a spec it can't run;
    the walk goes by id in batches, [preview] classifying a dry run's batch and
    [applyBatch] changing one in a transaction: re-read through the selection under
    a lock, classify by what it reads then, UPDATE or DELETE exactly the rows still
    selected, fire the barriers a cancel completed, and write one entry each. What
    other connections commit meanwhile is the [interference] argument. *)

From stdpp Require Import countable.
From S2P Require Import Prelude Types Text Fingerprint Store Insert Barrier Claim Sweep Controls Retention Batch Replay Query.

(** ** Actions, reasons, specs and results *)

Inductive BulkAction :=
| BulkCancel | BulkRetry | BulkDelete | BulkReschedule | BulkPause | BulkResume | BulkOther (s : string).
#[global] Instance BulkAction_eq_dec : EqDecision BulkAction.
Proof. solve_decision. Defined.
Definition bulkActions : list BulkAction :=
  [BulkCancel; BulkRetry; BulkDelete; BulkReschedule; BulkPause; BulkResume].

Inductive BulkSkipReason :=
| BulkSkipRunning | BulkSkipTerminal | BulkSkipNotTerminal | BulkSkipState | BulkSkipActiveKey.
#[global] Instance BulkSkipReason_eq_dec : EqDecision BulkSkipReason.
Proof. solve_decision. Defined.
#[global] Instance BulkSkipReason_countable : Countable BulkSkipReason.
Proof.
  refine (inj_countable'
    (λ s, match s with BulkSkipRunning => 0 | BulkSkipTerminal => 1 | BulkSkipNotTerminal => 2
                  | BulkSkipState => 3 | BulkSkipActiveKey => 4 end)%nat
    (λ n, match n with 0 => BulkSkipRunning | 1 => BulkSkipTerminal | 2 => BulkSkipNotTerminal
                  | 3 => BulkSkipState | _ => BulkSkipActiveKey end)%nat _).
  by intros [].
Defined.
#[global] Instance JobState_countable : Countable JobState.
Proof.
  refine (inj_countable'
    (λ s, match s with
          | StateAvailable => inl 0 | StateRunning => inl 1 | StateRetryable => inl 2
          | StateScheduled => inl 3 | StatePaused => inl 4 | StateSucceeded => inl 5
          | StateCancelled => inl 6 | StateDiscarded => inl 7 | StateOther s => inr s end)%nat
    (λ e, match e with
          | inl 0 => StateAvailable | inl 1 => StateRunning | inl 2 => StateRetryable
          | inl 3 => StateScheduled | inl 4 => StatePaused | inl 5 => StateSucceeded
          | inl 6 => StateCancelled | inl _ => StateDiscarded | inr s => StateOther s end)%nat _).
  by intros [].
Defined.

Definition DefaultBulkMaxJobs : Z := 10000.
Definition MaxBulkJobs : Z := 100000.
Definition defaultBulkBatchSize : Z := 500.
Definition maxBulkBatchSize : Z := 5000.
Definition bulkSampleSize : nat := 20.

Record BulkSpec := {
  bk_Query : JobQuery; bk_IDs : list string; bk_Action : BulkAction; bk_DryRun : bool; bk_MaxJobs : Z;
  bk_BatchSize : Z; bk_After : string; bk_MaxID : string; bk_OperationID : string;
  bk_RescheduleAt : Z; bk_Retry : RetryOpts; bk_Stagger : Z
}.

Record BulkResult := {
  bu_Matched : Z; bu_MatchedCapped : bool; bu_Changed : Z; bu_Skipped : gmap BulkSkipReason Z;
  bu_ByState : gmap JobState Z; bu_ByKind : gmap string Z; bu_Sample : list JobView; bu_Batches : Z;
  bu_Done : bool; bu_ResumeAfter : string
}.
Definition zero_bulk : BulkResult :=
  {| bu_Matched := 0; bu_MatchedCapped := false; bu_Changed := 0; bu_Skipped := ∅; bu_ByState := ∅;
     bu_ByKind := ∅; bu_Sample := []; bu_Batches := 0; bu_Done := false; bu_ResumeAfter := "" |}.

(** The resolved spec. [br_ids] is [] where the code's ids is nil. *)
Record bulkRun := {
  br_spec : BulkSpec; br_actor : Actor; br_maxJobs : nat; br_batchSize : nat; br_ids : list string;
  br_sources : list JobState; br_now : Z
}.
(** The walk's state. *)
Record bulkState := {
  st_result : BulkResult; st_cursor : string; st_passed : nat; st_next : nat; st_taken : list string;
  st_fired : list string; st_sample : list string
}.

(** One job a batch read, with the flags a forced retry reads. *)
Record bulkCandidate := { bc_row : jobRow; bc_Held : bool; bc_AttemptRuns : bool }.
Definition bc_ID (c : bulkCandidate) : string := j_ID (bc_row c).
Definition bc_State (c : bulkCandidate) : JobState := j_State (bc_row c).

(** ** Validation *)

(** slices.Compact of a list. *)
Fixpoint Compact (l : list string) : list string :=
  match l with
  | x :: ((y :: _) as rest) => if bool_decide (x = y) then Compact rest else x :: Compact rest
  | l => l
  end.
Definition sortedUnique (ids : list string) : list string := Compact (merge_sort bytes_le ids).

Definition zero_retry : RetryOpts :=
  {| ro_Force := false; ro_AllowRunning := false; ro_ResetAttempts := false; ro_Budget := 0; ro_Delay := 0 |}.
#[global] Instance RetryOpts_eq_dec : EqDecision RetryOpts.
Proof. solve_decision. Defined.

Definition validateBulkOptions (s : BulkSpec) : option error :=
  let does a := bool_decide (bk_Action s = a) in
  first_error [
    refuse (does BulkReschedule && is_zero_time (bk_RescheduleAt s)) (ValidationError "reschedule_at");
    refuse (negb (does BulkReschedule) && negb (is_zero_time (bk_RescheduleAt s))) (ValidationError "reschedule_at");
    refuse (negb (does BulkRetry) && negb (bool_decide (bk_Retry s = zero_retry))) (ValidationError "retry");
    refuse (negb (does BulkRetry) && negb (does BulkReschedule) && negb (bk_Stagger s =? 0)%Z)
      (ValidationError "stagger")].

Definition bulkSources (s : BulkSpec) : list JobState :=
  match bk_Action s with
  | BulkRetry => retryStateStrings {| ro_Force := ro_Force (bk_Retry s); ro_AllowRunning := false;
                                      ro_ResetAttempts := false; ro_Budget := 0; ro_Delay := 0 |}
  | BulkDelete => TerminalStates
  | BulkPause => [StateAvailable; StateRetryable; StateScheduled]
  | BulkResume => [StatePaused]
  | _ => waitingStates
  end.

Definition bulk_maxJobs (s : BulkSpec) : Z := if (bk_MaxJobs s =? 0)%Z then DefaultBulkMaxJobs else bk_MaxJobs s.
Definition bulk_batchSize (s : BulkSpec) : Z :=
  if (bk_BatchSize s <=? 0)%Z then defaultBulkBatchSize
  else if (maxBulkBatchSize <? bk_BatchSize s)%Z then maxBulkBatchSize else bk_BatchSize s.

Definition newBulkRun `{GoLib} (cc : control) (dialect : string) (s : BulkSpec) : res bulkRun :=
  let? actor := resolveActor cc in
  if negb (bool_decide (bk_Action s ∈ bulkActions)) then Err (ValidationError "action")
  else if (bk_MaxJobs s <? 0)%Z || (MaxBulkJobs <? bk_MaxJobs s)%Z then Err (ValidationError "max_jobs")
  else
    let ids := sortedUnique (bk_IDs s) in
    let filtered := jobQueryFilters (bk_Query s) in
    if (bulk_maxJobs s <? Z.of_nat (length ids))%Z then Err (ValidationError "ids")
    else if bool_decide (ids ≠ []) && filtered then Err (ValidationError "ids")
    else match validateBulkOptions s with
    | Some e => Err e
    | None =>
      match validateJobFilter (c_Now (cc_ctx cc)) (bk_Query s) dialect with
      | Some e => Err e
      | None =>
        if negb filtered && bool_decide (ids = []) then Err ErrBulkUnbounded
        else Ok {| br_spec := s; br_actor := actor; br_maxJobs := Z.to_nat (bulk_maxJobs s);
                   br_batchSize := Z.to_nat (bulk_batchSize s); br_ids := ids;
                   br_sources := bulkSources s; br_now := c_Now (cc_ctx cc) 3 |}
      end
    end.

(** ** Classification *)

Definition forced (run : bulkRun) : bool :=
  bool_decide (bk_Action (br_spec run) = BulkRetry) && ro_Force (bk_Retry (br_spec run)).

(** [skipReason]: [None] when the action changes the job. *)
Definition skipReason (run : bulkRun) (c : bulkCandidate) : option BulkSkipReason :=
  if state_in (bc_State c) (br_sources run) then
    if forced run && bool_decide (bc_State c = StateCancelled) && bc_AttemptRuns c
    then Some BulkSkipRunning else None
  else if bool_decide (bc_State c = StateRunning) then Some BulkSkipRunning
  else if isTerminalStateString (bc_State c) then Some BulkSkipTerminal
  else if bool_decide (bk_Action (br_spec run) = BulkDelete) then Some BulkSkipNotTerminal
  else Some BulkSkipState.

Definition keyRuled (run : bulkRun) (c : bulkCandidate) : bool :=
  bool_decide (is_Some (j_UniqueActiveKey (bc_row c))) && isTerminalStateString (bc_State c) &&
  bool_decide (skipReason run c = None).

(** The ids the key rule lets go live. *)
Definition live_ids (run : bulkRun) (taken : list string) (rows : list bulkCandidate) : list string :=
  liveReplayCandidates
    ((λ c, {| rc_ID := bc_ID c; rc_UniqueActiveKey := j_UniqueActiveKey (bc_row c);
              rc_Held := bc_Held c || has_taken taken (bc_row c) |})
     <$> filter (λ c, keyRuled run c = true) rows).

(** [classify]'s verdict on one job of a batch. *)
Definition verdict (run : bulkRun) (live : list string) (c : bulkCandidate) : option BulkSkipReason :=
  match skipReason run c with
  | None => if forced run && keyRuled run c && negb (str_mem (bc_ID c) live)
            then Some BulkSkipActiveKey else None
  | reason => reason
  end.
Definition classify (run : bulkRun) (taken : list string) (rows : list bulkCandidate)
  : list bulkCandidate * list BulkSkipReason :=
  let live := if forced run then live_ids run taken rows else [] in
  (filter (λ c, verdict run live c = None) rows, omap (verdict run live) rows).

(** m[k]++ *)
Definition bump `{Countable K} (m : gmap K Z) (k : K) : gmap K Z := <[k := (default 0 (m !! k) + 1)%Z]> m.
(** The result after [tally], with [n] more changed. *)
Definition tally (rows : list bulkCandidate) (skips : list BulkSkipReason) (n : nat) (batch : bool)
    (r : BulkResult) : BulkResult :=
  {| bu_Matched := bu_Matched r; bu_MatchedCapped := bu_MatchedCapped r;
     bu_Changed := bu_Changed r + Z.of_nat n;
     bu_Skipped := foldl bump (bu_Skipped r) skips;
     bu_ByState := foldl bump (bu_ByState r) (bc_State <$> rows);
     bu_ByKind := foldl bump (bu_ByKind r) ((λ c, j_Kind (bc_row c)) <$> rows);
     bu_Sample := bu_Sample r; bu_Batches := if batch then bu_Batches r + 1 else bu_Batches r;
     bu_Done := bu_Done r; bu_ResumeAfter := bu_ResumeAfter r |}%Z.

(** [take]: the keys the changed jobs put live. *)
Definition take_keys (run : bulkRun) (changed : list bulkCandidate) (taken : list string) : list string :=
  if forced run then omap (λ c, j_UniqueActiveKey (bc_row c)) changed ++ taken else taken.

(** ** The selection *)

Section bulk.
Context `{GoLib} `{QueryLib} `{Foundation} `{RowOrder}.

(** [selection]: the filter, or the chunk of ids; past After, at or below MaxID. *)
Definition selection (run : bulkRun) (chunk : list string) (d : db) (r : jobRow) : bool :=
  let s := br_spec run in
  (match br_ids run with
   | [] => applyJobFilter (bk_Query s) d r
   | _ => str_mem (j_ID r) chunk
   end) && past (bk_After s) (j_ID r) && when_text (bk_MaxID s) (bool_decide (bytes_le (j_ID r) (bk_MaxID s))).

(** [candidates]: the jobs of [ids] still selected. *)
Definition candidates (run : bulkRun) (ids : list string) (d : db) (r : jobRow) : bool :=
  match br_ids run with
  | [] => selection run [] d r && str_mem (j_ID r) ids
  | _ => selection run ids d r
  end.

(** The sub-select of a count: up to [limit] rows. *)
Definition upTo (limit : nat) (P : jobRow → bool) (d : db) : nat := length (take limit (select_jobs P d)).
(** The chunked count of [countSelection] over ids. *)
Fixpoint count_chunks (fuel : nat) (run : bulkRun) (limit : nat) (ids : list string) (total : nat) (d : db) : nat :=
  match fuel, ids with
  | S fuel, _ :: _ =>
    if total <? limit
    then count_chunks fuel run limit (drop (br_batchSize run) ids)
           (total + upTo limit (selection run (take (br_batchSize run) ids) d) d) d
    else total
  | _, _ => total
  end.
Definition countSelection (run : bulkRun) (d : db) : nat :=
  let limit := S (br_maxJobs run) in
  match br_ids run with
  | [] => upTo limit (selection run [] d) d
  | ids => count_chunks (length ids) run limit ids 0 d
  end.

(** ** Reading a batch *)

(** [continuation]: the job is the barrier continuation of a parent this run fired. *)
Definition continuation (fired : list string) (r : jobRow) : bool :=
  match j_UniqueKey r with Some k => str_mem k fired | None => false end.

(** A row with the flags of a forced retry, when [flags] asks for them. *)
Definition read_row (flags : bool) (d : db) (r : jobRow) : bulkCandidate :=
  {| bc_row := r; bc_Held := flags && activeKeyHeld d r;
     bc_AttemptRuns := flags && cancelledAttemptStillRuns d r |}.

Record bulkBatch := { bb_rows : list bulkCandidate; bb_last : string; bb_end : bool; bb_next : nat }.

Definition readBatch (run : bulkRun) (st : bulkState) (limit : nat) (flags : bool) (d : db) : bulkBatch :=
  let keep rows := read_row flags d <$> filter (λ r, continuation (st_fired st) r = false) rows in
  match br_ids run with
  | [] =>
    let rows := id_page (selection run [] d) (st_cursor st) limit d in
    {| bb_rows := keep rows;
       bb_last := match last rows with Some m => j_ID m | None => st_cursor st end;
       bb_end := length rows <? limit; bb_next := st_next st |}
  | ids =>
    let chunk := take limit (drop (st_next st) ids) in
    let rows := page id_le limit (select_jobs (selection run chunk d) d) in
    {| bb_rows := keep rows; bb_last := default (st_cursor st) (last chunk);
       bb_end := length ids <=? st_next st + length chunk; bb_next := st_next st + length chunk |}
  end.

(** [probe]: a match past the cursor other than a continuation the run enqueued. *)
Fixpoint probe_from (fuel : nat) (run : bulkRun) (fired : list string) (after : string) (d : db) : option bool :=
  match fuel with
  | O => None
  | S fuel =>
    let rows := page id_le (br_batchSize run)
      (select_jobs (λ r, selection run [] d r && negb (bool_decide (bytes_le (j_ID r) after))) d) in
    if existsb (λ r, negb (continuation fired r)) rows then Some true
    else if length rows <? br_batchSize run then Some false
    else match last rows with Some m => probe_from fuel run fired (j_ID m) d | None => Some false end
  end.
Definition probe (fuel : nat) (run : bulkRun) (st : bulkState) (d : db) : option bool :=
  match br_ids run with [] => probe_from fuel run (st_fired st) (st_cursor st) d | _ => Some false end.

(** ** Writing a batch *)

(** [base] and [dueAt]. *)
Definition bulk_base (run : bulkRun) : Z :=
  let s := br_spec run in
  if bool_decide (bk_Action s = BulkReschedule) then bk_RescheduleAt s else (br_now run + ro_Delay (bk_Retry s))%Z.
Definition dueAt (run : bulkRun) (matched i : Z) : Z :=
  let s := br_spec run in
  if (bk_Stagger s <=? 0)%Z || (matched <=? 0)%Z then bulk_base run
  else (bulk_base run + slot_offset (bk_Stagger s) matched i)%Z.

Definition bulk_retry (run : bulkRun) : RetryOpts := no_running (bk_Retry (br_spec run)).

(** [updates]: the columns an action writes to a row. *)
Definition bulk_cols (run : bulkRun) (matched : Z) (passed : nat) (slots : list string) (now : Z) (r : jobRow)
  : list jobCol :=
  let due := scheduledAtValue slots (bulk_base run) (bk_Stagger (br_spec run)) matched (Z.of_nat passed) r in
  match bk_Action (br_spec run) with
  | BulkCancel => [ColState StateCancelled; ColLeasedUntil None; ColLeaseToken None;
                   ColFinalizedAt (Some now); ColUpdatedAt now]
  | BulkRetry => retryUpdates now (bulk_retry run) ++ [ColScheduledAt due]
  | BulkReschedule => [ColScheduledAt due; ColUpdatedAt now]
  | BulkPause => [ColState StatePaused; ColUpdatedAt now]
  | _ => [ColState StateAvailable; ColUpdatedAt now]
  end.

(** The UPDATE's guard. *)
Definition bulk_guard (run : bulkRun) (ids : list string) (d : db) (r : jobRow) : bool :=
  candidates run ids d r && state_in (j_State r) (br_sources run) &&
  (if forced run then negb (activeKeyHeld d r) && negb (cancelledAttemptStillRuns d r) else true).

Definition bulk_write (run : bulkRun) (matched : Z) (passed : nat) (change : list bulkCandidate)
    (slots : list string) (now : Z) (d : db) : res (list string * db) :=
  let ids := bc_ID <$> change in
  if bool_decide (bk_Action (br_spec run) = BulkDelete) then
    let '(deleted, d1) := deleteJobRows ids d in
    if (deleted =? Z.of_nat (length ids))%Z then Ok (ids, d1) else Err ErrDeletedFewer
  else updateJobsReturningIDs (bulk_guard run ids d) (bulk_cols run matched passed slots now) d.

Definition rowsIn (rows : list bulkCandidate) (ids : list string) : list bulkCandidate :=
  filter (λ c, str_mem (bc_ID c) ids = true) rows.

(** [fireParentsBarriers]: each distinct parent once, in id order; [n] numbers the
    rows the continuations mint. *)
Fixpoint fire_parents (ctx : context) (n : nat) (parents : list string) (d : db) : res (list string * db) :=
  match parents with
  | [] => Ok ([], d)
  | p :: parents =>
    let? ' (ok, d1) := fireBarrierIfComplete ctx n p "" d in
    let? ' (fired, d2) := fire_parents ctx (S n) parents d1 in
    Ok (if ok then p :: fired else fired, d2)
  end.
Definition fireParentsBarriers (ctx : context) (n : nat) (cancelled : list bulkCandidate) (d : db)
  : res (list string * db) :=
  fire_parents ctx n (sortedUnique (omap (λ c, j_ParentJobID (bc_row c)) cancelled)) d.

(** [bulkAuditAction] and [auditChanges]. *)
Definition bulkAuditAction (a : BulkAction) : string :=
  match a with
  | BulkCancel => AuditCancelled | BulkRetry => AuditRetried | BulkDelete => AuditDeleted
  | BulkReschedule => AuditRescheduled | BulkPause => AuditPaused | _ => AuditResumed
  end.
Definition bulkDetails (run : bulkRun) (matched : Z) (passed : nat) (slots : list string) (c : bulkCandidate)
  : gmap string detail :=
  let from : gmap string detail := {["from_state" := DState (bc_State c)]} in
  let own : gmap string detail :=
    match bk_Action (br_spec run) with
    | BulkRetry => retryDetails (bc_State c) (bulk_retry run)
    | BulkCancel => <["was_running" := DBool false]> from
    | BulkDelete => <["kind" := DText (j_Kind (bc_row c))]> (<["state" := DState (bc_State c)]> from)
    | BulkReschedule =>
      let slot := match list_find (λ id, id = bc_ID c) slots with Some (k, _) => k | None => 0 end in
      <["from" := DTime (j_ScheduledAt (bc_row c))]>
        (<["to" := DTime (dueAt run matched (Z.of_nat (passed + slot)))]> from)
    | _ => from
    end in
  <["via" := DText "bulk"]> (<["operation_id" := DText (bk_OperationID (br_spec run))]> own).
Definition auditChanges (run : bulkRun) (matched : Z) (passed : nat) (changed : list bulkCandidate)
    (slots : list string) : list auditChange :=
  (λ c, {| ch_target := AuditTargetJob; ch_targetID := bc_ID c;
           ch_action := bulkAuditAction (bk_Action (br_spec run));
           ch_details := bulkDetails run matched passed slots c |}) <$> changed.

Record bulkApplied := {
  ba_rows : list bulkCandidate; ba_skips : list BulkSkipReason; ba_changed : list bulkCandidate;
  ba_fired : list string
}.

(** [lockCandidates]. *)
Definition lockCandidates (run : bulkRun) (ids : list string) (d : db) : list bulkCandidate :=
  read_row (forced run) d <$> merge_sort id_le (select_jobs (candidates run ids d) d).

(** [applyBatch], one attempt: [d] is the tables when its batch was read. *)
Definition applyBatch (cc : control) (iv : interference) (run : bulkRun) (st : bulkState) (ids : list string)
    (d : db) : res bulkApplied * db :=
  let d1 := iv_lock iv d in
  let d2 := iv_update iv d1 in
  let matched := bu_Matched (st_result st) in
  match iv_fail iv with
  | Some e => (Err e, d2)
  | None =>
    let locked := lockCandidates run ids d1 in
    let '(change, skips) := classify run (st_taken st) locked in
    match change with
    | [] => (Ok {| ba_rows := locked; ba_skips := skips; ba_changed := []; ba_fired := [] |}, d1)
    | _ =>
      let now := c_Now (cc_ctx cc) 0 in
      let attempt : res (bulkApplied * db) :=
        let? ' (moved, d3) := bulk_write run matched (st_passed st) change ids now d2 in
        let changed := rowsIn locked moved in
        let? ' (fired, d4) :=
          if bool_decide (bk_Action (br_spec run) = BulkCancel)
          then fireParentsBarriers (hookless (cc_ctx cc)) (length ids) changed d3 else Ok ([], d3) in
        let? d5 := recordAudit cc (br_actor run) now
                     (auditChanges run matched (st_passed st) changed ids) d4 in
        Ok ({| ba_rows := locked; ba_skips := skips; ba_changed := changed; ba_fired := fired |}, d5) in
      match attempt with Ok (out, d5) => (Ok out, d5) | Err e => (Err e, d2) end
    end
  end.

(** [apply]'s reruns: [more] attempts are allowed after a retryable failure.
    Returns the number of the next attempt too. *)
Fixpoint apply_attempts (more : nat) (ccs : nat → control) (ivs : nat → interference) (run : bulkRun)
    (st : bulkState) (ids : list string) (k : nat) (d : db) : res bulkApplied * db * nat :=
  match applyBatch (ccs k) (ivs k) run st ids d with
  | (Ok out, d1) => (Ok out, d1, S k)
  | (Err e, d1) =>
    match more with
    | S more => if retryableBatchError e then apply_attempts more ccs ivs run st ids (S k) d1
                else (Err e, d1, S k)
    | O => (Err e, d1, S k)
    end
  end.

(** ** The walk *)

(** The last [bulkSampleSize] ids a dry run would change. *)
Definition push_sample (sample : list string) (id : string) : list string :=
  (if length sample =? bulkSampleSize then tail sample else sample) ++ [id].

(** The walk's state after a batch: what was tallied, [n] of it changed. *)
Definition after_batch (run : bulkRun) (st : bulkState) (b : bulkBatch) (rows : list bulkCandidate)
    (skips : list BulkSkipReason) (changed : list bulkCandidate) (fired sampled : list string) (wrote : bool)
  : bulkState :=
  {| st_result := tally rows skips (length changed) wrote (st_result st); st_cursor := bb_last b;
     st_passed := st_passed st + length (bb_rows b); st_next := bb_next b;
     st_taken := take_keys run changed (st_taken st);
     st_fired := (barrierKey <$> fired) ++ st_fired st;
     st_sample := foldl push_sample (st_sample st) sampled |}.

(** An apply of the batch it read: [apply], then where the walk continues. *)
Definition apply_read (ccs : nat → control) (ivs : nat → interference) (run : bulkRun) (st : bulkState)
    (b : bulkBatch) (k : nat) (d : db) : res bulkState * db * nat :=
  match bb_rows b with
  | [] => (Ok (after_batch run st b [] [] [] [] [] false), d, S k)
  | rows =>
    match apply_attempts replayBatchRetries ccs ivs run st (bc_ID <$> rows) k d with
    | (Err e, d1, k') => (Err e, d1, k')
    | (Ok out, d1, k') =>
      (Ok (after_batch run st b (ba_rows out) (ba_skips out) (ba_changed out) (ba_fired out) []
             (0 <? length (ba_changed out))%nat), d1, k')
    end
  end.

(** [preview]. *)
Definition preview (run : bulkRun) (st : bulkState) (b : bulkBatch) : bulkState :=
  let '(change, skips) := classify run (st_taken st) (bb_rows b) in
  after_batch run st b (bb_rows b) skips change [] (bc_ID <$> change) false.

(** [snapshot], with Done and the sample set. *)
Definition snapshot (st : bulkState) (done : bool) (sample : list JobView) : BulkResult :=
  let r := st_result st in
  {| bu_Matched := bu_Matched r; bu_MatchedCapped := bu_MatchedCapped r; bu_Changed := bu_Changed r;
     bu_Skipped := bu_Skipped r; bu_ByState := bu_ByState r; bu_ByKind := bu_ByKind r;
     bu_Sample := sample; bu_Batches := bu_Batches r; bu_Done := done; bu_ResumeAfter := st_cursor st |}.

(** [readSample]: the newest first. *)
Definition readSample (st : bulkState) (d : db) : list JobView :=
  jobViewFromRow <$> reverse (merge_sort id_le (select_jobs (id_in (st_sample st)) d)).

Definition stop (st : bulkState) (e : error) (d : db) : option (BulkResult * option error * db) :=
  Some (snapshot st false [], Some e, d).
Definition finish (st : bulkState) (done : bool) (d : db) : option (BulkResult * option error * db) :=
  Some (snapshot st done (readSample st d), None, d).

(** The loop: [k] counts attempts and [n] batches; the context is read before each
    batch ([2n]) and after a failed one ([2n+1]). [None] is fuel spent. *)
Fixpoint walk_loop (fuel : nat) (ccs : nat → control) (ivs : nat → interference) (cancelled : nat → bool)
    (run : bulkRun) (st : bulkState) (k n : nat) (d : db) : option (BulkResult * option error * db) :=
  match fuel with
  | O => None
  | S fuel =>
    let dry := bk_DryRun (br_spec run) in
    if cancelled (2 * n) then stop st ErrContext d
    else
      let d0 := iv_read (ivs k) d in
      match (br_batchSize run `min` (br_maxJobs run - st_passed st))%nat with
      | O =>
        if dry then finish st (negb (bu_MatchedCapped (st_result st))) d0
        else match probe (S (size (jobs d0))) run st d0 with
        | None => None
        | Some true => stop st ErrBulkTooLarge d0
        | Some false => finish st true d0
        end
      | limit =>
        let b := readBatch run st limit (dry && forced run) d0 in
        let next st' k' d' :=
          if bb_end b then finish st' true d'
          else walk_loop fuel ccs ivs cancelled run st' k' (S n) d' in
        if dry then next (preview run st b) (S k) d0
        else match apply_read ccs ivs run st b k d0 with
        | (Err e, d1, _) => stop st (if cancelled (2 * n + 1) then ErrContext else e) d1
        | (Ok st', d1, k') => next st' k' d1
        end
      end
  end.

(** The state a walk starts in, once the selection is counted. *)
Definition start_state (run : bulkRun) (matched : nat) : bulkState :=
  {| st_result :=
       {| bu_Matched := Z.of_nat (matched `min` br_maxJobs run);
          bu_MatchedCapped := br_maxJobs run <? matched; bu_Changed := 0; bu_Skipped := ∅;
          bu_ByState := ∅; bu_ByKind := ∅; bu_Sample := []; bu_Batches := 0; bu_Done := false;
          bu_ResumeAfter := "" |};
     st_cursor := bk_After (br_spec run); st_passed := 0; st_next := 0; st_taken := []; st_fired := [];
     st_sample := [] |}.

Definition walk (fuel : nat) (ccs : nat → control) (ivs : nat → interference) (dead : bool)
    (cancelled : nat → bool) (run : bulkRun) (d : db) : option (BulkResult * option error * db) :=
  let matched := countSelection run d in
  if dead then stop {| st_result := zero_bulk; st_cursor := bk_After (br_spec run); st_passed := 0;
                       st_next := 0; st_taken := []; st_fired := []; st_sample := [] |} ErrContext d
  else
    let st := start_state run matched in
    if bu_MatchedCapped (st_result st) && negb (bk_DryRun (br_spec run)) then stop st ErrBulkTooLarge d
    else walk_loop fuel ccs ivs cancelled run st 0 0 d.

Definition BulkJobs (fuel : nat) (ccs : nat → control) (ivs : nat → interference) (dead : bool)
    (cancelled : nat → bool) (dialect : string) (spec : BulkSpec) (d : db)
  : option (BulkResult * option error * db) :=
  match newBulkRun (ccs 0) dialect spec with
  | Err e => Some (zero_bulk, Some e, d)
  | Ok run => walk fuel ccs ivs dead cancelled run d
  end.
End bulk.
