(* ===== verification/BulkWalk.v ===== *)
(** * The bulk walk: what a call adds up to

    The reference is one pass over the selected jobs in id order, [verdicts], which
    decides each job by its state, its flags and the keys the jobs before it took.
    The batched classification is that pass cut in pieces, whether the keys taken so
    far are remembered (a dry run) or already live in the table (an apply), so a
    preview predicts an undisturbed apply whatever the batch size. *)

From S2P Require Import Prelude Types Text Fingerprint Store Insert Barrier Claim Sweep Controls Retention Batch Replay Query Bulk.

Lemma omap_id_fmap {A B} (f : A → option B) (l : list A) : omap id (f <$> l) = omap f l.
Proof. induction l as [|x l IH]; [done|]. csimpl. unfold id in *. destruct (f x); [by f_equal|done]. Qed.

Section reference.
Context (run : bulkRun).

(** The verdict on a row, given whether its key is held or taken. *)
Definition rule (held : bool) (c : bulkCandidate) : option BulkSkipReason :=
  match skipReason run c with
  | None => if forced run && keyRuled run c && held then Some BulkSkipActiveKey else None
  | reason => reason
  end.

Definition add_key (v : option BulkSkipReason) (r : jobRow) (taken : list string) : list string :=
  match v with
  | None => if forced run then option_list (j_UniqueActiveKey r) ++ taken else taken
  | Some _ => taken
  end.

(** One pass: each row's verdict, the keys of the changed rows held for the next. *)
Fixpoint verdicts (d : db) (taken : list string) (l : list jobRow) : list (option BulkSkipReason) :=
  match l with
  | [] => []
  | r :: l =>
    let v := rule (activeKeyHeld d r || has_taken taken r) (read_row (forced run) d r) in
    v :: verdicts d (add_key v r taken) l
  end.

(** The keys taken after a pass. *)
Fixpoint taken_after (d : db) (taken : list string) (l : list jobRow) : list string :=
  match l with
  | [] => taken
  | r :: l =>
    let v := rule (activeKeyHeld d r || has_taken taken r) (read_row (forced run) d r) in
    taken_after d (add_key v r taken) l
  end.

Lemma verdicts_app d taken l1 l2 :
  verdicts d taken (l1 ++ l2) = verdicts d taken l1 ++ verdicts d (taken_after d taken l1) l2.
Proof. revert taken. induction l1 as [|r l1 IH]; intros taken; simpl; [done|]. by rewrite IH. Qed.

Lemma verdicts_length d taken l : length (verdicts d taken l) = length l.
Proof. revert taken. induction l; intros; simpl; auto. Qed.

Lemma has_taken_nil r : has_taken [] r = false.
Proof. unfold has_taken. by destruct (j_UniqueActiveKey r). Qed.
Lemma has_taken_app t1 t2 r : has_taken (t1 ++ t2) r = has_taken t1 r || has_taken t2 r.
Proof. unfold has_taken. destruct (j_UniqueActiveKey r); [apply str_mem_app|done]. Qed.

(** ** A batch's classification is a stretch of the pass *)

(** What the rule reads of a candidate, its held flag aside. *)
Lemma skipReason_flags c c' :
  bc_row c = bc_row c' → (forced run = true → bc_AttemptRuns c = bc_AttemptRuns c') →
  skipReason run c = skipReason run c' ∧ keyRuled run c = keyRuled run c'.
Proof.
  intros Hr Ha. assert (skipReason run c = skipReason run c') as Hs.
  { unfold skipReason, bc_State. rewrite Hr. destruct (state_in _ _); [|done].
    destruct (forced run); [|done]. by rewrite Ha. }
  split; [done|]. unfold keyRuled, bc_State. by rewrite Hs, Hr.
Qed.

Lemma rule_flags held c c' :
  bc_row c = bc_row c' → (forced run = true → bc_AttemptRuns c = bc_AttemptRuns c') → rule held c = rule held c'.
Proof. intros Hr Ha. unfold rule. by destruct (skipReason_flags c c' Hr Ha) as [-> ->]. Qed.

Definition key_candidate (taken : list string) (c : bulkCandidate) : replayCandidate :=
  {| rc_ID := bc_ID c; rc_UniqueActiveKey := j_UniqueActiveKey (bc_row c);
     rc_Held := bc_Held c || has_taken taken (bc_row c) |}.
Definition ruled_ids (t2 taken : list string) (l : list bulkCandidate) : list string :=
  live_candidates t2 (key_candidate taken <$> filter (λ c, keyRuled run c = true) l).

Lemma live_candidates_ids t2 l id : id ∈ live_candidates t2 l → id ∈ rc_ID <$> l.
Proof. intros (c & Hc & <- & _)%live_candidates_free. by apply list_elem_of_fmap_2. Qed.

Lemma keyRuled_key c : keyRuled run c = true → ∃ k, j_UniqueActiveKey (bc_row c) = Some k.
Proof. unfold keyRuled. rewrite !andb_true_iff, bool_decide_eq_true. intros [[[k ?] _] _]. eauto. Qed.

(** The key rule on the head of a batch: it goes live when its key is free. *)
Lemma ruled_ids_cons t2 taken c l :
  NoDup (bc_ID <$> c :: l) →
  (∀ c', c' ∈ l → str_mem (bc_ID c') (ruled_ids t2 taken (c :: l)) =
     str_mem (bc_ID c')
       (ruled_ids (if keyRuled run c && negb (bc_Held c || has_taken taken (bc_row c) || has_taken t2 (bc_row c))
                   then option_list (j_UniqueActiveKey (bc_row c)) ++ t2 else t2) taken l)) ∧
  (keyRuled run c = true →
   str_mem (bc_ID c) (ruled_ids t2 taken (c :: l)) =
   negb (bc_Held c || has_taken taken (bc_row c) || has_taken t2 (bc_row c))).
Proof.
  intros [Hn Hnd]%NoDup_cons. unfold ruled_ids. rewrite filter_cons.
  assert (∀ t, bc_ID c ∉ live_candidates t (key_candidate taken <$> filter (λ c, keyRuled run c = true) l)) as Hout.
  { intros t Hx%live_candidates_ids. rewrite <-list_fmap_compose in Hx. apply Hn.
    eapply elem_of_sublist; [exact Hx|]. apply (fmap_sublist bc_ID), sublist_filter. }
  destruct (keyRuled run c) eqn:Ek; [|split; [|done]].
  2:{ intros c' Hc'. by rewrite decide_False. }
  rewrite decide_True by done. destruct (keyRuled_key c Ek) as [k Hk]. rewrite fmap_cons. cbn [live_candidates].
  simpl. rewrite Hk.
  assert (has_taken t2 (bc_row c) = str_mem k t2) as Ht by (unfold has_taken; by rewrite Hk). rewrite Ht.
  destruct (bc_Held c || has_taken taken (bc_row c) || str_mem k t2) eqn:Eh; simpl.
  - split; [done|]. intros _. apply bool_decide_eq_false, Hout.
  - split.
    + intros c' Hc'. rewrite str_mem_cons, bool_decide_false; [done|]. intros He. apply Hn. rewrite <-He.
      by apply list_elem_of_fmap_2.
    + intros _. rewrite str_mem_cons. by rewrite bool_decide_true.
Qed.

Lemma read_row_row flags d r : bc_row (read_row flags d r) = r.
Proof. done. Qed.
Lemma read_row_ID flags d r : bc_ID (read_row flags d r) = j_ID r.
Proof. done. Qed.

Lemma read_rows_ids flags d (l : list jobRow) : bc_ID <$> (read_row flags d <$> l) = j_ID <$> l.
Proof. by rewrite <-list_fmap_compose. Qed.

(** A live row of the table holds its key against every other. *)
Lemma live_row_holds d r r' k :
  jobs d !! j_ID r = Some r → state_in (j_State r) NonTerminalStates = true →
  j_UniqueActiveKey r = Some k → j_UniqueActiveKey r' = Some k → j_ID r ≠ j_ID r' → activeKeyHeld d r' = true.
Proof. intros. apply activeKeyHeld_true. naive_solver. Qed.

(** A changed row that the key rule does not rule has no key, or is already live. *)
Lemma unruled_changed d r :
  row_wf r → skipReason run (read_row (forced run) d r) = None →
  keyRuled run (read_row (forced run) d r) = false →
  j_UniqueActiveKey r = None ∨ state_in (j_State r) NonTerminalStates = true.
Proof.
  intros Hwf Hs. unfold keyRuled. rewrite Hs. rewrite (bool_decide_true (None = None)), andb_true_r by done.
  unfold bc_State. rewrite read_row_row. destruct (j_UniqueActiveKey r) as [k|]; [|by left].
  rewrite (bool_decide_true (is_Some (Some k))) by done. simpl. intros Ht. right.
  rewrite (terminal_or_live _ (row_state _ Hwf)). by rewrite Ht.
Qed.

Lemma forced_verdicts d taken t2 taken' l :
  db_wf d → forced run = true → NoDup (j_ID <$> l) → (∀ r, r ∈ l → jobs d !! j_ID r = Some r) →
  (∀ r, r ∈ l → activeKeyHeld d r || has_taken taken' r =
                activeKeyHeld d r || has_taken taken r || has_taken t2 r) →
  let rows := read_row (forced run) d <$> l in
  verdict run (ruled_ids t2 taken rows) <$> rows = verdicts d taken' l.
Proof.
  intros Hwf Hfor. revert t2 taken'. induction l as [|r l IH]; intros t2 taken' Hnd Hrows Hheld; [done|].
  cbn [fmap list_fmap verdicts]. set (c := read_row (forced run) d r). set (rows := read_row _ d <$> l).
  assert (bc_Held c = activeKeyHeld d r) as HH by (unfold c; by rewrite Hfor).
  assert (NoDup (bc_ID <$> c :: rows)) as Hndc.
  { rewrite fmap_cons. unfold rows. rewrite read_rows_ids. exact Hnd. }
  destruct (ruled_ids_cons t2 taken c rows Hndc) as [Htail Hhead].
  set (h := activeKeyHeld d r || has_taken taken r || has_taken t2 r) in *.
  assert (activeKeyHeld d r || has_taken taken' r = h) as Hh by (apply Hheld; set_solver).
  assert (bc_Held c || has_taken taken (bc_row c) || has_taken t2 (bc_row c) = h) as Hc by (by rewrite HH).
  rewrite Hc in Htail, Hhead. rewrite Hh.
  assert (verdict run (ruled_ids t2 taken (c :: rows)) c = rule h c) as Hv.
  { unfold verdict, rule. destruct (skipReason run c); [done|]. rewrite Hfor.
    destruct (keyRuled run c) eqn:Ek; [|done]. rewrite (Hhead eq_refl). by destruct h. }
  f_equal; [exact Hv|]. apply NoDup_cons in Hnd as [Hn Hnd].
  set (t2' := if keyRuled run c && negb h then option_list (j_UniqueActiveKey (bc_row c)) ++ t2 else t2) in *.
  transitivity (verdict run (ruled_ids t2' taken rows) <$> rows).
  { apply list_fmap_ext. intros i c' Hc'%list_elem_of_lookup_2. unfold verdict. by rewrite (Htail c' Hc'). }
  apply IH; [done|intros; apply Hrows; set_solver|]. intros r' Hr'.
  assert (j_ID r ≠ j_ID r') as Hne.
  { intros He. apply Hn. rewrite He. by apply list_elem_of_fmap_2. }
  pose proof (Hheld r' ltac:(set_solver)) as Hr2. unfold t2', rule, add_key. rewrite Hfor.
  destruct (skipReason run c) eqn:Es.
  { assert (keyRuled run c = false) as ->; [|done]. unfold keyRuled. by rewrite Es, andb_false_r. }
  destruct (keyRuled run c) eqn:Ek; simpl.
  - destruct h; simpl; [done|]. rewrite !has_taken_app.
    destruct (has_taken (option_list (j_UniqueActiveKey r)) r'); [|done]. by rewrite !orb_true_r.
  - rewrite has_taken_app. destruct (unruled_changed d r) as [Hnk|Hlive]; try done.
    { eapply wf_rows; [done|]. apply (Hrows r). set_solver. }
    { rewrite Hnk. simpl. by rewrite has_taken_nil. }
    destruct (has_taken (option_list (j_UniqueActiveKey r)) r') eqn:Ek'; [|done].
    assert (activeKeyHeld d r' = true) as ->; [|done].
    unfold has_taken in Ek'. destruct (j_UniqueActiveKey r') as [k'|] eqn:E2; [|done].
    destruct (j_UniqueActiveKey r) as [k|] eqn:E1; [|done]. simpl in Ek'.
    apply bool_decide_eq_true, list_elem_of_singleton in Ek' as ->.
    eapply live_row_holds; [apply (Hrows r); set_solver|done..].
Qed.

Lemma unforced_verdicts d taken l :
  forced run = false →
  verdict run [] <$> (read_row (forced run) d <$> l) = verdicts d taken l.
Proof.
  intros Hfor. revert taken. induction l as [|r l IH]; intros taken; [done|]. cbn [fmap list_fmap verdicts].
  assert (∀ held c, verdict run [] c = rule held c) as Hv.
  { intros held c. unfold verdict, rule. by rewrite Hfor. }
  f_equal; [apply Hv|]. rewrite <-IH. done.
Qed.

(** The rows a list of verdicts changes. *)
Fixpoint picked (l : list jobRow) (vs : list (option BulkSkipReason)) : list jobRow :=
  match l, vs with
  | r :: l, None :: vs => r :: picked l vs
  | _ :: l, Some _ :: vs => picked l vs
  | _, _ => []
  end.

Lemma picked_sublist l vs : picked l vs `sublist_of` l.
Proof.
  revert vs. induction l as [|r l IH]; intros [|[v|] vs]; simpl; try apply sublist_nil_l.
  - by apply sublist_cons.
  - by apply sublist_skip.
Qed.

Lemma picked_app l1 l2 vs1 vs2 :
  length l1 = length vs1 → picked (l1 ++ l2) (vs1 ++ vs2) = picked l1 vs1 ++ picked l2 vs2.
Proof.
  revert vs1. induction l1 as [|r l1 IH]; intros [|[v|] vs1] Hl; simpl in *; try done; rewrite IH by lia; done.
Qed.

(** [classify] on a batch read from [d] is a stretch of the pass. *)
Lemma classify_pass d taken l :
  db_wf d → NoDup (j_ID <$> l) → (∀ r, r ∈ l → jobs d !! j_ID r = Some r) →
  classify run taken (read_row (forced run) d <$> l) =
  (read_row (forced run) d <$> picked l (verdicts d taken l), omap id (verdicts d taken l)).
Proof.
  intros Hwf Hnd Hrows. unfold classify.
  set (live := if forced run then live_ids run taken (read_row (forced run) d <$> l) else []).
  assert (verdict run live <$> (read_row (forced run) d <$> l) = verdicts d taken l) as <-.
  { unfold live. destruct (forced run) eqn:Hfor; rewrite <-Hfor.
    - apply (forced_verdicts d taken []); [done..|]. intros r _. by rewrite has_taken_nil, orb_false_r.
    - by apply unforced_verdicts. }
  generalize (verdict run live). intros f. f_equal.
  - induction l as [|r l IH]; [done|]. rewrite !fmap_cons, filter_cons. simpl.
    destruct (f (read_row _ d r)); [rewrite decide_False by done|rewrite decide_True by done; simpl; f_equal];
      apply IH; try (by apply NoDup_cons in Hnd as [_ ?]); intros; apply Hrows; set_solver.
  - symmetry. apply omap_id_fmap.
Qed.

(** ** Which rows a pass changes *)

Lemma verdicts_ext d d' t t' l :
  (forced run = true → ∀ r, r ∈ l →
     activeKeyHeld d r || has_taken t r = activeKeyHeld d' r || has_taken t' r ∧
     cancelledAttemptStillRuns d r = cancelledAttemptStillRuns d' r) →
  verdicts d t l = verdicts d' t' l.
Proof.
  revert t t'. induction l as [|r l IH]; intros t t' Heq; [done|]. simpl.
  assert (rule (activeKeyHeld d r || has_taken t r) (read_row (forced run) d r) =
          rule (activeKeyHeld d' r || has_taken t' r) (read_row (forced run) d' r)) as Hv.
  { destruct (decide (forced run = true)) as [Hfor|Hfor%not_true_is_false].
    - destruct (Heq Hfor r) as [-> Ha]; [set_solver|]. apply rule_flags; [done|]. intros _. simpl. by rewrite Ha.
    - unfold rule. rewrite Hfor. by destruct (skipReason_flags (read_row false d r) (read_row false d' r)) as [-> ->]. }
  rewrite Hv. f_equal. apply IH. intros Hfor r' Hr'. destruct (Heq Hfor r') as [Hh Ha]; [set_solver|].
  split; [|done]. unfold add_key. rewrite Hfor. 
  destruct (rule (activeKeyHeld d' r || has_taken t' r) (read_row true d' r)); [done|]. rewrite !has_taken_app.
  destruct (has_taken (option_list _) r'); [by rewrite !orb_true_r|done].
Qed.

Lemma rule_None held c :
  rule held c = None → skipReason run c = None ∧ (forced run && keyRuled run c = true → held = false).
Proof.
  unfold rule. destruct (skipReason run c); [done|]. destruct (forced run && keyRuled run c); simpl; [|done].
  by destruct held.
Qed.

Lemma picked_row d t l r :
  r ∈ picked l (verdicts d t l) →
  r ∈ l ∧ skipReason run (read_row (forced run) d r) = None ∧
  (forced run && keyRuled run (read_row (forced run) d r) = true →
   activeKeyHeld d r = false ∧ has_taken t r = false).
Proof.
  revert t. induction l as [|r0 l IH]; intros t; simpl; [set_solver|].
  destruct (rule _ (read_row _ d r0)) eqn:Ev; simpl.
  - intros (? & ? & ?)%IH. split; [set_solver|done].
  - apply rule_None in Ev as [Es Ek]. intros [->|(Hin & Hs & Hk)%IH]%elem_of_cons.
    + split_and!; [set_solver|done|]. intros Hf. specialize (Ek Hf). by apply orb_false_iff in Ek.
    + split_and!; [set_solver|done|]. intros Hf. destruct (Hk Hf) as [? Ht]. split; [done|].
      unfold add_key in Ht. destruct (forced run); [|done]. rewrite has_taken_app in Ht.
      by apply orb_false_iff in Ht as [_ ?].
Qed.

Lemma live_not_held d r :
  db_wf d → jobs d !! j_ID r = Some r → state_in (j_State r) NonTerminalStates = true → activeKeyHeld d r = false.
Proof.
  intros Hwf Hr Hl. apply not_true_iff_false. intros (k & id & h & Ek & Hh & Eh & Hs & Hid)%activeKeyHeld_true.
  assert (clashes r h = false) as Hc.
  { apply (wf_unique _ Hwf (j_ID r) id); [done..|]. intros <-. congruence. }
  unfold clashes, active_key_of in Hc. rewrite Hl, Hs, Ek, Eh in Hc. simpl in Hc.
  rewrite (bool_decide_true (k = k)), orb_true_r in Hc by done. done.
Qed.

(** Whatever the action updates, it updates from a live state, or by force. *)
Lemma source_live r :
  br_sources run = bulkSources (br_spec run) → bk_Action (br_spec run) ≠ BulkDelete → forced run = false →
  state_in (j_State r) (br_sources run) = true → state_in (j_State r) NonTerminalStates = true.
Proof.
  intros -> Hd Hf. unfold forced in Hf. unfold bulkSources, state_in.
  destruct (bk_Action (br_spec run)) eqn:Ea; try done;
    rewrite ?(bool_decide_true (BulkRetry = BulkRetry)) in Hf by done; simpl in Hf; unfold retryStateStrings; simpl;
    rewrite ?Hf; simpl; rewrite !bool_decide_eq_true; unfold NonTerminalStates, waitingStates; set_solver.
Qed.

Lemma skipReason_source c : skipReason run c = None → state_in (bc_State c) (br_sources run) = true.
Proof.
  unfold skipReason. destruct (state_in _ _); [done|].
  destruct (bool_decide (bc_State c = StateRunning)); [done|]. destruct (isTerminalStateString _); [done|].
  by destruct (bool_decide _).
Qed.

Section picked_rows.
Context (d : db) (t : list string) (l : list jobRow).
Hypothesis Hwf : db_wf d.
Hypothesis Hnd : NoDup (j_ID <$> l).
Hypothesis Hrows : ∀ r, r ∈ l → jobs d !! j_ID r = Some r.
Hypothesis Hsrc : br_sources run = bulkSources (br_spec run).
Hypothesis Hact : bk_Action (br_spec run) ≠ BulkDelete.

(** A changed row the key rule does not rule is live or has no key. *)
Lemma changed_live_or_ruled r :
  r ∈ l → skipReason run (read_row (forced run) d r) = None →
  forced run && keyRuled run (read_row (forced run) d r) = true ∨
  j_UniqueActiveKey r = None ∨ state_in (j_State r) NonTerminalStates = true.
Proof.
  intros Hin Hs. destruct (forced run) eqn:Hf.
  - destruct (keyRuled run _) eqn:Ek; [by left|right]. rewrite <-Hf in Hs, Ek.
    eapply unruled_changed; [|done..]. eapply wf_rows; [done|by apply Hrows].
  - right. right. apply source_live; auto. apply (skipReason_source _ Hs).
Qed.

Lemma picked_free r : r ∈ picked l (verdicts d t l) → activeKeyHeld d r = false.
Proof.
  intros (Hin & Hs & Hk)%picked_row. destruct (changed_live_or_ruled r Hin Hs) as [Hr|[Hn|Hl]].
  - by apply Hk.
  - unfold activeKeyHeld. by rewrite Hn.
  - apply live_not_held; auto.
Qed.
End picked_rows.

(** No two changed rows share a key. *)
Lemma picked_distinct d t l r r' :
  db_wf d → NoDup (j_ID <$> l) → (∀ r, r ∈ l → jobs d !! j_ID r = Some r) →
  br_sources run = bulkSources (br_spec run) → bk_Action (br_spec run) ≠ BulkDelete →
  r ∈ picked l (verdicts d t l) → r' ∈ picked l (verdicts d t l) → j_ID r ≠ j_ID r' →
  same_key (j_UniqueActiveKey r) (j_UniqueActiveKey r') = false.
Proof.
  intros Hwf Hnd Hrows Hsrc Hact.
  intros Hr Hr' Hne. apply not_true_iff_false. intros Hsame.
  assert (∃ k, j_UniqueActiveKey r = Some k ∧ j_UniqueActiveKey r' = Some k) as (k & Ek & Ek').
  { unfold same_key in Hsame. destruct (j_UniqueActiveKey r), (j_UniqueActiveKey r'); try done.
    apply bool_decide_eq_true in Hsame as ->. eauto. }
  assert (∀ a b, a ∈ picked l (verdicts d t l) → b ∈ l → j_ID a ≠ j_ID b →
    j_UniqueActiveKey a = Some k → j_UniqueActiveKey b = Some k →
    state_in (j_State b) NonTerminalStates = true → False) as Hlive.
  { intros a b Ha Hb Hab Ea Eb Hl.
    pose proof (picked_free d t l Hwf Hrows Hsrc Hact a Ha) as Hf.
    pose proof (live_row_holds d b a k (Hrows b Hb) Hl Eb Ea (not_eq_sym Hab)). congruence. }
  pose proof (picked_row _ _ _ _ Hr) as (Hin & Hs & _). pose proof (picked_row _ _ _ _ Hr') as (Hin' & Hs' & _).
  destruct (changed_live_or_ruled d l Hwf Hrows Hsrc Hact r Hin Hs) as [Hk|[?|Hl]];
    [|congruence|by eapply (Hlive r' r)].
  destruct (changed_live_or_ruled d l Hwf Hrows Hsrc Hact r' Hin' Hs') as [Hk'|[?|Hl]];
    [|congruence|by eapply (Hlive r r')].
  clear Hlive Hsrc Hact. revert t Hnd Hrows Hr Hr' Hin Hin'.
  induction l as [|r0 l' IH]; intros t Hnd Hrows Hr Hr' Hin Hin'; [set_solver|]. simpl in Hr, Hr'.
  apply NoDup_cons in Hnd as [Hn0 Hnd].
  set (v := rule _ (read_row (forced run) d r0)) in *.
  assert (∀ a b, a = r0 → v = None → b ∈ picked l' (verdicts d (add_key v r0 t) l') →
    j_UniqueActiveKey a = Some k → j_UniqueActiveKey b = Some k →
    forced run && keyRuled run (read_row (forced run) d b) = true → False) as Hhead.
  { intros a b -> Hv Hb Ea Eb Hkb. apply picked_row in Hb as (_ & _ & Hb). destruct (Hb Hkb) as [_ Ht].
    rewrite Hv in Ht. unfold add_key in Ht. apply andb_true_iff in Hkb as [Hf _]. rewrite Hf, has_taken_app in Ht.
    apply orb_false_iff in Ht as [Ht _]. unfold has_taken in Ht. rewrite Eb, Ea in Ht. simpl in Ht.
    apply bool_decide_eq_false in Ht. set_solver. }
  destruct v eqn:Hv.
  - eapply IH; eauto using elem_of_sublist, picked_sublist; intros; apply Hrows; set_solver.
  - apply elem_of_cons in Hr as [Hr|Hr], Hr' as [Hr'|Hr'].
    + congruence.
    + by eapply (Hhead r r').
    + by eapply (Hhead r' r).
    + eapply IH; eauto using elem_of_sublist, picked_sublist; intros; apply Hrows; set_solver.
Qed.

(** ** The effect of a batch *)

(** Updating rows with free, distinct keys breaks neither index. *)
Lemma unique_update_each d (S : jobRow → bool) cols :
  keyed (jobs d) → unique_ok (jobs d) →
  (∀ r, jobs d !! j_ID r = Some r → S r && not_deleted r = true → activeKeyHeld d r = false) →
  (∀ r r', jobs d !! j_ID r = Some r → jobs d !! j_ID r' = Some r' → S r && not_deleted r = true →
     S r' && not_deleted r' = true → j_ID r ≠ j_ID r' →
     same_key (j_UniqueActiveKey r) (j_UniqueActiveKey r') = false) →
  unique_ok (jobs (update_each S cols d)).
Proof.
  intros Hk Hu Hfree Hdist i j a' b'. rewrite !lookup_update_each.
  intros (a & Ha & ->)%fmap_Some_1 (b & Hb & ->)%fmap_Some_1 Hij.
  pose proof (Hk _ _ Ha) as Hia. pose proof (Hk _ _ Hb) as Hib. subst i j.
  assert (∀ x y, jobs d !! j_ID x = Some x → jobs d !! j_ID y = Some y → j_ID x ≠ j_ID y →
    S x && not_deleted x = true → S y && not_deleted y = false → clashes (Updates (cols x) x) y = false) as Hone.
  { intros x y Hx Hy Hxy Sx Sy. pose proof (free_key_admits d x (cols x) Hk Hu Hx (Hfree x Hx Sx)) as Hadm.
    rewrite index_admits_spec, Updates_ID in Hadm. by apply (Hadm (j_ID y)). }
  destruct (S a && not_deleted a) eqn:Sa, (S b && not_deleted b) eqn:Sb; eauto.
  - pose proof (Hu _ _ _ _ Ha Hb Hij) as Hc. unfold clashes in *. apply orb_false_iff in Hc as [Hc _].
    apply orb_false_iff. split; [unfold key_of in *; by rewrite !Updates_UniqueKey|].
    unfold active_key_of. rewrite !Updates_UniqueActiveKey. specialize (Hdist a b Ha Hb Sa Sb Hij).
    destruct (state_in _ _), (state_in _ _); try done. by destruct (j_UniqueActiveKey a).
  - rewrite clashes_sym. by apply Hone.
Qed.
End reference.

(** ** One undisturbed batch *)

Section batch.
Context `{GoLib} `{QueryLib} `{Foundation} `{RowOrder} (run : bulkRun).
Hypothesis Hsrc : br_sources run = bulkSources (br_spec run).

(** The selection, its chunk aside. *)
Definition sel_row (d : db) (r : jobRow) : bool :=
  (match br_ids run with [] => applyJobFilter (bk_Query (br_spec run)) d r | _ => true end) &&
  past (bk_After (br_spec run)) (j_ID r) &&
  when_text (bk_MaxID (br_spec run)) (bool_decide (bytes_le (j_ID r) (bk_MaxID (br_spec run)))).

Lemma candidates_eq ids d r : candidates run ids d r = sel_row d r && str_mem (j_ID r) ids.
Proof.
  unfold candidates, selection, sel_row. destruct (br_ids run); [done|]. simpl.
  by destruct (str_mem (j_ID r) ids), (past _ _), (when_text _ _).
Qed.

(** A waiting row has no lease and no finish. *)
Lemma waiting_plain r : row_wf r → j_State r ∈ waitingStates →
  (j_LeaseToken r = None ∧ j_LeasedUntil r = None) ∧ j_FinalizedAt r = None.
Proof.
  intros [_ Hl Hf _ _] Hw. unfold lease_wf in Hl. unfold final_wf in Hf.
  unfold waitingStates in Hw. repeat (apply elem_of_cons in Hw as [Hw|Hw]; [rewrite Hw in *; done|]). set_solver.
Qed.

Lemma bulk_cols_wf matched passed slots now r :
  bk_Action (br_spec run) ≠ BulkDelete →
  row_wf r → state_in (j_State r) (br_sources run) = true →
  row_wf (Updates (bulk_cols run matched passed slots now r) r).
Proof.
  intros Hnd Hwf Hs. rewrite Hsrc in Hs. apply bool_decide_eq_true in Hs.
  assert (bk_Action (br_spec run) = BulkRetry ∨ j_State r ∈ waitingStates) as Hw.
  { unfold bulkSources in Hs. destruct (bk_Action (br_spec run)); try done; try (by left); right;
      unfold waitingStates in *; set_solver. }
  unfold bulk_cols. set (at_ := scheduledAtValue _ _ _ _ _ _).
  pose proof (revive_row_wf at_ now (bulk_retry run) r Hwf) as [Rst Rl Rf Rb Ra].
  destruct (bk_Action (br_spec run)) eqn:Ea; try done;
    try (destruct Hw as [?|Hw]; [done|destruct (waiting_plain r Hwf Hw) as [Hl Hf]]);
    pose proof Hwf as [Wst Wl Wf Wb Wa].
  - split; [reflexivity|by unfold lease_wf; cbn; rewrite decide_False|by unfold final_wf; cbn|exact Wb|exact Wa].
  - unfold revive, retryUpdates, applyRetryBudget in *.
    destruct (ro_ResetAttempts (bulk_retry run)), (ro_Budget (bulk_retry run) <=? 0)%Z; by split.
  - split; [exact Wst|exact Wl|exact Wf|exact Wb|exact Wa].
  - split; [reflexivity|by unfold lease_wf; cbn; rewrite decide_False|by unfold final_wf; cbn|exact Wb|exact Wa].
  - split; [reflexivity|by unfold lease_wf; cbn; rewrite decide_False|by unfold final_wf; cbn|exact Wb|exact Wa].
  - split; [reflexivity|by unfold lease_wf; cbn; rewrite decide_False|by unfold final_wf; cbn|exact Wb|exact Wa].
Qed.

(** The rows of a batch, as the walk reads them: in id order, in the table, selected. *)
Record batch_rows (d : db) (l : list jobRow) : Prop := {
  br_sorted : StronglySorted id_le l;
  br_NoDup : NoDup (j_ID <$> l);
  br_row : ∀ r, r ∈ l → jobs d !! j_ID r = Some r ∧ not_deleted r = true ∧ sel_row d r = true
}.

Lemma batch_rows_sub d l l' : l' `sublist_of` l → batch_rows d l → batch_rows d l'.
Proof.
  intros Hsub [Hs Hnd Hr]. split; [by eapply sorted_sublist|eapply sublist_NoDup; [done|by apply fmap_sublist]|].
  intros r Hin. apply Hr. by eapply elem_of_sublist.
Qed.

(** Naming a batch's ids in the table names its rows. *)
Lemma batch_rows_in d l r :
  db_wf d → batch_rows d l → jobs d !! j_ID r = Some r → str_mem (j_ID r) (j_ID <$> l) = true ↔ r ∈ l.
Proof.
  intros Hwf Hb Hr. unfold str_mem. rewrite bool_decide_eq_true, list_elem_of_fmap. split; [|eauto].
  intros (r' & He & Hr'). destruct (br_row _ _ Hb r' Hr') as [Hj _]. congruence.
Qed.

Lemma lockCandidates_eq d l :
  db_wf d → batch_rows d l → lockCandidates run (j_ID <$> l) d = read_row (forced run) d <$> l.
Proof.
  intros Hwf Hb. unfold lockCandidates. f_equal.
  eapply (remaining_unique (candidates run (j_ID <$> l) d) "" d).
  - erewrite select_jobs_ext; [by apply remaining_start, Hwf|]. intros r. simpl. by rewrite andb_true_r.
  - split; [apply Hb|apply Hb|]. intros r. rewrite candidates_eq, andb_true_iff. split.
    + intros Hr. destruct (br_row _ _ Hb r Hr) as (Hj & Hd & Hs). split_and!; try done.
      by apply (batch_rows_in d l).
    + intros (Hj & _ & [_ Hm] & _). by apply (batch_rows_in d l) in Hm.
Qed.

(** What a batch that changes the rows [P] leaves. *)
Record batch_done (cols : jobRow → list jobCol) (d : db) (P : list jobRow) (d' : db) : Prop := {
  bd_wf : db_wf d';
  bd_other : ∀ id, id ∉ j_ID <$> P → jobs d' !! id = jobs d !! id;
  bd_row : ∀ r, r ∈ P → jobs d' !! j_ID r =
    if bool_decide (bk_Action (br_spec run) = BulkDelete) then None else Some (Updates (cols r) r);
  bd_runs : ∀ r id lr, j_ID r ∉ j_ID <$> P → r_JobID lr = j_ID r →
    job_runs d' !! id = Some lr ↔ job_runs d !! id = Some lr
}.

Section write.
Context (d : db) (t : list string) (l : list jobRow) (matched : Z) (passed : nat) (slots : list string) (now : Z).
Hypothesis Hwf : db_wf d.
Hypothesis Hb : batch_rows d l.
Let P := picked l (verdicts run d t l).
Let cols := bulk_cols run matched passed slots now.

Lemma P_rows : batch_rows d P.
Proof. eapply batch_rows_sub; [apply picked_sublist|done]. Qed.
Lemma l_rows r : r ∈ l → jobs d !! j_ID r = Some r.
Proof. intros Hr. by apply (br_row _ _ Hb). Qed.

(** The UPDATE's guard admits exactly the rows the pass changes. *)
Lemma guard_picked r :
  bk_Action (br_spec run) ≠ BulkDelete → jobs d !! j_ID r = Some r →
  bulk_guard run (j_ID <$> P) d r && not_deleted r = str_mem (j_ID r) (j_ID <$> P).
Proof.
  intros Hact Hr. pose proof P_rows as HbP. apply eq_true_iff_eq.
  rewrite (batch_rows_in d P r Hwf HbP Hr), andb_true_iff. split.
  - intros [Hx _]. unfold bulk_guard in Hx. rewrite !andb_true_iff, candidates_eq, andb_true_iff in Hx.
    apply (batch_rows_in d P r Hwf HbP Hr). tauto.
  - intros Hin. destruct (br_row _ _ HbP r Hin) as (_ & Hd & Hs). split; [|done].
    pose proof (picked_row run d t l r Hin) as (Hl & Hsk & _).
    unfold bulk_guard. rewrite candidates_eq, Hs, (proj2 (batch_rows_in d P r Hwf HbP Hr) Hin).
    pose proof (skipReason_source run _ Hsk) as Hst. unfold bc_State in Hst. rewrite read_row_row in Hst.
    rewrite Hst. simpl.
    destruct (forced run) eqn:Hf; [|done]. rewrite (picked_free run d t l Hwf l_rows Hsrc Hact r Hin). simpl.
    unfold skipReason, bc_State in Hsk. rewrite read_row_row, Hst, Hf in Hsk. simpl in Hsk.
    unfold cancelledAttemptStillRuns in *.
    by destruct (bool_decide (j_State r = StateCancelled)), (attemptStillRuns d r).
Qed.

Lemma write_delete :
  bk_Action (br_spec run) = BulkDelete →
  ∃ d', bulk_write run matched passed (read_row (forced run) d <$> P) slots now d = Ok (j_ID <$> P, d') ∧
        batch_done cols d P d' ∧ job_audit d' = job_audit d.
Proof.
  intros Hact. pose proof P_rows as HbP. unfold bulk_write. rewrite read_rows_ids, bool_decide_true by done.
  pose proof (delete_rows_count (j_ID <$> P) d (wf_keyed _ Hwf) (br_NoDup _ _ HbP)) as Hn.
  pose proof (λ id, lookup_delete_rows (j_ID <$> P) d id (wf_keyed _ Hwf)) as Hlk.
  pose proof (wf_deleteJobRows (j_ID <$> P) d Hwf) as Hwf'.
  assert (∀ id lr, job_runs (deleteJobRows (j_ID <$> P) d).2 !! id = Some lr ↔
            job_runs d !! id = Some lr ∧ str_mem (r_JobID lr) (j_ID <$> P) = false) as Hruns
    by (intros id lr; simpl; rewrite map_lookup_filter_Some; done).
  assert (job_audit (deleteJobRows (j_ID <$> P) d).2 = job_audit d) as Haud by done.
  destruct (deleteJobRows (j_ID <$> P) d) as [n d']. simpl in *. rewrite Hn.
  2:{ intros id (r & -> & Hr)%list_elem_of_fmap. destruct (br_row _ _ HbP r Hr) as [-> _]. eauto. }
  rewrite Z.eqb_refl. exists d'. split; [done|]. split; [|done]. split; [done| | |].
  - intros id Hid. rewrite Hlk. unfold str_mem. by rewrite bool_decide_false.
  - intros r Hr. rewrite Hlk, bool_decide_true by done. unfold str_mem.
    by rewrite bool_decide_true by (by apply list_elem_of_fmap_2).
  - intros r id lr Hid Hj. rewrite Hruns. unfold str_mem. rewrite Hj, bool_decide_false by done. naive_solver.
Qed.

Lemma write_update :
  bk_Action (br_spec run) ≠ BulkDelete →
  ∃ d', bulk_write run matched passed (read_row (forced run) d <$> P) slots now d = Ok (j_ID <$> P, d') ∧
        batch_done cols d P d' ∧ job_audit d' = job_audit d.
Proof.
  intros Hact. pose proof P_rows as HbP. unfold bulk_write. rewrite read_rows_ids, bool_decide_false by done.
  fold cols. set (guard := bulk_guard run (j_ID <$> P) d).
  assert (∀ r, jobs d !! j_ID r = Some r → guard r && not_deleted r = str_mem (j_ID r) (j_ID <$> P)) as Hg
    by (intros; by apply guard_picked).
  assert (∀ r, jobs d !! j_ID r = Some r → guard r && not_deleted r = true → r ∈ P) as Hin.
  { intros r Hr Hx. rewrite Hg in Hx by done. by apply (batch_rows_in d P r Hwf HbP Hr). }
  assert (unique_ok (jobs (update_each guard cols d))) as Hu.
  { apply unique_update_each; [apply Hwf|apply Hwf|..].
    - intros r Hr Hx. eapply (picked_free run d t l); eauto using l_rows.
    - intros r r' Hr Hr' Hx Hx' Hne. eapply (picked_distinct run d t l); eauto using l_rows, br_NoDup. }
  destruct (updateJobs_runs guard cols d (wf_keyed _ Hwf) Hu) as [ids Hok].
  pose proof (updateJobs_Ok _ _ _ _ _ (wf_keyed _ Hwf) Hok) as Hup.
  assert (ids = j_ID <$> P) as ->.
  { eapply updated_ids; [done|apply sorted_ids, HbP|apply HbP|]. intros id. split.
    - intros (r & -> & Hr)%list_elem_of_fmap. destruct (br_row _ _ HbP r Hr) as (Hj & Hd & _).
      exists r. split; [done|]. apply andb_true_iff. rewrite Hg by done. by apply (batch_rows_in d P).
    - intros (r & Hr & Hx & Hd). pose proof (wf_keyed _ Hwf _ _ Hr) as <-.
      apply list_elem_of_fmap_2, Hin; [done|by rewrite Hx, Hd]. }
  exists (update_each guard cols d). split; [done|]. split; [|done]. split.
  - eapply wf_updated; [|done|done]. intros r Hr Hx. apply bulk_cols_wf; [done..|].
    unfold guard, bulk_guard in Hx. rewrite !andb_true_iff in Hx. tauto.
  - intros id Hid. rewrite lookup_update_each. destruct (jobs d !! id) as [r|] eqn:Hr; [|done]. simpl.
    pose proof (wf_keyed _ Hwf _ _ Hr) as <-. rewrite Hg by done. unfold str_mem. by rewrite bool_decide_false.
  - intros r Hr. destruct (br_row _ _ HbP r Hr) as (Hj & _). rewrite lookup_update_each, Hj. simpl.
    rewrite Hg by done. rewrite (proj2 (batch_rows_in d P r Hwf HbP Hj) Hr). by rewrite bool_decide_false.
  - done.
Qed.

Lemma bulk_write_done :
  ∃ d', bulk_write run matched passed (read_row (forced run) d <$> P) slots now d = Ok (j_ID <$> P, d') ∧
        batch_done cols d P d' ∧ job_audit d' = job_audit d.
Proof. destruct (decide (bk_Action (br_spec run) = BulkDelete)); [by apply write_delete|by apply write_update]. Qed.
End write.

Lemma filter_sublist_ids (P l : list jobRow) :
  P `sublist_of` l → NoDup (j_ID <$> l) → filter (λ r, str_mem (j_ID r) (j_ID <$> P) = true) l = P.
Proof.
  induction 1 as [|r P l Hsub IH|r P l Hsub IH]; intros Hnd; [done|..]; apply NoDup_cons in Hnd as [Hn Hnd].
  - rewrite filter_cons_True by (rewrite fmap_cons, str_mem_cons; by rewrite bool_decide_true). f_equal.
    transitivity (filter (λ r, str_mem (j_ID r) (j_ID <$> P) = true) l); [|auto].
    apply filter_iff_in. intros r' Hr'. rewrite fmap_cons, str_mem_cons.
    rewrite bool_decide_false; [done|]. intros He. apply Hn. rewrite <-He. by apply list_elem_of_fmap_2.
  - rewrite filter_cons_False; [auto|]. unfold str_mem. rewrite bool_decide_eq_true. intros Hx.
    apply Hn. eapply elem_of_sublist; [done|]. by apply fmap_sublist.
Qed.

Lemma rowsIn_picked flags d (P l : list jobRow) :
  P `sublist_of` l → NoDup (j_ID <$> l) → rowsIn (read_row flags d <$> l) (j_ID <$> P) = read_row flags d <$> P.
Proof.
  intros Hsub Hnd. unfold rowsIn.
  transitivity (read_row flags d <$> filter (λ r, str_mem (j_ID r) (j_ID <$> P) = true) l);
    [|by rewrite (filter_sublist_ids P l Hsub Hnd)].
  clear Hsub Hnd. induction l as [|r l IH]; [done|]. rewrite fmap_cons, !filter_cons, read_row_ID.
  destruct (decide (str_mem (j_ID r) (j_ID <$> P) = true)); [rewrite fmap_cons; by f_equal|done].
Qed.

(** The action has no barrier to fire. *)
Definition no_parents (l : list jobRow) : Prop :=
  bk_Action (br_spec run) = BulkCancel → ∀ r, r ∈ l → j_ParentJobID r = None.

Lemma no_parents_omap flags d l :
  bk_Action (br_spec run) = BulkCancel → no_parents l →
  omap (λ c, j_ParentJobID (bc_row c)) (read_row flags d <$> l) = [].
Proof.
  intros Ha Hn. specialize (Hn Ha). induction l as [|r l IH]; [done|]. csimpl.
  rewrite (Hn r) by set_solver. apply IH. set_solver.
Qed.

(** One undisturbed attempt changes what a stretch of the pass changes. *)
Lemma applyBatch_calm cc iv st d l :
  calm iv → iv_fail iv = None → cc_AuditHook cc = None → db_wf d → batch_rows d l → no_parents l →
  let P := picked l (verdicts run d (st_taken st) l) in
  let matched := bu_Matched (st_result st) in
  ∃ d' aud, applyBatch cc iv run st (j_ID <$> l) d =
    (Ok {| ba_rows := read_row (forced run) d <$> l; ba_skips := omap id (verdicts run d (st_taken st) l);
           ba_changed := read_row (forced run) d <$> P; ba_fired := [] |}, d') ∧
    batch_done (bulk_cols run matched (st_passed st) (j_ID <$> l) (c_Now (cc_ctx cc) 0)) d P d' ∧
    job_audit d' = job_audit d ++ aud ∧
    (λ e, (a_TargetID e, a_Action e)) <$> aud =
    (λ r, (j_ID r, bulkAuditAction (bk_Action (br_spec run)))) <$> P.
Proof.
  intros (_ & Hc2 & Hc3) Hf Hhook Hwf Hb Hnp P matched. unfold applyBatch. rewrite Hf, Hc3, Hc2.
  rewrite (lockCandidates_eq d l Hwf Hb), (classify_pass run d (st_taken st) l Hwf (br_NoDup _ _ Hb));
    [|intros r Hr; by apply (br_row _ _ Hb)]. fold P.
  destruct (read_row (forced run) d <$> P) as [|c0 cs] eqn:EP.
  { apply fmap_nil_inv in EP. rewrite EP. exists d, []. rewrite app_nil_r. split_and!; try done.
    split; try done. intros r Hr. set_solver. }
  rewrite <-EP. destruct (bulk_write_done d (st_taken st) l matched (st_passed st) (j_ID <$> l)
    (c_Now (cc_ctx cc) 0) Hwf Hb) as (d3 & Hw & Hdone & Haud). fold P in Hw, Hdone. fold matched. rewrite Hw.
  assert (P `sublist_of` l) as Hsub by apply picked_sublist.
  cbn [mbind]. simpl. rewrite (rowsIn_picked _ _ P l Hsub (br_NoDup _ _ Hb)).
  assert ((if bool_decide (bk_Action (br_spec run) = BulkCancel)
           then fireParentsBarriers (hookless (cc_ctx cc)) (length (j_ID <$> l)) (read_row (forced run) d <$> P) d3
           else Ok ([], d3)) = Ok ([], d3)) as ->.
  { case_bool_decide as Ha; [|done]. unfold fireParentsBarriers. rewrite no_parents_omap; [done..|].
    intros _ r Hr. apply Hnp; [done|]. by eapply elem_of_sublist. }
  simpl. set (ch := auditChanges _ _ _ _ _).
  exists (with_audit (job_audit d ++ imap (audit_row cc (br_actor run) (c_Now (cc_ctx cc) 0)) ch) d3).
  exists (imap (audit_row cc (br_actor run) (c_Now (cc_ctx cc) 0)) ch). split_and!; [| |done|].
  - unfold recordAudit. rewrite Hhook, Haud. destruct ch as [|c1 ch1] eqn:Ech; [|done].
    unfold ch, auditChanges in Ech. rewrite EP in Ech. done.
  - destruct Hdone. split; try done. by apply wf_with_audit.
  - rewrite fmap_imap. unfold ch, auditChanges. rewrite imap_fmap.
    rewrite <-(imap_const (λ r, (j_ID r, bulkAuditAction (bk_Action (br_spec run))))).
    rewrite imap_fmap. done.
Qed.

(** ** What is ahead of the walk *)

(** The selected job an id names. *)
Definition pick (d : db) (id : string) : option jobRow :=
  match find_job d id with Some r => if sel_row d r then Some r else None | None => None end.

(** By a filter, the matches past the cursor; by ids, the ones not read yet. *)
Definition ahead_of (st : bulkState) (d : db) (l : list jobRow) : Prop :=
  match br_ids run with
  | [] => remaining (sel_row d) (st_cursor st) d l
  | ids => l = omap (pick d) (drop (st_next st) ids)
  end.

Lemma pick_Some d id r :
  db_wf d → pick d id = Some r ↔ j_ID r = id ∧ jobs d !! j_ID r = Some r ∧ not_deleted r = true ∧ sel_row d r = true.
Proof.
  intros Hwf. unfold pick. split.
  - destruct (find_job d id) as [r'|] eqn:Hf; [|done]. destruct (sel_row d r') eqn:Hs; [|done]. intros [= <-].
    apply find_job_Some in Hf as [Hj Hd]. by rewrite (wf_keyed _ Hwf _ _ Hj).
  - intros (<- & Hj & Hd & Hs). by rewrite (proj2 (find_job_Some d _ r)), Hs.
Qed.

Lemma sorted_of_ids l : StronglySorted bytes_le (j_ID <$> l) → StronglySorted id_le l.
Proof.
  induction l as [|r l IH]; [constructor|]. rewrite fmap_cons. intros [Hs Hr]%StronglySorted_inv.
  constructor; [auto|]. rewrite Forall_fmap in Hr. exact Hr.
Qed.

Lemma picks_sublist d ids : db_wf d → j_ID <$> omap (pick d) ids `sublist_of` ids.
Proof.
  intros Hwf. induction ids as [|id ids IH]; [done|]. csimpl.
  destruct (pick d id) as [r|] eqn:Hp; [|by apply sublist_cons].
  apply pick_Some in Hp as [<- _]; [|done]. by apply sublist_skip.
Qed.

Lemma picks_remaining d ids :
  db_wf d → StronglySorted bytes_le ids → NoDup ids →
  remaining (λ r, sel_row d r && str_mem (j_ID r) ids) "" d (omap (pick d) ids).
Proof.
  intros Hwf Hs Hnd. pose proof (picks_sublist d ids Hwf) as Hsub. split.
  - apply sorted_of_ids. by eapply sorted_sublist.
  - by eapply sublist_NoDup.
  - intros r. rewrite list_elem_of_omap. unfold str_mem. rewrite andb_true_iff, bool_decide_eq_true. split.
    + intros (id & Hid & (<- & ? & ? & ?)%pick_Some); [|done]. done.
    + intros (? & ? & [? Hid] & _). exists (j_ID r). split; [done|]. by apply pick_Some.
Qed.

Lemma remaining_batch_rows P cursor d l1 l2 :
  remaining P cursor d (l1 ++ l2) → (∀ r, P r = true → sel_row d r = true) → batch_rows d l1.
Proof.
  intros Hl HP. destruct (remaining_prefix _ _ _ _ _ Hl) as (Hnd & Hs & _). split; [done..|].
  intros r Hr. destruct (remaining_row _ _ _ _ r Hl) as (? & ? & ? & _); [set_solver|]. auto.
Qed.

(** How far the walk still has to go. *)
Definition togo (st : bulkState) (l : list jobRow) : nat :=
  match br_ids run with [] => length l | ids => length ids - st_next st end.

(** The tables keep what is ahead: other rows are as they were, and are selected alike. *)
Definition keeps (d : db) (l1 : list jobRow) (d' : db) : Prop :=
  db_wf d' ∧ (∀ id, id ∉ j_ID <$> l1 → jobs d' !! id = jobs d !! id) ∧
  (∀ r, jobs d !! j_ID r = Some r → j_ID r ∉ j_ID <$> l1 → sel_row d' r = sel_row d r).

Lemma no_fired flags d (rows : list jobRow) :
  read_row flags d <$> filter (λ r, continuation [] r = false) rows = read_row flags d <$> rows.
Proof.
  rewrite filter_all; [done|]. apply Forall_forall. intros r _. unfold continuation.
  by destruct (j_UniqueKey r).
Qed.

(** What reading a batch does to what is ahead. *)
Record batch_split (st : bulkState) (d : db) (limit : nat) (flags : bool) (l l1 l2 : list jobRow) (b : bulkBatch)
    : Prop := {
  sp_split : l = l1 ++ l2;
  sp_rows : bb_rows b = read_row flags d <$> l1;
  sp_limit : length l1 ≤ limit;
  sp_batch : batch_rows d l1;
  sp_end : bb_end b = true → l2 = [];
  sp_next : ∀ st' d', keeps d l1 d' → st_cursor st' = bb_last b → st_next st' = bb_next b →
    ahead_of st' d' l2 ∧ (bb_end b = false → togo st' l2 < togo st l)
}.

Lemma split_by_filter st d limit flags l :
  br_ids run = [] → db_wf d → jobs d !! "" = None → 0 < limit → st_fired st = [] → ahead_of st d l →
  batch_split st d limit flags l (take limit l) (drop limit l) (readBatch run st limit flags d).
Proof.
  intros Eids Hwf Hno Hlim Hfi Ha.
  assert (∀ d r, selection run [] d r = sel_row d r) as Hsel by (intros; unfold selection, sel_row; by rewrite Eids).
  assert (∀ st d l, ahead_of st d l ↔ remaining (sel_row d) (st_cursor st) d l) as Hao
    by (intros; unfold ahead_of; by rewrite Eids).
  apply Hao in Ha.
  assert (id_page (selection run [] d) (st_cursor st) limit d = take limit l) as Hpage.
  { unfold id_page. erewrite select_jobs_ext; [by apply (id_page_remaining (sel_row d)); [apply Hwf|]|].
    intros r. simpl. by rewrite Hsel. }
  unfold readBatch. rewrite Eids, Hpage, Hfi. rewrite <-(take_drop limit l) in Ha.
  split; cbn [bb_rows bb_end bb_last bb_next].
  - by rewrite take_drop.
  - apply no_fired.
  - rewrite length_take. lia.
  - eapply remaining_batch_rows; [exact Ha|done].
  - rewrite Nat.ltb_lt, length_take. intros ?. apply drop_ge. lia.
  - intros st' d' (Hwf' & Hsame & Hsel') Hcur _. unfold togo.
    rewrite Eids, Hao, length_take, Nat.ltb_ge, length_drop. split; [|lia].
    destruct (last (take limit l)) as [m|] eqn:Hm.
    + rewrite Hcur. eapply remaining_step; [exact Ha|apply Hwf'|done| |done|done].
      intros E. destruct (remaining_row _ _ _ _ m Ha) as [Hrow _];
        [apply elem_of_app; left; by apply last_Some_elem_of|]. congruence.
    + apply last_None in Hm. assert (l = []) as El by (destruct l, limit; simpl in *; done || lia).
      rewrite El in *. rewrite drop_nil in *. rewrite take_nil in Ha. split; [constructor|constructor|].
      intros r. split; [set_solver|]. intros (Hr & Hd & Hs' & Hp). rewrite Hcur in Hp.
      rewrite take_nil in Hsame, Hsel'. rewrite Hsame in Hr by set_solver.
      rewrite Hsel' in Hs' by set_solver. by apply (rem_elem _ _ _ _ Ha).
Qed.

(** The selected jobs of a list of ids that the batch did not touch. *)
Lemma picks_kept d l1 d' (ids : list string) :
  db_wf d → keeps d l1 d' → (∀ id, id ∈ ids → id ∉ j_ID <$> l1) → omap (pick d') ids = omap (pick d) ids.
Proof.
  intros Hwf (_ & Hsame & Hsel) Hout. induction ids as [|id ids IH]; [done|]. csimpl.
  rewrite IH by set_solver. assert (pick d' id = pick d id) as ->; [|done].
  unfold pick, find_job. rewrite Hsame by set_solver. destruct (jobs d !! id) as [r|] eqn:Hr; [|done]. simpl.
  destruct (not_deleted r); [|done]. pose proof (wf_keyed _ Hwf _ _ Hr) as <-. by rewrite Hsel by set_solver.
Qed.

Lemma split_by_ids st d limit flags l :
  br_ids run ≠ [] → db_wf d → 0 < limit → st_fired st = [] →
  StronglySorted bytes_le (br_ids run) → NoDup (br_ids run) → ahead_of st d l →
  let rest := drop (st_next st) (br_ids run) in
  batch_split st d limit flags l (omap (pick d) (take limit rest)) (omap (pick d) (drop limit rest))
    (readBatch run st limit flags d).
Proof.
  intros Eids Hwf Hlim Hfi Hs Hnd Ha rest. set (chunk := take limit rest).
  assert (∀ st d l, ahead_of st d l ↔ l = omap (pick d) (drop (st_next st) (br_ids run))) as Hao
    by (intros; unfold ahead_of; by destruct (br_ids run)).
  assert (StronglySorted bytes_le rest ∧ NoDup rest) as [Hsr Hndr].
  { assert (rest `sublist_of` br_ids run) as Hsub by apply sublist_drop.
    split; [by eapply sorted_sublist|by eapply sublist_NoDup]. }
  assert (StronglySorted bytes_le chunk ∧ NoDup chunk) as [Hsc Hndc].
  { assert (chunk `sublist_of` rest) as Hsub by apply sublist_take.
    split; [by eapply sorted_sublist|by eapply sublist_NoDup]. }
  pose proof (picks_remaining d chunk Hwf Hsc Hndc) as Hrem.
  pose proof (picks_sublist d chunk Hwf) as Hpk. pose proof (sublist_length _ _ Hpk) as Hlen.
  rewrite length_fmap in Hlen. assert (length chunk = limit `min` (length (br_ids run) - st_next st)) as Hlc
    by (unfold chunk, rest; by rewrite length_take, length_drop).
  assert (page id_le limit (select_jobs (selection run chunk d) d) = omap (pick d) chunk) as Hpage.
  { erewrite (select_jobs_ext _ (λ r, (sel_row d r && str_mem (j_ID r) chunk) && past "" (j_ID r))).
    - fold (id_page (λ r, sel_row d r && str_mem (j_ID r) chunk) "" limit d).
      rewrite (id_page_remaining _ _ _ _ _ (wf_keyed _ Hwf) Hrem). apply take_ge. lia.
    - intros r. rewrite <-candidates_eq. unfold candidates. destruct (br_ids run); [done|].
      simpl. by rewrite andb_true_r. }
  assert (readBatch run st limit flags d =
    {| bb_rows := read_row flags d <$> omap (pick d) chunk; bb_last := default (st_cursor st) (last chunk);
       bb_end := length (br_ids run) <=? st_next st + length chunk; bb_next := st_next st + length chunk |}) as ->.
  { rewrite <-(no_fired flags d (omap (pick d) chunk)), <-Hpage, <-Hfi. unfold readBatch, chunk, rest.
    by destruct (br_ids run). }
  split; cbn [bb_rows bb_end bb_last bb_next].
  - apply Hao in Ha. rewrite Ha. fold rest. unfold chunk. by rewrite <-omap_app, take_drop.
  - done.
  - lia.
  - eapply (remaining_batch_rows _ "" d _ []); [rewrite app_nil_r; exact Hrem|].
    intros r. by intros [? _]%andb_true_iff.
  - rewrite Nat.leb_le, Hlc. intros ?. unfold rest. rewrite drop_drop, drop_ge by lia. done.
  - intros st' d' Hkeep _ Hnext. rewrite Nat.leb_gt, Hao, Hnext, Hlc. split.
    + assert (drop (st_next st + limit `min` (length (br_ids run) - st_next st)) (br_ids run) = drop limit rest) as ->.
      { unfold rest. rewrite drop_drop. destruct (decide (limit ≤ length (br_ids run) - st_next st)).
        - f_equal. lia.
        - by rewrite !drop_ge by lia. }
      symmetry. eapply picks_kept; [done..|]. intros id Hid Hx. pose proof (elem_of_sublist _ _ _ Hx Hpk) as Hc.
      unfold chunk in Hc. rewrite <-(take_drop limit rest) in Hndr. apply NoDup_app in Hndr as (_ & Hdis & _).
      by apply (Hdis id Hc).
    + unfold togo. rewrite Hnext, Hlc. destruct (br_ids run); [done|]. lia.
Qed.

(** Reading a batch splits what is ahead. *)
Lemma read_ahead st d limit flags l :
  db_wf d → jobs d !! "" = None → 0 < limit → st_fired st = [] →
  StronglySorted bytes_le (br_ids run) → NoDup (br_ids run) → ahead_of st d l →
  ∃ l1 l2, batch_split st d limit flags l l1 l2 (readBatch run st limit flags d).
Proof.
  intros. destruct (decide (br_ids run = [])).
  - eexists _, _. by apply split_by_filter.
  - eexists _, _. by apply split_by_ids.
Qed.

(** ** From one batch to the next *)

Lemma latest_same q d d' r :
  (∀ id lr, r_JobID lr = j_ID r → job_runs d' !! id = Some lr ↔ job_runs d !! id = Some lr) →
  applyLatestRunFilter q d' r = applyLatestRunFilter q d r.
Proof.
  intros Hr. unfold applyLatestRunFilter. apply bool_decide_ext. unfold map_Exists.
  split; intros (id & lr & Hl & Hj & Hrest); exists id, lr; (split; [by apply Hr|done]).
Qed.

Lemma done_keeps cols d P l1 d' : P `sublist_of` l1 → batch_done cols d P d' → keeps d l1 d'.
Proof.
  intros Hsub Hd. assert (∀ id, id ∉ j_ID <$> l1 → id ∉ j_ID <$> P) as Hn.
  { intros id Hid Hx. apply Hid. eapply elem_of_sublist; [done|]. by apply fmap_sublist. }
  split_and!; [apply Hd|intros; apply (bd_other _ _ _ _ Hd); auto|].
  intros r _ Hid. unfold sel_row. f_equal. f_equal. destruct (br_ids run); [|done].
  unfold applyJobFilter. f_equal. unfold filter_rest. f_equal.
  rewrite (latest_same _ d d' r); [done|]. intros id lr Hj. apply (bd_runs _ _ _ _ Hd r); auto.
Qed.

Lemma keeps_refl d l1 : db_wf d → keeps d l1 d.
Proof. done. Qed.

Lemma take_keys_has taken d P r :
  forced run = true →
  has_taken (take_keys run (read_row (forced run) d <$> P) taken) r =
  has_taken (omap j_UniqueActiveKey P) r || has_taken taken r.
Proof.
  intros Hf. unfold take_keys. rewrite Hf, has_taken_app. do 2 f_equal.
  induction P as [|r' P IH]; [done|]. csimpl. by rewrite IH.
Qed.

Lemma taken_after_has d t l r :
  forced run = true →
  has_taken (taken_after run d t l) r =
  has_taken (omap j_UniqueActiveKey (picked l (verdicts run d t l))) r || has_taken t r.
Proof.
  intros Hf. revert t. induction l as [|r0 l IH]; intros t; simpl; [by rewrite has_taken_nil|].
  rewrite IH. unfold add_key. rewrite Hf. destruct (rule run _ _); [done|]. csimpl.
  assert (∀ k x, has_taken (k :: x) r = has_taken [k] r || has_taken x r) as Hcons
    by (intros k x; apply (has_taken_app [k])).
  destruct (j_UniqueActiveKey r0) as [k|]; simpl; [|done].
  rewrite (Hcons k t), (Hcons k (omap _ _)), !orb_assoc. f_equal. apply orb_comm.
Qed.

(** The rows a batch put live hold their keys. *)
Lemma held_after_batch cols d P d' r :
  (∀ r, goes_live (cols r)) → db_wf d → bk_Action (br_spec run) ≠ BulkDelete →
  (∀ r, r ∈ P → jobs d !! j_ID r = Some r) → batch_done cols d P d' → j_ID r ∉ j_ID <$> P →
  activeKeyHeld d' r = activeKeyHeld d r || has_taken (omap j_UniqueActiveKey P) r.
Proof.
  intros Hlive Hwf Hact HP Hd Hr. apply eq_true_iff_eq. rewrite orb_true_iff, !activeKeyHeld_true. split.
  - intros (k & id & h & Ek & Hh & Eh & Hs & Hne).
    destruct (decide (id ∈ j_ID <$> P)) as [(r0 & -> & Hr0)%list_elem_of_fmap|Hid].
    + right. rewrite (bd_row _ _ _ _ Hd r0 Hr0), bool_decide_false in Hh by done. injection Hh as <-.
      rewrite Updates_UniqueActiveKey in Eh. unfold has_taken, str_mem. rewrite Ek. apply bool_decide_eq_true.
      apply list_elem_of_omap. eauto.
    + left. rewrite (bd_other _ _ _ _ Hd) in Hh by done. naive_solver.
  - intros [(k & id & h & Ek & Hh & Eh & Hs & Hne)|Ht].
    + destruct (decide (id ∈ j_ID <$> P)) as [(r0 & -> & Hr0)%list_elem_of_fmap|Hid].
      * exists k, (j_ID r0), (Updates (cols r0) r0).
        rewrite (bd_row _ _ _ _ Hd r0 Hr0), bool_decide_false, Updates_UniqueActiveKey, Updates_ID by done.
        assert (h = r0) as -> by (pose proof (HP r0 Hr0); congruence). split_and!; try done. apply Hlive.
      * exists k, id, h. by rewrite (bd_other _ _ _ _ Hd).
    + unfold has_taken in Ht. destruct (j_UniqueActiveKey r) as [k|] eqn:Ek; [|done].
      apply bool_decide_eq_true, list_elem_of_omap in Ht as (r0 & Hr0 & Ek0).
      exists k, (j_ID r0), (Updates (cols r0) r0).
      rewrite (bd_row _ _ _ _ Hd r0 Hr0), bool_decide_false, Updates_UniqueActiveKey, Updates_ID by done.
      split_and!; try done; [apply Hlive|]. intros He. apply Hr. rewrite <-He. by apply list_elem_of_fmap_2.
Qed.

(** ** Counting a pass *)

(** What tallying the pass over [l] makes of a result. *)
Record counted (d : db) (t : list string) (l : list jobRow) (r r' : BulkResult) : Prop := {
  cn_matched : bu_Matched r' = bu_Matched r ∧ bu_MatchedCapped r' = bu_MatchedCapped r;
  cn_changed : bu_Changed r' = (bu_Changed r + Z.of_nat (length (picked l (verdicts run d t l))))%Z;
  cn_skipped : bu_Skipped r' = foldl bump (bu_Skipped r) (omap id (verdicts run d t l));
  cn_state : bu_ByState r' = foldl bump (bu_ByState r) (j_State <$> l);
  cn_kind : bu_ByKind r' = foldl bump (bu_ByKind r) (j_Kind <$> l)
}.

Lemma counted_app d d' t t' l1 l2 r r1 r2 :
  counted d t l1 r r1 → counted d' t' l2 r1 r2 →
  verdicts run d' t' l2 = verdicts run d (taken_after run d t l1) l2 → counted d t (l1 ++ l2) r r2.
Proof.
  intros [[M1 C1] G1 S1 B1 K1] [[M2 C2] G2 S2 B2 K2] Hv. rewrite Hv in *.
  assert (length l1 = length (verdicts run d t l1)) as Hlen by (by rewrite verdicts_length).
  split; rewrite ?verdicts_app, ?picked_app, ?length_app, ?omap_app, ?fmap_app, ?foldl_app by done.
  - by rewrite M2, M1, C2, C1.
  - rewrite G2, G1. lia.
  - by rewrite S2, S1.
  - by rewrite B2, B1.
  - by rewrite K2, K1.
Qed.

Lemma counted_tally d t l b r :
  counted d t l r (tally (read_row (forced run) d <$> l) (omap id (verdicts run d t l))
                     (length (read_row (forced run) d <$> picked l (verdicts run d t l))) b r).
Proof.
  split; simpl; [done|by rewrite length_fmap|done|by rewrite <-list_fmap_compose|by rewrite <-list_fmap_compose].
Qed.

Lemma counted_nil d t r : counted d t [] r r.
Proof. split; simpl; try done. lia. Qed.

Lemma counted_snapshot d t l r st done sample :
  counted d t l r (st_result st) → counted d t l r (snapshot st done sample).
Proof. by intros []. Qed.

(** The keys a preview remembers are the keys the pass took. *)
Lemma taken_verdicts d t l1 l2 :
  verdicts run d (take_keys run (read_row (forced run) d <$> picked l1 (verdicts run d t l1)) t) l2 =
  verdicts run d (taken_after run d t l1) l2.
Proof.
  apply verdicts_ext. intros Hf r _. split; [|done]. by rewrite (take_keys_has t d _ r Hf), (taken_after_has d t l1 r Hf).
Qed.

Section walk.
Context (ccs : nat → control) (ivs : nat → interference) (cancelled : nat → bool).
Hypothesis Hsorted : StronglySorted bytes_le (br_ids run).
Hypothesis Hids : NoDup (br_ids run).
Hypothesis Hsize : 0 < br_batchSize run.
Hypothesis Hcan : ∀ k, cancelled k = false.
Hypothesis Hpatient : patient ivs.

Lemma walk_dry d :
  bk_DryRun (br_spec run) = true → db_wf d → jobs d !! "" = None →
  ∀ fuel st k n l, st_fired st = [] → ahead_of st d l → length l ≤ br_maxJobs run - st_passed st →
    bu_MatchedCapped (st_result st) = false → togo st l < fuel →
    ∃ res, walk_loop fuel ccs ivs cancelled run st k n d = Some (res, None, d) ∧
           counted d (st_taken st) l (st_result st) res ∧ bu_Done res = true.
Proof.
  intros Hdry Hwf Hno. induction fuel as [|fuel IH]; intros st k n l Hfi Ha Hlen Hcap Hfuel; [lia|].
  cbn [walk_loop]. rewrite Hcan, (proj1 (pa_calm _ Hpatient k)), Hdry.
  destruct (br_batchSize run `min` (br_maxJobs run - st_passed st)) as [|lim] eqn:Elim.
  { assert (l = []) as -> by (apply nil_length_inv; lia). unfold finish. eexists. split; [done|].
    rewrite Hcap. split; [|done]. apply counted_snapshot, counted_nil. }
  destruct (read_ahead st d (S lim) (forced run) l Hwf Hno ltac:(lia) Hfi Hsorted Hids Ha) as (l1 & l2 & Hsp).
  simpl andb. set (b := readBatch run st (S lim) (forced run) d) in *.
  unfold preview. rewrite (sp_rows _ _ _ _ _ _ _ _ Hsp).
  pose proof (sp_batch _ _ _ _ _ _ _ _ Hsp) as Hb.
  rewrite (classify_pass run d (st_taken st) l1 Hwf (br_NoDup _ _ Hb)) by (intros r Hr; by apply (br_row _ _ Hb)).
  set (P := picked l1 (verdicts run d (st_taken st) l1)).
  set (st' := after_batch run st b _ _ _ [] _ false).
  assert (counted d (st_taken st) l1 (st_result st) (st_result st')) as Hc by apply counted_tally.
  pose proof (sp_split _ _ _ _ _ _ _ _ Hsp) as ->.
  destruct (bb_end b) eqn:Eend.
  - rewrite (sp_end _ _ _ _ _ _ _ _ Hsp Eend), app_nil_r. unfold finish. eexists. split; [done|].
    split; [|done]. by apply counted_snapshot.
  - destruct (sp_next _ _ _ _ _ _ _ _ Hsp st' d (keeps_refl _ _ Hwf) eq_refl eq_refl) as [Ha' Htogo].
    specialize (Htogo Eend). rewrite length_app in Hlen.
    destruct (IH st' (S k) (S n) l2) as (res & Hw & Hcn & Hdone); try done.
    + unfold st', after_batch. cbn [st_passed]. rewrite (sp_rows _ _ _ _ _ _ _ _ Hsp), length_fmap. lia.
    + lia.
    + exists res. split; [done|]. split; [|done].
      eapply counted_app; [exact Hc|exact Hcn|]. apply taken_verdicts.
Qed.

Hypothesis Hhook : ∀ k, cc_AuditHook (ccs k) = None.

(** A batch is rerun until an attempt gets through. *)
Lemma apply_calm more k j st d l :
  j ≤ more → iv_fail (ivs (k + j)) = None → db_wf d → batch_rows d l → no_parents l →
  let P := picked l (verdicts run d (st_taken st) l) in
  ∃ d' aud k' now, apply_attempts more ccs ivs run st (j_ID <$> l) k d =
    (Ok {| ba_rows := read_row (forced run) d <$> l; ba_skips := omap id (verdicts run d (st_taken st) l);
           ba_changed := read_row (forced run) d <$> P; ba_fired := [] |}, d', k') ∧
    batch_done (bulk_cols run (bu_Matched (st_result st)) (st_passed st) (j_ID <$> l) now) d P d' ∧
    job_audit d' = job_audit d ++ aud ∧
    (λ e, (a_TargetID e, a_Action e)) <$> aud =
    (λ r, (j_ID r, bulkAuditAction (bk_Action (br_spec run)))) <$> P.
Proof.
  intros Hj Hnone Hwf Hb Hnp P. revert k j Hj Hnone.
  induction more as [|more IH]; intros k j Hj Hnone; cbn [apply_attempts];
    destruct (iv_fail (ivs k)) as [e|] eqn:Ef.
  1: assert (j = 0) as -> by lia; rewrite Nat.add_0_r in Hnone; congruence.
  1,3: destruct (applyBatch_calm (ccs k) (ivs k) st d l (pa_calm _ Hpatient k) Ef (Hhook k) Hwf Hb Hnp)
    as (d' & aud & -> & Hdone & Haud & Hent); by eexists d', aud, (S k), _.
  unfold applyBatch at 1. destruct (pa_calm _ Hpatient k) as (_ & Hc2 & Hc3).
  rewrite Ef, Hc3, Hc2, (pa_retryable _ Hpatient _ _ Ef).
  destruct j as [|j]; [rewrite Nat.add_0_r in Hnone; congruence|].
  apply (IH (S k) j); [lia|]. by rewrite Nat.add_succ_comm.
Qed.

Lemma ahead_NoDup st d l : db_wf d → ahead_of st d l → NoDup (j_ID <$> l).
Proof.
  intros Hwf Ha. unfold ahead_of in Ha. destruct (br_ids run) as [|i0 ids0] eqn:E; [apply Ha|].
  rewrite Ha. eapply sublist_NoDup; [|apply picks_sublist, Hwf]. eapply sublist_NoDup; [|apply sublist_drop]. done.
Qed.

(** What an apply of the pass over [l] leaves, [p] jobs having been passed before:
    the columns, the due time among them, are those of one batch of the whole of [l]. *)
Record applied (d : db) (t : list string) (matched : Z) (p : nat) (l : list jobRow) (d' : db) : Prop := {
  ap_wf : db_wf d';
  ap_other : ∀ id, id ∉ j_ID <$> picked l (verdicts run d t l) → jobs d' !! id = jobs d !! id;
  ap_row : ∀ r, r ∈ picked l (verdicts run d t l) → ∃ now,
    jobs d' !! j_ID r = if bool_decide (bk_Action (br_spec run) = BulkDelete) then None
                        else Some (Updates (bulk_cols run matched p (j_ID <$> l) now r) r);
  ap_audit : ∃ aud, job_audit d' = job_audit d ++ aud ∧
    (λ e, (a_TargetID e, a_Action e)) <$> aud =
    (λ r, (j_ID r, bulkAuditAction (bk_Action (br_spec run)))) <$> picked l (verdicts run d t l)
}.

Lemma applied_nil d t matched p : db_wf d → applied d t matched p [] d.
Proof. split; [done..|set_solver|]. exists []. by rewrite app_nil_r. Qed.

(** A job keeps its slot whichever batch it is in. *)
Lemma find_id_app_l (l1 l2 : list jobRow) r :
  r ∈ l1 → list_find (λ id, id = j_ID r) (j_ID <$> l1 ++ l2) = list_find (λ id, id = j_ID r) (j_ID <$> l1).
Proof.
  intros Hr. destruct (list_find_elem_of (λ id, id = j_ID r) (j_ID <$> l1) (j_ID r)) as [[k x] Hf];
    [by apply list_elem_of_fmap_2|done|]. rewrite Hf, fmap_app. by apply list_find_app_l.
Qed.
Lemma find_id_app_r (l1 l2 : list jobRow) r :
  j_ID r ∉ j_ID <$> l1 → list_find (λ id, id = j_ID r) (j_ID <$> l1 ++ l2) =
    prod_map (λ k, k + length l1) id <$> list_find (λ id, id = j_ID r) (j_ID <$> l2).
Proof.
  intros Hr. rewrite fmap_app, list_find_app_r, length_fmap; [done|].
  apply list_find_None, Forall_forall. intros x Hx ->. done.
Qed.

Lemma bulk_cols_app_l matched p (l1 l2 : list jobRow) now r :
  r ∈ l1 → bulk_cols run matched p (j_ID <$> l1 ++ l2) now r = bulk_cols run matched p (j_ID <$> l1) now r.
Proof. intros Hr. unfold bulk_cols, scheduledAtValue. by rewrite find_id_app_l. Qed.
Lemma bulk_cols_app_r matched p (l1 l2 : list jobRow) now r :
  j_ID r ∉ j_ID <$> l1 →
  bulk_cols run matched p (j_ID <$> l1 ++ l2) now r = bulk_cols run matched (p + length l1) (j_ID <$> l2) now r.
Proof.
  intros Hr. unfold bulk_cols, scheduledAtValue. rewrite find_id_app_r by done.
  destruct (list_find _ (j_ID <$> l2)) as [[k x]|]; [|done]. simpl.
  replace (Z.of_nat p + Z.of_nat (k + length l1))%Z with (Z.of_nat (p + length l1) + Z.of_nat k)%Z by lia. done.
Qed.

(** One batch, then the rest. *)
Lemma applied_app d t matched p now l1 l2 d1 aud1 t1 d' :
  NoDup (j_ID <$> l1 ++ l2) →
  batch_done (bulk_cols run matched p (j_ID <$> l1) now) d (picked l1 (verdicts run d t l1)) d1 →
  job_audit d1 = job_audit d ++ aud1 →
  (λ e, (a_TargetID e, a_Action e)) <$> aud1 =
    (λ r, (j_ID r, bulkAuditAction (bk_Action (br_spec run)))) <$> picked l1 (verdicts run d t l1) →
  verdicts run d1 t1 l2 = verdicts run d (taken_after run d t l1) l2 →
  applied d1 t1 matched (p + length l1) l2 d' → applied d t matched p (l1 ++ l2) d'.
Proof.
  intros Hnd Hdone Haud1 Hent1 Hv [Hwf' Hother Hrow (aud2 & Haud2 & Hent2)].
  assert (picked (l1 ++ l2) (verdicts run d t (l1 ++ l2)) =
    picked l1 (verdicts run d t l1) ++ picked l2 (verdicts run d1 t1 l2)) as Hp.
  { rewrite verdicts_app, picked_app by (by rewrite verdicts_length). by rewrite Hv. }
  rewrite fmap_app, NoDup_app in Hnd. destruct Hnd as (_ & Hdis & _).
  pose proof (picked_sublist l1 (verdicts run d t l1)) as Hsub1.
  pose proof (picked_sublist l2 (verdicts run d1 t1 l2)) as Hsub2.
  set (P1 := picked l1 _) in *. set (P2 := picked l2 _) in *.
  assert (∀ id, id ∈ j_ID <$> P1 → id ∉ j_ID <$> P2) as Hd.
  { intros id Hx Hy. eapply (Hdis id); [eapply elem_of_sublist; [exact Hx|]|eapply elem_of_sublist; [exact Hy|]];
      by apply fmap_sublist. }
  split; rewrite ?Hp; [done|..].
  - intros id Hid. rewrite fmap_app in Hid. rewrite Hother, (bd_other _ _ _ _ Hdone) by set_solver. done.
  - intros r [Hr|Hr]%elem_of_app.
    + exists now. rewrite Hother by (apply Hd; by apply list_elem_of_fmap_2).
      rewrite bulk_cols_app_l by (by eapply elem_of_sublist). by rewrite (bd_row _ _ _ _ Hdone).
    + destruct (Hrow r Hr) as [now' Hj]. exists now'. rewrite bulk_cols_app_r; [done|].
      intros Hx. apply (Hdis _ Hx). apply list_elem_of_fmap_2. by eapply elem_of_sublist.
  - exists (aud1 ++ aud2). rewrite Haud2, Haud1, app_assoc, !fmap_app, Hent1, Hent2. done.
Qed.

Lemma bulk_cols_live matched passed slots now r :
  forced run = true → goes_live (bulk_cols run matched passed slots now r).
Proof.
  unfold forced. rewrite andb_true_iff, bool_decide_eq_true. intros [Ha _] r'. unfold bulk_cols. rewrite Ha.
  unfold retryUpdates, applyRetryBudget.
  by destruct (ro_ResetAttempts (bulk_retry run)), (ro_Budget (bulk_retry run) <=? 0)%Z.
Qed.

(** After a batch, the tables hold the keys the pass took. *)
Lemma applied_verdicts d t l1 l2 matched passed slots now d1 :
  db_wf d → NoDup (j_ID <$> l1 ++ l2) → batch_rows d l1 →
  let P := picked l1 (verdicts run d t l1) in
  batch_done (bulk_cols run matched passed slots now) d P d1 →
  verdicts run d1 (take_keys run (read_row (forced run) d <$> P) t) l2 =
  verdicts run d (taken_after run d t l1) l2.
Proof.
  intros Hwf Hnd Hb P Hdone. apply verdicts_ext. intros Hf r Hr.
  assert (j_ID r ∉ j_ID <$> P) as Hn.
  { rewrite fmap_app, NoDup_app in Hnd. destruct Hnd as (_ & Hdis & _). intros Hx. apply (Hdis (j_ID r)).
    - eapply elem_of_sublist; [exact Hx|apply fmap_sublist, picked_sublist].
    - by apply list_elem_of_fmap_2. }
  assert (bk_Action (br_spec run) ≠ BulkDelete) as Hact.
  { unfold forced in Hf. apply andb_true_iff in Hf as [Hf _]. apply bool_decide_eq_true in Hf. congruence. }
  split.
  - rewrite (held_after_batch _ d P d1 r (λ r, bulk_cols_live matched passed slots now r Hf) Hwf Hact); [| |done..].
    + rewrite (take_keys_has t d _ r Hf), (taken_after_has d t l1 r Hf). fold P.
      by destruct (activeKeyHeld d r), (has_taken (omap _ P) r), (has_taken t r).
    + intros r' Hr'. apply (br_row _ _ Hb). eapply elem_of_sublist; [exact Hr'|apply picked_sublist].
  - unfold cancelledAttemptStillRuns, attemptStillRuns. f_equal. apply bool_decide_ext. unfold map_Exists.
    split; intros (id & lr & Hl & Hj & Hrest); exists id, lr;
      (split; [by apply (bd_runs _ _ _ _ Hdone r id lr Hn Hj)|done]).
Qed.

Lemma probe_none st d : db_wf d → ahead_of st d [] → probe (S (size (jobs d))) run st d = Some false.
Proof.
  intros Hwf Ha. unfold probe, ahead_of in *. destruct (br_ids run) as [|i0 ids0] eqn:Eids; [|done].
  cbn [probe_from].
  assert (select_jobs (λ r, selection run [] d r && negb (bool_decide (bytes_le (j_ID r) (st_cursor st)))) d = []) as ->.
  { apply Permutation_nil_r. unfold select_jobs. rewrite scan_perm. rewrite filter_none; [done|].
    intros r [id Hr]%elem_of_table Hx. rewrite !andb_true_iff in Hx. destruct Hx as [[Hs Hp] Hd].
    pose proof (wf_keyed _ Hwf _ _ Hr) as <-. apply (not_elem_of_nil r). apply (rem_elem _ _ _ _ Ha).
    split_and!; try done; [unfold selection in Hs; unfold sel_row; by rewrite Eids in *|].
    unfold past. by destruct (is_empty _). }
  change (page id_le (br_batchSize run) []) with (take (br_batchSize run) (@nil jobRow)). rewrite take_nil.
  simpl. by rewrite (proj2 (Nat.ltb_lt _ _) Hsize).
Qed.

(** The walk after a batch of an apply. *)
Record stepped (st : bulkState) (d : db) (l1 : list jobRow) (b : bulkBatch) (st' : bulkState) (d1 : db) : Prop := {
  se_cursor : st_cursor st' = bb_last b ∧ st_next st' = bb_next b;
  se_passed : st_passed st' = st_passed st + length l1;
  se_fired : st_fired st' = [];
  se_taken : st_taken st' =
    take_keys run (read_row (forced run) d <$> picked l1 (verdicts run d (st_taken st) l1)) (st_taken st);
  se_counted : counted d (st_taken st) l1 (st_result st) (st_result st');
  se_done : ∃ now, batch_done (bulk_cols run (bu_Matched (st_result st)) (st_passed st) (j_ID <$> l1) now) d
    (picked l1 (verdicts run d (st_taken st) l1)) d1;
  se_audit : ∃ aud, job_audit d1 = job_audit d ++ aud ∧
    (λ e, (a_TargetID e, a_Action e)) <$> aud =
    (λ r, (j_ID r, bulkAuditAction (bk_Action (br_spec run)))) <$> picked l1 (verdicts run d (st_taken st) l1)
}.

Lemma apply_read_steps st d l1 b k :
  db_wf d → batch_rows d l1 → no_parents l1 → st_fired st = [] → bb_rows b = read_row false d <$> l1 →
  ∃ st' d1 k', apply_read ccs ivs run st b k d = (Ok st', d1, k') ∧ stepped st d l1 b st' d1.
Proof.
  intros Hwf Hb Hnp Hfi Hrows. unfold apply_read. rewrite Hrows.
  destruct (read_row false d <$> l1) as [|c0 cs] eqn:El.
  - apply fmap_nil_inv in El as ->. eexists _, d, _. split; [done|]. split; simpl; try done.
    + by rewrite Hrows.
    + exists 0%Z. split; try done. set_solver.
    + exists []. by rewrite app_nil_r.
  - rewrite <-El, read_rows_ids. destruct (pa_four _ Hpatient k) as (j & Hj & Hnone).
    destruct (apply_calm replayBatchRetries k j st d l1 Hj Hnone Hwf Hb Hnp)
      as (d' & aud & k' & now & -> & Hdone & Haud & Hent).
    eexists _, d', k'. split; [done|]. split; [done| |done|done| | |].
    + simpl. by rewrite Hrows, <-El, length_fmap.
    + apply counted_tally.
    + by eexists.
    + by exists aud.
Qed.

Lemma walk_apply :
  bk_DryRun (br_spec run) = false →
  ∀ fuel st k n l d, db_wf d → jobs d !! "" = None → st_fired st = [] → ahead_of st d l →
    length l ≤ br_maxJobs run - st_passed st → no_parents l → togo st l < fuel →
    ∃ res d', walk_loop fuel ccs ivs cancelled run st k n d = Some (res, None, d') ∧
      counted d (st_taken st) l (st_result st) res ∧ bu_Done res = true ∧
      applied d (st_taken st) (bu_Matched (st_result st)) (st_passed st) l d'.
Proof.
  intros Hdry. induction fuel as [|fuel IH]; intros st k n l d Hwf Hno Hfi Ha Hlen Hnp Hfuel; [lia|].
  cbn [walk_loop]. rewrite Hcan, (proj1 (pa_calm _ Hpatient k)), Hdry.
  destruct (br_batchSize run `min` (br_maxJobs run - st_passed st)) as [|lim] eqn:Elim.
  { assert (l = []) as -> by (apply nil_length_inv; lia). rewrite (probe_none st d Hwf Ha). eexists _, d.
    split; [done|]. split_and!; [apply counted_snapshot, counted_nil|done|by apply applied_nil]. }
  destruct (read_ahead st d (S lim) false l Hwf Hno ltac:(lia) Hfi Hsorted Hids Ha) as (l1 & l2 & Hsp).
  simpl andb. set (b := readBatch run st (S lim) false d) in *.
  pose proof (sp_split _ _ _ _ _ _ _ _ Hsp) as ->. pose proof (sp_batch _ _ _ _ _ _ _ _ Hsp) as Hb.
  pose proof (ahead_NoDup _ _ _ Hwf Ha) as Hnd.
  assert (no_parents l1 ∧ no_parents l2) as [Hnp1 Hnp2] by (split; intros Hx r Hr; apply Hnp; set_solver).
  destruct (apply_read_steps st d l1 b k Hwf Hb Hnp1 Hfi (sp_rows _ _ _ _ _ _ _ _ Hsp))
    as (st' & d1 & k' & -> & [[Hcur Hnext] Hpass Hfi' Htk Hcnt (nw & Hdone) (aud & Haud & Hent)]).
  rewrite length_app in Hlen.
  pose proof (applied_verdicts d (st_taken st) l1 l2 _ _ _ _ d1 Hwf Hnd Hb Hdone) as Hv. rewrite <-Htk in Hv.
  pose proof (applied_app d (st_taken st) (bu_Matched (st_result st)) (st_passed st) nw l1 l2 d1 aud (st_taken st')) as Happ.
  destruct (bb_end b) eqn:Eend.
  - rewrite (sp_end _ _ _ _ _ _ _ _ Hsp Eend) in *. eexists _, d1. split; [done|]. rewrite app_nil_r in *.
    split_and!; [by apply counted_snapshot|done|]. eapply Happ; try done. apply applied_nil, Hdone.
  - destruct (sp_next _ _ _ _ _ _ _ _ Hsp st' d1) as [Ha' Htogo]; [|done..|].
    { eapply done_keeps; [apply picked_sublist|exact Hdone]. }
    destruct (IH st' k' (S n) l2 d1) as (res & d' & Hw & Hcn & Hdn & Hap); try done.
    + apply Hdone.
    + rewrite (bd_other _ _ _ _ Hdone); [done|]. intros (r & Er & Hr)%list_elem_of_fmap.
      assert (r ∈ l1) as Hin by (eapply elem_of_sublist; [exact Hr|apply picked_sublist]).
      destruct (br_row _ _ Hb r Hin) as [Hj _]. congruence.
    + lia.
    + specialize (Htogo Eend). lia.
    + exists res, d'. split; [done|]. split_and!; [by eapply counted_app|done|].
      eapply Happ; try done. destruct (cn_matched _ _ _ _ _ Hcnt) as [Hm _]. by rewrite Hm, Hpass in Hap.
Qed.
End walk.
End batch.
