(* ===== verification/BulkRun.v ===== *)
(** * Bulk runs: the theorems about BulkJobs

    A dry run and an undisturbed apply of the same spec, the refusal of a selection
    past MaxJobs, what one batch may change whatever else commits beside it, and the
    bound on what a call changes. *)

From S2P Require Import Prelude Types Text Fingerprint Store Insert Barrier Claim Sweep Controls Retention Batch Replay Query Bulk BulkWalk.

(** ** The ids of a spec *)

Lemma Compact_sublist l : Compact l `sublist_of` l.
Proof.
  induction l as [|x l IH]; [done|]. destruct l as [|y l]; [done|]. cbn [Compact].
  case_bool_decide; [by apply sublist_cons|by apply sublist_skip].
Qed.

Lemma Compact_NoDup l : StronglySorted bytes_le l → NoDup (Compact l).
Proof.
  induction l as [|x l IH]; [constructor|]. intros [Hs Hx]%StronglySorted_inv.
  destruct l as [|y l]; [apply NoDup_singleton|]. cbn [Compact]. case_bool_decide as Hxy; [auto|].
  constructor; [|auto]. intros Hin. apply Hxy. pose proof (elem_of_sublist _ _ _ Hin (Compact_sublist (y :: l))) as Hin'.
  apply StronglySorted_inv in Hs as [_ Hy]. rewrite Forall_forall in Hx, Hy.
  apply (anti_symm bytes_le); [apply Hx; set_solver|].
  apply elem_of_cons in Hin' as [->|Hin']; [by destruct (total bytes_le y y)|by apply Hy].
Qed.

Lemma sortedUnique_sorted ids : StronglySorted bytes_le (sortedUnique ids).
Proof. eapply sorted_sublist; [apply Compact_sublist|apply (StronglySorted_merge_sort bytes_le)]. Qed.
Lemma sortedUnique_NoDup ids : NoDup (sortedUnique ids).
Proof. apply Compact_NoDup, (StronglySorted_merge_sort bytes_le). Qed.

(** ** Resolved runs *)

(** The same call as a dry run or an apply. *)
Definition with_dry (b : bool) (s : BulkSpec) : BulkSpec :=
  {| bk_Query := bk_Query s; bk_IDs := bk_IDs s; bk_Action := bk_Action s; bk_DryRun := b;
     bk_MaxJobs := bk_MaxJobs s; bk_BatchSize := bk_BatchSize s; bk_After := bk_After s;
     bk_MaxID := bk_MaxID s; bk_OperationID := bk_OperationID s; bk_RescheduleAt := bk_RescheduleAt s;
     bk_Retry := bk_Retry s; bk_Stagger := bk_Stagger s |}.
(** The same run by another actor at another time, dry or not. *)
Definition run_as (b : bool) (actor : Actor) (now : Z) (run : bulkRun) : bulkRun :=
  {| br_spec := with_dry b (br_spec run); br_actor := actor; br_maxJobs := br_maxJobs run;
     br_batchSize := br_batchSize run; br_ids := br_ids run; br_sources := br_sources run;
     br_now := now |}.

(** What resolving a spec settles. *)
Record resolved (run : bulkRun) : Prop := {
  rv_sources : br_sources run = bulkSources (br_spec run);
  rv_sorted : StronglySorted bytes_le (br_ids run);
  rv_NoDup : NoDup (br_ids run);
  rv_size : 0 < br_batchSize run;
  rv_ids : length (br_ids run) ≤ br_maxJobs run;
  rv_action : bk_Action (br_spec run) ∈ bulkActions
}.

Lemma bulk_batchSize_pos s : (0 < bulk_batchSize s)%Z.
Proof.
  unfold bulk_batchSize, defaultBulkBatchSize, maxBulkBatchSize.
  destruct (Z.leb_spec (bk_BatchSize s) 0); [done|]. by destruct (Z.ltb_spec 5000 (bk_BatchSize s)).
Qed.

Lemma newBulkRun_resolved `{GoLib} cc dialect s run :
  newBulkRun cc dialect s = Ok run → resolved run ∧ br_spec run = s.
Proof.
  unfold newBulkRun. destruct (resolveActor cc) as [actor|]; [|done]. cbn beta iota.
  destruct (bool_decide (bk_Action s ∈ _)) eqn:Ea; [|done]. apply bool_decide_eq_true in Ea. cbn [negb].
  destruct ((bk_MaxJobs s <? 0) || _)%Z; [done|].
  destruct (Z.ltb_spec (bulk_maxJobs s) (Z.of_nat (length (sortedUnique (bk_IDs s))))) as [|Hlen]; [done|].
  destruct (bool_decide _ && _); [done|]. destruct (validateBulkOptions s); [done|].
  destruct (validateJobFilter _ _ _); [done|]. destruct (negb _ && _); [done|]. intros [= <-].
  split; [|done]. split; simpl; [done|apply sortedUnique_sorted|apply sortedUnique_NoDup| |lia|done].
  pose proof (bulk_batchSize_pos s). lia.
Qed.

Lemma newBulkRun_Ok `{GoLib} cc dialect s run :
  newBulkRun cc dialect s = Ok run →
  run = {| br_spec := s; br_actor := br_actor run; br_maxJobs := Z.to_nat (bulk_maxJobs s);
           br_batchSize := Z.to_nat (bulk_batchSize s); br_ids := sortedUnique (bk_IDs s);
           br_sources := bulkSources s; br_now := br_now run |}.
Proof.
  unfold newBulkRun. destruct (resolveActor cc) as [actor|]; [|done]. cbn beta iota.
  repeat (case_match; [try done|try done]); by intros [= <-].
Qed.

Lemma newBulkRun_limit `{GoLib} cc dialect s run :
  newBulkRun cc dialect s = Ok run →
  Z.of_nat (br_maxJobs run) = bulk_maxJobs s ∧ (0 ≤ bulk_maxJobs s ≤ MaxBulkJobs)%Z.
Proof.
  unfold newBulkRun. destruct (resolveActor cc) as [actor|]; [|done]. cbn beta iota.
  destruct (negb (bool_decide (bk_Action s ∈ _))); [done|].
  destruct ((bk_MaxJobs s <? 0) || _)%Z eqn:Em; [done|].
  apply orb_false_iff in Em as [H0%Z.ltb_ge H1%Z.ltb_ge].
  assert (0 ≤ bulk_maxJobs s ≤ MaxBulkJobs)%Z as Hm.
  { unfold bulk_maxJobs, DefaultBulkMaxJobs, MaxBulkJobs in *. destruct (bk_MaxJobs s =? 0)%Z; lia. }
  repeat (case_match; [try done|try done]); intros [= <-]; (split; [|done]); cbn [br_maxJobs]; lia.
Qed.

(** Dry or not, by whoever and whenever: the same jobs in the same batches. *)
Lemma newBulkRun_as `{GoLib} cc cc' dialect s b run run' :
  newBulkRun cc dialect (with_dry true s) = Ok run → newBulkRun cc' dialect (with_dry b s) = Ok run' →
  run' = run_as b (br_actor run') (br_now run') run.
Proof. intros ->%newBulkRun_Ok ->%newBulkRun_Ok. reflexivity. Qed.

(** ** The selected jobs and their count *)

Section runs.
Context `{GoLib} `{QueryLib} `{Foundation} `{RowOrder} (run : bulkRun).

(** The jobs a run selects, in the order it visits them. *)
Definition selected (d : db) : list jobRow :=
  match br_ids run with
  | [] => merge_sort id_le (select_jobs (sel_row run d) d)
  | ids => omap (pick run d) ids
  end.

Lemma sel_row_past d r : sel_row run d r = true → past (bk_After (br_spec run)) (j_ID r) = true.
Proof. unfold sel_row. rewrite !andb_true_iff. by intros [[_ ?] _]. Qed.

Lemma selected_ahead d matched :
  db_wf d → ahead_of run (start_state run matched) d (selected d).
Proof.
  intros Hwf. unfold ahead_of, selected. destruct (br_ids run) as [|i0 ids0]; [|done]. simpl.
  assert (select_jobs (sel_row run d) d =
    select_jobs (λ r, sel_row run d r && past (bk_After (br_spec run)) (j_ID r)) d) as ->.
  { apply select_jobs_ext. intros r. pose proof (sel_row_past d r) as Hp.
    destruct (sel_row run d r); simpl; [|done]. by rewrite Hp. }
  apply remaining_start, (wf_keyed _ Hwf).
Qed.

(** The jobs a chunk of the ids names. *)
Lemma upTo_chunk d limit chunk i0 ids0 :
  br_ids run = i0 :: ids0 → db_wf d → StronglySorted bytes_le chunk → NoDup chunk → length chunk ≤ limit →
  upTo limit (selection run chunk d) d = length (omap (pick run d) chunk).
Proof.
  intros Eids Hwf Hs Hnd Hlen. unfold upTo.
  assert (merge_sort id_le (select_jobs (selection run chunk d) d) = omap (pick run d) chunk) as He.
  { eapply remaining_unique; [|by apply picks_remaining].
    pose proof (remaining_start (selection run chunk d) "" d (wf_keyed _ Hwf)) as Hr.
    assert (∀ r, selection run chunk d r && past "" (j_ID r) = sel_row run d r && str_mem (j_ID r) chunk) as Hx.
    { intros r. unfold selection, sel_row. rewrite Eids. simpl. destruct (str_mem _ _), (past _ _), (when_text _ _); done. }
    assert (select_jobs (λ r, selection run chunk d r && past "" (j_ID r)) d = select_jobs (selection run chunk d) d) as Hy.
    { apply select_jobs_ext. intros r. apply andb_true_r. }
    rewrite Hy in Hr. destruct Hr as [R1 R2 R3]. split; [done..|]. intros r. rewrite R3, <-Hx, andb_true_iff. naive_solver. }
  assert (length (select_jobs (selection run chunk d) d) = length (omap (pick run d) chunk)) as Hl.
  { rewrite <-He. by rewrite (merge_sort_Permutation id_le). }
  rewrite length_take, Hl. pose proof (sublist_length _ _ (picks_sublist run d chunk Hwf)) as Hp. rewrite length_fmap in Hp. lia.
Qed.

Lemma count_chunks_exact d limit i0 ids0 :
  br_ids run = i0 :: ids0 → db_wf d → 0 < br_batchSize run →
  ∀ fuel ids total, StronglySorted bytes_le ids → NoDup ids → length ids ≤ fuel → total + length ids < limit →
    count_chunks fuel run limit ids total d = total + length (omap (pick run d) ids).
Proof.
  intros Eids Hwf Hsize. induction fuel as [|fuel IH]; intros [|id ids] total Hs Hnd Hf Hlim;
    [simpl; lia|simpl in Hf; lia|simpl; lia|]. cbn [count_chunks].
  rewrite (proj2 (Nat.ltb_lt total limit)) by lia. set (l := id :: ids) in *.
  pose proof (take_drop (br_batchSize run) l) as Htd.
  assert (0 < length l) by (simpl; lia).
  assert (length (omap (pick run d) (take (br_batchSize run) l)) ≤ length (take (br_batchSize run) l)).
  { pose proof (sublist_length _ _ (picks_sublist run d (take (br_batchSize run) l) Hwf)) as Hp.
    by rewrite length_fmap in Hp. }
  rewrite (upTo_chunk d limit _ i0 ids0 Eids Hwf).
  - rewrite IH.
    + rewrite <-Htd at 3. rewrite omap_app, length_app. lia.
    + eapply sorted_sublist; [apply sublist_drop|done].
    + eapply sublist_NoDup; [done|apply sublist_drop].
    + rewrite length_drop. lia.
    + rewrite length_drop. rewrite length_take in *. lia.
  - eapply sorted_sublist; [apply sublist_take|done].
  - eapply sublist_NoDup; [done|apply sublist_take].
  - rewrite length_take. lia.
Qed.

(** The count is exact up to MaxJobs + 1. *)
Lemma countSelection_exact d :
  resolved run → db_wf d → countSelection run d = S (br_maxJobs run) `min` length (selected d).
Proof.
  intros [_ Hs Hnd Hsize Hlen _] Hwf. unfold countSelection, selected.
  destruct (br_ids run) as [|i0 ids0] eqn:Eids.
  - unfold upTo. rewrite length_take. f_equal. rewrite (merge_sort_Permutation id_le).
    f_equal. apply select_jobs_ext. intros r. unfold selection, sel_row. by rewrite Eids.
  - rewrite (count_chunks_exact d _ i0 ids0 Eids Hwf Hsize) by (done || lia).
    pose proof (sublist_length _ _ (picks_sublist run d (i0 :: ids0) Hwf)) as Hp. rewrite length_fmap in Hp. lia.
Qed.

(** A walk has at most this far to go. *)
Definition bulk_fuel (d : db) : nat := S (size (jobs d) + length (br_ids run)).

Lemma selected_size d : db_wf d → length (selected d) ≤ size (jobs d) + length (br_ids run).
Proof.
  intros Hwf. unfold selected. destruct (br_ids run) as [|i0 ids0].
  - rewrite (merge_sort_Permutation id_le). unfold select_jobs. rewrite scan_perm, length_filter, length_fmap.
    by rewrite length_map_to_list, Nat.add_0_r.
  - pose proof (sublist_length _ _ (picks_sublist run d (i0 :: ids0) Hwf)) as Hp. rewrite length_fmap in Hp. lia.
Qed.

Lemma start_togo d matched : db_wf d → togo run (start_state run matched) (selected d) < bulk_fuel d.
Proof.
  intros Hwf. pose proof (selected_size d Hwf). unfold togo, bulk_fuel.
  destruct (br_ids run) as [|i0 ids0] eqn:E; [lia|]. simpl st_next. lia.
Qed.
End runs.

(** ** A preview and an apply *)

(** The two results agree on everything but the sample and the batch count. *)
Record same_report (a b : BulkResult) : Prop := {
  sm_matched : bu_Matched a = bu_Matched b; sm_capped : bu_MatchedCapped a = bu_MatchedCapped b;
  sm_changed : bu_Changed a = bu_Changed b; sm_skipped : bu_Skipped a = bu_Skipped b;
  sm_state : bu_ByState a = bu_ByState b; sm_kind : bu_ByKind a = bu_ByKind b;
  sm_done : bu_Done a = bu_Done b
}.

Section preview.
Context `{GoLib} `{QueryLib} `{Foundation} `{RowOrder}.
Context (ccs : nat → control) (ivs : nat → interference) (cancelled : nat → bool) (dialect : string).
Hypothesis Hcan : ∀ k, cancelled k = false.
Hypothesis Hpatient : patient ivs.

(** A walk that is not refused starts. *)
Lemma walk_starts fuel run d :
  resolved run → db_wf d → length (selected run d) ≤ br_maxJobs run →
  let st := start_state run (length (selected run d)) in
  walk fuel ccs ivs false cancelled run d = walk_loop fuel ccs ivs cancelled run st 0 0 d ∧
  bu_MatchedCapped (st_result st) = false ∧ bu_Matched (st_result st) = Z.of_nat (length (selected run d)).
Proof.
  intros Hrv Hwf Hlen st. unfold walk. rewrite (countSelection_exact run d Hrv Hwf).
  replace (S (br_maxJobs run) `min` length (selected run d)) with (length (selected run d)) by lia. fold st.
  assert (bu_MatchedCapped (st_result st) = false) as Hc by (simpl; apply Nat.ltb_ge; lia).
  rewrite Hc. split_and!; [done..|]. simpl. lia.
Qed.

Lemma dry_counts fuel run d :
  resolved run → db_wf d → jobs d !! "" = None → bk_DryRun (br_spec run) = true →
  length (selected run d) ≤ br_maxJobs run → bulk_fuel run d ≤ fuel →
  ∃ res, walk fuel ccs ivs false cancelled run d = Some (res, None, d) ∧
    counted run d [] (selected run d) (st_result (start_state run (length (selected run d)))) res ∧
    bu_Done res = true.
Proof.
  intros Hrv Hwf Hno Hdry Hlen Hfuel.
  destruct (walk_starts fuel run d Hrv Hwf Hlen) as (-> & Hcap & _).
  pose proof (start_togo run d (length (selected run d)) Hwf).
  apply (walk_dry run (rv_sources _ Hrv) ccs ivs cancelled (rv_sorted _ Hrv) (rv_NoDup _ Hrv) (rv_size _ Hrv)
           Hcan Hpatient d Hdry Hwf Hno);
    [done|by apply selected_ahead|simpl; lia|done|lia].
Qed.

Hypothesis Hhook : ∀ k, cc_AuditHook (ccs k) = None.

Lemma apply_counts fuel run d :
  resolved run → db_wf d → jobs d !! "" = None → bk_DryRun (br_spec run) = false →
  length (selected run d) ≤ br_maxJobs run → no_parents run (selected run d) → bulk_fuel run d ≤ fuel →
  ∃ res d', walk fuel ccs ivs false cancelled run d = Some (res, None, d') ∧
    counted run d [] (selected run d) (st_result (start_state run (length (selected run d)))) res ∧
    bu_Done res = true ∧ applied run d [] (Z.of_nat (length (selected run d))) 0 (selected run d) d'.
Proof.
  intros Hrv Hwf Hno Hdry Hlen Hnp Hfuel.
  destruct (walk_starts fuel run d Hrv Hwf Hlen) as (-> & Hcap & Hm).
  pose proof (start_togo run d (length (selected run d)) Hwf). rewrite <-Hm.
  apply (walk_apply run (rv_sources _ Hrv) ccs ivs cancelled (rv_sorted _ Hrv) (rv_NoDup _ Hrv)
           (rv_size _ Hrv) Hcan Hpatient Hhook Hdry); [done..|by apply selected_ahead|simpl; lia|done|lia].
Qed.
End preview.

(** ** The theorems *)

(** The jobs one pass in id order changes: each decided by its state and flags, and
    by the keys the jobs before it took. *)
Definition changes_of `{QueryLib} `{RowOrder} (run : bulkRun) (d : db) : list jobRow :=
  picked (selected run d) (verdicts run d [] (selected run d)).

Section theorems.
Context `{GoLib} `{QueryLib} `{Foundation} `{RowOrder}.
Context (ccs ccs' : nat → control) (ivs ivs' : nat → interference) (cancelled : nat → bool) (dialect : string).
Context (s : BulkSpec) (d : db) (run : bulkRun).
Hypothesis Hcan : ∀ k, cancelled k = false.
Hypothesis Hwf : db_wf d.
Hypothesis Hno : jobs d !! "" = None.
Hypothesis Hrun : newBulkRun (ccs 0) dialect (with_dry true s) = Ok run.



(** An apply whose selection passes MaxJobs is refused before it writes anything:
    Matched stays at MaxJobs, MatchedCapped is set, nothing is counted or changed. *)
Theorem bulk_too_large fuel run' :
  newBulkRun (ccs' 0) dialect (with_dry false s) = Ok run' → br_maxJobs run' < length (selected run' d) →
  ∃ res, BulkJobs fuel ccs' ivs' false cancelled dialect (with_dry false s) d = Some (res, Some ErrBulkTooLarge, d) ∧
    bu_Matched res = Z.of_nat (br_maxJobs run') ∧ bu_MatchedCapped res = true ∧ bu_Changed res = 0%Z ∧
    bu_Skipped res = ∅ ∧ bu_Done res = false ∧ bu_ResumeAfter res = bk_After s.
Proof.
  intros Hrun' Hlen. destruct (newBulkRun_resolved _ _ _ _ Hrun') as [Hrv Hs].
  unfold BulkJobs, walk. rewrite Hrun', (countSelection_exact run' d Hrv Hwf).
  replace (S (br_maxJobs run') `min` length (selected run' d)) with (S (br_maxJobs run')) by lia.
  assert (bu_MatchedCapped (st_result (start_state run' (S (br_maxJobs run')))) = true) as Hc
    by (simpl; apply Nat.ltb_lt; lia).
  rewrite Hc, Hs. simpl andb. cbv iota. eexists. split; [done|].
  cbn [snapshot bu_Matched bu_MatchedCapped bu_Changed bu_Skipped bu_Done bu_ResumeAfter start_state st_result st_cursor].
  rewrite Hs. split_and!; [lia|apply Nat.ltb_lt; lia|done..].
Qed.
End theorems.

(** ** One batch beside other connections *)

Lemma filter_length_le {A : Type} (P Q : A → Prop) `{!∀ x, Decision (P x)} `{!∀ x, Decision (Q x)} (l : list A) :
  (∀ x, x ∈ l → P x → Q x) → length (filter P l) ≤ length (filter Q l).
Proof.
  induction l as [|x l IH]; intros HPQ; [done|]. rewrite !filter_cons.
  pose proof (IH (λ y Hy, HPQ y ltac:(set_solver))). pose proof (HPQ x ltac:(set_solver)).
  repeat case_decide; simpl; try lia. tauto.
Qed.

Section safety.
Context `{GoLib} `{QueryLib} `{Foundation} `{RowOrder} (run : bulkRun).
Hypothesis Hrv : resolved run.

Lemma fire_parents_keeps ctx n parents d fired d' :
  fire_parents ctx n parents d = Ok (fired, d') → db_wf d → db_wf d' ∧ job_audit d' = job_audit d.
Proof.
  revert n d fired. induction parents as [|p parents IH]; intros n d fired; simpl; [by intros [= <- <-]|].
  destruct (fireBarrierIfComplete ctx n p "" d) as [[ok d1]|] eqn:Ef; [|done].
  destruct (fire_parents ctx (S n) parents d1) as [[fired1 d2]|] eqn:Er; [|done]. intros [= _ <-] Hwf.
  destruct (IH _ _ _ Er (wf_fireBarrier _ _ _ _ _ _ _ Ef Hwf)) as [? ->]. split; [done|].
  apply fireBarrier_Ok in Ef as [(_ & -> & _)|(_ & _ & kind & row & _ & _ & _ & ->)]; [done|].
  change (job_audit (insertSkippingConflicts [row] d) = job_audit d). apply insert_skipping_rest.
Qed.

Lemma never_running r : state_in (j_State r) (bulkSources (br_spec run)) = true → j_State r ≠ StateRunning.
Proof.
  intros Hs E. rewrite E in Hs. unfold bulkSources, retryStateStrings in Hs.
  destruct (bk_Action (br_spec run)); try done. simpl in Hs. by destruct (ro_Force _).
Qed.

(** A row a batch may change, as the tables stand when it writes. *)
Record may_change (ids : list string) (d1 d2 : db) (r : jobRow) : Prop := {
  mc_asked : j_ID r ∈ ids;
  mc_row : jobs d2 !! j_ID r = Some r ∧ not_deleted r = true;
  mc_selected : sel_row run d1 r = true;
  mc_source : state_in (j_State r) (bulkSources (br_spec run)) = true ∧ j_State r ≠ StateRunning;
  mc_forced : forced run = true → bk_Action (br_spec run) ≠ BulkDelete →
    activeKeyHeld d2 r = false ∧ cancelledAttemptStillRuns d2 r = false
}.

Lemma locked_row ids d1 c :
  db_wf d1 → c ∈ lockCandidates run ids d1 →
  c = read_row (forced run) d1 (bc_row c) ∧ jobs d1 !! bc_ID c = Some (bc_row c) ∧
  not_deleted (bc_row c) = true ∧ sel_row run d1 (bc_row c) = true ∧ bc_ID c ∈ ids.
Proof.
  intros Hwf (r & -> & Hr)%list_elem_of_fmap. rewrite (merge_sort_Permutation id_le), elem_of_select in Hr.
  destruct Hr as (Hc & Hd & id & Hj). pose proof (wf_keyed _ Hwf _ _ Hj) as <-.
  rewrite candidates_eq, andb_true_iff in Hc. destruct Hc as [Hs Hin]. apply bool_decide_eq_true in Hin. done.
Qed.

(** What the write did, whatever had changed since the lock. *)
Record batch_wrote (d2 : db) (change : list bulkCandidate) (moved : list string) (d3 : db) : Prop := {
  bw_wf : db_wf d3;
  bw_audit : job_audit d3 = job_audit d2;
  bw_other : ∀ id, id ∉ moved → jobs d3 !! id = jobs d2 !! id;
  bw_asked : ∀ id, id ∈ moved → id ∈ bc_ID <$> change;
  bw_forced : ∀ id, id ∈ moved → forced run = true → ∃ r, jobs d2 !! id = Some r ∧
    activeKeyHeld d2 r = false ∧ cancelledAttemptStillRuns d2 r = false
}.

Lemma forced_not_delete : bk_Action (br_spec run) = BulkDelete → forced run = false.
Proof. unfold forced. by intros ->. Qed.

Lemma write_wrote matched passed change slots now d2 moved d3 :
  db_wf d2 → bulk_write run matched passed change slots now d2 = Ok (moved, d3) → batch_wrote d2 change moved d3.
Proof.
  intros Hwf. unfold bulk_write. case_bool_decide as Ha.
  - pose proof (wf_deleteJobRows (bc_ID <$> change) d2 Hwf) as Hwf3.
    pose proof (λ id, lookup_delete_rows (bc_ID <$> change) d2 id (wf_keyed _ Hwf)) as Hlk.
    assert (job_audit (deleteJobRows (bc_ID <$> change) d2).2 = job_audit d2) as Haud by done.
    destruct (deleteJobRows _ d2) as [n d3']. destruct (n =? _)%Z; [|done]. intros [= <- <-]. simpl in *.
    split; [done..| |done|].
    + intros id Hid. rewrite Hlk. unfold str_mem. by rewrite bool_decide_false.
    + intros id _ Hf. by rewrite (forced_not_delete Ha) in Hf.
  - intros Hu. apply updateJobs_Ok in Hu; [|apply Hwf].
    assert (db_wf d3) as Hwf3.
    { eapply wf_updated; [|exact Hu|done]. intros r Hr Hg. apply bulk_cols_wf; [apply Hrv|done..|].
      unfold bulk_guard in Hg. rewrite !andb_true_iff in Hg. tauto. }
    destruct Hu as [-> _ _ _ Hids]. split; [done..| | |].
    + intros id Hid. rewrite lookup_update_each. destruct (jobs d2 !! id) as [r|] eqn:Hr; [|done]. simpl.
      destruct (bulk_guard _ _ _ r && not_deleted r) eqn:Hg; [|done]. apply andb_true_iff in Hg as [? ?].
      exfalso. apply Hid, Hids. eauto.
    + intros id (r & Hr & Hg & _)%Hids. unfold bulk_guard in Hg. rewrite candidates_eq, !andb_true_iff in Hg.
      destruct Hg as [[[_ Hin] _] _]. apply bool_decide_eq_true in Hin. by rewrite (wf_keyed _ Hwf _ _ Hr) in Hin.
    + intros id (r & Hr & Hg & _)%Hids Hf. exists r. split; [done|]. unfold bulk_guard in Hg.
      rewrite Hf, !andb_true_iff, !negb_true_iff in Hg. tauto.
Qed.

Lemma classify_counts taken rows : let '(change, skips) := classify run taken rows in
  length change + length skips = length rows.
Proof.
  unfold classify. set (live := if forced run then _ else _). clearbody live.
  induction rows as [|c rows IH]; [done|].
  destruct (verdict run live c) as [v|] eqn:E;
    [rewrite filter_cons_False by congruence|rewrite filter_cons_True by done]; csimpl; rewrite E; csimpl; lia.
Qed.

(** The rows a batch reports are among those it classified as changed. *)
Lemma reported_classified taken ids d1 d2 change skips moved d3 c :
  db_wf d1 → classify run taken (lockCandidates run ids d1) = (change, skips) →
  batch_wrote d2 change moved d3 → c ∈ lockCandidates run ids d1 → str_mem (bc_ID c) moved = true →
  c ∈ change ∧ state_in (bc_State c) (br_sources run) = true.
Proof.
  intros Hwf Hcl Hw Hc Hm. apply bool_decide_eq_true in Hm. apply (bw_asked _ _ _ _ Hw) in Hm.
  apply list_elem_of_fmap in Hm as (c' & Hid & Hc'). unfold classify in Hcl. injection Hcl as <- _.
  apply list_elem_of_filter in Hc' as Hf. destruct Hf as [Hv Hl].
  destruct (locked_row _ _ _ Hwf Hc) as (E & Hj & _), (locked_row _ _ _ Hwf Hl) as (E' & Hj' & _).
  rewrite Hid in Hj. rewrite Hj' in Hj. injection Hj as Hrow. rewrite <-Hrow, <-E' in E. subst c'.
  split; [done|]. apply skipReason_source. unfold verdict in Hv. by destruct (skipReason run c).
Qed.
End safety.

(** One attempt, whatever had changed by the time it locks and by the time it writes. *)
Lemma applyBatch_cases `{GoLib} `{QueryLib} `{Foundation} `{RowOrder} cc iv run st ids d out d' :
  resolved run → applyBatch cc iv run st ids d = (out, d') →
  let d1 := iv_lock iv d in
  let d2 := iv_update iv d1 in
  let locked := lockCandidates run ids d1 in
  db_wf d1 → db_wf d2 →
  db_wf d' ∧
  match out with
  | Err _ => d' = d2
  | Ok b =>
    ba_rows b = locked ∧ length (ba_changed b) + length (ba_skips b) ≤ length locked ∧
    (ba_changed b = [] ∧ d' = d1 ∨
     (∀ c, c ∈ ba_changed b → c ∈ locked ∧ state_in (bc_State c) (br_sources run) = true ∧
        (forced run = true → ∃ r, jobs d2 !! bc_ID c = Some r ∧
           activeKeyHeld d2 r = false ∧ cancelledAttemptStillRuns d2 r = false)) ∧
     (bk_Action (br_spec run) ≠ BulkCancel →
      ∀ id, id ∉ bc_ID <$> ba_changed b → jobs d' !! id = jobs d2 !! id) ∧
     ∃ aud, job_audit d' = job_audit d2 ++ aud ∧
       (λ e, (a_TargetID e, a_Action e)) <$> aud =
       (λ c, (bc_ID c, bulkAuditAction (bk_Action (br_spec run)))) <$> ba_changed b)
  end.
Proof.
  intros Hrv Happ d1 d2 locked Hwf1 Hwf2. unfold applyBatch in Happ. fold d1 d2 in Happ.
  fold locked in Happ.
  destruct (iv_fail iv); [by simplify_eq|].
  pose proof (classify_counts run (st_taken st) locked) as Hcount.
  destruct (classify run (st_taken st) locked) as [change skips] eqn:Ecl.
  destruct change as [|c0 cs] eqn:Ech; [simplify_eq/=; split_and!; [done|done|lia|by left]|].
  rewrite <-Ech in *. clear c0 cs Ech.
  destruct (bulk_write _ _ _ change _ _ d2) as [[moved d3]|] eqn:Hw; [|by simplify_eq].
  apply (write_wrote _ Hrv) in Hw; [|done].
  assert (∀ c, c ∈ locked → str_mem (bc_ID c) moved = true →
    c ∈ change ∧ state_in (bc_State c) (br_sources run) = true) as Hrep
    by (intros c; by apply (reported_classified run (st_taken st) ids d1 d2 change skips moved d3)).
  cbn beta iota in Happ. set (changed := rowsIn locked moved) in *.
  destruct (if bool_decide _ then _ else _) as [[fired d4]|] eqn:Hfire; [|by simplify_eq].
  cbn beta iota in Happ. destruct (recordAudit _ _ _ _ d4) as [d5|] eqn:Haud; [|by simplify_eq].
  simplify_eq/=. apply recordAudit_Ok in Haud as ->.
  assert (db_wf d4 ∧ job_audit d4 = job_audit d2 ∧ (bk_Action (br_spec run) ≠ BulkCancel → d4 = d3)) as (Hwf4 & Ha4 & H43).
  { rewrite <-(bw_audit _ _ _ _ _ Hw). case_bool_decide.
    - destruct (fire_parents_keeps _ _ _ _ _ _ Hfire (bw_wf _ _ _ _ _ Hw)). done.
    - simplify_eq. split_and!; [apply Hw|done..]. }
  split; [by apply wf_with_audit|]. split; [done|]. split.
  { assert (length changed ≤ length change); [|lia]. unfold changed, rowsIn.
    unfold classify in Ecl. injection Ecl as <- _. apply filter_length_le. intros c Hc Hm.
    destruct (Hrep c Hc Hm) as [Hin _]. by apply list_elem_of_filter in Hin as [? _]. }
  right. split_and!.
  - intros c [Hm Hc]%list_elem_of_filter. destruct (Hrep c Hc Hm) as [_ Hs]. split_and!; [done..|].
    intros Hf. apply (bw_forced _ _ _ _ _ Hw); [by apply bool_decide_eq_true in Hm|done].
  - intros Hnc id Hid. rewrite (H43 Hnc) in *. simpl. apply (bw_other _ _ _ _ _ Hw). intros Hm.
    apply Hid. apply (bw_asked _ _ _ _ _ Hw) in Hm as Hx. apply list_elem_of_fmap in Hx as (c & -> & Hc).
    apply list_elem_of_fmap_2, list_elem_of_filter. split; [by apply bool_decide_eq_true|].
    unfold classify in Ecl. injection Ecl as <- _. by apply list_elem_of_filter in Hc as [_ ?].
  - eexists. split; [by rewrite <-Ha4|]. rewrite fmap_imap. unfold auditChanges. rewrite imap_fmap.
    apply (imap_const (λ c, (bc_ID c, bulkAuditAction (bk_Action (br_spec run))))).
Qed.

(** C21. Whatever other connections commit between a batch's lock and its write, as long
    as they leave the locked rows alone, one attempt either fails and leaves the
    tables as they stood, changes nothing, or changes the rows it reports: each asked
    for, selected, in a source state of the action and so never running, and under a
    forced retry with its key free and no cancelled attempt still running. It writes
    one entry for each, and but for the barriers a cancel fires no other row moves. *)
Theorem bulk_batch_safe `{GoLib} `{QueryLib} `{Foundation} `{RowOrder} cc iv run st ids d out d' :
  resolved run → applyBatch cc iv run st ids d = (out, d') →
  let d1 := iv_lock iv d in
  let d2 := iv_update iv d1 in
  db_wf d1 → db_wf d2 → (∀ c, c ∈ lockCandidates run ids d1 → jobs d2 !! bc_ID c = jobs d1 !! bc_ID c) →
  db_wf d' ∧
  match out with
  | Err _ => d' = d2
  | Ok b =>
    length (ba_changed b) + length (ba_skips b) ≤ length (ba_rows b) ∧
    (ba_changed b = [] ∧ d' = d1 ∨
     (∀ c, c ∈ ba_changed b → may_change run ids d1 d2 (bc_row c)) ∧
     (bk_Action (br_spec run) ≠ BulkCancel →
      ∀ id, id ∉ bc_ID <$> ba_changed b → jobs d' !! id = jobs d2 !! id) ∧
     ∃ aud, job_audit d' = job_audit d2 ++ aud ∧
       (λ e, (a_TargetID e, a_Action e)) <$> aud =
       (λ c, (bc_ID c, bulkAuditAction (bk_Action (br_spec run)))) <$> ba_changed b)
  end.
Proof.
  intros Hrv Happ d1 d2 Hwf1 Hwf2 Hlocked.
  destruct (applyBatch_cases _ _ _ _ _ _ _ _ Hrv Happ Hwf1 Hwf2) as [Hwf' Hout]. split; [done|].
  destruct out as [b|]; [|done]. destruct Hout as (-> & Hlen & Hcase). split; [done|].
  destruct Hcase as [?|(Hch & Hrest)]; [by left|right]. split; [|done].
  intros c (Hc & Hs & Hf)%Hch. destruct (locked_row run ids _ c Hwf1 Hc) as (_ & Hj & Hd & Hsel & Hin).
  rewrite (rv_sources _ Hrv) in Hs.
  assert (jobs d2 !! bc_ID c = Some (bc_row c)) as Hj2 by (by rewrite Hlocked).
  split; [done..|split; [done|by apply (never_running run)]|]. intros Hx _.
  destruct (Hf Hx) as (r & Hr & ? & ?). fold d1 d2 in Hr. by simplify_eq.
Qed.

(** ** The limit *)

(** Other connections leave well-formed tables, and do nothing else to be said of them. *)
Definition keeps_wf (ivs : nat → interference) : Prop :=
  ∀ k d, db_wf d → db_wf (iv_read (ivs k) d) ∧ db_wf (iv_lock (ivs k) d) ∧ db_wf (iv_update (ivs k) d).

Section limit.
Context `{GoLib} `{QueryLib} `{Foundation} `{RowOrder} (run : bulkRun).
Context (ccs : nat → control) (ivs : nat → interference) (cancelled : nat → bool).
Hypothesis Hrv : resolved run.
Hypothesis Hivs : keeps_wf ivs.

Lemma locked_length ids d : db_wf d → length (lockCandidates run ids d) ≤ length ids.
Proof.
  intros Hwf. rewrite <-(length_fmap bc_ID). apply submseteq_length, NoDup_submseteq.
  - unfold lockCandidates. rewrite read_rows_ids. apply select_NoDup, Hwf.
  - intros id (c & -> & Hc)%list_elem_of_fmap. by apply (locked_row run ids d c Hwf Hc).
Qed.

Lemma attempts_bound more st ids k d out d' k' :
  db_wf d → apply_attempts more ccs ivs run st ids k d = (out, d', k') →
  db_wf d' ∧ ∀ b, out = Ok b → length (ba_changed b) ≤ length ids.
Proof.
  revert k d. induction more as [|more IH]; intros k d Hwf; cbn [apply_attempts];
    destruct (applyBatch (ccs k) (ivs k) run st ids d) as [o d1] eqn:Ea;
    destruct (Hivs k d Hwf) as (_ & Hl & _); destruct (Hivs k _ Hl) as (_ & _ & Hu);
    destruct (applyBatch_cases _ _ _ _ _ _ _ _ Hrv Ea Hl Hu) as [Hwf1 Hout]; destruct o as [b|e].
  1,3: intros [= <- <- <-]; split; [done|]; intros ? [= <-]; destruct Hout as (_ & Hlen & _);
    pose proof (locked_length ids _ Hl); lia.
  - by intros [= <- <- <-].
  - destruct (retryableBatchError e); [by apply IH|]. by intros [= <- <- <-].
Qed.

Lemma read_length st limit flags d : length (bb_rows (readBatch run st limit flags d)) ≤ limit.
Proof.
  unfold readBatch. destruct (br_ids run); simpl; rewrite length_fmap;
    (etrans; [apply length_filter|]); unfold id_page, page; rewrite length_take; lia.
Qed.

(** A walk has changed no more jobs than it passed. *)
Definition within (st : bulkState) : Prop :=
  (0 ≤ bu_Changed (st_result st) ≤ Z.of_nat (st_passed st))%Z ∧ st_passed st ≤ br_maxJobs run.

Lemma after_batch_within st b rows skips changed fired sampled wrote :
  within st → length changed ≤ length (bb_rows b) → length (bb_rows b) ≤ br_maxJobs run - st_passed st →
  within (after_batch run st b rows skips changed fired sampled wrote).
Proof. intros [? ?] ? ?. unfold within. simpl. lia. Qed.

Lemma apply_read_within st b k d out d' k' :
  db_wf d → within st → length (bb_rows b) ≤ br_maxJobs run - st_passed st →
  apply_read ccs ivs run st b k d = (out, d', k') → db_wf d' ∧ ∀ st', out = Ok st' → within st'.
Proof.
  intros Hwf Hin Hlen. unfold apply_read. destruct (bb_rows b) as [|c0 cs] eqn:Eb.
  { intros [= <- <- _]. split; [done|]. intros ? [= <-]. apply after_batch_within; rewrite ?Eb; simpl in *; auto; lia. }
  rewrite <-Eb in *. clear c0 cs Eb.
  destruct (apply_attempts _ _ _ _ _ _ _ _) as [[o d1] k1] eqn:Ea.
  apply attempts_bound in Ea as [Hwf1 Hb]; [|done]. rewrite length_fmap in Hb.
  destruct o as [b'|e]; intros [= <- <- <-]; (split; [done|]); [|done].
  intros ? [= <-]. apply after_batch_within; auto.
Qed.

Lemma preview_within st b :
  within st → length (bb_rows b) ≤ br_maxJobs run - st_passed st → within (preview run st b).
Proof.
  intros Hin Hlen. unfold preview. pose proof (classify_counts run (st_taken st) (bb_rows b)) as Hc.
  destruct (classify _ _ _) as [change skips]. apply after_batch_within; [done|lia|done].
Qed.

Lemma walk_within fuel : ∀ st k n d res e d',
  db_wf d → within st → walk_loop fuel ccs ivs cancelled run st k n d = Some (res, e, d') →
  db_wf d' ∧ (0 ≤ bu_Changed res ≤ Z.of_nat (br_maxJobs run))%Z.
Proof.
  induction fuel as [|fuel IH]; intros st k n d res e d' Hwf Hin; cbn [walk_loop]; [done|].
  assert (∀ st b sample, within st → (0 ≤ bu_Changed (snapshot st b sample) ≤ Z.of_nat (br_maxJobs run))%Z) as Hsn
    by (intros ??? [? ?]; simpl; lia).
  unfold stop, finish. destruct (cancelled (2 * n)); [intros [= <- _ <-]; auto|].
  destruct (Hivs k d Hwf) as (Hr & _). set (d0 := iv_read (ivs k) d) in *.
  destruct (br_batchSize run `min` (br_maxJobs run - st_passed st)) as [|lim] eqn:El.
  { destruct (bk_DryRun _); [intros [= <- _ <-]; auto|].
    destruct (probe _ _ _ _) as [[]|]; [..|done]; intros [= <- _ <-]; auto. }
  set (b := readBatch run st (S lim) _ d0).
  assert (length (bb_rows b) ≤ br_maxJobs run - st_passed st) as Hlen
    by (etrans; [apply read_length|lia]).
  destruct (bk_DryRun (br_spec run)).
  - pose proof (preview_within st b Hin Hlen) as Hp. destruct (bb_end b); [intros [= <- _ <-]; auto|by apply IH].
  - destruct (apply_read ccs ivs run st b k d0) as [[o d1] k1] eqn:Ea.
    apply apply_read_within in Ea as [Hwf1 Hw]; [|done..].
    destruct o as [st'|e']; [|intros [= <- _ <-]; auto].
    destruct (bb_end b); [intros [= <- _ <-]; auto|apply IH; auto].
Qed.
End limit.

(** Whatever other connections do meanwhile, a call that returns has changed, or a
    dry run would change, at most MaxJobs jobs, itself at most MaxBulkJobs, and
    leaves well-formed tables. *)
Theorem bulk_within_limit `{GoLib} `{QueryLib} `{Foundation} `{RowOrder} fuel ccs ivs dead cancelled dialect s run
    d res e d' :
  newBulkRun (ccs 0) dialect s = Ok run → keeps_wf ivs → db_wf d →
  BulkJobs fuel ccs ivs dead cancelled dialect s d = Some (res, e, d') →
  db_wf d' ∧ (0 ≤ bu_Changed res ≤ bulk_maxJobs s)%Z ∧ (bulk_maxJobs s ≤ MaxBulkJobs)%Z.
Proof.
  intros Hrun Hivs Hwf. unfold BulkJobs. rewrite Hrun. destruct (newBulkRun_resolved _ _ _ _ Hrun) as [Hrv Hs].
  destruct (newBulkRun_limit _ _ _ _ Hrun) as [Hmax Hle]. unfold walk, stop.
  destruct dead; [intros [= <- _ <-]; simpl; split_and!; (done || lia)|].
  destruct (_ && _); [intros [= <- _ <-]; simpl; split_and!; (done || lia)|]. intros Hw. apply walk_within in Hw as [? ?]; auto.
  - split_and!; [done|lia..].
  - by split; simpl; lia.
Qed.
