(* ===== verification/Hist.v ===== *)
(** * Duration histograms: internal/core/stats_hist.go

    Counts are int64 and wrap. The bounds are 2^(i/4) rounded to the nearest
    integer, computed here exactly; math.Pow and math.Round agree with it on every
    bound, which testdata/hist_bounds_v1.golden pins. The quantile estimate, which
    is floating point, is not modelled. *)

From stdpp Require Import pretty.
From Stdlib Require Import Ascii.
From S2P Require Import Prelude Types.


(** ** Bounds and buckets *)

Definition histVersion : Z := 1.
Definition histMaxMs : Z := 24 * 60 * 60 * 1000.

(** int64(math.Round(math.Pow(2, float64(i)/4))): the floor of 2·2^(i/4) is a
    fourth root, and rounding is that floor plus one, halved. *)
Definition round_pow (i : Z) : Z := ((Z.sqrt (Z.sqrt (2 ^ (i + 4))) + 1) / 2)%Z.

Fixpoint compute_bounds (fuel : nat) (i : Z) (bounds : list Z) : option (list Z) :=
  match fuel with
  | O => None
  | S fuel =>
    let v := round_pow i in
    if (histMaxMs <=? v)%Z then Some (bounds ++ [histMaxMs])
    else
      let keep := match last bounds with None => true | Some b => (b <? v)%Z end in
      compute_bounds fuel (i + 1)%Z (if keep then bounds ++ [v] else bounds)
  end.
(** [computeHistBounds]: 2^(i/4) passes 24 hours at i = 106. *)
Definition computeHistBounds : option (list Z) := compute_bounds 200 0 [].
Definition histBoundsV1 : list Z := Eval vm_compute in default [] computeHistBounds.

Definition HistogramBounds (version : Z) : option (list Z) :=
  if (version =? histVersion)%Z then Some histBoundsV1 else None.

(** sort.Search of the Go library: binary search on [0, n). *)
Fixpoint search_loop (fuel : nat) (f : nat → bool) (i j : nat) : nat :=
  match fuel with
  | O => i
  | S fuel =>
    if i <? j then
      let h := (i + j) / 2 in
      if f h then search_loop fuel f i h else search_loop fuel f (S h) j
    else i
  end.
Definition sort_Search (n : nat) (f : nat → bool) : nat := search_loop (S n) f 0 n.

Abbreviation histogram := (list Z).
Definition newHistogram : histogram := replicate (length histBoundsV1 + 1) 0%Z.

Definition histBucket (ms : Z) : nat :=
  sort_Search (length histBoundsV1) (λ i, (ms <=? default 0 (histBoundsV1 !! i))%Z).

Definition observe (h : histogram) (ms : Z) : histogram :=
  alter (λ c, wrap64 (c + 1)) (histBucket ms) h.

(** [histogram.add]: other's counts into h, as far as h reaches. *)
Fixpoint add (h other : histogram) : histogram :=
  match h, other with
  | c :: h, o :: other => wrap64 (c + o) :: add h other
  | h, _ => h
  end.
Definition total (h : histogram) : Z := foldl (λ n c, wrap64 (n + c)) 0%Z h.

(** ** The stored form *)

Definition pairs_of (h : histogram) : list (nat * Z) := filter (λ p, p.2 ≠ 0%Z) (imap pair h).
Definition pair_text (p : nat * Z) : string :=
  "[" +:+ pretty (N.of_nat p.1) +:+ "," +:+ pretty p.2 +:+ "]".
Fixpoint commas (l : list string) : string :=
  match l with [] => "" | [x] => x | x :: l => x +:+ "," +:+ commas l end.
(** json.Marshal of a slice of integer pairs. *)
Definition marshal (h : histogram) : string := "[" +:+ commas (pair_text <$> pairs_of h) +:+ "]".

Record hstate := {
  hs_h : histogram; hs_depth : Z; hs_field : Z; hs_num : Z; hs_inNum : bool; hs_pair : Z * Z
}.
Definition hstate0 : hstate :=
  {| hs_h := newHistogram; hs_depth := 0; hs_field := 0; hs_num := 0; hs_inNum := false; hs_pair := (0, 0)%Z |}.

Definition digit (c : ascii) : option Z :=
  let n := Z.of_N (N_of_ascii c) in
  if (48 <=? n)%Z && (n <=? 57)%Z then Some (n - 48)%Z else None.
Definition is_space (c : ascii) : bool :=
  bool_decide (N_of_ascii c ∈ [32; 9; 10; 13]%N).

(** The number a comma or bracket ends. *)
Definition end_num (st : hstate) : res hstate :=
  if hs_inNum st then
    if negb (hs_depth st =? 2)%Z || (1 <? hs_field st)%Z then Err ErrDecodeHistogram
    else
      Ok {| hs_h := hs_h st; hs_depth := hs_depth st; hs_field := hs_field st; hs_num := 0; hs_inNum := false;
            hs_pair := if (hs_field st =? 0)%Z then (hs_num st, (hs_pair st).2) else ((hs_pair st).1, hs_num st) |}
  else Ok st.

(** [h[pair[0]] += pair[1]]: an index below zero panics. *)
Definition count_pair (st : hstate) : res hstate :=
  if negb (hs_field st =? 1)%Z then Err ErrDecodeHistogram
  else
    let '(bucket, n) := hs_pair st in
    if (Z.of_nat (length (hs_h st)) <=? bucket)%Z then Err ErrDecodeHistogram
    else if (bucket <? 0)%Z then Err ErrPanic
    else
      Ok {| hs_h := alter (λ c, wrap64 (c + n)) (Z.to_nat bucket) (hs_h st); hs_depth := hs_depth st;
            hs_field := hs_field st; hs_num := hs_num st; hs_inNum := hs_inNum st; hs_pair := hs_pair st |}.

Definition with_depth (depth field : Z) (st : hstate) : hstate :=
  {| hs_h := hs_h st; hs_depth := depth; hs_field := field; hs_num := hs_num st; hs_inNum := hs_inNum st;
     hs_pair := hs_pair st |}.

(** One byte of the loop. *)
Definition hstep (st : hstate) (c : ascii) : res hstate :=
  match digit c with
  | Some v =>
    Ok {| hs_h := hs_h st; hs_depth := hs_depth st; hs_field := hs_field st;
          hs_num := wrap64 (hs_num st * 10 + v); hs_inNum := true; hs_pair := hs_pair st |}
  | None =>
    if is_space c then Ok st
    else
      let? st := end_num st in
      if bool_decide (c = "["%char) then
        if (2 <? hs_depth st + 1)%Z then Err ErrDecodeHistogram
        else Ok (with_depth (hs_depth st + 1) 0 st)
      else if bool_decide (c = ","%char) then
        Ok (if (hs_depth st =? 2)%Z then with_depth (hs_depth st) (hs_field st + 1) st else st)
      else if bool_decide (c = "]"%char) then
        let? st := (if (hs_depth st =? 2)%Z then count_pair st else Ok st) in
        if (hs_depth st - 1 <? 0)%Z then Err ErrDecodeHistogram
        else Ok (with_depth (hs_depth st - 1) (hs_field st) st)
      else Err ErrDecodeHistogram
  end.

Fixpoint hrun (st : hstate) (raw : string) : res hstate :=
  match raw with
  | EmptyString => Ok st
  | String c raw => let? st := hstep st c in hrun st raw
  end.

Definition parseSparseHist (raw : string) : res histogram :=
  let? st := hrun hstate0 raw in
  if negb (hs_depth st =? 0)%Z || hs_inNum st then Err ErrDecodeHistogram else Ok (hs_h st).

(** ** Buckets *)

Lemma search_loop_spec fuel f i j n :
  (∀ a b, f a = true → a ≤ b → b < n → f b = true) →
  i ≤ j → j ≤ n → j - i < fuel →
  (∀ k, k < i → f k = false) → (∀ k, j ≤ k → k < n → f k = true) →
  let r := search_loop fuel f i j in
  i ≤ r ∧ r ≤ j ∧ (∀ k, k < r → f k = false) ∧ (∀ k, r ≤ k → k < n → f k = true).
Proof.
  intros Hmono. revert i j. induction fuel as [|fuel IH]; intros i j Hij Hjn Hf Hlo Hhi; [lia|]. cbn [search_loop].
  destruct (Nat.ltb_spec i j) as [Hlt|Hge]; [|split_and!; [lia..|done|]; intros; apply Hhi; lia].
  pose proof (Nat.Div0.div_le_mono (i + i) (i + j) 2 ltac:(lia)) as H1.
  pose proof (Nat.Div0.div_lt_upper_bound (i + j) 2 j ltac:(lia)) as H2.
  replace (i + i) with (i * 2) in H1 by lia. rewrite Nat.div_mul in H1 by lia.
  set (h := (i + j) / 2) in *.
  destruct (f h) eqn:Eh.
  - destruct (IH i h) as (? & ? & ? & ?); try lia; [done| |split_and!; try done; lia].
    intros k Hk1 Hk2. by apply (Hmono h).
  - destruct (IH (S h) j) as (? & ? & ? & ?); try lia; [|done|split_and!; try done; lia].
    intros k Hk. destruct (f k) eqn:Ek; [|done]. by rewrite (Hmono k h) in Eh by (done || lia).
Qed.

Lemma sorted_lookup (l : list Z) i j a b :
  StronglySorted Z.lt l → l !! i = Some a → l !! j = Some b → i ≤ j → (a ≤ b)%Z.
Proof.
  intros Hs Hi Hj Hij. destruct (decide (i = j)) as [->|Hne]; [assert (a = b) by congruence; lia|].
  apply Z.lt_le_incl. rewrite <-(take_drop j l) in Hs.
  eapply StronglySorted_app_1_elem_of; [exact Hs|..].
  - apply (list_elem_of_lookup_2 _ i). rewrite lookup_take_lt by lia. done.
  - apply (list_elem_of_lookup_2 _ 0). by rewrite lookup_drop, Nat.add_0_r.
Qed.

Lemma bucket_search (l : list Z) ms m :
  StronglySorted Z.lt l → last l = Some m →
  let b := sort_Search (length l) (λ i, (ms <=? default 0 (l !! i))%Z) in
  b ≤ length l ∧
  (∀ upper, l !! b = Some upper → (ms ≤ upper)%Z) ∧
  (∀ i lower, i < b → l !! i = Some lower → (lower < ms)%Z) ∧
  (b = length l ↔ (m < ms)%Z).
Proof.
  intros Hs Hm b. unfold sort_Search in b.
  destruct (search_loop_spec (S (length l)) (λ i, (ms <=? default 0 (l !! i))%Z) 0 (length l) (length l))
    as (_ & Hle & Hlo & Hhi); [|lia..|].
  { intros i j Hi Hij Hj. destruct (lookup_lt_is_Some_2 l j Hj) as [y Hy].
    destruct (lookup_lt_is_Some_2 l i ltac:(lia)) as [x Hx]. rewrite Hx in Hi. rewrite Hy. simpl in *.
    pose proof (sorted_lookup l i j x y Hs Hx Hy Hij). lia. }
  fold b in Hle, Hlo, Hhi. clearbody b. rewrite last_lookup in Hm. pose proof (lookup_lt_Some _ _ _ Hm) as Hpos.
  split_and!.
  - done.
  - intros u Hu. specialize (Hhi b ltac:(lia) (lookup_lt_Some _ _ _ Hu)). rewrite Hu in Hhi. simpl in Hhi. lia.
  - intros i x Hi Hx. specialize (Hlo i Hi). rewrite Hx in Hlo. simpl in Hlo. lia.
  - split.
    + intros E. specialize (Hlo (pred (length l)) ltac:(lia)). rewrite Hm in Hlo. simpl in Hlo. lia.
    + intros Hlt. destruct (decide (b = length l)) as [|Hne]; [done|].
      specialize (Hhi (pred (length l)) ltac:(lia) ltac:(lia)). rewrite Hm in Hhi. simpl in Hhi. lia.
Qed.

(** The bounds rise strictly, from one millisecond to a day. *)
Lemma bounds_sorted : StronglySorted Z.lt histBoundsV1.
Proof. refine (bool_decide_unpack _ _). vm_compute. exact I. Qed.
Lemma bounds_last : last histBoundsV1 = Some histMaxMs.
Proof. vm_compute. reflexivity. Qed.

Lemma newHistogram_length : length newHistogram = S (length histBoundsV1).
Proof. unfold newHistogram. rewrite length_replicate. lia. Qed.

#[local] Opaque histBoundsV1.

(** A duration is counted in the bucket its bounds name. The binary search finds
    the one bucket whose inclusive upper bound is at least the duration and whose
    lower neighbours' are all below it; bucket zero takes everything at or below the
    first bound, the overflow bucket exactly what is longer than a day; and the
    index is always inside a histogram. *)
Theorem histBucket_correct ms :
  let b := histBucket ms in
  b < length newHistogram ∧
  (∀ upper, histBoundsV1 !! b = Some upper → (ms ≤ upper)%Z) ∧
  (∀ i lower, i < b → histBoundsV1 !! i = Some lower → (lower < ms)%Z) ∧
  (b = length histBoundsV1 ↔ (histMaxMs < ms)%Z).
Proof.
  unfold histBucket. rewrite newHistogram_length.
  destruct (bucket_search histBoundsV1 ms histMaxMs bounds_sorted bounds_last) as (? & ? & ? & ?).
  split_and!; try done. lia.
Qed.

(** ** The stored form reads back *)

Lemma hrun_app st s1 s2 : hrun st (s1 +:+ s2) = let? st' := hrun st s1 in hrun st' s2.
Proof.
  revert st. induction s1 as [|c s1 IH]; intros st; [done|]. simpl. destruct (hstep st c); [apply IH|done].
Qed.

Definition set_num (n : Z) (st : hstate) : hstate :=
  {| hs_h := hs_h st; hs_depth := hs_depth st; hs_field := hs_field st; hs_num := n; hs_inNum := true;
     hs_pair := hs_pair st |}.

Lemma hstep_digit st x :
  (x < 10)%N → hstep st (pretty_N_char x) = Ok (set_num (wrap64 (hs_num st * 10 + Z.of_N x)) st).
Proof.
  intros Hx. assert (digit (pretty_N_char x) = Some (Z.of_N x)) as Hd.
  { assert (x = 0 ∨ x = 1 ∨ x = 2 ∨ x = 3 ∨ x = 4 ∨ x = 5 ∨ x = 6 ∨ x = 7 ∨ x = 8 ∨ x = 9)%N by lia.
    naive_solver. }
  unfold hstep. by rewrite Hd.
Qed.

(** The digits of a number that fits leave that number, whatever follows. *)
Lemma hrun_digits x s st :
  (0 < x)%N → (Z.of_N x ≤ int64_max)%Z → hs_num st = 0%Z →
  hrun st (pretty_N_go x s) = hrun (set_num (Z.of_N x) st) s.
Proof.
  revert s. induction (N.lt_wf_0 x) as [x _ IH]; intros s Hx Hm Hn.
  rewrite pretty_N_go_step by done. pose proof (N.mod_lt x 10 ltac:(lia)) as Hmod.
  pose proof (N.div_mod x 10 ltac:(lia)) as Hdm.
  assert (∀ st', hs_num st' = Z.of_N (x / 10) → hs_h st' = hs_h st → hs_depth st' = hs_depth st →
    hs_field st' = hs_field st → hs_pair st' = hs_pair st →
    hrun st' (String (pretty_N_char (x mod 10)) s) = hrun (set_num (Z.of_N x) st) s) as Hlast.
  { intros st' H1 H2 H3 H4 H5. cbn [hrun]. rewrite hstep_digit by done. f_equal. unfold set_num.
    rewrite H1, H2, H3, H4, H5. f_equal. rewrite wrap64_id; [lia|]. unfold in_int64, int64_min in *. lia. }
  destruct (decide (x / 10 = 0)%N) as [E|E].
  - rewrite E, pretty_N_go_0. apply Hlast; try done. by rewrite Hn, E.
  - assert (x / 10 < x)%N as Hlt by (by apply N.div_lt).
    rewrite IH; [by apply Hlast|done|lia|clear - Hlt Hm; lia|done].
Qed.

Lemma hrun_number z st :
  (0 ≤ z ≤ int64_max)%Z → hs_num st = 0%Z → hrun st (pretty z) = Ok (set_num z st).
Proof.
  intros Hz Hn. destruct z as [|p|p]; [|simpl|lia].
  - simpl. unfold hstep. change (digit "0") with (Some 0%Z). cbv beta iota. by rewrite Hn.
  - change (pretty (Z.pos p)) with (pretty_N_go (N.pos p) ""). by rewrite hrun_digits by (done || lia).
Qed.

(** Between two pairs of the outer array. *)
Definition between (st : hstate) : Prop := hs_depth st = 1%Z ∧ hs_num st = 0%Z ∧ hs_inNum st = false.

Definition bump (h : histogram) (p : nat * Z) : histogram := alter (λ c, wrap64 (c + p.2)) p.1 h.

(** A one-character string before another is a cons. *)
Ltac one_char :=
  repeat match goal with
  | |- context [String ?c EmptyString +:+ ?s] => change (String c EmptyString +:+ s) with (String c s)
  | |- context [EmptyString +:+ ?s] => change (EmptyString +:+ s) with s
  end.

Lemma hrun_pair st i c :
  between st → (i < length (hs_h st))%nat → (Z.of_nat (length (hs_h st)) ≤ int64_max)%Z → (0 ≤ c ≤ int64_max)%Z →
  ∃ st', hrun st (pair_text (i, c)) = Ok st' ∧ between st' ∧ hs_h st' = bump (hs_h st) (i, c).
Proof.
  intros (Hd & Hn & Hin) Hi Hlen Hc. destruct st as [h d f n inn pr]. simpl in *. subst.
  unfold pair_text. cbn [fst snd]. one_char. cbn [hrun].
  assert (hstep {| hs_h := h; hs_depth := 1; hs_field := f; hs_num := 0; hs_inNum := false; hs_pair := pr |} "["
    = Ok {| hs_h := h; hs_depth := 2; hs_field := 0; hs_num := 0; hs_inNum := false; hs_pair := pr |}) as -> by done.
  assert (pretty (N.of_nat i) = pretty (Z.of_nat i)) as -> by (by destruct i).
  cbv beta iota. one_char. rewrite hrun_app, hrun_number by (done || lia). cbv beta iota. cbn [hrun].
  assert (∀ z, hstep (set_num z {| hs_h := h; hs_depth := 2; hs_field := 0; hs_num := 0; hs_inNum := false;
      hs_pair := pr |}) "," =
    Ok {| hs_h := h; hs_depth := 2; hs_field := 1; hs_num := 0; hs_inNum := false; hs_pair := (z, pr.2) |}) as -> by done.
  cbv beta iota. rewrite hrun_app, hrun_number by done. cbv beta iota. cbn [hrun].
  assert (hstep (set_num c {| hs_h := h; hs_depth := 2; hs_field := 1; hs_num := 0; hs_inNum := false;
      hs_pair := (Z.of_nat i, pr.2) |}) "]" =
    Ok {| hs_h := bump h (i, c); hs_depth := 1; hs_field := 1; hs_num := 0; hs_inNum := false;
          hs_pair := (Z.of_nat i, c) |}) as ->; [|by eexists].
  unfold hstep, set_num. change (digit "]") with (None : option Z). cbv beta iota.
  change (is_space "]") with false. cbv beta iota. unfold end_num. simpl. unfold count_pair. simpl.
  destruct (Z.leb_spec (Z.of_nat (length h)) (Z.of_nat i)); [lia|].
  destruct (Z.ltb_spec (Z.of_nat i) 0); [lia|]. simpl. by rewrite Nat2Z.id.
Qed.

Lemma bump_length h p : length (bump h p) = length h.
Proof. apply length_alter. Qed.

Definition pair_ok (n : nat) (p : nat * Z) : Prop := p.1 < n ∧ (0 ≤ p.2 ≤ int64_max)%Z.

Lemma hrun_pairs l st :
  between st → (Z.of_nat (length (hs_h st)) ≤ int64_max)%Z → Forall (pair_ok (length (hs_h st))) l →
  ∃ st', hrun st (commas (pair_text <$> l)) = Ok st' ∧ between st' ∧ hs_h st' = foldl bump (hs_h st) l.
Proof.
  intros Hb Hlen Hl. revert st Hb Hlen Hl. induction l as [|[i c] l IH]; intros st Hb Hlen Hl; [by exists st|].
  apply Forall_cons in Hl as [[Hi Hc] Hl]. simpl in Hi, Hc.
  destruct (hrun_pair st i c Hb Hi Hlen Hc) as (st1 & Hr & Hb1 & Hh1).
  destruct l as [|p l']; [by exists st1|].
  rewrite fmap_cons. change (commas (pair_text (i, c) :: (pair_text <$> p :: l'))) with
    (pair_text (i, c) +:+ "," +:+ commas (pair_text <$> p :: l')).
  rewrite hrun_app, Hr. cbv beta iota. one_char. cbn [hrun].
  assert (hstep st1 "," = Ok st1) as ->.
  { destruct Hb1 as (Hd & Hn & Hin). unfold hstep. change (digit ",") with (None : option Z).
    change (is_space ",") with false. cbv beta iota. unfold end_num. rewrite Hin. simpl. by rewrite Hd. }
  cbv beta iota. destruct (IH st1) as (st2 & Hr2 & Hb2 & Hh2); [done|by rewrite Hh1, bump_length..|].
  exists st2. split_and!; try done. by rewrite Hh2, Hh1.
Qed.

Lemma bump_all pre h :
  Forall (λ c, (0 ≤ c ≤ int64_max)%Z) h →
  foldl bump (pre ++ replicate (length h) 0%Z)
    (filter (λ p, p.2 ≠ 0%Z) (imap (λ i, pair (length pre + i)) h)) = pre ++ h.
Proof.
  intros Hh. revert pre. induction Hh as [|c h Hc Hh IH]; intros pre; [done|].
  specialize (IH (pre ++ [c])). rewrite length_app, <-!app_assoc in IH. simpl in IH.
  rewrite imap_cons, Nat.add_0_r.
  assert (imap ((λ i, pair (length pre + i)) ∘ S) h = imap (λ i, pair (length pre + 1 + i)) h) as ->.
  { apply imap_ext. intros. simpl. f_equal. lia. }
  rewrite filter_cons. simpl. case_decide as Hz; simpl in Hz.
  - assert (bump (pre ++ 0%Z :: replicate (length h) 0%Z) (length pre, c) = pre ++ c :: replicate (length h) 0%Z)
      as Hbump; [|cbn [foldl]; by rewrite Hbump, IH].
    unfold bump. cbn [fst snd]. etrans; [by apply (alter_app_r_alt (λ x, wrap64 (x + c)))|]. rewrite Nat.sub_diag. simpl.
    rewrite wrap64_id; [done|]. unfold in_int64, int64_min in *. lia.
  - subst. done.
Qed.

(** A stored histogram reads back. For every histogram of the current bounds
    whose counts are int64 and not negative, parsing the sparse JSON that marshal
    writes for it gives the same histogram, empty buckets included. *)
Theorem hist_roundtrip h :
  length h = length newHistogram → Forall (λ c, (0 ≤ c ≤ int64_max)%Z) h →
  parseSparseHist (marshal h) = Ok h.
Proof.
  intros Hlen Hh. unfold parseSparseHist, marshal. one_char. cbn [hrun].
  set (st0 := with_depth 1 0 hstate0). assert (hstep hstate0 "[" = Ok st0) as -> by done. cbv beta iota.
  rewrite hrun_app.
  destruct (hrun_pairs (pairs_of h) st0) as (st & -> & (Hd & Hn & Hin) & Hs).
  - done.
  - change (hs_h st0) with newHistogram. rewrite newHistogram_length. vm_compute. done.
  - change (hs_h st0) with newHistogram. rewrite <-Hlen. unfold pairs_of. apply Forall_forall.
    intros p [_ (i & c & -> & Hi)%elem_of_lookup_imap]%list_elem_of_filter. split; simpl.
    + by eapply lookup_lt_Some.
    + by eapply (Forall_lookup_1 _ _ _ _ Hh).
  - cbv beta iota. cbn [hrun].
    assert (hstep st "]" = Ok (with_depth 0 (hs_field st) st)) as ->.
    { unfold hstep. change (digit "]") with (None : option Z). change (is_space "]") with false.
      cbv beta iota. unfold end_num. rewrite Hin. simpl. rewrite Hd. cbn [Z.eqb Pos.eqb]. by rewrite Hd. }
    simpl. rewrite Hin, Hs. simpl. f_equal.
    change (hs_h st0) with newHistogram. unfold pairs_of.
    assert (newHistogram = replicate (length h) 0%Z) as ->.
    { rewrite Hlen, newHistogram_length. unfold newHistogram. f_equal. }
    apply (bump_all [] h Hh).
Qed.

(** ** Counting *)

Definition observe_all (h : histogram) (l : list Z) : histogram := foldl observe h l.

Lemma observe_all_lookup l i h c :
  h !! i = Some c → (0 ≤ c)%Z → (c + Z.of_nat (length l) ≤ int64_max)%Z →
  observe_all h l !! i = Some (c + Z.of_nat (length (filter (λ ms, histBucket ms = i) l)))%Z.
Proof.
  revert h c. induction l as [|ms l IH]; intros h c Hc Hpos Hmax; simpl.
  { rewrite Hc. f_equal. lia. }
  rewrite filter_cons. destruct (decide (histBucket ms = i)) as [E|E]; simpl in *.
  - rewrite (IH _ (c + 1)%Z); [f_equal; lia| |lia|lia].
    unfold observe. rewrite E, list_lookup_alter_eq, Hc. simpl. f_equal. apply wrap64_id.
    unfold in_int64, int64_min in *. lia.
  - rewrite (IH _ c); [done| |done|lia]. unfold observe. by rewrite list_lookup_alter_ne.
Qed.

Lemma observe_all_length h l : length (observe_all h l) = length h.
Proof.
  revert h. induction l as [|ms l IH]; intros h; [done|]. simpl. rewrite IH. apply length_alter.
Qed.

Lemma add_lookup h o i c e : h !! i = Some c → o !! i = Some e → add h o !! i = Some (wrap64 (c + e)).
Proof.
  revert o i. induction h as [|x h IH]; intros [|y o] [|i]; simpl; try done; [by intros [= ->] [= ->]|].
  apply IH.
Qed.
Lemma add_length h o : length (add h o) = length h.
Proof. revert o. induction h as [|x h IH]; intros [|y o]; simpl; auto. Qed.

(** Histograms merge by addition. Adding the histograms of two batches of
    durations gives the histogram of all of them, bucket for bucket, so a long
    range's counts can be summed from its hours; no count wraps while fewer than
    2^63 durations are counted. *)
Theorem hist_merge l1 l2 :
  (Z.of_nat (length (l1 ++ l2)) ≤ int64_max)%Z →
  add (observe_all newHistogram l1) (observe_all newHistogram l2) = observe_all newHistogram (l1 ++ l2).
Proof.
  intros Hm. rewrite length_app in Hm. apply (list_eq_same_length _ _ (length newHistogram)).
  - by rewrite observe_all_length.
  - by rewrite add_length, observe_all_length.
  - intros i x y Hi Hx Hy. assert (newHistogram !! i = Some 0%Z) as H0.
    { unfold newHistogram in *. rewrite length_replicate in Hi. apply lookup_replicate. lia. }
    erewrite add_lookup in Hx; [|apply (observe_all_lookup l1 i _ 0 H0)|apply (observe_all_lookup l2 i _ 0 H0)];
      try lia.
    rewrite (observe_all_lookup _ i _ 0 H0) in Hy by (rewrite ?length_app; lia).
    rewrite filter_app, length_app in Hy. simplify_eq. rewrite wrap64_id; [lia|].
    pose proof (length_filter (λ ms, histBucket ms = i) l1).
    pose proof (length_filter (λ ms, histBucket ms = i) l2). unfold in_int64, int64_min. lia.
Qed.

(** A pair whose second number is missing is not refused: it takes the count of the
    pair before it. *)
Example parse_half_read :
  (let? h := parseSparseHist "[[3,7],[5,]]" in Ok (pairs_of h)) = Ok [(3, 7%Z); (5, 7%Z)].
Proof. vm_compute. reflexivity. Qed.
(** A bucket number past int64 wraps below zero and indexes out of range. *)
Example parse_wraps : parseSparseHist "[[9223372036854775808,1]]" = Err ErrPanic.
Proof. vm_compute. reflexivity. Qed.
