(* ===== verification/Maintenance.v ===== *)
(** * The scheduler's configuration and maintenance activities: internal/core/scheduler.go,
    stats_scheduler.go's configureStats

    [NewSchedulerWithConfig] validates a configuration and fills its defaults;
    [activities] is the set of loops a Scheduler runs; [gstep] is activity.tick's
    self-overlap guard, as a step relation on threads; [pruneOnce] is the retention
    activity's pass. *)

From S2P Require Import Prelude Types Store Insert Sweep Client Controls Periodic Scheduler Retention.

(** ** Configuration *)

Definition hour : Z := (60 * minute)%Z.
Definition defaultBackfillCap : Z := 10.
Definition defaultTickInterval : Z := second.
Definition defaultSweepInterval : Z := (30 * second)%Z.
Definition defaultRetentionInterval : Z := hour.
Definition defaultQueueSampleRetention : Z := (30 * 24 * hour)%Z.
Definition defaultStatsRollupGrace : Z := (5 * minute)%Z.
Definition defaultStatsMaxHoursPerPass : Z := 24.
Definition defaultStatsRetention : Z := (400 * 24 * hour)%Z.

(** [SchedulerConfig]; the first three say whether DB, Client and Driver are set. *)
Record SchedulerConfig := {
  sc_DB : bool; sc_Client : bool; sc_Driver : bool;
  sc_BackfillCap : Z; sc_TickInterval : Z; sc_SweepInterval : Z; sc_RetentionMaxAge : Z;
  sc_RetentionRules : list RetentionRule; sc_RetentionInterval : Z; sc_RetentionBatchSize : Z;
  sc_RetentionMaxBatches : Z; sc_AuditRetention : Z; sc_HealthSampleInterval : Z;
  sc_QueueSampleInterval : Z; sc_QueueSampleRetention : Z; sc_StatsRollupInterval : Z;
  sc_StatsRollupGrace : Z; sc_StatsMaxHoursPerPass : Z; sc_StatsRetention : Z;
  sc_Periodics : list PeriodicSpec; sc_ReconcileInterval : Z
}.

Record rollupConfig := { rc_grace : Z; rc_maxHours : Z; rc_retention : Z }.

(** [Scheduler], without its handles; [ss_declared] is its periodics' part. *)
Record SchedulerState := {
  ss_backfillCap : Z; ss_tickInterval : Z; ss_sweepInterval : Z; ss_retentionMaxAge : Z;
  ss_auditRetention : Z; ss_retentionInterval : Z; ss_retentionOpts : RetentionOpts;
  ss_healthSampleInterval : Z; ss_queueSampleInterval : Z; ss_queueSampleRetention : Z;
  ss_statsInterval : Z; ss_statsCfg : rollupConfig; ss_declared : declared
}.

Definition or_default (z d : Z) : Z := if (z <=? 0)%Z then d else z.

Definition retentionEnabled (maxAge audit : Z) : bool := (0 <? maxAge)%Z || (0 <? audit)%Z.

(** [configureRetentionRules]: the rules the pass keeps. *)
Definition configureRetentionRules (cfg : SchedulerConfig) : res (list RetentionRule) :=
  match sc_RetentionRules cfg with
  | [] => Ok []
  | rules =>
    if (sc_RetentionMaxAge cfg <=? 0)%Z then Err ErrSchedulerConfig
    else match validateRetentionRules rules with Some e => Err e | None => Ok rules end
  end.

(** [configureStats]: the rollup's interval and configuration. *)
Definition configureStats (cfg : SchedulerConfig) (rules : list RetentionRule) : res (Z * rollupConfig) :=
  if (sc_StatsRollupInterval cfg <=? 0)%Z
  then Ok (0%Z, {| rc_grace := 0; rc_maxHours := 0; rc_retention := 0 |})
  else
    let rc := {| rc_grace := or_default (sc_StatsRollupGrace cfg) defaultStatsRollupGrace;
                 rc_maxHours := or_default (sc_StatsMaxHoursPerPass cfg) defaultStatsMaxHoursPerPass;
                 rc_retention := or_default (sc_StatsRetention cfg) defaultStatsRetention |} in
    let floor := wrap64 (hour + rc_grace rc) in
    if (0 <? sc_RetentionMaxAge cfg)%Z && (sc_RetentionMaxAge cfg <? floor)%Z then Err ErrSchedulerConfig
    else if existsb (λ r, (rule_MaxAge r <? floor)%Z) rules then Err ErrSchedulerConfig
    else Ok (sc_StatsRollupInterval cfg, rc).

Section config.
Context `{Cron}.

Definition NewSchedulerWithConfig (cfg : SchedulerConfig) : res SchedulerState :=
  if negb (sc_DB cfg) then Err ErrSchedulerNeedsDB
  else if negb (sc_Client cfg) then Err ErrSchedulerNeedsClient
  else if negb (sc_Driver cfg) then Err ErrSchedulerNeedsDriver
  else
    let retentionInterval :=
      if retentionEnabled (sc_RetentionMaxAge cfg) (sc_AuditRetention cfg)
      then or_default (sc_RetentionInterval cfg) defaultRetentionInterval else sc_RetentionInterval cfg in
    let? rules := configureRetentionRules cfg in
    let? decl := configurePeriodics (sc_Periodics cfg) (sc_ReconcileInterval cfg) in
    let? ' (statsInterval, statsCfg) := configureStats cfg rules in
    Ok {| ss_backfillCap := or_default (sc_BackfillCap cfg) defaultBackfillCap;
          ss_tickInterval := or_default (sc_TickInterval cfg) defaultTickInterval;
          ss_sweepInterval := or_default (sc_SweepInterval cfg) defaultSweepInterval;
          ss_retentionMaxAge := sc_RetentionMaxAge cfg; ss_auditRetention := sc_AuditRetention cfg;
          ss_retentionInterval := retentionInterval;
          ss_retentionOpts :=
            {| rt_BatchSize := sc_RetentionBatchSize cfg; rt_MaxBatches := sc_RetentionMaxBatches cfg;
               rt_HoldForStatsRollup := false; rt_Rules := rules |};
          ss_healthSampleInterval := sc_HealthSampleInterval cfg;
          ss_queueSampleInterval := Z.max (sc_QueueSampleInterval cfg) 0;
          ss_queueSampleRetention := or_default (sc_QueueSampleRetention cfg) defaultQueueSampleRetention;
          ss_statsInterval := statsInterval; ss_statsCfg := statsCfg; ss_declared := decl |}.
End config.

(** ** Activities *)

(** An activity: its name, its cadence, and whether it has a done hook. *)
Record activity := { act_name : string; act_interval : Z; act_done : bool }.

Definition when (b : bool) (a : activity) : list activity := if b then [a] else [].

Definition activities (s : SchedulerState) : list activity :=
  [{| act_name := "periodic"; act_interval := ss_tickInterval s; act_done := false |};
   {| act_name := "sweep"; act_interval := ss_sweepInterval s; act_done := false |}] ++
  when (retentionEnabled (ss_retentionMaxAge s) (ss_auditRetention s))
    {| act_name := "retention"; act_interval := ss_retentionInterval s; act_done := false |} ++
  when (0 <? ss_healthSampleInterval s)%Z
    {| act_name := "health"; act_interval := ss_healthSampleInterval s; act_done := false |} ++
  when (0 <? ss_statsInterval s)%Z
    {| act_name := "stats"; act_interval := ss_statsInterval s; act_done := false |} ++
  when (0 <? ss_queueSampleInterval s)%Z
    {| act_name := "queue samples"; act_interval := ss_queueSampleInterval s; act_done := false |} ++
  when (reconcileEnabled (ss_declared s))
    {| act_name := "reconcile"; act_interval := reconcileCadence (ss_declared s); act_done := true |}.

(** ** The overlap guard of [activity.tick]

    Calls of tick run as threads over the activity's two atomics. Each step is one
    atomic access: the compare-and-swap, the skip count's increment, the pass, the
    skip count's reset, and the deferred release of [running]. *)
Inductive pc := PcCAS | PcSkip | PcRun | PcReset | PcRelease | PcDone.
Record guard := { g_running : bool; g_skips : Z; g_threads : list pc }.

Inductive gstep : guard → guard → Prop :=
| g_call g : gstep g {| g_running := g_running g; g_skips := g_skips g; g_threads := g_threads g ++ [PcCAS] |}
| g_cas_ok g i :
    g_threads g !! i = Some PcCAS → g_running g = false →
    gstep g {| g_running := true; g_skips := g_skips g; g_threads := <[i := PcRun]> (g_threads g) |}
| g_cas_busy g i :
    g_threads g !! i = Some PcCAS → g_running g = true →
    gstep g {| g_running := true; g_skips := g_skips g; g_threads := <[i := PcSkip]> (g_threads g) |}
| g_skip g i :
    g_threads g !! i = Some PcSkip →
    gstep g {| g_running := g_running g; g_skips := wrap64 (g_skips g + 1);
               g_threads := <[i := PcDone]> (g_threads g) |}
| g_run g i :
    g_threads g !! i = Some PcRun →
    gstep g {| g_running := g_running g; g_skips := g_skips g; g_threads := <[i := PcReset]> (g_threads g) |}
(** A pass that panics unwinds to the deferred release past the reset. *)
| g_panic g i :
    g_threads g !! i = Some PcRun →
    gstep g {| g_running := g_running g; g_skips := g_skips g; g_threads := <[i := PcRelease]> (g_threads g) |}
| g_reset g i :
    g_threads g !! i = Some PcReset →
    gstep g {| g_running := g_running g; g_skips := 0; g_threads := <[i := PcRelease]> (g_threads g) |}
| g_release g i :
    g_threads g !! i = Some PcRelease →
    gstep g {| g_running := false; g_skips := g_skips g; g_threads := <[i := PcDone]> (g_threads g) |}.

Definition guard0 : guard := {| g_running := false; g_skips := 0; g_threads := [] |}.

(** A thread inside a pass: it holds the guard. *)
Definition holding (p : pc) : bool := match p with PcRun | PcReset | PcRelease => true | _ => false end.
Definition holders (g : guard) : nat := length (filter (λ p, holding p = true) (g_threads g)).

(** ** The retention activity *)

Section prune.
Context `{RowOrder}.

(** [PruneRetention]: [now0] is the clock read here, [now] the pass's own. *)
Definition PruneRetention (fuel : nat) (cancelled : nat → bool) (now0 now : Z)
    (progress : option statsProgress) (s : SchedulerState) (d : db) : option (Z * option error * db) :=
  if (ss_retentionMaxAge s <=? 0)%Z then Some (0%Z, None, d)
  else
    let o := ss_retentionOpts s in
    let opts := {| rt_BatchSize := rt_BatchSize o; rt_MaxBatches := rt_MaxBatches o;
                   rt_HoldForStatsRollup := rt_HoldForStatsRollup o || (0 <? ss_statsInterval s)%Z;
                   rt_Rules := rt_Rules o |} in
    DeleteFinishedJobsWithOptions fuel cancelled now progress (now0 - ss_retentionMaxAge s)%Z opts d.

(** [pruneAudit]. *)
Definition pruneAudit (fuel : nat) (cancelled : nat → bool) (now : Z) (s : SchedulerState) (d : db)
  : option (Z * option error * db) :=
  DeleteAuditEntriesWithOptions fuel cancelled (now - ss_auditRetention s)%Z
    {| rt_BatchSize := rt_BatchSize (ss_retentionOpts s); rt_MaxBatches := rt_MaxBatches (ss_retentionOpts s);
       rt_HoldForStatsRollup := false; rt_Rules := [] |} d.

(** [pruneOnce]: jobs, then the history; a failed job pass does not skip it. *)
Definition pruneOnce (fuel : nat) (cancelled acancelled : nat → bool) (now0 now anow : Z)
    (progress : option statsProgress) (s : SchedulerState) (d : db) : option db :=
  match PruneRetention fuel cancelled now0 now progress s d with
  | None => None
  | Some (_, _, d1) =>
    if (0 <? ss_auditRetention s)%Z then
      match pruneAudit fuel acancelled anow s d1 with None => None | Some (_, _, d2) => Some d2 end
    else Some d1
  end.
End prune.

(** ** What a configuration guarantees *)

Lemma or_default_pos z d : (0 < d)%Z → (0 < or_default z d)%Z.
Proof. unfold or_default. intros. case_match; lia. Qed.

Lemma configureRetentionRules_Ok cfg rules :
  configureRetentionRules cfg = Ok rules →
  rules = sc_RetentionRules cfg ∧ validateRetentionRules rules = None ∧
  (rules ≠ [] → (0 < sc_RetentionMaxAge cfg)%Z).
Proof.
  unfold configureRetentionRules. destruct (sc_RetentionRules cfg) as [|r l]; [by intros [= <-]|].
  destruct (Z.leb_spec (sc_RetentionMaxAge cfg) 0); [done|].
  destruct (validateRetentionRules (r :: l)) eqn:E; [done|]. intros [= <-]. split_and!; try done.
Qed.

Lemma configureStats_Ok cfg rules iv rc :
  configureStats cfg rules = Ok (iv, rc) → in_int64 (hour + or_default (sc_StatsRollupGrace cfg) defaultStatsRollupGrace)%Z →
  (0 ≤ iv)%Z ∧
  ((0 < iv)%Z →
     (0 < rc_grace rc ∧ 0 < rc_maxHours rc ∧ 0 < rc_retention rc)%Z ∧
     ((0 < sc_RetentionMaxAge cfg)%Z → (hour + rc_grace rc ≤ sc_RetentionMaxAge cfg)%Z) ∧
     (∀ r, r ∈ rules → (hour + rc_grace rc ≤ rule_MaxAge r)%Z)).
Proof.
  intros Hc Hi. unfold configureStats in Hc.
  destruct (Z.leb_spec (sc_StatsRollupInterval cfg) 0) as [|Hpos]; [simplify_eq; split; lia|].
  cbn zeta in Hc. cbn [rc_grace] in Hc. rewrite wrap64_id in Hc by done.
  destruct (_ && _) eqn:E1; [done|]. destruct (existsb _ _) eqn:E2; [done|]. simplify_eq. cbn [rc_grace rc_maxHours rc_retention].
  split; [lia|]. intros _. split_and!; try (by apply or_default_pos).
  - intros. lia.
  - intros r Hr. apply Z.nlt_ge. intros Hlt. apply not_true_iff_false in E2. apply E2.
    apply existsb_exists. exists r. rewrite <-list_elem_of_In. split; [done|]. by apply Z.ltb_lt.
Qed.

Lemma reconcileCadence_pos decl : (0 < reconcileCadence decl)%Z.
Proof. unfold reconcileCadence, defaultReconcileInterval, minute, second. case_match; lia. Qed.

Section sound.
Context `{Cron}.

Lemma NewScheduler_Ok cfg s :
  NewSchedulerWithConfig cfg = Ok s →
  sc_DB cfg = true ∧ sc_Client cfg = true ∧ sc_Driver cfg = true ∧
  configureRetentionRules cfg = Ok (rt_Rules (ss_retentionOpts s)) ∧
  configureStats cfg (rt_Rules (ss_retentionOpts s)) = Ok (ss_statsInterval s, ss_statsCfg s) ∧
  ss_retentionMaxAge s = sc_RetentionMaxAge cfg ∧
  ss_backfillCap s = or_default (sc_BackfillCap cfg) defaultBackfillCap ∧
  ss_tickInterval s = or_default (sc_TickInterval cfg) defaultTickInterval ∧
  ss_sweepInterval s = or_default (sc_SweepInterval cfg) defaultSweepInterval ∧
  (retentionEnabled (ss_retentionMaxAge s) (ss_auditRetention s) = true →
     ss_retentionInterval s = or_default (sc_RetentionInterval cfg) defaultRetentionInterval).
Proof.
  unfold NewSchedulerWithConfig. intros E.
  destruct (sc_DB cfg); [|done]. destruct (sc_Client cfg); [|done]. destruct (sc_Driver cfg); [|done]. simpl in E.
  destruct (configureRetentionRules cfg) as [rules|] eqn:Er; [|done].
  destruct (configurePeriodics _ _) as [decl|]; [|done].
  destruct (configureStats cfg rules) as [[iv rc]|] eqn:Es; [|done]. simplify_eq. simpl.
  split_and!; try done. by intros ->.
Qed.

(** A scheduler that is constructed is safe to run. Every activity it runs has a
    positive interval, which a Go ticker requires, and its own name; the backfill
    cap is positive; retention rules are valid and only kept where RetentionMaxAge
    turns retention on; and, with the stats rollup on, no retention window, the
    default's or a rule's, is shorter than an hour plus the grace the rollup waits. *)
Theorem scheduler_config_sound cfg s :
  NewSchedulerWithConfig cfg = Ok s →
  in_int64 (hour + or_default (sc_StatsRollupGrace cfg) defaultStatsRollupGrace)%Z →
  (∀ a, a ∈ activities s → (0 < act_interval a)%Z) ∧ NoDup (act_name <$> activities s) ∧
  (0 < ss_backfillCap s)%Z ∧
  validateRetentionRules (rt_Rules (ss_retentionOpts s)) = None ∧
  (rt_Rules (ss_retentionOpts s) ≠ [] → (0 < ss_retentionMaxAge s)%Z) ∧
  ((0 < ss_statsInterval s)%Z →
     ((0 < ss_retentionMaxAge s)%Z → (hour + rc_grace (ss_statsCfg s) ≤ ss_retentionMaxAge s)%Z) ∧
     ∀ r, r ∈ rt_Rules (ss_retentionOpts s) → (hour + rc_grace (ss_statsCfg s) ≤ rule_MaxAge r)%Z).
Proof.
  intros (_ & _ & _ & Hr & Hs & Hage & Hcap & Htick & Hsweep & Hret)%NewScheduler_Ok Hi.
  apply configureRetentionRules_Ok in Hr as (_ & Hv & Hrules).
  apply configureStats_Ok in Hs as [_ Hs]; [|done].
  assert (0 < second ∧ 0 < hour)%Z as [Hsec Hhour] by (unfold hour, minute, second; lia).
  split_and!.
  - unfold activities, when. intros a Ha. rewrite !elem_of_app in Ha.
    destruct Ha as [Ha|[Ha|[Ha|[Ha|[Ha|Ha]]]]].
    + apply elem_of_cons in Ha as [->|Ha%list_elem_of_singleton]; simpl; [|subst; simpl];
        rewrite ?Htick, ?Hsweep; apply or_default_pos; unfold defaultTickInterval, defaultSweepInterval; lia.
    + destruct (retentionEnabled _ _) eqn:E; [|set_solver]. apply list_elem_of_singleton in Ha as ->. simpl.
      rewrite Hret by done. by apply or_default_pos.
    + destruct (Z.ltb_spec 0 (ss_healthSampleInterval s)); [|set_solver]. by apply list_elem_of_singleton in Ha as ->.
    + destruct (Z.ltb_spec 0 (ss_statsInterval s)); [|set_solver]. by apply list_elem_of_singleton in Ha as ->.
    + destruct (Z.ltb_spec 0 (ss_queueSampleInterval s)); [|set_solver]. by apply list_elem_of_singleton in Ha as ->.
    + destruct (reconcileEnabled _); [|set_solver]. apply list_elem_of_singleton in Ha as ->. apply reconcileCadence_pos.
  - unfold activities, when. refine (bool_decide_unpack _ _).
    destruct (retentionEnabled _ _), (0 <? ss_healthSampleInterval s)%Z, (0 <? ss_statsInterval s)%Z,
      (0 <? ss_queueSampleInterval s)%Z, (reconcileEnabled _); exact I.
  - rewrite Hcap. by apply or_default_pos.
  - done.
  - by rewrite Hage.
  - intros Hst. rewrite Hage. by destruct (Hs Hst) as (_ & ? & ?).
Qed.
End sound.

(** ** What a prune may take *)

Lemma finalized_before_le t t' r : (t ≤ t')%Z → finalized_before t r = true → finalized_before t' r = true.
Proof. unfold finalized_before. destruct (j_FinalizedAt r); [lia|done]. Qed.

Lemma retention_cap_le hold progress capAt t :
  retention_cap hold progress = Some capAt → (capAt t ≤ t)%Z.
Proof.
  unfold retention_cap. destruct hold; [|by intros [= <-]]. destruct (statsRetentionCap progress); [|done].
  intros [= <-]. case_match; lia.
Qed.

Lemma retention_cap_held progress capAt :
  retention_cap true progress = Some capAt →
  ∃ p, progress = Some p ∧ covered p = true ∧ ∀ t, (capAt t ≤ sp_To p)%Z.
Proof.
  unfold retention_cap, statsRetentionCap. destruct progress as [p|]; [|done].
  destruct (covered p) eqn:E; [|done]. unfold covered in *. cbn [negb].
  destruct (Z.ltb_spec (sp_RetainFrom p) (sp_From p)); intros [= <-]; exists p; split_and!; try done;
    intros t; case_match; lia.
Qed.

(** A scheduler's retention pass takes only what its configuration lets it. For
    a scheduler that was constructed, a pass always ends and keeps the tables'
    invariants, and a job it deleted was terminal and had been finalized longer than
    its window: the age of the most specific rule covering it, or RetentionMaxAge
    where none does; with the stats rollup on, it had also been finalized before the
    end of the hours the rollup covers. With RetentionMaxAge unset nothing goes. *)
Theorem prune_respects_windows `{Cron} `{RowOrder} cfg s fuel cancelled now0 now progress d id r :
  NewSchedulerWithConfig cfg = Ok s → db_wf d → jobs d !! "" = None → size (jobs d) < fuel →
  jobs d !! id = Some r →
  ∃ n e d',
    PruneRetention fuel cancelled now0 now progress s d = Some (n, e, d') ∧ db_wf d' ∧
    (jobs d' !! id = None →
       (0 < ss_retentionMaxAge s)%Z ∧ isTerminalStateString (j_State r) = true ∧
       let rules := rt_Rules (ss_retentionOpts s) in
       (((∀ rule, rule ∈ rules → ¬ covers rule r) ∧
           finalized_before (now0 - ss_retentionMaxAge s) r = true) ∨
        (∃ rule, decides rules r rule ∧ finalized_before (now - rule_MaxAge rule) r = true)) ∧
       ((0 < ss_statsInterval s)%Z →
          ∃ p, progress = Some p ∧ covered p = true ∧ finalized_before (sp_To p) r = true)).
Proof.
  intros (_ & _ & _ & Hr & _)%NewScheduler_Ok Hwf He Hf Hrow.
  apply configureRetentionRules_Ok in Hr as (_ & Hv & _). unfold PruneRetention.
  destruct (Z.leb_spec (ss_retentionMaxAge s) 0) as [|Hage].
  { exists 0%Z, None, d. split_and!; [done..|congruence]. }
  set (opts := {| rt_BatchSize := _ |}). destruct (retention_cap (rt_HoldForStatsRollup opts) progress) as [capAt|] eqn:Hc.
  2: { exists 0%Z, None, d. unfold DeleteFinishedJobsWithOptions. rewrite Hc.
       change (rt_Rules opts) with (rt_Rules (ss_retentionOpts s)). rewrite Hv. split_and!; [done..|congruence]. }
  destruct (pass_run fuel cancelled now progress (now0 - ss_retentionMaxAge s) opts capAt d)
    as (ids & e & -> & Hrun); try done.
  eexists _, _, _. split_and!; [done|by apply wf_deleteJobRows|]. intros Hn.
  rewrite lookup_delete_rows in Hn by apply Hwf. unfold str_mem in Hn. case_bool_decide as Hi; [|congruence].
  apply (pr_expired _ _ _ _ _ _ _ _ Hrun), elem_of_prunable in Hi as (r2 & ? & Hx). simplify_eq.
  apply expired_final in Hx as (Hterm & _ & Hcut). split_and!; try done.
  - pose proof (retentionCutoff_decided now (capAt (now0 - ss_retentionMaxAge s))%Z (rt_Rules opts) capAt r Hv) as Hd.
    unfold pass_cutoff in Hcut. rewrite Hcut in Hd. destruct Hd as [(rule & Hdec & _ & Hb)|[Hnone Hb]]; [right|left].
    + exists rule. split; [done|]. symmetry in Hb. eapply finalized_before_le, Hb. by eapply retention_cap_le.
    + split; [done|]. symmetry in Hb. eapply finalized_before_le, Hb. by eapply retention_cap_le.
  - intros Hst. assert (rt_HoldForStatsRollup opts = true) as Hh.
    { simpl. by rewrite (proj2 (Z.ltb_lt _ _) Hst), orb_true_r. }
    rewrite Hh in Hc. apply retention_cap_held in Hc as (p & -> & Hcov & Hle). exists p. split_and!; try done.
    by eapply cutoff_capped.
Qed.

(** ** No activity overlaps itself *)

Lemma holders_insert g i p q :
  g_threads g !! i = Some p →
  length (filter (λ x, holding x = true) (<[i := q]> (g_threads g))) + (if holding p then 1 else 0) =
  holders g + (if holding q then 1 else 0).
Proof.
  intros Hi. unfold holders. rewrite insert_take_drop by (by eapply lookup_lt_Some).
  rewrite <-(take_drop_middle _ _ _ Hi) at 3. rewrite !filter_app, !length_app, !filter_cons.
  destruct (holding p), (holding q); repeat (rewrite decide_True by done || rewrite decide_False by done); simpl; lia.
Qed.

Lemma gstep_holders g1 g2 :
  gstep g1 g2 → holders g1 = (if g_running g1 then 1 else 0) → holders g2 = (if g_running g2 then 1 else 0).
Proof.
  intros Hs Hinv. destruct Hs as [g|g i Hi Hr|g i Hi Hr|g i Hi|g i Hi|g i Hi|g i Hi|g i Hi];
    [|pose proof (holders_insert g i _ PcRun Hi)|pose proof (holders_insert g i _ PcSkip Hi)
     |pose proof (holders_insert g i _ PcDone Hi)|pose proof (holders_insert g i _ PcReset Hi)
     |pose proof (holders_insert g i _ PcRelease Hi)|pose proof (holders_insert g i _ PcRelease Hi)
     |pose proof (holders_insert g i _ PcDone Hi)]; unfold holders in *; simpl in *;
    rewrite ?Hr in *; try lia.
  - rewrite filter_app, length_app. simpl. lia.
  - destruct (g_running g); lia.
Qed.

(** No maintenance activity overlaps itself. Whatever the interleaving of tick
    calls, passes that end and passes that panic, at most one thread is inside a
    pass, and the guard reads running exactly while one is, so a finished pass
    always leaves the activity able to run again. *)
Theorem activity_never_overlaps g :
  rtc gstep guard0 g → holders g ≤ 1 ∧ (g_running g = true ↔ holders g = 1).
Proof.
  intros Hrtc. assert (holders g = if g_running g then 1 else 0) as ->; [|destruct (g_running g); split; lia || done].
  assert (holders guard0 = if g_running guard0 then 1 else 0) as H0 by done.
  induction Hrtc; eauto using gstep_holders.
Qed.
