(* ===== verification/Rollup.v ===== *)
(** * The stats rollup: internal/core/stats_rollup.go, stats_progress.go, error_groups.go

    Closed hours of finished runs and inserted jobs are aggregated per kind and queue
    into job_stats_hourly, with each kind's and the hour's totals, and per kind and
    fingerprint into job_error_groups_hourly; job_stats_progress records which hours
    are covered. [aggregateWindow] is the one aggregate; [rollupHour] replaces an hour
    in one transaction and extends the covered range across it. The percentile columns
    of a stored row, which are floating point and which nothing here reads back, and
    updated_at are left out, and an hour is keyed by its start rather than its start
    in epoch seconds. *)

From S2P Require Import Prelude Types Text Json Fingerprint Store Plan Sweep Retention Ids Hist Maintenance.

Definition floorHour (t : Z) : Z := (t / hour * hour)%Z.
Definition ceilHour (t : Z) : Z :=
  let h := floorHour t in if (h <? t)%Z then (h + hour)%Z else h.

(** ** Aggregates *)

Definition statsTotalKey : string := "".
Definition unknownStatsKey : string := "(unknown)".

(** int64 [a += b]. *)
Definition add64 (a b : Z) : Z := wrap64 (a + b).

Record runAgg := {
  ag_Kind : string; ag_Queue : string;
  ag_Attempts : Z; ag_Success : Z; ag_Error : Z; ag_Timeout : Z; ag_Snooze : Z; ag_Cancelled : Z; ag_Crashed : Z;
  ag_Superseded : Z; ag_Discarded : Z; ag_Enqueued : Z;
  ag_DurCount : Z; ag_DurSumMs : Z; ag_DurMaxMs : Z; ag_DurHist : histogram; ag_SlowestRunID : string;
  ag_WaitCount : Z; ag_WaitSumMs : Z; ag_WaitMaxMs : Z; ag_WaitHist : histogram;
  ag_CostMicrosSum : Z
}.
Definition newRunAgg (kind queue : string) : runAgg :=
  {| ag_Kind := kind; ag_Queue := queue; ag_Attempts := 0; ag_Success := 0; ag_Error := 0; ag_Timeout := 0;
     ag_Snooze := 0; ag_Cancelled := 0; ag_Crashed := 0; ag_Superseded := 0; ag_Discarded := 0; ag_Enqueued := 0;
     ag_DurCount := 0; ag_DurSumMs := 0; ag_DurMaxMs := 0; ag_DurHist := newHistogram; ag_SlowestRunID := "";
     ag_WaitCount := 0; ag_WaitSumMs := 0; ag_WaitMaxMs := 0; ag_WaitHist := newHistogram; ag_CostMicrosSum := 0 |}.

(** Go's [a > b] on strings. *)
Definition str_gt (a b : string) : bool := negb (bool_decide (bytes_le a b)).

(** [runAgg.merge]. *)
Definition agg_merge (a o : runAgg) : runAgg :=
  {| ag_Kind := ag_Kind a; ag_Queue := ag_Queue a;
     ag_Attempts := add64 (ag_Attempts a) (ag_Attempts o); ag_Success := add64 (ag_Success a) (ag_Success o);
     ag_Error := add64 (ag_Error a) (ag_Error o); ag_Timeout := add64 (ag_Timeout a) (ag_Timeout o);
     ag_Snooze := add64 (ag_Snooze a) (ag_Snooze o); ag_Cancelled := add64 (ag_Cancelled a) (ag_Cancelled o);
     ag_Crashed := add64 (ag_Crashed a) (ag_Crashed o);
     ag_Superseded := add64 (ag_Superseded a) (ag_Superseded o);
     ag_Discarded := add64 (ag_Discarded a) (ag_Discarded o); ag_Enqueued := add64 (ag_Enqueued a) (ag_Enqueued o);
     ag_DurCount := add64 (ag_DurCount a) (ag_DurCount o); ag_DurSumMs := add64 (ag_DurSumMs a) (ag_DurSumMs o);
     ag_DurMaxMs := Z.max (ag_DurMaxMs a) (ag_DurMaxMs o); ag_DurHist := add (ag_DurHist a) (ag_DurHist o);
     ag_SlowestRunID :=
       if (0 <? ag_DurCount o)%Z &&
          ((ag_DurMaxMs a <? ag_DurMaxMs o)%Z ||
           ((ag_DurMaxMs o =? ag_DurMaxMs a)%Z && str_gt (ag_SlowestRunID o) (ag_SlowestRunID a)))
       then ag_SlowestRunID o else ag_SlowestRunID a;
     ag_WaitCount := add64 (ag_WaitCount a) (ag_WaitCount o); ag_WaitSumMs := add64 (ag_WaitSumMs a) (ag_WaitSumMs o);
     ag_WaitMaxMs := Z.max (ag_WaitMaxMs a) (ag_WaitMaxMs o); ag_WaitHist := add (ag_WaitHist a) (ag_WaitHist o);
     ag_CostMicrosSum := add64 (ag_CostMicrosSum a) (ag_CostMicrosSum o) |}.

(** A row of [runWindowSQL]: a finished run, its kind, queue and job state resolved. *)
Record runView := {
  rv_Kind : string; rv_Queue : string; rv_ID : string; rv_Outcome : RunOutcome; rv_Sup : bool;
  rv_JobState : option JobState; rv_Duration : option Z; rv_Wait : option Z; rv_Cost : option Z;
  rv_FinishedAt : Z; rv_ErrorClass : option ErrorClass; rv_Fingerprint : option string;
  rv_Message : option string
}.

(** [runAgg.observe]: the sweep's crash it was, whatever the row says now. *)
Definition as_crash (v : runView) : bool :=
  bool_decide (rv_Outcome v = OutcomeCrashed) || (rv_Sup v && bool_decide (is_Some (rv_JobState v))).
Definition one_if (b : bool) : Z := if b then 1 else 0.
Definition agg_observe (a : runAgg) (v : runView) : runAgg :=
  let crash := as_crash v in
  let outcome := if crash then OutcomeCrashed else rv_Outcome v in
  let superseded := if crash then false else rv_Sup v in
  let duration := if crash then None else rv_Duration v in
  let cost := if crash then None else rv_Cost v in
  let inc b n := add64 n (one_if b) in
  let was o := bool_decide (outcome = o) in
  let dur := if was OutcomeSuccess then duration else None in
  if superseded then
    {| ag_Kind := ag_Kind a; ag_Queue := ag_Queue a; ag_Attempts := ag_Attempts a; ag_Success := ag_Success a;
       ag_Error := ag_Error a; ag_Timeout := ag_Timeout a; ag_Snooze := ag_Snooze a; ag_Cancelled := ag_Cancelled a;
       ag_Crashed := ag_Crashed a; ag_Superseded := add64 (ag_Superseded a) 1; ag_Discarded := ag_Discarded a;
       ag_Enqueued := ag_Enqueued a; ag_DurCount := ag_DurCount a; ag_DurSumMs := ag_DurSumMs a;
       ag_DurMaxMs := ag_DurMaxMs a; ag_DurHist := ag_DurHist a; ag_SlowestRunID := ag_SlowestRunID a;
       ag_WaitCount := ag_WaitCount a; ag_WaitSumMs := ag_WaitSumMs a; ag_WaitMaxMs := ag_WaitMaxMs a;
       ag_WaitHist := ag_WaitHist a; ag_CostMicrosSum := ag_CostMicrosSum a |}
  else
    {| ag_Kind := ag_Kind a; ag_Queue := ag_Queue a; ag_Attempts := add64 (ag_Attempts a) 1;
       ag_Success := inc (was OutcomeSuccess) (ag_Success a); ag_Error := inc (was OutcomeError) (ag_Error a);
       ag_Timeout := inc (was OutcomeTimeout) (ag_Timeout a); ag_Snooze := inc (was OutcomeSnooze) (ag_Snooze a);
       ag_Cancelled := inc (was OutcomeCancelled) (ag_Cancelled a); ag_Crashed := inc (was OutcomeCrashed) (ag_Crashed a);
       ag_Superseded := ag_Superseded a;
       ag_Discarded := inc (bool_decide (rv_JobState v = Some StateDiscarded)) (ag_Discarded a);
       ag_Enqueued := ag_Enqueued a;
       ag_DurCount := inc (bool_decide (is_Some dur)) (ag_DurCount a);
       ag_DurSumMs := match dur with Some d => add64 (ag_DurSumMs a) d | None => ag_DurSumMs a end;
       ag_DurMaxMs := match dur with Some d => Z.max (ag_DurMaxMs a) d | None => ag_DurMaxMs a end;
       ag_DurHist := match dur with Some d => observe (ag_DurHist a) d | None => ag_DurHist a end;
       ag_SlowestRunID :=
         match dur with
         | Some d =>
           if (ag_DurCount a =? 0)%Z || (ag_DurMaxMs a <? d)%Z ||
              ((d =? ag_DurMaxMs a)%Z && str_gt (rv_ID v) (ag_SlowestRunID a))
           then rv_ID v else ag_SlowestRunID a
         | None => ag_SlowestRunID a
         end;
       ag_WaitCount := inc (bool_decide (is_Some (rv_Wait v))) (ag_WaitCount a);
       ag_WaitSumMs := match rv_Wait v with Some w => add64 (ag_WaitSumMs a) w | None => ag_WaitSumMs a end;
       ag_WaitMaxMs := match rv_Wait v with Some w => Z.max (ag_WaitMaxMs a) w | None => ag_WaitMaxMs a end;
       ag_WaitHist := match rv_Wait v with Some w => observe (ag_WaitHist a) w | None => ag_WaitHist a end;
       ag_CostMicrosSum := match cost with Some c => add64 (ag_CostMicrosSum a) c | None => ag_CostMicrosSum a end |}.

(** a.Enqueued += n *)
Definition agg_enqueued (n : Z) (a : runAgg) : runAgg :=
  {| ag_Kind := ag_Kind a; ag_Queue := ag_Queue a; ag_Attempts := ag_Attempts a; ag_Success := ag_Success a;
     ag_Error := ag_Error a; ag_Timeout := ag_Timeout a; ag_Snooze := ag_Snooze a; ag_Cancelled := ag_Cancelled a;
     ag_Crashed := ag_Crashed a; ag_Superseded := ag_Superseded a; ag_Discarded := ag_Discarded a;
     ag_Enqueued := add64 (ag_Enqueued a) n; ag_DurCount := ag_DurCount a; ag_DurSumMs := ag_DurSumMs a;
     ag_DurMaxMs := ag_DurMaxMs a; ag_DurHist := ag_DurHist a; ag_SlowestRunID := ag_SlowestRunID a;
     ag_WaitCount := ag_WaitCount a; ag_WaitSumMs := ag_WaitSumMs a; ag_WaitMaxMs := ag_WaitMaxMs a;
     ag_WaitHist := ag_WaitHist a; ag_CostMicrosSum := ag_CostMicrosSum a |}.

(** ** Error groups *)

Definition maxSampleMessage : nat := Z.to_nat 512.
Record runRef := { rr_At : Z; rr_ID : string; rr_exact : bool }.
Definition zero_ref : runRef := {| rr_At := zero_time; rr_ID := ""; rr_exact := false |}.
(** [runRef.before]: by time, then id. *)
Definition ref_before (r o : runRef) : bool :=
  (rr_At r <? rr_At o)%Z || ((rr_At r =? rr_At o)%Z && str_gt (rr_ID o) (rr_ID r)).

Record errorGroupAgg := {
  eg_Kind : string; eg_Fingerprint : string; eg_ErrorClass : ErrorClass; eg_Sample : string;
  eg_Failures : Z; eg_Discarded : Z; eg_First : runRef; eg_Last : runRef; eg_hourly : gmap Z Z
}.
Definition newErrorGroupAgg (kind fp : string) : errorGroupAgg :=
  {| eg_Kind := kind; eg_Fingerprint := fp; eg_ErrorClass := ErrorClassOther ""; eg_Sample := "";
     eg_Failures := 0; eg_Discarded := 0; eg_First := zero_ref; eg_Last := zero_ref; eg_hourly := ∅ |}.
Definition add_hour (m : gmap Z Z) (h n : Z) : gmap Z Z := <[h := add64 (default 0%Z (m !! h)) n]> m.

(** [errorGroupAgg.observe]. *)
Definition group_observe (g : errorGroupAgg) (ref : runRef) (class : ErrorClass) (message : string)
    (discarded : bool) : errorGroupAgg :=
  let first := (eg_Failures g =? 0)%Z || ref_before ref (eg_First g) in
  let last := (eg_Failures g =? 0)%Z || ref_before (eg_Last g) ref in
  {| eg_Kind := eg_Kind g; eg_Fingerprint := eg_Fingerprint g;
     eg_ErrorClass := if last then class else eg_ErrorClass g;
     eg_Sample := if last then truncate message maxSampleMessage else eg_Sample g;
     eg_Failures := add64 (eg_Failures g) 1; eg_Discarded := add64 (eg_Discarded g) (one_if discarded);
     eg_First := if first then ref else eg_First g; eg_Last := if last then ref else eg_Last g;
     eg_hourly := add_hour (eg_hourly g) (floorHour (rr_At ref)) 1 |}.

(** for h, n := range other.hourly { g.hourly[h] += n } *)
Definition merge_hourly (m o : gmap Z Z) : gmap Z Z := map_fold (λ h n acc, add_hour acc h n) m o.
(** [errorGroupAgg.merge]. *)
Definition group_merge (g o : errorGroupAgg) : errorGroupAgg :=
  if (eg_Failures o =? 0)%Z then g
  else
    let first := (eg_Failures g =? 0)%Z || ref_before (eg_First o) (eg_First g) in
    let last := (eg_Failures g =? 0)%Z || ref_before (eg_Last g) (eg_Last o) in
    {| eg_Kind := eg_Kind g; eg_Fingerprint := eg_Fingerprint g;
       eg_ErrorClass := if last then eg_ErrorClass o else eg_ErrorClass g;
       eg_Sample := if last then eg_Sample o else eg_Sample g;
       eg_Failures := add64 (eg_Failures g) (eg_Failures o); eg_Discarded := add64 (eg_Discarded g) (eg_Discarded o);
       eg_First := if first then eg_First o else eg_First g; eg_Last := if last then eg_Last o else eg_Last g;
       eg_hourly := merge_hourly (eg_hourly g) (eg_hourly o) |}.

(** ** A window *)

Abbreviation statsGroup := (string * string)%type.
Record statsFilter := { sf_Kind : string; sf_Queue : string }.
Definition no_filter : statsFilter := {| sf_Kind := ""; sf_Queue := "" |}.
(** The rows of one kind and one queue; an empty name matches every one. *)
Definition filter_ok (f : statsFilter) (kind queue : string) : bool :=
  (is_empty (sf_Kind f) || bool_decide (kind = sf_Kind f)) &&
  (is_empty (sf_Queue f) || bool_decide (queue = sf_Queue f)).

(** [resolvedKindExpr], [resolvedQueueExpr], [resolvedJobStateExpr]. *)
Definition resolved_name (own : string) (job : option string) : string :=
  if is_empty own then default unknownStatsKey job else own.
Definition resolved_state (d : db) (r : jobRunRow) : option JobState :=
  match r_JobState r with
  | Some s => Some s
  | None =>
    if negb (r_Superseded r) && failedOutcome (r_Outcome r) then
      match jobs d !! r_JobID r with
      | Some j => if bool_decide (j_State j = StateDiscarded) && (j_Attempt j =? r_Attempt r)%Z
                  then Some StateDiscarded else None
      | None => None
      end
    else None
  end.
Definition run_view (d : db) (t : Z) (r : jobRunRow) : runView :=
  {| rv_Kind := resolved_name (r_Kind r) (j_Kind <$> jobs d !! r_JobID r);
     rv_Queue := resolved_name (r_Queue r) (j_Queue <$> jobs d !! r_JobID r);
     rv_ID := r_ID r; rv_Outcome := r_Outcome r; rv_Sup := r_Superseded r; rv_JobState := resolved_state d r;
     rv_Duration := r_DurationMs r; rv_Wait := r_QueueWaitMs r; rv_Cost := r_CostMicros r;
     rv_FinishedAt := t; rv_ErrorClass := r_ErrorClass r; rv_Fingerprint := r_ErrorFingerprint r;
     rv_Message := if failedOutcome (r_Outcome r) then r_ErrorMessage r else None |}.

(** job_run_finishes joined to job_runs over [from, to). *)
Definition in_window (from to t : Z) : bool := (from <=? t)%Z && (t <? to)%Z.
Definition finished_in (d : db) (from to : Z) : list runView :=
  omap (λ e : Z * string, if in_window from to e.1 then run_view d e.1 <$> job_runs d !! e.2 else None)
    (elements (job_run_finishes d)).
(** The jobs whose ids name an insert in [from, to): id >= idFloor(from) AND id < idFloor(to). *)
Definition inserted_in (d : db) (from to : Z) : list jobRow :=
  filter (λ r, bool_decide (bytes_le (idFloor from) (j_ID r)) && str_gt (idFloor to) (j_ID r) = true)
    (map_to_list (jobs d)).*2.

(** m[g], created when missing, changed by [fn]. *)
Definition at_group (g : statsGroup) (fn : runAgg → runAgg) (m : gmap statsGroup runAgg)
  : gmap statsGroup runAgg := <[g := fn (default (newRunAgg g.1 g.2) (m !! g))]> m.

Record windowAgg := { wa_runs : gmap statsGroup runAgg; wa_groups : gmap (string * string) errorGroupAgg }.

Section window.
Context `{GoLib} `{RowOrder}.

(** [windowAgg.observeFailure]. *)
Definition observeFailure (groups : gmap (string * string) errorGroupAgg) (v : runView)
  : gmap (string * string) errorGroupAgg :=
  let c := default (ErrorClassOther "") (rv_ErrorClass v) in
  let msg := default "" (rv_Message v) in
  let stored := default "" (rv_Fingerprint v) in
  let fp := if is_empty stored then ErrorFingerprint (rv_Kind v) c msg else stored in
  let key := (rv_Kind v, fp) in
  <[key := group_observe (default (newErrorGroupAgg (rv_Kind v) fp) (groups !! key))
             {| rr_At := rv_FinishedAt v; rr_ID := rv_ID v; rr_exact := true |} c msg
             (bool_decide (rv_JobState v = Some StateDiscarded))]> groups.

(** [countEnqueued]: the inserted jobs of each kind and queue. *)
Definition count_group (f : statsFilter) (m : gmap statsGroup Z) (r : jobRow) : gmap statsGroup Z :=
  if filter_ok f (j_Kind r) (j_Queue r)
  then <[(j_Kind r, j_Queue r) := (default 0 (m !! (j_Kind r, j_Queue r)) + 1)%Z]> m else m.
Definition countEnqueued (d : db) (from to : Z) (f : statsFilter) : gmap statsGroup Z :=
  if (from <? to)%Z then foldl (count_group f) ∅ (inserted_in d from to) else ∅.

Definition aggregateWindow (d : db) (from to : Z) (f : statsFilter) : windowAgg :=
  if negb (from <? to)%Z then {| wa_runs := ∅; wa_groups := ∅ |}
  else
    let rows := filter (λ v, filter_ok f (rv_Kind v) (rv_Queue v) = true) (scan (finished_in d from to)) in
    let runs := foldl (λ m v, at_group (rv_Kind v, rv_Queue v) (λ a, agg_observe a v) m) ∅ rows in
    let failed := filter (λ v, negb (rv_Sup v) && failedOutcome (rv_Outcome v) = true) rows in
    {| wa_runs := foldl (λ m gn, at_group gn.1 (agg_enqueued gn.2) m) runs
                    (scan (map_to_list (countEnqueued d from to f)));
       wa_groups := foldl observeFailure ∅ failed |}.
Definition aggregateRuns (d : db) (from to : Z) (f : statsFilter) : gmap statsGroup runAgg :=
  wa_runs (aggregateWindow d from to f).
End window.

(** ** Stored hours *)

Record jobStatsHourlyRow := {
  hr_Bucket : Z; hr_Kind : string; hr_Queue : string;
  hr_Attempts : Z; hr_Success : Z; hr_Error : Z; hr_Timeout : Z; hr_Snooze : Z; hr_Cancelled : Z; hr_Crashed : Z;
  hr_Superseded : Z; hr_Discarded : Z; hr_Enqueued : Z;
  hr_DurCount : Z; hr_DurSumMs : Z; hr_DurMaxMs : Z; hr_DurHist : string; hr_SlowestRunID : option string;
  hr_WaitCount : Z; hr_WaitSumMs : Z; hr_WaitMaxMs : Z; hr_WaitHist : string; hr_CostMicrosSum : Z;
  hr_HistVersion : Z; hr_RolledAt : Z
}.
Record jobErrorGroupHourlyRow := {
  gr_Bucket : Z; gr_Kind : string; gr_Fingerprint : string; gr_ErrorClass : ErrorClass; gr_Failures : Z;
  gr_Discarded : Z; gr_FirstRunID : option string; gr_LastRunID : option string; gr_SampleMessage : string;
  gr_RolledAt : Z
}.
(** The rollup's tables: job_stats_hourly and job_error_groups_hourly by primary
    key, and the row of job_stats_progress. *)
Record rollups := {
  ro_hourly : gmap (Z * statsGroup) jobStatsHourlyRow;
  ro_groups : gmap (Z * (string * string)) jobErrorGroupHourlyRow;
  ro_progress : option statsProgress
}.
Definition no_rollups : rollups := {| ro_hourly := ∅; ro_groups := ∅; ro_progress := None |}.
Definition with_progress (p : option statsProgress) (s : rollups) : rollups :=
  {| ro_hourly := ro_hourly s; ro_groups := ro_groups s; ro_progress := p |}.

Definition rowFromAgg (bucket : Z) (a : runAgg) (rolledAt : Z) : jobStatsHourlyRow :=
  {| hr_Bucket := bucket; hr_Kind := ag_Kind a; hr_Queue := ag_Queue a; hr_Attempts := ag_Attempts a;
     hr_Success := ag_Success a; hr_Error := ag_Error a; hr_Timeout := ag_Timeout a; hr_Snooze := ag_Snooze a;
     hr_Cancelled := ag_Cancelled a; hr_Crashed := ag_Crashed a; hr_Superseded := ag_Superseded a;
     hr_Discarded := ag_Discarded a; hr_Enqueued := ag_Enqueued a; hr_DurCount := ag_DurCount a;
     hr_DurSumMs := ag_DurSumMs a; hr_DurMaxMs := ag_DurMaxMs a; hr_DurHist := marshal (ag_DurHist a);
     hr_SlowestRunID := if is_empty (ag_SlowestRunID a) then None else Some (ag_SlowestRunID a);
     hr_WaitCount := ag_WaitCount a; hr_WaitSumMs := ag_WaitSumMs a; hr_WaitMaxMs := ag_WaitMaxMs a;
     hr_WaitHist := marshal (ag_WaitHist a); hr_CostMicrosSum := ag_CostMicrosSum a;
     hr_HistVersion := histVersion; hr_RolledAt := rolledAt |}.

(** Key order of the rows. *)
Definition key_le (a b : string * string) : Prop :=
  (a.1 ≠ b.1 ∧ bytes_le a.1 b.1) ∨ (a.1 = b.1 ∧ bytes_le a.2 b.2).
#[global] Instance key_le_dec : RelDecision key_le.
Proof. intros a b. unfold key_le. apply _. Defined.
Definition row_le (a b : jobStatsHourlyRow) : Prop := key_le (hr_Kind a, hr_Queue a) (hr_Kind b, hr_Queue b).
#[global] Instance row_le_dec : RelDecision row_le.
Proof. intros a b. unfold row_le. apply _. Defined.
Definition group_row_le (a b : jobErrorGroupHourlyRow) : Prop :=
  key_le (gr_Kind a, gr_Fingerprint a) (gr_Kind b, gr_Fingerprint b).
#[global] Instance group_row_le_dec : RelDecision group_row_le.
Proof. intros a b. unfold group_row_le. apply _. Defined.

Section hours.
Context `{GoLib} `{RowOrder}.

(** [hourRows]: the groups, each kind's total, and the hour's. *)
Definition kind_totals (aggs : list (statsGroup * runAgg)) : gmap statsGroup runAgg :=
  foldl (λ m ga, at_group (ga.1.1, statsTotalKey) (λ k, agg_merge k ga.2) m) ∅ aggs.
Definition hour_total (aggs : list (statsGroup * runAgg)) : runAgg :=
  foldl (λ t ga, agg_merge t ga.2) (newRunAgg statsTotalKey statsTotalKey) aggs.
Definition hourRows (bucket : Z) (aggs : gmap statsGroup runAgg) (rolledAt : Z) : list jobStatsHourlyRow :=
  if bool_decide (aggs = ∅) then []
  else
    let l := scan (map_to_list aggs) in
    merge_sort row_le ((λ a, rowFromAgg bucket a rolledAt) <$>
      (l.*2 ++ (scan (map_to_list (kind_totals l))).*2 ++ [hour_total l])).

(** [errorGroupHourRows]. *)
Definition group_row (bucket rolledAt : Z) (g : errorGroupAgg) : jobErrorGroupHourlyRow :=
  {| gr_Bucket := bucket; gr_Kind := eg_Kind g; gr_Fingerprint := eg_Fingerprint g;
     gr_ErrorClass := eg_ErrorClass g; gr_Failures := eg_Failures g; gr_Discarded := eg_Discarded g;
     gr_FirstRunID := Some (rr_ID (eg_First g)); gr_LastRunID := Some (rr_ID (eg_Last g));
     gr_SampleMessage := eg_Sample g; gr_RolledAt := rolledAt |}.
Definition errorGroupHourRows (bucket : Z) (groups : gmap (string * string) errorGroupAgg) (rolledAt : Z)
  : list jobErrorGroupHourlyRow :=
  merge_sort group_row_le (group_row bucket rolledAt <$> (scan (map_to_list groups)).*2).

(** INSERT .. ON CONFLICT DO UPDATE SET every column, row by row. *)
Definition upsert_hour (rows : list jobStatsHourlyRow) (t : gmap (Z * statsGroup) jobStatsHourlyRow) :=
  foldl (λ t r, <[(hr_Bucket r, (hr_Kind r, hr_Queue r)) := r]> t) t rows.
Definition upsert_groups (rows : list jobErrorGroupHourlyRow) (t : gmap (Z * (string * string)) jobErrorGroupHourlyRow) :=
  foldl (λ t r, <[(gr_Bucket r, (gr_Kind r, gr_Fingerprint r)) := r]> t) t rows.
(** DELETE .. WHERE bucket_start_unix = hour *)
Definition clear_hour {A} (h : Z) (t : gmap (Z * (string * string)) A) : gmap (Z * (string * string)) A :=
  filter (λ kv, kv.1.1 ≠ h) t.

(** ** The covered range *)

Record coverageStep := { cs_upFrom : Z; cs_upTo : Z; cs_downFrom : Z; cs_downTo : Z }.
Definition no_step : coverageStep :=
  {| cs_upFrom := zero_time; cs_upTo := zero_time; cs_downFrom := zero_time; cs_downTo := zero_time |}.
Definition stepUp (from to : Z) : coverageStep :=
  {| cs_upFrom := from; cs_upTo := to; cs_downFrom := zero_time; cs_downTo := zero_time |}.
Definition stepDown (from to : Z) : coverageStep :=
  {| cs_upFrom := zero_time; cs_upTo := zero_time; cs_downFrom := from; cs_downTo := to |}.

Definition step_progress (st : coverageStep) (p : statsProgress) : statsProgress :=
  {| sp_From := if (cs_downFrom st <? sp_From p)%Z && (sp_From p <=? cs_downTo st)%Z
                then cs_downFrom st else sp_From p;
     sp_To := if (cs_upFrom st <=? sp_To p)%Z && (sp_To p <? cs_upTo st)%Z then cs_upTo st else sp_To p;
     sp_RetainFrom := sp_RetainFrom p; sp_Version := add64 (sp_Version p) 1 |}.
Definition applyCoverageStep (st : coverageStep) (s : rollups) : rollups :=
  with_progress (step_progress st <$> ro_progress s) s.
Definition markCovered (st : coverageStep) (s : rollups) : rollups := applyCoverageStep st s.

Definition covers (p : statsProgress) (h : Z) : bool := (sp_From p <=? h)%Z && (h <? sp_To p)%Z.
Definition ensureStatsProgress (h : Z) (s : rollups) : rollups :=
  match ro_progress s with
  | Some _ => s
  | None => with_progress (Some {| sp_From := h; sp_To := h; sp_RetainFrom := h; sp_Version := 1 |}) s
  end.
(** The UPDATE of [advanceStatsFloor]. *)
Definition raise_floor (e : Z) (p : statsProgress) : statsProgress :=
  if (sp_From p <? e)%Z || (sp_To p <? e)%Z || negb (sp_RetainFrom p =? e)%Z then
    {| sp_From := Z.max (sp_From p) e; sp_To := Z.max (sp_To p) e; sp_RetainFrom := e;
       sp_Version := if (sp_From p <? e)%Z || (sp_To p <? e)%Z then add64 (sp_Version p) 1 else sp_Version p |}
  else p.
(** ** One hour *)

(** [refuseShrink]: the recompute counts fewer than the stored hour total. *)
Definition stored_total (h : Z) (s : rollups) : Z * Z :=
  match ro_hourly s !! (h, (statsTotalKey, statsTotalKey)) with
  | Some r => ((hr_Attempts r + hr_Superseded r)%Z, hr_Enqueued r)
  | None => (0, 0)%Z
  end.
Definition sum_counts (aggs : gmap statsGroup runAgg) : Z * Z :=
  foldl (λ acc a, (add64 acc.1 (add64 (ag_Attempts a) (ag_Superseded a)), add64 acc.2 (ag_Enqueued a))) (0, 0)%Z
    (scan (map_to_list aggs)).*2.
Definition refuseShrink (h : Z) (aggs : gmap statsGroup runAgg) (s : rollups) : bool :=
  let '(runs, enqueued) := sum_counts aggs in
  let '(sruns, senqueued) := stored_total h s in
  (runs <? sruns)%Z || (enqueued <? senqueued)%Z.

(** [rollupHour]: aggregate from [d], then replace the hour in [s] and take the step. *)
Definition rollupHour (d : db) (h rolledAt : Z) (guard : bool) (st : coverageStep) (s : rollups)
  : res (nat * rollups) :=
  let win := aggregateWindow d h (h + hour) no_filter in
  if guard && refuseShrink h (wa_runs win) s then Err ErrRollupWouldShrink
  else
    Ok (size (wa_runs win),
        applyCoverageStep st
          {| ro_hourly := upsert_hour (hourRows h (wa_runs win) rolledAt) (clear_hour h (ro_hourly s));
             ro_groups := upsert_groups (errorGroupHourRows h (wa_groups win) rolledAt) (clear_hour h (ro_groups s));
             ro_progress := ro_progress s |}).
End hours.

(** ** Probes *)

Definition least (l : list Z) : option Z :=
  foldr (λ x acc, Some (match acc with Some y => Z.min x y | None => x end)) None l.
Definition greatest (l : list Z) : option Z :=
  foldr (λ x acc, Some (match acc with Some y => Z.max x y | None => x end)) None l.
Definition finish_times (d : db) : list Z := (elements (job_run_finishes d)).*1.
Definition nextFinishedAt (d : db) (from : Z) : option Z := least (filter (λ t, from ≤ t)%Z (finish_times d)).
Definition prevFinishedAt (d : db) (lo hi : Z) : option Z :=
  greatest (filter (λ t, lo ≤ t ∧ t < hi)%Z (finish_times d)).
(** [probeJobIDs]: the ids inserted in [from, to), in order; ascending takes the
    first, descending the last. *)
Definition job_ids_in (d : db) (from to : Z) : list string :=
  if (from <? to)%Z then merge_sort bytes_le (j_ID <$> inserted_in d from to) else [].

Definition nextActivityAt (d : db) (from hi : Z) : option Z :=
  let next := nextFinishedAt d from in
  let bound := match next with Some t => if (t <? hi)%Z then t else hi | None => hi end in
  match head (job_ids_in d from bound) with
  | None => next
  | Some id => Some (default from (idTime id))
  end.
Definition prevActivityAt (d : db) (lo hi : Z) : option Z :=
  let prev := prevFinishedAt d lo hi in
  let floor := match prev with Some t => if (lo <? t)%Z then t else lo | None => lo end in
  match last (job_ids_in d floor hi) with
  | None => prev
  | Some id => Some (default (hi - hour)%Z (idTime id))
  end.

(** ** What goes on around a pass

    The job tables when it probes and when it aggregates, what other sessions commit
    to the rollup's tables before each of its statements and transactions, and
    whether its context has ended. *)

Record world := { w_db : nat → db; w_others : nat → rollups → rollups; w_cancelled : nat → bool }.

(** [advanceStatsFloor]: read, create, raise, read back; other sessions commit in
    between. *)
Definition floor_current (e : Z) (p : statsProgress) : bool :=
  negb (sp_From p <? e)%Z && negb (sp_To p <? e)%Z && (sp_RetainFrom p =? e)%Z.
Definition zero_progress : statsProgress :=
  {| sp_From := zero_time; sp_To := zero_time; sp_RetainFrom := zero_time; sp_Version := 0 |}.
Definition advanceStatsFloor (w : world) (n : nat) (earliest : Z) (s : rollups) : statsProgress * nat * rollups :=
  let s0 := w_others w n s in
  let update := λ s : rollups,
    let s2 := w_others w (n + 2) s in
    let s3 := with_progress (raise_floor earliest <$> ro_progress s2) s2 in
    let s4 := w_others w (n + 3) s3 in
    (default zero_progress (ro_progress s4), n + 4, s4) in
  match ro_progress s0 with
  | Some p => if floor_current earliest p then (p, S n, s0) else update s0
  | None => update (ensureStatsProgress earliest (w_others w (n + 1) s0))
  end.

(** ** Walks *)

Record rollWalk := { rw_rolled : list Z; rw_groups : nat; rw_reached : Z; rw_done : bool }.
Definition walk_from (t : Z) : rollWalk := {| rw_rolled := []; rw_groups := 0; rw_reached := t; rw_done := false |}.
Definition walk_step (w : rollWalk) (h : Z) (n : nat) (reached : Z) : rollWalk :=
  {| rw_rolled := rw_rolled w ++ [h]; rw_groups := rw_groups w + n; rw_reached := reached; rw_done := false |}.
Definition walk_end (w : rollWalk) (reached : Z) : rollWalk :=
  {| rw_rolled := rw_rolled w; rw_groups := rw_groups w; rw_reached := reached; rw_done := true |}.
(** budget > 0 && len(w.rolled) >= budget *)
Definition spent (budget : Z) (w : rollWalk) : bool :=
  (0 <? budget)%Z && (budget <=? Z.of_nat (length (rw_rolled w)))%Z.

(** A walk's result, the tables it leaves, and the number of its next iteration. *)
Abbreviation walk_result := (rollWalk * option error * nat * rollups)%type.

Section walks.
Context `{GoLib} `{RowOrder} (w : world) (now : Z) (guard : bool) (budget : Z).

Fixpoint rollForward (fuel n : nat) (hi : Z) (acc : rollWalk) (s : rollups) : option walk_result :=
  match fuel with
  | O => None
  | S fuel =>
    let lo := rw_reached acc in
    if negb (lo <? hi)%Z then Some (walk_end acc lo, None, n, s)
    else if spent budget acc then Some (acc, None, n, s)
    else if w_cancelled w n then Some (acc, Some ErrContext, n, s)
    else
      let s0 := w_others w n s in
      match nextActivityAt (w_db w (2 * n)) lo hi with
      | Some next =>
        let h := floorHour next in
        if (h <? hi)%Z then
          match rollupHour (w_db w (2 * n + 1)) h now guard (stepUp lo (h + hour)) s0 with
          | Err e => Some (acc, Some e, S n, s0)
          | Ok (k, s1) => rollForward fuel (S n) hi (walk_step acc h k (h + hour)) s1
          end
        else Some (walk_end acc hi, None, S n, markCovered (stepUp lo hi) s0)
      | None => Some (walk_end acc hi, None, S n, markCovered (stepUp lo hi) s0)
      end
  end.

Fixpoint rollBackward (fuel n : nat) (lo : Z) (acc : rollWalk) (s : rollups) : option walk_result :=
  match fuel with
  | O => None
  | S fuel =>
    let hi := rw_reached acc in
    if negb (lo <? hi)%Z then Some (walk_end acc hi, None, n, s)
    else if spent budget acc then Some (acc, None, n, s)
    else if w_cancelled w n then Some (acc, Some ErrContext, n, s)
    else
      let s0 := w_others w n s in
      match prevActivityAt (w_db w (2 * n)) lo hi with
      | Some prev =>
        let h := floorHour prev in
        match rollupHour (w_db w (2 * n + 1)) h now guard (stepDown h hi) s0 with
        | Err e => Some (acc, Some e, S n, s0)
        | Ok (k, s1) => rollBackward fuel (S n) lo (walk_step acc h k h) s1
        end
      | None => Some (walk_end acc lo, None, S n, markCovered (stepDown lo hi) s0)
      end
  end.
End walks.

(** ** A pass *)

Record RollupResult := {
  rs_Hours : Z; rs_Rolled : list Z; rs_RolledFrom : Z; rs_Watermark : Z; rs_CaughtUp : bool; rs_Pruned : Z
}.
Definition zero_rollup : RollupResult :=
  {| rs_Hours := 0; rs_Rolled := []; rs_RolledFrom := zero_time; rs_Watermark := zero_time;
     rs_CaughtUp := false; rs_Pruned := 0 |}.

(** DELETE .. WHERE bucket_start_unix < earliest: the rows left, and how many went. *)
Definition prune_before {A} (e : Z) (t : gmap (Z * (string * string)) A)
  : gmap (Z * (string * string)) A * Z :=
  let kept := filter (λ kv, ¬ (kv.1.1 < e)%Z) t in (kept, Z.of_nat (size t - size kept)).
Definition prune_hours (e : Z) (s : rollups) : Z * rollups :=
  let '(kept, k) := prune_before e (ro_hourly s) in
  (k, {| ro_hourly := kept; ro_groups := ro_groups s; ro_progress := ro_progress s |}).
Definition prune_groups (e : Z) (s : rollups) : Z * rollups :=
  let '(kept, k) := prune_before e (ro_groups s) in
  (k, {| ro_hourly := ro_hourly s; ro_groups := kept; ro_progress := ro_progress s |}).

Section pass.
Context `{GoLib} `{RowOrder}.

Definition pass_earliest (now : Z) (cfg : rollupConfig) : Z :=
  let closedBefore := floorHour (now - rc_grace cfg) in
  let earliest := floorHour (now - rc_retention cfg) in
  if (closedBefore <? earliest)%Z then closedBefore else earliest.

(** What the budget leaves goes to the hours below the range. *)
Definition pass_backward (fuel : nat) (w : world) (now : Z) (cfg : rollupConfig) (earliest : Z) (p : statsProgress)
    (fwd : rollWalk) (n : nat) (s : rollups) : option walk_result :=
  let left := (rc_maxHours cfg - Z.of_nat (length (rw_rolled fwd)))%Z in
  if rw_done fwd && (0 <? left)%Z
  then rollBackward w now false left fuel n earliest (walk_from (sp_From p)) s
  else Some (if (earliest <? sp_From p)%Z then walk_from zero_time else walk_end (walk_from zero_time) zero_time,
             None, n, s).

(** [rollupPass]; [n] numbers its first transaction. *)
Definition rollupPass (fuel : nat) (w : world) (now : Z) (cfg : rollupConfig) (n : nat) (s : rollups)
  : option (RollupResult * option error * rollups) :=
  let closedBefore := floorHour (now - rc_grace cfg) in
  let earliest := pass_earliest now cfg in
  let '(p, n1, s1) := advanceStatsFloor w n earliest s in
  match rollForward w now false (rc_maxHours cfg) fuel n1 closedBefore (walk_from (sp_To p)) s1 with
  | None => None
  | Some (_, Some e, _, s2) => Some (zero_rollup, Some e, s2)
  | Some (fwd, None, n2, s2) =>
    match pass_backward fuel w now cfg earliest p fwd n2 s2 with
    | None => None
    | Some (_, Some e, _, s3) => Some (zero_rollup, Some e, s3)
    | Some (back, None, n3, s3) =>
      let rolled := reverse (rw_rolled back) ++ rw_rolled fwd in
      let s4 := w_others w n3 s3 in
      let q := default zero_progress (ro_progress s4) in
      let '(ph, s5) := prune_hours earliest (w_others w (n3 + 1) s4) in
      let '(pg, s6) := prune_groups earliest (w_others w (n3 + 2) s5) in
      Some ({| rs_Hours := Z.of_nat (length rolled); rs_Rolled := rolled;
               rs_RolledFrom := sp_From q; rs_Watermark := sp_To q;
               rs_CaughtUp := rw_done fwd && rw_done back; rs_Pruned := (ph + pg)%Z |}, None, s6)
    end
  end.

(** ** Rebuilds *)

Record RebuildOpts := { ro_From : Z; ro_To : Z; ro_Grace : Z; ro_ForceRebuild : bool }.
Record RebuildResult := {
  rb_From : Z; rb_To : Z; rb_Hours : nat; rb_Groups : nat; rb_RolledFrom : Z; rb_RolledThrough : Z
}.
Definition zero_rebuild : RebuildResult :=
  {| rb_From := zero_time; rb_To := zero_time; rb_Hours := 0; rb_Groups := 0; rb_RolledFrom := zero_time;
     rb_RolledThrough := zero_time |}.
Definition rebuilt (hours groups : nat) (r : RebuildResult) : RebuildResult :=
  {| rb_From := rb_From r; rb_To := rb_To r; rb_Hours := rb_Hours r + hours; rb_Groups := rb_Groups r + groups;
     rb_RolledFrom := rb_RolledFrom r; rb_RolledThrough := rb_RolledThrough r |}.

(** for hour := from; hour.Before(to); hour += time.Hour *)
Definition hours_from (from to : Z) : list Z :=
  (λ i : nat, (from + Z.of_nat i * hour)%Z) <$> seq 0 (Z.to_nat ((to - from + hour - 1) / hour)).

(** The [rebuild] closure over a list of hours, each with its step. *)
Fixpoint rebuild_each (w : world) (now : Z) (guard : bool) (step : Z → coverageStep) (hs : list Z) (n : nat)
    (r : RebuildResult) (s : rollups) : RebuildResult * option error * nat * rollups :=
  match hs with
  | [] => (r, None, n, s)
  | h :: hs =>
    if w_cancelled w n then (r, Some ErrContext, n, s)
    else
      let s0 := w_others w n s in
      match rollupHour (w_db w (2 * n + 1)) h now guard (step h) s0 with
      | Err e => (r, Some e, S n, s0)
      | Ok (k, s1) => rebuild_each w now guard step hs (S n) (rebuilt 1 k r) s1
      end
  end.

(** A gap walk, then the hours beyond it. *)
Definition gap_then (gap : option walk_result) (rest : nat → RebuildResult → rollups → RebuildResult * option error * nat * rollups)
    (r : RebuildResult) : option (RebuildResult * option error * nat * rollups) :=
  match gap with
  | None => None
  | Some (g, e, n, s) =>
    let r1 := rebuilt (length (rw_rolled g)) (rw_groups g) r in
    match e with Some e => Some (r1, Some e, n, s) | None => Some (rest n r1 s) end
  end.

Definition rebuildRange (fuel : nat) (w : world) (from end_ now : Z) (guard : bool) (n : nat)
    (r : RebuildResult) (s : rollups) : option (RebuildResult * option error * nat * rollups) :=
  let s1 := w_others w (n + 1) (ensureStatsProgress from (w_others w n s)) in
  let p := default zero_progress (ro_progress s1) in
  let inside := hours_from (Z.max from (sp_From p)) (Z.min end_ (sp_To p)) in
  match rebuild_each w now guard (λ _, no_step) inside (n + 2) r s1 with
  | (r2, Some e, n2, s2) => Some (r2, Some e, n2, s2)
  | (r2, None, n2, s2) =>
    let above :=
      if (sp_To p <? end_)%Z then
        let start := Z.max from (sp_To p) in
        gap_then (rollForward w now guard 0 fuel n2 start (walk_from (sp_To p)) s2)
          (rebuild_each w now guard (λ h, stepUp h (h + hour)) (hours_from start end_)) r2
      else Some (r2, None, n2, s2) in
    match above with
    | None => None
    | Some (r3, Some e, n3, s3) => Some (r3, Some e, n3, s3)
    | Some (r3, None, n3, s3) =>
      if (from <? sp_From p)%Z then
        let top := Z.min end_ (sp_From p) in
        gap_then (rollBackward w now guard 0 fuel n3 top (walk_from (sp_From p)) s3)
          (rebuild_each w now guard (λ h, stepDown h (h + hour)) (reverse (hours_from from top))) r3
      else Some (r3, None, n3, s3)
    end
  end.

Definition RebuildStats (fuel : nat) (w : world) (now : Z) (o : RebuildOpts) (s : rollups)
  : option (RebuildResult * option error * rollups) :=
  if is_zero_time (ro_From o) || is_zero_time (ro_To o)
  then Some (zero_rebuild, Some (ValidationError "rebuild range"), s)
  else
    let grace := if (ro_Grace o <=? 0)%Z then defaultStatsRollupGrace else ro_Grace o in
    let from := floorHour (ro_From o) in
    let closed := floorHour (now - grace) in
    let to := if (closed <? ro_To o)%Z then closed else ro_To o in
    let r := {| rb_From := from; rb_To := to; rb_Hours := 0; rb_Groups := 0; rb_RolledFrom := zero_time;
                rb_RolledThrough := zero_time |} in
    let out := if (from <? ceilHour to)%Z
               then rebuildRange fuel w from (ceilHour to) now (negb (ro_ForceRebuild o)) 0 r s
               else Some (r, None, 0, s) in
    match out with
    | None => None
    | Some (r1, Some ErrRollupWouldShrink, _, s1) => Some (r1, Some (ValidationError "rebuild range"), s1)
    | Some (r1, Some e, _, s1) => Some (r1, Some e, s1)
    | Some (r1, None, n1, s1) =>
      let s2 := w_others w n1 s1 in
      let q := default zero_progress (ro_progress s2) in
      Some ({| rb_From := rb_From r1; rb_To := rb_To r1; rb_Hours := rb_Hours r1; rb_Groups := rb_Groups r1;
               rb_RolledFrom := sp_From q; rb_RolledThrough := sp_To q |}, None, s2)
    end.
End pass.
