(* ===== verification/Feed.v ===== *)
(** * The finish feed: internal/core/feed.go

    [ListRunFinishes] reads the finish log in order, a page at a time, up to a horizon
    that trails the clock by the settle window; its cursor is a position in the log,
    printed and read back as text. *)

From Stdlib Require Import Ascii DecimalString DecimalZ.
From S2P Require Import Prelude Types Text Json Fingerprint Store Plan Sweep Retention Batch Ids Base64 Query Hist Maintenance Rollup.

Local Open Scope Z_scope.

Definition DefaultFeedSettle : Z := 5 * second.
Definition feedScanLimit : nat := 1000.
Definition defaultFeedLimit : Z := 100.
Definition feedCursorPrefix : string := "rf1.".

(** ** Integers as text: strconv *)

Definition FormatInt (z : Z) : string := NilZero.string_of_int (Z.to_int z).
(** [strconv.ParseInt] in base 10: a sign, digits, and the range of int64. *)
Definition ParseInt (s : string) : option Z :=
  let parsed := match s with
                | String "+" rest => Decimal.Pos <$> NilZero.uint_of_string rest
                | _ => NilZero.int_of_string s
                end in
  match Z.of_int <$> parsed with
  | Some z => if bool_decide (in_int64 z) then Some z else None
  | None => None
  end.
(** [strings.Cut] at a colon. *)
Fixpoint cut_colon (s : string) : option (string * string) :=
  match s with
  | "" => None
  | String c s => if bool_decide (c = ":"%char) then Some ("", s)
                  else (λ p, (String c p.1, p.2)) <$> cut_colon s
  end.

(** ** Positions and cursors *)

Abbreviation feedPos := (Z * string)%type.
Definition pos_le (a b : feedPos) : Prop := a.1 < b.1 ∨ (a.1 = b.1 ∧ bytes_le a.2 b.2).
#[global] Instance pos_le_dec : RelDecision pos_le.
Proof. intros a b. unfold pos_le. apply _. Defined.

(** [UnixNano], which int64 cannot hold outside 1678 to 2262. *)
Definition encodeFeedCursor (p : feedPos) : string :=
  feedCursorPrefix +:+ RawURL_EncodeToString (FormatInt (wrap64 p.1) +:+ ":" +:+ p.2).
Definition decodeFeedCursor (raw : string) : res feedPos :=
  let malformed := Err (ValidationError "after") in
  match CutPrefix raw feedCursorPrefix with
  | None => malformed
  | Some body =>
    match RawURL_DecodeString body ≫= cut_colon with
    | None => malformed
    | Some (ns, runID) => match ParseInt ns with Some n => Ok (n, runID) | None => malformed end
    end
  end.

(** ** Pages *)

Record RunFinish := {
  rf_FinishedAt : Z; rf_RunID : string; rf_JobID : string; rf_Kind : string; rf_Queue : string; rf_Attempt : Z;
  rf_Outcome : RunOutcome; rf_JobState : option JobState; rf_ErrorClass : option ErrorClass; rf_DurationMs : option Z;
  rf_Superseded : bool
}.
Record ListRunFinishesParams := {
  fp_After : string; fp_Since : Z; fp_Settle : Z; fp_Kinds : list string; fp_Queues : list string; fp_Limit : Z
}.
Record RunFinishPage := { pg_Finishes : list RunFinish; pg_NextCursor : string; pg_Horizon : Z }.

Definition feedMatches (want : list string) (value : string) : bool := bool_decide (want = []) || str_mem value want.

(** A scanned entry: its position, and its finish when its run is still there. *)
Record feedEntry := { fe_Pos : feedPos; fe_Finish : option RunFinish }.
Definition feed_entry (d : db) (e : feedPos) : feedEntry :=
  {| fe_Pos := e;
     fe_Finish := (λ r,
       {| rf_FinishedAt := e.1; rf_RunID := e.2; rf_JobID := r_JobID r;
          rf_Kind := resolved_name (r_Kind r) (j_Kind <$> jobs d !! r_JobID r);
          rf_Queue := resolved_name (r_Queue r) (j_Queue <$> jobs d !! r_JobID r); rf_Attempt := r_Attempt r;
          rf_Outcome := r_Outcome r; rf_JobState := r_JobState r; rf_ErrorClass := r_ErrorClass r;
          rf_DurationMs := r_DurationMs r; rf_Superseded := r_Superseded r |}) <$> job_runs d !! e.2 |}.

Section feed.
Context `{RowOrder}.

(** finished_at >= at AND (finished_at > at OR (finished_at = at AND run_id > id)) AND
    finished_at <= horizon. *)
Definition in_feed (start : feedPos) (horizon : Z) (e : feedPos) : bool :=
  (start.1 <=? e.1) && ((start.1 <? e.1) || ((e.1 =? start.1) && negb (bool_decide (bytes_le e.2 start.2)))) &&
  (e.1 <=? horizon).
Definition scanFinishes (d : db) (start : feedPos) (horizon : Z) : list feedEntry :=
  feed_entry d <$> page pos_le feedScanLimit (filter (λ e, in_feed start horizon e = true) (scan (elements (job_run_finishes d)))).

Definition wanted_finish (p : ListRunFinishesParams) (e : feedEntry) : option RunFinish :=
  match fe_Finish e with
  | Some f => if feedMatches (fp_Kinds p) (rf_Kind f) && feedMatches (fp_Queues p) (rf_Queue f) then Some f else None
  | None => None
  end.
Fixpoint feed_loop (p : ListRunFinishesParams) (limit : nat) (entries : list feedEntry) (acc : list RunFinish) (next : feedPos)
  : list RunFinish * feedPos :=
  match entries with
  | [] => (acc, next)
  | e :: rest =>
    match wanted_finish p e with
    | None => feed_loop p limit rest acc next
    | Some f => if (length (acc ++ [f]) =? limit)%nat then (acc ++ [f], fe_Pos e) else feed_loop p limit rest (acc ++ [f]) next
    end
  end.

Definition feed_settle (p : ListRunFinishesParams) : Z := if fp_Settle p =? 0 then DefaultFeedSettle else fp_Settle p.
Definition feed_start (now : Z) (p : ListRunFinishesParams) : res feedPos :=
  if negb (is_empty (fp_After p)) then decodeFeedCursor (fp_After p)
  else if negb (is_zero_time (fp_Since p)) then Ok (fp_Since p, "")
  else Ok (now - feed_settle p, "").
Definition ListRunFinishes (now : Z) (p : ListRunFinishesParams) (d : db) : res RunFinishPage :=
  if fp_Settle p <? 0 then Err (ValidationError "settle")
  else
    let horizon := now - feed_settle p in
    let? start := feed_start now p in
    let limit := Z.to_nat (readLimit (fp_Limit p) defaultFeedLimit) in
    let entries := scanFinishes d start horizon in
    let next := default start (fe_Pos <$> last entries) in
    let '(finishes, next) := feed_loop p limit entries [] next in
    Ok {| pg_Finishes := finishes; pg_NextCursor := encodeFeedCursor next; pg_Horizon := horizon |}.
End feed.

(** ** Text round trips *)

Lemma FormatInt_ParseInt z : in_int64 z → ParseInt (FormatInt z) = Some z.
Proof.
  intros Hz. unfold ParseInt, FormatInt.
  assert (Z.to_int z ≠ Decimal.Pos Decimal.Nil ∧ Z.to_int z ≠ Decimal.Neg Decimal.Nil) as [H1 H2].
  { destruct z as [|q|q]; cbn; split; try discriminate; intros [= E]; by apply DecimalPos.Unsigned.to_uint_nonnil in E. }
  pose proof (NilZero.isi _ H1 H2) as Hi.
  assert (∀ s, NilZero.string_of_int (Z.to_int z) ≠ String "+" s) as Hplus.
  { intros s Es. rewrite Es in Hi. cbn in Hi. destruct (NilEmpty.uint_of_string s); discriminate. }
  destruct (NilZero.string_of_int (Z.to_int z)) as [|c s] eqn:E; [done|].
  assert (match String c s with String "+" rest => Decimal.Pos <$> NilZero.uint_of_string rest | _ => NilZero.int_of_string (String c s) end =
          Some (Z.to_int z)) as ->.
  { destruct c as [[] [] [] [] [] [] [] []]; try exact Hi. by destruct (Hplus s). }
  cbn. rewrite of_to, bool_decide_true by done. done.
Qed.

Lemma cut_uint d s : cut_colon (NilEmpty.string_of_uint d +:+ ":" +:+ s) = Some (NilEmpty.string_of_uint d, s).
Proof. induction d as [|d IH|d IH|d IH|d IH|d IH|d IH|d IH|d IH|d IH|d IH]; [done|..]; cbn [NilEmpty.string_of_uint]; rewrite string_app_cons; cbn; by rewrite IH. Qed.
Lemma cut_FormatInt z s : cut_colon (FormatInt z +:+ ":" +:+ s) = Some (FormatInt z, s).
Proof.
  unfold FormatInt.
  assert (∀ d, cut_colon (NilZero.string_of_uint d +:+ ":" +:+ s) = Some (NilZero.string_of_uint d, s)) as Hu.
  { intros []; [done|exact (cut_uint (Decimal.D0 _) s)|exact (cut_uint (Decimal.D1 _) s)|exact (cut_uint (Decimal.D2 _) s)|
      exact (cut_uint (Decimal.D3 _) s)|exact (cut_uint (Decimal.D4 _) s)|exact (cut_uint (Decimal.D5 _) s)|
      exact (cut_uint (Decimal.D6 _) s)|exact (cut_uint (Decimal.D7 _) s)|exact (cut_uint (Decimal.D8 _) s)|exact (cut_uint (Decimal.D9 _) s)]. }
  destruct (Z.to_int z) as [d|d]; cbn [NilZero.string_of_int]; [apply Hu|]. rewrite string_app_cons. cbn. by rewrite Hu.
Qed.
(** A cursor reads back as the position it was made of. *)
Lemma feed_cursor_roundtrip p : in_int64 p.1 → decodeFeedCursor (encodeFeedCursor p) = Ok p.
Proof.
  intros Hp. unfold decodeFeedCursor, encodeFeedCursor. rewrite CutPrefix_app, base64_roundtrip. cbn [mbind option_bind].
  rewrite cut_FormatInt, FormatInt_ParseInt by apply wrap64_range. rewrite wrap64_id by done. by destruct p.
Qed.
Lemma encodeFeedCursor_set p : encodeFeedCursor p ≠ "".
Proof. done. Qed.

(** ** The order of the log *)

#[global] Instance pos_le_trans : Transitive pos_le.
Proof. intros [a x] [b y] [c z]. unfold pos_le. cbn. intros [?|[? ?]] [?|[? ?]]; [left; lia..|]. right. split; [lia|by etrans]. Qed.
#[global] Instance pos_le_total : Total pos_le.
Proof.
  intros [a x] [b y]. unfold pos_le. cbn. destruct (Z.lt_trichotomy a b) as [?|[->|?]]; [by left; left| |by right; left].
  destruct (base.total bytes_le x y); [left|right]; by right.
Qed.
#[global] Instance pos_le_antisymm : AntiSymm (=) pos_le.
Proof. intros [a x] [b y]. unfold pos_le. cbn. intros [?|[? H1]] [?|[? H2]]; try lia. f_equal; [done|]. by apply (anti_symm bytes_le). Qed.
Lemma pos_le_refl p : pos_le p p.
Proof. by destruct (base.total pos_le p p). Qed.
(** After a position. *)
Definition pos_after (a b : feedPos) : Prop := ¬ pos_le b a.
Lemma pos_after_le a b : pos_after a b → pos_le a b.
Proof. intros Hn. by destruct (base.total pos_le a b). Qed.
Lemma pos_after_trans a b c : pos_after a b → pos_le b c → pos_after a c.
Proof. intros H1 H2 H3. apply H1. by etrans. Qed.
Lemma pos_le_after a b c : pos_le a b → pos_after b c → pos_after a c.
Proof. intros H1 H2 H3. apply H2. by etrans. Qed.
Lemma in_feed_spec start horizon e : in_feed start horizon e = true ↔ pos_after start e ∧ e.1 ≤ horizon.
Proof.
  unfold in_feed, pos_after, pos_le. rewrite !andb_true_iff, orb_true_iff, andb_true_iff, negb_true_iff, bool_decide_eq_false, !Z.leb_le, Z.ltb_lt, Z.eqb_eq.
  split.
  - intros [[? [?|[? ?]]] ?]; (split; [|done]); intros [?|[? ?]]; try lia; done.
  - intros [Hn ?]. split; [|done]. destruct (Z.lt_trichotomy start.1 e.1) as [?|[?|?]]; [split; [lia|by left]| |exfalso; apply Hn; lia].
    split; [lia|]. right. split; [done|]. intros ?. apply Hn. right. done.
Qed.

(** ** A page *)

Section pages.
Context `{RowOrder}.

Lemma feed_loop_spec p limit entries acc next :
  (length acc < limit)%nat →
  ∃ pre post, entries = pre ++ post ∧ (feed_loop p limit entries acc next).1 = acc ++ omap (wanted_finish p) pre ∧
    (post = [] ∧ (feed_loop p limit entries acc next).2 = next ∨
     ∃ e, last pre = Some e ∧ (feed_loop p limit entries acc next).2 = fe_Pos e).
Proof.
  revert acc. induction entries as [|e rest IH]; intros acc Hacc; cbn [feed_loop].
  { exists [], []. cbn. rewrite app_nil_r. split_and!; [done..|by left]. }
  destruct (wanted_finish p e) as [f|] eqn:Ew.
  - destruct (Nat.eqb_spec (length (acc ++ [f])) limit) as [El|Hne].
    + exists [e], rest. csimpl. rewrite Ew. split; [done|]. split; [done|]. right. by exists e.
    + rewrite length_app in Hne. cbn in Hne. destruct (IH (acc ++ [f])) as (pre & post & -> & H1 & H2); [rewrite length_app; cbn; lia|].
      exists (e :: pre), post. csimpl. rewrite Ew, H1, <-(assoc_L (++)). split; [done|]. split; [done|].
      destruct H2 as [?|(e' & Hl & ?)]; [by left|right]. exists e'. split; [|done]. by destruct pre.
  - destruct (IH acc Hacc) as (pre & post & -> & H1 & H2). exists (e :: pre), post. csimpl. rewrite Ew, H1. split; [done|]. split; [done|].
    destruct H2 as [?|(e' & Hl & ?)]; [by left|right]. exists e'. split; [|done]. by destruct pre.
Qed.

Definition feed_wanted (p : ListRunFinishesParams) (d : db) (e : feedPos) : option RunFinish := wanted_finish p (feed_entry d e).
Definition feed_range (d : db) (start : feedPos) (horizon : Z) : list feedPos :=
  page pos_le feedScanLimit (filter (λ e, in_feed start horizon e = true) (scan (elements (job_run_finishes d)))).

(** A page returns what it wants of a stretch of the log that starts after its start,
    and its cursor follows the stretch. *)
Lemma ListRunFinishes_page now p d start :
  0 ≤ fp_Settle p → feed_start now p = Ok start →
  ∃ pre post, feed_range d start (now - feed_settle p) = pre ++ post ∧ (post ≠ [] → pre ≠ []) ∧
    ListRunFinishes now p d =
    Ok {| pg_Finishes := omap (feed_wanted p d) pre; pg_NextCursor := encodeFeedCursor (default start (last pre));
          pg_Horizon := now - feed_settle p |}.
Proof.
  intros Hs Hst. unfold ListRunFinishes. destruct (Z.ltb_spec (fp_Settle p) 0); [lia|]. cbv zeta. rewrite Hst.
  set (limit := Z.to_nat _). set (horizon := now - feed_settle p).
  assert (scanFinishes d start horizon = feed_entry d <$> feed_range d start horizon) as -> by done.
  generalize (feed_range d start horizon). intros l.
  destruct (feed_loop_spec p limit (feed_entry d <$> l) [] (default start (fe_Pos <$> last (feed_entry d <$> l)))) as (pre & post & El & H1 & H2).
  { cbn. unfold limit, readLimit, defaultFeedLimit, MaxReadLimit. case_match; lia. }
  destruct (feed_loop _ _ _ _ _) as [fs nx]. cbn in H1, H2. subst fs.
  apply fmap_app_inv in El as (l1 & l2 & -> & -> & El). exists l1, l2. split; [done|].
  assert (nx = default start (last l1) ∧ (l2 ≠ [] → l1 ≠ [])) as [-> Hne].
  { destruct H2 as [[Hl2 ->]|(e & He & ->)].
    - apply fmap_nil_inv in Hl2 as ->. rewrite El, app_nil_r, fmap_last. split; [|done]. by destruct (last l1).
    - rewrite fmap_last in He. apply fmap_Some in He as (e0 & He & ->). rewrite He. split; [done|]. intros _ ->. done. }
  split; [done|]. do 3 f_equal. clear. induction l1 as [|e l IH]; [done|]. csimpl. rewrite IH. done.
Qed.

(** What the stretch holds. *)
Lemma feed_range_spec d start horizon pre post :
  feed_range d start horizon = pre ++ post →
  StronglySorted pos_after pre ∧ (∀ e, e ∈ pre → e ∈ job_run_finishes d ∧ pos_after start e ∧ e.1 ≤ horizon) ∧
  (∀ e, e ∈ job_run_finishes d → pos_after start e → e.1 ≤ horizon → pos_le e (default start (last pre)) → e ∈ pre) ∧
  (pre = [] → post = [] → ∀ e, e ∈ job_run_finishes d → pos_after start e → ¬ e.1 ≤ horizon).
Proof.
  intros El. unfold feed_range in El. set (l := filter _ _) in El.
  assert (∀ e, e ∈ l ↔ e ∈ job_run_finishes d ∧ pos_after start e ∧ e.1 ≤ horizon) as Hin.
  { intros e. unfold l. rewrite list_elem_of_filter, (scan_perm (elements (job_run_finishes d))), elem_of_elements, in_feed_spec. tauto. }
  assert (NoDup (pre ++ post)) as Hnd.
  { rewrite <-El. apply page_NoDup. unfold l. apply NoDup_filter. rewrite (scan_perm (elements (job_run_finishes d))). apply NoDup_elements. }
  pose proof (page_sorted pos_le feedScanLimit l) as Hs. rewrite El in Hs.
  assert (∀ e, e ∈ pre ++ post → e ∈ l) as Hsub by (intros e; rewrite <-El; apply page_subset).
  assert (∀ a b, a ∈ pre → b ∈ post → pos_after a b) as Hord.
  { intros a b Ha Hb Hba. pose proof (StronglySorted_app_1_elem_of pos_le pre post a b Hs Ha Hb) as Hab.
    assert (a = b) as -> by (by apply (anti_symm pos_le)). apply NoDup_app in Hnd as (_ & Hd & _). by apply (Hd b). }
  split_and!.
  - apply StronglySorted_app_1_l in Hs. apply NoDup_app in Hnd as (Hnd & _ & _). clear -Hs Hnd.
    induction Hs as [|a pre _ IH Ha]; constructor; [by apply IH; apply NoDup_cons in Hnd as [_ ?]|].
    rewrite Forall_forall in Ha |- *. intros b Hb Hba. apply NoDup_cons in Hnd as [Hn _]. apply Hn.
    assert (a = b) as -> by (apply (anti_symm pos_le); auto). done.
  - intros e He. apply Hin, Hsub, elem_of_app. by left.
  - intros e He Hst Hh Hle. assert (e ∈ l) as Hel by by apply Hin.
    destruct (last pre) as [x|] eqn:Ex; cbn in Hle; [|by destruct Hst].
    assert (x ∈ pre) as Hx by by apply last_Some_elem_of.
    destruct (decide (e ∈ pre ++ post)) as [[?|Hp]%elem_of_app|Hn]; [done|by destruct (Hord x e Hx Hp)|].
    exfalso. apply Hn. assert (pos_le x e) as Hxe.
    { apply (page_best pos_le feedScanLimit l); [rewrite El; apply elem_of_app; by left|done|by rewrite El]. }
    assert (e = x) as -> by (by apply (anti_symm pos_le)). apply elem_of_app. by left.
  - intros -> -> e He Hst Hh. assert (e ∈ l) as Hel by by apply Hin.
    assert (length (page pos_le feedScanLimit l) = 0%nat) as E0 by by rewrite El. rewrite page_length in E0.
    destruct l; [by apply elem_of_nil in Hel|]. cbn [length] in E0. unfold feedScanLimit in E0. lia.
Qed.
End pages.

(** ** Polling

    A reader polls with the cursor of the page before, while the clock runs and other
    transactions commit. *)

Record fstate := { fs_db : db; fs_now : Z; fs_After : string; fs_start : option feedPos; fs_seen : list RunFinish }.

Section polling.
Context `{RowOrder} (p : ListRunFinishesParams).

Definition with_After (a : string) : ListRunFinishesParams :=
  {| fp_After := a; fp_Since := fp_Since p; fp_Settle := fp_Settle p; fp_Kinds := fp_Kinds p; fp_Queues := fp_Queues p; fp_Limit := fp_Limit p |}.
Definition feed_poll (s : fstate) : res fstate :=
  let? start := feed_start (fs_now s) (with_After (fs_After s)) in
  let? pg := ListRunFinishes (fs_now s) (with_After (fs_After s)) (fs_db s) in
  Ok {| fs_db := fs_db s; fs_now := fs_now s; fs_After := pg_NextCursor pg;
        fs_start := Some (default start (fs_start s)); fs_seen := fs_seen s ++ pg_Finishes pg |}.
Fixpoint feed_polls (n : nat) (s : fstate) : res fstate :=
  match n with O => Ok s | S n => let? s := feed_poll s in feed_polls n s end.

(** What a commit may do to the log: an entry it adds is younger than the settle window,
    and a finished run that is still there reads as before. *)
Definition feed_commits (now : Z) (d d' : db) : Prop :=
  ∀ e, e ∈ job_run_finishes d' →
    now - feed_settle p < e.1 ∨ (e ∈ job_run_finishes d ∧ ∀ f, feed_wanted p d' e = Some f → feed_wanted p d e = Some f).

Inductive feed_step : fstate → fstate → Prop :=
  | feed_tick s t : fs_now s ≤ t → in_int64 (t - feed_settle p) →
      feed_step s {| fs_db := fs_db s; fs_now := t; fs_After := fs_After s; fs_start := fs_start s; fs_seen := fs_seen s |}
  | feed_commit s d' : feed_commits (fs_now s) (fs_db s) d' →
      feed_step s {| fs_db := d'; fs_now := fs_now s; fs_After := fs_After s; fs_start := fs_start s; fs_seen := fs_seen s |}
  | feed_read s s' : feed_poll s = Ok s' → feed_step s s'.
Inductive feed_reachable : fstate → Prop :=
  | feed_init d now : in_int64 (now - feed_settle p) →
      feed_reachable {| fs_db := d; fs_now := now; fs_After := ""; fs_start := None; fs_seen := [] |}
  | feed_more s s' : feed_reachable s → feed_step s s' → feed_reachable s'.

Definition finish_pos (f : RunFinish) : feedPos := (rf_FinishedAt f, rf_RunID f).
Lemma feed_wanted_pos d e f : feed_wanted p d e = Some f → finish_pos f = e.
Proof.
  unfold feed_wanted, wanted_finish, feed_entry. cbn [fe_Finish]. destruct (job_runs d !! e.2) as [r|]; cbn; [|done].
  case_match; [|done]. intros [= <-]. by destruct e.
Qed.

(** What a reader that began at [start] and stands at [cur] has been given. *)
Record feed_reads (d : db) (now : Z) (start cur : feedPos) (seen : list RunFinish) : Prop := {
  rd_int : in_int64 cur.1;
  rd_le : pos_le start cur;
  rd_settled : cur = start ∨ cur.1 ≤ now - feed_settle p;
  rd_sorted : StronglySorted pos_after (finish_pos <$> seen);
  rd_within : ∀ f, f ∈ seen → pos_after start (finish_pos f) ∧ pos_le (finish_pos f) cur;
  rd_complete : ∀ e f, e ∈ job_run_finishes d → pos_after start e → pos_le e cur → feed_wanted p d e = Some f → f ∈ seen
}.
Definition feed_inv (s : fstate) : Prop :=
  in_int64 (fs_now s - feed_settle p) ∧
  match fs_start s with
  | None => fs_After s = "" ∧ fs_seen s = []
  | Some start => ∃ cur, fs_After s = encodeFeedCursor cur ∧ feed_reads (fs_db s) (fs_now s) start cur (fs_seen s)
  end.

Lemma feed_reads_begin d now start : in_int64 start.1 → feed_reads d now start start [].
Proof.
  intros Hs. split; [done|apply pos_le_refl|by left|constructor|by intros f ?%elem_of_nil|]. intros e f _ Ha Hle. by destruct Ha.
Qed.
Lemma feed_reads_tick d now t start cur seen : now ≤ t → feed_reads d now start cur seen → feed_reads d t start cur seen.
Proof. intros Ht [? ? [?|?] ? ? ?]; split; try done; [by left|right; lia]. Qed.
Lemma feed_reads_commit d d' now start cur seen :
  feed_commits now d d' → feed_reads d now start cur seen → feed_reads d' now start cur seen.
Proof.
  intros Hc [? ? Hset ? ? Hall]; split; try done. intros e f He Ha Hle Hw. destruct (Hc e He) as [Hy|[Hd Hf]].
  - exfalso. destruct Hset as [->|Hset]; [done|]. destruct Hle as [?|[? _]]; lia.
  - apply (Hall e f); auto.
Qed.
Lemma wanted_sorted d (l : list feedPos) :
  StronglySorted pos_after l → StronglySorted pos_after (finish_pos <$> omap (feed_wanted p d) l).
Proof.
  induction 1 as [|e l _ IH He]; [constructor|]. csimpl. destruct (feed_wanted p d e) as [f|] eqn:Ew; [|done]. csimpl. constructor; [done|].
  apply Forall_forall. intros x (g & -> & Hg)%list_elem_of_fmap. apply list_elem_of_omap in Hg as (e' & He' & Hg).
  rewrite (feed_wanted_pos d e f Ew), (feed_wanted_pos d e' g Hg). rewrite Forall_forall in He. by apply He.
Qed.
Lemma sorted_append (l1 l2 : list feedPos) cur :
  StronglySorted pos_after l1 → StronglySorted pos_after l2 → (∀ e, e ∈ l1 → pos_le e cur) → (∀ e, e ∈ l2 → pos_after cur e) →
  StronglySorted pos_after (l1 ++ l2).
Proof.
  intros H1 H2 Hl Hr. induction H1 as [|e l1 _ IH He]; [done|]. cbn. constructor.
  - apply IH. intros e' He'. apply Hl. by apply list_elem_of_further.
  - apply Forall_app. split; [done|]. apply Forall_forall. intros e' He'. eapply pos_le_after; [|by apply Hr]. apply Hl, list_elem_of_here.
Qed.
(** A page read from [cur]. *)
Lemma feed_reads_page d now start cur seen pre post :
  in_int64 (now - feed_settle p) → feed_range d cur (now - feed_settle p) = pre ++ post → feed_reads d now start cur seen →
  feed_reads d now start (default cur (last pre)) (seen ++ omap (feed_wanted p d) pre).
Proof.
  intros Hnow Hr [Hint Hle Hset Hso Hwi Hall]. destruct (feed_range_spec d cur _ pre post Hr) as (Hps & Hpin & Hpall & _).
  assert (∀ e, e ∈ pre → pos_le e (default cur (last pre))) as Hlast.
  { intros e He. destruct (last pre) as [x|] eqn:Ex; [|apply last_None in Ex as ->; by apply elem_of_nil in He].
    apply last_Some in Ex as [pre' ->]. apply elem_of_app in He as [He|He%list_elem_of_singleton]; [|subst; apply pos_le_refl].
    apply pos_after_le. eapply StronglySorted_app_1_elem_of; [exact Hps|done|by apply list_elem_of_singleton]. }
  assert (pos_le cur (default cur (last pre)) ∧ in_int64 (default cur (last pre)).1 ∧
          (default cur (last pre) = cur ∨ (default cur (last pre)).1 ≤ now - feed_settle p)) as (Hcl & Hli & Hls).
  { destruct (last pre) as [x|] eqn:Ex; cbn; [|split_and!; [apply pos_le_refl|done|by left]].
    apply last_Some_elem_of in Ex. destruct (Hpin x Ex) as (_ & Ha%pos_after_le & Hh). split_and!; [done| |by right].
    unfold in_int64 in *. destruct Ha as [?|[? _]]; lia. }
  split.
  - done.
  - by etrans.
  - destruct Hls as [->|?]; [done|by right].
  - rewrite fmap_app. eapply (sorted_append _ _ cur); [done|by apply wanted_sorted| |].
    + intros x (f & -> & Hf)%list_elem_of_fmap. by apply Hwi.
    + intros x (f & -> & Hf)%list_elem_of_fmap. apply list_elem_of_omap in Hf as (e & He & Hf). rewrite (feed_wanted_pos d e f Hf). by apply Hpin.
  - intros f [Hf|Hf]%elem_of_app; [destruct (Hwi f Hf); split; [done|by etrans]|].
    apply list_elem_of_omap in Hf as (e & He & Hf). rewrite (feed_wanted_pos d e f Hf). split; [|by apply Hlast].
    eapply pos_le_after; [done|by apply Hpin].
  - intros e f He Ha Hel Hw. apply elem_of_app. destruct (decide (pos_le e cur)) as [Hc|Hc]; [left; by apply (Hall e f)|right].
    apply list_elem_of_omap. exists e. split; [|done]. apply Hpall; [done|done| |done].
    destruct Hls as [El|Hls]; [rewrite El in Hel; done|]. destruct Hel as [?|[? _]]; lia.
Qed.

Lemma feed_poll_page s start :
  0 ≤ fp_Settle p → feed_start (fs_now s) (with_After (fs_After s)) = Ok start →
  ∃ pre post, feed_range (fs_db s) start (fs_now s - feed_settle p) = pre ++ post ∧ (post ≠ [] → pre ≠ []) ∧
    feed_poll s = Ok {| fs_db := fs_db s; fs_now := fs_now s; fs_After := encodeFeedCursor (default start (last pre));
      fs_start := Some (default start (fs_start s)); fs_seen := fs_seen s ++ omap (feed_wanted p (fs_db s)) pre |}.
Proof.
  intros Hs Hst. destruct (ListRunFinishes_page (fs_now s) (with_After (fs_After s)) (fs_db s) start) as (pre & post & Hr & Hne & Hl); [done..|].
  exists pre, post. split_and!; [done..|]. unfold feed_poll. rewrite Hst. by rewrite Hl.
Qed.

Context (Hsince : is_zero_time (fp_Since p) = false → in_int64 (fp_Since p)).

(** Where a reader stands, before its first poll and after it. *)
Lemma feed_inv_stands s :
  feed_inv s → ∃ start cur, feed_start (fs_now s) (with_After (fs_After s)) = Ok cur ∧ default cur (fs_start s) = start ∧
    feed_reads (fs_db s) (fs_now s) start cur (fs_seen s).
Proof.
  intros [Hnow Hr]. destruct (fs_start s) as [start|] eqn:Es.
  - destruct Hr as (cur & -> & Hrd). exists start, cur. split_and!; [|done|done]. unfold feed_start. cbn [fp_After with_After].
    apply feed_cursor_roundtrip, Hrd.
  - destruct Hr as [-> ->]. unfold feed_start. cbn [fp_After with_After is_empty negb fp_Since]. 
    destruct (is_zero_time (fp_Since p)) eqn:Ez; cbn; eexists _, _; (split_and!; [done|done|]); apply feed_reads_begin; [done|]. by apply Hsince.
Qed.
Lemma feed_poll_settle s s' : feed_poll s = Ok s' → 0 ≤ fp_Settle p.
Proof.
  unfold feed_poll, ListRunFinishes. destruct (feed_start _ _); [|done]. cbn [fp_Settle with_After].
  destruct (Z.ltb_spec (fp_Settle p) 0); [done|lia].
Qed.
(** A poll of a reader in good standing succeeds and leaves it so. *)
Lemma feed_poll_reads s :
  0 ≤ fp_Settle p → feed_inv s → ∃ start cur pre post,
    default cur (fs_start s) = start ∧ feed_reads (fs_db s) (fs_now s) start cur (fs_seen s) ∧
    feed_range (fs_db s) cur (fs_now s - feed_settle p) = pre ++ post ∧ (post ≠ [] → pre ≠ []) ∧
    feed_poll s = Ok {| fs_db := fs_db s; fs_now := fs_now s; fs_After := encodeFeedCursor (default cur (last pre));
      fs_start := Some start; fs_seen := fs_seen s ++ omap (feed_wanted p (fs_db s)) pre |} ∧
    feed_reads (fs_db s) (fs_now s) start (default cur (last pre)) (fs_seen s ++ omap (feed_wanted p (fs_db s)) pre).
Proof.
  intros Hse Hi. destruct (feed_inv_stands s Hi) as (start & cur & Hst & Hd & Hrd).
  destruct (feed_poll_page s cur Hse Hst) as (pre & post & Hr & Hne & Hp). rewrite Hd in Hp.
  exists start, cur, pre, post. split_and!; try done. destruct Hi as [Hnow _]. by eapply feed_reads_page.
Qed.
Lemma feed_step_inv s s' : feed_inv s → feed_step s s' → feed_inv s'.
Proof.
  intros Hi Hst. revert Hi. destruct Hst as [s1 t Ht Hin|s1 d' Hc|s1 s1' Hp]; intros Hi.
  - destruct Hi as [_ Hr]. split; [done|]. cbn. destruct (fs_start s1); [|done]. destruct Hr as (cur & ? & ?). exists cur. split; [done|].
    by eapply feed_reads_tick.
  - destruct Hi as [? Hr]. split; [done|]. cbn. destruct (fs_start s1); [|done]. destruct Hr as (cur & ? & ?). exists cur. split; [done|].
    by eapply feed_reads_commit.
  - destruct (feed_poll_reads s1 (feed_poll_settle _ _ Hp) Hi) as (start & cur & pre & post & _ & _ & _ & _ & Hp' & Hrd).
    rewrite Hp in Hp'. injection Hp' as ->. split; [apply Hi|]. by exists (default cur (last pre)).
Qed.
Lemma feed_reachable_inv s : feed_reachable s → feed_inv s.
Proof. induction 1 as [d now Hn|s s' _ IH Hs]; [by split|]. by eapply feed_step_inv. Qed.

(** C35. Every finish once, in order: whatever ran between a reader's polls, what it has been
    given ascends strictly by finish time and run id, lies between where it began and its
    cursor, and holds every wanted finish of the log in between. *)
Theorem feed_exactly_once s start :
  feed_reachable s → fs_start s = Some start →
  ∃ cur, decodeFeedCursor (fs_After s) = Ok cur ∧
    StronglySorted pos_after (finish_pos <$> fs_seen s) ∧
    (∀ f, f ∈ fs_seen s → pos_after start (finish_pos f) ∧ pos_le (finish_pos f) cur) ∧
    (∀ e f, e ∈ job_run_finishes (fs_db s) → pos_after start e → pos_le e cur →
       feed_wanted p (fs_db s) e = Some f → f ∈ fs_seen s).
Proof.
  intros Hre Es. destruct (feed_reachable_inv s Hre) as [_ Hr]. rewrite Es in Hr. destruct Hr as (cur & -> & Hrd).
  exists cur. split; [apply feed_cursor_roundtrip, Hrd|]. destruct Hrd. done.
Qed.

(** ** Draining *)

(** The entries a reader at [cur] has still to pass. *)
Definition feed_ahead (d : db) (now : Z) (cur : feedPos) : gset (Z * string) :=
  filter (λ e, in_feed cur (now - feed_settle p) e = true) (job_run_finishes d).
Lemma feed_ahead_page d now cur pre post :
  feed_range d cur (now - feed_settle p) = pre ++ post → pre ≠ [] →
  (size (feed_ahead d now (default cur (last pre))) < size (feed_ahead d now cur))%nat.
Proof.
  intros Hr Hne. destruct (feed_range_spec d cur _ pre post Hr) as (_ & Hin & _). 
  destruct (last pre) as [x|] eqn:Ex; [|by apply last_None in Ex]. apply last_Some_elem_of in Ex. destruct (Hin x Ex) as (Hd & Ha & Hh). cbn.
  apply subset_size. split.
  - intros e [He Hd']%elem_of_filter. apply in_feed_spec in He as [He ?]. apply elem_of_filter. split; [|done]. apply in_feed_spec.
    split; [|done]. eapply pos_le_after; [by apply pos_after_le|done].
  - intros Hsub. assert (x ∈ feed_ahead d now x) as [Hx _]%elem_of_filter.
    { apply Hsub, elem_of_filter. split; [by apply in_feed_spec|done]. }
    apply in_feed_spec in Hx as [Hx _]. apply Hx, pos_le_refl.
Qed.
Lemma feed_ahead_none d now cur e : size (feed_ahead d now cur) = 0%nat → e ∈ job_run_finishes d → e.1 ≤ now - feed_settle p → pos_le e cur.
Proof.
  intros Hz He Hh. destruct (decide (pos_le e cur)) as [|Hn]; [done|exfalso]. apply size_empty_inv in Hz.
  apply (not_elem_of_empty (C := gset feedPos) e), Hz, elem_of_filter. split; [by apply in_feed_spec|done].
Qed.
Lemma feed_drains_from n s start cur :
  0 ≤ fp_Settle p → in_int64 (fs_now s - feed_settle p) → fs_start s = Some start → fs_After s = encodeFeedCursor cur →
  feed_reads (fs_db s) (fs_now s) start cur (fs_seen s) → (size (feed_ahead (fs_db s) (fs_now s) cur) ≤ n)%nat →
  ∃ s' cur', feed_polls n s = Ok s' ∧ fs_start s' = Some start ∧ feed_reads (fs_db s) (fs_now s) start cur' (fs_seen s') ∧
    size (feed_ahead (fs_db s) (fs_now s) cur') = 0%nat.
Proof.
  intros Hse Hnow. revert s cur Hnow. induction n as [|n IH]; intros s cur Hnow Es Ea Hrd Hsz; cbn [feed_polls].
  { exists s, cur. split_and!; [done..|lia]. }
  destruct (feed_poll_page s cur Hse) as (pre & post & Hr & Hne & ->).
  { unfold feed_start. cbn [fp_After with_After]. rewrite Ea. apply feed_cursor_roundtrip, Hrd. }
  rewrite Es. cbn [default].
  edestruct (IH {| fs_db := fs_db s; fs_now := fs_now s; fs_After := encodeFeedCursor (default cur (last pre));
      fs_start := Some start; fs_seen := fs_seen s ++ omap (feed_wanted p (fs_db s)) pre |}) as (s' & cur' & H1 & H2 & H3 & H4);
    [done|done|done|by eapply feed_reads_page| |by exists s', cur'].
  cbn. destruct pre as [|x pre']; [|pose proof (feed_ahead_page _ _ _ _ _ Hr ltac:(done)); cbn in *; lia].
  destruct post as [|y post']; [|by destruct (Hne ltac:(done))]. cbn.
  assert (feed_ahead (fs_db s) (fs_now s) cur ≡ ∅) as Hz; [|apply size_empty_iff in Hz; lia].
  intros e. split; [|by intros ?%not_elem_of_empty]. intros [[Hf1 Hf2]%in_feed_spec He]%elem_of_filter.
  destruct (feed_range_spec _ _ _ _ _ Hr) as (_ & _ & _ & Hno). by destruct (Hno eq_refl eq_refl e He Hf1).
Qed.

(** C36. Polling catches up: with nothing committing meanwhile, one poll more than the log has
    entries gives the reader every wanted finish from where it began up to the horizon,
    however small its pages and however rare its matches. *)
Theorem feed_drains s :
  feed_reachable s → 0 ≤ fp_Settle p →
  ∃ s' start, feed_polls (S (size (job_run_finishes (fs_db s)))) s = Ok s' ∧ fs_start s' = Some start ∧
    (∀ start0, fs_start s = Some start0 → start = start0) ∧
    ∀ e f, e ∈ job_run_finishes (fs_db s) → pos_after start e → e.1 ≤ fs_now s - feed_settle p →
      feed_wanted p (fs_db s) e = Some f → f ∈ fs_seen s'.
Proof.
  intros Hre Hse. pose proof (feed_reachable_inv s Hre) as Hi.
  destruct (feed_poll_reads s Hse Hi) as (start & cur & pre & post & Hst & _ & _ & _ & Hp & Hrd).
  destruct (feed_drains_from (size (job_run_finishes (fs_db s))) {| fs_db := fs_db s; fs_now := fs_now s;
      fs_After := encodeFeedCursor (default cur (last pre)); fs_start := Some start;
      fs_seen := fs_seen s ++ omap (feed_wanted p (fs_db s)) pre |} start (default cur (last pre)))
    as (s' & cur' & Hps & Hs' & Hrd' & Hz); [done|apply Hi|done|done|done|apply subseteq_size; intros e He; by apply elem_of_filter in He as [_ ?]|].
  exists s', start. cbn [feed_polls]. rewrite Hp. split_and!; [done|done|intros start0 E; by rewrite E in Hst|].
  intros e f He Ha Hh Hw. eapply rd_complete; [exact Hrd'|done|done|by eapply feed_ahead_none|done].
Qed.
End polling.
