(* ===== verification/RollupFacts.v ===== *)
(** * Aggregates as sums: what runAgg.observe, runAgg.merge and aggregateWindow compute

    [agg_spec] is the aggregate of a list of runs as a sum over it; observing a run,
    merging two aggregates and scanning the rows in any order all agree with it, so
    an aggregate depends on which runs it counted and not on how they were split. *)

From S2P Require Import Prelude Types Text Json Fingerprint Store Plan Sweep Retention Ids Hist Maintenance Rollup.

Local Open Scope Z_scope.

(** ** Sums *)

Definition sum_of {A} (f : A → Z) (l : list A) : Z := foldr (λ x n, f x + n) 0 l.

Lemma sum_of_app {A} (f : A → Z) l1 l2 : sum_of f (l1 ++ l2) = sum_of f l1 + sum_of f l2.
Proof. induction l1 as [|x l1 IH]; simpl; [done|]. unfold sum_of in *. simpl. lia. Qed.
#[global] Instance sum_of_perm {A} (f : A → Z) : Proper ((≡ₚ) ==> (=)) (sum_of f).
Proof. induction 1; unfold sum_of in *; simpl; lia. Qed.
Lemma sum_of_bounds {A} (f : A → Z) l :
  (∀ x, 0 ≤ f x ≤ 1) → 0 ≤ sum_of f l ≤ Z.of_nat (length l).
Proof. intros Hf. induction l as [|x l IH]; unfold sum_of in *; simpl; [lia|]. specialize (Hf x). lia. Qed.

Lemma wrap64_add_l a b : wrap64 (wrap64 a + b) = wrap64 (a + b).
Proof.
  unfold wrap64. f_equal.
  replace ((a + 2 ^ 63) mod 2 ^ 64 - 2 ^ 63 + b + 2 ^ 63) with ((a + 2 ^ 63) mod 2 ^ 64 + b) by lia.
  rewrite Z.add_mod_idemp_l by done. f_equal. lia.
Qed.
Lemma wrap64_add a b : wrap64 (wrap64 a + wrap64 b) = wrap64 (a + b).
Proof. rewrite wrap64_add_l, Z.add_comm, wrap64_add_l. f_equal. lia. Qed.
Lemma add64_wrap a b : add64 (wrap64 a) (wrap64 b) = wrap64 (a + b).
Proof. apply wrap64_add. Qed.
Lemma add64_wrap_l a b : add64 (wrap64 a) b = wrap64 (a + b).
Proof. apply wrap64_add_l. Qed.

(** ** Histograms as counts *)

Definition in_bucket (i : nat) (v : option Z) : Z :=
  one_if (match v with Some d => bool_decide (histBucket d = i) | None => false end).
Definition hist_spec {A} (val : A → option Z) (l : list A) : histogram :=
  (λ i, wrap64 (sum_of (λ x, in_bucket i (val x)) l)) <$> seq 0 (length newHistogram).

Lemma hist_spec_nil {A} (val : A → option Z) : hist_spec val [] = newHistogram.
Proof. done. Qed.
#[global] Instance hist_spec_perm {A} (val : A → option Z) : Proper ((≡ₚ) ==> (=)) (hist_spec val).
Proof. intros l1 l2 Hl. unfold hist_spec. apply list_fmap_ext. intros _ i _. by rewrite Hl. Qed.

Lemma hist_spec_lookup {A} (val : A → option Z) l i :
  (i < length newHistogram)%nat → hist_spec val l !! i = Some (wrap64 (sum_of (λ x, in_bucket i (val x)) l)).
Proof. intros Hi. unfold hist_spec. rewrite list_lookup_fmap, lookup_seq_lt by done. done. Qed.
Lemma hist_spec_length {A} (val : A → option Z) l : length (hist_spec val l) = length newHistogram.
Proof. unfold hist_spec. by rewrite length_fmap, length_seq. Qed.

Lemma hist_spec_add {A} (val : A → option Z) l1 l2 :
  add (hist_spec val l1) (hist_spec val l2) = hist_spec val (l1 ++ l2).
Proof.
  apply (list_eq_same_length _ _ (length newHistogram)).
  - apply hist_spec_length.
  - by rewrite add_length, hist_spec_length.
  - intros i x y Hi Hx Hy. erewrite add_lookup in Hx by by apply hist_spec_lookup.
    rewrite hist_spec_lookup in Hy by done. simplify_eq. by rewrite wrap64_add, sum_of_app.
Qed.
Lemma hist_spec_observe {A} (val : A → option Z) x l d :
  val x = Some d → observe (hist_spec val l) d = hist_spec val (x :: l).
Proof.
  intros Hv. unfold observe. apply (list_eq_same_length _ _ (length newHistogram)).
  - apply hist_spec_length.
  - by rewrite length_alter, hist_spec_length.
  - intros i a b Hi Ha Hb. rewrite hist_spec_lookup in Hb by done. injection Hb as <-.
    unfold sum_of at 1. cbn [foldr]. fold (sum_of (λ x, in_bucket i (val x)) l).
    rewrite Hv. unfold in_bucket at 1. destruct (decide (histBucket d = i)) as [<-|Hne].
    + rewrite list_lookup_alter_eq, hist_spec_lookup in Ha by done. injection Ha as <-.
      rewrite wrap64_add_l, bool_decide_true by done. f_equal. simpl. lia.
    + rewrite list_lookup_alter_ne, hist_spec_lookup in Ha by done. injection Ha as <-.
      by rewrite bool_decide_false by done.
Qed.
Lemma hist_spec_skip {A} (val : A → option Z) x l : val x = None → hist_spec val (x :: l) = hist_spec val l.
Proof.
  intros Hv. unfold hist_spec. apply list_fmap_ext. intros _ i _. unfold sum_of. cbn [foldr]. by rewrite Hv.
Qed.

(** ** The slowest run *)

Abbreviation timed_run := (Z * string)%type.
(** [q] is slower than [p], or as slow with the larger id. *)
Definition slower (p q : timed_run) : bool := (p.1 <? q.1) || ((q.1 =? p.1) && str_gt q.2 p.2).
Definition slower_of (p q : timed_run) : timed_run := if slower p q then q else p.
Definition slowest (l : list timed_run) : timed_run := foldr (λ x acc, slower_of acc x) (0, "") l.

Lemma str_gt_spec a b : str_gt a b = true ↔ ¬ bytes_le a b.
Proof. unfold str_gt. by rewrite negb_true_iff, bool_decide_eq_false. Qed.
Definition run_le (p q : timed_run) : Prop := p.1 < q.1 ∨ (p.1 = q.1 ∧ bytes_le p.2 q.2).
Lemma slower_spec p q : slower p q = true ↔ ¬ run_le q p.
Proof.
  unfold slower, run_le. rewrite orb_true_iff, andb_true_iff, Z.ltb_lt, Z.eqb_eq, str_gt_spec.
  split; [|intros Hn; destruct (Z.lt_trichotomy p.1 q.1) as [?|[?|?]]; [by left| |exfalso; apply Hn; by left]].
  - intros [?|[? Hn]] [?|[? ?]]; try lia. done.
  - right. split; [done|]. intros Hl. apply Hn. by right.
Qed.
#[global] Instance run_le_total : Total run_le.
Proof.
  intros p q. unfold run_le. destruct (Z.lt_trichotomy p.1 q.1) as [?|[?|?]]; [by left; left| |by right; left].
  destruct (base.total bytes_le p.2 q.2); [left|right]; right; auto.
Qed.
#[global] Instance run_le_antisym : AntiSymm (=) run_le.
Proof.
  intros [] [] [?|[He ?]] [?|[? ?]]; simpl in *; try lia. rewrite He. f_equal. by apply (anti_symm bytes_le).
Qed.
#[global] Instance run_le_trans : Transitive run_le.
Proof.
  intros p q r [?|[? ?]] [?|[? ?]]; [left; lia..|]. right. split; [congruence|]. by etrans.
Qed.
#[global] Instance run_le_refl : Reflexive run_le.
Proof. intros p. by destruct (base.total run_le p p). Qed.

(** The larger of two, in the order of the slower. *)
Lemma slower_of_spec p q : run_le p (slower_of p q) ∧ run_le q (slower_of p q) ∧ (slower_of p q = p ∨ slower_of p q = q).
Proof.
  unfold slower_of. destruct (slower p q) eqn:E.
  - apply slower_spec in E. destruct (base.total run_le p q); [|done]. split; [done|split; [reflexivity|by right]].
  - apply not_true_iff_false in E. rewrite slower_spec in E. apply dec_stable in E.
    split; [reflexivity|split; [done|by left]].
Qed.
Lemma slower_of_char p q m : run_le p m → run_le q m → (m = p ∨ m = q) → slower_of p q = m.
Proof.
  intros Hp Hq Hm. destruct (slower_of_spec p q) as (Hp' & Hq' & Hm').
  apply (anti_symm run_le); [destruct Hm' as [->| ->]|destruct Hm as [->| ->]]; done.
Qed.
#[global] Instance slower_of_comm : Comm (=) slower_of.
Proof. intros p q. destruct (slower_of_spec q p) as (? & ? & ?). apply slower_of_char; tauto. Qed.
#[global] Instance slower_of_assoc : Assoc (=) slower_of.
Proof.
  intros p q r. destruct (slower_of_spec p q) as (Hp & Hq & E1),
    (slower_of_spec (slower_of p q) r) as (Hl & Hr & E2), (slower_of_spec q r) as (Hq' & Hr' & E3).
  apply slower_of_char; [exact (run_le_trans _ _ _ Hp Hl)| |].
  - destruct E3 as [->| ->]; [exact (run_le_trans _ _ _ Hq Hl)|done].
  - destruct E2 as [E2|E2]; rewrite E2 in *; [destruct E1 as [E1|E1]; rewrite E1 in *; [by left|]|].
    + right. symmetry. apply slower_of_char; [reflexivity|done|by left].
    + right. symmetry. apply slower_of_char; [exact (run_le_trans _ _ _ Hq Hl)|reflexivity|by right].
Qed.
Lemma slower_of_id p : slower_of p p = p.
Proof. apply slower_of_char; [reflexivity..|by left]. Qed.

(** ** The aggregate of a list of runs *)

(** What a run counts as: not superseded, its outcome, and its measurements. *)
Definition is_counted (v : runView) : bool := as_crash v || negb (rv_Sup v).
Definition outcome_of (v : runView) : RunOutcome := if as_crash v then OutcomeCrashed else rv_Outcome v.
Definition was (o : RunOutcome) (v : runView) : bool := is_counted v && bool_decide (outcome_of v = o).
Definition duration_of (v : runView) : option Z := if was OutcomeSuccess v then rv_Duration v else None.
Definition wait_of (v : runView) : option Z := if is_counted v then rv_Wait v else None.
Definition cost_of (v : runView) : option Z := if is_counted v && negb (as_crash v) then rv_Cost v else None.
Definition discarded_by (v : runView) : bool := is_counted v && bool_decide (rv_JobState v = Some StateDiscarded).
Definition timed_of (v : runView) : option timed_run := (λ d, (d, rv_ID v)) <$> duration_of v.

Definition count_of (b : runView → bool) (l : list runView) : Z := wrap64 (sum_of (λ v, one_if (b v)) l).
Definition total_of (f : runView → option Z) (l : list runView) : Z := wrap64 (sum_of (λ v, default 0 (f v)) l).
Definition max_of (f : runView → option Z) (l : list runView) : Z :=
  foldr (λ v m, match f v with Some d => Z.max m d | None => m end) 0 l.
Definition present (f : runView → option Z) (v : runView) : bool := bool_decide (is_Some (f v)).

Definition agg_spec (kind queue : string) (l : list runView) (n : Z) : runAgg :=
  {| ag_Kind := kind; ag_Queue := queue; ag_Attempts := count_of is_counted l;
     ag_Success := count_of (was OutcomeSuccess) l; ag_Error := count_of (was OutcomeError) l;
     ag_Timeout := count_of (was OutcomeTimeout) l; ag_Snooze := count_of (was OutcomeSnooze) l;
     ag_Cancelled := count_of (was OutcomeCancelled) l; ag_Crashed := count_of (was OutcomeCrashed) l;
     ag_Superseded := count_of (λ v, negb (is_counted v)) l; ag_Discarded := count_of discarded_by l;
     ag_Enqueued := wrap64 n; ag_DurCount := count_of (present duration_of) l;
     ag_DurSumMs := total_of duration_of l; ag_DurMaxMs := (slowest (omap timed_of l)).1;
     ag_DurHist := hist_spec duration_of l; ag_SlowestRunID := (slowest (omap timed_of l)).2;
     ag_WaitCount := count_of (present wait_of) l; ag_WaitSumMs := total_of wait_of l;
     ag_WaitMaxMs := max_of wait_of l; ag_WaitHist := hist_spec wait_of l;
     ag_CostMicrosSum := total_of cost_of l |}.

(** Durations are not negative, and there are fewer than 2^63 runs. *)
Definition fits (l : list runView) : Prop :=
  Forall (λ v, ∀ d, duration_of v = Some d → 0 ≤ d) l ∧ Z.of_nat (length l) ≤ int64_max.

#[global] Instance count_of_perm b : Proper ((≡ₚ) ==> (=)) (count_of b).
Proof. intros l1 l2 Hl. unfold count_of. by rewrite Hl. Qed.
#[global] Instance total_of_perm f : Proper ((≡ₚ) ==> (=)) (total_of f).
Proof. intros l1 l2 Hl. unfold total_of. by rewrite Hl. Qed.
#[global] Instance max_of_perm f : Proper ((≡ₚ) ==> (=)) (max_of f).
Proof. induction 1; simpl; repeat case_match; lia. Qed.
#[global] Instance slowest_perm : Proper ((≡ₚ) ==> (=)) slowest.
Proof.
  induction 1 as [| |x y l|]; simpl; [done|congruence| |congruence].
  rewrite <-!(assoc_L slower_of). f_equal. apply (comm_L slower_of).
Qed.
#[global] Instance agg_spec_perm k q : Proper ((≡ₚ) ==> (=) ==> (=)) (agg_spec k q).
Proof. intros l1 l2 Hl n ? <-. unfold agg_spec. by rewrite !Hl. Qed.
#[global] Instance fits_perm : Proper ((≡ₚ) ==> iff) fits.
Proof. intros l1 l2 Hl. unfold fits. by rewrite Hl. Qed.

Lemma count_of_cons b v l : count_of b (v :: l) = add64 (count_of b l) (one_if (b v)).
Proof. unfold count_of, sum_of. cbn [foldr]. rewrite add64_wrap_l. f_equal. lia. Qed.
Lemma count_of_app b l1 l2 : count_of b (l1 ++ l2) = add64 (count_of b l1) (count_of b l2).
Proof. unfold count_of. by rewrite add64_wrap, sum_of_app. Qed.
Lemma count_of_same b v l : b v = false → count_of b (v :: l) = count_of b l.
Proof. intros Hb. unfold count_of, sum_of. cbn [foldr]. by rewrite Hb. Qed.
Lemma total_of_cons f v l :
  total_of f (v :: l) = match f v with Some d => add64 (total_of f l) d | None => total_of f l end.
Proof.
  unfold total_of, sum_of. cbn [foldr]. destruct (f v); simpl; [|done]. rewrite add64_wrap_l. f_equal. lia.
Qed.
Lemma total_of_app f l1 l2 : total_of f (l1 ++ l2) = add64 (total_of f l1) (total_of f l2).
Proof. unfold total_of. by rewrite add64_wrap, sum_of_app. Qed.
Lemma max_of_nonneg f l : 0 ≤ max_of f l.
Proof. induction l as [|v l IH]; simpl; [done|]. case_match; lia. Qed.
Lemma max_of_app f l1 l2 : max_of f (l1 ++ l2) = Z.max (max_of f l1) (max_of f l2).
Proof.
  induction l1 as [|v l1 IH]; simpl; [pose proof (max_of_nonneg f l2); lia|]. rewrite IH. case_match; lia.
Qed.
Lemma slower_of_fst p q : (slower_of p q).1 = Z.max p.1 q.1.
Proof.
  unfold slower_of, slower. destruct (Z.ltb_spec p.1 q.1); simpl; [lia|].
  destruct (Z.eqb_spec q.1 p.1); simpl; [case_match|]; lia.
Qed.
Lemma slowest_nonneg l : 0 ≤ (slowest l).1.
Proof. induction l as [|x l IH]; simpl; [done|]. rewrite slower_of_fst. lia. Qed.
Lemma slowest_zero l : run_le (0, "") (slowest l).
Proof.
  induction l as [|x l IH]; simpl; [reflexivity|]. etrans; [exact IH|]. apply slower_of_spec.
Qed.
Lemma slower_of_zero l : slower_of (0, "") (slowest l) = slowest l.
Proof. apply slower_of_char; [apply slowest_zero|reflexivity|by right]. Qed.
Lemma slowest_app l1 l2 : slowest (l1 ++ l2) = slower_of (slowest l1) (slowest l2).
Proof.
  induction l1 as [|x l1 IH]; simpl; [by rewrite slower_of_zero|].
  by rewrite IH, <-!(assoc_L slower_of), (comm_L slower_of (slowest l2) x).
Qed.

(** No durations counted means none there. *)
Lemma count_none l :
  Z.of_nat (length l) ≤ int64_max → count_of (present duration_of) l = 0 → omap timed_of l = [].
Proof.
  intros Hl. unfold count_of.
  pose proof (sum_of_bounds (λ v, one_if (present duration_of v)) l) as Hb.
  rewrite wrap64_id by (unfold in_int64, int64_min in *;
    lapply Hb; [lia|intros v; destruct (present _ _); simpl; lia]).
  clear Hb Hl. induction l as [|v l IH]; [done|]. unfold sum_of in *. cbn [foldr].
  pose proof (sum_of_bounds (λ v, one_if (present duration_of v)) l) as Hb.
  lapply Hb; [clear Hb; intros Hb|intros u; destruct (present _ u); simpl; lia]. unfold sum_of in Hb.
  intros Hz. cbn. unfold timed_of. destruct (duration_of v) as [d|] eqn:Ed; csimpl.
  - unfold present in Hz at 1. rewrite Ed in Hz. simpl in Hz. lia.
  - apply IH. unfold present in Hz at 1. rewrite Ed in Hz. simpl in Hz. lia.
Qed.
Lemma count_pos l :
  Z.of_nat (length l) ≤ int64_max → 0 ≤ count_of (present duration_of) l.
Proof.
  intros Hl. unfold count_of.
  pose proof (sum_of_bounds (λ v, one_if (present duration_of v)) l) as Hb.
  lapply Hb; [clear Hb; intros Hb|intros u; destruct (present _ u); simpl; lia].
  rewrite wrap64_id; [lia|]. unfold in_int64, int64_min in *. lia.
Qed.

(** An empty aggregate. *)
Lemma agg_spec_nil k q : newRunAgg k q = agg_spec k q [] 0.
Proof. done. Qed.

(** runAgg.merge is concatenation. *)
Lemma agg_merge_spec k q k' q' l1 l2 n1 n2 :
  fits l2 → agg_merge (agg_spec k q l1 n1) (agg_spec k' q' l2 n2) = agg_spec k q (l1 ++ l2) (n1 + n2).
Proof.
  intros [_ Hl]. unfold agg_merge.
  assert ((if (0 <? ag_DurCount (agg_spec k' q' l2 n2)) && slower (slowest (omap timed_of l1)) (slowest (omap timed_of l2))
           then (slowest (omap timed_of l2)).2 else (slowest (omap timed_of l1)).2) =
          (slowest (omap timed_of (l1 ++ l2))).2) as Hs.
  { rewrite omap_app, slowest_app. unfold slower_of. cbn [ag_DurCount agg_spec].
    pose proof (count_pos l2 Hl). destruct (Z.ltb_spec 0 (count_of (present duration_of) l2)); [by destruct (slower _ _)|].
    rewrite (count_none l2 Hl) by lia. destruct (slower _ _) eqn:E; [|done].
    apply slower_spec in E. destruct E. apply slowest_zero. }
  unfold slower in Hs. unfold agg_spec in *. cbn [ag_Attempts ag_Success ag_Error ag_Timeout ag_Snooze ag_Cancelled ag_Crashed ag_Superseded ag_Discarded ag_Enqueued ag_DurCount ag_DurSumMs ag_DurMaxMs ag_DurHist ag_SlowestRunID ag_WaitCount ag_WaitSumMs ag_WaitMaxMs ag_WaitHist ag_CostMicrosSum ag_Kind ag_Queue] in *.
  rewrite Hs, !count_of_app, !total_of_app, max_of_app, !hist_spec_add, add64_wrap, omap_app, slowest_app,
    slower_of_fst. done.
Qed.

Lemma hist_spec_cons {A} (val : A → option Z) x l :
  match val x with Some d => observe (hist_spec val l) d | None => hist_spec val l end = hist_spec val (x :: l).
Proof. destruct (val x) eqn:E; [by apply hist_spec_observe|by rewrite hist_spec_skip]. Qed.
Lemma max_of_cons f v l :
  match f v with Some w => Z.max (max_of f l) w | None => max_of f l end = max_of f (v :: l).
Proof. done. Qed.
Lemma slowest_cons v l :
  slowest (omap timed_of (v :: l)) =
  match duration_of v with Some d => slower_of (slowest (omap timed_of l)) (d, rv_ID v) | None => slowest (omap timed_of l) end.
Proof. csimpl. unfold timed_of at 1. by destruct (duration_of v). Qed.

(** The first duration is the slowest whatever it is. *)
Lemma slowest_observed v l d :
  fits (v :: l) → duration_of v = Some d →
  (if (count_of (present duration_of) l =? 0) || ((slowest (omap timed_of l)).1 <? d) ||
      ((d =? (slowest (omap timed_of l)).1) && str_gt (rv_ID v) (slowest (omap timed_of l)).2)
   then rv_ID v else (slowest (omap timed_of l)).2) = (slower_of (slowest (omap timed_of l)) (d, rv_ID v)).2.
Proof.
  intros [Hd Hl] Ed. rewrite length_cons in Hl. apply Forall_cons in Hd as [Hv _]. specialize (Hv _ Ed).
  rewrite <-orb_assoc. change (_ || _ && _) with (slower (slowest (omap timed_of l)) (d, rv_ID v)) at 1.
  unfold slower_of. destruct (Z.eqb_spec (count_of (present duration_of) l) 0) as [E|E]; simpl; [|by destruct (slower _ _)].
  rewrite (count_none l) by lia. cbn [slowest foldr]. destruct (slower (0, "") _) eqn:Es; [done|].
  apply not_true_iff_false in Es. rewrite slower_spec in Es. apply dec_stable in Es.
  destruct Es as [?|[He Hle]]; simpl in *; [lia|]. apply (anti_symm bytes_le); [done|].
  by destruct (rv_ID v).
Qed.

Ltac agg_fields :=
  cbn [ag_Kind ag_Queue ag_Attempts ag_Success ag_Error ag_Timeout ag_Snooze ag_Cancelled ag_Crashed ag_Superseded
       ag_Discarded ag_Enqueued ag_DurCount ag_DurSumMs ag_DurMaxMs ag_DurHist ag_SlowestRunID ag_WaitCount
       ag_WaitSumMs ag_WaitMaxMs ag_WaitHist ag_CostMicrosSum agg_spec].

(** A superseded run adds to one counter. *)
Lemma agg_observe_superseded k q l n v :
  is_counted v = false → agg_observe (agg_spec k q l n) v = agg_spec k q (v :: l) n.
Proof.
  intros Ec. assert (as_crash v = false ∧ rv_Sup v = true) as [Ea Es].
  { unfold is_counted in Ec. destruct (as_crash v), (rv_Sup v); done. }
  assert (∀ o, was o v = false) as Hw by (intros o; unfold was; by rewrite Ec).
  assert (duration_of v = None ∧ wait_of v = None ∧ cost_of v = None ∧ discarded_by v = false) as (Hd & Hq & Hc & Hx).
  { unfold duration_of, wait_of, cost_of, discarded_by. by rewrite Hw, Ec. }
  unfold agg_observe. rewrite Ea, Es. agg_fields. unfold agg_spec.
  rewrite (count_of_cons (λ v, negb (is_counted v))), !total_of_cons, slowest_cons, <-!hist_spec_cons, <-max_of_cons, Ec, Hd, Hq, Hc.
  rewrite !count_of_same; first done; rewrite ?Hw; try done; unfold present; by rewrite ?Hd, ?Hq.
Qed.

(** runAgg.observe is cons. *)
Lemma agg_observe_spec k q l n v :
  fits (v :: l) → agg_observe (agg_spec k q l n) v = agg_spec k q (v :: l) n.
Proof.
  intros Hf. destruct (is_counted v) eqn:Ec; [|by apply agg_observe_superseded].
  unfold agg_observe. cbv zeta.
  assert ((if as_crash v then false else rv_Sup v) = false) as ->.
  { unfold is_counted in Ec. destruct (as_crash v); [done|]. by destruct (rv_Sup v). }
  fold (outcome_of v).
  assert (∀ o, bool_decide (outcome_of v = o) = was o v) as Hw by (intros o; unfold was; by rewrite Ec).
  assert ((if bool_decide (outcome_of v = OutcomeSuccess) then if as_crash v then None else rv_Duration v else None)
          = duration_of v) as ->.
  { unfold duration_of. rewrite Hw. unfold was, outcome_of. by destruct (is_counted v), (as_crash v). }
  assert ((if as_crash v then None else rv_Cost v) = cost_of v) as ->.
  { unfold cost_of. rewrite Ec. by destruct (as_crash v). }
  assert (rv_Wait v = wait_of v) as -> by (unfold wait_of; by rewrite Ec).
  assert (bool_decide (rv_JobState v = Some StateDiscarded) = discarded_by v) as ->
    by (unfold discarded_by; by rewrite Ec).
  rewrite !Hw. agg_fields. fold (present duration_of v) (present wait_of v).
  rewrite !max_of_cons, !hist_spec_cons, <-!total_of_cons, <-!count_of_cons. unfold agg_spec. f_equal.
  - by rewrite count_of_cons, Ec.
  - by rewrite count_of_same by by rewrite Ec.
  - rewrite slowest_cons. destruct (duration_of v); [by rewrite slower_of_fst|done].
  - rewrite slowest_cons. destruct (duration_of v) eqn:Ed; [by apply slowest_observed|done].
Qed.

(** ** Tables of aggregates

    A table of aggregates is what its tagged runs and tagged inserts come to: the
    entry of a tag aggregates the runs and counts the inserts that carry it, and a
    tag nothing carries has no entry. *)

Abbreviation tagged_runs := (list (statsGroup * runView)).
Abbreviation tagged_jobs := (list (statsGroup * jobRow)).
Definition with_tag {A} (g : statsGroup) (l : list (statsGroup * A)) : list A := (filter (λ x, x.1 = g) l).*2.
Definition tagged (T : tagged_runs) (J : tagged_jobs) (g : statsGroup) : option runAgg :=
  let l := with_tag g T in
  let js := with_tag g J in
  if bool_decide (l = []) && bool_decide (js = []) then None
  else Some (agg_spec g.1 g.2 l (Z.of_nat (length js))).
Definition represents (m : gmap statsGroup runAgg) (T : tagged_runs) (J : tagged_jobs) : Prop :=
  ∀ g, m !! g = tagged T J g.

#[global] Instance with_tag_perm {A} g : Proper ((≡ₚ) ==> (≡ₚ)) (@with_tag A g).
Proof. intros l1 l2 Hl. unfold with_tag. by rewrite Hl. Qed.
Lemma with_tag_app {A} g (l1 l2 : list (statsGroup * A)) : with_tag g (l1 ++ l2) = with_tag g l1 ++ with_tag g l2.
Proof. unfold with_tag. by rewrite filter_app, fmap_app. Qed.
Lemma with_tag_same {A} g (l : list A) : with_tag g ((g,.) <$> l) = l.
Proof.
  unfold with_tag. induction l as [|x l IH]; [done|]. csimpl. rewrite filter_cons, decide_True by done.
  csimpl. by rewrite IH.
Qed.
Lemma with_tag_other {A} g g' (l : list A) : g ≠ g' → with_tag g ((g',.) <$> l) = [].
Proof.
  intros Hne. unfold with_tag. induction l as [|x l IH]; [done|]. csimpl.
  rewrite filter_cons, decide_False by (simpl; congruence). done.
Qed.
Lemma with_tag_sublist {A} g (l : list (statsGroup * A)) : with_tag g l `sublist_of` l.*2.
Proof. unfold with_tag. apply fmap_sublist, sublist_filter. Qed.

Lemma nil_perm_eq {A} (l1 l2 : list A) : l1 ≡ₚ l2 → bool_decide (l1 = []) = bool_decide (l2 = []).
Proof.
  intros Hl. apply bool_decide_ext. split; intros ->; [by apply Permutation_nil|by apply Permutation_nil_r in Hl].
Qed.
#[global] Instance tagged_perm : Proper ((≡ₚ) ==> (≡ₚ) ==> (=) ==> (=)) tagged.
Proof.
  intros T1 T2 HT J1 J2 HJ g ? <-. unfold tagged.
  rewrite (nil_perm_eq _ _ (with_tag_perm g _ _ HT)), (nil_perm_eq _ _ (with_tag_perm g _ _ HJ)).
  case_match; [done|]. by rewrite HT, HJ.
Qed.
#[global] Instance represents_perm : Proper ((=) ==> (≡ₚ) ==> (≡ₚ) ==> iff) represents.
Proof.
  intros m ? <- T1 T2 HT J1 J2 HJ. unfold represents.
  split; intros Hm g; rewrite Hm; [by apply tagged_perm|symmetry; by apply tagged_perm].
Qed.
Lemma represents_inj m1 m2 T J : represents m1 T J → represents m2 T J → m1 = m2.
Proof. intros H1 H2. apply map_eq. intros g. by rewrite H1, H2. Qed.
Lemma represents_empty : represents ∅ [] [].
Proof. intros g. by rewrite lookup_empty. Qed.

Lemma fits_submseteq l1 l2 : l1 ⊆+ l2 → fits l2 → fits l1.
Proof.
  intros Hs [Hd Hl]. split.
  - rewrite Forall_forall in *. intros v Hv. apply Hd. by eapply elem_of_submseteq.
  - apply submseteq_length in Hs. lia.
Qed.
Lemma fits_tag g T : fits T.*2 → fits (with_tag g T).
Proof. apply fits_submseteq, sublist_submseteq, with_tag_sublist. Qed.

Lemma tagged_default T J g :
  default (newRunAgg g.1 g.2) (tagged T J g) = agg_spec g.1 g.2 (with_tag g T) (Z.of_nat (length (with_tag g J))).
Proof.
  unfold tagged. case_match eqn:E; [|done]. apply andb_true_iff in E as [E1 E2].
  apply bool_decide_eq_true in E1, E2. by rewrite E1, E2.
Qed.
Lemma tagged_some T J g :
  (with_tag g T ≠ [] ∨ with_tag g J ≠ []) →
  tagged T J g = Some (agg_spec g.1 g.2 (with_tag g T) (Z.of_nat (length (with_tag g J)))).
Proof.
  intros Hne. unfold tagged. rewrite !bool_decide_decide.
  destruct Hne; repeat case_decide; done.
Qed.
Lemma tagged_frame T1 T2 J1 J2 g :
  with_tag g T1 = [] → with_tag g J1 = [] → tagged (T1 ++ T2) (J1 ++ J2) g = tagged T2 J2 g.
Proof. intros HT HJ. unfold tagged. by rewrite !with_tag_app, HT, HJ. Qed.

(** Changing an entry by [fn], where [fn] adds the runs [l] and the inserts [js]. *)
Lemma represents_at m T J g l js fn :
  represents m T J → (l ≠ [] ∨ js ≠ []) →
  fn (agg_spec g.1 g.2 (with_tag g T) (Z.of_nat (length (with_tag g J)))) =
    agg_spec g.1 g.2 (l ++ with_tag g T) (Z.of_nat (length (js ++ with_tag g J))) →
  represents (at_group g fn m) (((g,.) <$> l) ++ T) (((g,.) <$> js) ++ J).
Proof.
  intros Hm Hne Hfn g'. unfold at_group. destruct (decide (g' = g)) as [->|Hg].
  - rewrite lookup_insert_eq, Hm, tagged_default, Hfn. rewrite tagged_some, !with_tag_app, !with_tag_same; [done|].
    rewrite !with_tag_app, !with_tag_same. destruct Hne; [left|right]; intros [??]%app_eq_nil; done.
  - rewrite lookup_insert_ne by done. rewrite Hm, tagged_frame; [done|by apply with_tag_other..].
Qed.

(** ** Merging tables *)

Definition retag {A} (κ : statsGroup → statsGroup) (l : list (statsGroup * A)) : list (statsGroup * A) :=
  (λ x, (κ x.1, x.2)) <$> l.
#[global] Instance retag_perm {A} κ : Proper ((≡ₚ) ==> (≡ₚ)) (@retag A κ).
Proof. intros l1 l2 Hl. unfold retag. by rewrite Hl. Qed.
Lemma retag_app {A} κ (l1 l2 : list (statsGroup * A)) : retag κ (l1 ++ l2) = retag κ l1 ++ retag κ l2.
Proof. apply fmap_app. Qed.
Lemma retag_snd {A} κ (l : list (statsGroup * A)) : (retag κ l).*2 = l.*2.
Proof. unfold retag. rewrite <-list_fmap_compose. by apply list_fmap_ext. Qed.

Definition tags_in {A} (gs : list statsGroup) (l : list (statsGroup * A)) : list (statsGroup * A) :=
  filter (λ x, x.1 ∈ gs) l.
Lemma tags_in_cons {A} κ g gs (l : list (statsGroup * A)) :
  g ∉ gs → retag κ (tags_in (g :: gs) l) ≡ₚ retag κ (tags_in gs l) ++ ((κ g,.) <$> with_tag g l).
Proof.
  intros Hg. unfold tags_in, with_tag, retag. induction l as [|x l IH]; [done|]. rewrite !filter_cons.
  destruct (decide (x.1 = g)) as [<-|Hx].
  - rewrite decide_True by left. rewrite decide_False by done. csimpl. rewrite IH.
    apply Permutation_middle.
  - destruct (decide (x.1 ∈ gs)).
    + rewrite decide_True by by right. csimpl. by rewrite IH.
    + rewrite decide_False by by intros [?|?]%elem_of_cons. done.
Qed.
Lemma tags_in_all {A} gs (l : list (statsGroup * A)) : (∀ x, x ∈ l → x.1 ∈ gs) → tags_in gs l = l.
Proof.
  intros Hl. unfold tags_in. induction l as [|x l IH]; [done|]. rewrite filter_cons, decide_True by (apply Hl; left).
  rewrite IH; [done|]. intros y Hy. apply Hl. by right.
Qed.
Lemma tags_in_nil {A} (l : list (statsGroup * A)) : tags_in [] l = [].
Proof.
  unfold tags_in. induction l as [|x l IH]; [done|]. rewrite filter_cons, decide_False; [done|]. apply not_elem_of_nil.
Qed.

Lemma tagged_inv T J g a :
  tagged T J g = Some a →
  (with_tag g T ≠ [] ∨ with_tag g J ≠ []) ∧
  a = agg_spec g.1 g.2 (with_tag g T) (Z.of_nat (length (with_tag g J))).
Proof.
  unfold tagged. rewrite !bool_decide_decide. repeat case_decide; simpl; intros [= <-]; auto.
Qed.
Lemma represents_keys {A} m T J (l : list (statsGroup * A)) (x : statsGroup * A) :
  represents m T J → x ∈ l → with_tag x.1 l ≠ [].
Proof.
  intros _ Hx Hn. assert (x.2 ∈ with_tag x.1 l) as Hin; [|rewrite Hn in Hin; by apply elem_of_nil in Hin].
  unfold with_tag. apply list_elem_of_fmap. exists x. split; [done|]. by apply list_elem_of_filter.
Qed.

(** The loops that merge a table's entries into another's, each under the key [κ]
    gives it: merging inner segments, totals by kind, and groupings alike. *)
Definition merge_by (κ : statsGroup → statsGroup) (m : gmap statsGroup runAgg) (ga : statsGroup * runAgg)
  : gmap statsGroup runAgg := at_group (κ ga.1) (λ x, agg_merge x ga.2) m.

Lemma merge_by_list κ m2 T2 J2 l m1 T1 J1 :
  represents m2 T2 J2 → fits T2.*2 → NoDup l.*1 → (∀ g a, (g, a) ∈ l → m2 !! g = Some a) →
  represents m1 T1 J1 →
  represents (foldl (merge_by κ) m1 l) (retag κ (tags_in l.*1 T2) ++ T1) (retag κ (tags_in l.*1 J2) ++ J1).
Proof.
  intros H2 Hf. revert m1 T1 J1. induction l as [|[g a] l IH]; intros m1 T1 J1 Hnd Hl H1; csimpl.
  { by rewrite !tags_in_nil. }
  csimpl in *. apply NoDup_cons in Hnd as [Hg Hnd].
  assert (m2 !! g = Some a) as Ha by (apply Hl; left). rewrite H2 in Ha. apply tagged_inv in Ha as [Hne ->].
  rewrite !tags_in_cons by done. rewrite <-!(assoc_L (++)).
  apply IH; [done|intros g' a' Hin; apply Hl; by right|].
  apply represents_at; [done|done|]. simpl. rewrite agg_merge_spec by by apply fits_tag.
  rewrite length_app, Nat2Z.inj_add, Z.add_comm. apply agg_spec_perm; [|done]. apply Permutation_app_comm.
Qed.

Section merging.
Context `{RowOrder}.

Lemma scan_entries (m : gmap statsGroup runAgg) T J :
  represents m T J →
  NoDup (scan (map_to_list m)).*1 ∧ (∀ g a, (g, a) ∈ scan (map_to_list m) → m !! g = Some a) ∧
  tags_in (scan (map_to_list m)).*1 T = T ∧ tags_in (scan (map_to_list m)).*1 J = J.
Proof.
  intros Hm. assert (∀ g, is_Some (m !! g) → g ∈ (scan (map_to_list m)).*1) as Hk.
  { intros g [a Ha]. rewrite (scan_perm (map_to_list m)). apply list_elem_of_fmap. exists (g, a).
    split; [done|]. by apply elem_of_map_to_list. }
  split; [rewrite (scan_perm (map_to_list m)); apply NoDup_fst_map_to_list|]. split.
  { intros g a. rewrite (scan_perm (map_to_list m)). apply elem_of_map_to_list. }
  split; apply tags_in_all; intros x Hx; apply Hk; rewrite Hm; rewrite tagged_some; [done| |done|].
  - left. by eapply represents_keys.
  - right. by eapply represents_keys.
Qed.

Lemma merge_by_spec κ m1 T1 J1 m2 T2 J2 :
  represents m1 T1 J1 → represents m2 T2 J2 → fits T2.*2 →
  represents (foldl (merge_by κ) m1 (scan (map_to_list m2))) (retag κ T2 ++ T1) (retag κ J2 ++ J1).
Proof.
  intros H1 H2 Hf. destruct (scan_entries m2 T2 J2 H2) as (Hnd & Hl & HT & HJ).
  pose proof (merge_by_list κ m2 T2 J2 _ m1 T1 J1 H2 Hf Hnd Hl H1) as Hm. by rewrite HT, HJ in Hm.
Qed.

(** Summing a table's entries. *)
Lemma merge_all_from k q m T J l1 n1 :
  represents m T J → fits T.*2 →
  foldl (λ t ga, agg_merge t ga.2) (agg_spec k q l1 n1) (scan (map_to_list m)) =
    agg_spec k q (T.*2 ++ l1) (Z.of_nat (length J) + n1).
Proof.
  intros Hm Hf. destruct (scan_entries m T J Hm) as (Hnd & Hl & HT & HJ).
  assert (∀ l, NoDup l.*1 → (∀ g a, (g, a) ∈ l → m !! g = Some a) → ∀ l0 n,
    foldl (λ t ga, agg_merge t ga.2) (agg_spec k q l0 n) l =
    agg_spec k q ((tags_in l.*1 T).*2 ++ l0) (Z.of_nat (length (tags_in l.*1 J)) + n)) as Hgen.
  { clear Hnd Hl HT HJ. induction l as [|[g a] l IH]; intros Hnd Hl l0 n; csimpl; [by rewrite !tags_in_nil|].
    csimpl in *. apply NoDup_cons in Hnd as [Hg Hnd].
    assert (m !! g = Some a) as Ha by (apply Hl; left). rewrite Hm in Ha. apply tagged_inv in Ha as [Hne ->].
    rewrite agg_merge_spec by by apply fits_tag.
    rewrite IH; [|done|intros g' a' Hin; apply Hl; by right].
    pose proof (tags_in_cons id g l.*1 T Hg) as HpT. pose proof (tags_in_cons id g l.*1 J Hg) as HpJ.
    apply (fmap_Permutation snd) in HpT. apply Permutation_length in HpJ.
    rewrite retag_snd, fmap_app, retag_snd, <-list_fmap_compose in HpT.
    unfold retag in HpJ. rewrite length_app, !length_fmap in HpJ.
    apply agg_spec_perm; [|lia]. rewrite HpT. rewrite (list_fmap_ext _ id) by done. rewrite list_fmap_id.
    rewrite <-(assoc_L (++)). f_equiv. apply Permutation_app_comm. }
  rewrite Hgen by done. by rewrite HT, HJ.
Qed.
Lemma merge_all_spec k q m T J :
  represents m T J → fits T.*2 →
  foldl (λ t ga, agg_merge t ga.2) (newRunAgg k q) (scan (map_to_list m)) =
    agg_spec k q T.*2 (Z.of_nat (length J)).
Proof. intros Hm Hf. rewrite agg_spec_nil, (merge_all_from k q m T J) by done. by rewrite app_nil_r, Z.add_0_r. Qed.
End merging.

(** ** A window's aggregates *)

Definition run_group (v : runView) : statsGroup := (rv_Kind v, rv_Queue v).
Definition job_group (r : jobRow) : statsGroup := (j_Kind r, j_Queue r).
Definition tag_runs (l : list runView) : tagged_runs := (λ v, (run_group v, v)) <$> l.
Definition tag_jobs (l : list jobRow) : tagged_jobs := (λ r, (job_group r, r)) <$> l.
(** The runs finished and the jobs inserted in a window that a filter keeps. *)
Definition runs_in (f : statsFilter) (d : db) (from to : Z) : list runView :=
  filter (λ v, filter_ok f (rv_Kind v) (rv_Queue v) = true) (finished_in d from to).
Definition jobs_in (f : statsFilter) (d : db) (from to : Z) : list jobRow :=
  filter (λ r, filter_ok f (j_Kind r) (j_Queue r) = true) (inserted_in d from to).

Lemma tag_runs_snd l : (tag_runs l).*2 = l.
Proof. unfold tag_runs. rewrite <-list_fmap_compose. apply list_fmap_id. Qed.
Lemma tag_jobs_snd l : (tag_jobs l).*2 = l.
Proof. unfold tag_jobs. rewrite <-list_fmap_compose. apply list_fmap_id. Qed.
#[global] Instance tag_runs_perm : Proper ((≡ₚ) ==> (≡ₚ)) tag_runs.
Proof. intros l1 l2 Hl. unfold tag_runs. by rewrite Hl. Qed.
#[global] Instance tag_jobs_perm : Proper ((≡ₚ) ==> (≡ₚ)) tag_jobs.
Proof. intros l1 l2 Hl. unfold tag_jobs. by rewrite Hl. Qed.
Lemma tag_runs_app l1 l2 : tag_runs (l1 ++ l2) = tag_runs l1 ++ tag_runs l2.
Proof. apply fmap_app. Qed.
Lemma tag_jobs_app l1 l2 : tag_jobs (l1 ++ l2) = tag_jobs l1 ++ tag_jobs l2.
Proof. apply fmap_app. Qed.

Lemma observe_fold rows m T J :
  represents m T J → fits (rows ++ T.*2) →
  represents (foldl (λ m v, at_group (rv_Kind v, rv_Queue v) (λ a, agg_observe a v) m) m rows) (tag_runs rows ++ T) J.
Proof.
  revert m T. induction rows as [|v rows IH]; intros m T Hm Hf; csimpl; [done|].
  assert (fits (v :: with_tag (run_group v) T)) as Hv.
  { eapply fits_submseteq; [|exact Hf]. simpl. apply submseteq_skip, submseteq_inserts_l.
    apply sublist_submseteq, with_tag_sublist. }
  assert (represents (at_group (run_group v) (λ a, agg_observe a v) m) ((run_group v, v) :: T) J) as Hm'.
  { apply (represents_at m T J (run_group v) [v] [] (λ a, agg_observe a v) Hm); [by left|].
    by apply agg_observe_spec. }
  apply (IH _ ((run_group v, v) :: T)) in Hm'.
  - change (tag_runs (v :: rows)) with ((run_group v, v) :: tag_runs rows). by rewrite <-Permutation_middle in Hm'.
  - csimpl. by rewrite <-Permutation_middle.
Qed.

(** The inserts of each group, counted. *)
Lemma count_group_lookup f js m g :
  foldl (count_group f) m js !! g =
  let n := length (with_tag g (tag_jobs (filter (λ r, filter_ok f (j_Kind r) (j_Queue r) = true) js))) in
  if (n =? 0)%nat then m !! g else Some (default 0 (m !! g) + Z.of_nat n).
Proof.
  revert m. induction js as [|r js IH]; intros m; [done|]. cbn [foldl]. rewrite IH. clear IH. cbv zeta.
  rewrite filter_cons. unfold count_group at 1 2. destruct (filter_ok f (j_Kind r) (j_Queue r)); [|done].
  rewrite decide_True by done. set (js' := filter _ js). unfold with_tag, tag_jobs. csimpl. rewrite !filter_cons.
  cbn [fst]. unfold job_group.
  destruct (decide ((j_Kind r, j_Queue r) = g)) as [<-|Hne].
  - rewrite !lookup_insert_eq. csimpl. destruct (length _); simpl; f_equal; lia.
  - by rewrite !lookup_insert_ne by done.
Qed.

Lemma enqueued_fold (J : tagged_jobs) l m T J0 :
  NoDup l.*1 → (∀ g n, (g, n) ∈ l → with_tag g J ≠ [] ∧ n = Z.of_nat (length (with_tag g J))) →
  represents m T J0 →
  represents (foldl (λ m gn, at_group gn.1 (agg_enqueued gn.2) m) m l) T (retag id (tags_in l.*1 J) ++ J0).
Proof.
  revert m J0. induction l as [|[g n] l IH]; intros m J0 Hnd Hl Hm; csimpl; [by rewrite tags_in_nil|].
  csimpl in *. apply NoDup_cons in Hnd as [Hg Hnd]. destruct (Hl g n) as [Hne ->]; [left|].
  rewrite tags_in_cons by done. rewrite <-(assoc_L (++)).
  apply IH; [done|intros g' n' Hin; apply Hl; by right|].
  apply (represents_at m T J0 g [] (with_tag g J) _ Hm); [by right|].
  unfold agg_enqueued, agg_spec. simpl. f_equal. rewrite add64_wrap_l. f_equal. rewrite length_app. lia.
Qed.

Section windows.
Context `{GoLib} `{RowOrder}.

Lemma countEnqueued_lookup d from to f g :
  from < to → countEnqueued d from to f !! g =
  let n := length (with_tag g (tag_jobs (jobs_in f d from to))) in
  if (n =? 0)%nat then None else Some (Z.of_nat n).
Proof.
  intros Hlt. unfold countEnqueued. rewrite (proj2 (Z.ltb_lt _ _)) by done.
  rewrite count_group_lookup, lookup_empty. done.
Qed.

(** What aggregateRuns returns, whatever order the rows come in. *)
Lemma aggregateRuns_spec d from to f :
  from < to → fits (runs_in f d from to) →
  represents (aggregateRuns d from to f) (tag_runs (runs_in f d from to)) (tag_jobs (jobs_in f d from to)).
Proof.
  intros Hlt Hf. unfold aggregateRuns, aggregateWindow. rewrite (proj2 (Z.ltb_lt _ _)) by done. cbn [negb wa_runs].
  set (rows := filter _ (scan (finished_in d from to))).
  assert (rows ≡ₚ runs_in f d from to) as Hr by (unfold rows, runs_in; by rewrite (scan_perm (finished_in d from to))).
  pose proof (observe_fold rows ∅ [] [] represents_empty) as Ho. rewrite !app_nil_r in Ho.
  rewrite <-Hr in Hf. specialize (Ho Hf). rewrite Hr in Ho at 2.
  set (J := tag_jobs (jobs_in f d from to)) in *. set (l := scan (map_to_list (countEnqueued d from to f))).
  assert (l ≡ₚ map_to_list (countEnqueued d from to f)) as Hp by apply scan_perm.
  assert (NoDup l.*1) as Hnd by (rewrite Hp; apply NoDup_fst_map_to_list).
  assert (∀ g n, (g, n) ∈ l → with_tag g J ≠ [] ∧ n = Z.of_nat (length (with_tag g J))) as Hl.
  { intros g n. rewrite Hp, elem_of_map_to_list, countEnqueued_lookup by done. cbv zeta. fold J.
    destruct (Nat.eqb_spec (length (with_tag g J)) 0) as [|Hn]; intros [= <-]. split; [|done].
    intros Hx. by rewrite Hx in Hn. }
  pose proof (enqueued_fold J l _ _ [] Hnd Hl Ho) as He. rewrite app_nil_r in He.
  rewrite tags_in_all in He.
  - assert (retag id J = J) as Hid; [|by rewrite Hid in He]. unfold retag. rewrite <-(list_fmap_id J) at 2.
    apply list_fmap_ext. by intros ? [? ?] _.
  - intros x Hx. rewrite Hp. apply list_elem_of_fmap. exists (x.1, Z.of_nat (length (with_tag x.1 J))).
    split; [done|]. apply elem_of_map_to_list. rewrite countEnqueued_lookup by done. cbv zeta. fold J.
    destruct (Nat.eqb_spec (length (with_tag x.1 J)) 0) as [Hn|]; [|done].
    exfalso. by apply (represents_keys ∅ [] [] J x represents_empty Hx), nil_length_inv.
Qed.
End windows.
