(* ===== verification/RollupWindows.v ===== *)
(** * Windows of runs and inserts, and the probes that skip quiet stretches

    A window is the disjoint union of its parts, however it is cut: finishes by
    their time, inserts by the range their ids sort in. The probes of
    stats_rollup.go (nextActivityAt, prevActivityAt) find the first and the last
    activity of a stretch: what they skip holds neither a finish nor an insert. *)

From S2P Require Import Prelude Types Text Json Fingerprint Store Plan Sweep Retention Ids Hist Maintenance Rollup RollupFacts.

Local Open Scope Z_scope.

(** ** Floors *)

Lemma id_millis_of_mono a b : a ≤ b → id_millis_of a ≤ id_millis_of b.
Proof. intros Hab. unfold id_millis_of, UnixMilli. pose proof (Z.div_le_mono a b millisecond). unfold millisecond in *. lia. Qed.
Lemma idFloor_timed t : idFloor t = timed (id_millis_of t) floor_tail.
Proof. apply idFloor_eq. Qed.
Lemma bytes_le_refl s : bytes_le s s.
Proof. by destruct (base.total bytes_le s s). Qed.
Lemma idFloor_mono a b : a ≤ b → bytes_le (idFloor a) (idFloor b).
Proof.
  intros Hab%id_millis_of_mono. rewrite !idFloor_timed. apply timed_le; [apply id_millis_of_range..|].
  destruct (decide (id_millis_of a = id_millis_of b)); [right; split; [done|apply bytes_le_refl]|left; lia].
Qed.

(** An id whose time can be read and whose tail sorts below no floor's: a UUID's
    does not. *)
Definition id_tail (id : string) : string := String.substring 13 (String.length id - 13) id.
Definition id_shaped (id : string) : bool :=
  match idTime id with Some _ => bool_decide (bytes_le floor_tail (id_tail id)) | None => true end.

Lemma id_shaped_spec id ms rest :
  id_shaped id = true → id = timed ms rest → 0 ≤ ms ≤ maxIDMillis → bytes_le floor_tail rest.
Proof.
  intros Hs -> Hms. unfold id_shaped in Hs. rewrite idTime_timed in Hs by done. apply bool_decide_eq_true in Hs.
  unfold id_tail in Hs. rewrite timed_length in Hs.
  replace (13 + String.length rest - 13)%nat with (String.length rest) in Hs by lia.
  pose proof (substring_suffix (hex_fixed 8 (ms / 65536) +:+ "-" +:+ hex_fixed 4 ms) rest) as He.
  change (String.substring 13 (String.length rest) (timed ms rest) = rest) in He. by rewrite He in Hs.
Qed.

(** ** Cutting a window *)

Lemma omap_cut {A B} (g : A → option B) (p p1 p2 : A → bool) l :
  (∀ x, p x = p1 x || p2 x) → (∀ x, p1 x = true → p2 x = false) →
  omap (λ x, if p x then g x else None) l ≡ₚ
  omap (λ x, if p1 x then g x else None) l ++ omap (λ x, if p2 x then g x else None) l.
Proof.
  intros Hp Hd. induction l as [|x l IH]; [done|]. csimpl. rewrite Hp.
  destruct (p1 x) eqn:E1; simpl.
  - rewrite (Hd x E1). destruct (g x); [|done]. by rewrite IH.
  - destruct (p2 x) eqn:E2; [|done]. destruct (g x); [|done]. rewrite IH. apply Permutation_middle.
Qed.
Lemma filter_cut {A} (p p1 p2 : A → bool) (l : list A) :
  (∀ x, p x = p1 x || p2 x) → (∀ x, p1 x = true → p2 x = false) →
  filter (λ x, p x = true) l ≡ₚ filter (λ x, p1 x = true) l ++ filter (λ x, p2 x = true) l.
Proof.
  intros Hp Hd. induction l as [|x l IH]; [done|]. rewrite !filter_cons, Hp.
  destruct (p1 x) eqn:E1; simpl.
  - rewrite (Hd x E1). simpl. by rewrite IH.
  - destruct (p2 x) eqn:E2; simpl; [|done]. rewrite IH. apply Permutation_middle.
Qed.

Lemma finished_in_split d a b c :
  a ≤ b ≤ c → finished_in d a c ≡ₚ finished_in d a b ++ finished_in d b c.
Proof.
  intros Hab. unfold finished_in. apply (omap_cut (λ e : Z * string, run_view d e.1 <$> job_runs d !! e.2)
    (λ e, in_window a c e.1) (λ e, in_window a b e.1) (λ e, in_window b c e.1)); intros e; unfold in_window; lia.
Qed.
(** [from, to) as a range of ids. *)
Definition inserted_by (from to : Z) (r : jobRow) : bool :=
  bool_decide (bytes_le (idFloor from) (j_ID r)) && str_gt (idFloor to) (j_ID r).
Lemma inserted_in_eq d a b : inserted_in d a b = filter (λ r, inserted_by a b r = true) (map_to_list (jobs d)).*2.
Proof. done. Qed.
Lemma inserted_by_spec a b r :
  inserted_by a b r = true ↔ bytes_le (idFloor a) (j_ID r) ∧ ¬ bytes_le (idFloor b) (j_ID r).
Proof. unfold inserted_by. by rewrite andb_true_iff, bool_decide_eq_true, str_gt_spec. Qed.
Lemma inserted_in_split d a b c :
  a ≤ b ≤ c → inserted_in d a c ≡ₚ inserted_in d a b ++ inserted_in d b c.
Proof.
  intros [Hab%idFloor_mono Hbc%idFloor_mono]. rewrite !inserted_in_eq.
  apply (filter_cut (inserted_by a c) (inserted_by a b) (inserted_by b c)); intros r.
  - apply eq_true_iff_eq. rewrite orb_true_iff, !inserted_by_spec.
    destruct (decide (bytes_le (idFloor b) (j_ID r))) as [Hb|Hb].
    + split; [naive_solver|]. intros [[_ ?]|[_ ?]]; [done|]. split; [by etrans|done].
    + split; [naive_solver|]. intros [[Ha _]|[? _]]; [|done]. split; [done|]. intros Hc. apply Hb. by etrans.
  - rewrite <-not_true_iff_false, !inserted_by_spec. naive_solver.
Qed.
Lemma runs_in_split f d a b c : a ≤ b ≤ c → runs_in f d a c ≡ₚ runs_in f d a b ++ runs_in f d b c.
Proof. intros Hab. unfold runs_in. by rewrite (finished_in_split d a b c Hab), filter_app. Qed.
Lemma jobs_in_split f d a b c : a ≤ b ≤ c → jobs_in f d a c ≡ₚ jobs_in f d a b ++ jobs_in f d b c.
Proof. intros Hab. unfold jobs_in. by rewrite (inserted_in_split d a b c Hab), filter_app. Qed.
Lemma finished_in_none d a b : b ≤ a → finished_in d a b = [].
Proof.
  intros Hab. unfold finished_in. generalize (elements (job_run_finishes d)). intros l.
  induction l as [|e l IH]; [done|]. csimpl. unfold in_window at 1.
  destruct (Z.leb_spec a e.1); simpl; [|done]. destruct (Z.ltb_spec e.1 b); [lia|done].
Qed.
Lemma inserted_in_none d a b : b ≤ a → inserted_in d a b = [].
Proof.
  intros Hab%idFloor_mono. rewrite inserted_in_eq. apply elem_of_nil_inv. intros r.
  rewrite list_elem_of_filter, inserted_by_spec. intros [Hr _]. revert Hr.
  intros [Ha Hb]. apply Hb. by etrans.
Qed.

(** ** Probes *)

Lemma least_spec l :
  match least l with Some x => x ∈ l ∧ ∀ y, y ∈ l → x ≤ y | None => l = [] end.
Proof.
  induction l as [|x l IH]; simpl; [done|]. destruct (least l) as [y|].
  - destruct IH as [Hy Hl]. split.
    + destruct (Z.min_spec x y) as [[_ ->]|[_ ->]]; [by left|by right].
    + intros z [->|Hz]%elem_of_cons; [lia|]. specialize (Hl z Hz). lia.
  - subst. split; [by left|]. intros z [->|[]%elem_of_nil]%elem_of_cons. lia.
Qed.
Lemma greatest_spec l :
  match greatest l with Some x => x ∈ l ∧ ∀ y, y ∈ l → y ≤ x | None => l = [] end.
Proof.
  induction l as [|x l IH]; simpl; [done|]. destruct (greatest l) as [y|].
  - destruct IH as [Hy Hl]. split.
    + destruct (Z.max_spec x y) as [[_ ->]|[_ ->]]; [by right|by left].
    + intros z [->|Hz]%elem_of_cons; [lia|]. specialize (Hl z Hz). lia.
  - subst. split; [by left|]. intros z [->|[]%elem_of_nil]%elem_of_cons. lia.
Qed.

Lemma finished_in_nil d a b : (∀ t, t ∈ finish_times d → a ≤ t → t < b → False) → finished_in d a b = [].
Proof.
  unfold finished_in, finish_times. generalize (elements (job_run_finishes d)). intros l Hl.
  induction l as [|e l IH]; [done|]. csimpl in *. unfold in_window at 1.
  destruct (Z.leb_spec a e.1), (Z.ltb_spec e.1 b); simpl; try (apply IH; intros t Ht; apply Hl; by right).
  exfalso. apply (Hl e.1); [by left|done..].
Qed.
Lemma nextFinishedAt_spec d from :
  match nextFinishedAt d from with
  | Some t => from ≤ t ∧ ∀ x, x ∈ finish_times d → from ≤ x → t ≤ x
  | None => ∀ x, x ∈ finish_times d → ¬ from ≤ x
  end.
Proof.
  unfold nextFinishedAt. pose proof (least_spec (filter (λ t, from ≤ t) (finish_times d))) as Hs.
  destruct (least _).
  - destruct Hs as [[Hf _]%list_elem_of_filter Hs]. split; [done|]. intros x Hx Hle. apply Hs.
    by apply list_elem_of_filter.
  - intros x Hx Hle. assert (x ∈ filter (λ t, from ≤ t) (finish_times d)) as Hin by by apply list_elem_of_filter.
    rewrite Hs in Hin. by apply elem_of_nil in Hin.
Qed.
Lemma prevFinishedAt_spec d lo hi :
  match prevFinishedAt d lo hi with
  | Some t => lo ≤ t < hi ∧ ∀ x, x ∈ finish_times d → lo ≤ x < hi → x ≤ t
  | None => ∀ x, x ∈ finish_times d → ¬ lo ≤ x < hi
  end.
Proof.
  unfold prevFinishedAt. pose proof (greatest_spec (filter (λ t, lo ≤ t ∧ t < hi) (finish_times d))) as Hs.
  destruct (greatest _).
  - destruct Hs as [[Hf _]%list_elem_of_filter Hs]. split; [done|]. intros x Hx Hle. apply Hs.
    by apply list_elem_of_filter.
  - intros x Hx Hle. assert (x ∈ filter (λ t, lo ≤ t ∧ t < hi) (finish_times d)) as Hin by by apply list_elem_of_filter.
    rewrite Hs in Hin. by apply elem_of_nil in Hin.
Qed.

Lemma job_ids_in_elem d a b id :
  id ∈ job_ids_in d a b ↔ a < b ∧ ∃ r, r ∈ inserted_in d a b ∧ j_ID r = id.
Proof.
  unfold job_ids_in. destruct (Z.ltb_spec a b).
  - rewrite (merge_sort_Permutation bytes_le), list_elem_of_fmap. naive_solver.
  - split; [by intros ?%elem_of_nil|lia].
Qed.
Lemma job_ids_in_nil d a b : job_ids_in d a b = [] → inserted_in d a b = [].
Proof.
  intros Hn. destruct (Z.ltb_spec a b); [|by apply inserted_in_none].
  apply elem_of_nil_inv. intros r Hr. apply (not_elem_of_nil (j_ID r)). rewrite <-Hn.
  apply job_ids_in_elem. eauto.
Qed.
Lemma job_ids_in_head d a b id :
  head (job_ids_in d a b) = Some id → id ∈ job_ids_in d a b ∧ ∀ y, y ∈ job_ids_in d a b → bytes_le id y.
Proof.
  intros (l & Hl)%head_Some. rewrite Hl. split; [by left|].
  assert (StronglySorted bytes_le (job_ids_in d a b)) as Hs.
  { unfold job_ids_in. case_match; [apply (StronglySorted_merge_sort bytes_le)|constructor]. }
  rewrite Hl in Hs. apply StronglySorted_inv in Hs as [_ Hs]. rewrite Forall_forall in Hs.
  intros y [->|Hy]%elem_of_cons; [apply bytes_le_refl|by apply Hs].
Qed.
Lemma job_ids_in_last d a b id :
  last (job_ids_in d a b) = Some id → id ∈ job_ids_in d a b ∧ ∀ y, y ∈ job_ids_in d a b → bytes_le y id.
Proof.
  intros (l & Hl)%last_Some. rewrite Hl. split; [apply elem_of_app; right; by left|].
  assert (StronglySorted bytes_le (job_ids_in d a b)) as Hs.
  { unfold job_ids_in. case_match; [apply (StronglySorted_merge_sort bytes_le)|constructor]. }
  rewrite Hl in Hs. intros y [Hy|Hy]%elem_of_app; [|apply list_elem_of_singleton in Hy as ->; apply bytes_le_refl].
  eapply StronglySorted_app_1_elem_of; [exact Hs|done|by left].
Qed.

(** What an id in a range says of its time. *)
Lemma ranged_id_ge a b id ms rest :
  bytes_le (idFloor a) id → ¬ bytes_le (idFloor b) id → a ≤ b → id = timed ms rest → 0 ≤ ms ≤ maxIDMillis →
  UnixMilli a ≤ ms.
Proof.
  intros Ha Hb Hab -> Hms. rewrite idFloor_timed, timed_le in Ha by (try apply id_millis_of_range; done).
  assert (¬ (id_millis_of b ≤ id_millis_of a)) as Hn.
  { intros Hle. assert (id_millis_of a = id_millis_of b) as He by (apply id_millis_of_mono in Hab; lia).
    apply Hb. rewrite idFloor_timed, <-He. by apply timed_le; [apply id_millis_of_range|..]. }
  pose proof (id_millis_of_range b). unfold id_millis_of in *. lia.
Qed.
Lemma ranged_id_lt b id ms rest :
  ¬ bytes_le (idFloor b) id → id_shaped id = true → id = timed ms rest → 0 ≤ ms ≤ maxIDMillis → ms < UnixMilli b.
Proof.
  intros Hb Hs Hid Hms. pose proof (id_shaped_spec _ _ _ Hs Hid Hms) as Ht. subst id.
  destruct (Z.le_gt_cases (id_millis_of b) ms) as [Hle|Hlt].
  - destruct Hb. rewrite idFloor_timed, timed_le by (try apply id_millis_of_range; done).
    destruct (decide (id_millis_of b = ms)); [by right|left; lia].
  - unfold id_millis_of in Hlt. lia.
Qed.
Lemma shaped_floor_le id ms rest :
  id_shaped id = true → id = timed ms rest → 0 ≤ ms ≤ maxIDMillis → bytes_le (idFloor (ms * millisecond)) id.
Proof.
  intros Hs Hid Hms. pose proof (id_shaped_spec _ _ _ Hs Hid Hms) as Ht. subst id.
  assert (id_millis_of (ms * millisecond) = ms) as He.
  { unfold id_millis_of, UnixMilli. rewrite Z.div_mul by done. lia. }
  rewrite idFloor_timed, He. apply timed_le; [done..|]. by right.
Qed.

(** Nothing finished and nothing was inserted in [a, b). *)
Definition inactive (d : db) (a b : Z) : Prop := finished_in d a b = [] ∧ inserted_in d a b = [].
Definition ids_shaped (d : db) : Prop := ∀ id r, jobs d !! id = Some r → id_shaped (j_ID r) = true.

Lemma inserted_in_shaped d a b r : ids_shaped d → r ∈ inserted_in d a b → id_shaped (j_ID r) = true.
Proof.
  intros Hs. unfold inserted_in. rewrite list_elem_of_filter, list_elem_of_fmap.
  intros [_ ([id r'] & -> & Hin%elem_of_map_to_list)]. by eapply Hs.
Qed.
Lemma inserted_in_elem d a b r :
  r ∈ inserted_in d a b ↔ inserted_by a b r = true ∧ r ∈ (map_to_list (jobs d)).*2.
Proof. by rewrite inserted_in_eq, list_elem_of_filter. Qed.
Lemma quiet_none d a b : b ≤ a → inactive d a b.
Proof. intros Hab. split; [by apply finished_in_none|by apply inserted_in_none]. Qed.
Lemma quiet_app d a b c : a ≤ b ≤ c → inactive d a b → inactive d b c → inactive d a c.
Proof.
  intros Hab [H1 H2] [H3 H4]. split; apply Permutation_nil_r.
  - by rewrite (finished_in_split d a b c), H1, H3.
  - by rewrite (inserted_in_split d a b c), H2, H4.
Qed.
Lemma quiet_sub d a b c e : a ≤ b ≤ c → c ≤ e → inactive d a e → inactive d b c.
Proof.
  intros Hab Hce [H1 H2]. split.
  - apply Permutation_nil_r. assert (finished_in d a e ≡ₚ []) as Hn by by rewrite H1.
    rewrite (finished_in_split d a b e), (finished_in_split d b c e) in Hn by lia.
    apply Permutation_nil_r in Hn. by apply app_nil in Hn as [_ [-> _]%app_nil].
  - apply Permutation_nil_r. assert (inserted_in d a e ≡ₚ []) as Hn by by rewrite H2.
    rewrite (inserted_in_split d a b e), (inserted_in_split d b c e) in Hn by lia.
    apply Permutation_nil_r in Hn. by apply app_nil in Hn as [_ [-> _]%app_nil].
Qed.

(** The id's range, and what its time says, of a probed id. *)
Lemma probed_id d a b id :
  id ∈ job_ids_in d a b →
  a < b ∧ bytes_le (idFloor a) id ∧ ¬ bytes_le (idFloor b) id ∧ (ids_shaped d → id_shaped id = true).
Proof.
  rewrite job_ids_in_elem. intros [Hab (r & Hr & <-)]. split; [done|].
  pose proof Hr as [[? ?]%inserted_by_spec _]%inserted_in_elem. split; [done|]. split; [done|].
  intros Hs. by eapply inserted_in_shaped.
Qed.

(** The bound of the insert probe. *)
Definition next_bound (d : db) (from hi : Z) : Z :=
  match nextFinishedAt d from with Some t => if t <? hi then t else hi | None => hi end.
Lemma next_bound_finishes d from hi t :
  t ∈ finish_times d → from ≤ t → next_bound d from hi ≤ t ∨ hi ≤ t.
Proof.
  intros Ht Hle. unfold next_bound. pose proof (nextFinishedAt_spec d from) as Hn.
  destruct (nextFinishedAt d from) as [x|]; [|by destruct (Hn t)].
  destruct Hn as [_ Hn]. specialize (Hn t Ht Hle). destruct (Z.ltb_spec x hi); lia.
Qed.

(** nextActivityAt skips nothing. *)
Lemma nextActivityAt_skips d from hi :
  ids_shaped d → inactive d from (match nextActivityAt d from hi with Some t => Z.min t hi | None => hi end).
Proof.
  intros Hs. unfold nextActivityAt. fold (next_bound d from hi). cbv zeta.
  destruct (head (job_ids_in d from (next_bound d from hi))) as [id|] eqn:Eh.
  - destruct (job_ids_in_head _ _ _ _ Eh) as [Hin Hmin].
    destruct (probed_id _ _ _ _ Hin) as (Hlt & Hge & Hle & Hsh). specialize (Hsh Hs).
    destruct (idTime id) as [t|] eqn:Et; simpl; [|apply quiet_none; lia].
    apply idTime_Some in Et as (ms & rest & Hid & Hms & ->).
    pose proof (ranged_id_lt _ _ _ _ Hle Hsh Hid Hms) as Hb.
    assert (ms * millisecond < next_bound d from hi) as Hb'.
    { unfold UnixMilli in Hb. pose proof (Z.mul_div_le (next_bound d from hi) millisecond). unfold millisecond in *. nia. }
    assert (next_bound d from hi ≤ hi) as Hbh.
    { unfold next_bound. destruct (nextFinishedAt d from); [|lia]. destruct (Z.ltb_spec z hi); lia. }
    split.
    + apply finished_in_nil. intros t Ht Ha Hb2. destruct (next_bound_finishes d from hi t Ht Ha); lia.
    + apply elem_of_nil_inv. intros r [[Hra Hrb]%inserted_by_spec Hr]%inserted_in_elem. apply Hrb.
      destruct (decide (bytes_le (idFloor (next_bound d from hi)) (j_ID r))) as [Hx|Hx].
      * etrans; [|exact Hx]. apply idFloor_mono. lia.
      * etrans; [apply (idFloor_mono _ (ms * millisecond)); lia|].
        etrans; [by apply (shaped_floor_le id ms rest)|]. apply Hmin. apply job_ids_in_elem.
        split; [done|]. exists r. split; [|done]. apply inserted_in_elem. split; [|done]. by apply inserted_by_spec.
  - assert (inserted_in d from (next_bound d from hi) = []) as Hi.
    { apply job_ids_in_nil. by destruct (job_ids_in _ _ _). }
    unfold next_bound in Hi. pose proof (nextFinishedAt_spec d from) as Hn.
    destruct (nextFinishedAt d from) as [t|].
    + destruct Hn as [_ Hn]. split.
      * apply finished_in_nil. intros x Hx Ha Hb. specialize (Hn x Hx Ha). lia.
      * destruct (Z.ltb_spec t hi); [by rewrite Z.min_l by lia|by rewrite Z.min_r by lia].
    + split; [|done]. apply finished_in_nil. intros x Hx Ha _. by apply (Hn x).
Qed.

(** A millisecond boundary: hours are. *)
Definition aligned (t : Z) : Prop := (hour | t).
Lemma aligned_ms t : aligned t → t = UnixMilli t * millisecond.
Proof.
  intros [k ->]. unfold UnixMilli. assert (hour = 3600000 * millisecond) as -> by done.
  by rewrite Z.mul_assoc, Z.div_mul by done.
Qed.

(** It never steps back, so a walk advances. *)
Lemma nextActivityAt_ge d from hi t : aligned from → nextActivityAt d from hi = Some t → from ≤ t.
Proof.
  intros Ha. unfold nextActivityAt. fold (next_bound d from hi). cbv zeta.
  destruct (head (job_ids_in d from (next_bound d from hi))) as [id|] eqn:Eh.
  - destruct (job_ids_in_head _ _ _ _ Eh) as [Hin _].
    destruct (probed_id _ _ _ _ Hin) as (Hlt & Hge & Hle & _). intros [= <-].
    destruct (idTime id) as [t|] eqn:Et; simpl; [|lia].
    apply idTime_Some in Et as (ms & rest & Hid & Hms & ->).
    pose proof (ranged_id_ge from _ id ms rest Hge Hle ltac:(lia) Hid Hms) as Hm.
    rewrite (aligned_ms _ Ha). apply Z.mul_le_mono_nonneg_r; [done|lia].
  - intros Hn. pose proof (nextFinishedAt_spec d from) as Hs. rewrite Hn in Hs. apply Hs.
Qed.

(** ** Hours *)

Lemma hour_pos : 0 < hour.
Proof. done. Qed.
Lemma floorHour_spec t : aligned (floorHour t) ∧ floorHour t ≤ t < floorHour t + hour.
Proof.
  unfold floorHour, aligned. split; [by exists (t / hour)|].
  pose proof (Z.div_mod t hour). pose proof (Z.mod_pos_bound t hour). pose proof hour_pos. lia.
Qed.
Lemma aligned_add t : aligned t → aligned (t + hour).
Proof. intros [k ->]. exists (k + 1). lia. Qed.
Lemma aligned_sub t : aligned t → aligned (t - hour).
Proof. intros [k ->]. exists (k - 1). lia. Qed.
Lemma aligned_lt a b : aligned a → aligned b → a < b → a + hour ≤ b.
Proof.
  intros [i ->] [j ->] Hlt. pose proof hour_pos. apply Z.mul_lt_mono_pos_r in Hlt; [|done].
  replace (i * hour + hour) with ((i + 1) * hour) by lia. apply Z.mul_le_mono_nonneg_r; lia.
Qed.
Lemma floorHour_ge a t : aligned a → a ≤ t → a ≤ floorHour t.
Proof.
  intros Ha Hle. destruct (floorHour_spec t) as [Hf Ht]. destruct (Z.le_gt_cases a (floorHour t)); [done|].
  pose proof (aligned_lt _ _ Hf Ha). lia.
Qed.
Lemma floorHour_aligned a : aligned a → floorHour a = a.
Proof. intros Ha. pose proof (floorHour_ge a a Ha). pose proof (floorHour_spec a). lia. Qed.
Lemma ceilHour_spec t : aligned (ceilHour t) ∧ t ≤ ceilHour t < t + hour.
Proof.
  unfold ceilHour. destruct (floorHour_spec t) as [Ha Ht]. destruct (Z.ltb_spec (floorHour t) t).
  - split; [by apply aligned_add|lia].
  - pose proof hour_pos. split; [done|lia].
Qed.

(** ** The backward probe *)

Definition prev_floor (d : db) (lo hi : Z) : Z :=
  match prevFinishedAt d lo hi with Some t => if lo <? t then t else lo | None => lo end.

(** prevActivityAt's hour is inside the stretch. *)
Lemma prevActivityAt_ge d lo hi t :
  aligned lo → aligned hi → lo < hi → prevActivityAt d lo hi = Some t → lo ≤ floorHour t.
Proof.
  intros Hal Hah Hlt. unfold prevActivityAt. fold (prev_floor d lo hi). cbv zeta.
  destruct (last (job_ids_in d (prev_floor d lo hi) hi)) as [id|] eqn:Eh.
  - destruct (job_ids_in_last _ _ _ _ Eh) as [Hin _].
    destruct (probed_id _ _ _ _ Hin) as (Hlt' & Hge & Hle & _). intros [= <-]. apply floorHour_ge; [done|].
    destruct (idTime id) as [t|] eqn:Et; simpl; [|pose proof (aligned_lt lo hi Hal Hah Hlt); lia].
    apply idTime_Some in Et as (ms & rest & Hid & Hms & ->).
    assert (lo ≤ prev_floor d lo hi) as Hlo.
    { unfold prev_floor. destruct (prevFinishedAt d lo hi); [|lia]. destruct (Z.ltb_spec lo z); lia. }
    assert (bytes_le (idFloor lo) id) as Hge' by (etrans; [by apply idFloor_mono|done]).
    pose proof (ranged_id_ge lo _ id ms rest Hge' Hle ltac:(lia) Hid Hms) as Hm.
    rewrite (aligned_ms _ Hal). apply Z.mul_le_mono_nonneg_r; [done|lia].
  - intros Hp. apply floorHour_ge; [done|]. pose proof (prevFinishedAt_spec d lo hi) as Hs. rewrite Hp in Hs. destruct Hs as [Hs _]. lia.
Qed.
Lemma prevActivityAt_lt d lo hi t :
  ids_shaped d → aligned hi → prevActivityAt d lo hi = Some t → floorHour t < hi.
Proof.
  intros Hs Hah Hp. destruct (floorHour_spec t) as [_ Ht]. enough (t < hi) by lia. revert Hp. clear Ht.
  unfold prevActivityAt. fold (prev_floor d lo hi). cbv zeta.
  destruct (last (job_ids_in d (prev_floor d lo hi) hi)) as [id|] eqn:Eh.
  - destruct (job_ids_in_last _ _ _ _ Eh) as [Hin _].
    destruct (probed_id _ _ _ _ Hin) as (Hlt & _ & Hle & Hsh). specialize (Hsh Hs). intros [= <-].
    destruct (idTime id) as [t|] eqn:Et; simpl; [|pose proof hour_pos; lia].
    apply idTime_Some in Et as (ms & rest & Hid & Hms & ->).
    pose proof (ranged_id_lt _ _ _ _ Hle Hsh Hid Hms) as Hb. rewrite (aligned_ms _ Hah).
    apply Z.mul_lt_mono_pos_r; [done|lia].
  - intros Hp. pose proof (prevFinishedAt_spec d lo hi) as Hq. rewrite Hp in Hq. destruct Hq as [Hq _]. lia.
Qed.

(** prevActivityAt skips nothing above its hour. *)
Lemma prevActivityAt_skips d lo hi :
  ids_shaped d → aligned lo → aligned hi → lo < hi →
  inactive d (match prevActivityAt d lo hi with Some t => floorHour t + hour | None => lo end) hi.
Proof.
  intros Hs Hal Hah Hlt. pose proof (prevActivityAt_ge d lo hi) as Hge0. unfold prevActivityAt in *.
  fold (prev_floor d lo hi) in *. cbv zeta in *.
  pose proof (prevFinishedAt_spec d lo hi) as Hpf.
  destruct (last (job_ids_in d (prev_floor d lo hi) hi)) as [id|] eqn:Eh.
  - destruct (job_ids_in_last _ _ _ _ Eh) as [Hin Hmax].
    destruct (probed_id _ _ _ _ Hin) as (Hlt' & Hge & Hle & Hsh). specialize (Hsh Hs).
    destruct (idTime id) as [t|] eqn:Et; simpl in *.
    2:{ rewrite (floorHour_aligned (hi - hour)) by by apply aligned_sub. apply quiet_none. lia. }
    specialize (Hge0 t Hal Hah Hlt eq_refl). destruct (floorHour_spec t) as [Hha Ht].
    pose proof (aligned_add _ Hha) as Hha'. set (x := floorHour t + hour) in *.
    apply idTime_Some in Et as (ms & rest & Hid & Hms & ->).
    pose proof (ranged_id_ge _ _ id ms rest Hge Hle ltac:(lia) Hid Hms) as Hm.
    assert (ms < UnixMilli x) as Hx.
    { destruct Ht as [_ Ht]. rewrite (aligned_ms _ Hha') in Ht. by apply Z.mul_lt_mono_pos_r in Ht. }
    assert (prev_floor d lo hi < x) as Hfx.
    { rewrite (aligned_ms _ Hha'). unfold UnixMilli at 1 in Hm.
      pose proof (Z.div_mod (prev_floor d lo hi) millisecond ltac:(done)).
      pose proof (Z.mod_pos_bound (prev_floor d lo hi) millisecond ltac:(done)). nia. }
    split.
    + apply finished_in_nil. intros y Hy Hy1 Hy2. unfold prev_floor in Hfx.
      destruct (prevFinishedAt d lo hi) as [p|]; [|apply (Hpf y); [done|unfold x in *; pose proof hour_pos; lia]].
      destruct Hpf as [_ Hpf]. specialize (Hpf y Hy). destruct (Z.ltb_spec lo p); pose proof hour_pos; unfold x in *; lia.
    + apply elem_of_nil_inv. intros r Hr. pose proof Hr as [[Hra Hrb]%inserted_by_spec Hr']%inserted_in_elem.
      assert (bytes_le (j_ID r) id) as Hrid.
      { apply Hmax. apply job_ids_in_elem. split; [done|]. exists r. split; [|done]. apply inserted_in_elem.
        split; [|done]. apply inserted_by_spec. split; [|done]. etrans; [apply (idFloor_mono _ x); lia|done]. }
      assert (bytes_le (idFloor x) id) as Hxid by by etrans.
      assert (x ≤ hi) as Hxh.
      { destruct (Z.le_gt_cases x hi) as [?|Hgt]; [done|]. destruct Hrb. etrans; [|exact Hra].
        apply idFloor_mono. lia. }
      pose proof (ranged_id_ge x hi id ms rest Hxid Hle Hxh Hid Hms). lia.
  - assert (inserted_in d (prev_floor d lo hi) hi = []) as Hi.
    { apply job_ids_in_nil. by destruct (job_ids_in d (prev_floor d lo hi) hi) using rev_ind; [|rewrite last_snoc in Eh]. }
    destruct (prevFinishedAt d lo hi) as [p|] eqn:Ep.
    + destruct Hpf as [Hp Hpf]. destruct (floorHour_spec p) as [Hha Ht]. split.
      * apply finished_in_nil. intros y Hy Hy1 Hy2. specialize (Hge0 p Hal Hah Hlt eq_refl).
        specialize (Hpf y Hy). pose proof hour_pos. lia.
      * assert (prev_floor d lo hi ≤ floorHour p + hour) as Hle.
        { unfold prev_floor. rewrite Ep. specialize (Hge0 p Hal Hah Hlt eq_refl). pose proof hour_pos.
          destruct (Z.ltb_spec lo p); lia. }
        destruct (Z.le_gt_cases hi (floorHour p + hour)); [by apply inserted_in_none|].
        apply Permutation_nil_r. assert (inserted_in d (prev_floor d lo hi) hi ≡ₚ []) as Hn by by rewrite Hi.
        rewrite (inserted_in_split d _ (floorHour p + hour) hi) in Hn by lia.
        apply Permutation_nil_r, app_nil in Hn as [_ ->]. done.
    + unfold prev_floor in Hi. rewrite Ep in Hi. split; [|done]. apply finished_in_nil.
      intros y Hy Hy1 Hy2. by apply (Hpf y).
Qed.
