(* ===== verification/GroupFacts.v ===== *)
(** * Error groups as sets of failures

    What a group says of a list of failed runs, whether it was observed run by run,
    merged from parts, or read back from a stored hour, where the first and last run
    are known only by their hour. *)

From S2P Require Import Prelude Types Text Json Fingerprint Store Plan Sweep Retention Ids Hist Maintenance Rollup RollupFacts RollupWindows.

Local Open Scope Z_scope.

(** ** Failures *)

Definition failing (v : runView) : bool := negb (rv_Sup v) && failedOutcome (rv_Outcome v).
Definition class_of (v : runView) : ErrorClass := default (ErrorClassOther "") (rv_ErrorClass v).
Definition message_of (v : runView) : string := default "" (rv_Message v).
Definition exact_ref (v : runView) : runRef := {| rr_At := rv_FinishedAt v; rr_ID := rv_ID v; rr_exact := true |}.
Definition discards (v : runView) : bool := bool_decide (rv_JobState v = Some StateDiscarded).
Definition hour_of (v : runView) : Z := floorHour (rv_FinishedAt v).

(** Failures are told apart by their finish and id. *)
Definition told_apart (l : list runView) : Prop :=
  ∀ u v, u ∈ l → v ∈ l → rv_FinishedAt u = rv_FinishedAt v → rv_ID u = rv_ID v → u = v.
Definition is_first (l : list runView) (v : runView) : Prop :=
  v ∈ l ∧ ∀ u, u ∈ l → ref_before (exact_ref u) (exact_ref v) = false.
Definition is_last (l : list runView) (v : runView) : Prop :=
  v ∈ l ∧ ∀ u, u ∈ l → ref_before (exact_ref v) (exact_ref u) = false.
(** A reference names a run by its finish, or, when it need not be exact, by its hour. *)
Definition sights (ex : bool) (ref : runRef) (v : runView) : Prop :=
  rr_ID ref = rv_ID v ∧
  ((rr_exact ref = true ∧ rr_At ref = rv_FinishedAt v) ∨ (ex = false ∧ rr_exact ref = false ∧ rr_At ref = hour_of v)).

Record group_of (ex : bool) (k : (string * string)) (l : list runView) (g : errorGroupAgg) : Prop := {
  go_kind : eg_Kind g = k.1;
  go_fp : eg_Fingerprint g = k.2;
  go_failures : eg_Failures g = wrap64 (Z.of_nat (length l));
  go_discarded : eg_Discarded g = wrap64 (sum_of (λ v, one_if (discards v)) l);
  go_hourly : ∀ h, default 0 (eg_hourly g !! h) = wrap64 (sum_of (λ v, one_if (bool_decide (hour_of v = h))) l);
  go_first : l ≠ [] → ∃ v, is_first l v ∧ sights ex (eg_First g) v;
  go_last : l ≠ [] → ∃ v, is_last l v ∧ sights ex (eg_Last g) v ∧ eg_ErrorClass g = class_of v ∧
    eg_Sample g = truncate (message_of v) maxSampleMessage
}.

(** ** The order of sightings *)

Lemma str_gt_trans a b c : str_gt a b = true → str_gt b c = true → str_gt a c = true.
Proof.
  unfold str_gt. rewrite !negb_true_iff, !bool_decide_eq_false. intros H1 H2 H3.
  destruct (base.total bytes_le b a) as [H4|H4]; [|done]. apply H2. by trans a.
Qed.
Lemma str_gt_irrefl a : str_gt a a = false.
Proof. unfold str_gt. apply negb_false_iff, bool_decide_eq_true. by destruct (base.total bytes_le a a). Qed.
Lemma ref_before_irrefl r : ref_before r r = false.
Proof. unfold ref_before. rewrite str_gt_irrefl. lia. Qed.
Lemma ref_before_trans a b c : ref_before a b = true → ref_before b c = true → ref_before a c = true.
Proof.
  unfold ref_before. rewrite !orb_true_iff, !andb_true_iff, !Z.ltb_lt, !Z.eqb_eq.
  intros [?|[? H1]] [?|[? H2]]; [left; lia..|]. right. split; [lia|]. by eapply str_gt_trans.
Qed.
Lemma ref_before_total a b :
  ref_before a b = false → ref_before b a = false → rr_At a = rr_At b ∧ rr_ID a = rr_ID b.
Proof.
  unfold ref_before. rewrite !orb_false_iff, !andb_false_iff, !Z.ltb_ge, !Z.eqb_neq. intros [? Ha] [? Hb].
  assert (rr_At a = rr_At b) as E by lia. split; [done|].
  destruct Ha as [?|Ha]; [done|]. destruct Hb as [?|Hb]; [lia|]. unfold str_gt in *.
  rewrite negb_false_iff, bool_decide_eq_true in Ha, Hb. by apply (anti_symm bytes_le).
Qed.
Lemma ref_before_asym a b : ref_before a b = true → ref_before b a = false.
Proof.
  intros H1. destruct (ref_before b a) eqn:H2; [|done]. pose proof (ref_before_trans _ _ _ H1 H2) as H3.
  by rewrite ref_before_irrefl in H3.
Qed.
(** not before is transitive *)
Lemma ref_le_trans a b c : ref_before b a = false → ref_before c b = false → ref_before c a = false.
Proof.
  intros H1 H2. destruct (ref_before c a) eqn:E; [|done]. destruct (ref_before a b) eqn:Eab.
  - pose proof (ref_before_trans _ _ _ E Eab). congruence.
  - destruct (ref_before_total _ _ Eab H1) as [Et Ei]. unfold ref_before in *. rewrite Et, Ei in E. congruence.
Qed.

(** Sightings in different hours, or exact ones, compare as their runs do. *)
Lemma sights_before ex r1 u r2 v :
  sights ex r1 u → sights ex r2 v → ex = true ∨ hour_of u ≠ hour_of v →
  ref_before r1 r2 = ref_before (exact_ref u) (exact_ref v).
Proof.
  intros [I1 S1] [I2 S2] Hh.
  assert (rr_At r1 = rv_FinishedAt u ∧ rr_At r2 = rv_FinishedAt v ∨ hour_of u ≠ hour_of v) as [[E1 E2]|Hne].
  { destruct Hh as [->|?]; [|by right]. left. naive_solver. }
  { unfold ref_before. cbn. by rewrite E1, E2, I1, I2. }
  unfold hour_of in *. destruct (floorHour_spec (rv_FinishedAt u)) as [[i Hi] ?], (floorHour_spec (rv_FinishedAt v)) as [[j Hj] ?].
  pose proof hour_pos.
  assert (floorHour (rv_FinishedAt u) ≤ rr_At r1 ≤ rv_FinishedAt u) by (destruct S1 as [[_ ->]|(_ & _ & ->)]; lia).
  assert (floorHour (rv_FinishedAt v) ≤ rr_At r2 ≤ rv_FinishedAt v) by (destruct S2 as [[_ ->]|(_ & _ & ->)]; lia).
  unfold ref_before. cbn. destruct (Z.lt_trichotomy i j) as [Hij|[->|Hij]]; [|congruence|].
  - assert (i * hour + hour ≤ j * hour) by nia. replace (rr_At r1 <? rr_At r2) with true by lia.
    by replace (rv_FinishedAt u <? rv_FinishedAt v) with true by lia.
  - assert (j * hour + hour ≤ i * hour) by nia. replace (rr_At r1 <? rr_At r2) with false by lia.
    replace (rv_FinishedAt u <? rv_FinishedAt v) with false by lia.
    replace (rr_At r1 =? rr_At r2) with false by lia. by replace (rv_FinishedAt u =? rv_FinishedAt v) with false by lia.
Qed.
Lemma is_first_app l1 l2 u v :
  is_first l1 u → is_first l2 v → is_first (l1 ++ l2) (if ref_before (exact_ref v) (exact_ref u) then v else u).
Proof.
  intros [Hu Hlu] [Hv Hlv]. destruct (ref_before _ _) eqn:E; split; try (apply elem_of_app; auto; fail);
    intros w [Hw|Hw]%elem_of_app; auto.
  - apply (ref_le_trans _ (exact_ref u)); [by apply ref_before_asym|auto].
  - apply (ref_le_trans _ (exact_ref v)); auto.
Qed.
Lemma is_last_app l1 l2 u v :
  is_last l1 u → is_last l2 v → is_last (l1 ++ l2) (if ref_before (exact_ref u) (exact_ref v) then v else u).
Proof.
  intros [Hu Hlu] [Hv Hlv]. destruct (ref_before _ _) eqn:E; split; try (apply elem_of_app; auto; fail);
    intros w [Hw|Hw]%elem_of_app; auto.
  - apply (ref_le_trans _ (exact_ref u)); [auto|by apply ref_before_asym].
  - apply (ref_le_trans _ (exact_ref v)); auto.
Qed.

(** ** Merging *)

Definition separated (l1 l2 : list runView) : Prop := ∀ u v, u ∈ l1 → v ∈ l2 → hour_of u ≠ hour_of v.

Lemma merge_hourly_lookup m o h :
  default 0 (merge_hourly m o !! h) = match o !! h with Some n => add64 (default 0 (m !! h)) n | None => default 0 (m !! h) end.
Proof.
  unfold merge_hourly. apply (map_fold_weak_ind (λ acc o, default 0 (acc !! h) =
    match o !! h with Some n => add64 (default 0 (m !! h)) n | None => default 0 (m !! h) end)); [by rewrite lookup_empty|].
  intros i n o' acc Hi IH. unfold add_hour. destruct (decide (i = h)) as [->|Hne].
  - rewrite !lookup_insert_eq. cbn. by rewrite IH, Hi.
  - by rewrite !lookup_insert_ne.
Qed.

Lemma failures_count ex k l g :
  group_of ex k l g → Z.of_nat (length l) ≤ int64_max → eg_Failures g = Z.of_nat (length l).
Proof. intros Hg Hl. rewrite (go_failures _ _ _ _ Hg). apply wrap64_id. unfold in_int64, int64_min in *. lia. Qed.
Lemma group_of_perm ex k l1 l2 g : l1 ≡ₚ l2 → group_of ex k l1 g → group_of ex k l2 g.
Proof.
  intros Hl [H1 H2 H3 H4 H5 H6 H7]. split; [done|done|by rewrite <-Hl|by rewrite <-Hl|intros h; by rewrite <-Hl|..]; intros Hne.
  - destruct H6 as (v & [Hv Hlv] & Hs); [intros ->; by apply Permutation_nil_l in Hl|]. exists v. split; [|done].
    split; [by rewrite <-Hl|]. intros u Hu. apply Hlv. by rewrite Hl.
  - destruct H7 as (v & [Hv Hlv] & Hs); [intros ->; by apply Permutation_nil_l in Hl|]. exists v. split; [|done].
    split; [by rewrite <-Hl|]. intros u Hu. apply Hlv. by rewrite Hl.
Qed.
Lemma group_of_new ex k : group_of ex k [] (newErrorGroupAgg k.1 k.2).
Proof. by split. Qed.

Lemma group_merge_of ex k l1 l2 g1 g2 :
  group_of ex k l1 g1 → group_of ex k l2 g2 → ex = true ∨ separated l1 l2 →
  Z.of_nat (length (l1 ++ l2)) ≤ int64_max → group_of ex k (l1 ++ l2) (group_merge g1 g2).
Proof.
  intros G1 G2 Hsep Hlen. rewrite length_app in Hlen. unfold group_merge.
  rewrite (failures_count _ _ _ _ G2), (failures_count _ _ _ _ G1) by lia.
  destruct (Z.eqb_spec (Z.of_nat (length l2)) 0) as [E|E].
  { destruct l2; [|done]. by rewrite app_nil_r. }
  assert (l2 ≠ []) as Hl2 by (intros ->; done).
  destruct (go_first _ _ _ _ G2 Hl2) as (v1 & Hv1 & Sv1). destruct (go_last _ _ _ _ G2 Hl2) as (v2 & Hv2 & Sv2 & Cv2 & Mv2).
  split; cbn [eg_Kind eg_Fingerprint eg_Failures eg_Discarded eg_hourly eg_First eg_Last eg_ErrorClass eg_Sample].
  - apply G1.
  - apply G1.
  - rewrite length_app, Nat2Z.inj_add. done.
  - by rewrite (go_discarded _ _ _ _ G1), (go_discarded _ _ _ _ G2), add64_wrap, sum_of_app.
  - intros h. rewrite merge_hourly_lookup, (go_hourly _ _ _ _ G1 h), sum_of_app.
    pose proof (go_hourly _ _ _ _ G2 h) as H2. destruct (eg_hourly g2 !! h) as [n|]; cbn in H2; [by rewrite H2, add64_wrap|].
    by rewrite <-wrap64_add, <-H2, wrap64_add_l, Z.add_0_r.
  - intros _. destruct (Z.eqb_spec (Z.of_nat (length l1)) 0) as [E1|E1]; cbn [orb].
    { destruct l1; [|done]. by exists v1. }
    assert (l1 ≠ []) as Hl1 by (intros ->; done). destruct (go_first _ _ _ _ G1 Hl1) as (u1 & Hu1 & Su1).
    rewrite (sights_before ex _ v1 _ u1 Sv1 Su1) by (destruct Hsep as [|Hs]; [by left|right; symmetry; apply Hs; [apply Hu1|apply Hv1]]).
    eexists. split; [by apply is_first_app|]. by destruct (ref_before _ _).
  - intros _. destruct (Z.eqb_spec (Z.of_nat (length l1)) 0) as [E1|E1]; cbn [orb].
    { destruct l1; [|done]. by exists v2. }
    assert (l1 ≠ []) as Hl1 by (intros ->; done). destruct (go_last _ _ _ _ G1 Hl1) as (u2 & Hu2 & Su2 & Cu2 & Mu2).
    rewrite (sights_before ex _ u2 _ v2 Su2 Sv2) by (destruct Hsep as [|Hs]; [by left|right; apply Hs; [apply Hu2|apply Hv2]]).
    eexists. split; [by apply is_last_app|]. by destruct (ref_before _ _).
Qed.

(** Observing a failure is merging the group of it alone. *)
Definition single (k : (string * string)) (v : runView) : errorGroupAgg :=
  {| eg_Kind := k.1; eg_Fingerprint := k.2; eg_ErrorClass := class_of v;
     eg_Sample := truncate (message_of v) maxSampleMessage; eg_Failures := 1; eg_Discarded := one_if (discards v);
     eg_First := exact_ref v; eg_Last := exact_ref v; eg_hourly := {[hour_of v := 1]} |}.
Lemma single_of ex k v : group_of ex k [v] (single k v).
Proof.
  assert (∀ u, u ∈ [v] → u = v) as Hu by (by intros u ?%list_elem_of_singleton).
  split; [done|done|done| | |intros _; exists v..].
  - cbn. by destruct (discards v).
  - intros h. cbn. destruct (decide (hour_of v = h)) as [->|Hne].
    + by rewrite lookup_singleton_eq, bool_decide_true.
    + by rewrite lookup_singleton_ne, bool_decide_false.
  - split; [|by split; [|left]]. split; [by left|]. intros u ->%Hu. apply ref_before_irrefl.
  - split; [|by split; [split; [|left]|]]. split; [by left|]. intros u ->%Hu. apply ref_before_irrefl.
Qed.
Lemma observe_merge k g v :
  group_observe g (exact_ref v) (class_of v) (message_of v) (discards v) = group_merge g (single k v).
Proof.
  unfold group_observe, group_merge. cbn. unfold merge_hourly. by rewrite map_fold_singleton.
Qed.
Lemma group_of_weaken k l g : group_of true k l g → group_of false k l g.
Proof.
  assert (∀ r v, sights true r v → sights false r v) as Hw by (intros r v [? [?|[? _]]]; [by split; [|left]|done]).
  intros [H1 H2 H3 H4 H5 H6 H7]. split; [done..| |].
  - intros Hne. destruct (H6 Hne) as (v & ? & ?). eauto.
  - intros Hne. destruct (H7 Hne) as (v & ? & ? & ?). eauto 6.
Qed.

(** ** Tables of groups *)

Lemma partition_perm {A K} `{EqDecision K} (key : A → K) (ks : list K) (l : list A) :
  NoDup ks → (∀ x, x ∈ l → key x ∈ ks) → (ks ≫= λ k, filter (λ x, key x = k) l) ≡ₚ l.
Proof.
  intros Hnd. revert l. induction Hnd as [|k ks Hk Hnd IH]; intros l Hl; csimpl.
  { destruct l as [|x l]; [done|]. exfalso. apply (not_elem_of_nil (key x)), Hl. by left. }
  assert ((ks ≫= λ k', filter (λ x, key x = k') l) = (ks ≫= λ k', filter (λ x, key x = k') (filter (λ x, key x ≠ k) l))) as ->.
  { clear -Hk. induction ks as [|k' ks IH]; csimpl; [done|]. apply not_elem_of_cons in Hk as [Hne Hk]. rewrite IH by done. f_equal.
    clear -Hne. induction l as [|x l IH]; [done|]. rewrite !filter_cons. destruct (decide (key x = k')) as [E|E].
    - rewrite (decide_True (P := key x ≠ k)) by congruence. rewrite filter_cons, decide_True by done. by rewrite IH.
    - destruct (decide (key x ≠ k)); [by rewrite filter_cons, decide_False|done]. }
  rewrite IH; [|intros x [Hx Hin]%list_elem_of_filter; apply Hl, elem_of_cons in Hin as [?|?]; done].
  clear. induction l as [|x l IH]; [done|]. rewrite !filter_cons. destruct (decide (key x = k)) as [E|E].
  - rewrite decide_False by auto. cbn. by rewrite IH.
  - rewrite decide_True by done. rewrite <-Permutation_middle. by rewrite IH.
Qed.

Section tables.
Context `{GoLib}.

Definition fingerprint_of (v : runView) : string :=
  let stored := default "" (rv_Fingerprint v) in
  if is_empty stored then ErrorFingerprint (rv_Kind v) (class_of v) (message_of v) else stored.
Definition key_of (v : runView) : (string * string) := (rv_Kind v, fingerprint_of v).
Definition with_key (k : (string * string)) (l : list runView) : list runView := filter (λ v, key_of v = k) l.
Definition groups_of (ex : bool) (M : gmap (string * string) errorGroupAgg) (l : list runView) : Prop :=
  ∀ k, match M !! k with
       | Some g => with_key k l ≠ [] ∧ group_of ex k (with_key k l) g
       | None => with_key k l = []
       end.

Lemma groups_of_perm ex M l1 l2 : l1 ≡ₚ l2 → groups_of ex M l1 → groups_of ex M l2.
Proof.
  intros Hl HM k. specialize (HM k). assert (with_key k l1 ≡ₚ with_key k l2) as Hk by (unfold with_key; by rewrite Hl).
  destruct (M !! k) as [g|]; [|rewrite HM in Hk; by apply Permutation_nil_l in Hk].
  destruct HM as [Hne Hg]. split; [|by apply (group_of_perm _ _ _ _ _ Hk)].
  intros E. rewrite E in Hk. by apply Permutation_nil_r in Hk.
Qed.
Lemma groups_of_empty ex : groups_of ex ∅ [].
Proof. intros k. by rewrite lookup_empty. Qed.
Lemma with_key_app k l1 l2 : with_key k (l1 ++ l2) = with_key k l1 ++ with_key k l2.
Proof. apply filter_app. Qed.
Lemma with_key_length k l : (length (with_key k l) ≤ length l)%nat.
Proof. apply length_filter. Qed.
Lemma with_key_all k l : Forall (λ v, key_of v = k) l → with_key k l = l.
Proof. induction 1 as [|v l Hv _ IH]; [done|]. unfold with_key in *. by rewrite filter_cons, decide_True, IH. Qed.
Lemma with_key_other k k' l : Forall (λ v, key_of v = k) l → k' ≠ k → with_key k' l = [].
Proof. intros Hl Hne. induction Hl as [|v l Hv _ IH]; [done|]. unfold with_key in *. rewrite filter_cons, decide_False; congruence. Qed.

(** A piece of one group joins the table. *)
Lemma groups_of_insert ex M l k lk g0 :
  groups_of ex M l → Forall (λ v, key_of v = k) lk → lk ≠ [] → group_of ex k lk g0 →
  ex = true ∨ separated (with_key k l) lk → Z.of_nat (length (l ++ lk)) ≤ int64_max →
  groups_of ex (<[k := group_merge (default (newErrorGroupAgg k.1 k.2) (M !! k)) g0]> M) (l ++ lk).
Proof.
  intros HM Hk Hne Hg Hsep Hlen k'. rewrite with_key_app. destruct (decide (k' = k)) as [->|Hk'].
  - rewrite lookup_insert_eq, (with_key_all k lk Hk). split; [by destruct (with_key k l)|].
    apply group_merge_of; [|done|done|].
    + specialize (HM k). destruct (M !! k) as [g|]; [apply HM|]. rewrite HM. apply group_of_new.
    + rewrite length_app in *. pose proof (with_key_length k l). lia.
  - rewrite lookup_insert_ne, (with_key_other k k' lk), app_nil_r by done. apply HM.
Qed.
Lemma observeFailure_of M l v :
  groups_of true M l → Z.of_nat (length (l ++ [v])) ≤ int64_max → groups_of true (observeFailure M v) (l ++ [v]).
Proof.
  intros HM Hlen. unfold observeFailure. cbv zeta. fold (class_of v) (message_of v) (fingerprint_of v) (discards v).
  change (rv_Kind v, fingerprint_of v) with (key_of v). change {| rr_At := _; rr_ID := _; rr_exact := true |} with (exact_ref v).
  rewrite (observe_merge (key_of v)).
  apply (groups_of_insert true M l (key_of v) [v]); [done|by repeat constructor|done|apply single_of|by left|done].
Qed.
Lemma observed_groups M l0 l :
  groups_of true M l0 → Z.of_nat (length (l0 ++ l)) ≤ int64_max → groups_of true (foldl observeFailure M l) (l0 ++ l).
Proof.
  revert M l0. induction l as [|v l IH]; intros M l0 HM Hlen; cbn [foldl]; [by rewrite app_nil_r|].
  rewrite cons_middle, (assoc_L (++)) in *. apply IH; [|done]. apply observeFailure_of; [done|].
  rewrite length_app in Hlen. lia.
Qed.
End tables.

(** The failed runs of a window. *)
Definition failures (f : statsFilter) (d : db) (a b : Z) : list runView := filter (λ v, failing v = true) (runs_in f d a b).
