(* ===== verification/RollupHours.v ===== *)
(** * A rolled hour: what rollupHour stores

    An hour's rows are the entries of one table: its runs and inserts under their
    kind and queue, under their kind alone, and under no key at all. *)

From S2P Require Import Prelude Types Text Json Fingerprint Store Plan Sweep Retention Ids Hist Maintenance Rollup RollupFacts RollupWindows GroupFacts.

Local Open Scope Z_scope.

Definition kind_key (g : statsGroup) : statsGroup := (g.1, statsTotalKey).
Definition total_key (g : statsGroup) : statsGroup := (statsTotalKey, statsTotalKey).
(** An hour's runs under each of the three keys a row can have. *)
Definition hour_tags {A} (l : list (statsGroup * A)) : list (statsGroup * A) :=
  l ++ retag kind_key l ++ retag total_key l.
Definition named (g : statsGroup) : Prop := g.1 ≠ "" ∧ g.2 ≠ "".
Definition all_named {A} (l : list (statsGroup * A)) : Prop := Forall (λ x, named x.1) l.

Lemma with_tag_nil {A} g (l : list (statsGroup * A)) : (∀ x, x ∈ l → x.1 ≠ g) → with_tag g l = [].
Proof.
  intros Hl. unfold with_tag. enough (filter (λ x, x.1 = g) l = []) as -> by done.
  apply elem_of_nil_inv. intros x [Hx Hin]%list_elem_of_filter. by apply (Hl x).
Qed.
Lemma retag_elem {A} κ (l : list (statsGroup * A)) x : x ∈ retag κ l → ∃ y, y ∈ l ∧ x = (κ y.1, y.2).
Proof. unfold retag. rewrite list_elem_of_fmap. naive_solver. Qed.

Lemma map_to_list_union (m1 m2 : gmap statsGroup runAgg) :
  m1 ##ₘ m2 → map_to_list (m1 ∪ m2) ≡ₚ map_to_list m1 ++ map_to_list m2.
Proof.
  intros Hd. apply NoDup_Permutation.
  - apply NoDup_map_to_list.
  - apply NoDup_app. split; [apply NoDup_map_to_list|]. split; [|apply NoDup_map_to_list].
    intros [g a] H1%elem_of_map_to_list H2%elem_of_map_to_list. by eapply (map_disjoint_spec m1 m2).
  - intros [g a]. by rewrite elem_of_app, !elem_of_map_to_list, lookup_union_Some.
Qed.

(** Entries of tables with different keys. *)
Lemma represents_union m1 T1 J1 m2 T2 J2 (P : statsGroup → Prop) :
  represents m1 T1 J1 → represents m2 T2 J2 →
  (∀ x, x ∈ T1 → P x.1) → (∀ x, x ∈ J1 → P x.1) → (∀ x, x ∈ T2 → ¬ P x.1) → (∀ x, x ∈ J2 → ¬ P x.1) →
  (∀ g, Decision (P g)) →
  m1 ##ₘ m2 ∧ represents (m1 ∪ m2) (T1 ++ T2) (J1 ++ J2).
Proof.
  intros H1 H2 HT1 HJ1 HT2 HJ2 Hdec.
  assert (∀ g, P g → with_tag g T2 = [] ∧ with_tag g J2 = []) as Hp.
  { intros g Hg. split; apply with_tag_nil; intros x Hx <-; [by apply (HT2 x)|by apply (HJ2 x)]. }
  assert (∀ g, ¬ P g → with_tag g T1 = [] ∧ with_tag g J1 = []) as Hn.
  { intros g Hg. split; apply with_tag_nil; intros x Hx <-; apply Hg; [by apply (HT1 x)|by apply (HJ1 x)]. }
  assert (∀ g, P g → m2 !! g = None) as Hm2.
  { intros g [E1 E2]%Hp. rewrite H2. unfold tagged. by rewrite E1, E2. }
  assert (∀ g, ¬ P g → m1 !! g = None) as Hm1.
  { intros g [E1 E2]%Hn. rewrite H1. unfold tagged. by rewrite E1, E2. }
  split.
  - apply map_disjoint_spec. intros g a b Ha Hb. destruct (decide (P g)) as [Hg|Hg].
    + by rewrite Hm2 in Hb.
    + by rewrite Hm1 in Ha.
  - intros g. destruct (decide (P g)) as [Hg|Hg].
    + rewrite lookup_union_l by by apply Hm2. rewrite H1. destruct (Hp g Hg) as [E1 E2].
      unfold tagged. by rewrite !with_tag_app, E1, E2, !app_nil_r.
    + rewrite lookup_union_r by by apply Hm1. rewrite H2. destruct (Hn g Hg) as [E1 E2].
      symmetry. by apply tagged_frame.
Qed.

Lemma with_total {A} (l : list (statsGroup * A)) :
  with_tag (statsTotalKey, statsTotalKey) (retag total_key l) = l.*2.
Proof.
  unfold with_tag, retag. induction l as [|x l IH]; [done|]. rewrite fmap_cons, filter_cons, decide_True by done.
  rewrite !fmap_cons. by rewrite IH.
Qed.
Lemma represents_total T J :
  (T ≠ [] ∨ J ≠ []) →
  represents {[ (statsTotalKey, statsTotalKey) := agg_spec statsTotalKey statsTotalKey T.*2 (Z.of_nat (length J)) ]}
    (retag total_key T) (retag total_key J).
Proof.
  intros Hne g. destruct (decide (g = (statsTotalKey, statsTotalKey))) as [->|Hg].
  - rewrite lookup_singleton_eq, tagged_some; [by rewrite !with_total, length_fmap|].
    rewrite !with_total. destruct Hne as [Hne|Hne]; [left|right]; intros Hx; by apply fmap_nil_inv in Hx.
  - rewrite lookup_singleton_ne by done. unfold tagged.
    rewrite !with_tag_nil; [done|..]; intros x (y & _ & ->)%retag_elem; by intros <-.
Qed.

Section hour.
Context `{GoLib} `{RowOrder}.

(** The three classes of an hour's rows as one table. *)
Definition hour_table (aggs : gmap statsGroup runAgg) : gmap statsGroup runAgg :=
  aggs ∪ (kind_totals (scan (map_to_list aggs)) ∪
          {[ (statsTotalKey, statsTotalKey) := hour_total (scan (map_to_list aggs)) ]}).

Lemma represents_nonempty m T J : represents m T J → m ≠ ∅ ↔ T ≠ [] ∨ J ≠ [].
Proof.
  intros Hm. split.
  - intros Hne. destruct T; [|by left]. destruct J; [|by right]. destruct Hne.
    eapply represents_inj; [exact Hm|apply represents_empty].
  - intros Hne ->. destruct Hne as [Hne|Hne].
    + destruct T as [|x T]; [done|]. specialize (Hm x.1). rewrite lookup_empty, tagged_some in Hm; [done|].
      left. eapply represents_keys; [apply represents_empty|left].
    + destruct J as [|x J]; [done|]. specialize (Hm x.1). rewrite lookup_empty, tagged_some in Hm; [done|].
      right. eapply represents_keys; [apply represents_empty|left].
Qed.

Lemma hour_table_spec m T J :
  represents m T J → fits T.*2 → all_named T → all_named J → m ≠ ∅ →
  represents (hour_table m) (hour_tags T) (hour_tags J) ∧
  m ##ₘ kind_totals (scan (map_to_list m)) ∪ {[ (statsTotalKey, statsTotalKey) := hour_total (scan (map_to_list m)) ]} ∧
  kind_totals (scan (map_to_list m)) ##ₘ
    {[ (statsTotalKey, statsTotalKey) := hour_total (scan (map_to_list m)) ]}.
Proof.
  intros Hm Hf HT HJ Hne. unfold all_named in *. rewrite Forall_forall in HT. rewrite Forall_forall in HJ.
  pose proof (merge_by_spec kind_key ∅ [] [] m T J represents_empty Hm Hf) as Hk. rewrite !app_nil_r in Hk.
  change (foldl (merge_by kind_key) ∅) with kind_totals in Hk.
  apply (represents_nonempty m T J Hm) in Hne. pose proof (represents_total T J Hne) as Ht.
  pose proof (merge_all_spec statsTotalKey statsTotalKey m T J Hm Hf) as He. fold (hour_total (scan (map_to_list m))) in He.
  rewrite <-He in Ht. clear He.
  destruct (represents_union _ _ _ _ _ _ (λ g, g.1 ≠ "") Hk Ht) as [Hd Hu].
  { intros x (y & Hy & ->)%retag_elem. by destruct (HT y Hy). }
  { intros x (y & Hy & ->)%retag_elem. by destruct (HJ y Hy). }
  { intros x (y & Hy & ->)%retag_elem. simpl. tauto. }
  { intros x (y & Hy & ->)%retag_elem. simpl. tauto. }
  { intros g. apply _. }
  destruct (represents_union _ _ _ _ _ _ (λ g, g.2 ≠ "") Hm Hu) as [Hd' Hu'].
  { intros x Hx. by destruct (HT x Hx). }
  { intros x Hx. by destruct (HJ x Hx). }
  { intros x [(y & Hy & ->)%retag_elem|(y & Hy & ->)%retag_elem]%elem_of_app; simpl; tauto. }
  { intros x [(y & Hy & ->)%retag_elem|(y & Hy & ->)%retag_elem]%elem_of_app; simpl; tauto. }
  { intros g. apply _. }
  done.
Qed.

(** The rows of an hour are the entries of its table. *)
Lemma hourRows_entries h m rolledAt T J :
  represents m T J → fits T.*2 → all_named T → all_named J → m ≠ ∅ →
  hourRows h m rolledAt ≡ₚ (λ ga, rowFromAgg h ga.2 rolledAt) <$> map_to_list (hour_table m).
Proof.
  intros Hm Hf HT HJ Hne. destruct (hour_table_spec m T J Hm Hf HT HJ Hne) as (_ & Hd1 & Hd2).
  unfold hourRows. rewrite bool_decide_false by done. rewrite (merge_sort_Permutation row_le).
  unfold hour_table. rewrite map_to_list_union, map_to_list_union, map_to_list_singleton by done.
  rewrite !fmap_app. rewrite <-!list_fmap_compose. f_equiv; [|f_equiv].
  - apply fmap_Permutation, scan_perm.
  - apply fmap_Permutation, scan_perm.
  - done.
Qed.

(** A row at a time, each under its own key. *)
Lemma upsert_all {K A} `{Countable K} (key : A → K) rows (t : gmap K A) :
  NoDup (key <$> rows) →
  (∀ r, r ∈ rows → foldl (λ t r, <[key r := r]> t) t rows !! key r = Some r) ∧
  (∀ x, x ∉ key <$> rows → foldl (λ t r, <[key r := r]> t) t rows !! x = t !! x).
Proof.
  revert t. induction rows as [|r rows IH]; intros t Hnd; csimpl in *; [split; [by intros ? ?%elem_of_nil|done]|].
  apply NoDup_cons in Hnd as [Hn Hnd]. destruct (IH (<[key r := r]> t) Hnd) as [IH1 IH2]. split.
  - intros r' [->|Hin]%elem_of_cons; [|by apply IH1]. by rewrite IH2, lookup_insert_eq.
  - intros x [Hne Hx]%not_elem_of_cons. rewrite IH2 by done. by apply lookup_insert_ne.
Qed.

Lemma upsert_lookup (rows : list jobStatsHourlyRow) t k :
  NoDup ((λ r, (hr_Bucket r, (hr_Kind r, hr_Queue r))) <$> rows) →
  (∀ r, r ∈ rows → (hr_Bucket r, (hr_Kind r, hr_Queue r)) = k → upsert_hour rows t !! k = Some r) ∧
  ((∀ r, r ∈ rows → (hr_Bucket r, (hr_Kind r, hr_Queue r)) ≠ k) → upsert_hour rows t !! k = t !! k).
Proof.
  intros Hnd. destruct (upsert_all (λ r, (hr_Bucket r, (hr_Kind r, hr_Queue r))) rows t Hnd) as [Hin Hout]. split.
  - intros r Hr <-. by apply (Hin r).
  - intros Hk. apply Hout. intros (r & -> & Hr)%list_elem_of_fmap. by apply (Hk r).
Qed.

Lemma tagged_key T J g a : tagged T J g = Some a → (ag_Kind a, ag_Queue a) = g.
Proof. intros [_ ->]%tagged_inv. by destruct g. Qed.

(** What the table holds once an hour is replaced. *)
Lemma upsert_hour_spec h m rolledAt T J t g :
  represents m T J → fits T.*2 → all_named T → all_named J →
  upsert_hour (hourRows h m rolledAt) (clear_hour h t) !! (h, g) =
  (λ a, rowFromAgg h a rolledAt) <$> tagged (hour_tags T) (hour_tags J) g.
Proof.
  intros Hm Hf HT HJ. assert (clear_hour h t !! (h, g) = None) as Hc.
  { unfold clear_hour. apply map_lookup_filter_None. right. intros r _ Hn. by apply Hn. }
  destruct (decide (m = ∅)) as [->|Hne].
  { change (hourRows h ∅ rolledAt) with (@nil jobStatsHourlyRow). unfold upsert_hour. cbn [foldl]. rewrite Hc.
    pose proof (represents_nonempty ∅ T J Hm) as Hx.
    assert (T = [] ∧ J = []) as [-> ->]; [|done]. destruct T, J; split; try done; exfalso; apply Hx; auto. }
  destruct (hour_table_spec m T J Hm Hf HT HJ Hne) as (Hr & _ & _).
  pose proof (hourRows_entries h m rolledAt T J Hm Hf HT HJ Hne) as Hp.
  assert (∀ g a, hour_table m !! g = Some a → (ag_Kind a, ag_Queue a) = g) as Hkey.
  { intros g' a Ha. rewrite Hr in Ha. by eapply tagged_key. }
  assert (NoDup ((λ r, (hr_Bucket r, (hr_Kind r, hr_Queue r))) <$> hourRows h m rolledAt)) as Hnd.
  { rewrite Hp, <-list_fmap_compose.
    rewrite (list_fmap_ext _ ((λ g, (h, g)) ∘ fst)).
    - rewrite list_fmap_compose. apply NoDup_fmap_2; [by intros ?? [=]|apply NoDup_fst_map_to_list].
    - intros i [g' a] Ha%list_elem_of_lookup_2%elem_of_map_to_list. simpl. f_equal. by apply Hkey. }
  destruct (upsert_lookup _ (clear_hour h t) (h, g) Hnd) as [Hin Hout]. rewrite <-(Hr g).
  destruct (hour_table m !! g) as [a|] eqn:Ea; simpl.
  - apply Hin; [|simpl; f_equal; by apply Hkey]. rewrite Hp. apply list_elem_of_fmap. exists (g, a).
    split; [done|]. by apply elem_of_map_to_list.
  - rewrite Hout; [done|]. intros r. rewrite Hp, list_elem_of_fmap. intros ([g' a] & -> & Ha%elem_of_map_to_list).
    simpl. intros [= E]. rewrite (Hkey _ _ Ha) in E. congruence.
Qed.
Lemma upsert_hour_other h m rolledAt t h' g :
  h' ≠ h → upsert_hour (hourRows h m rolledAt) (clear_hour h t) !! (h', g) = t !! (h', g).
Proof.
  intros Hne. assert (clear_hour h t !! (h', g) = t !! (h', g)) as Hc.
  { unfold clear_hour. destruct (t !! (h', g)) as [r|] eqn:Er.
    - apply map_lookup_filter_Some. split; [done|]. done.
    - apply map_lookup_filter_None. by left. }
  rewrite <-Hc. generalize (clear_hour h t). unfold upsert_hour.
  assert (Forall (λ r, hr_Bucket r = h) (hourRows h m rolledAt)) as Hb.
  { unfold hourRows. case_match; [constructor|]. rewrite (merge_sort_Permutation row_le).
    apply Forall_fmap, Forall_forall. by intros a _. }
  induction Hb as [|r rows Hr _ IH]; intros t'; [done|]. cbn [foldl]. rewrite IH. apply lookup_insert_ne. congruence.
Qed.
End hour.

(** ** The tables a rollup reads

    Ids are UUIDs, kinds and queues are set, no run ends before it starts, and there
    are fewer than 2^63 finishes. *)

Record regular (d : db) : Prop := {
  reg_ids : ids_shaped d;
  reg_named : ∀ id r, jobs d !! id = Some r → j_Kind r ≠ "" ∧ j_Queue r ≠ "";
  reg_durations : ∀ id r ms, job_runs d !! id = Some r → r_DurationMs r = Some ms → 0 ≤ ms;
  reg_finishes : Z.of_nat (size (job_run_finishes d)) ≤ int64_max
}.

Lemma resolved_name_set own j : (∀ n, j = Some n → n ≠ "") → resolved_name own j ≠ "".
Proof.
  intros Hj. unfold resolved_name, is_empty. case_bool_decide; [|done]. destruct j as [n|]; [by apply Hj|done].
Qed.
Lemma finished_in_elem d a b v :
  v ∈ finished_in d a b → ∃ t id r, job_runs d !! id = Some r ∧ v = run_view d t r.
Proof.
  unfold finished_in. intros ([t id] & _ & Hv)%list_elem_of_omap. simpl in Hv.
  destruct (in_window a b t); [|done]. apply fmap_Some in Hv as (r & Hr & ->). eauto.
Qed.
Lemma finished_in_fits d a b : regular d → fits (finished_in d a b).
Proof.
  intros Hd. split.
  - apply Forall_forall. intros v (t & id & r & Hr & ->)%finished_in_elem ms. unfold duration_of.
    case_match; [|done]. by apply (reg_durations d Hd id r).
  - etrans; [|exact (reg_finishes d Hd)]. unfold finished_in. apply inj_le.
    change (size (job_run_finishes d)) with (length (elements (job_run_finishes d))).
    generalize (elements (job_run_finishes d)). intros l. induction l as [|e l IH]; [done|]. csimpl.
    repeat case_match; simpl; lia.
Qed.
Lemma runs_in_fits f d a b : regular d → fits (runs_in f d a b).
Proof.
  intros Hd. eapply fits_submseteq; [|by apply (finished_in_fits d a b)].
  apply sublist_submseteq, sublist_filter.
Qed.
Lemma finished_in_named d a b : regular d → all_named (tag_runs (finished_in d a b)).
Proof.
  intros Hd. apply Forall_fmap, Forall_forall. intros v (t & id & r & Hr & ->)%finished_in_elem.
  split; apply resolved_name_set; intros n (j & Hj & ->)%fmap_Some; by apply (reg_named d Hd (r_JobID r)).
Qed.
Lemma inserted_in_named d a b : regular d → all_named (tag_jobs (inserted_in d a b)).
Proof.
  intros Hd. apply Forall_fmap, Forall_forall. intros r [_ Hr]%inserted_in_elem.
  apply list_elem_of_fmap in Hr as ([id r'] & -> & Hr%elem_of_map_to_list). by apply (reg_named d Hd id).
Qed.
Lemma no_filter_all k q : filter_ok no_filter k q = true.
Proof. done. Qed.
Lemma runs_in_all d a b : runs_in no_filter d a b = finished_in d a b.
Proof.
  unfold runs_in. generalize (finished_in d a b). intros l. induction l as [|v l IH]; [done|].
  rewrite filter_cons, decide_True by done. by rewrite IH.
Qed.
Lemma jobs_in_all d a b : jobs_in no_filter d a b = inserted_in d a b.
Proof.
  unfold jobs_in. generalize (inserted_in d a b). intros l. induction l as [|v l IH]; [done|].
  rewrite filter_cons, decide_True by done. by rewrite IH.
Qed.

(** ** Coverage that holds what it says

    [hour_entry] is the aggregate an hour's row should carry, and an hour's error
    groups are those of its failed runs; [sound]: every covered hour's rows, in both
    tables, carry exactly that, and so do the rows of any hour that has some. *)

Definition hour_entry (d : db) (h : Z) (g : statsGroup) : option runAgg :=
  tagged (hour_tags (tag_runs (finished_in d h (h + hour)))) (hour_tags (tag_jobs (inserted_in d h (h + hour)))) g.
Definition hour_failures (d : db) (h : Z) : list runView := failures no_filter d h (h + hour).
Definition rows_rolled (d : db) (s : rollups) (h : Z) : Prop :=
  ∃ rolledAt, ∀ g, ro_hourly s !! (h, g) = (λ a, rowFromAgg h a rolledAt) <$> hour_entry d h g.

Section coverage.
Context `{GoLib}.

Definition groups_rolled (d : db) (s : rollups) (h : Z) : Prop :=
  ∀ k, match ro_groups s !! (h, k) with
       | Some r => with_key k (hour_failures d h) ≠ [] ∧
                   ∃ g rolledAt, group_of true k (with_key k (hour_failures d h)) g ∧ r = group_row h rolledAt g
       | None => with_key k (hour_failures d h) = []
       end.
Definition hour_rolled (d : db) (s : rollups) (h : Z) : Prop := rows_rolled d s h ∧ groups_rolled d s h.
Record sound (d : db) (s : rollups) : Prop := {
  sound_edges : ∀ p, ro_progress s = Some p → aligned (sp_From p) ∧ aligned (sp_To p);
  sound_hours : ∀ p h, ro_progress s = Some p → aligned h → sp_From p ≤ h < sp_To p → hour_rolled d s h;
  sound_stored : ∀ h g r, ro_hourly s !! (h, g) = Some r → aligned h ∧ rows_rolled d s h;
  sound_grouped : ∀ h k r, ro_groups s !! (h, k) = Some r → aligned h ∧ groups_rolled d s h
}.
Lemma sound_keys d s k r : sound d s → ro_hourly s !! k = Some r → aligned k.1.
Proof. intros Hs Hr. destruct k as [h g]. by apply (sound_stored d s Hs h g r). Qed.

(** Two readings of the job tables agree on an hour. *)
Definition same_hour (d d' : db) (h : Z) : Prop :=
  (∀ g, hour_entry d' h g = hour_entry d h g) ∧ hour_failures d' h ≡ₚ hour_failures d h.
Lemma groups_rolled_same d d' s h : hour_failures d' h ≡ₚ hour_failures d h → groups_rolled d' s h → groups_rolled d s h.
Proof.
  intros Hf Hg k. specialize (Hg k).
  assert (with_key k (hour_failures d' h) ≡ₚ with_key k (hour_failures d h)) as Hk by (unfold with_key; by rewrite Hf).
  destruct (ro_groups s !! (h, k)) as [r|]; [|rewrite Hg in Hk; by apply Permutation_nil_l in Hk].
  destruct Hg as (Hne & g & at_ & Hg & ->). split; [|exists g, at_; split; [by apply (group_of_perm _ _ _ _ _ Hk)|done]].
  intros E. rewrite E in Hk. by apply Permutation_nil_r in Hk.
Qed.
End coverage.

#[global] Instance hour_tags_perm {A} : Proper ((≡ₚ) ==> (≡ₚ)) (@hour_tags A).
Proof. intros l1 l2 Hl. unfold hour_tags. by rewrite Hl. Qed.

Section rolled.
Context `{GoLib} `{RowOrder}.

Lemma failures_fit f d a b : regular d → Z.of_nat (length (failures f d a b)) ≤ int64_max.
Proof.
  intros Hd. destruct (runs_in_fits f d a b Hd) as [_ Hl]. unfold failures.
  pose proof (length_filter (λ v, failing v = true) (runs_in f d a b)). lia.
Qed.
(** A window's groups are those of its failed runs. *)
Lemma window_groups f d a b : regular d → groups_of true (wa_groups (aggregateWindow d a b f)) (failures f d a b).
Proof.
  intros Hd. unfold aggregateWindow. destruct (Z.ltb_spec a b) as [Hab|Hab]; cbn [negb wa_groups].
  - pose proof (failures_fit f d a b Hd) as Hfit.
    assert (filter (λ v, negb (rv_Sup v) && failedOutcome (rv_Outcome v) = true)
      (filter (λ v, filter_ok f (rv_Kind v) (rv_Queue v) = true) (scan (finished_in d a b))) ≡ₚ failures f d a b) as Hp.
    { unfold failures, runs_in. by rewrite (scan_perm (finished_in d a b)). }
    apply (groups_of_perm _ _ _ _ Hp). apply (observed_groups ∅ []); [apply groups_of_empty|]. cbn. by rewrite Hp.
  - unfold failures, runs_in. rewrite finished_in_none by done. apply groups_of_empty.
Qed.

(** The group rows of an hour, by key. *)
Lemma upsert_groups_spec (h : Z) (M : gmap (string * string) errorGroupAgg) (l : list runView) (rolledAt : Z) (t : gmap (Z * (string * string)) jobErrorGroupHourlyRow) :
  groups_of true M l →
  (∀ k, upsert_groups (errorGroupHourRows h M rolledAt) (clear_hour h t) !! (h, k) = group_row h rolledAt <$> M !! k) ∧
  (∀ h' k, h' ≠ h → upsert_groups (errorGroupHourRows h M rolledAt) (clear_hour h t) !! (h', k) = t !! (h', k)).
Proof.
  intros HM. set (rows := errorGroupHourRows h M rolledAt).
  pose (key := λ r : jobErrorGroupHourlyRow, (gr_Bucket r, (gr_Kind r, gr_Fingerprint r))).
  assert (∀ k g, M !! k = Some g → key (group_row h rolledAt g) = (h, k)) as Hkey.
  { intros k g Hk. specialize (HM k). rewrite Hk in HM. destruct HM as [_ Hg]. unfold key. cbn.
    rewrite (go_kind _ _ _ _ Hg), (go_fp _ _ _ _ Hg). by destruct k. }
  assert (key <$> rows ≡ₚ (h,.) <$> (map_to_list M).*1) as Hkeys.
  { unfold rows, errorGroupHourRows. rewrite (merge_sort_Permutation group_row_le), (scan_perm (map_to_list M)).
    rewrite <-!list_fmap_compose. apply reflexive_eq, list_fmap_ext. intros i [k g] Hi. cbn.
    apply list_elem_of_lookup_2, elem_of_map_to_list in Hi. by apply Hkey. }
  assert (∀ r, r ∈ rows ↔ ∃ k g, M !! k = Some g ∧ r = group_row h rolledAt g) as Hrows.
  { intros r. unfold rows, errorGroupHourRows. rewrite (merge_sort_Permutation group_row_le), (scan_perm (map_to_list M)).
    rewrite <-list_fmap_compose, list_elem_of_fmap. split.
    - intros ([k g] & -> & Hg%elem_of_map_to_list). by exists k, g.
    - intros (k & g & Hg & ->). exists (k, g). split; [done|]. by apply elem_of_map_to_list. }
  destruct (upsert_all key rows (clear_hour h t)) as [Hin Hout].
  { rewrite Hkeys. apply NoDup_fmap_2; [by intros ? ? [=]|apply NoDup_fst_map_to_list]. }
  unfold upsert_groups. change (λ t r, <[(gr_Bucket r, (gr_Kind r, gr_Fingerprint r)) := r]> t) with
    (λ (t : gmap (Z * (string * string)) jobErrorGroupHourlyRow) r, <[key r := r]> t). split.
  - intros k. destruct (M !! k) as [g|] eqn:Ek; cbn.
    + rewrite <-(Hkey k g Ek). apply Hin, Hrows. by exists k, g.
    + rewrite Hout.
      * unfold clear_hour. apply map_lookup_filter_None. right. intros r _ Hr. by apply Hr.
      * rewrite Hkeys. intros (k' & [= <-] & ([k0 g] & -> & Hg%elem_of_map_to_list)%list_elem_of_fmap)%list_elem_of_fmap.
        cbn in Ek. congruence.
  - intros h' k Hne. rewrite Hout.
    + unfold clear_hour. destruct (t !! (h', k)) as [r|] eqn:Er; [by apply map_lookup_filter_Some|].
      apply map_lookup_filter_None. by left.
    + rewrite Hkeys. by intros (k' & [= ? _] & _)%list_elem_of_fmap.
Qed.

(** rollupHour replaces its hour with what the job tables say, and no other. *)
Lemma rollupHour_spec d h rolledAt guard st s k s' :
  regular d → rollupHour d h rolledAt guard st s = Ok (k, s') →
  (∀ g, ro_hourly s' !! (h, g) = (λ a, rowFromAgg h a rolledAt) <$> hour_entry d h g) ∧
  (∀ h' g, h' ≠ h → ro_hourly s' !! (h', g) = ro_hourly s !! (h', g)) ∧
  groups_rolled d s' h ∧ (∀ h' k, h' ≠ h → ro_groups s' !! (h', k) = ro_groups s !! (h', k)) ∧
  ro_progress s' = step_progress st <$> ro_progress s.
Proof.
  intros Hd. unfold rollupHour. cbv zeta. case_match; [done|]. intros [= _ <-]. cbn.
  pose proof (window_groups no_filter d h (h + hour) Hd) as Hg.
  pose proof (upsert_groups_spec h _ _ rolledAt (ro_groups s) Hg) as [Hin Hout].
  split; [|split; [|split; [|split; [done|done]]]].
  - intros g. pose proof (runs_in_fits no_filter d h (h + hour) Hd) as Hf.
    pose proof (aggregateRuns_spec d h (h + hour) no_filter ltac:(pose proof hour_pos; lia) Hf) as Hr.
    rewrite runs_in_all, jobs_in_all in Hr. rewrite runs_in_all in Hf. unfold aggregateRuns in Hr.
    apply upsert_hour_spec; [done|by rewrite tag_runs_snd|by apply finished_in_named|by apply inserted_in_named].
  - intros h' g Hne. by apply upsert_hour_other.
  - intros k'. cbn. rewrite Hin. specialize (Hg k'). destruct (wa_groups _ !! k') as [g|]; [|done]. cbn.
    destruct Hg as [Hne Hg]. split; [done|]. by exists g, rolledAt.
Qed.
End rolled.
