(* ===== verification/Stats.v ===== *)
(** * Stats reads: internal/core/stats.go

    A window is served from the hours the rollups cover and, around them, from the
    raw runs, by the aggregate the rollup itself uses. The floating-point fields of
    a result (rates, means and percentiles) are kept as the integers they are
    computed from: a [DurationSummary] carries its count, sum, maximum and
    histogram. A read is modelled on tables that do not change under it. *)

From S2P Require Import Prelude Types Text Json Fingerprint Store Plan Sweep Retention Ids Hist Maintenance Rollup.

Local Open Scope Z_scope.

Definition defaultMaxRawSpan : Z := 7 * 24 * hour.

(** ** Planning *)

Inductive rollupRows := groupRows | kindRows | totalRows.
#[global] Instance rollupRows_eq_dec : EqDecision rollupRows.
Proof. solve_decision. Defined.

Definition rowsFor (f : statsFilter) (perKind : bool) : rollupRows :=
  if negb (is_empty (sf_Queue f)) then groupRows
  else if negb (is_empty (sf_Kind f)) || perKind then kindRows
  else totalRows.

Abbreviation segment := (Z * Z)%type.
Record windowPlan := { wp_rolledFrom : Z; wp_rolledTo : Z; wp_raw : list segment; wp_tail : segment }.

Definition rawSpan (p : windowPlan) : Z := foldl (λ d seg, add64 d (time_sub seg.2 seg.1)) 0 (wp_raw p).

Definition planWindow (from to : Z) (p : statsProgress) : windowPlan :=
  let rolledFrom := if covered p then Z.max (ceilHour from) (sp_From p) else ceilHour from in
  let rolledTo := if covered p then Z.min (floorHour to) (sp_To p) else floorHour to in
  if negb (covered p) || negb (rolledFrom <? rolledTo)
  then {| wp_rolledFrom := zero_time; wp_rolledTo := zero_time; wp_raw := [(from, to)]; wp_tail := (from, to) |}
  else {| wp_rolledFrom := rolledFrom; wp_rolledTo := rolledTo;
          wp_raw := (if from <? rolledFrom then [(from, rolledFrom)] else []) ++
                    (if rolledTo <? to then [(rolledTo, to)] else []);
          wp_tail := (rolledTo, to) |}.

(** The raw segments of plans that serve one read, their total span, and the
    stretch that holds them. *)
Definition raw_total (plans : list windowPlan) : Z := foldl (λ n p, add64 n (rawSpan p)) 0 plans.
Definition raw_start (plans : list windowPlan) : Z :=
  foldl (λ st seg, if is_zero_time st || (seg.1 <? st) then seg.1 else st) zero_time
    (plans ≫= wp_raw).
Definition raw_end (plans : list windowPlan) : Z := foldl (λ e seg, Z.max e seg.2) zero_time (plans ≫= wp_raw).

(** A segment from its first activity, or dropped. *)
Definition trim_segment (first : option Z) (seg : segment) : option segment :=
  match first with
  | Some t => if t <? seg.2 then Some (Z.max seg.1 t, seg.2) else None
  | None => None
  end.
Definition trim_plan (first : option Z) (p : windowPlan) : windowPlan :=
  {| wp_rolledFrom := wp_rolledFrom p; wp_rolledTo := wp_rolledTo p;
     wp_raw := omap (trim_segment first) (wp_raw p); wp_tail := wp_tail p |}.

Definition fitRawSpan (d : db) (plans : list windowPlan) (maxRaw : Z) : res (list windowPlan) :=
  let maxRaw := if maxRaw =? 0 then defaultMaxRawSpan else maxRaw in
  if (maxRaw <? 0) || (raw_total plans <=? maxRaw) then Ok plans
  else
    let trimmed := trim_plan (nextActivityAt d (raw_start plans) (raw_end plans)) <$> plans in
    if raw_total trimmed <=? maxRaw then Ok trimmed else Err ErrStatsNotRolledUp.

(** ** Stored hours *)

Abbreviation rolledHour := (Z * gmap statsGroup runAgg)%type.

(** A stored row as an aggregate. *)
Definition agg_of_row (r : jobStatsHourlyRow) : res runAgg :=
  if negb (hr_HistVersion r =? histVersion) then Err ErrHistVersion
  else
    let? dur := parseSparseHist (hr_DurHist r) in
    let? wait := parseSparseHist (hr_WaitHist r) in
    Ok {| ag_Kind := hr_Kind r; ag_Queue := hr_Queue r; ag_Attempts := hr_Attempts r; ag_Success := hr_Success r;
          ag_Error := hr_Error r; ag_Timeout := hr_Timeout r; ag_Snooze := hr_Snooze r;
          ag_Cancelled := hr_Cancelled r; ag_Crashed := hr_Crashed r; ag_Superseded := hr_Superseded r;
          ag_Discarded := hr_Discarded r; ag_Enqueued := hr_Enqueued r; ag_DurCount := hr_DurCount r;
          ag_DurSumMs := hr_DurSumMs r; ag_DurMaxMs := hr_DurMaxMs r; ag_DurHist := dur;
          ag_SlowestRunID := default "" (hr_SlowestRunID r); ag_WaitCount := hr_WaitCount r;
          ag_WaitSumMs := hr_WaitSumMs r; ag_WaitMaxMs := hr_WaitMaxMs r; ag_WaitHist := wait;
          ag_CostMicrosSum := hr_CostMicrosSum r |}.

(** The WHERE of [loadRolledHours]. *)
Definition in_class (class : rollupRows) (f : statsFilter) (g : statsGroup) : bool :=
  match class with
  | groupRows => negb (is_empty g.1) && negb (is_empty g.2) && filter_ok f g.1 g.2
  | kindRows => negb (is_empty g.1) && is_empty g.2 && (is_empty (sf_Kind f) || bool_decide (g.1 = sf_Kind f))
  | totalRows => is_empty g.1 && is_empty g.2
  end.
Definition bucket_le (a b : (Z * statsGroup) * jobStatsHourlyRow) : Prop := a.1.1 ≤ b.1.1.
#[global] Instance bucket_le_dec : RelDecision bucket_le.
Proof. intros a b. unfold bucket_le. apply _. Defined.

(** A row joins the hour the last row started, or starts one. *)
Definition push_row (bucket : Z) (a : runAgg) (out : list rolledHour) : list rolledHour :=
  match last out with
  | Some (start, aggs) =>
    if start =? bucket
    then take (length out - 1) out ++ [(start, <[(ag_Kind a, ag_Queue a) := a]> aggs)]
    else out ++ [(bucket, {[ (ag_Kind a, ag_Queue a) := a ]})]
  | None => out ++ [(bucket, {[ (ag_Kind a, ag_Queue a) := a ]})]
  end.
Fixpoint scan_rows (rows : list ((Z * statsGroup) * jobStatsHourlyRow)) (out : list rolledHour)
  : res (list rolledHour) :=
  match rows with
  | [] => Ok out
  | kr :: rows => let? a := agg_of_row kr.2 in scan_rows rows (push_row kr.1.1 a out)
  end.

(** ** Results *)

Record DurationSummary := { ds_Count : Z; ds_SumMs : Z; ds_MaxMs : Z; ds_Hist : histogram }.
Definition summarize (h : histogram) (count sumMs maxMs : Z) : DurationSummary :=
  if count =? 0 then {| ds_Count := 0; ds_SumMs := 0; ds_MaxMs := 0; ds_Hist := [] |}
  else {| ds_Count := count; ds_SumMs := sumMs; ds_MaxMs := maxMs; ds_Hist := h |}.

Record OutcomeCounts := {
  oc_Success : Z; oc_Error : Z; oc_Timeout : Z; oc_Snooze : Z; oc_Cancelled : Z; oc_Crashed : Z
}.
(** [KindStats]; [ks_Ended] is the divisor of SuccessRate, which is zero when it is. *)
Record KindStats := {
  ks_Kind : string; ks_Queue : string; ks_Attempts : Z; ks_Outcomes : OutcomeCounts; ks_Succeeded : Z;
  ks_Discarded : Z; ks_Retries : Z; ks_Superseded : Z; ks_Enqueued : Z; ks_Ended : Z;
  ks_Duration : DurationSummary; ks_QueueWait : DurationSummary; ks_CostMicros : Z; ks_SlowestRunID : string
}.
Definition kindStatsFromAgg (a : runAgg) : KindStats :=
  {| ks_Kind := ag_Kind a; ks_Queue := ""; ks_Attempts := ag_Attempts a;
     ks_Outcomes := {| oc_Success := ag_Success a; oc_Error := ag_Error a; oc_Timeout := ag_Timeout a;
                       oc_Snooze := ag_Snooze a; oc_Cancelled := ag_Cancelled a; oc_Crashed := ag_Crashed a |};
     ks_Succeeded := ag_Success a; ks_Discarded := ag_Discarded a;
     ks_Retries := Z.max (wrap64 (ag_Error a + ag_Timeout a + ag_Crashed a - ag_Discarded a)) 0;
     ks_Superseded := ag_Superseded a; ks_Enqueued := ag_Enqueued a;
     ks_Ended := add64 (ag_Success a) (ag_Discarded a);
     ks_Duration := summarize (ag_DurHist a) (ag_DurCount a) (ag_DurSumMs a) (ag_DurMaxMs a);
     ks_QueueWait := summarize (ag_WaitHist a) (ag_WaitCount a) (ag_WaitSumMs a) (ag_WaitMaxMs a);
     ks_CostMicros := ag_CostMicrosSum a; ks_SlowestRunID := ag_SlowestRunID a |}.
Definition with_queue (q : string) (k : KindStats) : KindStats :=
  {| ks_Kind := ks_Kind k; ks_Queue := q; ks_Attempts := ks_Attempts k; ks_Outcomes := ks_Outcomes k;
     ks_Succeeded := ks_Succeeded k; ks_Discarded := ks_Discarded k; ks_Retries := ks_Retries k;
     ks_Superseded := ks_Superseded k; ks_Enqueued := ks_Enqueued k; ks_Ended := ks_Ended k;
     ks_Duration := ks_Duration k; ks_QueueWait := ks_QueueWait k; ks_CostMicros := ks_CostMicros k;
     ks_SlowestRunID := ks_SlowestRunID k |}.
Definition stats_le (a b : KindStats) : Prop := key_le (ks_Kind a, ks_Queue a) (ks_Kind b, ks_Queue b).
#[global] Instance stats_le_dec : RelDecision stats_le.
Proof. intros a b. unfold stats_le. apply _. Defined.

Inductive StatsGroupBy := StatsByKind | StatsByQueue | StatsByKindQueue.
(** StatsParams.GroupBy as given: the zero value selects StatsByKind. *)
Definition parse_groupBy (s : string) : option StatsGroupBy :=
  if is_empty s || bool_decide (s = "kind") then Some StatsByKind
  else if bool_decide (s = "queue") then Some StatsByQueue
  else if bool_decide (s = "kind_queue") then Some StatsByKindQueue
  else None.
Definition group_key (by_ : StatsGroupBy) (g : statsGroup) : statsGroup :=
  match by_ with StatsByKind => (g.1, "") | StatsByQueue => ("", g.2) | StatsByKindQueue => g end.

Record StatsParams := {
  pa_From : Z; pa_To : Z; pa_Kind : string; pa_Queue : string; pa_MaxRawSpan : Z; pa_GroupBy : string
}.
Record StatsCoverage := { co_RolledFrom : Z; co_RolledThrough : Z; co_RawFrom : Z; co_RawTo : Z; co_RawSpan : Z }.
Record StatsResult := {
  sr_From : Z; sr_To : Z; sr_Kinds : list KindStats; sr_Total : KindStats; sr_Coverage : StatsCoverage
}.

Section stats.
Context `{GoLib} `{RowOrder}.

Definition mergeInto (dst src : gmap statsGroup runAgg) : gmap statsGroup runAgg :=
  foldl (λ m ga, at_group ga.1 (λ x, agg_merge x ga.2) m) dst (scan (map_to_list src)).

Definition loadRolledHours (s : rollups) (from to : Z) (f : statsFilter) (class : rollupRows)
  : res (list rolledHour) :=
  scan_rows
    (merge_sort bucket_le
       (filter (λ kr, in_window from to kr.1.1 && in_class class f kr.1.2 = true)
          (scan (map_to_list (ro_hourly s))))) [].

Definition groupKindStats (aggs : gmap statsGroup runAgg) (by_ : StatsGroupBy) : list KindStats * KindStats :=
  let l := scan (map_to_list aggs) in
  let groups := foldl (λ m ga, at_group (group_key by_ ga.1) (λ x, agg_merge x ga.2) m) ∅ l in
  let total := foldl (λ t ga, agg_merge t ga.2) (newRunAgg "" "") l in
  (merge_sort stats_le ((λ ga : statsGroup * runAgg, with_queue ga.1.2 (kindStatsFromAgg ga.2)) <$> scan (map_to_list groups)),
   kindStatsFromAgg total).

Definition merge_hours (hours : list rolledHour) (m : gmap statsGroup runAgg) : gmap statsGroup runAgg :=
  foldl (λ m h, mergeInto m h.2) m hours.
Definition merge_raw (d : db) (f : statsFilter) (segs : list segment) (m : gmap statsGroup runAgg)
  : gmap statsGroup runAgg := foldl (λ m seg, mergeInto m (aggregateRuns d seg.1 seg.2 f)) m segs.

Definition windowAggs (d : db) (s : rollups) (from to : Z) (f : statsFilter) (class : rollupRows) (maxRaw : Z)
  : res (gmap statsGroup runAgg * StatsCoverage) :=
  let p := default zero_progress (ro_progress s) in
  let? plans := fitRawSpan d [planWindow from to p] maxRaw in
  let plan := default (planWindow from to p) (head plans) in
  let? hours := (if wp_rolledFrom plan <? wp_rolledTo plan
                 then loadRolledHours s (wp_rolledFrom plan) (wp_rolledTo plan) f class else Ok []) in
  Ok (merge_raw d f (wp_raw plan) (merge_hours hours ∅),
      {| co_RolledFrom := if covered p then sp_From p else zero_time;
         co_RolledThrough := if covered p then sp_To p else zero_time;
         co_RawFrom := (wp_tail plan).1; co_RawTo := (wp_tail plan).2; co_RawSpan := rawSpan plan |}).

Definition Stats (d : db) (s : rollups) (p : StatsParams) : res StatsResult :=
  match parse_groupBy (pa_GroupBy p) with
  | None => Err (ValidationError "group_by")
  | Some by_ =>
    if is_zero_time (pa_From p) || is_zero_time (pa_To p) || negb (pa_From p <? pa_To p)
    then Err (ValidationError "stats window")
    else
      let f := {| sf_Kind := pa_Kind p; sf_Queue := pa_Queue p |} in
      let class := match by_ with StatsByKind => rowsFor f true | _ => groupRows end in
      let? ' (merged, cov) := windowAggs d s (pa_From p) (pa_To p) f class (pa_MaxRawSpan p) in
      let '(kinds, total) := groupKindStats merged by_ in
      Ok {| sr_From := pa_From p; sr_To := pa_To p; sr_Kinds := kinds; sr_Total := total; sr_Coverage := cov |}
  end.
End stats.
