(* ===== verification/StatsFacts.v ===== *)
(** * Stats reads: a window served from rollups is the window served raw *)

From S2P Require Import Prelude Types Text Json Fingerprint Store Plan Sweep Retention Ids Hist Maintenance Rollup RollupFacts RollupWindows GroupFacts RollupHours Stats.

Local Open Scope Z_scope.

(** ** Reading a stored row back *)

Lemma hist_spec_counts {A} (val : A → option Z) l :
  Z.of_nat (length l) ≤ int64_max → Forall (λ c, 0 ≤ c ≤ int64_max) (hist_spec val l).
Proof.
  intros Hl. unfold hist_spec. apply Forall_fmap, Forall_forall. intros i _. simpl.
  pose proof (sum_of_bounds (λ x, in_bucket i (val x)) l) as Hb.
  lapply Hb; [clear Hb; intros Hb|].
  - rewrite wrap64_id; [lia|]. unfold in_int64, int64_min in *. lia.
  - intros x. unfold in_bucket, one_if. case_match; lia.
Qed.

Lemma agg_of_row_spec h k q l n rolledAt :
  fits l → agg_of_row (rowFromAgg h (agg_spec k q l n) rolledAt) = Ok (agg_spec k q l n).
Proof.
  intros [_ Hl]. unfold agg_of_row, rowFromAgg. cbn [hr_HistVersion hr_DurHist hr_WaitHist].
  rewrite Z.eqb_refl. cbn [negb]. agg_fields.
  rewrite !hist_roundtrip by (rewrite ?hist_spec_length; auto using hist_spec_counts). cbn.
  unfold agg_spec. f_equal. f_equal. unfold is_empty. case_bool_decide as E; [by rewrite E|done].
Qed.

(** ** The classes of rows *)

Definition class_key (class : rollupRows) : statsGroup → statsGroup :=
  match class with groupRows => id | kindRows => kind_key | totalRows => total_key end.
(** The filters a class can answer. *)
Definition class_for (class : rollupRows) (f : statsFilter) : Prop :=
  match class with groupRows => True | kindRows => sf_Queue f = "" | totalRows => sf_Kind f = "" ∧ sf_Queue f = "" end.
Definition keep_tags {A} (f : statsFilter) (l : list (statsGroup * A)) : list (statsGroup * A) :=
  filter (λ x, filter_ok f x.1.1 x.1.2 = true) l.

Lemma tag_runs_filter f l : tag_runs (filter (λ v, filter_ok f (rv_Kind v) (rv_Queue v) = true) l) = keep_tags f (tag_runs l).
Proof.
  unfold tag_runs, keep_tags. induction l as [|v l IH]; [done|]. rewrite fmap_cons, !filter_cons. simpl.
  case_decide; [by rewrite fmap_cons, IH|done].
Qed.
Lemma tag_jobs_filter f l : tag_jobs (filter (λ r, filter_ok f (j_Kind r) (j_Queue r) = true) l) = keep_tags f (tag_jobs l).
Proof.
  unfold tag_jobs, keep_tags. induction l as [|v l IH]; [done|]. rewrite fmap_cons, !filter_cons. simpl.
  case_decide; [by rewrite fmap_cons, IH|done].
Qed.

Lemma with_tag_keep {A} κ g f (l : list (statsGroup * A)) :
  (∀ x, x ∈ l → κ x.1 = g → filter_ok f x.1.1 x.1.2 = true) →
  with_tag g (retag κ (keep_tags f l)) = with_tag g (retag κ l).
Proof.
  intros Hl. unfold keep_tags, retag, with_tag. induction l as [|x l IH]; [done|].
  rewrite filter_cons, fmap_cons, (filter_cons _ (κ x.1, x.2)). cbn [fst].
  assert (∀ y, y ∈ l → κ y.1 = g → filter_ok f y.1.1 y.1.2 = true) as Hl' by (intros y Hy; apply Hl; by right).
  destruct (decide (κ x.1 = g)) as [Hx|Hx].
  - rewrite decide_True by (apply Hl; [left|done]). rewrite fmap_cons, filter_cons, decide_True by done.
    rewrite !fmap_cons. by rewrite IH.
  - case_decide; [rewrite fmap_cons, filter_cons, decide_False by done|]; by apply IH.
Qed.
Lemma with_tag_drop {A} κ g f (l : list (statsGroup * A)) :
  (∀ x, x ∈ l → κ x.1 = g → filter_ok f x.1.1 x.1.2 = false) →
  with_tag g (retag κ (keep_tags f l)) = [].
Proof.
  intros Hl. apply with_tag_nil. intros x (y & [Hf Hy]%list_elem_of_filter & ->)%retag_elem He.
  simpl in He. rewrite (Hl y) in Hf by done. done.
Qed.

(** Which of an hour's rows a class's keys reach. *)
Lemma hour_tags_class {A} class g (l : list (statsGroup * A)) :
  all_named l →
  match class with
  | groupRows => negb (is_empty g.1) && negb (is_empty g.2)
  | kindRows => negb (is_empty g.1) && is_empty g.2
  | totalRows => is_empty g.1 && is_empty g.2
  end = true →
  with_tag g (hour_tags l) = with_tag g (retag (class_key class) l).
Proof.
  unfold all_named, is_empty. rewrite Forall_forall. intros Hn Hc. unfold hour_tags. rewrite !with_tag_app.
  assert (∀ x, x ∈ l → x.1.1 ≠ "" ∧ x.1.2 ≠ "") as Hn' by (intros x Hx; by apply Hn).
  destruct class; rewrite andb_true_iff, ?negb_true_iff, ?bool_decide_eq_true, ?bool_decide_eq_false in Hc;
    destruct Hc as [H1 H2].
  - rewrite (with_tag_nil g (retag kind_key l)), (with_tag_nil g (retag total_key l)), !app_nil_r.
    + unfold retag. simpl. rewrite <-(list_fmap_id l) at 1. f_equal. apply list_fmap_ext. by intros _ [] _.
    + intros x (y & Hy & ->)%retag_elem <-. done.
    + intros x (y & Hy & ->)%retag_elem <-. done.
  - rewrite (with_tag_nil g l), (with_tag_nil g (retag total_key l)), app_nil_r; [done|..].
    + intros x (y & Hy & ->)%retag_elem <-. done.
    + intros x Hx <-. by destruct (Hn' x Hx).
  - rewrite (with_tag_nil g l), (with_tag_nil g (retag kind_key l)); [done|..].
    + intros x (y & Hy & ->)%retag_elem <-. by destruct (Hn' y Hy).
    + intros x Hx <-. by destruct (Hn' x Hx).
Qed.

(** A class of the hour's rows holds the runs the filter keeps, under the class's keys. *)
Lemma class_tags {A} class f g (l : list (statsGroup * A)) :
  all_named l → class_for class f →
  with_tag g (retag (class_key class) (keep_tags f l)) =
  if in_class class f g then with_tag g (hour_tags l) else [].
Proof.
  intros Hn Hc. assert (∀ x, x ∈ l → x.1.1 ≠ "" ∧ x.1.2 ≠ "") as Hn'.
  { unfold all_named in Hn. rewrite Forall_forall in Hn. intros x Hx. by apply Hn. }
  assert (∀ s, s ≠ "" → is_empty s = false) as He by (intros s Hs; unfold is_empty; by apply bool_decide_eq_false).
  destruct (in_class class f g) eqn:E.
  - rewrite (hour_tags_class class) by (try done; destruct class; simpl in E; rewrite ?andb_true_iff in *; tauto).
    apply with_tag_keep. intros x Hx <-. destruct (Hn' x Hx). destruct class; simpl in *.
    + by apply andb_true_iff in E as [_ E].
    + apply andb_true_iff in E as [_ E]. unfold filter_ok. by rewrite E, Hc.
    + unfold filter_ok. destruct Hc as [-> ->]. done.
  - apply with_tag_drop. intros x Hx <-. destruct (Hn' x Hx) as [H1%He H2%He]. destruct class; simpl in E, Hc.
    + by rewrite H1, H2 in E.
    + rewrite H1 in E. simpl in E. unfold filter_ok. by rewrite E.
    + done.
Qed.

(** ** Grouping rows by hour *)

Section grouping.
Context (V : Z * statsGroup → option runAgg).
Abbreviation keyed_row := ((Z * statsGroup) * jobStatsHourlyRow)%type.

(** The row is [V]'s aggregate at its key. *)
Definition reads (kr : keyed_row) : Prop :=
  ∃ a, agg_of_row kr.2 = Ok a ∧ (ag_Kind a, ag_Queue a) = kr.1.2 ∧ V kr.1 = Some a.

(** The hours read from the keys [ks] so far. *)
Record grouped (ks : list (Z * statsGroup)) (out : list rolledHour) : Prop := {
  gr_sorted : StronglySorted Z.lt out.*1;
  gr_entries : ∀ h m, (h, m) ∈ out → ∀ g a, m !! g = Some a ↔ (h, g) ∈ ks ∧ V (h, g) = Some a;
  gr_hours : ∀ k, k ∈ ks → k.1 ∈ out.*1;
  gr_keys : ∀ h, h ∈ out.*1 → ∃ g, (h, g) ∈ ks
}.

Lemma grouped_nil : grouped [] [].
Proof.
  split; [constructor|intros h m Hin; inversion Hin|intros k Hin; inversion Hin|intros h Hin; inversion Hin].
Qed.

Lemma sorted_snoc (l : list Z) x : StronglySorted Z.lt (l ++ [x]) ↔ StronglySorted Z.lt l ∧ Forall (λ y, y < x) l.
Proof.
  induction l as [|y l IH]; simpl.
  - split; [by repeat constructor|]. intros _. repeat constructor.
  - split.
    + intros [Hs Hy]%StronglySorted_inv. apply IH in Hs as [Hs Hx]. apply Forall_app in Hy as [Hy Hyx].
      apply Forall_inv in Hyx. split; [by constructor|]. constructor; [exact Hyx|exact Hx].
    + intros [[Hs Hy]%StronglySorted_inv Hx]. apply Forall_cons in Hx as [Hyx Hx]. constructor; [by apply IH|].
      apply Forall_app. split; [done|]. constructor; [done|constructor].
Qed.

(** A row of the hour being read. *)
Lemma grouped_join ks out h m g a :
  grouped ks (out ++ [(h, m)]) → V (h, g) = Some a → grouped (ks ++ [(h, g)]) (out ++ [(h, <[g := a]> m)]).
Proof.
  intros [Hs He Hh Hk] HV. rewrite fmap_app in *. csimpl in *. split; rewrite ?fmap_app; csimpl.
  - done.
  - intros h' m' Hin g' a'. rewrite elem_of_app, list_elem_of_singleton.
    apply elem_of_app in Hin as [Hin|Hin%list_elem_of_singleton].
    + rewrite (He h' m') by (apply elem_of_app; by left). split; [naive_solver|].
      intros [[Hk'|[= -> ->]] HV']; [done|]. exfalso. apply sorted_snoc in Hs as [_ Hs].
      rewrite Forall_forall in Hs. enough (h < h) by lia. apply Hs. apply list_elem_of_fmap. by exists (h, m').
    + injection Hin as -> ->. specialize (He h m ltac:(apply elem_of_app; right; by left)).
      destruct (decide (g' = g)) as [->|Hne].
      * rewrite lookup_insert_eq. split; [intros [= <-]; auto|]. intros [_ HV']. congruence.
      * rewrite lookup_insert_ne by done. rewrite He. split; [naive_solver|].
        intros [[Hk'|[= ->]] HV']; done.
  - intros k [Hin|Hin%list_elem_of_singleton]%elem_of_app; [by apply Hh|]. subst k. apply elem_of_app. right. by left.
  - intros h' Hin. destruct (Hk h' Hin) as [g' Hg]. exists g'. apply elem_of_app. by left.
Qed.
(** The first row of a later hour. *)
Lemma grouped_start ks out h g a :
  grouped ks out → Forall (λ y, y < h) out.*1 → V (h, g) = Some a →
  grouped (ks ++ [(h, g)]) (out ++ [(h, {[ g := a ]})]).
Proof.
  intros [Hs He Hh Hk] Hlt HV. split; rewrite ?fmap_app; csimpl.
  - by apply sorted_snoc.
  - assert (∀ g', (h, g') ∉ ks) as Hno.
    { intros g' Hin%Hh. rewrite Forall_forall in Hlt. specialize (Hlt _ Hin). simpl in Hlt. lia. }
    intros h' m' Hin g' a'. rewrite elem_of_app, list_elem_of_singleton.
    apply elem_of_app in Hin as [Hin|Hin%list_elem_of_singleton].
    + rewrite (He h' m' Hin). split; [naive_solver|]. intros [[Hk'|[= -> ->]] HV']; [done|].
      exfalso. rewrite Forall_forall in Hlt. enough (h < h) by lia. apply Hlt. apply list_elem_of_fmap. by exists (h, m').
    + injection Hin as -> ->. rewrite lookup_singleton_Some. split; [intros [<- <-]; auto|].
      intros [[Hk'|[= ->]] HV']; [by destruct (Hno g')|]. split; congruence.
  - intros k [Hin|Hin%list_elem_of_singleton]%elem_of_app; apply elem_of_app; [left; by apply Hh|].
    subst k. right. by left.
  - intros h' [Hin|Hin%list_elem_of_singleton]%elem_of_app.
    + destruct (Hk h' Hin) as [g' Hg]. exists g'. apply elem_of_app. by left.
    + subst h'. exists g. apply elem_of_app. right. by left.
Qed.

Lemma push_row_grouped ks out h g a :
  grouped ks out → (∀ k, k ∈ ks → k.1 ≤ h) → (ag_Kind a, ag_Queue a) = g → V (h, g) = Some a →
  grouped (ks ++ [(h, g)]) (push_row h a out).
Proof.
  intros Hg Hle Hkey HV. unfold push_row. rewrite Hkey.
  assert (∀ y, y ∈ out.*1 → y ≤ h) as Hb.
  { intros y Hy. destruct (gr_keys _ _ Hg y Hy) as [g' Hin]. by apply (Hle (y, g')). }
  destruct out as [|[h' m] out _] using rev_ind; [apply grouped_start; [done|constructor|done]|].
  rewrite last_snoc. destruct (Z.eqb_spec h' h) as [->|Hne].
  - rewrite length_app, take_app_length' by (simpl; lia). by apply grouped_join.
  - apply grouped_start; [done| |done]. pose proof (gr_sorted _ _ Hg) as Hs. rewrite fmap_app in *. csimpl in *.
    apply sorted_snoc in Hs as [_ Hs]. assert (h' ≤ h) by (apply Hb, elem_of_app; right; by left).
    apply Forall_app. split; [|constructor; [lia|constructor]].
    eapply Forall_impl; [exact Hs|]. simpl. intros y Hy. lia.
Qed.

Lemma scan_rows_grouped rows ks out :
  Forall reads rows → StronglySorted bucket_le rows → (∀ k kr, k ∈ ks → kr ∈ rows → k.1 ≤ kr.1.1) →
  grouped ks out → ∃ out', scan_rows rows out = Ok out' ∧ grouped (ks ++ rows.*1) out'.
Proof.
  revert ks out. induction rows as [|kr rows IH]; intros ks out Hr Hs Hle Hg; csimpl.
  { exists out. by rewrite app_nil_r. }
  apply Forall_cons in Hr as [(a & Ha & Hkey & HV) Hr]. rewrite Ha.
  apply StronglySorted_inv in Hs as [Hs Hx]. rewrite Forall_forall in Hx.
  destruct (IH (ks ++ [kr.1]) (push_row kr.1.1 a out) Hr Hs) as (out' & Ho & Hg').
  - intros k y [Hk|Hk%list_elem_of_singleton]%elem_of_app Hy; [apply Hle; [done|by right]|]. subst k. by apply Hx.
  - destruct kr as [[h g] r]. simpl in *. apply push_row_grouped; [done| |done|done].
    intros k Hk. by apply (Hle k ((h, g), r)); [|left].
  - exists out'. split; [done|]. by rewrite <-(assoc_L (++)) in Hg'.
Qed.
End grouping.

(** ** Windows by the hour *)

Definition hour_list (a : Z) (n : nat) : list Z := (λ i : nat, a + Z.of_nat i * hour) <$> seq 0 n.

Section additive.
Context {A : Type} (F : Z → Z → list A).
Hypothesis F_split : ∀ a b c, a ≤ b ≤ c → F a c ≡ₚ F a b ++ F b c.
Hypothesis F_none : ∀ a b, b ≤ a → F a b = [].

Lemma window_hours a n : F a (a + Z.of_nat n * hour) ≡ₚ hour_list a n ≫= λ h, F h (h + hour).
Proof.
  induction n as [|n IH]; [rewrite F_none by lia; done|]. pose proof hour_pos.
  rewrite (F_split _ (a + Z.of_nat n * hour)) by lia. rewrite IH. unfold hour_list.
  rewrite seq_S, fmap_app, bind_app. f_equiv. csimpl. rewrite app_nil_r.
  replace (a + Z.of_nat n * hour + hour) with (a + Z.of_nat (S n) * hour) by lia. done.
Qed.
End additive.

Lemma hour_list_NoDup a n : NoDup (hour_list a n).
Proof.
  unfold hour_list. apply NoDup_fmap_2_strong; [|apply NoDup_seq]. pose proof hour_pos. intros i j _ _ Hij. nia.
Qed.
Lemma hour_list_elem a b h n :
  aligned a → b = a + Z.of_nat n * hour → h ∈ hour_list a n ↔ aligned h ∧ a ≤ h < b.
Proof.
  intros Ha ->. pose proof hour_pos. unfold hour_list. rewrite list_elem_of_fmap. split.
  - intros (i & -> & Hi%elem_of_seq). split; [|nia]. destruct Ha as [k ->]. exists (k + Z.of_nat i). lia.
  - intros [[k ->] Hh]. destruct Ha as [j ->]. exists (Z.to_nat (k - j)). rewrite elem_of_seq. nia.
Qed.
Lemma aligned_span a b : aligned a → aligned b → a ≤ b → ∃ n, b = a + Z.of_nat n * hour.
Proof.
  intros [i ->] [j ->] Hle. pose proof hour_pos. exists (Z.to_nat (j - i)). nia.
Qed.

(** Dropping the hours nothing happened in. *)
Lemma bind_subset {A B} `{EqDecision A} (F : A → list B) (l1 l2 : list A) :
  NoDup l1 → NoDup l2 → (∀ x, x ∈ l1 → x ∈ l2) → (∀ x, x ∈ l2 → x ∉ l1 → F x = []) →
  l1 ≫= F ≡ₚ l2 ≫= F.
Proof.
  intros H1 H2 Hsub Hout.
  assert (l2 ≡ₚ l1 ++ filter (λ x, x ∉ l1) l2) as Hp.
  { apply NoDup_Permutation; [done| |].
    - apply NoDup_app. split; [done|]. split; [|by apply NoDup_filter]. intros x Hx [Hn _]%list_elem_of_filter. done.
    - intros x. rewrite elem_of_app, list_elem_of_filter. destruct (decide (x ∈ l1)); naive_solver. }
  rewrite Hp, bind_app. assert (filter (λ x, x ∉ l1) l2 ≫= F = []) as ->; [|by rewrite app_nil_r].
  apply elem_of_nil_inv. intros y (x & Hy & [Hn Hx]%list_elem_of_filter)%list_elem_of_bind.
  rewrite (Hout x Hx Hn) in Hy. by apply elem_of_nil in Hy.
Qed.

(** ** The hours a read loads *)

#[global] Instance bucket_le_total : Total bucket_le.
Proof. intros a b. unfold bucket_le. lia. Qed.
#[global] Instance bucket_le_trans : Transitive bucket_le.
Proof. intros a b c. unfold bucket_le. lia. Qed.

Section loading.
Context `{GoLib} `{RowOrder} (d : db) (s : rollups) (p : statsProgress) (f : statsFilter) (class : rollupRows).
Hypothesis Hd : regular d.
Hypothesis Hs : sound d s.
Hypothesis Hp : ro_progress s = Some p.
Hypothesis Hc : class_for class f.

Definition class_runs (a b : Z) : tagged_runs := retag (class_key class) (tag_runs (runs_in f d a b)).
Definition class_jobs (a b : Z) : tagged_jobs := retag (class_key class) (tag_jobs (jobs_in f d a b)).

Lemma class_entry h g :
  tagged (class_runs h (h + hour)) (class_jobs h (h + hour)) g = if in_class class f g then hour_entry d h g else None.
Proof.
  unfold class_runs, class_jobs, runs_in, jobs_in. rewrite tag_runs_filter, tag_jobs_filter.
  unfold tagged, hour_entry. rewrite !class_tags by (done || by apply finished_in_named || by apply inserted_in_named).
  by destruct (in_class class f g).
Qed.

(** The aggregate a read of [a, b) finds at a key. *)
Definition read_at (a b : Z) (k : Z * statsGroup) : option runAgg :=
  if in_window a b k.1 && in_class class f k.2 then hour_entry d k.1 k.2 else None.
Definition rows_read (a b : Z) : list ((Z * statsGroup) * jobStatsHourlyRow) :=
  merge_sort bucket_le
    (filter (λ kr, in_window a b kr.1.1 && in_class class f kr.1.2 = true) (scan (map_to_list (ro_hourly s)))).

Lemma rows_read_elem a b k r :
  (k, r) ∈ rows_read a b ↔ in_window a b k.1 && in_class class f k.2 = true ∧ ro_hourly s !! k = Some r.
Proof.
  unfold rows_read. rewrite (merge_sort_Permutation bucket_le), list_elem_of_filter.
  by rewrite (scan_perm (map_to_list (ro_hourly s))), elem_of_map_to_list.
Qed.

Section span.
Context (a b : Z).
Hypothesis Hfa : sp_From p ≤ a.
Hypothesis Hbt : b ≤ sp_To p.

Lemma window_rolled h : aligned h → in_window a b h = true → rows_rolled d s h.
Proof. intros Hh Hw. unfold in_window in Hw. apply (sound_hours d s Hs p h Hp Hh). lia. Qed.

Lemma rows_read_keys k : k ∈ (rows_read a b).*1 ↔ is_Some (read_at a b k) ∧ aligned k.1.
Proof.
  rewrite list_elem_of_fmap. split.
  - intros ([k' r] & -> & [Hw Hr]%rows_read_elem). simpl. pose proof (sound_keys d s _ _ Hs Hr) as Hal.
    split; [|done]. unfold read_at. rewrite Hw. apply andb_true_iff in Hw as [Hw _].
    destruct (window_rolled _ Hal Hw) as [at_ Hat]. destruct k' as [h g]. simpl in *. rewrite Hat in Hr.
    by apply fmap_Some in Hr as (e & -> & _).
  - intros [[e He] Hal]. unfold read_at in He. destruct (_ && _) eqn:Hw; [|done].
    pose proof Hw as [Hw' _]%andb_true_iff. destruct (window_rolled _ Hal Hw') as [at_ Hat].
    destruct k as [h g]. simpl in *. specialize (Hat g). rewrite He in Hat. simpl in Hat.
    eexists (_, _). split; [done|]. apply rows_read_elem. split; [done|exact Hat].
Qed.

Lemma rows_read_parse : Forall (reads (read_at a b)) (rows_read a b).
Proof.
  apply Forall_forall. intros [[h g] r] [Hw Hr]%rows_read_elem. pose proof (sound_keys d s _ _ Hs Hr) as Hal.
  simpl in *. pose proof Hw as [Hw' Hin]%andb_true_iff. destruct (window_rolled _ Hal Hw') as [at_ Hat].
  rewrite Hat in Hr. apply fmap_Some in Hr as (e & He & ->). exists e. unfold read_at. simpl. rewrite Hw', Hin.
  split; [|split; [by eapply tagged_key|done]]. apply tagged_inv in He as [_ ->]. apply agg_of_row_spec.
  pose proof (class_tags class f g (tag_runs (finished_in d h (h + hour))) (finished_in_named d h (h + hour) Hd) Hc) as Ht.
  rewrite Hin in Ht. rewrite <-Ht. apply fits_tag. rewrite retag_snd, <-tag_runs_filter, tag_runs_snd.
  by apply runs_in_fits.
Qed.

(** An hour that was read holds its class's runs. *)
Lemma hour_read hours h m :
  grouped (read_at a b) (rows_read a b).*1 hours → (h, m) ∈ hours →
  aligned h ∧ a ≤ h < b ∧ represents m (class_runs h (h + hour)) (class_jobs h (h + hour)).
Proof.
  intros [_ Hent _ Hk] Hin.
  destruct (Hk h) as [g [[e He] Hal]%rows_read_keys]; [apply list_elem_of_fmap; by exists (h, m)|].
  simpl in Hal. assert (in_window a b h = true) as Hw.
  { unfold read_at in He. simpl in He. by destruct (in_window a b h). }
  split; [done|]. split; [unfold in_window in Hw; lia|]. intros g'. rewrite class_entry.
  assert (read_at a b (h, g') = if in_class class f g' then hour_entry d h g' else None) as <-
    by (unfold read_at; simpl; by rewrite Hw).
  apply option_eq. intros e'. rewrite (Hent h m Hin g' e'), rows_read_keys. naive_solver.
Qed.
(** An hour that was not read holds none. *)
Lemma hour_unread hours h :
  grouped (read_at a b) (rows_read a b).*1 hours → aligned h → a ≤ h < b → h ∉ hours.*1 →
  runs_in f d h (h + hour) = [] ∧ jobs_in f d h (h + hour) = [].
Proof.
  intros [_ _ Hhrs _] Hal Hh Hno.
  assert (represents ∅ (class_runs h (h + hour)) (class_jobs h (h + hour))) as Hr.
  { intros g. rewrite class_entry. destruct (in_class class f g) eqn:Ei; [|done].
    destruct (hour_entry d h g) as [e|] eqn:Ee; [|done]. exfalso. apply Hno, (Hhrs (h, g)), rows_read_keys.
    unfold read_at. simpl. rewrite Ei, Ee. assert (in_window a b h = true) as -> by (unfold in_window; lia). done. }
  apply represents_nonempty in Hr. unfold class_runs, class_jobs, retag, tag_runs, tag_jobs in Hr.
  destruct (runs_in f d h (h + hour)), (jobs_in f d h (h + hour)); [done|exfalso; apply Hr; auto; by right..].
Qed.

Lemma loadRolledHours_spec :
  ∃ hours, loadRolledHours s a b f class = Ok hours ∧ grouped (read_at a b) (rows_read a b).*1 hours.
Proof.
  destruct (scan_rows_grouped (read_at a b) (rows_read a b) [] []) as (hours & Hload & Hg).
  - apply rows_read_parse.
  - apply (StronglySorted_merge_sort bucket_le).
  - by intros k kr ?%elem_of_nil.
  - apply grouped_nil.
  - by exists hours.
Qed.
End span.

Lemma retag_id {A} (l : list (statsGroup * A)) : retag id l = l.
Proof. unfold retag. rewrite <-(list_fmap_id l) at 2. apply list_fmap_ext. by intros ? [] _. Qed.
Lemma mergeInto_spec m1 T1 J1 m2 T2 J2 :
  represents m1 T1 J1 → represents m2 T2 J2 → fits T2.*2 → represents (mergeInto m1 m2) (T2 ++ T1) (J2 ++ J1).
Proof.
  intros H1 H2 Hf. pose proof (merge_by_spec id m1 T1 J1 m2 T2 J2 H1 H2 Hf) as Hm. by rewrite !retag_id in Hm.
Qed.

Lemma class_runs_fits a b : fits (class_runs a b).*2.
Proof. unfold class_runs. rewrite retag_snd, tag_runs_snd. by apply runs_in_fits. Qed.
Lemma merge_hours_spec hours m T J :
  (∀ h m', (h, m') ∈ hours → represents m' (class_runs h (h + hour)) (class_jobs h (h + hour))) →
  represents m T J →
  represents (merge_hours hours m) ((hours.*1 ≫= λ h, class_runs h (h + hour)) ++ T)
    ((hours.*1 ≫= λ h, class_jobs h (h + hour)) ++ J).
Proof.
  revert m T J. unfold merge_hours. induction hours as [|[h m'] hours IH]; intros m T J Hh Hm; csimpl; [done|].
  assert (represents (mergeInto m m') (class_runs h (h + hour) ++ T) (class_jobs h (h + hour) ++ J)) as Hm'.
  { apply mergeInto_spec; [done|apply Hh; by left|apply class_runs_fits]. }
  apply (IH _ _ _ (λ h' m'' Hin, Hh h' m'' (list_elem_of_further _ _ _ Hin))) in Hm'.
  rewrite !(assoc_L (++)) in Hm'.
  by rewrite (Permutation_app_comm (_ ≫= _) (class_runs h _)), (Permutation_app_comm (_ ≫= _) (class_jobs h _)) in Hm'.
Qed.

(** The hours loaded for a window hold its runs and inserts, hour by hour. *)
Lemma rolled_hours_list a b :
  aligned a → aligned b → a ≤ b → sp_From p ≤ a → b ≤ sp_To p →
  ∃ hours, loadRolledHours s a b f class = Ok hours ∧
    (∀ h m, (h, m) ∈ hours → represents m (class_runs h (h + hour)) (class_jobs h (h + hour))) ∧
    (hours.*1 ≫= λ h, class_runs h (h + hour)) ≡ₚ class_runs a b ∧
    (hours.*1 ≫= λ h, class_jobs h (h + hour)) ≡ₚ class_jobs a b.
Proof.
  intros Ha Hb Hab Hfa Hbt. destruct (loadRolledHours_spec a b Hfa Hbt) as (hours & Hl & Hg).
  exists hours. split; [done|].
  split; [exact (λ h m' Hin, proj2 (proj2 (hour_read a b Hfa Hbt hours h m' Hg Hin)))|].
  destruct (aligned_span a b Ha Hb Hab) as [n Hn].
  assert (NoDup hours.*1) as Hnd.
  { clear -Hg. destruct Hg as [Hs _ _ _]. induction Hs as [|x l _ IH Hx]; constructor; [|done].
    intros Hin. rewrite Forall_forall in Hx. specialize (Hx _ Hin). lia. }
  assert (∀ h, h ∈ hours.*1 → h ∈ hour_list a n) as Hsub.
  { intros h ([h' m'] & -> & Hin)%list_elem_of_fmap. destruct (hour_read a b Hfa Hbt hours h' m' Hg Hin) as (? & ? & _).
    by apply (hour_list_elem a b). }
  assert (∀ h, h ∈ hour_list a n → h ∉ hours.*1 → runs_in f d h (h + hour) = [] ∧ jobs_in f d h (h + hour) = []) as Hno.
  { intros h [? ?]%(hour_list_elem a b h n Ha Hn) Hx. by apply (hour_unread a b Hfa Hbt hours). }
  rewrite (bind_subset (λ h, class_runs h (h + hour)) hours.*1 (hour_list a n));
    [|done|apply hour_list_NoDup|done|intros h Hh1 Hh2; unfold class_runs; by rewrite (proj1 (Hno h Hh1 Hh2))].
  rewrite (bind_subset (λ h, class_jobs h (h + hour)) hours.*1 (hour_list a n));
    [|done|apply hour_list_NoDup|done|intros h Hh1 Hh2; unfold class_jobs; by rewrite (proj2 (Hno h Hh1 Hh2))].
  rewrite Hn. split; symmetry; [apply (window_hours class_runs)|apply (window_hours class_jobs)].
  - intros x y z Hxyz. unfold class_runs. by rewrite (runs_in_split f d x y z Hxyz), tag_runs_app, retag_app.
  - intros x y Hxy. unfold class_runs, runs_in. by rewrite finished_in_none.
  - intros x y z Hxyz. unfold class_jobs. by rewrite (jobs_in_split f d x y z Hxyz), tag_jobs_app, retag_app.
  - intros x y Hxy. unfold class_jobs, jobs_in. by rewrite inserted_in_none.
Qed.
(** The rolled part of a window, served from its rows. *)
Lemma rolled_hours_spec a b :
  aligned a → aligned b → a ≤ b → sp_From p ≤ a → b ≤ sp_To p →
  ∃ hours, loadRolledHours s a b f class = Ok hours ∧
    ∀ m T J, represents m T J → represents (merge_hours hours m) (class_runs a b ++ T) (class_jobs a b ++ J).
Proof.
  intros Ha Hb Hab Hfa Hbt. destruct (rolled_hours_list a b Ha Hb Hab Hfa Hbt) as (hours & Hl & Hh & HT & HJ).
  exists hours. split; [done|]. intros m T J Hm. rewrite <-HT, <-HJ. by apply merge_hours_spec.
Qed.
End loading.

(** ** The raw segments *)

Definition seg_runs (f : statsFilter) (d : db) (segs : list segment) : list runView :=
  segs ≫= λ seg, runs_in f d seg.1 seg.2.
Definition seg_jobs (f : statsFilter) (d : db) (segs : list segment) : list jobRow :=
  segs ≫= λ seg, jobs_in f d seg.1 seg.2.

Lemma runs_in_none f d a b : b ≤ a → runs_in f d a b = [].
Proof. intros Hab. unfold runs_in. by rewrite finished_in_none. Qed.
Lemma jobs_in_none f d a b : b ≤ a → jobs_in f d a b = [].
Proof. intros Hab. unfold jobs_in. by rewrite inserted_in_none. Qed.
Lemma runs_in_quiet f d a b : inactive d a b → runs_in f d a b = [].
Proof. intros [Hf _]. unfold runs_in. by rewrite Hf. Qed.
Lemma jobs_in_quiet f d a b : inactive d a b → jobs_in f d a b = [].
Proof. intros [_ Hi]. unfold jobs_in. by rewrite Hi. Qed.

Section raw.
Context `{GoLib} `{RowOrder} (d : db) (f : statsFilter).
Hypothesis Hd : regular d.

Lemma aggregateRuns_any a b :
  represents (aggregateRuns d a b f) (tag_runs (runs_in f d a b)) (tag_jobs (jobs_in f d a b)).
Proof.
  destruct (Z.ltb_spec a b) as [Hab|Hab].
  - apply aggregateRuns_spec; [done|by apply runs_in_fits].
  - rewrite runs_in_none, jobs_in_none by done. unfold aggregateRuns, aggregateWindow.
    assert ((a <? b) = false) as -> by lia. apply represents_empty.
Qed.
Lemma merge_raw_spec segs m T J :
  represents m T J →
  represents (merge_raw d f segs m) (tag_runs (seg_runs f d segs) ++ T) (tag_jobs (seg_jobs f d segs) ++ J).
Proof.
  revert m T J. unfold merge_raw, seg_runs, seg_jobs.
  induction segs as [|[a b] segs IH]; intros m T J Hm; csimpl; [done|]. rewrite tag_runs_app, tag_jobs_app.
  assert (represents (mergeInto m (aggregateRuns d a b f)) (tag_runs (runs_in f d a b) ++ T)
    (tag_jobs (jobs_in f d a b) ++ J)) as Hm'.
  { apply mergeInto_spec; [done|apply aggregateRuns_any|rewrite tag_runs_snd; by apply runs_in_fits]. }
  apply IH in Hm'. rewrite !(assoc_L (++)) in Hm'.
  by rewrite (Permutation_app_comm _ (tag_runs (runs_in f d a b))), (Permutation_app_comm _ (tag_jobs (jobs_in f d a b))) in Hm'.
Qed.

(** A plan's segments and its rolled hours are the window. *)
Lemma planWindow_splits a b p :
  a < b → (covered p = true → aligned (sp_From p) ∧ aligned (sp_To p)) →
  let plan := planWindow a b p in
  runs_in f d a b ≡ₚ runs_in f d (wp_rolledFrom plan) (wp_rolledTo plan) ++ seg_runs f d (wp_raw plan) ∧
  jobs_in f d a b ≡ₚ jobs_in f d (wp_rolledFrom plan) (wp_rolledTo plan) ++ seg_jobs f d (wp_raw plan) ∧
  (wp_rolledFrom plan < wp_rolledTo plan →
   covered p = true ∧ aligned (wp_rolledFrom plan) ∧ aligned (wp_rolledTo plan) ∧
   sp_From p ≤ wp_rolledFrom plan ∧ wp_rolledTo plan ≤ sp_To p) ∧
  Forall (λ seg, a ≤ seg.1 ∧ seg.2 ≤ b) (wp_raw plan).
Proof.
  intros Hab Hal plan. unfold plan, planWindow. clear plan. destruct (covered p) eqn:Ec; cbn [negb orb].
  2:{ cbn [wp_rolledFrom wp_rolledTo wp_raw]. rewrite (runs_in_none f d zero_time), (jobs_in_none f d zero_time) by lia.
      unfold seg_runs, seg_jobs.
      csimpl. rewrite !app_nil_r. split; [done|]. split; [done|]. split; [lia|]. constructor; [simpl; lia|constructor]. }
  destruct (Hal eq_refl) as [Hf Ht]. destruct (ceilHour_spec a) as [Ha Ha'], (floorHour_spec b) as [Hb Hb'].
  set (rf := Z.max (ceilHour a) (sp_From p)). set (rt := Z.min (floorHour b) (sp_To p)).
  assert (aligned rf ∧ aligned rt) as [Hrf Hrt].
  { unfold rf, rt. split; [destruct (Z.max_spec (ceilHour a) (sp_From p)) as [[_ ->]|[_ ->]]|
                           destruct (Z.min_spec (floorHour b) (sp_To p)) as [[_ ->]|[_ ->]]]; done. }
  destruct (Z.ltb_spec rf rt) as [Hlt|Hge]; cbn [negb].
  2:{ cbn [wp_rolledFrom wp_rolledTo wp_raw]. rewrite (runs_in_none f d zero_time), (jobs_in_none f d zero_time) by lia.
      unfold seg_runs, seg_jobs.
      csimpl. rewrite !app_nil_r. split; [done|]. split; [done|]. split; [lia|]. constructor; [simpl; lia|constructor]. }
  cbn [wp_rolledFrom wp_rolledTo wp_raw]. assert (a ≤ rf ∧ rt ≤ b) as [Har Hrb] by (unfold rf, rt; lia).
  split; [|split; [|split]]; [| |intros _; split_and!; [done..|unfold rf; lia|unfold rt; lia]|].
  - rewrite (runs_in_split f d a rf b), (runs_in_split f d rf rt b) by lia. unfold seg_runs. rewrite bind_app.
    destruct (Z.ltb_spec a rf), (Z.ltb_spec rt b); csimpl; rewrite ?app_nil_r;
      try rewrite (runs_in_none f d a rf) by lia; try rewrite (runs_in_none f d rt b) by lia;
      rewrite ?app_nil_r; first [done|apply Permutation_app_swap_app|apply Permutation_app_comm].
  - rewrite (jobs_in_split f d a rf b), (jobs_in_split f d rf rt b) by lia. unfold seg_jobs. rewrite bind_app.
    destruct (Z.ltb_spec a rf), (Z.ltb_spec rt b); csimpl; rewrite ?app_nil_r;
      try rewrite (jobs_in_none f d a rf) by lia; try rewrite (jobs_in_none f d rt b) by lia;
      rewrite ?app_nil_r; first [done|apply Permutation_app_swap_app|apply Permutation_app_comm].
  - apply Forall_forall. intros seg [Hin|Hin]%elem_of_app; case_match; try (by apply elem_of_nil in Hin);
      apply list_elem_of_singleton in Hin; subst; simpl; lia.
Qed.
End raw.

(** ** The raw cap *)

Section fit.
Context (d : db).
Hypothesis Hd : regular d.

Lemma raw_start_le (segs : list segment) st :
  Forall (λ seg, seg.1 ≠ zero_time) segs →
  (∀ seg, seg ∈ segs →
    foldl (λ st seg, if is_zero_time st || (seg.1 <? st) then seg.1 else st) st segs ≤ seg.1) ∧
  (st ≠ zero_time → foldl (λ st seg, if is_zero_time st || (seg.1 <? st) then seg.1 else st) st segs ≤ st).
Proof.
  revert st. induction segs as [|seg segs IH]; intros st Hz; [split; [by intros ? ?%elem_of_nil|done]|].
  apply Forall_cons in Hz as [Hs Hz]. cbn [foldl].
  set (st' := if is_zero_time st || (seg.1 <? st) then seg.1 else st).
  destruct (IH st' Hz) as [IH1 IH2].
  assert (st' ≤ seg.1 ∧ st' ≠ zero_time ∧ (st ≠ zero_time → st' ≤ st)) as (H1 & H2 & H3).
  { unfold st', is_zero_time. destruct (Z.eqb_spec st zero_time); simpl; [lia|].
    destruct (Z.ltb_spec seg.1 st); lia. }
  specialize (IH2 H2). split; [|intros; specialize (H3 ltac:(done)); lia].
  intros x [->|Hx]%elem_of_cons; [lia|by apply IH1].
Qed.
Lemma raw_end_ge (segs : list segment) e :
  e ≤ foldl (λ e seg, Z.max e seg.2) e segs ∧
  ∀ seg, seg ∈ segs → seg.2 ≤ foldl (λ e seg, Z.max e seg.2) e segs.
Proof.
  revert e. induction segs as [|seg segs IH]; intros e; [split; [done|by intros ? ?%elem_of_nil]|].
  cbn [foldl]. destruct (IH (Z.max e seg.2)) as [IH1 IH2]. split; [lia|].
  intros x [->|Hx]%elem_of_cons; [lia|by apply IH2].
Qed.

(** What trimming drops from a segment holds nothing. *)
Lemma trim_segment_quiet start end_ seg :
  start ≤ seg.1 → seg.2 ≤ end_ →
  match trim_segment (nextActivityAt d start end_) seg with
  | Some seg' => seg'.2 = seg.2 ∧ seg.1 ≤ seg'.1 ∧ (seg.1 ≤ seg.2 → inactive d seg.1 seg'.1)
  | None => seg.1 ≤ seg.2 → inactive d seg.1 seg.2
  end.
Proof.
  intros Hst Hen. pose proof (nextActivityAt_skips d start end_ (reg_ids d Hd)) as Hq. unfold trim_segment.
  destruct (nextActivityAt d start end_) as [t|].
  - destruct (Z.ltb_spec t seg.2); simpl.
    + split; [done|]. split; [lia|]. intros Hle. destruct (Z.le_gt_cases t seg.1).
      * apply quiet_none. lia.
      * apply (quiet_sub d start _ _ (Z.min t end_)); [lia|lia|done].
    + intros Hle. apply (quiet_sub d start _ _ (Z.min t end_)); [lia|lia|done].
  - intros Hle. by apply (quiet_sub d start _ _ end_).
Qed.
Lemma trim_segment_runs f start end_ seg :
  start ≤ seg.1 → seg.2 ≤ end_ →
  runs_in f d seg.1 seg.2 ≡ₚ seg_runs f d (option_list (trim_segment (nextActivityAt d start end_) seg)) ∧
  jobs_in f d seg.1 seg.2 ≡ₚ seg_jobs f d (option_list (trim_segment (nextActivityAt d start end_) seg)).
Proof.
  intros Hst Hen. pose proof (trim_segment_quiet start end_ seg Hst Hen) as Ht.
  destruct (Z.le_gt_cases seg.1 seg.2) as [Hle|Hgt].
  - destruct (trim_segment _ seg) as [seg'|]; unfold seg_runs, seg_jobs; csimpl.
    + destruct Ht as (He & Hs & Hq). specialize (Hq Hle). rewrite !app_nil_r, He.
      destruct (Z.le_gt_cases seg'.1 seg.2).
      * rewrite (runs_in_split f d seg.1 seg'.1 seg.2), (jobs_in_split f d seg.1 seg'.1 seg.2) by lia.
        by rewrite (runs_in_quiet _ _ _ _ Hq), (jobs_in_quiet _ _ _ _ Hq).
      * rewrite (runs_in_none f d seg'.1), (jobs_in_none f d seg'.1) by lia.
        assert (inactive d seg.1 seg.2) as Hq' by (apply (quiet_sub d seg.1 _ _ seg'.1); [lia|lia|done]).
        by rewrite (runs_in_quiet _ _ _ _ Hq'), (jobs_in_quiet _ _ _ _ Hq').
    + specialize (Ht Hle). by rewrite (runs_in_quiet _ _ _ _ Ht), (jobs_in_quiet _ _ _ _ Ht).
  - rewrite (runs_in_none f d seg.1), (jobs_in_none f d seg.1) by lia.
    destruct (trim_segment _ seg) as [seg'|]; unfold seg_runs, seg_jobs; csimpl; [|done].
    destruct Ht as (He & Hs & _). rewrite (runs_in_none f d seg'.1), (jobs_in_none f d seg'.1) by lia. done.
Qed.
Lemma trim_segments_runs f start end_ segs :
  Forall (λ seg, start ≤ seg.1 ∧ seg.2 ≤ end_) segs →
  seg_runs f d segs ≡ₚ seg_runs f d (omap (trim_segment (nextActivityAt d start end_)) segs) ∧
  seg_jobs f d segs ≡ₚ seg_jobs f d (omap (trim_segment (nextActivityAt d start end_)) segs).
Proof.
  intros Hs. induction Hs as [|seg segs [H1 H2] _ [IH1 IH2]]; [done|].
  destruct (trim_segment_runs f start end_ seg H1 H2) as [Hr Hj]. csimpl.
  unfold seg_runs, seg_jobs in *. csimpl. rewrite Hr, Hj, IH1, IH2.
  destruct (trim_segment _ seg); csimpl; by rewrite ?app_nil_r.
Qed.

(** fitRawSpan changes no plan's answer. *)
Lemma fitRawSpan_keeps plans maxRaw plans' :
  fitRawSpan d plans maxRaw = Ok plans' → Forall (λ seg, seg.1 ≠ zero_time) (plans ≫= wp_raw) →
  Forall2 (λ p q, wp_rolledFrom q = wp_rolledFrom p ∧ wp_rolledTo q = wp_rolledTo p ∧
    ∀ f, seg_runs f d (wp_raw p) ≡ₚ seg_runs f d (wp_raw q) ∧ seg_jobs f d (wp_raw p) ≡ₚ seg_jobs f d (wp_raw q))
    plans plans'.
Proof.
  unfold fitRawSpan. intros Hfit Hz. destruct (_ || _) in Hfit.
  { injection Hfit as <-. by apply Forall_Forall2_diag, Forall_forall. }
  case_match; [|done]. injection Hfit as <-. apply Forall2_fmap_r, Forall_Forall2_diag, Forall_forall.
  intros p Hp. split; [done|]. split; [done|]. intros f. apply trim_segments_runs, Forall_forall.
  intros seg Hseg. assert (seg ∈ plans ≫= wp_raw) as Hin by (apply list_elem_of_bind; eauto).
  split; [by apply (raw_start_le _ zero_time Hz)|by apply (raw_end_ge _ zero_time)].
Qed.
Lemma fitRawSpan_err plans maxRaw e : fitRawSpan d plans maxRaw = Err e → e = ErrStatsNotRolledUp ∧ ¬ maxRaw < 0.
Proof.
  unfold fitRawSpan. set (m := if maxRaw =? 0 then defaultMaxRawSpan else maxRaw).
  destruct (Z.ltb_spec m 0) as [Hm|Hm]; cbn [orb]; [done|]. intros He. split; [by repeat case_match; simplify_eq|].
  unfold m in Hm. destruct (Z.eqb_spec maxRaw 0); lia.
Qed.
End fit.

(** ** Reads *)

Section reads.
Context `{GoLib} `{RowOrder} (d : db).
Hypothesis Hd : regular d.

Definition progress_of (s : rollups) : statsProgress := default zero_progress (ro_progress s).

Lemma progress_aligned s :
  sound d s → covered (progress_of s) = true →
  ro_progress s = Some (progress_of s) ∧ aligned (sp_From (progress_of s)) ∧ aligned (sp_To (progress_of s)).
Proof.
  intros Hs. unfold progress_of. destruct (ro_progress s) as [p|] eqn:Ep; [|done]. intros _.
  split; [done|]. by apply (sound_edges d s Hs).
Qed.

(** A plan's rolled hours, loaded and merged. *)
Lemma plan_hours s f class rf rt :
  sound d s → class_for class f →
  (rf < rt → covered (progress_of s) = true ∧ aligned rf ∧ aligned rt ∧
     sp_From (progress_of s) ≤ rf ∧ rt ≤ sp_To (progress_of s)) →
  ∃ hours, (if rf <? rt then loadRolledHours s rf rt f class else Ok []) = Ok hours ∧
    ∀ m T J, represents m T J →
      represents (merge_hours hours m) (class_runs d f class rf rt ++ T) (class_jobs d f class rf rt ++ J).
Proof.
  intros Hs Hc Hr. destruct (Z.ltb_spec rf rt) as [Hlt|Hge].
  - destruct (Hr Hlt) as (Hcov & Ha & Hb & Hfa & Hbt). destruct (progress_aligned s Hs Hcov) as (Hp & _ & _).
    apply (rolled_hours_spec d s (progress_of s) f class Hd Hs Hp Hc rf rt); (done || lia).
  - exists []. split; [done|]. intros m T J Hm. unfold class_runs, class_jobs.
    by rewrite runs_in_none, jobs_in_none by lia.
Qed.

Lemma plan_segments_after a b p : zero_time < a → Forall (λ seg, a ≤ seg.1 ∧ seg.2 ≤ b) (wp_raw (planWindow a b p)) →
  Forall (λ seg : segment, seg.1 ≠ zero_time) ([planWindow a b p] ≫= wp_raw).
Proof. intros Hz Hseg. csimpl. rewrite app_nil_r. eapply Forall_impl; [exact Hseg|]. simpl. lia. Qed.

(** A window's aggregates, under any key that does not tell the class's keys apart. *)
Lemma windowAggs_spec s from to f class maxRaw κ :
  sound d s → class_for class f → zero_time < from → from < to → (∀ g, κ (class_key class g) = κ g) →
  match windowAggs d s from to f class maxRaw with
  | Ok (m, _) => ∃ T J, represents m T J ∧ fits T.*2 ∧ retag κ T ≡ₚ retag κ (tag_runs (runs_in f d from to)) ∧
                        retag κ J ≡ₚ retag κ (tag_jobs (jobs_in f d from to))
  | Err e => e = ErrStatsNotRolledUp ∧ ¬ maxRaw < 0
  end.
Proof.
  intros Hs Hc Hz Hlt Hκ. unfold windowAggs. cbv zeta. fold (progress_of s).
  destruct (planWindow_splits d f from to (progress_of s) Hlt) as (Hr & Hj & Hroll & Hseg).
  { intros Hcov. by destruct (progress_aligned s Hs Hcov) as (_ & ? & ?). }
  pose proof (plan_segments_after from to (progress_of s) Hz Hseg) as Hz'.
  destruct (fitRawSpan d [planWindow from to (progress_of s)] maxRaw) as [plans|e] eqn:Efit.
  2:{ by apply fitRawSpan_err in Efit. }
  apply fitRawSpan_keeps in Efit; [|done|done].
  apply Forall2_cons_inv_l in Efit as (q & l & (Hqf & Hqt & Hq) & ->%Forall2_nil_inv_l & ->).
  change (default (planWindow from to (progress_of s)) (head [q])) with q.
  destruct (plan_hours s f class (wp_rolledFrom q) (wp_rolledTo q) Hs Hc) as (hours & -> & Hm); [by rewrite Hqf, Hqt|].
  pose proof (merge_raw_spec d f Hd (wp_raw q) _ _ _ (Hm ∅ [] [] represents_empty)) as Hrep. rewrite !app_nil_r in Hrep.
  destruct (Hq f) as [Hq1 Hq2]. eexists _, _. split; [exact Hrep|]. rewrite Hqf, Hqt.
  assert (∀ A (l : list (statsGroup * A)), retag κ (retag (class_key class) l) = retag κ l) as Hκ'.
  { intros A l. unfold retag. rewrite <-list_fmap_compose. apply list_fmap_ext. intros _ [g x] _. simpl. by rewrite Hκ. }
  rewrite !retag_app. unfold class_runs, class_jobs. rewrite !Hκ', <-!retag_app, <-!tag_runs_app, <-!tag_jobs_app.
  split; [|split].
  - rewrite fmap_app, retag_snd, !tag_runs_snd. rewrite <-Hq1, Permutation_app_comm, <-Hr. by apply runs_in_fits.
  - by rewrite <-Hq1, Permutation_app_comm, <-Hr.
  - by rewrite <-Hq2, Permutation_app_comm, <-Hj.
Qed.

(** The result of a read depends on the runs of its window only. *)
Lemma groupKindStats_same m1 T1 J1 m2 T2 J2 by_ :
  represents m1 T1 J1 → represents m2 T2 J2 → fits T1.*2 →
  retag (group_key by_) T1 ≡ₚ retag (group_key by_) T2 → retag (group_key by_) J1 ≡ₚ retag (group_key by_) J2 →
  groupKindStats m1 by_ = groupKindStats m2 by_.
Proof.
  intros H1 H2 Hf1 HT HJ. assert (fits T2.*2) as Hf2.
  { rewrite <-(retag_snd (group_key by_) T2), <-HT, retag_snd. done. }
  unfold groupKindStats. cbv zeta.
  pose proof (merge_by_spec (group_key by_) ∅ [] [] m1 T1 J1 represents_empty H1 Hf1) as Hg1.
  pose proof (merge_by_spec (group_key by_) ∅ [] [] m2 T2 J2 represents_empty H2 Hf2) as Hg2.
  rewrite !app_nil_r in Hg1, Hg2. rewrite <-HT, <-HJ in Hg2. pose proof (represents_inj _ _ _ _ Hg1 Hg2) as He.
  unfold merge_by in He. rewrite He, !(merge_all_spec "" "" _ _ _ H1 Hf1), !(merge_all_spec "" "" _ _ _ H2 Hf2).
  f_equal. f_equal. apply (fmap_Permutation snd) in HT. rewrite !retag_snd in HT. apply Permutation_length in HJ.
  unfold retag in HJ. rewrite !length_fmap in HJ. rewrite HJ. by apply agg_spec_perm.
Qed.

(** The same read with no rollups and no cap: entirely raw. *)
Definition read_raw (p : StatsParams) : res StatsResult :=
  Stats d no_rollups
    {| pa_From := pa_From p; pa_To := pa_To p; pa_Kind := pa_Kind p; pa_Queue := pa_Queue p; pa_MaxRawSpan := -1;
       pa_GroupBy := pa_GroupBy p |}.

Lemma no_rollups_sound : sound d no_rollups.
Proof. split; [done..| |]; intros h g r Hr; cbn in Hr; by rewrite lookup_empty in Hr. Qed.

Lemma stats_class f by_ :
  class_for (match by_ with StatsByKind => rowsFor f true | _ => groupRows end) f ∧
  ∀ g, group_key by_ (class_key (match by_ with StatsByKind => rowsFor f true | _ => groupRows end) g) = group_key by_ g.
Proof.
  destruct by_; [|done..]. unfold rowsFor, is_empty. case_bool_decide; cbn [negb]; [|done].
  rewrite orb_true_r. done.
Qed.

(** C26. A window served half from rollups equals the same window served raw. While the
    rollups say what they should of the hours they cover, a read gives exactly the
    entries and the total, histograms and slowest run included, that aggregating
    the whole window from the raw runs gives, refuses what the raw read refuses, or
    is over its cap on raw history; with the cap removed it always answers. *)
Theorem stats_hybrid s p :
  sound d s → zero_time < pa_From p →
  match Stats d s p with
  | Ok r => ∃ r', read_raw p = Ok r' ∧ sr_Kinds r = sr_Kinds r' ∧ sr_Total r = sr_Total r'
  | Err e => read_raw p = Err e ∨ (e = ErrStatsNotRolledUp ∧ ¬ pa_MaxRawSpan p < 0)
  end.
Proof.
  intros Hs Hz. unfold read_raw, Stats. cbn [pa_From pa_To pa_Kind pa_Queue pa_MaxRawSpan pa_GroupBy].
  destruct (parse_groupBy (pa_GroupBy p)) as [by_|]; [|by left].
  destruct (_ || _ || _) eqn:Ew; [by left|]. apply orb_false_iff in Ew as [_ Hlt].
  apply negb_false_iff, Z.ltb_lt in Hlt. set (f := {| sf_Kind := _; sf_Queue := _ |}).
  destruct (stats_class f by_) as [Hc Hκ]. set (class := match by_ with StatsByKind => _ | _ => _ end) in *.
  pose proof (windowAggs_spec s _ _ f class (pa_MaxRawSpan p) _ Hs Hc Hz Hlt Hκ) as H1.
  pose proof (windowAggs_spec no_rollups _ _ f class (-1) _ no_rollups_sound Hc Hz Hlt Hκ) as H2.
  destruct (windowAggs d no_rollups _ _ _ _ _) as [[m2 c2]|e2]; [|lia].
  destruct (windowAggs d s _ _ _ _ _) as [[m1 c1]|e1]; [|by right].
  destruct H1 as (T1 & J1 & R1 & F1 & P1 & Q1), H2 as (T2 & J2 & R2 & F2 & P2 & Q2).
  rewrite (groupKindStats_same m1 T1 J1 m2 T2 J2 by_ R1 R2 F1) by (by rewrite ?P1, ?P2, ?Q1, ?Q2).
  destruct (groupKindStats m2 by_) as [kinds total]. by eexists.
Qed.
End reads.
