(* ===== verification/Series.v ===== *)
(** * Time series and day buckets: internal/core/stats.go, StatsSeries

    A series is one point per whole hour, or per calendar day in a time zone, each
    served as [Stats] serves a window, with one read of the stored hours and one cap
    on raw history for all of them. A time zone is its offset before its first change
    and its changes; [Date], [AddDate] and [Zone] are the standard library's, on
    instants and on local times counted from the epoch as if in UTC. *)

From S2P Require Import Prelude Types Text Json Fingerprint Store Plan Sweep Retention Ids Hist Maintenance Rollup RollupFacts RollupWindows GroupFacts RollupHours Stats StatsFacts.

Local Open Scope Z_scope.

(** ** Time zones *)

Record Location := { loc_first : Z; loc_changes : list (Z * Z) }.
Definition UTC : Location := {| loc_first := 0; loc_changes := [] |}.

(** Location.lookup: the offset in force, in seconds, and since and until when. *)
Fixpoint lookup_zone (offset : Z) (start : option Z) (changes : list (Z * Z)) (t : Z) : Z * option Z * option Z :=
  match changes with
  | [] => (offset, start, None)
  | (at_, next) :: changes =>
    if t <? at_ then (offset, start, Some at_) else lookup_zone next (Some at_) changes t
  end.
Definition zone_at (loc : Location) (t : Z) : Z * option Z * option Z :=
  lookup_zone (loc_first loc) None (loc_changes loc) t.
Definition offset_at (loc : Location) (t : Z) : Z := (zone_at loc t).1.1.
Definition local_of (loc : Location) (t : Z) : Z := t + offset_at loc t * second.

(** time.Date of a local time. *)
Definition Date (loc : Location) (local : Z) : Z :=
  let '(offset, start, end_) := zone_at loc local in
  if offset =? 0 then local
  else
    let utc := local - offset * second in
    let outside := match start with Some x => utc <? x | None => false end ||
                   match end_ with Some x => x <=? utc | None => false end in
    local - (if outside then offset_at loc utc else offset) * second.
Definition day : Z := 24 * hour.
(** t.AddDate(0, 0, 1): the same clock on the next day. *)
Definition next_day (loc : Location) (t : Z) : Z := Date loc (local_of loc t + day).
(** The midnight that begins the local day of an instant, as a local time. *)
Definition midnight_of (loc : Location) (t : Z) : Z := local_of loc t / day * day.

(** ** Buckets *)

Definition maxSeriesPoints : nat := Z.to_nat (400 * 24).

Fixpoint hour_buckets (room : nat) (h to : Z) : res (list segment) :=
  if negb (h <? to) then Ok []
  else match room with
       | O => Err (ValidationError "series window")
       | S room => let? rest := hour_buckets room (h + hour) to in Ok ((h, h + hour) :: rest)
       end.
Definition whole_hours (loc : Location) (edge : Z) : bool := Z.rem (offset_at loc edge) 3600 =? 0.
Fixpoint day_buckets (loc : Location) (room : nat) (start to : Z) : res (list segment) :=
  if negb (start <? to) then Ok []
  else
    let next := next_day loc start in
    if negb (whole_hours loc start && whole_hours loc next) then Err (ValidationError "series location")
    else match room with
         | O => Err (ValidationError "series window")
         | S room => let? rest := day_buckets loc room next to in Ok ((start, next) :: rest)
         end.
Definition seriesBuckets (from to : Z) (interval : string) (loc : Location) : res (list segment) :=
  if bool_decide (interval = "hour") || is_empty interval then hour_buckets maxSeriesPoints (floorHour from) to
  else if bool_decide (interval = "day") then day_buckets loc maxSeriesPoints (Date loc (midnight_of loc from)) to
  else Err (ValidationError "series interval").

(** ** Points *)

Record SeriesParams := {
  se_From : Z; se_To : Z; se_Kind : string; se_Queue : string; se_Interval : string;
  se_Location : option Location; se_MaxRawSpan : Z
}.
Record StatsPoint := { pt_Start : Z; pt_End : Z; pt_Stats : KindStats }.

Section series.
Context `{GoLib} `{RowOrder}.

Definition merge_entries (aggs : gmap statsGroup runAgg) (total : runAgg) : runAgg :=
  foldl (λ t ga, agg_merge t ga.2) total (scan (map_to_list aggs)).
Definition point_total (d : db) (f : statsFilter) (byHour : gmap Z (gmap statsGroup runAgg)) (plan : windowPlan) : runAgg :=
  let rolled := foldl (λ t h, merge_entries (default ∅ (byHour !! h)) t) (newRunAgg (sf_Kind f) "")
                  (hours_from (wp_rolledFrom plan) (wp_rolledTo plan)) in
  foldl (λ t seg, merge_entries (aggregateRuns d seg.1 seg.2 f) t) rolled (wp_raw plan).

(** The stored hours the whole series needs, by start. With no bucket at all,
    buckets[0] is out of range. *)
Definition series_hours (s : rollups) (p : statsProgress) (buckets : list segment) (f : statsFilter)
  : res (gmap Z (gmap statsGroup runAgg)) :=
  if covered p then
    match head buckets, last buckets with
    | Some first, Some final =>
      let start := Z.max first.1 (sp_From p) in
      let end_ := Z.min final.2 (sp_To p) in
      if start <? end_ then
        let? hours := loadRolledHours s start end_ f (rowsFor f false) in
        Ok (foldl (λ m h, <[h.1 := h.2]> m) ∅ hours)
      else Ok ∅
    | _, _ => Err ErrPanic
    end
  else Ok ∅.

Definition StatsSeries (d : db) (s : rollups) (p : SeriesParams) : res (list StatsPoint) :=
  if is_zero_time (se_From p) || is_zero_time (se_To p) || negb (se_From p <? se_To p)
  then Err (ValidationError "series window")
  else
    let loc := default UTC (se_Location p) in
    let? buckets := seriesBuckets (se_From p) (se_To p) (se_Interval p) loc in
    let progress := default zero_progress (ro_progress s) in
    let f := {| sf_Kind := se_Kind p; sf_Queue := se_Queue p |} in
    let? plans := fitRawSpan d ((λ b : segment, planWindow b.1 b.2 progress) <$> buckets) (se_MaxRawSpan p) in
    let? byHour := series_hours s progress buckets f in
    Ok (zip_with (λ (b : segment) plan,
          {| pt_Start := b.1; pt_End := b.2; pt_Stats := kindStatsFromAgg (point_total d f byHour plan) |})
          buckets plans).
End series.

(** ** The layout of a series *)

(** Whole buckets, each starting where the one before ends. *)
Fixpoint chain (a : Z) (bs : list segment) (z : Z) : Prop :=
  match bs with
  | [] => a = z
  | b :: bs => b.1 = a ∧ a < b.2 ∧ chain b.2 bs z
  end.
(** No two offsets of a zone are a day apart: all but those moved across the date line. *)
Definition narrow (loc : Location) : Prop := ∀ t t', offset_at loc t - offset_at loc t' < 86400.
(** Every midnight exists: no change of the clock skips one. *)
Definition midnights (loc : Location) : Prop := ∀ k, local_of loc (Date loc (k * day)) = k * day.

Lemma chain_le a bs z : chain a bs z → a ≤ z.
Proof. revert a. induction bs as [|b bs IH]; simpl; intros a; [lia|]. intros (_ & Hlt & Hc). apply IH in Hc. lia. Qed.
Lemma chain_bounds a bs z b : chain a bs z → b ∈ bs → a ≤ b.1 ∧ b.1 < b.2 ∧ b.2 ≤ z.
Proof.
  revert a. induction bs as [|b' bs IH]; simpl; intros a; [by intros _ ?%elem_of_nil|].
  intros (H1 & H2 & Hc) [->|Hin]%elem_of_cons; [pose proof (chain_le _ _ _ Hc); lia|].
  specialize (IH _ Hc Hin). lia.
Qed.
Lemma chain_head a b bs z : chain a (b :: bs) z → b.1 = a ∧ ∃ y, last (b :: bs) = Some y ∧ y.2 = z.
Proof.
  intros Hc. split; [apply Hc|]. revert a b Hc. induction bs as [|b' bs IH]; simpl; intros a b (_ & _ & Hc); [by exists b|].
  apply (IH b.2 b'). done.
Qed.

Lemma Date_offset loc x : ∃ y, Date loc x = x - offset_at loc y * second.
Proof.
  unfold Date, offset_at at 2. destruct (zone_at loc x) as [[o st] en] eqn:E. destruct (Z.eqb_spec o 0) as [->|_].
  { exists x. rewrite E. simpl. lia. }
  destruct (_ || _); [by exists (x - o * second)|exists x; rewrite E; done].
Qed.
Lemma next_day_after loc t : narrow loc → t < next_day loc t.
Proof.
  intros Hn. unfold next_day, local_of. destruct (Date_offset loc (t + offset_at loc t * second + day)) as [y ->].
  specialize (Hn y t). unfold day, hour, minute, second in *. lia.
Qed.

(** What every layout has: at most [room] buckets, from [a] on without a gap, until
    [to] is reached. *)
Record laid_out (room : nat) (a to : Z) (bs : list segment) : Prop := {
  lo_room : (length bs ≤ room)%nat;
  lo_before : ∀ b, b ∈ bs → b.1 < to;
  lo_chain : ∃ z, chain a bs z ∧ to ≤ z
}.
Lemma laid_out_nil room a to : to ≤ a → laid_out room a to [].
Proof. intros Hle. split; [simpl; lia|by intros ? ?%elem_of_nil|by exists a]. Qed.
Lemma laid_out_cons room a b to bs : a < to → a < b → laid_out room b to bs → laid_out (S room) a to ((a, b) :: bs).
Proof.
  intros Hto Hab [Hl Hb (z & Hc & Hz)]. split; [simpl; lia| |by exists z].
  intros x [->|Hin]%elem_of_cons; [done|by apply Hb].
Qed.

Lemma hour_buckets_laid_out room h to bs : hour_buckets room h to = Ok bs → laid_out room h to bs.
Proof.
  revert h bs. induction room as [|room IH]; intros h bs; cbn [hour_buckets]; destruct (Z.ltb_spec h to); cbn [negb].
  - done.
  - intros [= <-]. by apply laid_out_nil.
  - destruct (hour_buckets room (h + hour) to) as [rest|] eqn:E; [|done]. intros [= <-]. pose proof hour_pos.
    apply laid_out_cons; [done|lia|by apply IH].
  - intros [= <-]. by apply laid_out_nil.
Qed.
Lemma day_buckets_laid_out loc room t to bs :
  narrow loc → day_buckets loc room t to = Ok bs → laid_out room t to bs.
Proof.
  intros Hn. revert t bs. induction room as [|room IH]; intros t bs; cbn [day_buckets]; destruct (Z.ltb_spec t to); cbn [negb].
  - by destruct (negb _).
  - intros [= <-]. by apply laid_out_nil.
  - destruct (negb _); [done|]. destruct (day_buckets loc room (next_day loc t) to) as [rest|] eqn:E; [|done].
    intros [= <-]. apply laid_out_cons; [done|by apply next_day_after|by apply IH].
  - intros [= <-]. by apply laid_out_nil.
Qed.
Lemma seriesBuckets_laid_out from to interval loc bs :
  narrow loc → seriesBuckets from to interval loc = Ok bs → ∃ a, laid_out maxSeriesPoints a to bs.
Proof.
  intros Hn. unfold seriesBuckets. destruct (_ || _); [|case_bool_decide; [|done]]; intros Hb; eexists;
    [by apply hour_buckets_laid_out|by apply (day_buckets_laid_out loc)].
Qed.
Lemma day_buckets_calendar loc room k to bs :
  midnights loc → day_buckets loc room (Date loc (k * day)) to = Ok bs →
  bs = (λ i : nat, (Date loc ((k + Z.of_nat i) * day), Date loc ((k + Z.of_nat i + 1) * day))) <$> seq 0 (length bs).
Proof.
  intros Hm. revert k bs. induction room as [|room IH]; intros k bs; cbn [day_buckets]; destruct (_ <? to); cbn [negb].
  - by destruct (negb _).
  - by intros [= <-].
  - destruct (negb _); [done|]. assert (next_day loc (Date loc (k * day)) = Date loc ((k + 1) * day)) as ->.
    { unfold next_day. rewrite Hm. f_equal. lia. }
    destruct (day_buckets loc room _ to) as [rest|] eqn:E; [|done]. intros [= <-]. apply IH in E. cbn [length seq fmap list_fmap].
    rewrite Z.add_0_r. f_equal. rewrite E at 1. rewrite <-(fmap_S_seq 0), <-list_fmap_compose. apply list_fmap_ext.
    intros _ i _. simpl. f_equal; f_equal; lia.
  - by intros [= <-].
Qed.

(** A series is laid out in whole buckets without a gap, at most the maximum of
    them, until To is reached. Hours start at the UTC hour that holds From; in a zone
    that skips no midnight, days run from one local midnight to the next, starting
    with the local day of From. *)
Theorem series_buckets from to interval loc bs :
  narrow loc → seriesBuckets from to interval loc = Ok bs →
  (∃ a z, chain a bs z ∧ to ≤ z ∧ (length bs ≤ maxSeriesPoints)%nat ∧ (∀ b, b ∈ bs → b.1 < to) ∧
          (interval ≠ "day" → a ≤ from < a + hour)) ∧
  (interval = "day" → midnights loc →
   bs = (λ i : nat, (Date loc ((local_of loc from / day + Z.of_nat i) * day),
                     Date loc ((local_of loc from / day + Z.of_nat i + 1) * day))) <$> seq 0 (length bs)).
Proof.
  intros Hn. unfold seriesBuckets, is_empty. destruct (bool_decide (interval = "hour") || _) eqn:Ei.
  - intros [Hl Hb (z & Hc & Hz)]%hour_buckets_laid_out. split; [|intros ->; by vm_compute in Ei].
    exists (floorHour from), z. destruct (floorHour_spec from). split_and!; [done|done|exact Hl|done|lia..].
  - destruct (bool_decide (interval = "day")) eqn:Ed; [apply bool_decide_eq_true in Ed|done]. intros Hd. split; [|intros _ Hm; by apply (day_buckets_calendar loc maxSeriesPoints _ to)].
    apply day_buckets_laid_out in Hd as [Hl Hb (z & Hc & Hz)]; [|done]. eexists _, z. by split_and!.
Qed.

(** ** The points of a series *)

Definition with_kind (k : string) (a : KindStats) : KindStats :=
  {| ks_Kind := k; ks_Queue := ks_Queue a; ks_Attempts := ks_Attempts a; ks_Outcomes := ks_Outcomes a;
     ks_Succeeded := ks_Succeeded a; ks_Discarded := ks_Discarded a; ks_Retries := ks_Retries a;
     ks_Superseded := ks_Superseded a; ks_Enqueued := ks_Enqueued a; ks_Ended := ks_Ended a;
     ks_Duration := ks_Duration a; ks_QueueWait := ks_QueueWait a; ks_CostMicros := ks_CostMicros a;
     ks_SlowestRunID := ks_SlowestRunID a |}.

Lemma with_kind_agg k l n : kindStatsFromAgg (agg_spec k "" l n) = with_kind k (kindStatsFromAgg (agg_spec "" "" l n)).
Proof. reflexivity. Qed.

(** Hours inserted by their starts. *)
Lemma hours_map (hours : list rolledHour) (m : gmap Z (gmap statsGroup runAgg)) :
  NoDup hours.*1 →
  (∀ h x, (h, x) ∈ hours → foldl (λ m h, <[h.1 := h.2]> m) m hours !! h = Some x) ∧
  (∀ h, h ∉ hours.*1 → foldl (λ m h, <[h.1 := h.2]> m) m hours !! h = m !! h).
Proof.
  revert m. induction hours as [|[h x] hours IH]; intros m Hnd; csimpl in *.
  { split; [by intros ? ? ?%elem_of_nil|done]. }
  apply NoDup_cons in Hnd as [Hn Hnd]. destruct (IH (<[h := x]> m) Hnd) as [IH1 IH2]. split.
  - intros h' x' [[= -> ->]|Hin]%elem_of_cons; [|by apply IH1]. by rewrite IH2, lookup_insert_eq.
  - intros h' [Hne Hn']%not_elem_of_cons. rewrite IH2 by done. by apply lookup_insert_ne.
Qed.
Lemma sorted_nodup (l : list Z) : StronglySorted Z.lt l → NoDup l.
Proof.
  induction 1 as [|x l _ IH Hx]; constructor; [|done]. intros Hin. rewrite Forall_forall in Hx. specialize (Hx _ Hin). lia.
Qed.
Lemma hours_from_list a b n : b = a + Z.of_nat n * hour → hours_from a b = hour_list a n.
Proof.
  intros ->. unfold hours_from, hour_list. do 2 f_equal. pose proof hour_pos.
  replace (a + Z.of_nat n * hour - a + hour - 1) with (hour - 1 + Z.of_nat n * hour) by lia.
  rewrite Z.div_add, Z.div_small by lia. lia.
Qed.

Lemma length_bind_ext {A B C} (g : A → list B) (g' : A → list C) l :
  (∀ x, length (g x) = length (g' x)) → length (l ≫= g) = length (l ≫= g').
Proof. intros Hg. induction l as [|x l IH]; csimpl; [done|]. by rewrite !length_app, IH, Hg. Qed.

Section points.
Context `{GoLib} `{RowOrder} (d : db).
Hypothesis Hd : regular d.

Lemma merge_entries_fold {A} (g : A → gmap statsGroup runAgg) (T : A → tagged_runs) (J : A → tagged_jobs) k q l l0 n0 :
  (∀ x, x ∈ l → represents (g x) (T x) (J x) ∧ fits (T x).*2) →
  foldl (λ t x, merge_entries (g x) t) (agg_spec k q l0 n0) l =
    agg_spec k q ((l ≫= λ x, (T x).*2) ++ l0) (Z.of_nat (length (l ≫= J)) + n0).
Proof.
  revert l0 n0. induction l as [|x l IH]; intros l0 n0 Hl; csimpl; [done|].
  destruct (Hl x) as [Hr Hf]; [by left|]. unfold merge_entries at 2. rewrite (merge_all_from k q _ _ _ _ _ Hr Hf).
  rewrite IH by (intros y Hy; apply Hl; by right). apply agg_spec_perm; [|rewrite length_app; lia].
  rewrite <-(assoc_L (++)), !(assoc_L (++) _ _ l0). f_equiv. apply Permutation_app_comm.
Qed.
Lemma class_runs_snd f class a b : (class_runs d f class a b).*2 = runs_in f d a b.
Proof. unfold class_runs. by rewrite retag_snd, tag_runs_snd. Qed.
Lemma class_jobs_length f class a b : length (class_jobs d f class a b) = length (jobs_in f d a b).
Proof. unfold class_jobs, retag, tag_jobs. by rewrite !length_fmap. Qed.

(** The hours loaded for a series hold what each plan takes from them. *)
Lemma series_hours_spec s bs a z f :
  sound d s → chain a bs z → bs ≠ [] →
  ∃ byHour, series_hours s (progress_of s) bs f = Ok byHour ∧
    (covered (progress_of s) = true → ∀ h, aligned h → Z.max a (sp_From (progress_of s)) ≤ h < Z.min z (sp_To (progress_of s)) →
     represents (default ∅ (byHour !! h)) (class_runs d f (rowsFor f false) h (h + hour))
       (class_jobs d f (rowsFor f false) h (h + hour))).
Proof.
  intros Hs Hc Hne. unfold series_hours. destruct (covered (progress_of s)) eqn:Ec; [|by exists ∅].
  destruct bs as [|b bs]; [done|]. apply chain_head in Hc as (Ha & y & Hy & Hz). rewrite Hy. cbn [head].
  rewrite Ha, Hz. set (p := progress_of s) in *.
  destruct (Z.ltb_spec (Z.max a (sp_From p)) (Z.min z (sp_To p))) as [Hlt|Hge]; [|exists ∅; split; [done|intros; lia]].
  destruct (progress_aligned d s Hs Ec) as (Hp & _ & _).
  assert (class_for (rowsFor f false) f) as Hcl.
  { unfold rowsFor, is_empty. do 2 case_bool_decide; simpl; auto. }
  set (x1 := Z.max a (sp_From p)) in *. set (x2 := Z.min z (sp_To p)) in *.
  assert (sp_From p ≤ x1 ∧ x2 ≤ sp_To p) as [H1 H2] by lia.
  destruct (loadRolledHours_spec d s p f _ Hd Hs Hp Hcl x1 x2 H1 H2) as (hours & Hload & Hg). rewrite Hload.
  eexists. split; [done|]. intros _ h Hal Hh.
  destruct (hours_map hours ∅) as [Hin Hout]; [by apply sorted_nodup; destruct Hg|].
  destruct (decide (h ∈ hours.*1)) as [([h' m] & -> & Hm)%list_elem_of_fmap|Hn].
  - cbn [fst] in *. rewrite (Hin _ _ Hm). by apply (hour_read d s p f _ Hd Hs Hp Hcl x1 x2 H1 H2 hours).
  - rewrite Hout, lookup_empty by done.
    destruct (hour_unread d s p f _ Hd Hs Hp Hcl x1 x2 H1 H2 hours h Hg Hal Hh Hn) as [Hr Hj].
    unfold class_runs, class_jobs. rewrite Hr, Hj. apply represents_empty.
Qed.

Lemma planWindow_within x y p :
  let plan := planWindow x y p in
  wp_rolledFrom plan < wp_rolledTo plan → x ≤ wp_rolledFrom plan ∧ wp_rolledTo plan ≤ y.
Proof.
  unfold planWindow. destruct (ceilHour_spec x), (floorHour_spec y). destruct (covered p), (_ <? _); cbn; lia.
Qed.

(** A point's total is the aggregate of its bucket's runs. *)
Lemma point_total_spec s bs a z f byHour b plan :
  sound d s → chain a bs z → b ∈ bs →
  (covered (progress_of s) = true → ∀ h, aligned h → Z.max a (sp_From (progress_of s)) ≤ h < Z.min z (sp_To (progress_of s)) →
   represents (default ∅ (byHour !! h)) (class_runs d f (rowsFor f false) h (h + hour))
     (class_jobs d f (rowsFor f false) h (h + hour))) →
  wp_rolledFrom plan = wp_rolledFrom (planWindow b.1 b.2 (progress_of s)) →
  wp_rolledTo plan = wp_rolledTo (planWindow b.1 b.2 (progress_of s)) →
  seg_runs f d (wp_raw (planWindow b.1 b.2 (progress_of s))) ≡ₚ seg_runs f d (wp_raw plan) →
  seg_jobs f d (wp_raw (planWindow b.1 b.2 (progress_of s))) ≡ₚ seg_jobs f d (wp_raw plan) →
  point_total d f byHour plan =
    agg_spec (sf_Kind f) "" (runs_in f d b.1 b.2) (Z.of_nat (length (jobs_in f d b.1 b.2))).
Proof.
  intros Hs Hc Hb Hh Hrf Hrt Hr Hj. destruct (chain_bounds _ _ _ _ Hc Hb) as (Hab & Hlt & Hbz).
  destruct (planWindow_splits d f b.1 b.2 (progress_of s) Hlt) as (Hpr & Hpj & Hroll & Hseg).
  { intros Hcov. by destruct (progress_aligned d s Hs Hcov) as (_ & ? & ?). }
  rewrite <-Hrf, <-Hrt in *. unfold point_total. rewrite agg_spec_nil.
  set (rf := wp_rolledFrom plan) in *. set (rt := wp_rolledTo plan) in *.
  assert (∃ n, hours_from rf rt = hour_list rf n ∧
    runs_in f d rf rt ≡ₚ (hour_list rf n ≫= λ h, runs_in f d h (h + hour)) ∧
    jobs_in f d rf rt ≡ₚ (hour_list rf n ≫= λ h, jobs_in f d h (h + hour)) ∧
    ∀ h, h ∈ hour_list rf n → covered (progress_of s) = true ∧ aligned h ∧
      Z.max a (sp_From (progress_of s)) ≤ h < Z.min z (sp_To (progress_of s))) as (n & Hn & HnR & HnJ & Hel).
  { destruct (Z.ltb_spec rf rt) as [Hlt'|Hge].
    - destruct (Hroll Hlt') as (Hcov & Hal1 & Hal2 & Hfa & Hbt). destruct (aligned_span rf rt Hal1 Hal2) as [n Hn]; [lia|].
      pose proof (planWindow_within b.1 b.2 (progress_of s)) as Hw. cbn zeta in Hw. rewrite <-Hrf, <-Hrt in Hw.
      exists n. split; [by apply hours_from_list|]. rewrite Hn. split_and!.
      + apply (window_hours (runs_in f d)); [apply runs_in_split|apply runs_in_none].
      + apply (window_hours (jobs_in f d)); [apply jobs_in_split|apply jobs_in_none].
      + intros h [Hal Hh']%(hour_list_elem rf rt h n Hal1 Hn). split; [done|]. split; [done|]. lia.
    - exists O. assert (Z.to_nat ((rt - rf + hour - 1) / hour) = O) as Hz.
      { pose proof hour_pos. enough ((rt - rf + hour - 1) / hour < 1) by lia. apply Z.div_lt_upper_bound; lia. }
      split; [unfold hours_from; by rewrite Hz|].
      rewrite runs_in_none, jobs_in_none by done. split_and!; [done..|by intros ? ?%elem_of_nil]. }
  rewrite Hn, (merge_entries_fold _ (λ h, class_runs d f (rowsFor f false) h (h + hour))
    (λ h, class_jobs d f (rowsFor f false) h (h + hour))).
  2:{ intros h Hin. destruct (Hel h Hin) as (Hcov & Hal & Hr'). split; [by apply Hh|by apply class_runs_fits]. }
  rewrite (merge_entries_fold _ (λ seg, tag_runs (runs_in f d seg.1 seg.2)) (λ seg, tag_jobs (jobs_in f d seg.1 seg.2))).
  2:{ intros seg _. split; [by apply aggregateRuns_any|rewrite tag_runs_snd; by apply runs_in_fits]. }
  apply agg_spec_perm.
  - rewrite app_nil_r, Hpr, Hr, HnR, Permutation_app_comm. f_equiv.
    + apply reflexive_eq, list_bind_ext; [|done]. intros h. by rewrite class_runs_snd.
    + apply reflexive_eq, list_bind_ext; [|done]. intros seg. by rewrite tag_runs_snd.
  - rewrite Hpj, Hj, HnJ, length_app.
    rewrite (length_bind_ext (λ seg, tag_jobs (jobs_in f d seg.1 seg.2)) (λ seg, jobs_in f d seg.1 seg.2))
      by (intros seg; apply length_fmap).
    rewrite (length_bind_ext (λ h, class_jobs d f (rowsFor f false) h (h + hour)) (λ h, jobs_in f d h (h + hour)))
      by (intros h; apply class_jobs_length).
    unfold seg_jobs. lia.
Qed.

(** The raw read of a window, by its aggregate. *)
Lemma read_raw_total from to kind queue maxRaw :
  let f := {| sf_Kind := kind; sf_Queue := queue |} in
  zero_time < from → from < to →
  ∃ r, read_raw d {| pa_From := from; pa_To := to; pa_Kind := kind; pa_Queue := queue; pa_MaxRawSpan := maxRaw; pa_GroupBy := "" |} = Ok r ∧
    sr_Total r = kindStatsFromAgg (agg_spec "" "" (runs_in f d from to) (Z.of_nat (length (jobs_in f d from to)))).
Proof.
  intros f Hz Hlt. unfold read_raw, Stats. cbn [pa_From pa_To pa_Kind pa_Queue pa_MaxRawSpan pa_GroupBy].
  change (parse_groupBy "") with (Some StatsByKind). cbn beta iota.
  assert (is_zero_time from || is_zero_time to || negb (from <? to) = false) as ->.
  { unfold is_zero_time. lia. }
  destruct (stats_class f StatsByKind) as [Hc Hκ]. cbn beta iota in Hc, Hκ. fold f.
  pose proof (windowAggs_spec d Hd no_rollups from to f _ (-1) _ (no_rollups_sound d) Hc Hz Hlt Hκ) as Hw.
  destruct (windowAggs d no_rollups from to f (rowsFor f true) (-1)) as [[m c]|e]; [|lia].
  destruct Hw as (T & J & Hr & Hf & HT & HJ). unfold groupKindStats. eexists. split; [done|]. cbn [sr_Total].
  rewrite (merge_all_spec "" "" m T J Hr Hf). f_equal. apply agg_spec_perm.
  - apply (fmap_Permutation snd) in HT. by rewrite !retag_snd, tag_runs_snd in HT.
  - apply Permutation_length in HJ. unfold retag, tag_jobs in HJ. rewrite !length_fmap in HJ. lia.
Qed.

Definition point_window (p : SeriesParams) (b : segment) : StatsParams :=
  {| pa_From := b.1; pa_To := b.2; pa_Kind := se_Kind p; pa_Queue := se_Queue p; pa_MaxRawSpan := se_MaxRawSpan p;
     pa_GroupBy := "" |}.

(** C29. Every point of a series is the raw read of its bucket. While the rollups are
    sound, a series gives one point per bucket, empty ones included, whose statistics
    are the total that aggregating that bucket from the raw runs alone gives; it is
    refused for its window, interval or zone, for its cap on raw history, or, when a
    zone's layout gives no bucket at all, it panics. *)
Theorem series_hybrid s p :
  let layout := seriesBuckets (se_From p) (se_To p) (se_Interval p) (default UTC (se_Location p)) in
  sound d s → narrow (default UTC (se_Location p)) →
  (∀ bs, layout = Ok bs → Forall (λ b : segment, zero_time < b.1) bs) →
  match StatsSeries d s p with
  | Ok pts => ∃ bs, layout = Ok bs ∧
      Forall2 (λ (b : segment) pt, pt_Start pt = b.1 ∧ pt_End pt = b.2 ∧
        ∃ r, read_raw d (point_window p b) = Ok r ∧ pt_Stats pt = with_kind (se_Kind p) (sr_Total r)) bs pts
  | Err e => e = ValidationError "series window" ∨ layout = Err e ∨ (e = ErrStatsNotRolledUp ∧ ¬ se_MaxRawSpan p < 0) ∨
             (e = ErrPanic ∧ layout = Ok [])
  end.
Proof.
  intros layout Hs Hn Hz. unfold StatsSeries. destruct (_ || _ || _); [by left|]. cbv zeta. fold layout.
  destruct layout as [bs|e] eqn:El; [|by right; left]. specialize (Hz bs eq_refl). fold (progress_of s).
  set (f := {| sf_Kind := _; sf_Queue := _ |}). set (plans := _ <$> bs).
  destruct (fitRawSpan d plans (se_MaxRawSpan p)) as [plans'|e] eqn:Efit.
  2:{ apply fitRawSpan_err in Efit. auto. }
  destruct (seriesBuckets_laid_out _ _ _ _ _ Hn El) as [a [_ _ (z & Hc & _)]].
  assert (Forall2 (λ (b : segment) q, wp_rolledFrom q = wp_rolledFrom (planWindow b.1 b.2 (progress_of s)) ∧
    wp_rolledTo q = wp_rolledTo (planWindow b.1 b.2 (progress_of s)) ∧
    ∀ f, seg_runs f d (wp_raw (planWindow b.1 b.2 (progress_of s))) ≡ₚ seg_runs f d (wp_raw q) ∧
         seg_jobs f d (wp_raw (planWindow b.1 b.2 (progress_of s))) ≡ₚ seg_jobs f d (wp_raw q)) bs plans') as Hfit.
  { apply fitRawSpan_keeps in Efit; [by apply Forall2_fmap_l in Efit|done|]. apply Forall_forall.
    intros seg (q & Hseg & (b & -> & Hb)%list_elem_of_fmap)%list_elem_of_bind.
    destruct (planWindow_splits d f b.1 b.2 (progress_of s)) as (_ & _ & _ & Hall).
    { by apply (chain_bounds a bs z b). }
    { intros Hcov. by destruct (progress_aligned d s Hs Hcov) as (_ & ? & ?). }
    rewrite Forall_forall in Hall, Hz. specialize (Hall _ Hseg). specialize (Hz _ Hb). lia. }
  destruct (decide (bs = [])) as [->|Hne].
  { apply Forall2_nil_inv_l in Hfit as ->. unfold series_hours. destruct (covered _); cbn; [by auto|by exists []]. }
  destruct (series_hours_spec s bs a z f Hs Hc Hne) as (byHour & -> & Hh). exists bs. split; [done|].
  rewrite Forall2_lookup in Hfit. apply Forall2_lookup. intros i. rewrite lookup_zip_with. specialize (Hfit i).
  destruct (bs !! i) as [b|] eqn:Eb; [|constructor]. inversion_clear Hfit as [? q (Hrf & Hrt & Hpq)|].
  cbn. constructor. apply list_elem_of_lookup_2 in Eb. destruct (Hpq f) as [Hp1 Hp2].
  rewrite (point_total_spec s bs a z f byHour b q Hs Hc Eb Hh Hrf Hrt Hp1 Hp2). split; [done|]. split; [done|].
  rewrite Forall_forall in Hz. destruct (chain_bounds _ _ _ _ Hc Eb) as (_ & Hlt & _).
  destruct (read_raw_total b.1 b.2 (se_Kind p) (se_Queue p) (se_MaxRawSpan p) (Hz b Eb) Hlt) as (r & Hr & Ht).
  exists r. split; [done|]. rewrite Ht. apply with_kind_agg.
Qed.
End points.
