(* ===== verification/Baselines.v ===== *)
(** * Baselines and their memo: internal/core/stats.go, Baselines

    A kind's baseline is drawn from its rolled-up hours over a window that ends at the
    watermark. The result is memoized per connection pool and window, valid while the
    rollup's progress is what it was. A call touches shared state four times: it
    reads the progress, looks in the memo, loads the hours and puts the result; other
    calls and the rollup's writers go between. The percentiles and the discard rate,
    which are floating point, are kept as what they are computed from. *)

From S2P Require Import Prelude Types Text Json Fingerprint Store Plan Sweep Retention Ids Hist Maintenance Rollup RollupFacts RollupWindows GroupFacts RollupHours Stats StatsFacts.

Local Open Scope Z_scope.

Record Baseline := {
  bl_Kind : string; bl_From : Z; bl_To : Z; bl_Samples : Z; bl_Hist : histogram; bl_MaxMs : Z;
  bl_Jobs : Z; bl_Discarded : Z
}.
Definition baselineFromAgg (kind : string) (a : runAgg) (from to : Z) : Baseline :=
  {| bl_Kind := kind; bl_From := from; bl_To := to; bl_Samples := ag_DurCount a; bl_Hist := ag_DurHist a;
     bl_MaxMs := ag_DurMaxMs a; bl_Jobs := add64 (ag_Success a) (ag_Discarded a); bl_Discarded := ag_Discarded a |}.
Definition baseline_le (a b : Baseline) : Prop := bytes_le (bl_Kind a) (bl_Kind b).
#[global] Instance baseline_le_dec : RelDecision baseline_le.
Proof. intros a b. unfold baseline_le. apply _. Defined.

#[global] Instance baseline_le_total : Total baseline_le.
Proof. intros a b. unfold baseline_le. apply (base.total bytes_le). Qed.
#[global] Instance baseline_le_trans : Transitive baseline_le.
Proof. intros a b c. unfold baseline_le. apply transitivity. Qed.

(** ** The memo *)

Definition baselineMemoLimit : nat := 16.
Abbreviation baselineKey := (nat * Z)%type.
Record baselineMemoEntry := { me_progress : statsProgress; me_baselines : list Baseline }.
Abbreviation baselineCache := (gmap baselineKey baselineMemoEntry).
#[global] Instance statsProgress_eq_dec : EqDecision statsProgress.
Proof. solve_decision. Defined.

Definition cache_get (c : baselineCache) (key : baselineKey) (p : statsProgress) : option (list Baseline) :=
  match c !! key with
  | Some e => if bool_decide (me_progress e = p) then Some (me_baselines e) else None
  | None => None
  end.
Definition cache_put (c : baselineCache) (key : baselineKey) (p : statsProgress) (bs : list Baseline) : baselineCache :=
  let entries := if bool_decide (c !! key = None) && (baselineMemoLimit <=? size c)%nat then ∅ else c in
  <[key := {| me_progress := p; me_baselines := bs |}]> entries.

Section baselines.
Context `{GoLib} `{RowOrder}.

(** An aggregate joins its kind, unless no attempt finished in it. *)
Definition add_baseline (byKind : gmap string runAgg) (a : runAgg) : gmap string runAgg :=
  if add64 (ag_Attempts a) (ag_Superseded a) =? 0 then byKind
  else <[ag_Kind a := agg_merge (default (newRunAgg (ag_Kind a) "") (byKind !! ag_Kind a)) a]> byKind.
Definition baselinesFrom (hours : list rolledHour) (from to : Z) : list Baseline :=
  let byKind := foldl (λ m h, foldl (λ m ga, add_baseline m ga.2) m (scan (map_to_list h.2))) ∅ hours in
  merge_sort baseline_le
    ((λ ka : string * runAgg, baselineFromAgg ka.1 ka.2 from to) <$> scan (map_to_list byKind)).

Definition baseline_window (window : Z) : Z := if window <=? 0 then 7 * 24 * hour else window.
Definition baseline_from (p : statsProgress) (window : Z) : Z := Z.max (floorHour (sp_To p - window)) (sp_From p).
(** What the hours stored in [s] say, for progress [p]. *)
Definition load_baselines (s : rollups) (p : statsProgress) (window : Z) : res (list Baseline) :=
  let from := baseline_from p window in
  let? hours := loadRolledHours s from (sp_To p) no_filter kindRows in
  Ok (baselinesFrom hours from (sp_To p)).

(** [Baselines]: the tables when it reads the progress, the memo when it looks, the
    tables when it loads and the memo when it puts. [pool] is the connection pool, if
    it can be a key. *)
Definition Baselines (pool : option nat) (window : Z) (s_read : rollups) (c_get : baselineCache)
    (s_load : rollups) (c_put : baselineCache) : res (list Baseline) * baselineCache :=
  let window := baseline_window window in
  let p := default zero_progress (ro_progress s_read) in
  if negb (covered p) then (Ok [], c_put)
  else
    match pool ≫= λ pool, cache_get c_get (pool, window) p with
    | Some cached => (Ok cached, c_put)
    | None =>
      match load_baselines s_load p window with
      | Ok out => (Ok out, match pool with Some pool => cache_put c_put (pool, window) p out | None => c_put end)
      | Err e => (Err e, c_put)
      end
    end.
End baselines.

(** ** A load depends on the rows of its hours only *)

(** Every stored row reads back as the aggregate of its key. *)
Definition readable (s : rollups) : Prop :=
  ∀ k r, ro_hourly s !! k = Some r → ∃ a, agg_of_row r = Ok a ∧ (ag_Kind a, ag_Queue a) = k.2.
Definition reads_back (k : Z * statsGroup) (r : jobStatsHourlyRow) : bool :=
  match agg_of_row r with Ok a => bool_decide ((ag_Kind a, ag_Queue a) = k.2) | Err _ => false end.
Lemma readable_check s : map_Forall (λ k r, reads_back k r = true) (ro_hourly s) → readable s.
Proof.
  intros Hm k r Hr. specialize (Hm k r Hr). cbv beta in Hm. unfold reads_back in Hm.
  destruct (agg_of_row r) as [a|]; [|done]. exists a. split; [done|]. by apply bool_decide_eq_true in Hm.
Qed.
Definition same_rows (a b : Z) (s s' : rollups) : Prop :=
  ∀ h g, a ≤ h < b → ro_hourly s' !! (h, g) = ro_hourly s !! (h, g).

Lemma sorted_unique (l1 l2 : list Z) :
  StronglySorted Z.lt l1 → StronglySorted Z.lt l2 → (∀ x, x ∈ l1 ↔ x ∈ l2) → l1 = l2.
Proof.
  intros H1 H2 Heq. assert (∀ l, StronglySorted Z.lt l → NoDup l) as Hnd.
  { induction 1 as [|x l _ IH Hx]; constructor; [|done]. intros Hin. rewrite Forall_forall in Hx. specialize (Hx _ Hin). lia. }
  assert (∀ l, StronglySorted Z.lt l → StronglySorted Z.le l) as Hle.
  { induction 1 as [|x l _ IH Hx]; constructor; [done|]. eapply Forall_impl; [exact Hx|]. simpl. lia. }
  eapply (StronglySorted_unique Z.le); [by apply Hle|by apply Hle|]. apply NoDup_Permutation; auto.
Qed.
Lemma grouped_unique V ks1 ks2 out1 out2 :
  grouped V ks1 out1 → grouped V ks2 out2 → (∀ k, k ∈ ks1 ↔ k ∈ ks2) → out1 = out2.
Proof.
  intros [Hs1 He1 Hh1 Hk1] [Hs2 He2 Hh2 Hk2] Heq.
  assert (out1.*1 = out2.*1) as Hf.
  { apply sorted_unique; [done|done|]. intros h. split.
    - intros [g Hg%Heq]%Hk1. by apply (Hh2 (h, g)).
    - intros [g Hg%Heq]%Hk2. by apply (Hh1 (h, g)). }
  apply list_eq_Forall2, Forall2_same_length_lookup_2.
  { by rewrite <-(length_fmap fst out1), Hf, length_fmap. }
  intros i [h1 m1] [h2 m2] Hi1 Hi2.
  assert (h1 = h2) as ->.
  { assert (out1.*1 !! i = Some h1) as E1 by by rewrite list_lookup_fmap, Hi1.
    assert (out2.*1 !! i = Some h2) as E2 by by rewrite list_lookup_fmap, Hi2. congruence. }
  f_equal. apply map_eq. intros g. apply option_eq. intros a.
  rewrite (He1 h2 m1 (list_elem_of_lookup_2 _ _ _ Hi1)), (He2 h2 m2 (list_elem_of_lookup_2 _ _ _ Hi2)), Heq. done.
Qed.

Section loads.
Context `{GoLib} `{RowOrder}.

(** The aggregate stored at a key. *)
Definition parsed (s : rollups) (k : Z * statsGroup) : option runAgg :=
  ro_hourly s !! k ≫= λ r, match agg_of_row r with Ok a => Some a | Err _ => None end.

Lemma load_grouped s s' a b f class :
  readable s → same_rows a b s s' →
  ∃ hours ks, loadRolledHours s' a b f class = Ok hours ∧ grouped (parsed s) ks hours ∧
    ∀ k, k ∈ ks ↔ in_window a b k.1 && in_class class f k.2 = true ∧ is_Some (ro_hourly s !! k).
Proof.
  intros Hr Hsame.
  set (rows := merge_sort bucket_le (filter (λ kr : (Z * statsGroup) * jobStatsHourlyRow,
    in_window a b kr.1.1 && in_class class f kr.1.2 = true) (scan (map_to_list (ro_hourly s'))))).
  assert (∀ k r, (k, r) ∈ rows ↔ in_window a b k.1 && in_class class f k.2 = true ∧ ro_hourly s !! k = Some r) as Hel.
  { intros [h g] r. unfold rows. rewrite (merge_sort_Permutation bucket_le), list_elem_of_filter.
    rewrite (scan_perm (map_to_list (ro_hourly s'))), elem_of_map_to_list. simpl.
    split; intros [Hw Hl]; (split; [done|]); unfold in_window in Hw; [rewrite <-Hsame|rewrite Hsame]; (done || lia). }
  destruct (scan_rows_grouped (parsed s) rows [] []) as (hours & Hload & Hg).
  - apply Forall_forall. intros [k r] [_ Hl]%Hel. destruct (Hr k r Hl) as (e & He & Hk). exists e. simpl.
    split; [done|]. split; [done|]. unfold parsed. rewrite Hl. simpl. by rewrite He.
  - apply (StronglySorted_merge_sort bucket_le).
  - by intros k kr ?%elem_of_nil.
  - apply grouped_nil.
  - exists hours, rows.*1. split; [done|]. split; [done|]. intros k. rewrite list_elem_of_fmap. split.
    + intros ([k' r] & -> & [Hw Hl]%Hel). split; [done|]. simpl. by exists r.
    + intros [Hw [r Hl]]. exists (k, r). split; [done|]. by apply Hel.
Qed.
Lemma load_same s s' a b f class :
  readable s → same_rows a b s s' → loadRolledHours s' a b f class = loadRolledHours s a b f class.
Proof.
  intros Hr Hsame. destruct (load_grouped s s' a b f class Hr Hsame) as (h1 & k1 & -> & Hg1 & Hk1).
  destruct (load_grouped s s a b f class Hr ltac:(by intros ? ? ?)) as (h2 & k2 & -> & Hg2 & Hk2).
  f_equal. apply (grouped_unique (parsed s) k1 k2); [done|done|]. intros k. by rewrite Hk1, Hk2.
Qed.
Lemma load_baselines_same s s' p w :
  readable s → same_rows (sp_From p) (sp_To p) s s' → load_baselines s' p w = load_baselines s p w.
Proof.
  intros Hr Hsame. unfold load_baselines. rewrite (load_same s s'); [done|done|].
  intros h g Hh. apply Hsame. unfold baseline_from in Hh. lia.
Qed.
End loads.

(** ** The rollup's writers

    A committed write either moves the version on, or keeps the version, the covered
    range and the rows of the covered hours. *)

Definition version_of (s : rollups) : Z := default 0 (sp_Version <$> ro_progress s).
Definition kept_covered (s s' : rollups) : Prop :=
  ∀ p, ro_progress s = Some p → ∃ p', ro_progress s' = Some p' ∧ sp_From p' = sp_From p ∧ sp_To p' = sp_To p ∧
    same_rows (sp_From p) (sp_To p) s s'.
Definition commits (s s' : rollups) : Prop :=
  version_of s < version_of s' ∨ (version_of s' = version_of s ∧ kept_covered s s').
(** Versions start at 1 and are counted in int64. *)
Definition versioned (s : rollups) : Prop := ∀ p, ro_progress s = Some p → 1 ≤ sp_Version p < int64_max.

Lemma next_version v : 1 ≤ v < int64_max → add64 v 1 = v + 1.
Proof. intros Hv. unfold add64. apply wrap64_id. unfold in_int64, int64_min, int64_max in *. lia. Qed.

Section writers.
Context `{GoLib} `{RowOrder}.

Lemma step_commits st s s' : versioned s → ro_progress s' = step_progress st <$> ro_progress s → commits s s'.
Proof.
  intros Hv Hs'. unfold commits, version_of. destruct (ro_progress s) as [p|] eqn:Ep; rewrite Hs'; simpl.
  - left. rewrite next_version by by apply Hv. lia.
  - right. split; [done|]. intros p Hp. congruence.
Qed.
Lemma rollupHour_commits d h rolledAt guard st s k s' :
  versioned s → rollupHour d h rolledAt guard st s = Ok (k, s') → commits s s'.
Proof.
  intros Hv. unfold rollupHour. cbv zeta. destruct (_ && _); [done|]. intros [= _ <-]. by apply (step_commits st).
Qed.
Lemma markCovered_commits st s : versioned s → commits s (markCovered st s).
Proof. intros Hv. by apply (step_commits st). Qed.
Lemma ensure_commits h s : commits s (ensureStatsProgress h s).
Proof.
  unfold ensureStatsProgress. destruct (ro_progress s) as [p|] eqn:Ep.
  - right. split; [done|]. intros p' Hp'. exists p'. by split_and!.
  - left. unfold version_of. rewrite Ep. done.
Qed.
Lemma raise_floor_commits e s : versioned s → commits s (with_progress (raise_floor e <$> ro_progress s) s).
Proof.
  intros Hv. unfold commits, version_of. destruct (ro_progress s) as [p|] eqn:Ep; simpl.
  2:{ right. split; [done|]. intros p Hp. congruence. }
  unfold raise_floor. destruct ((sp_From p <? e) || (sp_To p <? e)) eqn:Er; simpl.
  - left. rewrite next_version by by apply Hv. lia.
  - right. apply orb_false_iff in Er as [E1 E2]. split; [by destruct (negb _)|]. intros p' Hp'. assert (p' = p) as -> by congruence.
    cbn [ro_progress with_progress]. eexists. split; [done|]. destruct (negb _); simpl; split_and!; (done || lia).
Qed.
(** A prune below the covered range. *)
Lemma prune_commits e s :
  (∀ p, ro_progress s = Some p → e ≤ sp_From p) → commits s (prune_hours e s).2 ∧ commits s (prune_groups e s).2.
Proof.
  intros He. split; right; (split; [done|]); intros p Hp; exists p; (split_and!; [done..|]); intros h g Hh; [|done].
  specialize (He p Hp). unfold prune_hours, prune_before. cbn.
  destruct (ro_hourly s !! (h, g)) as [r|] eqn:El; [apply map_lookup_filter_Some; split; [done|simpl; lia]|].
  apply map_lookup_filter_None. by left.
Qed.
End writers.

(** ** Calls, writers and the memo interleaved *)

Inductive phase := Reading | Missed | Loaded (bs : list Baseline).
(** A call in flight: what it was asked, the progress it read, how far it is, and, for
    the proof, every state its database has been in since it began. *)
Record call := {
  ca_pool : nat; ca_memo : bool; ca_window : Z; ca_progress : statsProgress; ca_phase : phase; ca_seen : list rollups
}.
Definition in_phase (ph : phase) (c : call) : call :=
  {| ca_pool := ca_pool c; ca_memo := ca_memo c; ca_window := ca_window c; ca_progress := ca_progress c;
     ca_phase := ph; ca_seen := ca_seen c |}.
Definition witness (pool : nat) (s : rollups) (c : call) : call :=
  if decide (ca_pool c = pool) then
    {| ca_pool := ca_pool c; ca_memo := ca_memo c; ca_window := ca_window c; ca_progress := ca_progress c;
       ca_phase := ca_phase c; ca_seen := ca_seen c ++ [s] |}
  else c.
Record bstate := { bs_dbs : nat → rollups; bs_memo : baselineCache; bs_calls : gmap nat call }.
Definition with_calls (f : gmap nat call → gmap nat call) (st : bstate) : bstate :=
  {| bs_dbs := bs_dbs st; bs_memo := bs_memo st; bs_calls := f (bs_calls st) |}.
Definition set_db (pool : nat) (s : rollups) (dbs : nat → rollups) (i : nat) : rollups :=
  if decide (i = pool) then s else dbs i.

Section machine.
Context `{GoLib} `{RowOrder}.

Definition begin_call (st : bstate) (pool : nat) (memo : bool) (window : Z) : call :=
  {| ca_pool := pool; ca_memo := memo; ca_window := baseline_window window;
     ca_progress := default zero_progress (ro_progress (bs_dbs st pool)); ca_phase := Reading;
     ca_seen := [bs_dbs st pool] |}.
Definition look (st : bstate) (c : call) : option (list Baseline) :=
  if ca_memo c then cache_get (bs_memo st) (ca_pool c, ca_window c) (ca_progress c) else None.
Definition put (st : bstate) (c : call) (bs : list Baseline) : baselineCache :=
  if ca_memo c then cache_put (bs_memo st) (ca_pool c, ca_window c) (ca_progress c) bs else bs_memo st.

Inductive bstep (st : bstate) : option (call * res (list Baseline)) → bstate → Prop :=
| b_commit pool s' :
    commits (bs_dbs st pool) s' → readable s' →
    bstep st None {| bs_dbs := set_db pool s' (bs_dbs st); bs_memo := bs_memo st; bs_calls := witness pool s' <$> bs_calls st |}
| b_uncovered pool memo window :
    covered (ca_progress (begin_call st pool memo window)) = false →
    bstep st (Some (begin_call st pool memo window, Ok [])) st
| b_begin id pool memo window :
    bs_calls st !! id = None → covered (ca_progress (begin_call st pool memo window)) = true →
    bstep st None (with_calls (insert id (begin_call st pool memo window)) st)
| b_hit id c bs :
    bs_calls st !! id = Some c → ca_phase c = Reading → look st c = Some bs →
    bstep st (Some (c, Ok bs)) (with_calls (delete id) st)
| b_miss id c :
    bs_calls st !! id = Some c → ca_phase c = Reading → look st c = None →
    bstep st None (with_calls (insert id (in_phase Missed c)) st)
| b_load id c bs :
    bs_calls st !! id = Some c → ca_phase c = Missed →
    load_baselines (bs_dbs st (ca_pool c)) (ca_progress c) (ca_window c) = Ok bs →
    bstep st None (with_calls (insert id (in_phase (Loaded bs) c)) st)
| b_fail id c e :
    bs_calls st !! id = Some c → ca_phase c = Missed →
    load_baselines (bs_dbs st (ca_pool c)) (ca_progress c) (ca_window c) = Err e →
    bstep st (Some (c, Err e)) (with_calls (delete id) st)
| b_put id c bs :
    bs_calls st !! id = Some c → ca_phase c = Loaded bs →
    bstep st (Some (c, Ok bs)) {| bs_dbs := bs_dbs st; bs_memo := put st c bs; bs_calls := delete id (bs_calls st) |}.

Inductive breachable : bstate → Prop :=
| b_start dbs : (∀ i, readable (dbs i)) → breachable {| bs_dbs := dbs; bs_memo := ∅; bs_calls := ∅ |}
| b_next st ev st' : breachable st → bstep st ev st' → breachable st'.

(** A result stored or about to be stored for a pool, window and progress. *)
Definition claims (st : bstate) (i : nat) (w : Z) (p : statsProgress) (bs : list Baseline) : Prop :=
  bs_memo st !! (i, w) = Some {| me_progress := p; me_baselines := bs |} ∨
  ∃ id c, bs_calls st !! id = Some c ∧ ca_phase c = Loaded bs ∧ ca_pool c = i ∧ ca_window c = w ∧ ca_progress c = p.
(** It is what the tables say while their version is the progress's. *)
Definition at_range (s : rollups) (p : statsProgress) : Prop :=
  ∃ q, ro_progress s = Some q ∧ sp_From q = sp_From p ∧ sp_To q = sp_To p.
Definition no_newer (s : rollups) (p : statsProgress) : Prop :=
  sp_Version p ≤ version_of s ∧ (sp_Version p = version_of s → at_range s p).
Definition valid (s : rollups) (w : Z) (p : statsProgress) (bs : list Baseline) : Prop :=
  no_newer s p ∧ (sp_Version p = version_of s → load_baselines s p w = Ok bs).
(** A call may answer it: the tables said it at some moment of the call. *)
Definition answers (c : call) (r : res (list Baseline)) : Prop :=
  ∃ s, s ∈ ca_seen c ∧ r = load_baselines s (ca_progress c) (ca_window c).

Record memo_ok (st : bstate) : Prop := {
  mo_readable : ∀ i, readable (bs_dbs st i);
  mo_began : ∀ id c, bs_calls st !! id = Some c → covered (ca_progress c) = true ∧
    ∃ s0 rest, ca_seen c = s0 :: rest ∧ default zero_progress (ro_progress s0) = ca_progress c;
  mo_now : ∀ id c, bs_calls st !! id = Some c →
    bs_dbs st (ca_pool c) ∈ ca_seen c ∧ no_newer (bs_dbs st (ca_pool c)) (ca_progress c);
  mo_valid : ∀ i w p bs, claims st i w p bs → valid (bs_dbs st i) w p bs;
  mo_answers : ∀ i w p bs id c, claims st i w p bs → bs_calls st !! id = Some c →
    ca_pool c = i → ca_window c = w → ca_progress c = p → answers c (Ok bs)
}.

Lemma no_newer_commit s s' p : commits s s' → no_newer s p → no_newer s' p.
Proof.
  intros [Hlt|[Heq Hk]] [Hle Hat]; (split; [lia|]); [lia|]. intros Hv.
  destruct Hat as (q & Hq & Hf & Ht); [lia|]. destruct (Hk q Hq) as (q' & Hq' & Hf' & Ht' & _). exists q'. split; [done|]. lia.
Qed.
Lemma valid_commit s s' w p bs : readable s → commits s s' → valid s w p bs → valid s' w p bs.
Proof.
  intros Hr Hc [Hn Hl]. split; [by apply (no_newer_commit s)|]. intros Hv.
  destruct Hc as [Hlt|[Heq Hk]]; [destruct Hn; lia|]. destruct Hn as [_ Hat].
  destruct Hat as (q & Hq & Hf & Ht); [lia|]. destruct (Hk q Hq) as (_ & _ & _ & _ & Hsame).
  rewrite (load_baselines_same s s'); [apply Hl; lia|done|]. by rewrite <-Hf, <-Ht.
Qed.

Lemma witness_same pool s c :
  ca_pool (witness pool s c) = ca_pool c ∧ ca_window (witness pool s c) = ca_window c ∧
  ca_progress (witness pool s c) = ca_progress c ∧ ca_phase (witness pool s c) = ca_phase c ∧
  ca_seen c `prefix_of` ca_seen (witness pool s c) ∧ (ca_pool c = pool → s ∈ ca_seen (witness pool s c)).
Proof.
  unfold witness. destruct (decide (ca_pool c = pool)); simpl; split_and!; try done.
  - by exists [s].
  - intros _. apply elem_of_app. right. by left.
Qed.
Lemma answers_more c c' r :
  ca_progress c' = ca_progress c → ca_window c' = ca_window c → ca_seen c `prefix_of` ca_seen c' → answers c r → answers c' r.
Proof.
  intros Hp Hw [k Hk] (s & Hs & ->). exists s. rewrite Hp, Hw, Hk. split; [|done]. apply elem_of_app. by left.
Qed.

Lemma ok_commit st pool s' :
  memo_ok st → commits (bs_dbs st pool) s' → readable s' →
  memo_ok {| bs_dbs := set_db pool s' (bs_dbs st); bs_memo := bs_memo st; bs_calls := witness pool s' <$> bs_calls st |}.
Proof.
  intros [Hr Hb Hn Hv Ha] Hc Hr'. set (st' := Build_bstate _ _ _).
  assert (∀ i w p bs, claims st' i w p bs → claims st i w p bs) as Hcl.
  { intros i w p bs [Hm|(id & c & Hl & Hph & Hp & Hw & Hpr)]; [by left|]. right. cbn in Hl.
    rewrite lookup_fmap in Hl. apply fmap_Some in Hl as (c0 & Hl & ->).
    destruct (witness_same pool s' c0) as (E1 & E2 & E3 & E4 & _). exists id, c0. split_and!; congruence. }
  assert (∀ id c, bs_calls st' !! id = Some c → ∃ c0, bs_calls st !! id = Some c0 ∧ c = witness pool s' c0) as Hcalls.
  { intros id c Hl. cbn in Hl. rewrite lookup_fmap in Hl. by apply fmap_Some in Hl as (c0 & Hl & ->); eauto. }
  split.
  - intros i. cbn. unfold set_db. by destruct (decide _).
  - intros id c (c0 & Hl & ->)%Hcalls. destruct (witness_same pool s' c0) as (_ & _ & -> & _ & [k Hk] & _).
    destruct (Hb id c0 Hl) as (Hcov & s0 & rest & Hs & Hp). split; [done|]. exists s0, (rest ++ k).
    by rewrite Hk, Hs.
  - intros id c (c0 & Hl & ->)%Hcalls. destruct (Hn id c0 Hl) as [Hs Hno]. cbn. unfold set_db.
    destruct (witness_same pool s' c0) as (-> & _ & -> & _ & [k Hk] & Hin). destruct (decide _) as [E|]; [rewrite E in Hno|].
    + split; [by apply Hin|]. by apply (no_newer_commit (bs_dbs st pool)).
    + split; [rewrite Hk; apply elem_of_app; by left|done].
  - intros i w p bs Hcl'%Hcl%Hv. cbn. unfold set_db. destruct (decide (i = pool)) as [->|]; [|done].
    by apply (valid_commit (bs_dbs st pool)).
  - intros i w p bs id c Hcl'%Hcl (c0 & Hl & ->)%Hcalls. destruct (witness_same pool s' c0) as (E1 & E2 & E3 & _ & Hk & _).
    rewrite E1, E2, E3. intros H1 H2 H3. apply (answers_more c0); [done..|]. by apply (Ha i w p bs id c0).
Qed.

Lemma ok_drop st id : memo_ok st → memo_ok (with_calls (delete id) st).
Proof.
  intros [Hr Hb Hn Hv Ha].
  assert (∀ k c, delete id (bs_calls st) !! k = Some c → bs_calls st !! k = Some c) as Hd.
  { intros k c Hk. by apply lookup_delete_Some in Hk as [_ Hk]. }
  assert (∀ i w p bs, claims (with_calls (delete id) st) i w p bs → claims st i w p bs) as Hcl.
  { intros i w p bs [Hm|(k & c & Hl & Hx)]; [by left|right]. exists k, c. split; [by apply Hd|done]. }
  split; cbn; eauto.
Qed.

Lemma uncovered_zero s : covered (default zero_progress (ro_progress s)) = true →
  ro_progress s = Some (default zero_progress (ro_progress s)).
Proof. by destruct (ro_progress s). Qed.

Lemma ok_begin st id pool memo window :
  memo_ok st → bs_calls st !! id = None → covered (ca_progress (begin_call st pool memo window)) = true →
  memo_ok (with_calls (insert id (begin_call st pool memo window)) st).
Proof.
  intros [Hr Hb Hn Hv Ha] Hid Hcov. set (c := begin_call st pool memo window) in *.
  pose proof (uncovered_zero (bs_dbs st pool) Hcov) as Hp. change (default _ _) with (ca_progress c) in Hp.
  assert (sp_Version (ca_progress c) = version_of (bs_dbs st pool)) as Hver by (unfold version_of; by rewrite Hp).
  assert (∀ i w p bs, claims (with_calls (insert id c) st) i w p bs → claims st i w p bs) as Hcl.
  { intros i w p bs [Hm|(k & x & Hl & Hx)]; [by left|right]. exists k, x. cbn in Hl.
    apply lookup_insert_Some in Hl as [[<- <-]|[_ Hl]]; [by destruct Hx|by split]. }
  split.
  - done.
  - intros k x. cbn. intros [[<- <-]|[_ Hl]]%lookup_insert_Some; [|by apply (Hb k)].
    split; [done|]. by exists (bs_dbs st pool), [].
  - intros k x. cbn. intros [[<- <-]|[_ Hl]]%lookup_insert_Some; [|by apply (Hn k)].
    split; [by left|]. split; [exact (Z.eq_le_incl _ _ Hver)|]. intros _. by exists (ca_progress c).
  - intros i w p bs Hx%Hcl. by apply Hv.
  - intros i w p bs k x Hx%Hcl. cbn. intros [[<- <-]|[_ Hl]]%lookup_insert_Some; [|by apply (Ha i w p bs k)].
    intros <- <- <-. apply Hv in Hx as [_ Hx]. exists (bs_dbs st pool). split; [by left|]. symmetry. by apply Hx.
Qed.

(** A call goes on to its next phase; what it loaded, the tables say now. *)
Lemma ok_phase st id c ph :
  memo_ok st → bs_calls st !! id = Some c →
  (∀ bs, ph = Loaded bs → load_baselines (bs_dbs st (ca_pool c)) (ca_progress c) (ca_window c) = Ok bs) →
  memo_ok (with_calls (insert id (in_phase ph c)) st).
Proof.
  intros [Hr Hb Hn Hv Ha] Hid Hload.
  assert (∀ i w p bs, claims (with_calls (insert id (in_phase ph c)) st) i w p bs → claims st i w p bs ∨
    (i = ca_pool c ∧ w = ca_window c ∧ p = ca_progress c ∧ load_baselines (bs_dbs st i) p w = Ok bs)) as Hcl.
  { intros i w p bs [Hm|(k & x & Hl & Hph & H1 & H2 & H3)]; [by left; left|]. cbn in Hl.
    apply lookup_insert_Some in Hl as [[<- <-]|[_ Hl]]; [|left; right; by exists k, x].
    right. cbn in H1, H2, H3, Hph. subst. by split_and!; [..|apply Hload]. }
  assert (∀ k x, insert id (in_phase ph c) (bs_calls st) !! k = Some x → ∃ x0, bs_calls st !! k = Some x0 ∧
    ca_pool x = ca_pool x0 ∧ ca_window x = ca_window x0 ∧ ca_progress x = ca_progress x0 ∧ ca_seen x = ca_seen x0) as Hcalls.
  { intros k x [[<- <-]|[_ Hl]]%lookup_insert_Some; [by exists c|by exists x]. }
  split.
  - done.
  - intros k x (x0 & Hl & _ & _ & -> & ->)%Hcalls. by apply (Hb k).
  - intros k x (x0 & Hl & E & _ & -> & ->)%Hcalls. rewrite E. by apply (Hn k).
  - intros i w p bs [Hx|(-> & -> & -> & Hx)]%Hcl; [by apply Hv|]. split; [by apply (Hn id)|done].
  - intros i w p bs k x Hx (x0 & Hl & E1 & E2 & E3 & E4)%Hcalls H1 H2 H3.
    apply (answers_more x0); [done|done|by rewrite E4|]. rewrite E1 in H1. rewrite E2 in H2. rewrite E3 in H3.
    apply Hcl in Hx as [Hx|(-> & -> & -> & Hx)]; [by apply (Ha i w p bs k)|].
    exists (bs_dbs st (ca_pool c)). split; [rewrite <-H1; by apply (Hn k)|]. by rewrite H2, H3, Hx.
Qed.

Lemma ok_put st id c bs :
  memo_ok st → bs_calls st !! id = Some c → ca_phase c = Loaded bs →
  memo_ok {| bs_dbs := bs_dbs st; bs_memo := put st c bs; bs_calls := delete id (bs_calls st) |}.
Proof.
  intros Hok Hid Hph. destruct (ok_drop st id Hok) as [Hr Hb Hn _ _]. destruct Hok as [_ _ _ Hv Ha].
  set (st' := Build_bstate _ _ _).
  assert (∀ i w p x, claims st' i w p x → claims st i w p x) as Hcl.
  { intros i w p x [Hm|(k & y & Hl & Hx)].
    - cbn in Hm. unfold put, cache_put in Hm. destruct (ca_memo c); [|by left].
      apply lookup_insert_Some in Hm as [[[= <- <-] [= <- <-]]|[_ Hm]]; [right; by exists id, c|].
      destruct (_ && _); [by rewrite lookup_empty in Hm|by left].
    - right. exists k, y. split; [|done]. cbn in Hl. by apply lookup_delete_Some in Hl as [_ Hl]. }
  split; [exact Hr|exact Hb|exact Hn|..].
  - intros i w p x Hx%Hcl. by apply Hv.
  - intros i w p x k y Hx%Hcl Hl. cbn in Hl. apply lookup_delete_Some in Hl as [_ Hl]. by apply (Ha i w p x k).
Qed.

Lemma breachable_ok st : breachable st → memo_ok st.
Proof.
  induction 1 as [dbs Hr|st ev st' _ IH Hstep].
  - split; cbn; [done|..].
    + intros id c Hl. by rewrite lookup_empty in Hl.
    + intros id c Hl. by rewrite lookup_empty in Hl.
    + intros i w p bs [Hm|(id & c & Hl & _)]; cbn in *; [by rewrite lookup_empty in Hm|by rewrite lookup_empty in Hl].
    + intros i w p bs id c _ Hl. by rewrite lookup_empty in Hl.
  - destruct Hstep; auto using ok_commit, ok_begin, ok_drop.
    + apply ok_phase; [done|done|]. by intros bs [=].
    + apply ok_phase; [done|done|]. by intros bs' [= <-].
    + by apply ok_put.
Qed.

(** C30. The memo is transparent. However calls for any windows and pools, the rollup's
    writers and the memo's evictions interleave, a call returns what the tables said,
    for the progress it read when it began, at some moment between its beginning and
    its end: a stored result is never served past the version it was computed at. *)
Theorem memo_transparent st c r st' :
  breachable st → bstep st (Some (c, r)) st' →
  (∃ s0 rest, ca_seen c = s0 :: rest ∧ default zero_progress (ro_progress s0) = ca_progress c) ∧
  (if covered (ca_progress c)
   then ∃ s, s ∈ ca_seen c ∧ r = load_baselines s (ca_progress c) (ca_window c)
   else r = Ok []).
Proof.
  intros Hok%breachable_ok Hstep. inversion Hstep as [| ? ? ? Hcov| |id c' bs Hl Hph Hlook| | |id c' e Hl Hph Hload|id c' bs Hl Hph]; subst.
  - split; [by exists (bs_dbs st' pool), []|]. by rewrite Hcov.
  - destruct (mo_began st Hok id c Hl) as [Hcov Hs]. split; [done|]. rewrite Hcov. unfold look, cache_get in Hlook.
    destruct (ca_memo c); [|done]. destruct (bs_memo st !! _) as [[p bs']|] eqn:Em; [|done].
    case_bool_decide as Ep; [|done]. injection Hlook as ->. cbn in Ep. subst p.
    apply (mo_answers st Hok (ca_pool c) (ca_window c) (ca_progress c) bs id c); [by left|done..].
  - destruct (mo_began st Hok id c Hl) as [Hcov Hs]. split; [done|]. rewrite Hcov.
    exists (bs_dbs st (ca_pool c)). split; [by apply (mo_now st Hok id)|done].
  - destruct (mo_began st Hok id c Hl) as [Hcov Hs]. split; [done|]. rewrite Hcov.
    apply (mo_answers st Hok (ca_pool c) (ca_window c) (ca_progress c) bs id c); [right; by exists id, c|done..].
Qed.
End machine.

(** ** What a baseline says *)

Definition of_kind (k : string) (T : tagged_runs) : list runView := (filter (λ x, x.1.1 = k) T).*2.
(** A table by kind holds the runs [T], whatever inserts they came with. *)
Definition by_kind (B : gmap string runAgg) (T : tagged_runs) : Prop :=
  ∀ k, match B !! k with
       | Some a => of_kind k T ≠ [] ∧ ∃ n, a = agg_spec k "" (of_kind k T) n
       | None => of_kind k T = []
       end.
#[global] Instance of_kind_perm k : Proper ((≡ₚ) ==> (≡ₚ)) (of_kind k).
Proof. intros T1 T2 HT. unfold of_kind. by rewrite HT. Qed.
#[global] Instance by_kind_perm B : Proper ((≡ₚ) ==> iff) (by_kind B).
Proof.
  assert (∀ T1 T2, T1 ≡ₚ T2 → by_kind B T1 → by_kind B T2) as Hdir.
  { intros T1 T2 HT HB k. specialize (HB k). pose proof (of_kind_perm k _ _ HT) as Hk.
    destruct (B !! k) as [a|]; [|rewrite HB in Hk; by apply Permutation_nil_l in Hk].
    destruct HB as (Hne & n & ->). split.
    - intros E. rewrite E in Hk. by apply Permutation_nil_r in Hk.
    - exists n. by apply agg_spec_perm. }
  intros T1 T2 HT. split; apply Hdir; [done|by symmetry].
Qed.
Lemma of_kind_app k T1 T2 : of_kind k (T1 ++ T2) = of_kind k T1 ++ of_kind k T2.
Proof. unfold of_kind. by rewrite filter_app, fmap_app. Qed.
Lemma of_kind_tag k g (l : list runView) : of_kind k ((g,.) <$> l) = if decide (g.1 = k) then l else [].
Proof.
  unfold of_kind. induction l as [|v l IH]; csimpl; [by destruct (decide _)|]. rewrite filter_cons. simpl.
  destruct (decide (g.1 = k)); csimpl; [by rewrite IH|done].
Qed.
(** Every run is counted as an attempt or as superseded. *)
Lemma counts_all l : fits l → add64 (count_of is_counted l) (count_of (λ v, negb (is_counted v)) l) = Z.of_nat (length l).
Proof.
  intros [_ Hl]. unfold count_of. rewrite add64_wrap.
  assert (sum_of (λ v, one_if (is_counted v)) l + sum_of (λ v, one_if (negb (is_counted v))) l = Z.of_nat (length l)) as ->.
  { clear Hl. induction l as [|v l IH]; unfold sum_of in *; simpl in *; [done|]. destruct (is_counted v); simpl; lia. }
  apply wrap64_id. unfold in_int64, int64_min in *. lia.
Qed.

Section values.
Context `{GoLib} `{RowOrder}.

Lemma add_baseline_spec B T g l n :
  by_kind B T → fits l → by_kind (add_baseline B (agg_spec g.1 g.2 l n)) (((g,.) <$> l) ++ T).
Proof.
  intros HB Hf. unfold add_baseline. cbn [ag_Attempts ag_Superseded ag_Kind agg_spec]. rewrite counts_all by done.
  destruct (Z.eqb_spec (Z.of_nat (length l)) 0) as [E|E].
  { apply (f_equal Z.to_nat) in E. rewrite Nat2Z.id in E. by destruct l. }
  intros k. rewrite of_kind_app, of_kind_tag. destruct (decide (g.1 = k)) as [<-|Hk].
  - rewrite lookup_insert_eq. split; [by destruct l|]. specialize (HB g.1).
    assert (∃ n0, default (newRunAgg g.1 "") (B !! g.1) = agg_spec g.1 "" (of_kind g.1 T) n0) as [n0 ->].
    { destruct (B !! g.1) as [a|]; [by destruct HB as (_ & n0 & ->); exists n0|]. rewrite HB. by exists 0. }
    exists (n0 + n). rewrite agg_merge_spec by done. apply agg_spec_perm; [apply Permutation_app_comm|done].
  - rewrite lookup_insert_ne by done. apply HB.
Qed.
(** One hour's aggregates. *)
Lemma add_hour_spec m T J B T0 :
  represents m T J → fits T.*2 → by_kind B T0 →
  by_kind (foldl (λ m ga, add_baseline m ga.2) B (scan (map_to_list m))) (T ++ T0).
Proof.
  intros Hm Hf. destruct (scan_entries m T J Hm) as (Hnd & Hl & HT & _). rewrite <-HT. clear HT.
  revert B T0 Hnd Hl. induction (scan (map_to_list m)) as [|[g a] l IH]; intros B T0 Hnd Hl HB; csimpl in *.
  { by rewrite tags_in_nil. }
  apply NoDup_cons in Hnd as [Hg Hnd]. assert (m !! g = Some a) as Ha by (apply Hl; left).
  rewrite Hm in Ha. apply tagged_inv in Ha as [_ ->].
  pose proof (tags_in_cons id g l.*1 T Hg) as Hp. rewrite !retag_id in Hp. rewrite Hp, <-(assoc_L (++)).
  apply IH; [done|intros g' a' Hin; apply Hl; by right|]. apply add_baseline_spec; [done|by apply fits_tag].
Qed.
Lemma add_hours_spec (hours : list rolledHour) (T : Z → tagged_runs) (J : Z → tagged_jobs) B T0 :
  (∀ h m, (h, m) ∈ hours → represents m (T h) (J h) ∧ fits (T h).*2) → by_kind B T0 →
  by_kind (foldl (λ m h, foldl (λ m ga, add_baseline m ga.2) m (scan (map_to_list h.2))) B hours)
    ((hours.*1 ≫= T) ++ T0).
Proof.
  revert B T0. induction hours as [|[h m] hours IH]; intros B T0 Hh HB; csimpl; [done|].
  destruct (Hh h m) as [Hm Hf]; [by left|]. rewrite <-(assoc_L (++)), Permutation_app_swap_app.
  apply IH; [intros h' m' Hin; apply Hh; by right|]. by apply (add_hour_spec m (T h) (J h)).
Qed.

(** The runs of a kind that finished in a stretch. *)
Definition kind_runs (d : db) (k : string) (from to : Z) : list runView :=
  filter (λ v, rv_Kind v = k) (finished_in d from to).

Lemma of_kind_class d k a b : of_kind k (class_runs d no_filter kindRows a b) = kind_runs d k a b.
Proof.
  unfold of_kind, class_runs, kind_runs, retag, tag_runs. rewrite runs_in_all.
  induction (finished_in d a b) as [|v l IH]; [done|]. csimpl. rewrite !filter_cons. simpl.
  destruct (decide (rv_Kind v = k)); csimpl; [f_equal; exact IH|exact IH].
Qed.

(** C31. Baselines are what the runs say. While the rollups are sound, a read that finds
    nothing memoized lists, in the order of their names, exactly the kinds with a run
    finished in the covered hours of the window, each with the aggregate of all its
    runs there: its samples, its histogram, its maximum, its ended and discarded jobs. *)
Theorem baselines_of_runs d s window pool c c' :
  regular d → sound d s → covered (default zero_progress (ro_progress s)) = true →
  (∀ i, c !! (i, baseline_window window) = None) →
  let p := default zero_progress (ro_progress s) in
  let from := baseline_from p (baseline_window window) in
  ∃ bs, (Baselines pool window s c s c').1 = Ok bs ∧ StronglySorted baseline_le bs ∧ NoDup (bl_Kind <$> bs) ∧
    ∀ b, b ∈ bs ↔ ∃ k, kind_runs d k from (sp_To p) ≠ [] ∧
      b = baselineFromAgg k (agg_spec k "" (kind_runs d k from (sp_To p)) 0) from (sp_To p).
Proof.
  intros Hd Hs Hcov Hc p from. destruct (progress_aligned d s Hs Hcov) as (Hp & Haf & Hat). unfold progress_of in *. fold p in Hp, Haf, Hat, Hcov.
  assert (0 < baseline_window window) as Hw.
  { unfold baseline_window. pose proof hour_pos. destruct (Z.leb_spec window 0); lia. }
  assert (aligned from ∧ from ≤ sp_To p) as [Hfr Hft].
  { unfold from, baseline_from. destruct (floorHour_spec (sp_To p - baseline_window window)) as [Hal Hfl].
    unfold covered in Hcov. split; [|lia].
    destruct (Z.max_spec (floorHour (sp_To p - baseline_window window)) (sp_From p)) as [[_ ->]|[_ ->]]; done. }
  destruct (rolled_hours_list d s p no_filter kindRows Hd Hs Hp eq_refl from (sp_To p) Hfr Hat Hft) as (hours & Hload & Hh & HT & _);
    [unfold from, baseline_from; lia|lia|].
  pose proof (add_hours_spec hours (λ h, class_runs d no_filter kindRows h (h + hour))
    (λ h, class_jobs d no_filter kindRows h (h + hour)) ∅ []) as HB.
  lapply HB; [clear HB; intros HB|intros h m Hin; split; [by apply Hh|by apply class_runs_fits]].
  lapply HB; [clear HB; intros HB|intros k; by rewrite lookup_empty].
  rewrite app_nil_r, HT in HB.
  eexists. split.
  { unfold Baselines. cbv zeta. fold p. rewrite Hcov. cbn [negb].
    assert ((pool ≫= λ pool, cache_get c (pool, baseline_window window) p) = None) as ->.
    { destruct pool as [i|]; [|done]. cbn. unfold cache_get. by rewrite Hc. }
    unfold load_baselines. cbv zeta. fold from. rewrite Hload. done. }
  unfold baselinesFrom. cbv zeta. set (B := foldl _ ∅ hours) in *.
  set (l := _ <$> scan (map_to_list B)).
  assert (∀ b, b ∈ merge_sort baseline_le l ↔ ∃ k a, B !! k = Some a ∧ b = baselineFromAgg k a from (sp_To p)) as Hel.
  { intros b. rewrite (merge_sort_Permutation baseline_le). unfold l. rewrite (scan_perm (map_to_list B)), list_elem_of_fmap. split.
    - intros ([k a] & -> & Hin%elem_of_map_to_list). by exists k, a.
    - intros (k & a & Hk & ->). exists (k, a). split; [done|]. by apply elem_of_map_to_list. }
  split; [apply (StronglySorted_merge_sort baseline_le)|]. split.
  { rewrite (merge_sort_Permutation baseline_le). unfold l. rewrite (scan_perm (map_to_list B)), <-list_fmap_compose.
    rewrite (list_fmap_ext _ fst) by done. apply NoDup_fst_map_to_list. }
  intros b. rewrite Hel. split.
  - intros (k & a & Hk & ->). specialize (HB k). rewrite Hk, of_kind_class in HB. destruct HB as (Hne & n & ->). by exists k.
  - intros (k & Hne & ->). specialize (HB k). rewrite of_kind_class in HB. destruct (B !! k) as [a|] eqn:Ek; [|done].
    destruct HB as (_ & n & ->). by eexists k, _.
Qed.
End values.
