(* ===== verification/ErrorGroups.v ===== *)
(** * Error groups: internal/core/error_groups.go, ErrorGroups

    A window's failures by kind and fingerprint, planned and capped as [Stats] is:
    covered hours from job_error_groups_hourly, the rest from the raw runs. A stored
    group names its first and last run by the hour they finished in, until
    [settleSightings] reads their finish times. *)

From S2P Require Import Prelude Types Text Json Fingerprint Store Plan Sweep Retention Ids Query Hist Maintenance Rollup Stats.

Local Open Scope Z_scope.

Definition defaultErrorGroupsLimit : Z := 50.
Definition maxHourlyWindow : Z := 7 * 24 * hour.
Abbreviation errorGroupKey := (string * string)%type.

Record ErrorGroup := {
  er_Kind : string; er_Fingerprint : string; er_ErrorClass : ErrorClass; er_Failures : Z; er_Discarded : Z;
  er_Retried : Z; er_FirstSeen : Z; er_LastSeen : Z; er_FirstRunID : string; er_LastRunID : string;
  er_SampleMessage : string; er_Message : string; er_Hourly : list Z
}.
Record ErrorGroupsParams := {
  ep_From : Z; ep_To : Z; ep_Kind : string; ep_Fingerprint : string; ep_Limit : Z; ep_WithHourly : bool;
  ep_MaxRawSpan : Z
}.
Record ErrorGroupsResult := { ey_Groups : list ErrorGroup; ey_Coverage : StatsCoverage }.

(** ** Adding groups *)

(** windowErrorGroups' [add]. *)
Definition add_group (fp : string) (merged : gmap errorGroupKey errorGroupAgg) (kg : errorGroupKey * errorGroupAgg)
  : gmap errorGroupKey errorGroupAgg :=
  if negb (is_empty fp) && negb (bool_decide (kg.1.2 = fp)) then merged
  else <[kg.1 := group_merge (default (newErrorGroupAgg kg.1.1 kg.1.2) (merged !! kg.1)) kg.2]> merged.

(** A stored row as a group of one hour. *)
Definition group_of_row (k : Z * errorGroupKey) (r : jobErrorGroupHourlyRow) : errorGroupAgg :=
  {| eg_Kind := k.2.1; eg_Fingerprint := k.2.2; eg_ErrorClass := gr_ErrorClass r; eg_Sample := gr_SampleMessage r;
     eg_Failures := gr_Failures r; eg_Discarded := gr_Discarded r;
     eg_First := {| rr_At := k.1; rr_ID := default "" (gr_FirstRunID r); rr_exact := false |};
     eg_Last := {| rr_At := k.1; rr_ID := default "" (gr_LastRunID r); rr_exact := false |};
     eg_hourly := {[k.1 := gr_Failures r]} |}.
Abbreviation group_entry := ((Z * errorGroupKey) * jobErrorGroupHourlyRow)%type.
Definition group_bucket_le (a b : group_entry) : Prop := a.1.1 ≤ b.1.1.
#[global] Instance group_bucket_le_dec : RelDecision group_bucket_le.
Proof. intros a b. unfold group_bucket_le. apply _. Defined.

(** The most failures first, then by kind and fingerprint. *)
Definition group_rank_le (a b : errorGroupAgg) : Prop :=
  eg_Failures b < eg_Failures a ∨
  (eg_Failures b = eg_Failures a ∧ key_le (eg_Kind a, eg_Fingerprint a) (eg_Kind b, eg_Fingerprint b)).
#[global] Instance group_rank_le_dec : RelDecision group_rank_le.
Proof. intros a b. unfold group_rank_le. apply _. Defined.

Section errors.
Context `{GoLib} `{RowOrder}.

(** The rows [loadErrorGroupHours] reads. *)
Definition group_rows (s : rollups) (from to : Z) (kind fp : string) : list group_entry :=
  merge_sort group_bucket_le
    (filter (λ kr : group_entry, in_window from to kr.1.1 && (is_empty kind || bool_decide (kr.1.2.1 = kind)) &&
       (is_empty fp || bool_decide (kr.1.2.2 = fp)) = true) (scan (map_to_list (ro_groups s)))).
Definition loadErrorGroupHours (s : rollups) (from to : Z) (kind fp : string)
    (merged : gmap errorGroupKey errorGroupAgg) : gmap errorGroupKey errorGroupAgg :=
  foldl (λ m kr, add_group fp m (kr.1.2, group_of_row kr.1 kr.2)) merged (group_rows s from to kind fp).

Definition windowErrorGroups (d : db) (s : rollups) (plan : windowPlan) (p : ErrorGroupsParams)
  : gmap errorGroupKey errorGroupAgg :=
  let raw := foldl (λ m seg,
    foldl (add_group (ep_Fingerprint p)) m
      (scan (map_to_list (wa_groups (aggregateWindow d seg.1 seg.2 {| sf_Kind := ep_Kind p; sf_Queue := "" |})))))
    ∅ (wp_raw plan) in
  if wp_rolledFrom plan <? wp_rolledTo plan
  then loadErrorGroupHours s (wp_rolledFrom plan) (wp_rolledTo plan) (ep_Kind p) (ep_Fingerprint p) raw else raw.

(** The earliest stored hour of a group before To, by whole seconds: its first run. *)
Definition probe_first (s : rollups) (kind fp : string) (to : Z) : option runRef :=
  match head (merge_sort group_bucket_le
    (filter (λ kr : group_entry, bool_decide (kr.1.2 = (kind, fp)) && (kr.1.1 / second <? to / second) = true)
       (scan (map_to_list (ro_groups s))))) with
  | Some kr => let id := default "" (gr_FirstRunID kr.2) in
               if is_empty id then None else Some {| rr_At := kr.1.1; rr_ID := id; rr_exact := false |}
  | None => None
  end.
(** [runFinishTimes], for one of the runs asked for. *)
Definition finish_of (d : db) (id : string) : option Z := job_runs d !! id ≫= r_FinishedAt.
(** The ids settleSightings reads: the probes', and those named only by their hour. *)
Definition pending_ids (s : rollups) (to : Z) (groups : list errorGroupAgg) : gset string :=
  list_to_set (groups ≫= λ g,
    option_list (rr_ID <$> probe_first s (eg_Kind g) (eg_Fingerprint g) to) ++
    ([eg_First g; eg_Last g] ≫= λ ref, if negb (rr_exact ref) && negb (is_empty (rr_ID ref)) then [rr_ID ref] else [])).
Definition settle (d : db) (pending : gset string) (ref : runRef) : runRef :=
  if rr_exact ref then ref
  else match (if decide (rr_ID ref ∈ pending) then finish_of d (rr_ID ref) else None) with
       | Some t => {| rr_At := t; rr_ID := rr_ID ref; rr_exact := true |}
       | None => ref
       end.
Definition with_sightings (first last : runRef) (g : errorGroupAgg) : errorGroupAgg :=
  {| eg_Kind := eg_Kind g; eg_Fingerprint := eg_Fingerprint g; eg_ErrorClass := eg_ErrorClass g;
     eg_Sample := eg_Sample g; eg_Failures := eg_Failures g; eg_Discarded := eg_Discarded g; eg_First := first;
     eg_Last := last; eg_hourly := eg_hourly g |}.
Definition settle_group (d : db) (s : rollups) (to : Z) (pending : gset string) (g : errorGroupAgg) : errorGroupAgg :=
  let first := settle d pending (eg_First g) in
  let last := settle d pending (eg_Last g) in
  match settle d pending <$> probe_first s (eg_Kind g) (eg_Fingerprint g) to with
  | Some probe => with_sightings (if ref_before probe first then probe else first) last g
  | None => with_sightings first last g
  end.
Definition settleSightings (d : db) (s : rollups) (to : Z) (groups : list errorGroupAgg) : list errorGroupAgg :=
  settle_group d s to (pending_ids s to groups) <$> groups.

Definition error_group (p : ErrorGroupsParams) (g : errorGroupAgg) : ErrorGroup :=
  {| er_Kind := eg_Kind g; er_Fingerprint := eg_Fingerprint g; er_ErrorClass := eg_ErrorClass g;
     er_Failures := eg_Failures g; er_Discarded := eg_Discarded g;
     er_Retried := wrap64 (eg_Failures g - eg_Discarded g); er_FirstSeen := rr_At (eg_First g);
     er_LastSeen := rr_At (eg_Last g); er_FirstRunID := rr_ID (eg_First g); er_LastRunID := rr_ID (eg_Last g);
     er_SampleMessage := eg_Sample g; er_Message := NormalizeErrorMessage (eg_Sample g);
     er_Hourly := if ep_WithHourly p
                  then (λ h, default 0 (eg_hourly g !! h)) <$> hours_from (floorHour (ep_From p)) (ep_To p) else [] |}.

Definition ranked (p : ErrorGroupsParams) (merged : gmap errorGroupKey errorGroupAgg) : list errorGroupAgg :=
  take (Z.to_nat (readLimit (ep_Limit p) defaultErrorGroupsLimit))
    (merge_sort group_rank_le (scan (map_to_list merged)).*2).

Definition ErrorGroups (d : db) (s : rollups) (p : ErrorGroupsParams) : res ErrorGroupsResult :=
  if is_zero_time (ep_From p) || is_zero_time (ep_To p) || negb (ep_From p <? ep_To p)
  then Err (ValidationError "window")
  else if negb (is_empty (ep_Fingerprint p)) && negb (validFingerprint (ep_Fingerprint p))
  then Err (ValidationError "fingerprint")
  else if ep_WithHourly p && (maxHourlyWindow <? time_sub (ep_To p) (ep_From p))
  then Err (ValidationError "with_hourly")
  else
    let progress := default zero_progress (ro_progress s) in
    let? plans := fitRawSpan d [planWindow (ep_From p) (ep_To p) progress] (ep_MaxRawSpan p) in
    let plan := default (planWindow (ep_From p) (ep_To p) progress) (head plans) in
    let groups := settleSightings d s (ep_To p) (ranked p (windowErrorGroups d s plan p)) in
    Ok {| ey_Groups := error_group p <$> groups;
          ey_Coverage := {| co_RolledFrom := if covered progress then sp_From progress else zero_time;
                            co_RolledThrough := if covered progress then sp_To progress else zero_time;
                            co_RawFrom := (wp_tail plan).1; co_RawTo := (wp_tail plan).2; co_RawSpan := rawSpan plan |} |}.
End errors.
