(* ===== verification/ErrorGroupReads.v ===== *)
(** * Error group reads: a window served from stored hours is the window served raw *)

From S2P Require Import Prelude Types Text Json Fingerprint Store Plan Sweep Retention Ids Query Hist Maintenance Rollup RollupFacts RollupWindows GroupFacts RollupHours Stats StatsFacts ErrorGroups.

Local Open Scope Z_scope.

(** A piece of a group: its key, its aggregate and its failures. *)
Abbreviation piece := (errorGroupKey * errorGroupAgg * list runView)%type.

Section tables.
Context `{GoLib}.

(** The keys a fingerprint filter keeps. *)
Definition keeps (fp : string) (k : errorGroupKey) : bool := is_empty fp || bool_decide (k.2 = fp).
Lemma add_group_keeps fp M kg :
  add_group fp M kg = if keeps fp kg.1
                      then <[kg.1 := group_merge (default (newErrorGroupAgg kg.1.1 kg.1.2) (M !! kg.1)) kg.2]> M else M.
Proof. unfold add_group, keeps. by destruct (is_empty fp), (bool_decide _). Qed.

Fixpoint apart (l : list runView) (ps : list piece) : Prop :=
  match ps with
  | [] => True
  | pc :: ps => separated (with_key pc.1.1 l) pc.2 ∧ apart (l ++ pc.2) ps
  end.
Definition piece_ok (ex : bool) (pc : piece) : Prop :=
  Forall (λ v, key_of v = pc.1.1) pc.2 ∧ pc.2 ≠ [] ∧ group_of ex pc.1.1 pc.2 pc.1.2.
Lemma add_pieces ex fp ps M l :
  groups_of ex M l → Forall (piece_ok ex) ps → ex = true ∨ apart l (filter (λ pc : piece, keeps fp pc.1.1 = true) ps) →
  Z.of_nat (length (l ++ (ps ≫= snd))) ≤ int64_max →
  groups_of ex (foldl (add_group fp) M ps.*1) (l ++ (filter (λ pc : piece, keeps fp pc.1.1 = true) ps ≫= snd)).
Proof.
  revert M l. induction ps as [|pc ps IH]; intros M l HM Hps Hap Hlen; csimpl; [by rewrite app_nil_r|].
  apply Forall_cons in Hps as [(Hk & Hne & Hg) Hps]. csimpl in Hlen. rewrite !length_app in Hlen.
  rewrite add_group_keeps, filter_cons in *. destruct (keeps fp pc.1.1) eqn:Ek.
  - rewrite decide_True in * by done. csimpl. rewrite (assoc_L (++)). apply IH; [|done| |rewrite !length_app; lia].
    + apply groups_of_insert; [done..| |rewrite length_app; lia]. destruct Hap as [|[Hs _]]; auto.
    + destruct Hap as [|[_ Ha]]; auto.
  - rewrite decide_False in * by done. apply IH; [done..|rewrite length_app; lia].
Qed.

Lemma separated_app l1 l2 l : separated (l1 ++ l2) l ↔ separated l1 l ∧ separated l2 l.
Proof.
  unfold separated. split.
  - intros Hs. split; intros u v Hu Hv; apply Hs; try done; apply elem_of_app; auto.
  - intros [H1 H2] u v [Hu|Hu]%elem_of_app Hv; auto.
Qed.
Lemma separated_sub l1 l2 l1' l2' : separated l1 l2 → l1' ⊆ l1 → l2' ⊆ l2 → separated l1' l2'.
Proof. intros Hs H1 H2 u v Hu Hv. apply Hs; auto. Qed.

(** Pieces that share no hour with what is there, nor with another of their key. *)
Lemma apart_pieces {I} (key : I → errorGroupKey) (g : I → errorGroupAgg) (sel : I → list runView) xs l :
  NoDup xs → (∀ i, i ∈ xs → separated (with_key (key i) l) (sel i)) →
  (∀ i j, i ∈ xs → j ∈ xs → i ≠ j → separated (with_key (key j) (sel i)) (sel j)) →
  apart l ((λ i, (key i, g i, sel i)) <$> xs).
Proof.
  intros Hnd. revert l. induction Hnd as [|i xs Hi Hnd IH]; intros l Hl Hd; csimpl; [done|].
  split; [apply Hl; by left|]. apply IH.
  - intros j Hj. rewrite with_key_app. apply separated_app. split; [apply Hl; by right|].
    apply Hd; [by left|by right|]. intros ->. done.
  - intros j j' Hj Hj'. apply Hd; by right.
Qed.
End tables.

(** ** Windows *)


Section windows.
Context `{GoLib} `{RowOrder}.

Lemma filter_pieces {I} (key : I → errorGroupKey) (sel : I → list runView) (g : I → errorGroupAgg) fp (xs : list I) :
  filter (λ pc : errorGroupKey * errorGroupAgg * list runView, keeps fp pc.1.1 = true) ((λ i, (key i, g i, sel i)) <$> xs) =
  (λ i, (key i, g i, sel i)) <$> filter (λ i, keeps fp (key i) = true) xs.
Proof.
  induction xs as [|i xs IH]; [done|]. csimpl. rewrite !filter_cons. cbn.
  destruct (decide (keeps fp (key i) = true)); csimpl; by rewrite IH.
Qed.
Lemma filter_keys_bind {I} (key : I → errorGroupKey) (sel : I → list runView) (g : I → errorGroupAgg) fp (xs : list I) :
  (filter (λ pc : errorGroupKey * errorGroupAgg * list runView, keeps fp pc.1.1 = true) ((λ i, (key i, g i, sel i)) <$> xs) ≫= snd) =
  filter (λ i, keeps fp (key i) = true) xs ≫= sel.
Proof.
  rewrite filter_pieces. induction (filter _ xs) as [|i l IH]; csimpl; [done|]. by rewrite IH.
Qed.

(** The groups of a raw segment join the table. *)
Lemma add_window ex fp M l L Mw :
  groups_of ex M l → groups_of true Mw L → ex = true ∨ separated l L → Z.of_nat (length (l ++ L)) ≤ int64_max →
  groups_of ex (foldl (add_group fp) M (scan (map_to_list Mw))) (l ++ filter (λ v, keeps fp (key_of v) = true) L).
Proof.
  intros HM Hw Hsep Hlen. set (es := scan (map_to_list Mw)).
  assert (NoDup es.*1) as Hnd by (unfold es; rewrite (scan_perm (map_to_list Mw)); apply NoDup_fst_map_to_list).
  assert (∀ kg, kg ∈ es ↔ Mw !! kg.1 = Some kg.2) as Hes.
  { intros [k g]. unfold es. rewrite (scan_perm (map_to_list Mw)), elem_of_map_to_list. done. }
  assert (∀ v, v ∈ L → key_of v ∈ es.*1) as Hall.
  { intros v Hv. specialize (Hw (key_of v)). destruct (Mw !! key_of v) as [g|] eqn:E.
    - apply list_elem_of_fmap. exists (key_of v, g). split; [done|]. by apply Hes.
    - exfalso. apply (not_elem_of_nil v). rewrite <-Hw. unfold with_key. by apply list_elem_of_filter. }
  pose (pcs := (λ kg : errorGroupKey * errorGroupAgg, (kg.1, kg.2, with_key kg.1 L)) <$> es).
  assert (pcs.*1 = es) as Hpcs.
  { unfold pcs. rewrite <-list_fmap_compose. rewrite (list_fmap_ext _ id); [apply list_fmap_id|]. by intros _ [k g] _. }
  assert ((pcs ≫= snd) ≡ₚ L) as HL.
  { etrans; [|apply (partition_perm key_of es.*1 L Hnd Hall)]. unfold pcs, with_key.
    clear. induction es as [|kg es IH]; csimpl; [done|]. by rewrite IH. }
  rewrite <-Hpcs. eapply groups_of_perm; [|apply add_pieces; [done| | |]].
  - apply Permutation_app_head. unfold pcs. rewrite filter_keys_bind.
    rewrite <-(partition_perm key_of (filter (λ k, keeps fp k = true) es.*1)
                (filter (λ v, keeps fp (key_of v) = true) L)).
    3:{ intros v [Hk Hv]%list_elem_of_filter. apply list_elem_of_filter. split; [done|by apply Hall]. }
    2:{ by apply NoDup_filter. }
    clear. induction es as [|kg es IH]; csimpl; [done|]. rewrite !filter_cons. cbn.
    destruct (decide (keeps fp kg.1 = true)) as [Ek|Ek]; csimpl; rewrite IH; [|done]. f_equiv. apply reflexive_eq.
    unfold with_key. clear -Ek. induction L as [|v L IH]; [done|]. rewrite !filter_cons.
    destruct (decide (key_of v = kg.1)) as [E|E].
    + rewrite (decide_True (P := keeps fp (key_of v) = true)) by by rewrite E. rewrite filter_cons, decide_True by done. by rewrite IH.
    + destruct (decide (keeps fp (key_of v) = true)); [by rewrite filter_cons, decide_False|done].
  - unfold pcs. apply Forall_fmap, Forall_forall. intros [k g] Hin%Hes. specialize (Hw k). cbn in Hin. rewrite Hin in Hw.
    destruct Hw as [Hne Hg]. split; [|split; [done|destruct ex; [done|by apply group_of_weaken]]].
    apply Forall_forall. by intros v [Hv _]%list_elem_of_filter.
  - destruct Hsep as [|Hsep]; [by left|right]. unfold pcs. rewrite (filter_pieces (λ kg : errorGroupKey * errorGroupAgg, kg.1)).
    apply apart_pieces.
    + apply NoDup_filter. by eapply NoDup_fmap_1.
    + intros kg _. eapply separated_sub; [exact Hsep|by intros v [_ Hv]%list_elem_of_filter..].
    + intros [k g] [k' g'] [_ Hi]%list_elem_of_filter [_ Hj]%list_elem_of_filter Hne u v [Hu1 Hu2]%list_elem_of_filter _.
      apply list_elem_of_filter in Hu2 as [Hu2 _]. cbn in *. apply Hes in Hi, Hj. cbn in *. congruence.
  - by rewrite HL.
Qed.
End windows.

(** ** Stored hours *)

Section stored.
Context `{GoLib} `{RowOrder}.

Definition hour_key (v : runView) : Z * (string * string) := (hour_of v, key_of v).

Lemma hour_counts h h' l :
  (∀ v, v ∈ l → hour_of v = h) →
  sum_of (λ v, one_if (bool_decide (hour_of v = h'))) l = if decide (h = h') then Z.of_nat (length l) else 0.
Proof.
  intros Hh. induction l as [|v l IH]; [by destruct (decide _)|]. unfold sum_of in *. cbn [foldr length].
  rewrite IH by (intros u Hu; apply Hh; by right). rewrite (Hh v) by by left.
  destruct (decide (h = h')); [rewrite bool_decide_true by done|rewrite bool_decide_false by done]; cbn; lia.
Qed.
(** A stored row reads back as the group of its hour's failures. *)
Lemma group_row_of h k l g rolledAt :
  group_of true k l g → l ≠ [] → Forall (λ v, hour_of v = h) l → group_of false k l (group_of_row (h, k) (group_row h rolledAt g)).
Proof.
  intros [H1 H2 H3 H4 H5 H6 H7] Hne Hh. rewrite Forall_forall in Hh.
  assert (∀ ref v, sights true ref v → v ∈ l → sights false {| rr_At := h; rr_ID := rr_ID ref; rr_exact := false |} v) as Hs.
  { intros ref v [Hid _] Hv. split; [done|]. right. cbn. by rewrite Hh. }
  split; cbn [group_of_row group_row eg_Kind eg_Fingerprint eg_ErrorClass eg_Sample eg_Failures eg_Discarded eg_First eg_Last
    eg_hourly gr_ErrorClass gr_SampleMessage gr_Failures gr_Discarded gr_FirstRunID gr_LastRunID fst snd];
    [done|done|done|done| |intros _..].
  - intros h'. rewrite (hour_counts h) by done. destruct (decide (h = h')) as [<-|Hne'].
    + by rewrite lookup_singleton_eq.
    + by rewrite lookup_singleton_ne.
  - destruct (H6 Hne) as (v & Hv & Hsv). exists v. split; [done|]. apply (Hs _ _ Hsv), Hv.
  - destruct (H7 Hne) as (v & Hv & Hsv & ? & ?). exists v. split; [done|]. split; [|done]. apply (Hs _ _ Hsv), Hv.
Qed.

Lemma finished_in_at d a b v : v ∈ finished_in d a b → a ≤ rv_FinishedAt v < b.
Proof.
  unfold finished_in. intros ([t id] & _ & Hv)%list_elem_of_omap. simpl in Hv.
  destruct (in_window a b t) eqn:E; [|done]. apply fmap_Some in Hv as (r & _ & ->). cbn. unfold in_window in E. lia.
Qed.
Lemma failures_at f d a b v : v ∈ failures f d a b → a ≤ rv_FinishedAt v < b.
Proof. intros [_ [_ Hv]%list_elem_of_filter]%list_elem_of_filter. by eapply finished_in_at. Qed.
Lemma hour_of_in h v : aligned h → h ≤ rv_FinishedAt v < h + hour → hour_of v = h.
Proof.
  intros Hh Hv. unfold hour_of. pose proof (floorHour_ge h _ Hh (proj1 Hv)). destruct (floorHour_spec (rv_FinishedAt v)) as [Ha Hf].
  destruct (Z.le_gt_cases (floorHour (rv_FinishedAt v)) h); [lia|]. pose proof (aligned_lt h _ Hh Ha). lia.
Qed.
Lemma failures_split f d a b c : a ≤ b ≤ c → failures f d a c ≡ₚ failures f d a b ++ failures f d b c.
Proof. intros Hab. unfold failures. by rewrite (runs_in_split f d a b c Hab), filter_app. Qed.

Definition of_kind_only (kind : string) : statsFilter := {| sf_Kind := kind; sf_Queue := "" |}.
Definition kind_ok (kind : string) (k : string * string) : bool := is_empty kind || bool_decide (k.1 = kind).

(** The failures of one hour and key within a window of whole hours. *)
Lemma hour_pieces d kind rf rt h k :
  aligned h → rf ≤ h → h + hour ≤ rt → kind_ok kind k = true →
  filter (λ v, hour_key v = (h, k)) (failures (of_kind_only kind) d rf rt) ≡ₚ with_key k (hour_failures d h).
Proof.
  intros Hal Hrf Hrt Hk. pose proof hour_pos.
  assert (∀ a b, b ≤ h ∨ h + hour ≤ a → filter (λ v, hour_key v = (h, k)) (failures (of_kind_only kind) d a b) = []) as Hout.
  { intros a b Hab. apply elem_of_nil_inv. intros v [[= Hh _] Hv%failures_at]%list_elem_of_filter.
    unfold hour_of in Hh. destruct (floorHour_spec (rv_FinishedAt v)). lia. }
  rewrite (failures_split _ d rf h rt), (failures_split _ d h (h + hour) rt), !filter_app by lia.
  rewrite (Hout rf h), (Hout (h + hour) rt), app_nil_r by lia. cbn [app].
  unfold hour_failures, with_key, failures, runs_in. rewrite !list_filter_filter. apply reflexive_eq, filter_iff_in.
  intros v Hv%finished_in_at. unfold hour_key. pose proof (hour_of_in h v Hal Hv) as Hh.
  unfold filter_ok, of_kind_only, no_filter. cbn. rewrite Hh, andb_true_r. split.
  - intros ([[= Hkv] Hf] & Hx). done.
  - intros ([Hkv Hf] & _). split; [split; [by rewrite Hkv|done]|]. unfold kind_ok in Hk. rewrite <-Hkv in Hk. by rewrite <-Hk.
Qed.

Section window.
Context (d : db) (s : rollups).
Hypothesis Hd : regular d.
Hypothesis Hs : sound d s.

Lemma group_rows_elem rf rt kind fp hk r :
  (hk, r) ∈ group_rows s rf rt kind fp ↔
  in_window rf rt hk.1 = true ∧ kind_ok kind hk.2 = true ∧ keeps fp hk.2 = true ∧ ro_groups s !! hk = Some r.
Proof.
  unfold group_rows. rewrite (merge_sort_Permutation group_bucket_le), list_elem_of_filter.
  rewrite (scan_perm (map_to_list (ro_groups s))), elem_of_map_to_list. cbn. fold (kind_ok kind hk.2) (keeps fp hk.2).
  rewrite !andb_true_iff. naive_solver.
Qed.
Lemma group_rows_NoDup rf rt kind fp : NoDup (group_rows s rf rt kind fp).*1.
Proof.
  unfold group_rows. rewrite (merge_sort_Permutation group_bucket_le).
  eapply sublist_NoDup; [|apply fmap_sublist, sublist_filter]. rewrite (scan_perm (map_to_list (ro_groups s))).
  apply NoDup_fst_map_to_list.
Qed.

(** The stored hours of a covered stretch join what does not share its hours. *)
Lemma loadErrorGroupHours_of p rf rt kind fp M l :
  ro_progress s = Some p → aligned rf → aligned rt → sp_From p ≤ rf → rt ≤ sp_To p →
  groups_of false M l → (∀ u, u ∈ l → ¬ rf ≤ hour_of u < rt) →
  Z.of_nat (length (l ++ failures (of_kind_only kind) d rf rt)) ≤ int64_max →
  groups_of false (loadErrorGroupHours s rf rt kind fp M)
    (l ++ filter (λ v, keeps fp (key_of v) = true) (failures (of_kind_only kind) d rf rt)).
Proof.
  intros Hp Haf Hat Hf Ht HM Hl Hlen. set (L := failures (of_kind_only kind) d rf rt) in *.
  set (rows := group_rows s rf rt kind fp). pose (sel := λ kr : group_entry, filter (λ v, hour_key v = kr.1) L).
  pose (pcs := (λ kr : group_entry, (kr.1.2, group_of_row kr.1 kr.2, sel kr)) <$> rows).
  assert (∀ hk r, (hk, r) ∈ rows → aligned hk.1 ∧ rf ≤ hk.1 ∧ hk.1 + hour ≤ rt ∧ keeps fp hk.2 = true ∧
    piece_ok false (hk.2, group_of_row hk r, sel (hk, r))) as Hrow.
  { intros [h k] r (Hw & Hk & Hkp & Hr)%group_rows_elem. cbn in *. destruct (sound_grouped d s Hs h k r Hr) as [Ha Hg].
    unfold in_window in Hw. pose proof (aligned_lt h rt Ha Hat ltac:(lia)) as Hle. specialize (Hg k). rewrite Hr in Hg.
    destruct Hg as (Hne & g & at_ & Hg & ->). pose proof (hour_pieces d kind rf rt h k Ha ltac:(lia) Hle Hk) as Hpc.
    fold L in Hpc. split; [done|]. split; [lia|]. split; [done|]. split; [done|]. split; [|split]; cbn.
    - apply Forall_forall. by intros v [[= _ Hv] _]%list_elem_of_filter.
    - intros E. unfold sel in E. cbn in E. rewrite E in Hpc. by apply Permutation_nil_l in Hpc.
    - apply group_row_of; [|intros E; unfold sel in E; cbn in E; rewrite E in Hpc; by apply Permutation_nil_l in Hpc|].
      + apply (group_of_perm _ _ _ _ _ (symmetry Hpc)), Hg.
      + apply Forall_forall. by intros v [[= Hv _] _]%list_elem_of_filter. }
  pose proof (group_rows_NoDup rf rt kind fp) as Hnd. fold rows in Hnd.
  assert (∀ kr, kr ∈ rows → sel kr = filter (λ v, hour_key v = kr.1) (filter (λ v, keeps fp (key_of v) = true) L)) as Hsel.
  { intros [hk r] Hin. destruct (Hrow hk r Hin) as (_ & _ & _ & Hkp & _). unfold sel. rewrite list_filter_filter.
    apply filter_iff_in. intros v _. unfold hour_key. cbn. split; [|by intros [? _]]. intros <-. done. }
  assert ((pcs ≫= snd) ≡ₚ filter (λ v, keeps fp (key_of v) = true) L) as HL.
  { etrans; [|apply (partition_perm hour_key rows.*1); [done|]].
    - unfold pcs. clear -Hsel. induction rows as [|kr rows IH]; csimpl; [done|].
      rewrite IH by (intros kr' Hin; apply Hsel; by right). by rewrite (Hsel kr) by by left.
    - intros v [Hkp Hv]%list_elem_of_filter. pose proof (failures_at _ _ _ _ _ Hv) as Hat'.
      destruct (floorHour_spec (rv_FinishedAt v)) as [Hah Hfl]. fold (hour_of v) in Hah, Hfl.
      pose proof (floorHour_ge rf _ Haf (proj1 Hat')) as Hge. fold (hour_of v) in Hge.
      destruct (sound_hours d s Hs p (hour_of v) Hp Hah) as [_ Hg]; [lia|]. specialize (Hg (key_of v)).
      assert (kind_ok kind (key_of v) = true) as Hk.
      { apply list_elem_of_filter in Hv as [_ [Hok _]%list_elem_of_filter]. unfold filter_ok in Hok. cbn in Hok.
        by rewrite andb_true_r in Hok. }
      pose proof (aligned_lt (hour_of v) rt Hah Hat ltac:(lia)) as Hle.
      assert (v ∈ with_key (key_of v) (hour_failures d (hour_of v))) as Hvin.
      { rewrite <-(hour_pieces d kind rf rt (hour_of v) (key_of v)) by done. by apply list_elem_of_filter. }
      destruct (ro_groups s !! (hour_of v, key_of v)) as [r|] eqn:Er; [|rewrite Hg in Hvin; by apply elem_of_nil in Hvin].
      apply list_elem_of_fmap. exists (hour_key v, r). split; [done|]. apply group_rows_elem. split; [|done].
      unfold in_window. cbn. lia. }
  assert (filter (λ pc : piece, keeps fp pc.1.1 = true) pcs = pcs) as Hall.
  { apply filter_all. unfold pcs. apply Forall_fmap, Forall_forall. intros [hk r] Hin. cbn. by apply (Hrow hk r). }
  assert (loadErrorGroupHours s rf rt kind fp M = foldl (add_group fp) M pcs.*1) as ->.
  { unfold loadErrorGroupHours, pcs. fold rows. clear. revert M. induction rows as [|kr rows IH]; intros M; [done|]. cbn [foldl]. apply IH. }
  eapply groups_of_perm; [apply Permutation_app_head; exact HL|]. rewrite <-Hall at 2. apply add_pieces; [done| | |].
  - unfold pcs. apply Forall_fmap, Forall_forall. intros [hk r] Hin. by apply (Hrow hk r).
  - right. rewrite Hall. unfold pcs. apply apart_pieces; [by eapply NoDup_fmap_1|..].
    + intros [hk r] Hin. destruct (Hrow hk r Hin) as (Ha & Hge & Hle & _). intros u v [_ Hu]%list_elem_of_filter [Hv _]%list_elem_of_filter.
      cbn in Hv. assert (hour_of v = hk.1) as -> by (by rewrite <-Hv). specialize (Hl u Hu). pose proof hour_pos. lia.
    + intros [hk r] [hk' r'] Hi Hj Hne u v [Hk Hu]%list_elem_of_filter [Hv _]%list_elem_of_filter.
      apply list_elem_of_filter in Hu as [Hu _]. cbn in *. intros E. apply Hne.
      assert (hk = hk') as ->.
      { rewrite <-Hu, <-Hv. unfold hour_key. rewrite E, Hk. f_equal. rewrite <-Hv. done. }
      apply group_rows_elem in Hi as (_ & _ & _ & Hi), Hj as (_ & _ & _ & Hj). cbn in *. congruence.
  - rewrite length_app, HL. rewrite length_app in Hlen.
    pose proof (length_filter (λ v, keeps fp (key_of v) = true) L). lia.
Qed.

Lemma groups_of_weaken M l : groups_of true M l → groups_of false M l.
Proof.
  intros HM k. specialize (HM k). destruct (M !! k) as [g|]; [|done]. destruct HM. split; [done|by apply group_of_weaken].
Qed.

Definition seg_failures (f : statsFilter) (segs : list segment) : list runView :=
  filter (λ v, failing v = true) (seg_runs f d segs).

Lemma raw_groups_of fp kind segs M l :
  groups_of true M l → Z.of_nat (length (l ++ seg_failures (of_kind_only kind) segs)) ≤ int64_max →
  groups_of true
    (foldl (λ m seg, foldl (add_group fp) m
       (scan (map_to_list (wa_groups (aggregateWindow d seg.1 seg.2 (of_kind_only kind)))))) M segs)
    (l ++ filter (λ v, keeps fp (key_of v) = true) (seg_failures (of_kind_only kind) segs)).
Proof.
  revert M l. induction segs as [|seg segs IH]; intros M l HM Hlen; cbn [foldl]; [by rewrite app_nil_r|].
  unfold seg_failures, seg_runs in *. csimpl in *. rewrite filter_app in *.
  fold (failures (of_kind_only kind) d seg.1 seg.2) in *. rewrite filter_app, (assoc_L (++)).
  rewrite !length_app in Hlen. apply IH.
  - apply add_window; [done|by apply window_groups|by left|rewrite length_app; lia].
  - rewrite !length_app. pose proof (length_filter (λ v, keeps fp (key_of v) = true) (failures (of_kind_only kind) d seg.1 seg.2)). lia.
Qed.

(** A plan's groups are those of the window's failures. *)
Lemma windowErrorGroups_of plan p :
  let f := of_kind_only (ep_Kind p) in
  runs_in f d (ep_From p) (ep_To p) ≡ₚ runs_in f d (wp_rolledFrom plan) (wp_rolledTo plan) ++ seg_runs f d (wp_raw plan) →
  (wp_rolledFrom plan < wp_rolledTo plan →
   ∃ q, ro_progress s = Some q ∧ aligned (wp_rolledFrom plan) ∧ aligned (wp_rolledTo plan) ∧
        sp_From q ≤ wp_rolledFrom plan ∧ wp_rolledTo plan ≤ sp_To q) →
  (∀ u, u ∈ seg_runs f d (wp_raw plan) → ¬ wp_rolledFrom plan ≤ hour_of u < wp_rolledTo plan) →
  groups_of (negb (wp_rolledFrom plan <? wp_rolledTo plan)) (windowErrorGroups d s plan p)
    (filter (λ v, keeps (ep_Fingerprint p) (key_of v) = true) (failures f d (ep_From p) (ep_To p))).
Proof.
  intros f Hsplit Hroll Hout. set (fp := ep_Fingerprint p). set (rf := wp_rolledFrom plan) in *. set (rt := wp_rolledTo plan) in *.
  assert (failures f d (ep_From p) (ep_To p) ≡ₚ seg_failures f (wp_raw plan) ++ failures f d rf rt) as Hp.
  { unfold failures, seg_failures. rewrite Hsplit, filter_app. apply Permutation_app_comm. }
  pose proof (failures_fit f d (ep_From p) (ep_To p) Hd) as Hlen. rewrite Hp, length_app in Hlen.
  pose proof (raw_groups_of fp (ep_Kind p) (wp_raw plan) ∅ [] (groups_of_empty true)) as Hraw. cbn [app] in Hraw.
  lapply Hraw; [clear Hraw; intros Hraw|fold f; lia]. unfold windowErrorGroups. fold rf rt fp f.
  eapply groups_of_perm; [rewrite Hp, filter_app; reflexivity|]. destruct (Z.ltb_spec rf rt) as [Hlt|Hge]; cbn [negb].
  - destruct (Hroll Hlt) as (q & Hq & Haf & Hat & Hf & Ht).
    apply (loadErrorGroupHours_of q); [done..|by apply groups_of_weaken| |].
    + intros u [_ [_ Hu]%list_elem_of_filter]%list_elem_of_filter. by apply Hout.
    + rewrite length_app. fold f. pose proof (length_filter (λ v, keeps fp (key_of v) = true) (seg_failures f (wp_raw plan))). lia.
  - assert (failures f d rf rt = []) as -> by (unfold failures; by rewrite runs_in_none). by rewrite app_nil_r.
Qed.
End window.
End stored.

(** ** The ranking *)

#[global] Instance key_le_antisymm : AntiSymm (=) key_le.
Proof.
  intros [a b] [a' b']. unfold key_le. cbn. intros H1 H2.
  assert (a = a') as -> by (destruct H1 as [[? ?]|[? ?]], H2 as [[? ?]|[? ?]]; auto; by apply (anti_symm bytes_le)).
  destruct H1 as [[? ?]|[_ ?]], H2 as [[? ?]|[_ ?]]; try done. f_equal. by apply (anti_symm bytes_le).
Qed.
#[global] Instance key_le_total : Total key_le.
Proof.
  intros [a b] [a' b']. unfold key_le. cbn. destruct (decide (a = a')) as [->|Hne].
  - destruct (base.total bytes_le b b'); auto.
  - destruct (base.total bytes_le a a'); [left; left|right; left]; auto.
Qed.
#[global] Instance key_le_trans : Transitive key_le.
Proof.
  intros [a b] [a' b'] [a'' b'']. unfold key_le. cbn. intros [[H1 H2]|[-> H2]] [[H3 H4]|[-> H4]]; [|by left|by left|by right; split; [|etrans]].
  left. split; [|by etrans]. intros ->. apply H1. by apply (anti_symm bytes_le).
Qed.
Definition rank_of (g : errorGroupAgg) : Z * (string * string) := (eg_Failures g, (eg_Kind g, eg_Fingerprint g)).
Definition rank_le (a b : Z * (string * string)) : Prop := b.1 < a.1 ∨ (b.1 = a.1 ∧ key_le a.2 b.2).
#[global] Instance rank_le_antisymm : AntiSymm (=) rank_le.
Proof.
  intros [n k] [n' k'] [?|[? H1]] [?|[? H2]]; cbn in *; try lia. f_equal; [done|]. by apply (anti_symm key_le).
Qed.
#[global] Instance group_rank_le_total : Total group_rank_le.
Proof.
  intros a b. unfold group_rank_le. destruct (Z.lt_trichotomy (eg_Failures a) (eg_Failures b)) as [?|[?|?]]; [by right; left| |by left; left].
  destruct (base.total key_le (eg_Kind a, eg_Fingerprint a) (eg_Kind b, eg_Fingerprint b)); [left|right]; by right.
Qed.
#[global] Instance group_rank_le_trans : Transitive group_rank_le.
Proof.
  intros a b c [?|[? H1]] [?|[? H2]]; [left; lia..|]. right. split; [lia|]. by etrans.
Qed.

Section ranking.
Context `{GoLib} `{RowOrder}.

Lemma ranked_same p M1 M2 ex1 ex2 l :
  groups_of ex1 M1 l → groups_of ex2 M2 l →
  Forall2 (λ g1 g2, ∃ k, M1 !! k = Some g1 ∧ M2 !! k = Some g2) (ranked p M1) (ranked p M2).
Proof.
  intros H1 H2. unfold ranked. set (n := Z.to_nat _).
  assert (∀ ex M, groups_of ex M l → ∀ k g, M !! k = Some g → rank_of g = (wrap64 (Z.of_nat (length (with_key k l))), k)) as Hrank.
  { intros ex M HM k g Hk. specialize (HM k). rewrite Hk in HM. destruct HM as [_ Hg]. unfold rank_of.
    rewrite (go_failures _ _ _ _ Hg), (go_kind _ _ _ _ Hg), (go_fp _ _ _ _ Hg). by destruct k. }
  assert (∀ ex M, groups_of ex M l → rank_of <$> (scan (map_to_list M)).*2 ≡ₚ
    (λ k, (wrap64 (Z.of_nat (length (with_key k l))), k)) <$> (map_to_list M).*1) as Hperm.
  { intros ex M HM. rewrite (scan_perm (map_to_list M)), <-!list_fmap_compose. apply reflexive_eq, list_fmap_ext.
    intros i [k g] Hi. cbn. apply list_elem_of_lookup_2, elem_of_map_to_list in Hi. by apply (Hrank ex M HM). }
  assert ((map_to_list M1).*1 ≡ₚ (map_to_list M2).*1) as Hkeys.
  { apply NoDup_Permutation; [apply NoDup_fst_map_to_list..|]. intros k.
    assert (∀ ex M, groups_of ex M l → k ∈ (map_to_list M).*1 ↔ with_key k l ≠ []) as Hk.
    { intros ex M HM. specialize (HM k). rewrite list_elem_of_fmap. split.
      - intros ([k' g] & -> & Hg%elem_of_map_to_list). cbn in HM. rewrite Hg in HM. apply HM.
      - intros Hne. destruct (M !! k) as [g|] eqn:Ek; [|done]. exists (k, g). split; [done|]. by apply elem_of_map_to_list. }
    by rewrite (Hk ex1 M1), (Hk ex2 M2). }
  assert (∀ vs, StronglySorted rank_le (rank_of <$> merge_sort group_rank_le vs)) as Hsorted.
  { intros vs. pose proof (StronglySorted_merge_sort group_rank_le vs) as Hss. clear -Hss.
    induction Hss as [|g gs _ IH Hg]; csimpl; constructor; [done|]. apply Forall_fmap. eapply Forall_impl; [exact Hg|]. done. }
  assert (rank_of <$> merge_sort group_rank_le (scan (map_to_list M1)).*2 =
          rank_of <$> merge_sort group_rank_le (scan (map_to_list M2)).*2) as Heq.
  { eapply (StronglySorted_unique rank_le); [apply Hsorted..|].
    rewrite !(merge_sort_Permutation group_rank_le), (Hperm ex1 M1 H1), (Hperm ex2 M2 H2). by rewrite Hkeys. }
  assert (∀ (M : gmap errorGroupKey errorGroupAgg) g, g ∈ merge_sort group_rank_le (scan (map_to_list M)).*2 → ∃ k, M !! k = Some g) as Hin.
  { intros M g. rewrite (merge_sort_Permutation group_rank_le), (scan_perm (map_to_list M)), list_elem_of_fmap.
    intros ([k g'] & -> & Hg%elem_of_map_to_list). by exists k. }
  apply Forall2_take, Forall2_same_length_lookup_2.
  { by rewrite <-(length_fmap rank_of), Heq, length_fmap. }
  intros i g1 g2 Hi1 Hi2. assert (rank_of g1 = rank_of g2) as Hr.
  { assert (∀ (gs : list errorGroupAgg) g, gs !! i = Some g → (rank_of <$> gs) !! i = Some (rank_of g)) as Hl by (intros gs g Hg; by rewrite list_lookup_fmap, Hg).
    apply Hl in Hi1, Hi2. congruence. }
  destruct (Hin M1 g1 (list_elem_of_lookup_2 _ _ _ Hi1)) as [k1 Hk1], (Hin M2 g2 (list_elem_of_lookup_2 _ _ _ Hi2)) as [k2 Hk2].
  rewrite (Hrank _ _ H1 _ _ Hk1), (Hrank _ _ H2 _ _ Hk2) in Hr. injection Hr as _ ->. by exists k2.
Qed.
End ranking.

(** ** Sightings *)

Section sightings.
Context `{GoLib} `{RowOrder} (d : db) (s : rollups).
Hypothesis Hkeyed : runs_keyed (job_runs d).
Hypothesis Hfin : finishes_ok d.
Hypothesis Hnamed : job_runs d !! "" = None.

(** A finished run is named by its id, and its finish is the log's. *)
Lemma finished_in_run a b v : v ∈ finished_in d a b → rv_ID v ≠ "" ∧ finish_of d (rv_ID v) = Some (rv_FinishedAt v).
Proof.
  unfold finished_in. intros ([t id] & He%elem_of_elements & Hv)%list_elem_of_omap. simpl in Hv.
  destruct (in_window a b t); [|done]. apply fmap_Some in Hv as (r & Hr & ->). cbn. rewrite (Hkeyed id r Hr).
  split; [intros ->; congruence|]. apply Hfin in He as (r' & Hr' & Hat). unfold finish_of. by rewrite Hr'.
Qed.
Lemma finished_told_apart a b a' b' u v :
  u ∈ finished_in d a b → v ∈ finished_in d a' b' → rv_FinishedAt u = rv_FinishedAt v → rv_ID u = rv_ID v → u = v.
Proof.
  unfold finished_in. intros ([t id] & _ & Hu)%list_elem_of_omap ([t' id'] & _ & Hv)%list_elem_of_omap. simpl in Hu, Hv.
  destruct (in_window a b t); [|done]. destruct (in_window a' b' t'); [|done].
  apply fmap_Some in Hu as (r & Hr & ->), Hv as (r' & Hr' & ->). cbn. intros -> E.
  rewrite (Hkeyed id r Hr), (Hkeyed id' r' Hr') in E. subst id'. congruence.
Qed.
Lemma failures_finished f a b v : v ∈ failures f d a b → v ∈ finished_in d a b.
Proof. by intros [_ [_ Hv]%list_elem_of_filter]%list_elem_of_filter. Qed.

Lemma settle_sighted ex pending ref a b v :
  sights ex ref v → v ∈ finished_in d a b → (rr_exact ref = false → rr_ID ref ∈ pending) → settle d pending ref = exact_ref v.
Proof.
  intros [Hid Hs] Hv Hp. destruct (finished_in_run a b v Hv) as [_ Hf]. unfold settle.
  destruct Hs as [[He Ha]|(_ & He & Ha)]; rewrite He.
  - destruct ref as [t id e]. cbn in *. subst. done.
  - rewrite decide_True by auto. rewrite Hid, Hf. done.
Qed.
Lemma first_unique l u v a b :
  (∀ x, x ∈ l → x ∈ finished_in d a b) → is_first l u → is_first l v → u = v.
Proof.
  intros Hl [Hu Hlu] [Hv Hlv]. destruct (ref_before_total (exact_ref u) (exact_ref v)) as [? ?]; [auto..|].
  by apply (finished_told_apart a b a b); [apply Hl..| |].
Qed.
Lemma last_unique l u v a b :
  (∀ x, x ∈ l → x ∈ finished_in d a b) → is_last l u → is_last l v → u = v.
Proof.
  intros Hl [Hu Hlu] [Hv Hlv]. destruct (ref_before_total (exact_ref u) (exact_ref v)) as [? ?]; [auto..|].
  by apply (finished_told_apart a b a b); [apply Hl..| |].
Qed.

(** The failures that may be a group's first sighting: those of the window, and those
    of the hours stored under its key that start before To, by whole seconds. *)
Definition stored (k : string * string) (to h : Z) : Prop := is_Some (ro_groups s !! (h, k)) ∧ h / second < to / second.
Definition sighting (k : string * string) (l : list runView) (to : Z) (v : runView) : Prop :=
  v ∈ with_key k l ∨ ∃ h, stored k to h ∧ v ∈ with_key k (hour_failures d h).
Definition first_sighting (k : string * string) (l : list runView) (to : Z) (v : runView) : Prop :=
  sighting k l to v ∧ ∀ u, sighting k l to u → ref_before (exact_ref u) (exact_ref v) = false.

Lemma probe_rows k to h r :
  ((h, k), r) ∈ filter (λ kr : group_entry, bool_decide (kr.1.2 = k) && (kr.1.1 / second <? to / second) = true)
       (scan (map_to_list (ro_groups s))) ↔ ro_groups s !! (h, k) = Some r ∧ h / second < to / second.
Proof.
  rewrite list_elem_of_filter, (scan_perm (map_to_list (ro_groups s))), elem_of_map_to_list. cbn.
  rewrite andb_true_iff, bool_decide_eq_true, Z.ltb_lt. naive_solver.
Qed.
#[local] Instance group_bucket_le_total : Total group_bucket_le.
Proof. intros a b. unfold group_bucket_le. lia. Qed.
#[local] Instance group_bucket_le_trans : Transitive group_bucket_le.
Proof. intros a b c. unfold group_bucket_le. lia. Qed.
(** A probe finds the first failure of the earliest stored hour. *)
Lemma probe_first_run k to pending :
  sound d s → (∀ ref, probe_first s k.1 k.2 to = Some ref → rr_ID ref ∈ pending) →
  match probe_first s k.1 k.2 to with
  | Some ref => ∃ h v, stored k to h ∧ (∀ h', stored k to h' → h ≤ h') ∧ is_first (with_key k (hour_failures d h)) v ∧
                       settle d pending ref = exact_ref v
  | None => ∀ h, ¬ stored k to h
  end.
Proof.
  intros Hs Hpend. unfold probe_first in *. rewrite <-(surjective_pairing k) in *.
  pose proof (probe_rows k to) as Hrows. set (rows := filter _ _) in *.
  pose proof (merge_sort_Permutation group_bucket_le rows) as Hperm.
  pose proof (StronglySorted_merge_sort group_bucket_le rows) as Hsort.
  destruct (merge_sort group_bucket_le rows) as [|[[h k'] r] rest] eqn:Em; cbn [head] in *.
  { intros h [[r Hr] Hh]. apply Permutation_nil_l in Hperm. assert (((h, k), r) ∈ rows) as Hin by by apply Hrows.
    rewrite <-Hperm in Hin. by apply elem_of_nil in Hin. }
  assert (((h, k'), r) ∈ rows) as Hin by (rewrite <-Hperm; by left).
  assert (k' = k) as ->.
  { apply list_elem_of_filter in Hin as [Hc _]. apply andb_true_iff in Hc as [Hk _]. by apply bool_decide_eq_true in Hk. }
  apply Hrows in Hin as [Hr Ht]. destruct (sound_grouped d s Hs h k r Hr) as [_ Hg]. specialize (Hg k). rewrite Hr in Hg.
  destruct Hg as (Hne & g & at_ & Hg & ->). destruct (go_first _ _ _ _ Hg Hne) as (v & Hv & [Hid _]).
  assert (v ∈ finished_in d h (h + hour)) as Hfin_v.
  { destruct Hv as [[_ Hv]%list_elem_of_filter _]. by apply failures_finished in Hv. }
  apply finished_in_run in Hfin_v as [Hne_id Hf]. cbn in *. unfold is_empty in *.
  rewrite bool_decide_false in * by (rewrite Hid; done). exists h, v. split; [by split; [eexists|]|]. split; [|split; [done|]].
  - intros h' [[r' Hr'] Hh']. assert (((h', k), r') ∈ rows) as Hin by by apply Hrows. rewrite <-Hperm in Hin.
    apply elem_of_cons in Hin as [[= ->]|Hin]; [done|]. inversion Hsort as [|? ? _ Hall]; subst.
    rewrite Forall_forall in Hall. by apply (Hall _ Hin).
  - unfold settle. cbn. rewrite decide_True by (exact (Hpend _ eq_refl)). rewrite Hid, Hf. done.
Qed.

(** What settling makes of a group of failures. *)
Lemma settle_group_of ex a b k l g to pending :
  sound d s → (∀ v, v ∈ l → v ∈ finished_in d a b) → with_key k l ≠ [] → group_of ex k (with_key k l) g →
  (∀ ref, probe_first s k.1 k.2 to = Some ref → rr_ID ref ∈ pending) →
  (∀ ref, ref ∈ [eg_First g; eg_Last g] → rr_exact ref = false → rr_ID ref ≠ "" → rr_ID ref ∈ pending) →
  ∃ v u, first_sighting k l to v ∧ is_last (with_key k l) u ∧
    settle_group d s to pending g = with_sightings (exact_ref v) (exact_ref u) g ∧
    eg_ErrorClass g = class_of u ∧ eg_Sample g = truncate (message_of u) maxSampleMessage.
Proof.
  intros Hs Hl Hne Hg Hprobe Hpend.
  assert (∀ v, v ∈ with_key k l → v ∈ finished_in d a b) as Hl' by (intros v [_ Hv]%list_elem_of_filter; auto).
  destruct (go_first _ _ _ _ Hg Hne) as (v & Hv & Hsv). destruct (go_last _ _ _ _ Hg Hne) as (u & Hu & Hsu & Hcl & Hsa).
  assert (settle d pending (eg_First g) = exact_ref v) as Ev.
  { apply (settle_sighted ex _ _ a b); [done|apply Hl', Hv|]. intros He. apply Hpend; [by left|done|].
    rewrite (proj1 Hsv). apply (finished_in_run a b v), Hl', Hv. }
  assert (settle d pending (eg_Last g) = exact_ref u) as Eu.
  { apply (settle_sighted ex _ _ a b); [done|apply Hl', Hu|]. intros He. apply Hpend; [by right; left|done|].
    rewrite (proj1 Hsu). apply (finished_in_run a b u), Hl', Hu. }
  unfold settle_group. rewrite Ev, Eu, (go_kind _ _ _ _ Hg), (go_fp _ _ _ _ Hg).
  pose proof (probe_first_run k to pending Hs Hprobe) as Hp. destruct (probe_first s k.1 k.2 to) as [ref|]; cbn [fmap option_fmap option_map].
  2:{ exists v, u. split; [|done]. split; [left; apply Hv|]. intros w [Hw|(h & Hh & _)]; [by apply Hv|by destruct (Hp h)]. }
  destruct Hp as (h & w & Hh & Hmin & Hw & ->).
  assert (∀ x h', stored k to h' → x ∈ with_key k (hour_failures d h') → ref_before (exact_ref x) (exact_ref w) = false) as Hear.
  { intros x h' Hst Hx. destruct (decide (h' = h)) as [->|Hneh]; [by apply Hw|]. specialize (Hmin h' Hst).
    destruct Hst as [[r' Hr'] _], Hh as [[r Hr] _]. apply (sound_grouped d s Hs) in Hr' as [Ha' _], Hr as [Ha _].
    pose proof (aligned_lt h h' Ha Ha' ltac:(lia)). destruct Hw as [[_ Hw]%list_elem_of_filter _].
    apply list_elem_of_filter in Hx as [_ Hx]. apply failures_at in Hw, Hx. unfold ref_before. cbn. lia. }
  destruct (ref_before (exact_ref w) (exact_ref v)) eqn:Eb; eexists _, u; (split; [|split; [exact Hu|split; [reflexivity|done]]]).
  - split; [right; exists h; split; [done|apply Hw]|]. intros x [Hx|(h' & Hst & Hx)]; [|by eapply Hear].
    apply (ref_le_trans _ (exact_ref v)); [by apply ref_before_asym|by apply Hv].
  - split; [left; apply Hv|]. intros x [Hx|(h' & Hst & Hx)]; [by apply Hv|].
    apply (ref_le_trans _ (exact_ref w)); [done|by eapply Hear].
Qed.
End sightings.

(** ** The read *)

Section reads.
Context `{GoLib} `{RowOrder} (d : db).
Hypothesis Hd : regular d.
Hypothesis Hkeyed : runs_keyed (job_runs d).
Hypothesis Hfin : finishes_ok d.
Hypothesis Hnamed : job_runs d !! "" = None.

(** The failures a read is about. *)
Definition wanted (p : ErrorGroupsParams) : list runView :=
  filter (λ v, keeps (ep_Fingerprint p) (key_of v) = true) (failures (of_kind_only (ep_Kind p)) d (ep_From p) (ep_To p)).
Definition refused (p : ErrorGroupsParams) : bool :=
  is_zero_time (ep_From p) || is_zero_time (ep_To p) || negb (ep_From p <? ep_To p) ||
  (negb (is_empty (ep_Fingerprint p)) && negb (validFingerprint (ep_Fingerprint p))) ||
  (ep_WithHourly p && (maxHourlyWindow <? time_sub (ep_To p) (ep_From p))).

(** A raw segment shares no hour with the stored ones. *)
Lemma raw_hours_apart a b q f u :
  (covered q = true → aligned (sp_From q) ∧ aligned (sp_To q)) →
  u ∈ seg_runs f d (wp_raw (planWindow a b q)) →
  ¬ wp_rolledFrom (planWindow a b q) ≤ hour_of u < wp_rolledTo (planWindow a b q).
Proof.
  intros Hal (seg & Hu & Hseg)%list_elem_of_bind. apply list_elem_of_filter in Hu as [_ Hu%finished_in_at].
  revert Hseg. unfold planWindow. destruct (covered q) eqn:Ec; cbn [negb orb]; [|cbn; lia].
  destruct (Hal eq_refl) as [Hf Ht]. destruct (ceilHour_spec a) as [Ha Ha'], (floorHour_spec b) as [Hb Hb'].
  set (rf := Z.max (ceilHour a) (sp_From q)). set (rt := Z.min (floorHour b) (sp_To q)).
  assert (aligned rt) as Hrt.
  { unfold rt. destruct (Z.min_spec (floorHour b) (sp_To q)) as [[_ ->]|[_ ->]]; done. }
  destruct (rf <? rt); cbn [negb wp_rolledFrom wp_rolledTo wp_raw]; [|lia].
  unfold hour_of. destruct (floorHour_spec (rv_FinishedAt u)) as [Hx Hx'].
  intros [Hin|Hin]%elem_of_app; case_match; try (by apply elem_of_nil in Hin);
    apply list_elem_of_singleton in Hin as ->; cbn in Hu; [lia|].
  pose proof (floorHour_ge rt _ Hrt (proj1 Hu)). lia.
Qed.

(** What a read answers: refused, over its cap, or the ranked groups, settled. *)
Lemma ErrorGroups_groups s p :
  sound d s → zero_time < ep_From p →
  match ErrorGroups d s p with
  | Ok r => refused p = false ∧ ∃ ex M, groups_of ex M (wanted p) ∧
              ey_Groups r = error_group p <$> settleSightings d s (ep_To p) (ranked p M)
  | Err e => (refused p = true ∧ ∀ s' m, ErrorGroups d s' {| ep_From := ep_From p; ep_To := ep_To p; ep_Kind := ep_Kind p;
                ep_Fingerprint := ep_Fingerprint p; ep_Limit := ep_Limit p; ep_WithHourly := ep_WithHourly p; ep_MaxRawSpan := m |} = Err e) ∨
             (e = ErrStatsNotRolledUp ∧ ¬ ep_MaxRawSpan p < 0)
  end.
Proof.
  intros Hs Hz. unfold ErrorGroups, refused. cbn [ep_From ep_To ep_Kind ep_Fingerprint ep_Limit ep_WithHourly].
  destruct (is_zero_time _ || _ || _) eqn:E1; [by left|]. destruct (negb (is_empty _) && _) eqn:E2; [by left|].
  destruct (ep_WithHourly p && _) eqn:E3; [by left|]. cbn [orb]. cbv zeta. fold (progress_of s).
  assert (ep_From p < ep_To p) as Hlt by lia.
  assert (covered (progress_of s) = true → aligned (sp_From (progress_of s)) ∧ aligned (sp_To (progress_of s))) as Hal.
  { intros Hcov. by destruct (progress_aligned d s Hs Hcov) as (_ & ? & ?). }
  destruct (planWindow_splits d (of_kind_only (ep_Kind p)) _ _ (progress_of s) Hlt Hal) as (Hr & _ & Hroll & Hseg).
  pose proof (plan_segments_after _ _ _ Hz Hseg) as Hz'.
  destruct (fitRawSpan d _ _) as [plans|e] eqn:Efit; [|right; by apply fitRawSpan_err in Efit].
  apply fitRawSpan_keeps in Efit; [|done|done].
  apply Forall2_cons_inv_l in Efit as (q & l & (Hqf & Hqt & Hq) & ->%Forall2_nil_inv_l & ->). change (default (planWindow (ep_From p) (ep_To p) (progress_of s)) (head [q])) with q.
  split; [done|]. eexists _, _. split; [|reflexivity]. apply windowErrorGroups_of; [done|done| | |].
  - rewrite Hqf, Hqt. by rewrite <-(proj1 (Hq _)).
  - rewrite Hqf, Hqt. intros Hlt'. destruct (Hroll Hlt') as (Hcov & ? & ? & ? & ?). exists (progress_of s).
    destruct (progress_aligned d s Hs Hcov) as (? & _ & _). done.
  - rewrite Hqf, Hqt. intros u. rewrite <-(proj1 (Hq _)). by apply raw_hours_apart.
Qed.

(** Settling the ranked groups: each by its own failures. *)
Lemma settleSightings_of ex M p s :
  sound d s → groups_of ex M (wanted p) →
  Forall2 (λ g g', ∃ v u, let k := (eg_Kind g, eg_Fingerprint g) in
      first_sighting d s k (wanted p) (ep_To p) v ∧ is_last (with_key k (wanted p)) u ∧
      g' = with_sightings (exact_ref v) (exact_ref u) g ∧
      group_of ex k (with_key k (wanted p)) g ∧ eg_ErrorClass g = class_of u ∧
      eg_Sample g = truncate (message_of u) maxSampleMessage)
    (ranked p M) (settleSightings d s (ep_To p) (ranked p M)).
Proof.
  intros Hs HM. unfold settleSightings. set (gs := ranked p M). set (pending := pending_ids _ _ _).
  apply Forall2_fmap_r, Forall_Forall2_diag, Forall_forall. intros g Hg.
  assert (∃ k, M !! k = Some g) as [k Hk].
  { unfold gs, ranked in Hg. apply elem_of_take in Hg as (i & Hg%list_elem_of_lookup_2 & _).
    rewrite (merge_sort_Permutation group_rank_le), (scan_perm (map_to_list M)), list_elem_of_fmap in Hg.
    destruct Hg as ([k g'] & -> & Hg%elem_of_map_to_list). by exists k. }
  specialize (HM k). rewrite Hk in HM. destruct HM as [Hne HM].
  assert ((eg_Kind g, eg_Fingerprint g) = k) as Ek.
  { rewrite (go_kind _ _ _ _ HM), (go_fp _ _ _ _ HM). by destruct k. }
  assert (∀ id, id ∈ option_list (rr_ID <$> probe_first s (eg_Kind g) (eg_Fingerprint g) (ep_To p)) ++
    ([eg_First g; eg_Last g] ≫= λ ref, if negb (rr_exact ref) && negb (is_empty (rr_ID ref)) then [rr_ID ref] else []) →
    id ∈ pending) as Hpend.
  { intros id Hid. unfold pending, pending_ids. apply elem_of_list_to_set, list_elem_of_bind. exists g. done. }
  rewrite Ek. destruct (settle_group_of d s Hkeyed Hfin Hnamed ex (ep_From p) (ep_To p) k (wanted p) g (ep_To p) pending Hs)
    as (v & u & Hv & Hu & Heq & Hc & Hsa); [|done|done| | |by exists v, u].
  - intros v [_ Hv]%list_elem_of_filter. by apply failures_finished in Hv.
  - intros ref Href. apply Hpend, elem_of_app. left. rewrite <-Ek in Href. cbn in Href. rewrite Href. by left.
  - intros ref Hin He Hid. apply Hpend, elem_of_app. right. apply list_elem_of_bind. exists ref. split; [|done].
    rewrite He. unfold is_empty. rewrite bool_decide_false by done. by left.
Qed.

(** An answer, but for its first sighting. *)
Definition with_first (at_ : Z) (id : string) (g : ErrorGroup) : ErrorGroup :=
  {| er_Kind := er_Kind g; er_Fingerprint := er_Fingerprint g; er_ErrorClass := er_ErrorClass g;
     er_Failures := er_Failures g; er_Discarded := er_Discarded g; er_Retried := er_Retried g; er_FirstSeen := at_;
     er_LastSeen := er_LastSeen g; er_FirstRunID := id; er_LastRunID := er_LastRunID g;
     er_SampleMessage := er_SampleMessage g; er_Message := er_Message g; er_Hourly := er_Hourly g |}.
Definition raw_window (p : ErrorGroupsParams) : ErrorGroupsParams :=
  {| ep_From := ep_From p; ep_To := ep_To p; ep_Kind := ep_Kind p; ep_Fingerprint := ep_Fingerprint p;
     ep_Limit := ep_Limit p; ep_WithHourly := ep_WithHourly p; ep_MaxRawSpan := -1 |}.

(** Two groups of the same failures answer alike. *)
Lemma error_group_same p k l ex ex' g g' v v' u :
  group_of ex k l g → group_of ex' k l g' → eg_ErrorClass g = eg_ErrorClass g' → eg_Sample g = eg_Sample g' →
  error_group p (with_sightings (exact_ref v) (exact_ref u) g) =
    with_first (rv_FinishedAt v) (rv_ID v) (error_group p (with_sightings (exact_ref v') (exact_ref u) g')).
Proof.
  intros [H1 H2 H3 H4 H5 _ _] [H1' H2' H3' H4' H5' _ _] Hc Hm. unfold error_group, with_first.
  cbn [with_sightings eg_Kind eg_Fingerprint eg_ErrorClass eg_Sample eg_Failures eg_Discarded eg_First eg_Last eg_hourly
    er_Kind er_Fingerprint er_ErrorClass er_Failures er_Discarded er_Retried er_LastSeen er_LastRunID er_SampleMessage
    er_Message er_Hourly].
  rewrite Hc, Hm, H1, H2, H3, H4, H1', H2', H3', H4'. f_equal. destruct (ep_WithHourly p); [|done].
  apply list_fmap_ext. intros _ h _. by rewrite H5, H5'.
Qed.

(** C33. Error groups read from stored hours are those of the raw runs. While the rollups
    are sound, the read gives the groups that grouping the window's raw failures alone
    gives, in the same order and each with the same counts, hours, last sighting,
    class and sample; its first sighting is the earliest failure of the group among
    those of the window and of every stored hour before To. It is refused where the
    raw read is, or for its cap on raw history. *)
Theorem error_groups_hybrid s p :
  sound d s → zero_time < ep_From p →
  match ErrorGroups d s p with
  | Ok r => ∃ r', ErrorGroups d no_rollups (raw_window p) = Ok r' ∧
      Forall2 (λ g g', g = with_first (er_FirstSeen g) (er_FirstRunID g) g' ∧
        ∃ v, first_sighting d s (er_Kind g, er_Fingerprint g) (wanted p) (ep_To p) v ∧
          er_FirstSeen g = rv_FinishedAt v ∧ er_FirstRunID g = rv_ID v) (ey_Groups r) (ey_Groups r')
  | Err e => ErrorGroups d no_rollups (raw_window p) = Err e ∨ (e = ErrStatsNotRolledUp ∧ ¬ ep_MaxRawSpan p < 0)
  end.
Proof.
  intros Hs Hz. pose proof (ErrorGroups_groups s p Hs Hz) as H1.
  pose proof (ErrorGroups_groups no_rollups (raw_window p) (no_rollups_sound d) Hz) as H2.
  destruct (ErrorGroups d s p) as [r|e]; [|destruct H1 as [[_ H1]|?]; [left; apply H1|by right]].
  destruct H1 as (Href & ex & M & HM & ->).
  destruct (ErrorGroups d no_rollups (raw_window p)) as [r'|e'].
  2:{ destruct H2 as [[Hr _]|[_ Hc]]; [|cbn in Hc; lia]. change (refused (raw_window p)) with (refused p) in Hr. congruence. }
  destruct H2 as (_ & ex' & M' & HM' & E'). exists r'. split; [done|]. rewrite E'. clear E'.
  pose proof (settleSightings_of ex M p s Hs HM) as S1.
  pose proof (settleSightings_of ex' M' (raw_window p) no_rollups (no_rollups_sound d) HM') as S2.
  pose proof (ranked_same p M M' ex ex' _ HM HM') as Hrank. change (ranked (raw_window p)) with (ranked p) in *.
  change (ep_To (raw_window p)) with (ep_To p) in *. change (error_group (raw_window p)) with (error_group p).
  change (wanted (raw_window p)) with (wanted p) in *.
  apply Forall2_fmap, Forall2_lookup. intros i. rewrite Forall2_lookup in S1, S2, Hrank.
  specialize (S1 i). specialize (S2 i). specialize (Hrank i).
  destruct (ranked p M !! i) as [g1|] eqn:E1, (ranked p M' !! i) as [g2|] eqn:E2; inversion Hrank as [? ? (k & Hk1 & Hk2)|]; subst;
    inversion S1 as [? ? (v1 & u1 & Hv1 & Hu1 & -> & G1 & C1 & A1)|]; subst;
    inversion S2 as [? ? (v2 & u2 & Hv2 & Hu2 & -> & G2 & C2 & A2)|]; subst; constructor.
  assert (∀ ex M g, groups_of ex M (wanted p) → M !! k = Some g → (eg_Kind g, eg_Fingerprint g) = k) as Hkey.
  { intros ex0 M0 g HM0 Hg. specialize (HM0 k). rewrite Hg in HM0. destruct HM0 as [_ HM0].
    rewrite (go_kind _ _ _ _ HM0), (go_fp _ _ _ _ HM0). by destruct k. }
  pose proof (Hkey _ _ _ HM Hk1) as K1. pose proof (Hkey _ _ _ HM' Hk2) as K2. cbv zeta in *. rewrite K1 in Hv1, Hu1, G1. rewrite K2 in Hv2, Hu2, G2.
  assert (u1 = u2) as ->.
  { apply (last_unique d Hkeyed (with_key k (wanted p)) u1 u2 (ep_From p) (ep_To p)); [|done..].
    intros v [_ [_ Hx]%list_elem_of_filter]%list_elem_of_filter. by apply failures_finished in Hx. }
  split; [|exists v1; split; [|done]; cbn; by rewrite K1].
  apply (error_group_same p k (with_key k (wanted p)) ex ex'); [done..|congruence|congruence].
Qed.
End reads.
