(* ===== verification/RollupWalks.v ===== *)
(** * The rollup's walks, passes and rebuilds

    What a walk does between other sessions' commits: it ends, it rolls at most its
    budget, and every step it takes is one of three, which the invariant lemmas
    ([rollForward_inv], [rollBackward_inv], [rebuild_each_inv]) reduce a property of
    a whole pass to. Two instances: coverage stays [sound], and a guarded rebuild
    never loses a count. *)

From S2P Require Import Prelude Types Text Json Fingerprint Store Plan Sweep Retention Ids Hist Maintenance Rollup RollupFacts RollupWindows GroupFacts RollupHours.

Local Open Scope Z_scope.

Section walks.
Context `{GoLib} `{RowOrder} (w : world) (now : Z) (guard : bool).
Hypothesis Hdb : ∀ n, ids_shaped (w_db w n).

(** ** Termination and bounds *)

(** Every hour rolled moves the walk past it. *)
Lemma rollForward_ends budget fuel n hi acc s :
  aligned (rw_reached acc) → hi - rw_reached acc ≤ Z.of_nat fuel * hour →
  rollForward w now guard budget (S fuel) n hi acc s ≠ None.
Proof.
  revert n acc s. induction fuel as [|fuel IH]; intros n acc s Ha Hf; cbn [rollForward].
  { assert ((rw_reached acc <? hi) = false) as -> by lia. done. }
  fold (rollForward w now guard budget (S fuel)). destruct (rw_reached acc <? hi); [|done]. cbn [negb].
  destruct (spent budget acc); [done|]. destruct (w_cancelled w n); [done|].
  destruct (nextActivityAt _ _ _) as [next|] eqn:En; [|done]. destruct (Z.ltb_spec (floorHour next) hi); [|done].
  destruct (rollupHour _ _ _ _ _ _) as [[k s1]|e]; [|done]. destruct (floorHour_spec next) as [Hfa _].
  apply IH; cbn [walk_step rw_reached]; [by apply aligned_add|].
  pose proof (floorHour_ge _ _ Ha (nextActivityAt_ge _ _ _ _ Ha En)). lia.
Qed.
Lemma rollBackward_ends budget fuel n lo acc s :
  aligned lo → aligned (rw_reached acc) → rw_reached acc - lo ≤ Z.of_nat fuel * hour →
  rollBackward w now guard budget (S fuel) n lo acc s ≠ None.
Proof.
  intros Hl. revert n acc s. induction fuel as [|fuel IH]; intros n acc s Ha Hf; cbn [rollBackward].
  { assert ((lo <? rw_reached acc) = false) as -> by lia. done. }
  fold (rollBackward w now guard budget (S fuel)). destruct (Z.ltb_spec lo (rw_reached acc)); [|done]. cbn [negb].
  destruct (spent budget acc); [done|]. destruct (w_cancelled w n); [done|].
  destruct (prevActivityAt _ _ _) as [prev|] eqn:Ep; [|done].
  destruct (rollupHour _ _ _ _ _ _) as [[k s1]|e]; [|done]. destruct (floorHour_spec prev) as [Hfa _].
  apply IH; cbn [walk_step rw_reached]; [done|].
  pose proof (prevActivityAt_lt _ _ _ _ (Hdb _) Ha Ep) as Hlt. pose proof (aligned_lt _ _ Hfa Ha Hlt). lia.
Qed.

(** ** What a walk may do *)

Section forward.
Context (lo0 hi budget : Z) (I : rollups → Prop).
Hypothesis Hlo0 : aligned lo0.
Hypothesis Hhi : aligned hi.
Hypothesis Hothers : ∀ n s, I s → I (w_others w n s).
Hypothesis Hroll : ∀ n lo h s k s',
  aligned lo → aligned h → lo0 ≤ lo → lo ≤ h → h + hour ≤ hi → inactive (w_db w (2 * n)) lo h → I s →
  rollupHour (w_db w (2 * n + 1)) h now guard (stepUp lo (h + hour)) s = Ok (k, s') → I s'.
Hypothesis Hmark : ∀ n lo s,
  aligned lo → lo0 ≤ lo → lo < hi → inactive (w_db w (2 * n)) lo hi → I s → I (markCovered (stepUp lo hi) s).

Lemma rollForward_inv fuel n acc s acc' e n' s' :
  aligned (rw_reached acc) → lo0 ≤ rw_reached acc → I s →
  rollForward w now guard budget fuel n hi acc s = Some (acc', e, n', s') →
  I s' ∧ aligned (rw_reached acc') ∧ (n ≤ n')%nat.
Proof.
  revert n acc s. induction fuel as [|fuel IH]; intros n acc s Ha Hlo Hs; cbn [rollForward]; [done|].
  destruct (Z.ltb_spec (rw_reached acc) hi) as [Hlt|]; cbn [negb]; [|by intros [= <- <- <- <-]].
  destruct (spent budget acc); [by intros [= <- <- <- <-]|]. destruct (w_cancelled w n); [by intros [= <- <- <- <-]|].
  pose proof (nextActivityAt_skips (w_db w (2 * n)) (rw_reached acc) hi (Hdb _)) as Hq.
  destruct (nextActivityAt _ _ _) as [next|] eqn:En.
  - pose proof (floorHour_ge _ _ Ha (nextActivityAt_ge _ _ _ _ Ha En)) as Hge.
    destruct (floorHour_spec next) as [Hfa Hn]. destruct (Z.ltb_spec (floorHour next) hi) as [Hh|Hh].
    + pose proof (aligned_lt _ _ Hfa Hhi Hh) as Hhh.
      assert (inactive (w_db w (2 * n)) (rw_reached acc) (floorHour next)) as Hq'.
      { apply (quiet_sub _ (rw_reached acc) _ _ (Z.min next hi)); [lia|lia|done]. }
      destruct (rollupHour _ _ _ _ _ _) as [[k s1]|e1] eqn:Er.
      * intros Hr. apply IH in Hr as (Hs' & Ha' & Hn').
        -- split; [done|]. split; [done|lia].
        -- by apply aligned_add.
        -- cbn [walk_step rw_reached]. pose proof hour_pos. lia.
        -- eapply (Hroll n); [exact Ha|exact Hfa|exact Hlo|exact Hge|exact Hhh|exact Hq'|by apply Hothers|exact Er].
      * intros [= <- <- <- <-]. split; [by apply Hothers|]. split; [done|lia].
    + intros [= <- <- <- <-]. split; [|split; [done|lia]]. apply (Hmark n); [done..| |by apply Hothers].
      by rewrite Z.min_r in Hq by lia.
  - intros [= <- <- <- <-]. split; [|split; [done|lia]]. apply (Hmark n); [done..|by apply Hothers].
Qed.
End forward.

Section backward.
Context (lo hi0 budget : Z) (I : rollups → Prop).
Hypothesis Hlo : aligned lo.
Hypothesis Hothers : ∀ n s, I s → I (w_others w n s).
Hypothesis Hroll : ∀ n h hi s k s',
  aligned h → aligned hi → lo ≤ h → h + hour ≤ hi → hi ≤ hi0 → inactive (w_db w (2 * n)) (h + hour) hi → I s →
  rollupHour (w_db w (2 * n + 1)) h now guard (stepDown h hi) s = Ok (k, s') → I s'.
Hypothesis Hmark : ∀ n hi s,
  aligned hi → lo < hi → hi ≤ hi0 → inactive (w_db w (2 * n)) lo hi → I s → I (markCovered (stepDown lo hi) s).

Lemma rollBackward_inv fuel n acc s acc' e n' s' :
  aligned (rw_reached acc) → rw_reached acc ≤ hi0 → I s →
  rollBackward w now guard budget fuel n lo acc s = Some (acc', e, n', s') →
  I s' ∧ aligned (rw_reached acc') ∧ (n ≤ n')%nat.
Proof.
  revert n acc s. induction fuel as [|fuel IH]; intros n acc s Ha Hle Hs; cbn [rollBackward]; [done|].
  destruct (Z.ltb_spec lo (rw_reached acc)) as [Hlt|]; cbn [negb]; [|by intros [= <- <- <- <-]].
  destruct (spent budget acc); [by intros [= <- <- <- <-]|]. destruct (w_cancelled w n); [by intros [= <- <- <- <-]|].
  pose proof (prevActivityAt_skips (w_db w (2 * n)) lo (rw_reached acc) (Hdb _) Hlo Ha Hlt) as Hq.
  destruct (prevActivityAt _ _ _) as [prev|] eqn:Ep.
  - pose proof (prevActivityAt_ge _ _ _ _ Hlo Ha Hlt Ep) as Hge. destruct (floorHour_spec prev) as [Hfa _].
    pose proof (prevActivityAt_lt _ _ _ _ (Hdb _) Ha Ep) as Hlt'. pose proof (aligned_lt _ _ Hfa Ha Hlt') as Hh.
    destruct (rollupHour _ _ _ _ _ _) as [[k s1]|e1] eqn:Er.
    + intros Hr. apply IH in Hr as (Hs' & Ha' & Hn').
      * split; [done|]. split; [done|lia].
      * done.
      * cbn [walk_step rw_reached]. lia.
      * eapply (Hroll n); [exact Hfa|exact Ha|exact Hge|exact Hh|exact Hle|exact Hq|by apply Hothers|exact Er].
    + intros [= <- <- <- <-]. split; [by apply Hothers|]. split; [done|lia].
  - intros [= <- <- <- <-]. split; [|split; [done|lia]]. apply (Hmark n); [done..|by apply Hothers].
Qed.
End backward.

(** The hours of a rebuild. *)
Section each.
Context (step : Z → coverageStep) (hs : list Z) (I : rollups → Prop).
Hypothesis Hothers : ∀ n s, I s → I (w_others w n s).
Hypothesis Hroll : ∀ n h s k s', h ∈ hs → I s →
  rollupHour (w_db w (2 * n + 1)) h now guard (step h) s = Ok (k, s') → I s'.

Lemma rebuild_each_inv l n r s r' e n' s' :
  (∀ h, h ∈ l → h ∈ hs) → I s → rebuild_each w now guard step l n r s = (r', e, n', s') → I s'.
Proof.
  revert n r s. induction l as [|h l IH]; intros n r s Hl Hs; cbn [rebuild_each]; [by intros [= <- <- <- <-]|].
  destruct (w_cancelled w n); [by intros [= <- <- <- <-]|].
  destruct (rollupHour _ _ _ _ _ _) as [[k s1]|e1] eqn:Er.
  - apply IH; [intros h' Hh; apply Hl; by right|].
    eapply Hroll; [apply Hl; by left|by apply Hothers|exact Er].
  - intros [= <- <- <- <-]. by apply Hothers.
Qed.
End each.
End walks.

(** ** Coverage stays sound *)

Section coverage.
Context `{GoLib}.

(** Two readings of the job tables agree on the hours of [a, b). *)
Definition same_hours (a b : Z) (d d' : db) : Prop :=
  ∀ h, aligned h → a ≤ h → h + hour ≤ b → same_hour d d' h.
Lemma same_hours_sub a b a' b' d d' : a ≤ a' → b' ≤ b → same_hours a b d d' → same_hours a' b' d d'.
Proof. intros Ha Hb Hs h Hal H1 H2. apply Hs; [done|lia..]. Qed.

Lemma quiet_entry d h g : inactive d h (h + hour) → hour_entry d h g = None.
Proof. intros [Hf Hi]. unfold hour_entry. by rewrite Hf, Hi. Qed.
Lemma quiet_hour_rolled d d' s a b h :
  sound d s → inactive d' a b → same_hours a b d d' → aligned h → a ≤ h → h + hour ≤ b → hour_rolled d s h.
Proof.
  intros Hs Hq Hsame Ha Hah Hhb. destruct (Hsame h Ha Hah Hhb) as [He Hf]. pose proof hour_pos.
  assert (inactive d' h (h + hour)) as Hq' by (apply (quiet_sub d' a _ _ b); [lia|lia|done]). split.
  - assert (∀ g, hour_entry d h g = None) as Hn by (intros g; rewrite <-He; by apply quiet_entry).
    exists 0. intros g. rewrite Hn. simpl. destruct (ro_hourly s !! (h, g)) as [r|] eqn:Er; [|done].
    destruct (sound_stored d s Hs h g r Er) as [_ [at_ Hat]]. by rewrite Hat, Hn in Er.
  - assert (hour_failures d h = []) as Hn.
    { destruct Hq' as [Hfin _].
      assert (hour_failures d' h = []) as E by (unfold hour_failures, failures, runs_in; by rewrite Hfin).
      rewrite E in Hf. by apply Permutation_nil_l in Hf. }
    intros k. destruct (ro_groups s !! (h, k)) as [r|] eqn:Er; [|by rewrite Hn].
    destruct (sound_grouped d s Hs h k r Er) as [_ Hg]. specialize (Hg k). by rewrite Er in Hg.
Qed.

(** The step of a transaction covers only hours that are rolled. *)
Lemma step_sound d s st p :
  sound d s → ro_progress s = Some p →
  aligned (sp_From (step_progress st p)) → aligned (sp_To (step_progress st p)) →
  (∀ h, aligned h → sp_From (step_progress st p) ≤ h < sp_To (step_progress st p) →
        sp_From p ≤ h < sp_To p ∨ hour_rolled d s h) →
  sound d (applyCoverageStep st s).
Proof.
  intros Hs Hp Hf Ht Hh. unfold applyCoverageStep, with_progress. rewrite Hp. cbn. split; cbn.
  - by intros q [= <-].
  - intros q h [= <-] Hal Hin. destruct (Hh h Hal Hin) as [?|?]; [|done]. by apply (sound_hours d s Hs p).
  - apply (sound_stored d s Hs).
  - apply (sound_grouped d s Hs).
Qed.
Lemma zero_hour_down st p :
  cs_downFrom st = zero_time → cs_downTo st = zero_time → sp_From (step_progress st p) = sp_From p.
Proof. intros H1 H2. unfold step_progress. cbn. rewrite H1, H2. case_match; [lia|done]. Qed.
Lemma zero_hour_up st p :
  cs_upFrom st = zero_time → cs_upTo st = zero_time → sp_To (step_progress st p) = sp_To p.
Proof. intros H1 H2. unfold step_progress. cbn. rewrite H1, H2. case_match; [lia|done]. Qed.

Lemma step_none d s st : sound d s → ro_progress s = None → sound d (applyCoverageStep st s).
Proof.
  intros Hs Hp. unfold applyCoverageStep, with_progress. rewrite Hp. split; cbn; [done..|apply (sound_stored d s Hs)|apply (sound_grouped d s Hs)].
Qed.
Lemma stepUp_sound d s a b :
  sound d s → aligned b → (∀ h, aligned h → a ≤ h < b → hour_rolled d s h) →
  sound d (applyCoverageStep (stepUp a b) s).
Proof.
  intros Hs Hb Hh. destruct (ro_progress s) as [p|] eqn:Ep; [|by apply step_none].
  destruct (sound_edges d s Hs p Ep) as [Hf Ht].
  apply (step_sound d s _ p Hs Ep); rewrite ?zero_hour_down by done; [done|..]; unfold step_progress; cbn.
  - by case_match.
  - intros h Ha Hin. destruct (Z.le_gt_cases (sp_To p) h); [|left; lia]. right. apply Hh; [done|].
    destruct (_ && _) eqn:E in Hin; lia.
Qed.
Lemma stepDown_sound d s a b :
  sound d s → aligned a → (∀ h, aligned h → a ≤ h < b → hour_rolled d s h) →
  sound d (applyCoverageStep (stepDown a b) s).
Proof.
  intros Hs Hb Hh. destruct (ro_progress s) as [p|] eqn:Ep; [|by apply step_none].
  destruct (sound_edges d s Hs p Ep) as [Hf Ht].
  apply (step_sound d s _ p Hs Ep); rewrite ?zero_hour_up by done; [|done|]; unfold step_progress; cbn.
  - by case_match.
  - intros h Ha Hin. destruct (Z.le_gt_cases (sp_From p) h); [left; lia|]. right. apply Hh; [done|].
    destruct (_ && _) eqn:E in Hin; lia.
Qed.
Lemma no_step_sound d s : sound d s → sound d (applyCoverageStep no_step s).
Proof.
  intros Hs. destruct (ro_progress s) as [p|] eqn:Ep; [|by apply step_none].
  destruct (sound_edges d s Hs p Ep) as [Hf Ht].
  apply (step_sound d s _ p Hs Ep); rewrite ?zero_hour_up, ?zero_hour_down by done; auto.
Qed.

End coverage.

Section sessions.
Context `{GoLib} `{RowOrder}.

(** Replacing an hour with what the tables say of it. *)
Definition replaced (s s' : rollups) : rollups := with_progress (ro_progress s) s'.
Lemma rollupHour_sound d d' h rolledAt guard st s k s' :
  sound d s → regular d' → aligned h → same_hour d d' h →
  rollupHour d' h rolledAt guard st s = Ok (k, s') →
  sound d (replaced s s') ∧ hour_rolled d (replaced s s') h ∧ s' = applyCoverageStep st (replaced s s').
Proof.
  intros Hs Hd Ha [Hsame Hfail] Hr.
  pose proof (rollupHour_spec d' h rolledAt guard st s k s' Hd Hr) as (H1 & H2 & H3 & H4 & _).
  assert (rows_rolled d (replaced s s') h) as Hh by (exists rolledAt; intros g; cbn; by rewrite H1, Hsame).
  assert (groups_rolled d (replaced s s') h) as Hg by exact (groups_rolled_same d d' s' h Hfail H3).
  assert (∀ h', h' ≠ h → rows_rolled d s h' → rows_rolled d (replaced s s') h') as Ho.
  { intros h' Hne [at_ Hat]. exists at_. intros g. cbn. by rewrite H2. }
  assert (∀ h', h' ≠ h → groups_rolled d s h' → groups_rolled d (replaced s s') h') as Hog.
  { intros h' Hne Hx x. cbn. rewrite H4 by done. apply Hx. }
  split; [|split; [done|]].
  - split; cbn.
    + apply (sound_edges d s Hs).
    + intros p h' Hp Ha' Hin. destruct (decide (h' = h)) as [->|Hne]; [done|].
      destruct (sound_hours d s Hs p h' Hp Ha' Hin). split; auto.
    + intros h' g r Hx. destruct (decide (h' = h)) as [->|Hne]; [done|].
      rewrite H2 in Hx by done. destruct (sound_stored d s Hs h' g r Hx). auto.
    + intros h' x r Hx. destruct (decide (h' = h)) as [->|Hne]; [done|].
      rewrite H4 in Hx by done. destruct (sound_grouped d s Hs h' x r Hx). auto.
  - unfold rollupHour in Hr. cbv zeta in Hr. case_match; [done|]. by injection Hr as _ <-.
Qed.

Context (w : world) (now : Z) (guard : bool) (d : db).
Hypothesis Hreg : ∀ n, regular (w_db w n).
Hypothesis Hothers : ∀ n s, sound d s → sound d (w_others w n s).

Lemma world_shaped n : ids_shaped (w_db w n).
Proof. apply reg_ids, Hreg. Qed.

Lemma rollForward_sound budget fuel n hi acc s acc' e n' s' :
  aligned (rw_reached acc) → aligned hi → (∀ n, same_hours (rw_reached acc) hi d (w_db w n)) → sound d s →
  rollForward w now guard budget fuel n hi acc s = Some (acc', e, n', s') → sound d s'.
Proof.
  intros Ha Hh Hsame Hs Hr.
  eapply (rollForward_inv w now guard world_shaped (rw_reached acc) hi budget (sound d)) in Hr as [Hr _];
    [exact Hr|done|done| | |done|lia|done].
  - intros m lo h s1 k s2 Hlo Hal Hge Hle Hhi Hq Hs1 Hr1.
    destruct (rollupHour_sound d _ h now guard _ s1 k s2 Hs1 (Hreg _) Hal
      (Hsame _ h Hal ltac:(lia) ltac:(lia)) Hr1) as (Hs2 & Hh2 & He). rewrite He.
    apply stepUp_sound; [done|by apply aligned_add|]. intros h' Hal' Hin.
    destruct (decide (h' = h)) as [->|Hne]; [done|]. assert (h' < h) as Hlt.
    { destruct (Z.le_gt_cases h h'); [|done]. pose proof (aligned_lt h h' Hal Hal'). lia. }
    pose proof (aligned_lt h' h Hal' Hal Hlt).
    apply (quiet_hour_rolled d (w_db w (2 * m)) _ lo h); [done|done| |done|lia|done].
    eapply same_hours_sub; [| |apply Hsame]; pose proof hour_pos; lia.
  - intros m lo s1 Hlo Hge Hlt Hq Hs1. apply stepUp_sound; [done|done|]. intros h' Hal' Hin.
    pose proof (aligned_lt h' hi Hal' Hh).
    apply (quiet_hour_rolled d (w_db w (2 * m)) _ lo hi); [done|done| |done|lia|lia].
    eapply same_hours_sub; [| |apply Hsame]; lia.
Qed.
Lemma rollBackward_sound budget fuel n lo acc s acc' e n' s' :
  aligned (rw_reached acc) → aligned lo → (∀ n, same_hours lo (rw_reached acc) d (w_db w n)) → sound d s →
  rollBackward w now guard budget fuel n lo acc s = Some (acc', e, n', s') → sound d s'.
Proof.
  intros Ha Hl Hsame Hs Hr.
  eapply (rollBackward_inv w now guard world_shaped lo (rw_reached acc) budget (sound d)) in Hr as [Hr _];
    [exact Hr|done|done| | |done|lia|done].
  - intros m h hi s1 k s2 Hal Hhi Hge Hle Hle0 Hq Hs1 Hr1.
    destruct (rollupHour_sound d _ h now guard _ s1 k s2 Hs1 (Hreg _) Hal
      (Hsame _ h Hal ltac:(lia) ltac:(lia)) Hr1) as (Hs2 & Hh2 & He). rewrite He.
    apply stepDown_sound; [done|done|]. intros h' Hal' Hin.
    destruct (decide (h' = h)) as [->|Hne]; [done|]. pose proof (aligned_lt h h' Hal Hal' ltac:(lia)).
    pose proof (aligned_lt h' hi Hal' Hhi ltac:(lia)).
    apply (quiet_hour_rolled d (w_db w (2 * m)) _ (h + hour) hi); [done|done| |done|lia|lia].
    eapply same_hours_sub; [| |apply Hsame]; pose proof hour_pos; lia.
  - intros m hi s1 Hhi Hlt Hle Hq Hs1. apply stepDown_sound; [done|done|]. intros h' Hal' Hin.
    pose proof (aligned_lt h' hi Hal' Hhi ltac:(lia)).
    apply (quiet_hour_rolled d (w_db w (2 * m)) _ lo hi); [done|done| |done|lia|lia].
    eapply same_hours_sub; [| |apply Hsame]; lia.
Qed.
End sessions.

(** ** How far a walk gets *)

(** The covered range of [s'] has not shrunk from [s]'s, but for hours below [e]. *)
Definition widens (e : Z) (s s' : rollups) : Prop :=
  ∀ p, ro_progress s = Some p →
  ∃ p', ro_progress s' = Some p' ∧ sp_To p ≤ sp_To p' ∧ sp_From p' ≤ Z.max e (sp_From p).
Lemma widens_refl e s : widens e s s.
Proof. intros p Hp. exists p. split; [done|lia]. Qed.
Lemma widens_trans e s1 s2 s3 : widens e s1 s2 → widens e s2 s3 → widens e s1 s3.
Proof.
  intros H1 H2 p Hp. destruct (H1 p Hp) as (p2 & Hp2 & ? & ?). destruct (H2 p2 Hp2) as (p3 & Hp3 & ? & ?).
  exists p3. split; [done|lia].
Qed.
Lemma step_widens e st s : widens e s (applyCoverageStep st s).
Proof.
  intros p Hp. unfold applyCoverageStep, with_progress. rewrite Hp. eexists. split; [done|]. unfold step_progress. cbn.
  split; [destruct (_ && _) eqn:E|destruct (_ && _) eqn:E]; lia.
Qed.
Lemma rollupHour_progress `{GoLib} `{RowOrder} d h rolledAt guard st s k s' :
  rollupHour d h rolledAt guard st s = Ok (k, s') → ro_progress s' = step_progress st <$> ro_progress s.
Proof. unfold rollupHour. cbv zeta. case_match; [done|]. by intros [= _ <-]. Qed.

Section reach.
Context `{GoLib} `{RowOrder} (w : world) (now : Z) (guard : bool) (budget e : Z).
Hypothesis Hothers : ∀ n s, widens e s (w_others w n s).

Definition up_to (x : Z) (s : rollups) : Prop := ∃ p, ro_progress s = Some p ∧ x ≤ sp_To p.
Definition down_to (x : Z) (s : rollups) : Prop := ∃ p, ro_progress s = Some p ∧ sp_From p ≤ x.
Lemma up_to_widens x s s' : up_to x s → widens e s s' → up_to x s'.
Proof. intros (p & Hp & ?) Hw. destruct (Hw p Hp) as (p' & Hp' & ? & ?). exists p'. split; [done|lia]. Qed.
Lemma down_to_widens x s s' : e ≤ x → down_to x s → widens e s s' → down_to x s'.
Proof. intros Hx (p & Hp & ?) Hw. destruct (Hw p Hp) as (p' & Hp' & ? & ?). exists p'. split; [done|lia]. Qed.
Lemma stepUp_reaches a b s p :
  ro_progress s = Some p → a ≤ sp_To p → b ≤ sp_To (step_progress (stepUp a b) p).
Proof. intros _ Ha. unfold step_progress. cbn. destruct (_ && _) eqn:E; lia. Qed.
Lemma stepDown_reaches a b p : sp_From p ≤ b → sp_From (step_progress (stepDown a b) p) ≤ a.
Proof. intros Ha. unfold step_progress. cbn. destruct (_ && _) eqn:E; lia. Qed.

Lemma rollForward_reaches fuel n hi acc s acc' n' s' :
  up_to (rw_reached acc) s → rollForward w now guard budget fuel n hi acc s = Some (acc', None, n', s') →
  widens e s s' ∧ (rw_done acc' = true → rw_done acc = false → up_to hi s').
Proof.
  revert n acc s. induction fuel as [|fuel IH]; intros n acc s Hup; cbn [rollForward]; [done|].
  destruct (Z.ltb_spec (rw_reached acc) hi) as [Hlt|Hge]; cbn [negb].
  2:{ intros [= <- <- <-]. split; [apply widens_refl|]. intros _ _. destruct Hup as (p & Hp & ?). exists p. split; [done|lia]. }
  destruct (spent budget acc); [intros [= <- <- <-]; split; [apply widens_refl|congruence]|].
  destruct (w_cancelled w n); [done|]. pose proof (up_to_widens _ _ _ Hup (Hothers n s)) as Hup0.
  assert (widens e s (markCovered (stepUp (rw_reached acc) hi) (w_others w n s)) ∧
          up_to hi (markCovered (stepUp (rw_reached acc) hi) (w_others w n s))) as Hmark.
  { split; [eapply widens_trans; [apply Hothers|apply step_widens]|].
    destruct Hup0 as (p & Hp & Hle). exists (step_progress (stepUp (rw_reached acc) hi) p).
    split; [cbn; by rewrite Hp|by eapply stepUp_reaches]. }
  destruct (nextActivityAt _ _ _) as [next|]; [destruct (floorHour next <? hi)|].
  - destruct (rollupHour _ _ _ _ _ _) as [[k s1]|e1] eqn:Er; [|done]. apply rollupHour_progress in Er.
    assert (widens e (w_others w n s) s1) as Hw1.
    { intros p Hp. destruct (step_widens e (stepUp (rw_reached acc) (floorHour next + hour)) _ p Hp) as (p' & Hp' & ?).
      exists p'. split; [|done]. rewrite Er. exact Hp'. }
    intros Hr. apply IH in Hr as [Hw Hd].
    + split; [|intros ? _; by apply Hd]. eapply widens_trans; [apply Hothers|]. by eapply widens_trans.
    + destruct Hup0 as (p & Hp & Hle). exists (step_progress (stepUp (rw_reached acc) (floorHour next + hour)) p).
      split; [by rewrite Er, Hp|by eapply stepUp_reaches].
  - intros [= <- <- <-]. destruct Hmark. auto.
  - intros [= <- <- <-]. destruct Hmark. auto.
Qed.
Lemma rollBackward_reaches fuel n lo acc s acc' n' s' :
  e ≤ lo → down_to (rw_reached acc) s →
  rollBackward w now guard budget fuel n lo acc s = Some (acc', None, n', s') →
  widens e s s' ∧ (rw_done acc' = true → rw_done acc = false → down_to lo s').
Proof.
  intros He. revert n acc s. induction fuel as [|fuel IH]; intros n acc s Hdown; cbn [rollBackward]; [done|].
  destruct (Z.ltb_spec lo (rw_reached acc)) as [Hlt|Hge]; cbn [negb].
  2:{ intros [= <- <- <-]. split; [apply widens_refl|]. intros _ _. destruct Hdown as (p & Hp & ?). exists p. split; [done|lia]. }
  destruct (spent budget acc); [intros [= <- <- <-]; split; [apply widens_refl|congruence]|].
  destruct (w_cancelled w n); [done|]. pose proof (down_to_widens (rw_reached acc) _ _ ltac:(lia) Hdown (Hothers n s)) as Hdown0.
  destruct (prevActivityAt _ _ _) as [prev|].
  - destruct (rollupHour _ _ _ _ _ _) as [[k s1]|e1] eqn:Er; [|done]. apply rollupHour_progress in Er.
    assert (widens e (w_others w n s) s1) as Hw1.
    { intros p Hp. destruct (step_widens e (stepDown (floorHour prev) (rw_reached acc)) _ p Hp) as (p' & Hp' & ?).
      exists p'. split; [|done]. rewrite Er. exact Hp'. }
    intros Hr. apply IH in Hr as [Hw Hd].
    + split; [|intros ? _; by apply Hd]. eapply widens_trans; [apply Hothers|]. by eapply widens_trans.
    + destruct Hdown0 as (p & Hp & Hle). exists (step_progress (stepDown (floorHour prev) (rw_reached acc)) p).
      split; [by rewrite Er, Hp|by apply stepDown_reaches].
  - intros [= <- <- <-]. split; [eapply widens_trans; [apply Hothers|apply step_widens]|]. intros _ _.
    destruct Hdown0 as (p & Hp & Hle). exists (step_progress (stepDown lo (rw_reached acc)) p).
    split; [cbn; by rewrite Hp|by apply stepDown_reaches].
Qed.

(** A walk rolls at most its budget. *)
Lemma rollForward_budget fuel n hi acc s acc' er n' s' :
  0 < budget → Z.of_nat (length (rw_rolled acc)) ≤ budget →
  rollForward w now guard budget fuel n hi acc s = Some (acc', er, n', s') →
  Z.of_nat (length (rw_rolled acc')) ≤ budget.
Proof.
  intros Hb. revert n acc s. induction fuel as [|fuel IH]; intros n acc s Hl; cbn [rollForward]; [done|].
  destruct (_ <? _); cbn [negb]; [|by intros [= <- <- <- <-]].
  destruct (spent budget acc) eqn:Es; [by intros [= <- <- <- <-]|]. destruct (w_cancelled w n); [by intros [= <- <- <- <-]|].
  unfold spent in Es. destruct (nextActivityAt _ _ _); [case_match|]; [|by intros [= <- <- <- <-]..].
  destruct (rollupHour _ _ _ _ _ _) as [[k s1]|e1]; [|by intros [= <- <- <- <-]].
  apply IH. cbn [walk_step rw_rolled]. rewrite length_app. simpl. lia.
Qed.
Lemma rollBackward_budget fuel n lo acc s acc' er n' s' :
  0 < budget → Z.of_nat (length (rw_rolled acc)) ≤ budget →
  rollBackward w now guard budget fuel n lo acc s = Some (acc', er, n', s') →
  Z.of_nat (length (rw_rolled acc')) ≤ budget.
Proof.
  intros Hb. revert n acc s. induction fuel as [|fuel IH]; intros n acc s Hl; cbn [rollBackward]; [done|].
  destruct (_ <? _); cbn [negb]; [|by intros [= <- <- <- <-]].
  destruct (spent budget acc) eqn:Es; [by intros [= <- <- <- <-]|]. destruct (w_cancelled w n); [by intros [= <- <- <- <-]|].
  unfold spent in Es. destruct (prevActivityAt _ _ _); [|by intros [= <- <- <- <-]].
  destruct (rollupHour _ _ _ _ _ _) as [[k s1]|e1]; [|by intros [= <- <- <- <-]].
  apply IH. cbn [walk_step rw_rolled]. rewrite length_app. simpl. lia.
Qed.
End reach.
