(* ===== verification/RollupPass.v ===== *)
(** * A rollup pass and a rebuild, whole *)

From S2P Require Import Prelude Types Text Json Fingerprint Store Plan Sweep Retention Ids Hist Maintenance Rollup RollupFacts RollupWindows GroupFacts RollupHours RollupWalks.

Local Open Scope Z_scope.

(** ** The floor and the prune *)

Lemma zero_time_aligned : aligned zero_time.
Proof. by exists (-17259888). Qed.
(** No hour below [e] is covered. *)
Definition kept_from (e : Z) (s : rollups) : Prop := ∀ p, ro_progress s = Some p → e ≤ sp_From p.

Section floor.
Context `{GoLib}.

Lemma progress_edges d s :
  sound d s → aligned (sp_From (default zero_progress (ro_progress s))) ∧
              aligned (sp_To (default zero_progress (ro_progress s))).
Proof.
  intros Hs. destruct (ro_progress s) as [p|] eqn:Ep; [by apply (sound_edges d s Hs)|].
  split; apply zero_time_aligned.
Qed.

Lemma ensure_sound d s h : sound d s → aligned h → sound d (ensureStatsProgress h s).
Proof.
  intros Hs Ha. unfold ensureStatsProgress. destruct (ro_progress s) as [p|] eqn:Ep; [done|]. split; cbn.
  - by intros p [= <-].
  - intros p h' [= <-] _ Hin. cbn in Hin. lia.
  - apply (sound_stored d s Hs).
  - apply (sound_grouped d s Hs).
Qed.
Lemma ensure_present h s : is_Some (ro_progress (ensureStatsProgress h s)).
Proof. unfold ensureStatsProgress. destruct (ro_progress s) eqn:E; [by rewrite E|done]. Qed.

Lemma raise_floor_edges e p :
  sp_From (raise_floor e p) = Z.max (sp_From p) e ∧ sp_To (raise_floor e p) = Z.max (sp_To p) e.
Proof. unfold raise_floor. destruct (_ || _ || _) eqn:E; [done|]. rewrite !orb_false_iff, negb_false_iff in E. lia. Qed.
Lemma raise_floor_sound d s e :
  sound d s → aligned e → sound d (with_progress (raise_floor e <$> ro_progress s) s) ∧
                           kept_from e (with_progress (raise_floor e <$> ro_progress s) s).
Proof.
  intros Hs He. split.
  - split; cbn; [| |apply (sound_stored d s Hs)|apply (sound_grouped d s Hs)].
    + intros q (p & Hp & ->)%fmap_Some. destruct (raise_floor_edges e p) as [-> ->].
      destruct (sound_edges d s Hs p Hp). split; [destruct (Z.max_spec (sp_From p) e) as [[_ ->]|[_ ->]]|
        destruct (Z.max_spec (sp_To p) e) as [[_ ->]|[_ ->]]]; done.
    + intros q h (p & Hp & ->)%fmap_Some Ha. destruct (raise_floor_edges e p) as [-> ->]. intros Hin.
      apply (sound_hours d s Hs p h Hp Ha). lia.
  - intros q (p & Hp & ->)%fmap_Some. destruct (raise_floor_edges e p) as [-> _]. lia.
Qed.

(** A prune keeps the rows from [e] on. *)
Lemma prune_lookup {A} (e : Z) (t : gmap (Z * (string * string)) A) (h : Z) (k : string * string) :
  e ≤ h → (prune_before e t).1 !! (h, k) = t !! (h, k).
Proof.
  intros Hh. cbn. destruct (t !! (h, k)) as [r|] eqn:Er.
  - apply map_lookup_filter_Some. split; [done|]. simpl. lia.
  - apply map_lookup_filter_None. by left.
Qed.
Lemma prune_kept {A} (e : Z) (t : gmap (Z * (string * string)) A) (h : Z) (k : string * string) (r : A) :
  (prune_before e t).1 !! (h, k) = Some r → t !! (h, k) = Some r ∧ e ≤ h.
Proof. intros [Hr Hh]%map_lookup_filter_Some. simpl in Hh. split; [done|lia]. Qed.

Lemma prune_hours_sound d s e k s' : sound d s → kept_from e s → prune_hours e s = (k, s') → sound d s' ∧ kept_from e s'.
Proof.
  intros Hs Hab. unfold prune_hours. destruct (prune_before e (ro_hourly s)) as [kept n] eqn:Ek. intros [= _ <-]. split; [|done].
  assert (∀ h, e ≤ h → rows_rolled d s h → rows_rolled d {| ro_hourly := kept; ro_groups := ro_groups s;
    ro_progress := ro_progress s |} h) as Hkeep.
  { intros h Hh [at_ Hat]. exists at_. intros g. rewrite <-Hat. cbn. rewrite <-(prune_lookup e (ro_hourly s)) by done. by rewrite Ek. }
  split; cbn.
  - apply (sound_edges d s Hs).
  - intros p h Hp Ha Hin. specialize (Hab p Hp). destruct (sound_hours d s Hs p h Hp Ha Hin). split; [apply Hkeep; [lia|done]|done].
  - intros h g r Hr. destruct (prune_kept e (ro_hourly s) h g r) as [Hr' Hh]; [by rewrite Ek|].
    destruct (sound_stored d s Hs h g r Hr'). split; [done|]. by apply Hkeep.
  - apply (sound_grouped d s Hs).
Qed.
Lemma prune_groups_sound d s e k s' : sound d s → kept_from e s → prune_groups e s = (k, s') → sound d s'.
Proof.
  intros Hs Hab. unfold prune_groups. destruct (prune_before e (ro_groups s)) as [kept n] eqn:Ek. intros [= _ <-].
  assert (∀ h, e ≤ h → groups_rolled d s h → groups_rolled d {| ro_hourly := ro_hourly s; ro_groups := kept;
    ro_progress := ro_progress s |} h) as Hkeep.
  { intros h Hh Hg x. specialize (Hg x). cbn. replace (kept !! (h, x)) with (ro_groups s !! (h, x)); [done|].
    rewrite <-(prune_lookup e (ro_groups s)) by done. by rewrite Ek. }
  split; cbn.
  - apply (sound_edges d s Hs).
  - intros p h Hp Ha Hin. specialize (Hab p Hp). destruct (sound_hours d s Hs p h Hp Ha Hin). split; [done|apply Hkeep; [lia|done]].
  - apply (sound_stored d s Hs).
  - intros h x r Hr. destruct (prune_kept e (ro_groups s) h x r) as [Hr' Hh]; [by rewrite Ek|].
    destruct (sound_grouped d s Hs h x r Hr'). split; [done|]. by apply Hkeep.
Qed.
End floor.

Section pass.
Context `{GoLib} `{RowOrder} (w : world) (d : db).
Hypothesis Hreg : ∀ n, regular (w_db w n).
Hypothesis Hothers : ∀ n s, sound d s → sound d (w_others w n s).

Lemma advance_sound n e s p n1 s1 :
  sound d s → aligned e → advanceStatsFloor w n e s = (p, n1, s1) →
  sound d s1 ∧ aligned (sp_From p) ∧ aligned (sp_To p) ∧ p = default zero_progress (ro_progress s1).
Proof.
  intros Hs He. unfold advanceStatsFloor. cbv zeta. pose proof (Hothers n s Hs) as H0s.
  assert (∀ s', sound d s' → sound d (w_others w (n + 3) (with_progress
    (raise_floor e <$> ro_progress (w_others w (n + 2) s')) (w_others w (n + 2) s')))) as Hup.
  { intros s' Hs'. apply Hothers, raise_floor_sound; [by apply Hothers|done]. }
  destruct (ro_progress (w_others w n s)) as [q|] eqn:Eq; [destruct (floor_current e q)|].
  - intros [= <- <- <-]. destruct (sound_edges d _ H0s q Eq). by rewrite Eq.
  - intros [= <- <- <-]. pose proof (Hup _ H0s) as Hx. destruct (progress_edges d _ Hx). done.
  - intros [= <- <- <-]. pose proof (Hup _ (ensure_sound d _ e (Hothers (n + 1) _ H0s) He)) as Hx.
    destruct (progress_edges d _ Hx). done.
Qed.

(** Other sessions may extend the range, but not below the boundary this pass prunes to. *)
Definition kept_above (e : Z) : Prop := ∀ n s, kept_from e s → kept_from e (w_others w n s).

Lemma advance_above n e s p n1 s1 : kept_above e → advanceStatsFloor w n e s = (p, n1, s1) → kept_from e s1.
Proof.
  intros Hab. unfold advanceStatsFloor. cbv zeta.
  assert (∀ s', kept_from e (with_progress (raise_floor e <$> ro_progress s') s')) as Hr.
  { intros s' q (p' & Hp & ->)%fmap_Some. destruct (raise_floor_edges e p') as [-> _]. lia. }
  destruct (ro_progress (w_others w n s)) as [q|] eqn:Eq; [destruct (floor_current e q) eqn:Ef|].
  - intros [= _ <- <-] p' Hp'. rewrite Eq in Hp'. injection Hp' as <-. unfold floor_current in Ef. lia.
  - intros [= _ <- <-]. apply Hab, Hr.
  - intros [= _ <- <-]. apply Hab, Hr.
Qed.
Lemma step_above e st s :
  kept_from e s → cs_downFrom st = zero_time ∧ cs_downTo st = zero_time ∨ e ≤ cs_downFrom st →
  kept_from e (applyCoverageStep st s).
Proof.
  intros Hab Hst q. unfold applyCoverageStep. cbn. intros (p & Hp & ->)%fmap_Some. specialize (Hab p Hp).
  unfold step_progress. cbn. destruct (_ && _) eqn:E; [|done]. destruct Hst as [[H1 H2]|]; lia.
Qed.
Lemma rollupHour_above e d' h rolledAt guard st s k s' :
  kept_from e s → rollupHour d' h rolledAt guard st s = Ok (k, s') →
  cs_downFrom st = zero_time ∧ cs_downTo st = zero_time ∨ e ≤ cs_downFrom st → kept_from e s'.
Proof.
  intros Hab Hr Hst. apply rollupHour_progress in Hr. pose proof (step_above e st s Hab Hst) as Hx.
  intros p Hp. apply Hx. cbn. by rewrite <-Hr.
Qed.

Lemma pass_earliest_aligned now cfg : aligned (pass_earliest now cfg) ∧ aligned (floorHour (now - rc_grace cfg)).
Proof. unfold pass_earliest. split; [case_match|]; apply floorHour_spec. Qed.

(** A walk of the pass: what it leaves is sound, and above the boundary. *)
Lemma forward_keeps now budget e fuel n hi acc s acc' er n' s' :
  kept_above e → aligned (rw_reached acc) → aligned hi → (∀ n, same_hours (rw_reached acc) hi d (w_db w n)) →
  sound d s → kept_from e s → rollForward w now false budget fuel n hi acc s = Some (acc', er, n', s') →
  sound d s' ∧ kept_from e s'.
Proof.
  intros Hk Ha Hh Hsame Hs Hab Hr. split; [by eapply (rollForward_sound w now false d Hreg Hothers)|].
  eapply (rollForward_inv w now false (world_shaped w Hreg) (rw_reached acc) hi budget (kept_from e)) in Hr as [Hr _];
    [exact Hr|done|exact Hk| | |done|lia|done].
  - intros. eapply rollupHour_above; [done|done|by left].
  - intros. apply step_above; [done|by left].
Qed.
Lemma backward_keeps now budget e fuel n acc s acc' er n' s' :
  kept_above e → aligned (rw_reached acc) → aligned e → (∀ n, same_hours e (rw_reached acc) d (w_db w n)) →
  sound d s → kept_from e s → rollBackward w now false budget fuel n e acc s = Some (acc', er, n', s') →
  sound d s' ∧ kept_from e s'.
Proof.
  intros Hk Ha Hh Hsame Hs Hab Hr. split; [by eapply (rollBackward_sound w now false d Hreg Hothers)|].
  eapply (rollBackward_inv w now false (world_shaped w Hreg) e (rw_reached acc) budget (kept_from e)) in Hr as [Hr _];
    [exact Hr|done|exact Hk| | |done|lia|done].
  - intros. eapply rollupHour_above; [done|done|right; cbn; lia].
  - intros. apply step_above; [done|right; cbn; lia].
Qed.

(** The hours a pass has yet to roll read the same all through it. *)
Definition unrolled_intact (n : nat) (now : Z) (cfg : rollupConfig) (s : rollups) : Prop :=
  let p := (advanceStatsFloor w n (pass_earliest now cfg) s).1.1 in
  ∀ m, same_hours (sp_To p) (floorHour (now - rc_grace cfg)) d (w_db w m) ∧
       same_hours (pass_earliest now cfg) (sp_From p) d (w_db w m).


(** A pass ends. Each hour it rolls moves it on, so a pass over any history, with
    any other sessions at work, stops after at most its stretch's hours. *)
Theorem pass_ends now cfg n s :
  sound d s → ∃ fuel0, ∀ fuel, (fuel0 ≤ fuel)%nat → rollupPass fuel w now cfg n s ≠ None.
Proof.
  intros Hs. destruct (pass_earliest_aligned now cfg) as [He Hc]. unfold rollupPass. cbv zeta.
  set (e := pass_earliest now cfg) in *. set (c := floorHour (now - rc_grace cfg)) in *.
  destruct (advanceStatsFloor w n e s) as [[p n1] s1] eqn:Ea.
  destruct (advance_sound _ _ _ _ _ _ Hs He Ea) as (_ & Hpf & Hpt & _).
  exists (S (Z.to_nat (Z.max (c - sp_To p) (sp_From p - e)))). intros [|fuel] Hfuel; [lia|].
  assert (∀ x, x ≤ Z.of_nat fuel → x ≤ Z.of_nat fuel * hour) as Hh by (intros x Hx; pose proof hour_pos; nia).
  pose proof (rollForward_ends w now false (rc_maxHours cfg) fuel n1 c (walk_from (sp_To p)) s1 Hpt) as Hf.
  specialize (Hf ltac:(cbn; apply Hh; lia)).
  destruct (rollForward _ _ _ _ _ _ _ _ _) as [[[[fwd ef] n2] s2]|]; [|done]. destruct ef; [done|].
  assert (pass_backward (S fuel) w now cfg e p fwd n2 s2 ≠ None) as Hb.
  { unfold pass_backward. case_match; [|done].
    apply (rollBackward_ends w now false (world_shaped w Hreg)); [done|exact Hpf|cbn; apply Hh; lia]. }
  destruct (pass_backward _ _ _ _ _ _ _ _ _) as [[[[b eb] n3] s3]|]; [|done]. destruct eb; [done|].
  by destruct (prune_hours _ _), (prune_groups _ _).
Qed.
End pass.

(** ** What a finished pass covers *)

Section covers.
Context `{GoLib} `{RowOrder} (w : world).

Lemma advance_progress n e s p n1 s1 :
  (∀ n s, widens e s (w_others w n s)) → advanceStatsFloor w n e s = (p, n1, s1) → ro_progress s1 = Some p.
Proof.
  intros Hw. unfold advanceStatsFloor. cbv zeta.
  assert (∀ s', is_Some (ro_progress s') → is_Some (ro_progress (w_others w (n + 3)
    (with_progress (raise_floor e <$> ro_progress (w_others w (n + 2) s')) (w_others w (n + 2) s'))))) as Hup.
  { intros s' [q Hq]. destruct (Hw (n + 2)%nat s' q Hq) as (q2 & Hq2 & _). rewrite Hq2.
    edestruct (Hw (n + 3)%nat) as (q3 & Hq3 & _); [|by exists q3]. done. }
  destruct (ro_progress (w_others w n s)) as [q|] eqn:Eq; [destruct (floor_current e q)|].
  - intros [= <- <- <-]. done.
  - intros [= <- <- <-]. destruct (Hup (w_others w n s)) as [q3 ->]; [by rewrite Eq|done].
  - intros [= <- <- <-]. edestruct Hup as [q3 ->]; [apply ensure_present|done].
Qed.

Lemma pass_backward_reports fuel now cfg e p fwd n s b n3 s3 :
  (∀ n s, widens e s (w_others w n s)) → down_to (Z.max e (sp_From p)) s →
  pass_backward fuel w now cfg e p fwd n s = Some (b, None, n3, s3) →
  widens e s s3 ∧ (rw_done b = true → down_to e s3) ∧
  (0 < rc_maxHours cfg → Z.of_nat (length (rw_rolled fwd)) ≤ rc_maxHours cfg →
   Z.of_nat (length (rw_rolled b)) ≤ rc_maxHours cfg - Z.of_nat (length (rw_rolled fwd))).
Proof.
  intros Hw Hd. unfold pass_backward. destruct (_ && _) eqn:Eb.
  - apply andb_true_iff in Eb as [_ Eb]. apply Z.ltb_lt in Eb. intros Er.
    pose proof (rollBackward_budget w now false _ _ _ _ (walk_from (sp_From p)) _ _ _ _ _ Eb ltac:(cbn; lia) Er) as Hbud.
    destruct (Z.le_gt_cases e (sp_From p)).
    + rewrite Z.max_r in Hd by done.
      destruct (rollBackward_reaches w now false _ e Hw _ _ e (walk_from (sp_From p)) _ _ _ _ ltac:(lia) Hd Er) as [Hw3 Hd3].
      split; [done|]. split; [|done]. intros Hb. by apply Hd3.
    + destruct fuel as [|fuel']; [done|]. cbn [rollBackward walk_from rw_reached] in Er.
      assert ((e <? sp_From p) = false) as Hlt by lia. rewrite Hlt in Er. cbn [negb] in Er.
      injection Er as <- <- <-. split; [apply widens_refl|]. split; [|done]. intros _. by rewrite Z.max_l in Hd by lia.
  - intros [= <- <- <-]. split; [apply widens_refl|]. split; [|destruct (e <? sp_From p); cbn; lia].
    destruct (Z.ltb_spec e (sp_From p)); [done|]. intros _. by rewrite Z.max_l in Hd by lia.
Qed.

(** A pass that reports it caught up has: with other sessions only widening the
    range, every hour from the retention boundary to the last closed one is
    covered when it ends, and it says so. However it ends, it rolled at most the
    hours its ceiling allows. *)
Theorem pass_reports fuel now cfg n s r s' :
  (∀ n s, widens (pass_earliest now cfg) s (w_others w n s)) →
  rollupPass fuel w now cfg n s = Some (r, None, s') →
  (0 < rc_maxHours cfg → rs_Hours r ≤ rc_maxHours cfg) ∧ rs_Hours r = Z.of_nat (length (rs_Rolled r)) ∧
  (rs_CaughtUp r = true →
   (∃ q, ro_progress s' = Some q ∧ sp_From q ≤ pass_earliest now cfg ∧ floorHour (now - rc_grace cfg) ≤ sp_To q) ∧
   rs_RolledFrom r ≤ pass_earliest now cfg ∧ floorHour (now - rc_grace cfg) ≤ rs_Watermark r).
Proof.
  intros Hw. unfold rollupPass. cbv zeta.
  set (e := pass_earliest now cfg) in *. set (c := floorHour (now - rc_grace cfg)) in *.
  destruct (advanceStatsFloor w n e s) as [[p n1] s1] eqn:Ea. pose proof (advance_progress _ _ _ _ _ _ Hw Ea) as Hp.
  destruct (rollForward _ _ _ _ _ _ _ _ _) as [[[[fwd ef] n2] s2]|] eqn:Ef; [|done]. destruct ef; [done|].
  assert (up_to (rw_reached (walk_from (sp_To p))) s1) as Hup by (exists p; cbn; split; [done|lia]).
  destruct (rollForward_reaches w now false (rc_maxHours cfg) e Hw _ _ _ _ _ _ _ _ Hup Ef) as [Hw2 Hf].
  destruct (Hw2 p Hp) as (p2 & Hp2 & _ & Hfrom2).
  destruct (pass_backward _ _ _ _ _ _ _ _ _) as [[[[b eb] n3] s3]|] eqn:Eb; [|done]. destruct eb; [done|].
  destruct (pass_backward_reports _ _ _ _ _ _ _ _ _ _ _ Hw (ex_intro _ p2 (conj Hp2 Hfrom2)) Eb) as (Hw3 & Hd3 & Hb3).
  destruct (prune_hours e _) as [ph s5] eqn:Eh. destruct (prune_groups e _) as [pg s6] eqn:Eg. intros [= <- <-].
  cbn [rs_Hours rs_Rolled rs_CaughtUp rs_RolledFrom rs_Watermark]. split; [|split; [done|]].
  - intros Hm. rewrite length_app, length_reverse.
    pose proof (rollForward_budget w now false (rc_maxHours cfg) _ _ _ (walk_from (sp_To p)) _ _ _ _ _ Hm ltac:(cbn; lia) Ef) as Hbf.
    specialize (Hb3 Hm Hbf). lia.
  - intros [Hdf Hdb]%andb_true_iff. specialize (Hf Hdf eq_refl). specialize (Hd3 Hdb).
    pose proof (up_to_widens e _ _ _ Hf Hw3) as Hu3.
    assert (∀ s4, widens e s3 s4 → ∃ q, ro_progress s4 = Some q ∧ sp_From q ≤ e ∧ c ≤ sp_To q) as Hq.
    { intros s4 Hw4. destruct (up_to_widens e _ _ _ Hu3 Hw4) as (q & Hq & ?).
      destruct (down_to_widens e e _ _ ltac:(lia) Hd3 Hw4) as (q' & Hq' & ?).
      rewrite Hq in Hq'. injection Hq' as <-. eauto. }
    split.
    + assert (ro_progress s6 = ro_progress (w_others w (n3 + 2) s5) ∧
              ro_progress s5 = ro_progress (w_others w (n3 + 1) (w_others w n3 s3))) as [E6 E5].
      { unfold prune_hours, prune_groups in *. destruct (prune_before e (ro_hourly _)), (prune_before e (ro_groups _)).
        by injection Eh as _ <-; injection Eg as _ <-. }
      rewrite E6. apply Hq. eapply widens_trans; [|apply Hw]. intros q Hq0. rewrite E5.
      by apply (widens_trans e _ _ _ (Hw n3 s3) (Hw (n3 + 1)%nat _)).
    + destruct (Hq (w_others w n3 s3) (Hw n3 s3)) as (q & -> & ?). done.
Qed.
End covers.
