(* ===== verification/RollupRebuild.v ===== *)
(** * A rebuild: RebuildStats keeps coverage true, ends, and without Force never shrinks an hour *)

From S2P Require Import Prelude Types Text Json Fingerprint Store Plan Sweep Retention Ids Hist Maintenance Rollup RollupFacts RollupWindows GroupFacts RollupHours RollupWalks RollupPass.

Local Open Scope Z_scope.

Lemma hours_from_elem from to h : aligned from → h ∈ hours_from from to → aligned h ∧ from ≤ h < to.
Proof.
  unfold hours_from. rewrite list_elem_of_fmap. intros [k ->] (i & -> & Hi%elem_of_seq). pose proof hour_pos.
  split; [exists (k + Z.of_nat i); lia|]. destruct Hi as [_ Hi]. cbn in Hi.
  assert (Z.of_nat i < (to - k * hour + hour - 1) / hour) as Hlt by lia.
  pose proof (Z.mul_div_le (to - k * hour + hour - 1) hour ltac:(lia)). nia.
Qed.

Section rebuild.
Context `{GoLib} `{RowOrder} (w : world).

(** ** The counts of a stored hour *)

Definition totals_le (s s' : rollups) : Prop :=
  ∀ h, (stored_total h s).1 ≤ (stored_total h s').1 ∧ (stored_total h s).2 ≤ (stored_total h s').2.
Lemma totals_refl s : totals_le s s.
Proof. intros h. lia. Qed.
Lemma totals_trans s1 s2 s3 : totals_le s1 s2 → totals_le s2 s3 → totals_le s1 s3.
Proof. intros H1 H2 h. specialize (H1 h). specialize (H2 h). lia. Qed.

(** What a recompute counts is what its total row will store. *)
Lemma sum_counts_fold (l : list (statsGroup * runAgg)) t :
  foldl (λ acc a, (add64 acc.1 (add64 (ag_Attempts a) (ag_Superseded a)), add64 acc.2 (ag_Enqueued a)))
    (add64 (ag_Attempts t) (ag_Superseded t), ag_Enqueued t) l.*2 =
  let t' := foldl (λ t ga, agg_merge t ga.2) t l in (add64 (ag_Attempts t') (ag_Superseded t'), ag_Enqueued t').
Proof.
  revert t. induction l as [|[g a] l IH]; intros t; csimpl; [done|]. rewrite <-IH. cbn. do 2 f_equal.
  unfold add64. rewrite !wrap64_add. f_equal. lia.
Qed.
Lemma sum_counts_total (m : gmap statsGroup runAgg) :
  sum_counts m = let t := hour_total (scan (map_to_list m)) in (add64 (ag_Attempts t) (ag_Superseded t), ag_Enqueued t).
Proof. exact (sum_counts_fold (scan (map_to_list m)) (newRunAgg statsTotalKey statsTotalKey)). Qed.

Lemma count_split l : Z.of_nat (length l) ≤ int64_max →
  count_of is_counted l + count_of (λ v, negb (is_counted v)) l = Z.of_nat (length l) ∧ in_int64 (Z.of_nat (length l)).
Proof.
  intros Hl. assert (∀ b : runView → bool, 0 ≤ sum_of (λ v, one_if (b v)) l ≤ Z.of_nat (length l)) as Hb.
  { intros b. apply sum_of_bounds. intros v. destruct (b v); simpl; lia. }
  assert (in_int64 (Z.of_nat (length l))) as Hin by (unfold in_int64, int64_min in *; lia). split; [|done].
  unfold count_of. rewrite !wrap64_id by (unfold in_int64, int64_min in *; pose proof (Hb is_counted);
    pose proof (Hb (λ v, negb (is_counted v))); lia).
  clear. induction l as [|v l IH]; [done|]. unfold sum_of in *. cbn [foldr length]. destruct (is_counted v); simpl; lia.
Qed.

(** The runs and inserts of an hour, as its total row counts them. *)
Definition hour_size (d : db) (h : Z) : Z * Z :=
  (Z.of_nat (length (finished_in d h (h + hour))), wrap64 (Z.of_nat (length (inserted_in d h (h + hour))))).
Lemma sum_counts_hour d h :
  regular d → sum_counts (wa_runs (aggregateWindow d h (h + hour) no_filter)) = hour_size d h.
Proof.
  intros Hd. pose proof (runs_in_fits no_filter d h (h + hour) Hd) as Hf.
  pose proof (aggregateRuns_spec d h (h + hour) no_filter ltac:(pose proof hour_pos; lia) Hf) as Hrep.
  rewrite runs_in_all, jobs_in_all in Hrep. rewrite runs_in_all in Hf. unfold aggregateRuns in Hrep.
  rewrite sum_counts_total. unfold hour_total.
  rewrite (merge_all_spec _ _ _ _ _ Hrep) by by rewrite tag_runs_snd. rewrite tag_runs_snd. cbv zeta.
  unfold tag_jobs. rewrite length_fmap. agg_fields. destruct (count_split (finished_in d h (h + hour))) as [Hc Hin]; [apply Hf|].
  unfold add64. by rewrite Hc, wrap64_id.
Qed.
Lemma rolled_total d s h : regular d → rows_rolled d s h → stored_total h s = hour_size d h.
Proof.
  intros Hd (at_ & Hr). unfold stored_total, hour_size. rewrite Hr. unfold hour_entry.
  pose proof (finished_in_fits d h (h + hour) Hd) as Hf.
  set (R := finished_in d h (h + hour)) in *. set (J := inserted_in d h (h + hour)) in *.
  assert (∀ A (l : list (statsGroup * A)), all_named l → with_tag (statsTotalKey, statsTotalKey) (hour_tags l) = l.*2) as Hw.
  { intros A l Hn. unfold hour_tags. rewrite !with_tag_app, with_total.
    unfold all_named in Hn. rewrite Forall_forall in Hn.
    rewrite (with_tag_nil _ l), (with_tag_nil _ (retag kind_key l)); [done|..].
    - intros x (y & Hy & ->)%retag_elem. destruct (Hn y Hy). by intros [= ?].
    - intros x Hx He. destruct (Hn x Hx) as [Hx1 _]. by rewrite He in Hx1. }
  unfold tagged. rewrite !Hw by (by apply finished_in_named || by apply inserted_in_named).
  rewrite tag_runs_snd, tag_jobs_snd. destruct (count_split R) as [Hc Hin]; [apply Hf|].
  agg_fields. destruct (bool_decide (R = []) && bool_decide (J = [])) eqn:E.
  - apply andb_true_iff in E as [E1%bool_decide_eq_true E2%bool_decide_eq_true]. by rewrite E1, E2.
  - simpl. f_equal. by rewrite Hc.
Qed.
Lemma rollupHour_stores d h rolledAt guard st s k s' :
  regular d → rollupHour d h rolledAt guard st s = Ok (k, s') →
  stored_total h s' = sum_counts (wa_runs (aggregateWindow d h (h + hour) no_filter)).
Proof.
  intros Hd Hr. rewrite sum_counts_hour by done. apply rolled_total; [done|]. exists rolledAt.
  apply (rollupHour_spec d h rolledAt guard st s k s' Hd Hr).
Qed.

(** A guarded replace keeps every count. *)
Lemma guarded_keeps d h rolledAt st s k s' :
  regular d → rollupHour d h rolledAt true st s = Ok (k, s') → totals_le s s'.
Proof.
  intros Hd Hr h'. destruct (decide (h' = h)) as [->|Hne].
  - rewrite (rollupHour_stores d h rolledAt true st s k s' Hd Hr). unfold rollupHour in Hr. cbv zeta in Hr.
    unfold refuseShrink in Hr. destruct (sum_counts _) as [rn en], (stored_total h s) as [sr se]. cbn in Hr.
    destruct (_ || _) eqn:E; [done|]. cbn. lia.
  - pose proof (rollupHour_spec d h rolledAt true st s k s' Hd Hr) as (_ & H2 & _).
    unfold stored_total. by rewrite H2.
Qed.

(** ** Invariants of every statement *)

Section any.
Context (now : Z) (guard : bool) (I : rollups → Prop).
Hypothesis Iothers : ∀ n s, I s → I (w_others w n s).
Hypothesis Iensure : ∀ h s, I s → I (ensureStatsProgress h s).
Hypothesis Imark : ∀ st s, I s → I (markCovered st s).
Hypothesis Iroll : ∀ n h st s k s', I s → rollupHour (w_db w n) h now guard st s = Ok (k, s') → I s'.

Lemma rollForward_any budget fuel n hi acc s acc' e n' s' :
  I s → rollForward w now guard budget fuel n hi acc s = Some (acc', e, n', s') → I s'.
Proof.
  revert n acc s. induction fuel as [|fuel IH]; intros n acc s Hs; cbn [rollForward]; [done|].
  do 3 (case_match; [by intros [= <- <- <- <-]|]). case_match; [case_match|]; [|by intros [= _ _ _ <-]; auto..].
  destruct (rollupHour _ _ _ _ _ _) as [[k s1]|e1] eqn:Er; [|intros [= _ _ _ <-]; auto].
  apply IH. eapply Iroll; [|exact Er]. auto.
Qed.
Lemma rollBackward_any budget fuel n lo acc s acc' e n' s' :
  I s → rollBackward w now guard budget fuel n lo acc s = Some (acc', e, n', s') → I s'.
Proof.
  revert n acc s. induction fuel as [|fuel IH]; intros n acc s Hs; cbn [rollBackward]; [done|].
  do 3 (case_match; [by intros [= <- <- <- <-]|]). case_match; [|by intros [= _ _ _ <-]; auto].
  destruct (rollupHour _ _ _ _ _ _) as [[k s1]|e1] eqn:Er; [|intros [= _ _ _ <-]; auto].
  apply IH. eapply Iroll; [|exact Er]. auto.
Qed.
Lemma rebuild_each_any step l n r s r' e n' s' :
  I s → rebuild_each w now guard step l n r s = (r', e, n', s') → I s'.
Proof.
  apply (rebuild_each_inv w now guard step l I Iothers); [|done].
  intros m h s1 k s2 _ Hs1 Hr. by eapply Iroll.
Qed.
Lemma rebuildRange_any fuel from end_ n r s r' e n' s' :
  I s → rebuildRange fuel w from end_ now guard n r s = Some (r', e, n', s') → I s'.
Proof.
  intros Hs. unfold rebuildRange. cbv zeta.
  assert (I (w_others w (n + 1) (ensureStatsProgress from (w_others w n s)))) as Hs1 by auto.
  set (s1 := w_others w (n + 1) _) in *. set (p := default zero_progress (ro_progress s1)).
  destruct (rebuild_each w now guard (λ _, no_step) _ _ _ _) as [[[r2 e2] n2] s2] eqn:E2.
  pose proof (rebuild_each_any _ _ _ _ _ _ _ _ _ Hs1 E2) as Hs2. destruct e2; [by intros [= _ _ _ <-]|].
  set (up := if sp_To p <? end_ then _ else _).
  assert (∀ r3 e3 n3 s3, up = Some (r3, e3, n3, s3) → I s3) as Hup.
  { intros r3 e3 n3 s3. unfold up, gap_then. case_match; [|by intros [= _ _ _ <-]].
    destruct (rollForward _ _ _ _ _ _ _ _ _) as [[[[g eg] ng] sg]|] eqn:Eg; [|done].
    apply rollForward_any in Eg; [|done]. destruct eg; [by intros [= _ _ _ <-]|].
    intros [= Er]. by apply rebuild_each_any in Er. }
  destruct up as [[[[r3 e3] n3] s3]|]; [|done]. specialize (Hup _ _ _ _ eq_refl).
  destruct e3; [by intros [= _ _ _ <-]|]. unfold gap_then. case_match; [|by intros [= _ _ _ <-]].
  destruct (rollBackward _ _ _ _ _ _ _ _ _) as [[[[g eg] ng] sg]|] eqn:Eg; [|done].
  apply rollBackward_any in Eg; [|done]. destruct eg; [by intros [= _ _ _ <-]|].
  intros [= Er]. by apply rebuild_each_any in Er.
Qed.
End any.

(** C28. A rebuild without Force never loses a count. However far it gets, and whether
    it ends well or with an error, the runs and the inserts each hour's stored
    total counts are at least what they were, so a rollup that outlived its raw
    history is not replaced by what retention left of it. *)
Theorem rebuild_never_shrinks fuel now o s r e s' :
  (∀ n, regular (w_db w n)) → (∀ n s, totals_le s (w_others w n s)) → ro_ForceRebuild o = false →
  RebuildStats fuel w now o s = Some (r, e, s') → totals_le s s'.
Proof.
  intros Hreg Ho Hforce. unfold RebuildStats. rewrite Hforce. cbv zeta. cbn [negb].
  case_match; [intros [= _ _ <-]; apply totals_refl|].
  set (to := if _ <? ro_To o then _ else _). set (out := if _ <? ceilHour to then _ else _).
  assert (∀ r1 e1 n1 s1, out = Some (r1, e1, n1, s1) → totals_le s s1) as Hout.
  { intros r1 e1 n1 s1. unfold out. case_match; [|intros [= _ _ _ <-]; apply totals_refl].
    apply (rebuildRange_any now true (totals_le s)).
    - intros n s2 Hs2. by eapply totals_trans.
    - intros h s2 Hs2. eapply totals_trans; [exact Hs2|]. intros h'. unfold ensureStatsProgress.
      destruct (ro_progress s2); split; apply Z.le_refl.
    - done.
    - intros n h st s2 k s3 Hs2 Hr. eapply totals_trans; [exact Hs2|]. by eapply guarded_keeps.
    - apply totals_refl. }
  destruct out as [[[[r1 e1] n1] s1]|]; [|done]. specialize (Hout _ _ _ _ eq_refl).
  destruct e1 as [e1|]; [destruct e1; by intros [= _ _ <-]|]. intros [= _ _ <-]. by eapply totals_trans.
Qed.
End rebuild.

(** ** Coverage after a rebuild *)

Section sound_rebuild.
Context `{GoLib} `{RowOrder} (w : world) (d : db).
Hypothesis Hreg : ∀ n, regular (w_db w n).
Hypothesis Hothers : ∀ n s, sound d s → sound d (w_others w n s).

(** Rolling a list of hours, each with a step across itself or none. *)
Lemma rebuild_each_sound now guard step l n r s r' e n' s' :
  (∀ h, h ∈ l → aligned h ∧ (∀ m, same_hour d (w_db w m) h) ∧
     (step h = no_step ∨ step h = stepUp h (h + hour) ∨ step h = stepDown h (h + hour))) →
  sound d s → rebuild_each w now guard step l n r s = (r', e, n', s') → sound d s'.
Proof.
  intros Hl. apply (rebuild_each_inv w now guard step l (sound d) Hothers); [|done].
  intros m h s1 k s2 Hh Hs1 Hr. destruct (Hl h Hh) as (Ha & Hsame & Hst).
  destruct (rollupHour_sound d _ h now guard _ s1 k s2 Hs1 (Hreg _) Ha (Hsame _) Hr) as (Hs2 & Hh2 & He). rewrite He.
  assert (∀ h', aligned h' → h ≤ h' < h + hour → hour_rolled d (replaced s1 s2) h') as Hone.
  { intros h' Ha' Hin. enough (h' = h) as -> by done. destruct (Z.eq_dec h h'); [done|].
    pose proof (aligned_lt h h' Ha Ha'). lia. }
  destruct Hst as [->|[->| ->]]; [by apply no_step_sound|..].
  - apply stepUp_sound; [done|by apply aligned_add|done].
  - by apply stepDown_sound.
Qed.

(** The covered range the rebuild finds. *)
Definition found (from : Z) (n : nat) (s : rollups) : statsProgress :=
  default zero_progress (ro_progress (w_others w (n + 1) (ensureStatsProgress from (w_others w n s)))).

Lemma rebuildRange_sound fuel now guard from end_ n r s r' e n' s' :
  aligned from → aligned end_ → from < end_ → sound d s →
  (∀ m, same_hours (Z.min from (sp_To (found from n s))) (Z.max end_ (sp_From (found from n s))) d (w_db w m)) →
  rebuildRange fuel w from end_ now guard n r s = Some (r', e, n', s') → sound d s'.
Proof.
  intros Hf He Hfe Hs Hsame. unfold rebuildRange. cbv zeta. unfold found in Hsame.
  assert (sound d (w_others w (n + 1) (ensureStatsProgress from (w_others w n s)))) as Hs1.
  { apply Hothers, ensure_sound; [by apply Hothers|done]. }
  set (s1 := w_others w (n + 1) _) in *. set (p := default zero_progress (ro_progress s1)) in *.
  destruct (progress_edges d s1 Hs1) as [Hpf Hpt]. fold p in Hpf, Hpt.
  assert (∀ a b, aligned a → Z.min from (sp_To p) ≤ a → b ≤ Z.max end_ (sp_From p) → aligned b → ∀ h, h ∈ hours_from a b →
    aligned h ∧ ∀ m, same_hour d (w_db w m) h) as Hhrs.
  { intros a b Ha Hla Hb Hab h [Hal Hin]%(hours_from_elem a b h Ha). split; [done|]. intros m.
    apply Hsame; [done|lia|]. pose proof (aligned_lt h b Hal Hab). lia. }
  assert (∀ a b, aligned a → aligned b → aligned (Z.max a b) ∧ aligned (Z.min a b)) as Hmm.
  { intros a b Ha Hb. split; [destruct (Z.max_spec a b) as [[_ ->]|[_ ->]]|destruct (Z.min_spec a b) as [[_ ->]|[_ ->]]]; done. }
  destruct (Hmm from (sp_From p) Hf Hpf) as [Hm1 _], (Hmm end_ (sp_To p) He Hpt) as [_ Hm2],
    (Hmm from (sp_To p) Hf Hpt) as [Hm3 _], (Hmm end_ (sp_From p) He Hpf) as [_ Hm4].
  destruct (rebuild_each w now guard (λ _, no_step) _ _ _ _) as [[[r2 e2] n2] s2] eqn:E2.
  assert (sound d s2) as Hs2.
  { eapply rebuild_each_sound; [|exact Hs1|exact E2]. intros h Hh.
    destruct (Hhrs (Z.max from (sp_From p)) (Z.min end_ (sp_To p))) with (5 := Hh) as [? ?]; try done; [lia|lia|auto]. }
  destruct e2; [by intros [= _ _ _ <-]|]. set (up := if sp_To p <? end_ then _ else _).
  assert (∀ r3 e3 n3 s3, up = Some (r3, e3, n3, s3) → sound d s3) as Hup.
  { intros r3 e3 n3 s3. unfold up, gap_then. destruct (Z.ltb_spec (sp_To p) end_); [|by intros [= _ _ _ <-]].
    destruct (rollForward _ _ _ _ _ _ _ _ _) as [[[[g eg] ng] sg]|] eqn:Eg; [|done].
    eapply (rollForward_sound w now guard d Hreg Hothers) in Eg; [|exact Hpt|done| |done].
    - destruct eg; [by intros [= _ _ _ <-]|]. intros [= Er]. eapply rebuild_each_sound; [|exact Eg|exact Er].
      intros h Hh. destruct (Hhrs (Z.max from (sp_To p)) end_) with (5 := Hh) as [? ?]; try done; [lia|lia|auto].
    - intros m. eapply same_hours_sub; [| |apply Hsame]; cbn; lia. }
  destruct up as [[[[r3 e3] n3] s3]|]; [|done]. specialize (Hup _ _ _ _ eq_refl).
  destruct e3; [by intros [= _ _ _ <-]|]. unfold gap_then. destruct (Z.ltb_spec from (sp_From p)); [|by intros [= _ _ _ <-]].
  destruct (rollBackward _ _ _ _ _ _ _ _ _) as [[[[g eg] ng] sg]|] eqn:Eg; [|done].
  eapply (rollBackward_sound w now guard d Hreg Hothers) in Eg; [|exact Hpf|done| |done].
  - destruct eg; [by intros [= _ _ _ <-]|]. intros [= Er]. eapply rebuild_each_sound; [|exact Eg|exact Er].
    intros h Hh. rewrite elem_of_reverse in Hh.
    destruct (Hhrs from (Z.min end_ (sp_From p))) with (5 := Hh) as [? ?]; try done; [lia|lia|auto].
  - intros m. eapply same_hours_sub; [| |apply Hsame]; cbn; lia.
Qed.

(** The hours a rebuild is asked for, clamped to the closed ones. *)
Definition rebuild_from (o : RebuildOpts) : Z := floorHour (ro_From o).
Definition rebuild_end (now : Z) (o : RebuildOpts) : Z :=
  let closed := floorHour (now - (if ro_Grace o <=? 0 then defaultStatsRollupGrace else ro_Grace o)) in
  ceilHour (if closed <? ro_To o then closed else ro_To o).

(** A rebuild keeps coverage true. The covered range after a rebuild, finished or
    stopped, above, below or inside what was covered before, with a gap between
    or none, never spans an hour that is not rolled: the hours it asks for and any
    it rolls to close a gap carry the aggregates of their runs and inserts, and the
    error groups of their failures. *)
Theorem rebuild_sound fuel now o s r e s' :
  sound d s →
  (∀ m, same_hours (Z.min (rebuild_from o) (sp_To (found (rebuild_from o) 0 s)))
          (Z.max (rebuild_end now o) (sp_From (found (rebuild_from o) 0 s))) d (w_db w m)) →
  RebuildStats fuel w now o s = Some (r, e, s') → sound d s'.
Proof.
  intros Hs Hsame. unfold RebuildStats. cbv zeta.
  destruct (is_zero_time (ro_From o) || is_zero_time (ro_To o)); [by intros [= _ _ <-]|].
  fold (rebuild_from o). set (to := if _ <? ro_To o then _ else _).
  change (ceilHour to) with (rebuild_end now o). set (out := if _ <? rebuild_end now o then _ else _).
  assert (∀ r1 e1 n1 s1, out = Some (r1, e1, n1, s1) → sound d s1) as Hout.
  { intros r1 e1 n1 s1. unfold out. destruct (Z.ltb_spec (rebuild_from o) (rebuild_end now o)); [|by intros [= _ _ _ <-]].
    apply rebuildRange_sound; [apply floorHour_spec|apply ceilHour_spec|done|done|done]. }
  destruct out as [[[[r1 e1] n1] s1]|]; [|done]. specialize (Hout _ _ _ _ eq_refl).
  destruct e1 as [e1|]; [destruct e1; by intros [= _ _ <-]|]. intros [= _ _ <-]. by apply Hothers.
Qed.

(** A rebuild ends, however far the requested hours are from the covered ones. *)
Theorem rebuild_ends now o s :
  sound d s → ∃ fuel0, ∀ fuel, (fuel0 ≤ fuel)%nat → RebuildStats fuel w now o s ≠ None.
Proof.
  intros Hs. set (from := rebuild_from o). set (end_ := rebuild_end now o).
  assert (aligned from ∧ aligned end_) as [Hf He] by (split; [apply floorHour_spec|apply ceilHour_spec]).
  assert (sound d (w_others w 1 (ensureStatsProgress from (w_others w 0 s)))) as Hs1.
  { apply Hothers, ensure_sound; [by apply Hothers|done]. }
  destruct (progress_edges d _ Hs1) as [Hpf Hpt]. fold (found from 0 s) in Hpf, Hpt. set (p := found from 0 s) in *.
  exists (S (Z.to_nat (Z.max (Z.max from (sp_To p) - sp_To p) (sp_From p - Z.min end_ (sp_From p))))).
  intros [|fuel] Hfuel; [lia|]. unfold RebuildStats. cbv zeta. case_match; [done|].
  fold (rebuild_from o). set (to := if _ <? ro_To o then _ else _). change (ceilHour to) with end_. fold from.
  set (out := if from <? end_ then _ else _). enough (out ≠ None) as Hout.
  { destruct out as [[[[r1 e1] n1] s1]|]; [|done]. by destruct e1 as [[]|]. }
  unfold out. case_match; [|done]. unfold rebuildRange. cbv zeta. cbn [Nat.add].
  fold (found from 0 s). change (default zero_progress _) with p.
  assert (∀ x, x ≤ Z.of_nat fuel → x ≤ Z.of_nat fuel * hour) as Hh by (intros x Hx; pose proof hour_pos; nia).
  destruct (rebuild_each _ _ _ _ _ _ _ _) as [[[r2 e2] n2] s2]. destruct e2; [done|].
  assert (∀ g n1 s1, rollForward w now g 0 (S fuel) n1 (Z.max from (sp_To p)) (walk_from (sp_To p)) s1 ≠ None) as Hup.
  { intros g n1 s1. apply rollForward_ends; [exact Hpt|cbn; apply Hh; lia]. }
  assert (∀ g n1 s1, rollBackward w now g 0 (S fuel) n1 (Z.min end_ (sp_From p)) (walk_from (sp_From p)) s1 ≠ None) as Hdn.
  { intros g n1 s1. apply rollBackward_ends; [by apply world_shaped| |exact Hpf|cbn; apply Hh; lia].
    destruct (Z.min_spec end_ (sp_From p)) as [[_ ->]|[_ ->]]; done. }
  assert (∀ (walk : option walk_result) f r, walk ≠ None → gap_then walk f r ≠ None) as Hgap.
  { intros [[[[g []] ng] sg]|] f0 r0; done. }
  set (up := if sp_To p <? end_ then _ else _).
  assert (up ≠ None) as Hup' by (unfold up; case_match; [by apply Hgap|done]).
  destruct up as [[[[r3 e3] n3] s3]|]; [|done]. destruct e3; [done|]. case_match; [by apply Hgap|done].
Qed.
End sound_rebuild.
