(* ===== verification/Backfill.v ===== *)
(** * Completing the finish log: BackfillRunFinishes and RollupStats

    A release older than the finish log left its finished runs out of it. The backfill
    walks job_runs in key order, logs the unlogged ones, and re-rolls the covered
    hours they fall in; [RollupStats] does it on a Scheduler's first pass and once
    more ten minutes later (stats_rollup.go, stats_scheduler.go). Re-stamping SQLite's
    times in UTC changes the text of an instant and not the instant, so
    NormalizeRunTimestamps is the identity on these rows. *)

From S2P Require Import Prelude Types Text Json Fingerprint Store Plan Sweep Retention Batch Ids Hist Maintenance Rollup RollupFacts RollupWindows GroupFacts RollupHours ErrorGroups RollupWalks RollupPass RollupRebuild.

Local Open Scope Z_scope.

Definition backfillBatchSize : nat := 1000.
Definition backfillRecheck : Z := 10 * minute.

(** ** The log *)

(** [unloggedLegacyRunPredicate]. *)
Definition unlogged (d : db) (r : jobRunRow) : bool :=
  is_empty (r_Kind r) &&
  match r_FinishedAt r with Some t => negb (bool_decide ((t, r_ID r) ∈ job_run_finishes d)) | None => false end.
(** [finishLogInsert] over the runs of some ids: how many entries it wrote. *)
Definition finish_entries (d : db) (ids : list string) : gset (Z * string) :=
  list_to_set (omap (λ id, (λ t, (t, id)) <$> finish_of d id) ids).
Definition logFinishes (ids : list string) (d : db) : Z * db :=
  let new := finish_entries d ids ∖ job_run_finishes d in
  (Z.of_nat (size new), with_finishes (new ∪ job_run_finishes d) d).

(** Other sessions between the statements, and the context. *)
Abbreviation tables := (db * rollups)%type.
Record surroundings := { su_others : nat → tables → tables; su_cancelled : nat → bool }.

Section backfill.
Context `{GoLib} `{RowOrder} (w : surroundings).

(** ORDER BY id LIMIT backfillBatchSize past the cursor. *)
Definition run_page (cursor : string) (d : db) : list string :=
  page bytes_le backfillBatchSize (filter (λ id, past cursor id = true) (scan (map_to_list (job_runs d))).*1).
Definition unlogged_between (lo hi : string) (d : db) : list jobRunRow :=
  filter (λ r, bool_decide (bytes_le lo (r_ID r)) && bool_decide (bytes_le (r_ID r) hi) && unlogged d r = true)
    (scan (map_to_list (job_runs d))).*2.

Fixpoint backfillWalk (fuel n : nat) (cursor : string) (written : Z) (hours : gset Z) (ds : tables)
  : option (Z * gset Z * option error * nat * tables) :=
  match fuel with
  | O => None
  | S fuel =>
    if su_cancelled w n then Some (written, hours, Some ErrContext, n, ds)
    else
      let ds1 := su_others w n ds in
      match run_page cursor ds1.1 with
      | [] => Some (written, hours, None, S n, ds1)
      | first :: rest =>
        let top := default first (last (first :: rest)) in
        let ds2 := su_others w (S n) ds1 in
        match unlogged_between first top ds2.1 with
        | [] => backfillWalk fuel (S (S n)) top written hours ds2
        | found =>
          let ds3 := su_others w (S (S n)) ds2 in
          let '(k, d') := logFinishes (r_ID <$> found) ds3.1 in
          backfillWalk fuel (S (S (S n))) top (add64 written k)
            (hours ∪ list_to_set (floorHour <$> omap r_FinishedAt found)) (d', ds3.2)
        end
      end
  end.

(** The loop of [rerollCoveredHours]: an hour whose recompute would shrink keeps its
    rollup. *)
Fixpoint reroll_each (p : statsProgress) (now : Z) (hs : list Z) (n : nat) (ds : tables) : option error * tables :=
  match hs with
  | [] => (None, ds)
  | h :: hs =>
    if negb (covers p h) then reroll_each p now hs n ds
    else
      let ds1 := su_others w n ds in
      match rollupHour ds1.1 h now true no_step ds1.2 with
      | Ok (_, s') => reroll_each p now hs (S n) (ds1.1, s')
      | Err e => if bool_decide (e = ErrRollupWouldShrink) then reroll_each p now hs (S n) ds1 else (Some e, ds1)
      end
  end.
Definition rerollCoveredHours (now : Z) (hours : gset Z) (n : nat) (ds : tables) : option error * tables :=
  if bool_decide (hours = ∅) then (None, ds)
  else
    let ds1 := su_others w n ds in
    match ro_progress ds1.2 with
    | Some p => if covered p then reroll_each p now (merge_sort Z.le (elements hours)) (S n) ds1 else (None, ds1)
    | None => (None, ds1)
    end.

Definition BackfillRunFinishes (fuel : nat) (now : Z) (ds : tables) : option (Z * option error * tables) :=
  let ds1 := su_others w 0 ds in
  match filter (λ r, unlogged ds1.1 r = true) (scan (map_to_list (job_runs ds1.1))).*2 with
  | [] => Some (0, None, ds1)
  | _ =>
    match backfillWalk fuel 1 "" 0 ∅ ds1 with
    | None => None
    | Some (written, _, Some e, _, ds2) => Some (written, Some e, ds2)
    | Some (written, hours, None, n, ds2) =>
      let '(e, ds3) := rerollCoveredHours now hours n ds2 in Some (written, e, ds3)
    end
  end.

(** ** RollupStats *)

Record statsState := { bk_backfills : Z; bk_first : Z }.
(** [wall] is the wall clock when the call looks, [wall'] when a backfill is done. *)
Definition backfill_due (wall : Z) (st : statsState) : bool :=
  (bk_backfills st =? 0) || ((bk_backfills st =? 1) && (backfillRecheck <=? time_sub wall (bk_first st))).
Definition backfillIfDue (fuel : nat) (wall wall' now : Z) (st : statsState) (ds : tables)
  : option (option error * statsState * tables) :=
  if negb (backfill_due wall st) then Some (None, st, ds)
  else
    match BackfillRunFinishes fuel now ds with
    | None => None
    | Some (_, Some e, ds') => Some (Some e, st, ds')
    | Some (_, None, ds') =>
      let n := bk_backfills st + 1 in
      Some (None, {| bk_backfills := n; bk_first := if n =? 1 then wall' else bk_first st |}, ds')
    end.

Definition stats_config (cfg : rollupConfig) : rollupConfig :=
  {| rc_grace := or_default (rc_grace cfg) defaultStatsRollupGrace;
     rc_maxHours := or_default (rc_maxHours cfg) defaultStatsMaxHoursPerPass;
     rc_retention := or_default (rc_retention cfg) defaultStatsRetention |}.
(** [after] is what the pass meets, from the job tables the backfill leaves. *)
Definition RollupStats (fuel : nat) (after : db → world) (wall wall' now : Z) (cfg : rollupConfig) (st : statsState)
    (ds : tables) : option (RollupResult * option error * statsState * tables) :=
  match backfillIfDue fuel wall wall' now st ds with
  | None => None
  | Some (Some e, st', ds') => Some (zero_rollup, Some e, st', ds')
  | Some (None, st', ds') =>
    match rollupPass fuel (after ds'.1) now (stats_config cfg) 0 ds'.2 with
    | None => None
    | Some (r, e, s') => Some (r, e, st', (ds'.1, s'))
    end
  end.
End backfill.

(** ** The walk *)

(** Nobody else at work, and time enough. *)
Definition undisturbed_by : surroundings := {| su_others _ ds := ds; su_cancelled _ := false |}.

(** A log an upgrade may meet: every entry is a finished run, and every finished run
    that names its kind, as this release's do, has its entry. *)
Record legacy_log (d : db) : Prop := {
  ll_keyed : runs_keyed (job_runs d);
  ll_named : job_runs d !! "" = None;
  ll_true : ∀ t id, (t, id) ∈ job_run_finishes d → finish_of d id = Some t;
  ll_current : ∀ id r t, job_runs d !! id = Some r → r_FinishedAt r = Some t → r_Kind r ≠ "" → (t, id) ∈ job_run_finishes d
}.

(** The unlogged entries past a cursor. *)
Definition missing (c : string) (d : db) (e : Z * string) : Prop :=
  past c e.2 = true ∧ ∃ r, job_runs d !! e.2 = Some r ∧ r_FinishedAt r = Some e.1 ∧ r_Kind r = "" ∧ e ∉ job_run_finishes d.
Definition missing_set (c : string) (d : db) : gset (Z * string) :=
  list_to_set (omap (λ kr : string * jobRunRow, if past c kr.1 && unlogged d kr.2 then (λ t, (t, kr.1)) <$> r_FinishedAt kr.2 else None)
    (map_to_list (job_runs d))).

Section walk.
Context `{RowOrder}.

Lemma unlogged_spec d r id :
  r_ID r = id → unlogged d r = true ↔ r_Kind r = "" ∧ ∃ t, r_FinishedAt r = Some t ∧ (t, id) ∉ job_run_finishes d.
Proof.
  intros <-. unfold unlogged, is_empty. rewrite andb_true_iff, bool_decide_eq_true. split; intros [Hk Hf]; (split; [done|]).
  - destruct (r_FinishedAt r) as [t|]; [|done]. exists t. split; [done|]. by apply negb_true_iff, bool_decide_eq_false in Hf.
  - destruct Hf as (t & -> & Hn). by apply negb_true_iff, bool_decide_eq_false.
Qed.
Lemma elem_missing c d e : runs_keyed (job_runs d) → e ∈ missing_set c d ↔ missing c d e.
Proof.
  intros Hk. unfold missing_set, missing. rewrite elem_of_list_to_set, list_elem_of_omap. split.
  - intros ([id r] & Hr%elem_of_map_to_list & He). cbn in He. destruct (past c id && unlogged d r) eqn:E; [|done].
    apply andb_true_iff in E as [Hp Hu]. apply (unlogged_spec d r id) in Hu as (Hkd & t & Ht & Hn); [|by apply Hk].
    rewrite Ht in He. injection He as <-. cbn. eauto 10.
  - intros (Hp & r & Hr & Ht & Hkd & Hn). exists (e.2, r). split; [by apply elem_of_map_to_list|]. cbn.
    rewrite Hp. assert (unlogged d r = true) as -> by (apply (unlogged_spec d r e.2); [by apply Hk|]; destruct e; eauto).
    cbn. rewrite Ht. by destruct e.
Qed.
Lemma elem_finish_entries d ids e : e ∈ finish_entries d ids ↔ e.2 ∈ ids ∧ finish_of d e.2 = Some e.1.
Proof.
  unfold finish_entries. rewrite elem_of_list_to_set, list_elem_of_omap. split.
  - intros (id & Hid & (t & Ht & ->)%fmap_Some). done.
  - intros [Hid Ht]. exists e.2. split; [done|]. rewrite Ht. by destruct e.
Qed.

(** A page: the least ids past the cursor, and what is left past its last. *)
Lemma run_page_spec c d first rest :
  job_runs d !! "" = None → run_page c d = first :: rest →
  let top := default first (last (first :: rest)) in
  top ≠ "" ∧ past c first = true ∧ past c top = true ∧
  (∀ id, is_Some (job_runs d !! id) → past c id = true → bytes_le first id) ∧
  (length (filter (λ id, past top id = true) (map_to_list (job_runs d)).*1) <
   length (filter (λ id, past c id = true) (map_to_list (job_runs d)).*1))%nat.
Proof.
  intros Hn Hp. set (top := default first _). set (ids := (map_to_list (job_runs d)).*1).
  set (l := filter (λ id, past c id = true) (scan (map_to_list (job_runs d))).*1).
  assert (l ≡ₚ filter (λ id, past c id = true) ids) as Hl by (unfold l, ids; by rewrite (scan_perm (map_to_list (job_runs d)))).
  assert (∀ id, id ∈ l ↔ is_Some (job_runs d !! id) ∧ past c id = true) as Hel.
  { intros id. rewrite Hl, list_elem_of_filter. unfold ids. rewrite list_elem_of_fmap. split.
    - intros [Hpa ([i r] & -> & Hr%elem_of_map_to_list)]. by split; [eexists|].
    - intros [[r Hr] Hpa]. split; [done|]. exists (id, r). split; [done|]. by apply elem_of_map_to_list. }
  assert (∀ x, x ∈ first :: rest → x ∈ l) as Hin by (intros x; rewrite <-Hp; apply page_subset).
  assert (top ∈ first :: rest) as Htop.
  { unfold top. destruct (last (first :: rest)) as [y|] eqn:El; [by apply last_Some_elem_of in El|by left]. }
  pose proof (proj1 (Hel _) (Hin _ Htop)) as [[rt Hrt] Hpt]. pose proof (proj1 (Hel _) (Hin _ ltac:(by left))) as [_ Hpf].
  assert (top ≠ "") as Hne by (intros E; congruence). split; [done|]. split; [done|]. split; [done|]. split.
  - intros id Hid Hpid. assert (id ∈ l) as Hid' by by apply Hel.
    unfold run_page, page in Hp. fold l in Hp. pose proof (StronglySorted_merge_sort bytes_le l) as Hs.
    rewrite <-(merge_sort_Permutation bytes_le l) in Hid'. destruct (merge_sort bytes_le l) as [|x xs]; [by apply elem_of_nil in Hid'|].
    cbn [take] in Hp. injection Hp as -> _. inversion Hs as [|? ? _ Hall]; subst. rewrite Forall_forall in Hall.
    apply elem_of_cons in Hid' as [->|Hid']; [by destruct (base.total bytes_le first first)|by apply Hall].
  - assert (filter (λ id, past top id = true) ids = filter (λ id, past top id = true) (filter (λ id, past c id = true) ids)) as ->.
    { rewrite list_filter_filter. apply filter_iff_in. intros id _. split; [|by intros [? _]]. intros Hpi. split; [done|].
      by apply (past_trans c top id). }
    apply length_filter_lt with top; [by rewrite <-Hl; apply Hin|]. rewrite past_iff by done. intros Hx. apply Hx.
    by destruct (base.total bytes_le top top).
Qed.

Lemma past_mono c a b : past c a = true → bytes_le a b → past c b = true.
Proof.
  unfold past. destruct (is_empty c); [done|]. rewrite !negb_true_iff, !bool_decide_eq_false. intros Ha Hab Hb. apply Ha. by etrans.
Qed.
Lemma elem_unlogged_between lo hi d r :
  runs_keyed (job_runs d) →
  r ∈ unlogged_between lo hi d ↔ job_runs d !! r_ID r = Some r ∧ bytes_le lo (r_ID r) ∧ bytes_le (r_ID r) hi ∧ unlogged d r = true.
Proof.
  intros Hk. unfold unlogged_between. rewrite list_elem_of_filter, (scan_perm (map_to_list (job_runs d))), !andb_true_iff, !bool_decide_eq_true.
  rewrite list_elem_of_fmap. split.
  - intros [[[? ?] ?] ([i r'] & -> & Hr%elem_of_map_to_list)]. cbn in *. pose proof (Hk i r' Hr) as Hi. by rewrite Hi in *.
  - intros (Hr & ? & ? & ?). split; [done|]. exists (r_ID r, r). split; [done|]. by apply elem_of_map_to_list.
Qed.
(** The entries of some unlogged runs, by their runs. *)
Lemma elem_new lo hi d e :
  runs_keyed (job_runs d) →
  e ∈ finish_entries d (r_ID <$> unlogged_between lo hi d) ∖ job_run_finishes d ↔
  ∃ r, r ∈ unlogged_between lo hi d ∧ e.2 = r_ID r ∧ r_FinishedAt r = Some e.1.
Proof.
  intros Hk. rewrite elem_of_difference, elem_finish_entries, list_elem_of_fmap. split.
  - intros [[(r & Hid & Hr) Ht] _]. exists r. split; [done|]. split; [done|]. apply elem_unlogged_between in Hr as (Hr & _); [|done].
    unfold finish_of in Ht. by rewrite Hid, Hr in Ht.
  - intros (r & Hr & Hid & Ht). pose proof Hr as Hr'. apply elem_unlogged_between in Hr' as (Hl & _ & _ & Hu); [|done].
    apply (unlogged_spec d r (r_ID r)) in Hu as (_ & t & Ht' & Hni); [|done]. rewrite Ht in Ht'. injection Ht' as <-.
    split; [|destruct e as [t id]; cbn in *; by subst id]. split; [by exists r|]. unfold finish_of. by rewrite Hid, Hl.
Qed.
(** What one batch writes, and what it leaves. *)
Lemma batch_entries c d first rest e :
  runs_keyed (job_runs d) → job_runs d !! "" = None → run_page c d = first :: rest →
  let top := default first (last (first :: rest)) in
  let new := finish_entries d (r_ID <$> unlogged_between first top d) ∖ job_run_finishes d in
  (e ∈ new ↔ missing c d e ∧ bytes_le e.2 top) ∧
  (missing c d e ↔ e ∈ new ∨ missing top (with_finishes (new ∪ job_run_finishes d) d) e).
Proof.
  intros Hk Hn Hp. destruct (run_page_spec c d first rest Hn Hp) as (Htop & Hpf & Hpt & Hleast & _).
  set (top := default first _) in *. cbv zeta. set (new := _ ∖ _).
  assert (e ∈ new ↔ missing c d e ∧ bytes_le e.2 top) as Hnew.
  { unfold new. rewrite elem_new by done. split.
    - intros (r & Hr & Hid & Ht). apply elem_unlogged_between in Hr as (Hr & Hlo & Hhi & Hu); [|done].
      destruct e as [t0 id]. cbn in Hid, Ht. subst id.
      apply (unlogged_spec d r (r_ID r)) in Hu as (Hkd & t & Ht' & Hni); [|done]. rewrite Ht in Ht'. injection Ht' as <-.
      split; [|done]. split; [by apply (past_mono c first)|]. by exists r.
    - intros [(Hpa & r & Hr & Ht & Hkd & Hni) Hle]. pose proof (Hk _ _ Hr) as Hi. exists r. split; [|done].
      apply elem_unlogged_between; [done|]. rewrite Hi. split_and!; [done|by apply Hleast; [eexists|]|done|].
      apply (unlogged_spec d r e.2); [done|]. destruct e; eauto. }
  split; [done|]. split.
  - intros Hm. destruct (decide (bytes_le e.2 top)) as [Hle|Hgt]; [left; by apply Hnew|right].
    destruct Hm as (Hpa & r & Hr & Ht & Hkd & Hni). split; [by apply past_iff|]. exists r. cbn. split_and!; [done..|].
    rewrite elem_of_union. intros [[_ ?]%Hnew|?]; done.
  - intros [[? _]%Hnew|(Hpa & r & Hr & Ht & Hkd & Hni)]; [done|]. cbn in *.
    split; [by apply (past_trans c top e.2)|]. exists r. split_and!; [done..|]. set_solver.
Qed.

Lemma backfillWalk_spec fuel n c written (hours : gset Z) d s :
  runs_keyed (job_runs d) → job_runs d !! "" = None → in_int64 written →
  (length (filter (λ id, past c id = true) (map_to_list (job_runs d)).*1) < fuel)%nat →
  ∃ n' hours', (∀ h, h ∈ hours' ↔ h ∈ hours ∨ ∃ e, e ∈ missing_set c d ∧ h = floorHour e.1) ∧
    backfillWalk undisturbed_by fuel n c written hours (d, s) =
    Some (wrap64 (written + Z.of_nat (size (missing_set c d))), hours', None, n',
          (with_finishes (missing_set c d ∪ job_run_finishes d) d, s)).
Proof.
  revert n c written hours d. induction fuel as [|fuel IH]; intros n c written hours d Hk Hn Hw Hlen; [lia|].
  cbn [backfillWalk]. change (su_cancelled undisturbed_by n) with false. cbn [su_others undisturbed_by fst snd].
  destruct (run_page c d) as [|first rest] eqn:Ep.
  { assert (missing_set c d = ∅) as He.
    { apply set_eq. intros e. rewrite elem_missing by done. split; [|set_solver]. intros (Hpa & r & Hr & _). exfalso.
      unfold run_page, page in Ep. pose proof (merge_sort_Permutation bytes_le (filter (λ id, past c id = true) (scan (map_to_list (job_runs d))).*1)) as E.
      destruct (merge_sort _ _) in Ep, E; [|done]. apply Permutation_nil_l in E.
      apply (not_elem_of_nil e.2). rewrite E. apply list_elem_of_filter. split; [done|].
      rewrite (scan_perm (map_to_list (job_runs d))). apply list_elem_of_fmap. exists (e.2, r). split; [done|]. by apply elem_of_map_to_list. }
    rewrite He. exists (S n), hours. split; [set_solver|].
    rewrite size_empty, Z.add_0_r, wrap64_id, (left_id_L ∅ (∪)) by done. by destruct d. }
  destruct (run_page_spec c d first rest Hn Ep) as (Htop & _ & _ & _ & Hshort).
  pose proof (λ e, batch_entries c d first rest e Hk Hn Ep) as Hbatch. cbv zeta in Hbatch.
  set (top := default first _) in *. set (found := unlogged_between first top d) in *.
  set (new := _ ∖ _) in Hbatch. set (d1 := with_finishes (new ∪ job_run_finishes d) d).
  assert (missing_set c d = missing_set top d1 ∪ new) as Hset.
  { apply set_eq. intros e. rewrite elem_of_union, !elem_missing by done. destruct (Hbatch e) as [_ ->]. tauto. }
  assert (missing_set top d1 ## new) as Hdisj.
  { intros e He Hnew. apply elem_missing in He as (_ & r & _ & _ & _ & Hni); [|done]. apply Hni. cbn. set_solver. }
  assert (∀ e, e ∈ new ↔ ∃ r, r ∈ found ∧ e.2 = r_ID r ∧ r_FinishedAt r = Some e.1) as Hnw by (intros e; by apply elem_new).
  assert (d1 = d ∧ new = ∅ ∨ found ≠ []) as Hcase.
  { destruct found as [|r l]; [left|by right]. assert (new = ∅) as E by (unfold new; set_solver). split; [|done].
    unfold d1. rewrite E, (left_id_L ∅ (∪)). by destruct d. }
  destruct found as [|r0 l0] eqn:Ef.
  - destruct Hcase as [[Hd1 E]|?]; [|done]. rewrite Hd1, E, (right_id_L ∅ (∪)) in Hset. rewrite Hset.
    apply IH; [done..|]. eapply Nat.lt_le_trans; [exact Hshort|exact (proj1 (Nat.lt_succ_r _ _) Hlen)].
  - rewrite <-Ef. replace (logFinishes (r_ID <$> found) d) with (Z.of_nat (size new), d1) by (unfold logFinishes; by rewrite Ef).
    destruct (IH (S (S (S n))) top (add64 written (Z.of_nat (size new))) (hours ∪ list_to_set (floorHour <$> omap r_FinishedAt found)) d1)
      as (n' & hours' & Hh & Eq); [done|done|apply wrap64_range|eapply Nat.lt_le_trans; [exact Hshort|exact (proj1 (Nat.lt_succ_r _ _) Hlen)]|].
    exists n', hours'. rewrite Hset. split.
    + intros h. rewrite Hh, elem_of_union, elem_of_list_to_set, list_elem_of_fmap.
      assert ((∃ t, h = floorHour t ∧ t ∈ omap r_FinishedAt found) ↔ ∃ e, e ∈ new ∧ h = floorHour e.1) as ->.
      2:{ setoid_rewrite elem_of_union. naive_solver. }
      split.
      * intros (t & -> & (r & Hr & Ht)%list_elem_of_omap). exists (t, r_ID r). split; [|done]. apply Hnw. exists r. by rewrite <-Ef.
      * intros (e & (r & Hr & Hid & Ht)%Hnw & ->). exists e.1. split; [done|]. apply list_elem_of_omap. exists r. by rewrite Ef.
    + etrans; [exact Eq|]. f_equal. f_equal; [f_equal; f_equal; f_equal|].
      * rewrite size_union by done. unfold add64. rewrite wrap64_add_l. f_equal. lia.
      * f_equal. unfold d1. cbn. rewrite (assoc_L (∪)). done.
Qed.
End walk.

(** ** The completed log *)

Definition completed (d : db) : db := with_finishes (missing_set "" d ∪ job_run_finishes d) d.

Lemma missing_disjoint c d : runs_keyed (job_runs d) → missing_set c d ## job_run_finishes d.
Proof. intros Hk e He Hf. apply elem_missing in He as (_ & r & _ & _ & _ & Hn); done. Qed.
Lemma completed_finishes d : legacy_log d → finishes_ok (completed d).
Proof.
  intros [Hk Hn Ht Hc] t id. cbn. rewrite elem_of_union, elem_missing by done. split.
  - intros [(_ & r & Hr & Hf & _)|Hin]; [by exists r|]. apply Ht in Hin. unfold finish_of in Hin. by apply bind_Some in Hin.
  - intros (r & Hr & Hf). destruct (decide ((t, id) ∈ job_run_finishes d)) as [|Hni]; [by right|left].
    split; [done|]. exists r. split_and!; [done..| |done]. destruct (decide (r_Kind r = "")) as [|Hkd]; [done|]. exfalso. eauto.
Qed.
Lemma finishes_size d : runs_keyed (job_runs d) → finishes_ok d → (size (job_run_finishes d) ≤ size (job_runs d))%nat.
Proof.
  intros Hk Hf. change (size (job_run_finishes d)) with (length (elements (job_run_finishes d))).
  rewrite <-(length_fmap snd). rewrite <-length_map_to_list, <-(length_fmap fst).
  apply submseteq_length, NoDup_submseteq.
  - apply NoDup_fmap_2_strong; [|apply NoDup_elements].
    intros [t id] [t' id'] (r & Hr & Ht)%elem_of_elements%Hf (r' & Hr' & Ht')%elem_of_elements%Hf. cbn. intros ->. congruence.
  - intros id ([t i] & -> & (r & Hr & _)%elem_of_elements%Hf)%list_elem_of_fmap. apply list_elem_of_fmap. exists (i, r).
    split; [done|]. by apply elem_of_map_to_list.
Qed.
Lemma completed_regular d :
  regular d → legacy_log d → Z.of_nat (size (job_runs d)) ≤ int64_max → regular (completed d).
Proof.
  intros [H1 H2 H3 _] Hl Hs. split; [done..|]. etrans; [|exact Hs]. apply inj_le.
  apply (finishes_size (completed d)); [apply (ll_keyed d Hl)|by apply completed_finishes].
Qed.

(** The runs a window gains. *)
Definition new_in (d : db) (a b : Z) : list runView :=
  omap (λ e : Z * string, if in_window a b e.1 then run_view d e.1 <$> job_runs d !! e.2 else None) (elements (missing_set "" d)).
Lemma completed_window d a b :
  runs_keyed (job_runs d) → finished_in (completed d) a b ≡ₚ new_in d a b ++ finished_in d a b.
Proof.
  intros Hk. unfold finished_in, new_in. cbn [completed with_finishes job_run_finishes job_runs].
  rewrite (elements_disj_union _ _ (missing_disjoint "" d Hk)), omap_app. done.
Qed.
Definition touched (d : db) (h : Z) : Prop := ∃ e, e ∈ missing_set "" d ∧ h = floorHour e.1.
Lemma untouched_new d h : aligned h → ¬ touched d h → new_in d h (h + hour) = [].
Proof.
  intros Ha Hn. unfold new_in. apply elem_of_nil_inv. intros v (e & He%elem_of_elements & Hv)%list_elem_of_omap.
  destruct (in_window h (h + hour) e.1) eqn:E; [|done]. unfold in_window in E. apply Hn. exists e. split; [done|].
  destruct (floorHour_spec e.1) as [Hf Hf']. pose proof (floorHour_ge h e.1 Ha ltac:(lia)).
  destruct (Z.le_gt_cases (floorHour e.1) h); [lia|]. pose proof (aligned_lt h _ Ha Hf). lia.
Qed.

Section recount.
Context `{GoLib} `{RowOrder} (d : db).
Hypothesis Hd : regular d.
Hypothesis Hl : legacy_log d.
Hypothesis Hsize : Z.of_nat (size (job_runs d)) ≤ int64_max.

Lemma untouched_same h : aligned h → ¬ touched d h → same_hour (completed d) d h.
Proof.
  intros Ha Hn. pose proof (completed_window d h (h + hour) (ll_keyed d Hl)) as Hw. rewrite (untouched_new d h Ha Hn) in Hw. cbn [app] in Hw.
  split.
  - intros g. unfold hour_entry, tag_runs, tag_jobs. apply tagged_perm; [by rewrite Hw|done..].
  - unfold hour_failures, failures, runs_in. by rewrite Hw.
Qed.
(** A recompute of a rolled hour counts what it holds, and more: the guard lets it. *)
Lemma recount_grows now h s : rows_rolled d s h → ∃ k s', rollupHour (completed d) h now true no_step s = Ok (k, s').
Proof.
  intros Hr. unfold rollupHour. cbv zeta. unfold refuseShrink.
  rewrite (sum_counts_hour _ h (completed_regular d Hd Hl Hsize)), (rolled_total d s h Hd Hr). unfold hour_size.
  pose proof (Permutation_length (completed_window d h (h + hour) (ll_keyed d Hl))) as Hlen. rewrite length_app in Hlen.
  change (inserted_in (completed d) h (h + hour)) with (inserted_in d h (h + hour)).
  cbn [andb]. destruct (_ || _) eqn:E; [lia|]. eauto.
Qed.

Lemma hour_rolled_kept d0 s s' h :
  (∀ g, ro_hourly s' !! (h, g) = ro_hourly s !! (h, g)) → (∀ k, ro_groups s' !! (h, k) = ro_groups s !! (h, k)) →
  hour_rolled d0 s h → hour_rolled d0 s' h.
Proof.
  intros H1 H2 [[at_ Hr] Hg]. split; [exists at_; intros g; by rewrite H1|]. intros k. rewrite H2. apply Hg.
Qed.
(** The covered hours, those still to be re-rolled by the old log. *)
Definition pending_hours (p : statsProgress) (hs : list Z) (s : rollups) : Prop :=
  (∃ q, ro_progress s = Some q ∧ sp_From q = sp_From p ∧ sp_To q = sp_To p) ∧
  ∀ h, aligned h → covers p h = true → hour_rolled (if decide (h ∈ hs) then d else completed d) s h.
(** Outside the covered hours nothing is written. *)
Definition only_covered (p : statsProgress) (s s' : rollups) : Prop :=
  ∀ h, ¬ (aligned h ∧ covers p h = true) →
    (∀ g, ro_hourly s' !! (h, g) = ro_hourly s !! (h, g)) ∧ (∀ k, ro_groups s' !! (h, k) = ro_groups s !! (h, k)).

Lemma reroll_each_spec p now hs s :
  NoDup hs → Forall aligned hs → pending_hours p hs s →
  ∃ s', (∀ n, reroll_each undisturbed_by p now hs n (completed d, s) = (None, (completed d, s'))) ∧ pending_hours p [] s' ∧
    only_covered p s s'.
Proof.
  intros Hnd Ha. revert s. induction Hnd as [|h hs Hn _ IH]; intros s [Hp Hr]; cbn [reroll_each].
  { exists s. split; [done|]. split; [done|]. intros h _. done. }
  apply Forall_cons in Ha as [Ha Has]. destruct (covers p h) eqn:Ec; cbn [negb].
  - pose proof (Hr h Ha Ec) as Hh. rewrite decide_True in Hh by by left.
    destruct (recount_grows now h s (proj1 Hh)) as (k & s1 & E).
    pose proof (rollupHour_spec _ h now true no_step s k s1 (completed_regular d Hd Hl Hsize) E) as (H1 & H2 & H3 & H4 & H5).
    destruct (IH Has s1) as (s' & E' & Hp' & Ho).
    + destruct Hp as (q & Hq & Hqf & Hqt). split.
      * exists (step_progress no_step q). rewrite H5, Hq. rewrite zero_hour_up, zero_hour_down by done. done.
      * intros h' Ha' Hc'. destruct (decide (h' = h)) as [->|Hne].
        -- rewrite decide_False by done. split; [by exists now|done].
        -- apply (hour_rolled_kept _ s); [intros; by apply H2|intros; by apply H4|]. specialize (Hr h' Ha' Hc').
           destruct (decide (h' ∈ hs)) as [Hin|Hin]; [by rewrite decide_True in Hr by by right|].
           rewrite decide_False in Hr by (by apply not_elem_of_cons). done.
    + exists s'. split; [intros n; cbn [su_others undisturbed_by fst snd]; rewrite E; apply E'|]. split; [done|]. intros h' Hc'. destruct (Ho h' Hc') as [Ho1 Ho2].
      assert (h' ≠ h) as Hne by (intros ->; by apply Hc'). split; intros; [by rewrite Ho1, H2|by rewrite Ho2, H4].
  - apply IH; [done|]. split; [done|]. intros h' Ha' Hc'. specialize (Hr h' Ha' Hc').
    assert (h' ≠ h) as Hne by (intros ->; congruence).
    destruct (decide (h' ∈ hs)) as [Hin|Hin]; [by rewrite decide_True in Hr by by right|].
    by rewrite decide_False in Hr by by apply not_elem_of_cons.
Qed.

(** Every stored hour is covered. *)
Definition sealed (s : rollups) : Prop :=
  ∀ h, (∃ g, is_Some (ro_hourly s !! (h, g))) ∨ (∃ k, is_Some (ro_groups s !! (h, k))) →
    ∃ p, ro_progress s = Some p ∧ covers p h = true.
(** Every covered hour carries what the tables say. *)
Definition covered_true (d' : db) (s : rollups) : Prop :=
  ∀ p h, ro_progress s = Some p → aligned h → covers p h = true → hour_rolled d' s h.

(** A rollup that kept its range and wrote only covered hours, all true, is sound. *)
Lemma covered_sound d' s s' :
  sound d s → covered_true d' s' → sealed s →
  match ro_progress s, ro_progress s' with
  | Some p, Some q => sp_From q = sp_From p ∧ sp_To q = sp_To p ∧ only_covered p s s'
  | _, _ => s' = s
  end → sealed s' ∧ sound d' s'.
Proof.
  intros Hs Hc Hsl Hp.
  assert (∀ h, (∃ g, is_Some (ro_hourly s' !! (h, g))) ∨ (∃ k, is_Some (ro_groups s' !! (h, k))) →
    aligned h ∧ ∃ q, ro_progress s' = Some q ∧ covers q h = true) as Hall.
  { intros h Hst. assert (∀ s, sound d s → (∃ g, is_Some (ro_hourly s !! (h, g))) ∨ (∃ k, is_Some (ro_groups s !! (h, k))) → aligned h) as Hal.
    { intros s0 Hs0 [(g & r & Hr)|(k & r & Hr)]; [by apply (sound_stored d s0 Hs0 h g r)|by apply (sound_grouped d s0 Hs0 h k r)]. }
    destruct (ro_progress s) as [p|] eqn:Ep; [|subst s'; split; [by apply (Hal s)|by apply Hsl]].
    destruct (ro_progress s') as [q|] eqn:Eq; [|subst s'; split; [by apply (Hal s)|congruence]].
    destruct Hp as (Hf & Ht & Ho). assert (covers q h = covers p h) as Hcv by (unfold covers; by rewrite Hf, Ht).
    destruct (covers p h) eqn:Ec.
    - split; [|by exists q]. destruct (decide (h mod hour = 0)) as [Hm|Hm].
      + exists (h / hour). pose proof hour_pos. rewrite (Z.div_mod h hour) at 1 by lia. lia.
      + assert (¬ (aligned h ∧ covers p h = true)) as Hna.
        { intros [[i ->] _]. apply Hm. apply Z.mod_mul. pose proof hour_pos. lia. }
        destruct (Ho h Hna) as [H1 H2]. apply (Hal s Hs). destruct Hst as [[g Hg]|[k Hk]]; [left; exists g; by rewrite <-H1|right; exists k; by rewrite <-H2].
    - destruct (Ho h) as [H1 H2]; [by intros [_ ?]; congruence|].
      destruct (Hsl h) as (p' & Hp' & Hcp); [|congruence].
      destruct Hst as [[g Hg]|[k Hk]]; [left; exists g; by rewrite <-H1|right; exists k; by rewrite <-H2]. }
  split; [intros h Hst; by apply Hall|]. split.
  - intros q Hq. rewrite Hq in Hp. destruct (ro_progress s) as [p|] eqn:Ep; [|subst s'; congruence].
    destruct Hp as (-> & -> & _). by apply (sound_edges d s Hs).
  - intros q h Hq Ha Hh. apply (Hc q h Hq Ha). unfold covers. lia.
  - intros h g r Hr. destruct (Hall h) as (Ha & q & Hq & Hh); [left; exists g; by eexists|]. split; [done|]. by apply (Hc q h Hq Ha Hh).
  - intros h g r Hr. destruct (Hall h) as (Ha & q & Hq & Hh); [right; exists g; by eexists|]. split; [done|]. by apply (Hc q h Hq Ha Hh).
Qed.

(** Re-rolling the touched hours brings coverage up to the completed log. *)
Lemma reroll_spec now (hours : gset Z) s :
  sound d s → (∀ h, h ∈ hours ↔ touched d h) →
  ∃ s', (∀ n, rerollCoveredHours undisturbed_by now hours n (completed d, s) = (None, (completed d, s'))) ∧
    covered_true (completed d) s' ∧ (sealed s → sealed s' ∧ sound (completed d) s').
Proof.
  intros Hs Hh. unfold rerollCoveredHours. cbn [su_others undisturbed_by fst snd].
  assert (∀ h, aligned h → h ∉ hours → hour_rolled d s h → hour_rolled (completed d) s h) as Hkeep.
  { intros h Ha Hn [[at_ Hr] Hg]. destruct (untouched_same h Ha) as [He Hf]; [by rewrite <-Hh|]. split.
    - exists at_. intros g. by rewrite Hr, He.
    - by apply (groups_rolled_same _ d). }
  assert (covered_true (completed d) s →
    ∃ s', (nat → (None : option error, (completed d, s)) = (None, (completed d, s'))) ∧ covered_true (completed d) s' ∧
      (sealed s → sealed s' ∧ sound (completed d) s')) as Hsame.
  { intros Hc. exists s. split; [done|]. split; [done|]. intros Hsl. apply (covered_sound _ s s Hs Hc Hsl).
    destruct (ro_progress s); [|done]. split; [done|]. split; [done|]. by intros h _. }
  case_bool_decide as Eh.
  { apply Hsame. intros p h Hp Ha Hc. apply Hkeep; [done|set_solver|]. apply (sound_hours d s Hs p h Hp Ha). unfold covers in Hc. lia. }
  destruct (ro_progress s) as [p|] eqn:Ep; [|apply Hsame; intros p h Hp; congruence].
  destruct (covered p) eqn:Ec; [|apply Hsame; intros q h Hq; assert (q = p) as -> by congruence; unfold covers, covered in *; lia].
  assert (∀ h, h ∈ merge_sort Z.le (elements hours) ↔ h ∈ hours) as Hin.
  { intros h. by rewrite (merge_sort_Permutation Z.le), elem_of_elements. }
  destruct (reroll_each_spec p now (merge_sort Z.le (elements hours)) s) as (s' & E & [(q & Hq & Hqf & Hqt) Hr] & Ho).
  - rewrite (merge_sort_Permutation Z.le). apply NoDup_elements.
  - apply Forall_forall. intros h (e & _ & ->)%Hin%Hh. by destruct (floorHour_spec e.1).
  - split; [by exists p|]. intros h Ha Hc. assert (hour_rolled d s h) as Hd'.
    { apply (sound_hours d s Hs p h Ep Ha). unfold covers in Hc. lia. }
    destruct (decide (h ∈ _)) as [|Hn]; [done|]. apply Hkeep; [done|by rewrite <-Hin|done].
  - assert (covered_true (completed d) s') as Hct.
    { intros q' h Hq' Ha Hc. assert (q' = q) as -> by congruence. apply (Hr h Ha). unfold covers in *. by rewrite <-Hqf, <-Hqt. }
    exists s'. split; [intros n; apply E|]. split; [done|]. intros Hsl. apply (covered_sound _ s s' Hs Hct Hsl). rewrite Ep, Hq. done.
Qed.

(** ** The backfill *)

Lemma no_missing d0 :
  runs_keyed (job_runs d0) → filter (λ r, unlogged d0 r = true) (scan (map_to_list (job_runs d0))).*2 = [] ↔ missing_set "" d0 = ∅.
Proof.
  intros Hk. split.
  - intros E. apply elem_of_equiv_empty_L. intros e (_ & r & Hr & Hf & Hkd & Hn)%elem_missing; [|done].
    apply (not_elem_of_nil r). rewrite <-E. apply list_elem_of_filter. split.
    + apply (unlogged_spec d0 r e.2); [by apply Hk|]. destruct e; eauto.
    + rewrite (scan_perm (map_to_list (job_runs d0))). apply list_elem_of_fmap. exists (e.2, r). split; [done|]. by apply elem_of_map_to_list.
  - intros E. apply elem_of_nil_inv. intros r [Hu Hr]%list_elem_of_filter.
    rewrite (scan_perm (map_to_list (job_runs d0))) in Hr. apply list_elem_of_fmap in Hr as ([id r'] & -> & Hr%elem_of_map_to_list).
    cbn in *. apply (unlogged_spec d0 r' id) in Hu as (Hkd & t & Hf & Hn); [|by apply Hk].
    apply (not_elem_of_empty (t, id) (C := gset (Z * string))). rewrite <-E. apply elem_missing; [done|]. split; [done|]. by exists r'.
Qed.
Lemma completed_none d0 : missing_set "" d0 = ∅ → completed d0 = d0.
Proof. intros E. unfold completed. rewrite E, (left_id_L ∅ (∪)). by destruct d0. Qed.

Lemma BackfillRunFinishes_spec now s :
  sound d s →
  ∃ s', (∀ fuel, (size (job_runs d) < fuel)%nat → BackfillRunFinishes undisturbed_by fuel now (d, s) = Some (Z.of_nat (size (missing_set "" d)), None, (completed d, s'))) ∧
    covered_true (completed d) s' ∧ (sealed s → sealed s' ∧ sound (completed d) s').
Proof.
  intros Hs. destruct Hl as [Hk Hn _ _]. unfold BackfillRunFinishes. cbn [su_others undisturbed_by fst snd].
  destruct (filter _ _) as [|r0 l0] eqn:Ef.
  - apply no_missing in Ef; [|done]. rewrite (completed_none d Ef), Ef. exists s. split; [done|].
    split; [intros p h Hp Ha Hc; apply (sound_hours d s Hs p h Hp Ha); unfold covers in Hc; lia|done].
  - set (hs := list_to_set (floorHour <$> (elements (missing_set "" d)).*1) : gset Z).
    assert (∀ h, h ∈ hs ↔ touched d h) as Hhs.
    { intros h. unfold hs, touched. rewrite elem_of_list_to_set, list_elem_of_fmap. setoid_rewrite list_elem_of_fmap.
      setoid_rewrite elem_of_elements. naive_solver. }
    destruct (reroll_spec now hs s Hs Hhs) as (s' & E & Hc & Hsl). exists s'. split; [|done]. intros fuel Hfuel.
    destruct (backfillWalk_spec fuel 1 "" 0 ∅ d s Hk Hn) as (n' & hours' & Hh & ->); [done| |].
    { eapply Nat.le_lt_trans; [apply length_filter|]. by rewrite length_fmap, length_map_to_list. }
    assert (hours' = hs) as -> by (apply set_eq; intros h; rewrite Hh, Hhs; unfold touched; set_solver).
    fold (completed d). rewrite E. do 3 f_equal. rewrite Z.add_0_l, wrap64_id; [done|].
    pose proof (completed_regular d Hd Hl Hsize) as [_ _ _ Hr]. cbn in Hr.
    rewrite size_union in Hr by by apply missing_disjoint. unfold in_int64, int64_min. lia.
Qed.
End recount.

Section upgrade.
Context `{GoLib} `{RowOrder} (d : db).
Hypothesis Hd : regular d.
Hypothesis Hl : legacy_log d.
Hypothesis Hsize : Z.of_nat (size (job_runs d)) ≤ int64_max.

(** A backfill completes the finish log and recounts. Undisturbed, over a log that lacks
    runs of an older release, it ends, writes exactly the missing entries and reports
    their number; the log then holds every finish; every covered hour carries the
    aggregates and error groups of its runs with those found, none refused for
    shrinking; and a second backfill writes nothing. *)
Theorem backfill_completes fuel now s :
  sound d s → sealed s → (size (job_runs d) < fuel)%nat →
  ∃ s', BackfillRunFinishes undisturbed_by fuel now (d, s) = Some (Z.of_nat (size (missing_set "" d)), None, (completed d, s')) ∧
    BackfillRunFinishes undisturbed_by fuel now (completed d, s') = Some (0, None, (completed d, s')) ∧
    finishes_ok (completed d) ∧ sound (completed d) s'.
Proof.
  intros Hs Hsl Hf. destruct (BackfillRunFinishes_spec d Hd Hl Hsize now s Hs) as (s' & E & _ & Hsd).
  exists s'. destruct (Hsd Hsl) as [_ Hsound]. pose proof (completed_finishes d Hl) as Hok. split; [by apply E|]. split; [|done].
  unfold BackfillRunFinishes. cbn [su_others undisturbed_by fst snd]. pose proof (ll_keyed d Hl) as Hk.
  destruct (filter _ _) eqn:Ef; [done|]. exfalso. assert (missing_set "" (completed d) = ∅) as E0.
  { apply elem_of_equiv_empty_L. intros [t id] (_ & r & Hr & Ht & _ & Hn)%elem_missing; [|done]. apply Hn, Hok. by exists r. }
  apply no_missing in E0; [|done]. congruence.
Qed.

(** The world of a pass that nobody disturbs. *)
Definition alone (d : db) : world := {| w_db _ := d; w_others _ s := s; w_cancelled _ := false |}.
Lemma unguarded_rolls d0 h now st s : ∃ k s', rollupHour d0 h now false st s = Ok (k, s').
Proof. unfold rollupHour. cbn. eauto. Qed.
Lemma rollForward_alone d0 now budget fuel n hi acc s acc' e n' s' :
  rollForward (alone d0) now false budget fuel n hi acc s = Some (acc', e, n', s') → e = None.
Proof.
  revert n acc s. induction fuel as [|fuel IH]; intros n acc s; cbn [rollForward]; [done|]. cbv zeta. cbn [w_cancelled w_others w_db alone].
  destruct (negb _); [naive_solver|]. destruct (spent _ _); [naive_solver|]. destruct (nextActivityAt _ _ _) as [x|]; [|naive_solver].
  destruct (_ <? hi); [|naive_solver].
  destruct (unguarded_rolls d0 (floorHour x) now (stepUp (rw_reached acc) (floorHour x + hour)) s) as (k & s1 & ->). apply IH.
Qed.
Lemma rollBackward_alone d0 now budget fuel n lo acc s acc' e n' s' :
  rollBackward (alone d0) now false budget fuel n lo acc s = Some (acc', e, n', s') → e = None.
Proof.
  revert n acc s. induction fuel as [|fuel IH]; intros n acc s; cbn [rollBackward]; [done|]. cbv zeta. cbn [w_cancelled w_others w_db alone].
  destruct (negb _); [naive_solver|]. destruct (spent _ _); [naive_solver|]. destruct (prevActivityAt _ _ _) as [x|]; [|naive_solver].
  destruct (unguarded_rolls d0 (floorHour x) now (stepDown (floorHour x) (rw_reached acc)) s) as (k & s1 & ->). apply IH.
Qed.
Lemma rollupPass_alone d0 fuel now cfg n s r e s' :
  rollupPass fuel (alone d0) now cfg n s = Some (r, e, s') → e = None.
Proof.
  unfold rollupPass. cbv zeta. destruct (advanceStatsFloor _ _ _ _) as [[p n1] s1].
  destruct (rollForward _ _ _ _ _ _ _ _ _) as [[[[fwd ef] n2] s2]|] eqn:Ef; [|done]. apply rollForward_alone in Ef as ->.
  destruct (pass_backward _ _ _ _ _ _ _ _ _) as [[[[b eb] n3] s3]|] eqn:Eb; [|done].
  assert (eb = None) as ->.
  { unfold pass_backward in Eb. case_match; [by apply rollBackward_alone in Eb|naive_solver]. }
  destruct (prune_hours _ _), (prune_groups _ _). naive_solver.
Qed.

End upgrade.
