(* ===== verification/Pool.v ===== *)
(** * The runner's worker pool, its claim loop and the limiter's permits

    internal/core/runner.go: pool, admit, claimAndDispatch, Stop and Drain. The loop
    and every dispatched job are threads over the pool's mutex; a step is one
    critical section, or one step of a thread between two. Channels are modelled by
    what the code relies on: [po_idle] is whether the idle channel is closed (closing
    a closed one panics), and [po_gen] counts how often the freed channel was closed
    and replaced, so a waiter that snapshotted generation [g] wakes once [po_gen]
    moved. *)

From S2P Require Import Prelude Types.

(** ** The pool *)

Record pool := {
  po_size : Z; po_limit : Z; po_held : Z; po_running : Z; po_idle : bool; po_gen : nat; po_panic : bool
}.

Definition newPool (limit : Z) : pool :=
  let limit := if (limit <? 1)%Z then 1%Z else limit in
  {| po_size := limit; po_limit := limit; po_held := 0; po_running := 0; po_idle := true; po_gen := 0;
     po_panic := false |}.

Definition setLimit (n : Z) (p : pool) : pool :=
  let n := Z.min (Z.max n 1) (po_size p) in
  if (n =? po_limit p)%Z then p
  else
    {| po_size := po_size p; po_limit := n; po_held := po_held p; po_running := po_running p;
       po_idle := po_idle p; po_gen := if (po_limit p <? n)%Z then S (po_gen p) else po_gen p;
       po_panic := po_panic p |}.

(** [admitLocked]: a rise from zero replaces the idle channel. *)
Definition admitLocked (n : Z) (p : pool) : pool :=
  {| po_size := po_size p; po_limit := po_limit p; po_held := po_held p + n; po_running := po_running p;
     po_idle := if (po_held p =? 0)%Z then false else po_idle p; po_gen := po_gen p; po_panic := po_panic p |}.

(** One pass of [reserve]'s loop under the mutex: the slots taken, or [None] to
    wait on the current freed channel. *)
Definition reserve (want : Z) (p : pool) : option (Z * pool) :=
  let want := if (want <? 1)%Z then 1%Z else want in
  let free := (po_limit p - po_held p)%Z in
  if (0 <? free)%Z then let n := Z.min want free in Some (n, admitLocked n p) else None.

Definition pool_admit (n : Z) (p : pool) : pool := if (n <=? 0)%Z then p else admitLocked n p.

Definition release (n : Z) (p : pool) : pool :=
  if (n <=? 0)%Z then p
  else
    let n := Z.min n (po_held p) in
    if (n =? 0)%Z then p
    else
      let held := (po_held p - n)%Z in
      {| po_size := po_size p; po_limit := po_limit p; po_held := held; po_running := po_running p;
         po_idle := if (held =? 0)%Z then true else po_idle p; po_gen := S (po_gen p);
         po_panic := po_panic p || ((held =? 0)%Z && po_idle p) |}.

(** [start]'s count, and the first half of what its deferred function undoes. *)
Definition with_running (z : Z) (p : pool) : pool :=
  {| po_size := po_size p; po_limit := po_limit p; po_held := po_held p; po_running := po_running p + z;
     po_idle := po_idle p; po_gen := po_gen p; po_panic := po_panic p |}.

(** ** The gate and the claim *)

(** What the Limiter answered: none is configured, it failed, or it granted [n]. *)
Inductive answer := NoLimiter | LimiterFailed | LimiterGranted (n : Z).

Inductive admission := AdmitProceed (toClaim grant : Z) | AdmitPark | AdmitPollErr.

(** [Runner.admit] on the slots held: the decision, and the pool with the slots it
    does not use handed back. *)
Definition runner_admit (failClosed : bool) (a : answer) (reserved : Z) (p : pool) : admission * pool :=
  match a with
  | NoLimiter => (AdmitProceed reserved 0, p)
  | LimiterFailed => if failClosed then (AdmitPollErr, release reserved p) else (AdmitProceed reserved 0, p)
  | LimiterGranted n =>
    if (n <=? 0)%Z then (AdmitPark, release reserved p)
    else
      let toClaim := Z.min reserved n in
      (AdmitProceed toClaim n, if (0 <? reserved - toClaim)%Z then release (reserved - toClaim) p else p)
  end.

(** [claimAndDispatch] up to its start loop, on a batch of [k] jobs (zero when the
    claim failed or came back empty): the permits handed back at once, and the pool. *)
Definition settle_claim (reserved grant k : Z) (p : pool) : Z * pool :=
  if (k =? 0)%Z then (grant, release reserved p)
  else
    (if (0 <? grant - k)%Z then (grant - k)%Z else 0%Z,
     if (k <? reserved)%Z then release (reserved - k) p
     else if (reserved <? k)%Z then pool_admit (k - reserved) p else p).

(** [claimLimit]. *)
Definition claimLimit (claimBatchSize concurrency : Z) : Z :=
  if (0 <? claimBatchSize)%Z && (claimBatchSize <? concurrency)%Z then claimBatchSize else concurrency.

(** ** Threads *)

(** Where the loop is: at the top of an iteration; waiting on the freed channel of a
    generation; holding slots before and after its second look at Stop; admitted
    with slots and permits; starting the rest of a batch; returned. *)
Inductive loop_pc :=
| LTop | LWait (gen : nat) | LHeld (n : Z) | LChecked (n : Z) | LGranted (n g : Z) | LStart (k g : Z) | LDone.

(** A dispatched job: running with or without a permit; returned, its permit handed
    back; counted out; its slot free. *)
Inductive job_pc := JRun (permit : bool) | JEnded | JFree | JGone.

Record runner_st := {
  rs_pool : pool; rs_loop : loop_pc; rs_jobs : list job_pc; rs_acquired : Z; rs_released : Z;
  rs_stop : bool; rs_claims : nat; rs_over : bool
}.
Definition runner_init (concurrency : Z) : runner_st :=
  {| rs_pool := newPool concurrency; rs_loop := LTop; rs_jobs := []; rs_acquired := 0; rs_released := 0;
     rs_stop := false; rs_claims := 0; rs_over := false |}.

(** The loop moves: its pool, its place, permits acquired and released. *)
Definition loop_to (p : pool) (l : loop_pc) (acq rel : Z) (s : runner_st) : runner_st :=
  {| rs_pool := p; rs_loop := l; rs_jobs := rs_jobs s; rs_acquired := rs_acquired s + acq;
     rs_released := rs_released s + rel; rs_stop := rs_stop s; rs_claims := rs_claims s; rs_over := rs_over s |}.
Definition claimed (n k : Z) (s : runner_st) : runner_st :=
  {| rs_pool := rs_pool s; rs_loop := rs_loop s; rs_jobs := rs_jobs s; rs_acquired := rs_acquired s;
     rs_released := rs_released s; rs_stop := rs_stop s; rs_claims := S (rs_claims s);
     rs_over := rs_over s || (n <? k)%Z |}.
Definition job_to (p : pool) (i : nat) (j : job_pc) (rel : Z) (s : runner_st) : runner_st :=
  {| rs_pool := p; rs_loop := rs_loop s; rs_jobs := <[i := j]> (rs_jobs s); rs_acquired := rs_acquired s;
     rs_released := rs_released s + rel; rs_stop := rs_stop s; rs_claims := rs_claims s; rs_over := rs_over s |}.

Section runner.
Context (failClosed : bool) (want : Z).

Inductive rstep : runner_st → runner_st → Prop :=
| rs_stops s :
    rstep s {| rs_pool := rs_pool s; rs_loop := rs_loop s; rs_jobs := rs_jobs s; rs_acquired := rs_acquired s;
               rs_released := rs_released s; rs_stop := true; rs_claims := rs_claims s; rs_over := rs_over s |}
(** A queue's concurrency cap read from the database. *)
| rs_cap s n : rstep s (loop_to (setLimit n (rs_pool s)) (rs_loop s) 0 0 s)
(** The loop ends on its context, or on Stop. *)
| rs_end s : rs_loop s = LTop → rstep s (loop_to (rs_pool s) LDone 0 0 s)
| rs_reserve s n p :
    (rs_loop s = LTop ∧ rs_stop s = false ∨ ∃ g, rs_loop s = LWait g ∧ g ≠ po_gen (rs_pool s)) →
    reserve want (rs_pool s) = Some (n, p) → rstep s (loop_to p (LHeld n) 0 0 s)
| rs_wait s :
    (rs_loop s = LTop ∧ rs_stop s = false ∨ ∃ g, rs_loop s = LWait g ∧ g ≠ po_gen (rs_pool s)) →
    reserve want (rs_pool s) = None → rstep s (loop_to (rs_pool s) (LWait (po_gen (rs_pool s))) 0 0 s)
(** The wait is cut short by the queue-state refresh, the context or Stop. *)
| rs_wait_cut s g : rs_loop s = LWait g → rstep s (loop_to (rs_pool s) LTop 0 0 s)
| rs_stopped_holding s n :
    rs_loop s = LHeld n → rs_stop s = true → rstep s (loop_to (release n (rs_pool s)) LDone 0 0 s)
| rs_checked s n :
    rs_loop s = LHeld n → rs_stop s = false → rstep s (loop_to (rs_pool s) (LChecked n) 0 0 s)
| rs_admit s n a toClaim g p :
    rs_loop s = LChecked n → runner_admit failClosed a n (rs_pool s) = (AdmitProceed toClaim g, p) →
    rstep s (loop_to p (LGranted toClaim g) g 0 s)
| rs_denied s n a d p :
    rs_loop s = LChecked n → runner_admit failClosed a n (rs_pool s) = (d, p) → d = AdmitPark ∨ d = AdmitPollErr →
    rstep s (loop_to p LTop 0 0 s)
| rs_claim s n g k rel p :
    rs_loop s = LGranted n g → (0 ≤ k)%Z → settle_claim n g k (rs_pool s) = (rel, p) →
    rstep s (claimed n k (loop_to p (if (k =? 0)%Z then LTop else LStart k (Z.min g k)) 0 rel s))
| rs_start s k g :
    rs_loop s = LStart k g → (0 < k)%Z →
    rstep s {| rs_pool := with_running 1 (rs_pool s);
               rs_loop := LStart (k - 1) (if (0 <? g)%Z then g - 1 else g)%Z;
               rs_jobs := rs_jobs s ++ [JRun (0 <? g)%Z]; rs_acquired := rs_acquired s;
               rs_released := rs_released s; rs_stop := rs_stop s; rs_claims := rs_claims s;
               rs_over := rs_over s |}
| rs_started s g : rs_loop s = LStart 0 g → rstep s (loop_to (rs_pool s) LTop 0 0 s)
(** A job's dispatch returns, handing its permit back; then its slot. *)
| rs_job_ends s i b :
    rs_jobs s !! i = Some (JRun b) → rstep s (job_to (rs_pool s) i JEnded (if b then 1 else 0) s)
| rs_job_counted s i :
    rs_jobs s !! i = Some JEnded → rstep s (job_to (with_running (-1) (rs_pool s)) i JFree 0 s)
| rs_job_freed s i :
    rs_jobs s !! i = Some JFree → rstep s (job_to (release 1 (rs_pool s)) i JGone 0 s).
End runner.

(** ** What the counters count *)

Definition loop_slots (l : loop_pc) : Z :=
  match l with LHeld n | LChecked n | LGranted n _ => n | LStart k _ => k | _ => 0 end.
Definition loop_permits (l : loop_pc) : Z := match l with LGranted _ g | LStart _ g => g | _ => 0 end.
Definition count_jobs_at (f : job_pc → bool) (l : list job_pc) : Z := Z.of_nat (length (filter (λ j, f j = true) l)).
Definition has_slot (j : job_pc) : bool := match j with JGone => false | _ => true end.
Definition executing (j : job_pc) : bool := match j with JRun _ | JEnded => true | _ => false end.
Definition has_permit (j : job_pc) : bool := match j with JRun true => true | _ => false end.

(** The loop's own numbers make sense. *)
Definition loop_ok (l : loop_pc) : Prop :=
  match l with
  | LHeld n | LChecked n => (1 ≤ n)%Z
  | LGranted n g => (1 ≤ n ∧ 0 ≤ g)%Z
  | LStart k g => (0 ≤ g ≤ k)%Z
  | _ => True
  end.

Record accounted (s : runner_st) : Prop := {
  ac_panic : po_panic (rs_pool s) = false;
  ac_held : po_held (rs_pool s) = (loop_slots (rs_loop s) + count_jobs_at has_slot (rs_jobs s))%Z;
  ac_running : po_running (rs_pool s) = count_jobs_at executing (rs_jobs s);
  ac_idle : po_idle (rs_pool s) = (po_held (rs_pool s) =? 0)%Z;
  ac_permits : (rs_acquired s - rs_released s)%Z =
    (loop_permits (rs_loop s) + count_jobs_at has_permit (rs_jobs s))%Z;
  ac_limit : (1 ≤ po_limit (rs_pool s) ≤ po_size (rs_pool s))%Z;
  ac_bound : rs_over s = false → (po_held (rs_pool s) ≤ po_size (rs_pool s))%Z;
  ac_loop : loop_ok (rs_loop s);
  ac_waiter : ∀ g, rs_loop s = LWait g → g = po_gen (rs_pool s) → (po_limit (rs_pool s) ≤ po_held (rs_pool s))%Z;
  ac_gen : ∀ g, rs_loop s = LWait g → (g ≤ po_gen (rs_pool s))%nat
}.

(** ** Every step keeps the account *)

Lemma count_insert f l i j j' :
  l !! i = Some j →
  (count_jobs_at f (<[i := j']> l) + (if f j then 1 else 0) = count_jobs_at f l + (if f j' then 1 else 0))%Z.
Proof.
  intros Hi. unfold count_jobs_at. rewrite insert_take_drop by (by eapply lookup_lt_Some).
  rewrite <-(take_drop_middle _ _ _ Hi) at 3. rewrite !filter_app, !length_app, !filter_cons.
  destruct (f j), (f j'); repeat (rewrite decide_True by done || rewrite decide_False by done); simpl; lia.
Qed.
Lemma count_snoc f l j : count_jobs_at f (l ++ [j]) = (count_jobs_at f l + (if f j then 1 else 0))%Z.
Proof.
  unfold count_jobs_at. rewrite filter_app, length_app, filter_cons.
  destruct (f j); repeat (rewrite decide_True by done || rewrite decide_False by done); simpl; lia.
Qed.
Lemma count_nonneg f l : (0 ≤ count_jobs_at f l)%Z.
Proof. unfold count_jobs_at. lia. Qed.
Lemma count_mono (f g : job_pc → bool) l :
  (∀ j, f j = true → g j = true) → (count_jobs_at f l ≤ count_jobs_at g l)%Z.
Proof.
  intros Hfg. unfold count_jobs_at. induction l as [|j l IH]; [done|]. rewrite !filter_cons.
  specialize (Hfg j). destruct (f j), (g j);
    repeat (rewrite decide_True by done || rewrite decide_False by done); simpl; naive_solver lia.
Qed.

(** A release of slots that are held. *)
Lemma release_held n p :
  (0 < n ≤ po_held p)%Z → po_idle p = (po_held p =? 0)%Z → po_panic p = false →
  release n p =
    {| po_size := po_size p; po_limit := po_limit p; po_held := po_held p - n; po_running := po_running p;
       po_idle := (po_held p - n =? 0)%Z; po_gen := S (po_gen p); po_panic := false |}.
Proof.
  intros Hn Hi Hp. unfold release. rewrite (proj2 (Z.leb_gt n 0)) by lia. rewrite Z.min_l by lia.
  rewrite (proj2 (Z.eqb_neq n 0)), Hi, Hp by lia. rewrite (proj2 (Z.eqb_neq (po_held p) 0)) by lia.
  rewrite andb_false_r. f_equal; [by destruct (po_held p - n =? 0)%Z|done..].
Qed.

Lemma admitLocked_idle n p :
  (0 < n)%Z → (0 ≤ po_held p)%Z → po_idle p = (po_held p =? 0)%Z →
  po_idle (admitLocked n p) = (po_held (admitLocked n p) =? 0)%Z.
Proof.
  intros Hn Hh Hi. simpl. rewrite (proj2 (Z.eqb_neq (po_held p + n) 0)) by lia. rewrite Hi.
  by destruct (_ =? _)%Z.
Qed.

(** A thread's move leaves the pool's size alone, and raises the generation only. *)
Record pool_step (p p' : pool) : Prop := {
  psz : po_size p' = po_size p; plim : po_limit p' = po_limit p; prun : po_running p' = po_running p;
  ppan : po_panic p' = false; pidl : po_idle p' = (po_held p' =? 0)%Z
}.

Section pool_steps.
Context (p : pool) (Hidle : po_idle p = (po_held p =? 0)%Z) (Hpanic : po_panic p = false).

Lemma release_step n : (0 < n ≤ po_held p)%Z → pool_step p (release n p) ∧ po_held (release n p) = (po_held p - n)%Z.
Proof. intros Hn. rewrite release_held by done. by split. Qed.

Lemma reserve_step want n p' :
  (0 ≤ po_held p)%Z → reserve want p = Some (n, p') →
  pool_step p p' ∧ po_held p' = (po_held p + n)%Z ∧ (1 ≤ n)%Z ∧ (po_held p' ≤ po_limit p)%Z.
Proof.
  intros Hh. unfold reserve. cbv zeta. destruct (Z.ltb_spec 0 (po_limit p - po_held p)); [|done]. intros [= <- <-].
  set (w := if (want <? 1)%Z then 1%Z else want). assert (1 ≤ w)%Z by (unfold w; case_match; lia).
  split_and!; [split; try done; apply admitLocked_idle; [lia|done..]|done|lia|simpl; lia].
Qed.

Lemma runner_admit_step failClosed a n d p' :
  (1 ≤ n ≤ po_held p)%Z → runner_admit failClosed a n p = (d, p') →
  pool_step p p' ∧
  match d with
  | AdmitProceed k g => (1 ≤ k ≤ n ∧ 0 ≤ g)%Z ∧ po_held p' = (po_held p - (n - k))%Z
  | _ => po_held p' = (po_held p - n)%Z
  end.
Proof.
  intros Hn. destruct (release_step n) as [Hr1 Hr2]; [lia|]. unfold runner_admit.
  destruct a as [| |m]; [intros [= <- <-]; split; [by split|lia]| |].
  - destruct failClosed; intros [= <- <-]; [done|]. split; [by split|lia].
  - destruct (Z.leb_spec m 0); intros [= <- <-]; [done|].
    destruct (Z.ltb_spec 0 (n - Z.min n m)).
    + destruct (release_step (n - Z.min n m)) as [Hs1 Hs2]; [lia|]. split; [done|]. split; lia.
    + split; [by split|]. split; lia.
Qed.

Lemma settle_claim_step n g k rel p' :
  (1 ≤ n ≤ po_held p)%Z → (0 ≤ g)%Z → (0 ≤ k)%Z → settle_claim n g k p = (rel, p') →
  pool_step p p' ∧ po_held p' = (po_held p - n + k)%Z ∧
  rel = (if (k =? 0)%Z then g else g - Z.min g k)%Z.
Proof.
  intros Hn Hg Hk. unfold settle_claim. destruct (Z.eqb_spec k 0) as [->|Hk0]; intros [= <- <-].
  { destruct (release_step n) as [Hr1 Hr2]; [lia|]. split_and!; try done. lia. }
  split_and!; [| |destruct (Z.ltb_spec 0 (g - k)); lia].
  - destruct (Z.ltb_spec k n); [by apply release_step; lia|]. destruct (Z.ltb_spec n k); [|by split].
    unfold pool_admit. rewrite (proj2 (Z.leb_gt (k - n) 0)) by lia. split; try done.
    apply admitLocked_idle; [lia..|done].
  - destruct (Z.ltb_spec k n); [destruct (release_step (n - k)) as [_ ->]; lia|].
    destruct (Z.ltb_spec n k); [|lia].
    unfold pool_admit. rewrite (proj2 (Z.leb_gt (k - n) 0)) by lia. simpl. lia.
Qed.
End pool_steps.

Lemma accounted_init c : accounted (runner_init c).
Proof. unfold runner_init, newPool. split; simpl; try done; case_match; lia. Qed.

Lemma accounted_held s : accounted s → (0 ≤ po_held (rs_pool s) ∧ loop_slots (rs_loop s) ≤ po_held (rs_pool s))%Z.
Proof.
  intros [_ Hh _ _ _ _ _ Hl _ _]. pose proof (count_nonneg has_slot (rs_jobs s)).
  assert (0 ≤ loop_slots (rs_loop s))%Z by (destruct (rs_loop s); simpl in *; lia). lia.
Qed.

(** A move of the loop that is not a wait keeps the account when its numbers do. *)
Lemma accounted_loop s p l acq rel :
  accounted s → pool_step (rs_pool s) p →
  (po_held p = po_held (rs_pool s) + loop_slots l - loop_slots (rs_loop s))%Z →
  (acq - rel = loop_permits l - loop_permits (rs_loop s))%Z → loop_ok l →
  (rs_over s = false → (po_held p ≤ po_size p)%Z) → (∀ g, l ≠ LWait g) →
  accounted (loop_to p l acq rel s).
Proof.
  intros [_ Hh Hr _ Hp Hlim _ _ _ _] [Hsz Hl2 Hrun Hpan Hidl] Hheld Hper Hok Hb Hnw.
  split; simpl; try done; try (by intros ? ?%Hnw).
  - lia.
  - congruence.
  - lia.
  - by rewrite Hl2, Hsz.
Qed.

(** A move of a job. *)
Lemma accounted_job s i j j' p rel :
  accounted s → rs_jobs s !! i = Some j → po_panic p = false →
  po_idle p = (po_held p =? 0)%Z → po_size p = po_size (rs_pool s) → po_limit p = po_limit (rs_pool s) →
  (po_held p + (if has_slot j then 1 else 0) = po_held (rs_pool s) + (if has_slot j' then 1 else 0))%Z →
  (po_running p + (if executing j then 1 else 0) = po_running (rs_pool s) + (if executing j' then 1 else 0))%Z →
  (rel + (if has_permit j' then 1 else 0) = (if has_permit j then 1 else 0))%Z →
  (if has_slot j' then po_gen p = po_gen (rs_pool s) ∧ po_held p = po_held (rs_pool s) else po_gen p = S (po_gen (rs_pool s))) →
  (has_slot j = false → has_slot j' = false) →
  accounted (job_to p i j' rel s).
Proof.
  intros [_ Hh Hr _ Hp Hlim Hb Hl Hw Hg] Hi Hpan Hidl Hsz Hl2 Hheld Hrun Hper Hgen Hmono.
  pose proof (count_insert has_slot _ _ _ j' Hi). pose proof (count_insert executing _ _ _ j' Hi).
  pose proof (count_insert has_permit _ _ _ j' Hi).
  split; simpl; try done; rewrite ?Hl2, ?Hsz; try lia.
  - intros Ho%Hb. destruct (has_slot j) eqn:E1, (has_slot j') eqn:E2; try lia; by specialize (Hmono eq_refl).
  - intros g Hlw Hgg. specialize (Hg _ Hlw). destruct (has_slot j'); [|lia]. destruct Hgen as [Hg1 Hg2].
    rewrite Hg2. apply (Hw g); [done|]. congruence.
  - intros g Hlw. specialize (Hg _ Hlw). destruct (has_slot j'); [destruct Hgen as [-> _]; done|lia].
Qed.

Lemma accounted_cap s n : accounted s → accounted (loop_to (setLimit n (rs_pool s)) (rs_loop s) 0 0 s).
Proof.
  intros [Hpan Hh Hr Hi Hp Hlim Hb Hl Hw Hg]. unfold setLimit. cbv zeta.
  destruct (Z.eqb_spec (Z.min (Z.max n 1) (po_size (rs_pool s))) (po_limit (rs_pool s))) as [E|E].
  - split; simpl; try done. lia.
  - split; simpl; try done; try lia.
    + intros g Hlw. specialize (Hg _ Hlw). specialize (Hw _ Hlw).
      destruct (Z.ltb_spec (po_limit (rs_pool s)) (Z.min (Z.max n 1) (po_size (rs_pool s)))); lia.
    + intros g Hlw. specialize (Hg _ Hlw). case_match; lia.
Qed.

Lemma accounted_start s k g :
  accounted s → rs_loop s = LStart k g → (0 < k)%Z →
  accounted {| rs_pool := with_running 1 (rs_pool s);
               rs_loop := LStart (k - 1) (if (0 <? g)%Z then g - 1 else g)%Z;
               rs_jobs := rs_jobs s ++ [JRun (0 <? g)%Z]; rs_acquired := rs_acquired s;
               rs_released := rs_released s; rs_stop := rs_stop s; rs_claims := rs_claims s;
               rs_over := rs_over s |}.
Proof.
  intros [Hpan Hh Hr Hi Hp Hlim Hb Hl Hw Hg] E Hk. rewrite E in *. simpl in *.
  split; simpl; try done; rewrite ?count_snoc; simpl; try lia; destruct (Z.ltb_spec 0 g); lia.
Qed.

Lemma rstep_accounted failClosed want s s' : rstep failClosed want s s' → accounted s → accounted s'.
Proof.
  intros Hstep Hac. pose proof (accounted_held s Hac) as [Hh0 Hls].
  pose proof (ac_idle s Hac) as Hidle. pose proof (ac_panic s Hac) as Hpanic. pose proof (ac_loop s Hac) as Hlok.
  pose proof (ac_bound s Hac) as Hbound.
  destruct Hstep as [s|s n|s El|s n p Hl Hr|s Hl Hr|s g El|s n El Es|s n El Es|s n a k g p El Ha|s n a d p El Ha Hd
    |s n g k rel p El Hk Hs|s k g El Hk|s g El|s i b Hi|s i Hi|s i Hi].
  - destruct Hac. by split.
  - by apply accounted_cap.
  - apply accounted_loop; try done; rewrite ?El; simpl; try lia; by split.
  - destruct (reserve_step (rs_pool s) Hidle Hpanic want n p Hh0 Hr) as (Hps & Hph & Hn & Hle).
    pose proof (ac_limit s Hac). apply accounted_loop; try done; simpl.
    + destruct Hl as [[-> _]|(g & -> & _)]; simpl; lia.
    + destruct Hl as [[-> _]|(g & -> & _)]; simpl; lia.
    + intros _. rewrite (psz _ _ Hps). lia.
  - assert (po_limit (rs_pool s) ≤ po_held (rs_pool s))%Z as Hfull.
    { unfold reserve in Hr. destruct (Z.ltb_spec 0 (po_limit (rs_pool s) - po_held (rs_pool s))); [done|lia]. }
    destruct Hac as [? Hh ? ? Hp ? ? ? ? ?]. assert (loop_slots (rs_loop s) = 0 ∧ loop_permits (rs_loop s) = 0)%Z as [E1 E2].
    { destruct Hl as [[-> _]|(g & -> & _)]; done. }
    split; simpl; try done; try lia. intros g [= <-]. done.
  - apply accounted_loop; try done; rewrite ?El; simpl; try lia; by split.
  - rewrite El in *. simpl in *. destruct (release_step (rs_pool s) Hidle Hpanic n) as [Hps Hph]; [lia|].
    apply accounted_loop; try done; rewrite ?El; simpl; [lia|lia|]. intros Ho%Hbound. rewrite (psz _ _ Hps). lia.
  - rewrite El in *. simpl in *. apply accounted_loop; try done; rewrite ?El; simpl; try lia; by split.
  - rewrite El in *. simpl in *. destruct (runner_admit_step (rs_pool s) Hidle Hpanic failClosed a n _ p ltac:(lia) Ha)
      as (Hps & Hk & Hph). apply accounted_loop; try done; rewrite ?El; simpl; [lia|lia|lia|].
    intros Ho%Hbound. rewrite (psz _ _ Hps). lia.
  - rewrite El in *. simpl in *. destruct (runner_admit_step (rs_pool s) Hidle Hpanic failClosed a n d p ltac:(lia) Ha)
      as (Hps & Hph). assert (po_held p = po_held (rs_pool s) - n)%Z as Hph' by (by destruct Hd as [-> | ->]).
    apply accounted_loop; try done; rewrite ?El; simpl; [lia|lia|]. intros Ho%Hbound. rewrite (psz _ _ Hps). lia.
  - rewrite El in *. simpl in *. destruct (settle_claim_step (rs_pool s) Hidle Hpanic n g k rel p) as (Hps & Hph & Hrel);
      try done; try lia.
    set (l := if (k =? 0)%Z then LTop else LStart k (Z.min g k)).
    set (s1 := {| rs_pool := rs_pool s; rs_loop := rs_loop s; rs_jobs := rs_jobs s; rs_acquired := rs_acquired s;
         rs_released := rs_released s; rs_stop := rs_stop s; rs_claims := rs_claims s;
         rs_over := rs_over s || (n <? k)%Z |}).
    assert (accounted s1) as Hac1.
    { destruct Hac as [? ? ? ? ? ? Hbb ? ? ?]. split; try done. simpl. rewrite orb_false_iff. intros [? _]. auto. }
    assert (accounted (loop_to p l 0 rel s1)) as Hfin.
    { apply accounted_loop; try done; simpl; rewrite ?El; unfold l; simpl.
      - destruct (Z.eqb_spec k 0); simpl; lia.
      - destruct (Z.eqb_spec k 0); simpl; lia.
      - destruct (Z.eqb_spec k 0); simpl; [done|lia].
      - rewrite orb_false_iff. intros [Ho%Hbound ?]. rewrite (psz _ _ Hps). lia.
      - intros g'. by destruct (k =? 0)%Z. }
    destruct Hfin. by split.
  - by apply accounted_start.
  - rewrite El in *. simpl in *. apply accounted_loop; try done; rewrite ?El; simpl; try lia; by split.
  - apply (accounted_job s i (JRun b)); try done; destruct b; simpl; lia.
  - apply (accounted_job s i JEnded); try done; simpl; lia.
  - pose proof (count_nonneg has_slot (rs_jobs s)). pose proof (ac_held s Hac).
    assert (1 ≤ count_jobs_at has_slot (rs_jobs s))%Z.
    { pose proof (count_insert has_slot _ _ _ JGone Hi) as Hc. pose proof (count_nonneg has_slot (<[i:=JGone]> (rs_jobs s))).
      simpl in Hc. lia. }
    assert (0 ≤ loop_slots (rs_loop s))%Z by (destruct (rs_loop s); simpl in *; lia).
    rewrite release_held by (done || lia). apply (accounted_job s i JFree); try done; simpl; lia.
Qed.

Lemma setLimit_size n p : po_size (setLimit n p) = po_size p.
Proof. unfold setLimit. by case_match. Qed.
Lemma release_size n p : po_size (release n p) = po_size p.
Proof. unfold release. by repeat case_match. Qed.
Lemma reserve_size want n p p' : reserve want p = Some (n, p') → po_size p' = po_size p.
Proof. unfold reserve. cbv zeta. destruct (0 <? _)%Z; [|done]. by intros [= <- <-]. Qed.
Lemma runner_admit_size fc a n p d p' : runner_admit fc a n p = (d, p') → po_size p' = po_size p.
Proof. unfold runner_admit. repeat case_match; intros [= <- <-]; rewrite ?release_size; done. Qed.
Lemma settle_claim_size n g k p rel p' : settle_claim n g k p = (rel, p') → po_size p' = po_size p.
Proof.
  unfold settle_claim, pool_admit. repeat case_match; intros [= <- <-]; rewrite ?release_size; done.
Qed.

Lemma rstep_size fc want s s' : rstep fc want s s' → po_size (rs_pool s') = po_size (rs_pool s).
Proof.
  intros []; simpl; eauto using setLimit_size, release_size, reserve_size, runner_admit_size, settle_claim_size.
Qed.

Section runner_theorems.
Context (failClosed : bool) (want concurrency : Z).
Abbreviation runner_reaches := (rtc (rstep failClosed want) (runner_init concurrency)).

Lemma reaches_accounted s : runner_reaches s → accounted s ∧ po_size (rs_pool s) = Z.max 1 concurrency.
Proof.
  assert (accounted (runner_init concurrency) ∧ po_size (rs_pool (runner_init concurrency)) = Z.max 1 concurrency) as H0.
  { split; [apply accounted_init|]. simpl. case_match; lia. }
  revert H0. generalize (runner_init concurrency). intros s0 H0 Hr. induction Hr as [|s0 s1 s2 Hs _ IH]; [done|].
  apply IH. destruct H0 as [Ha Hz]. split; [by eapply rstep_accounted|]. by rewrite (rstep_size _ _ _ _ Hs).
Qed.

(** C12. The worker pool's account is exact. Whatever the interleaving of the claim
    loop, the limiter's answers, cap changes, Stop and the jobs' ends: no channel is
    closed twice; every claimed job has a slot and every slot is a reservation or a
    job, so with a driver that serves no more than asked no more than Concurrency
    jobs ever run; the idle channel is closed exactly while nothing is held; every
    permit acquired and not yet handed back is the loop's or a running job's; and the
    loop never waits for a slot beside a free one. *)
Theorem runner_accounts s :
  runner_reaches s →
  let p := rs_pool s in
  po_panic p = false ∧
  po_held p = (loop_slots (rs_loop s) + count_jobs_at has_slot (rs_jobs s))%Z ∧
  po_running p = count_jobs_at executing (rs_jobs s) ∧ (0 ≤ po_running p ≤ po_held p)%Z ∧
  (rs_over s = false → (po_running p ≤ Z.max 1 concurrency)%Z) ∧
  (po_idle p = true ↔ loop_slots (rs_loop s) = 0%Z ∧ count_jobs_at has_slot (rs_jobs s) = 0%Z) ∧
  (rs_acquired s - rs_released s)%Z = (loop_permits (rs_loop s) + count_jobs_at has_permit (rs_jobs s))%Z ∧
  (0 ≤ rs_acquired s - rs_released s)%Z ∧
  (∀ g, rs_loop s = LWait g → g = po_gen p → (po_limit p ≤ po_held p)%Z).
Proof.
  intros [Ha Hsz]%reaches_accounted p. pose proof (accounted_held s Ha) as [Hh0 Hls].
  pose proof (count_mono executing has_slot (rs_jobs s) ltac:(by intros [])) as Hmono.
  pose proof (count_nonneg executing (rs_jobs s)). pose proof (count_nonneg has_slot (rs_jobs s)).
  pose proof (count_nonneg has_permit (rs_jobs s)).
  destruct Ha as [Hpan Hh Hr Hi Hp Hlim Hb Hl Hw Hg]. fold p in Hpan, Hh, Hr, Hi, Hb, Hw, Hsz.
  assert (0 ≤ loop_slots (rs_loop s) ∧ 0 ≤ loop_permits (rs_loop s))%Z as [? ?]
    by (destruct (rs_loop s); simpl in *; lia).
  split_and!; try done; try lia.
  - intros Ho%Hb. lia.
  - rewrite Hi. destruct (Z.eqb_spec (po_held p) 0); split; try done; lia.
Qed.

(** The claims the loop may still make once it has looked at Stop. *)
Definition claim_pending (l : loop_pc) : nat := match l with LChecked _ | LGranted _ _ => 1 | _ => 0 end.

Lemma rstep_stopped s s' :
  rstep failClosed want s s' → rs_stop s = true →
  rs_stop s' = true ∧ rs_claims s' + claim_pending (rs_loop s') ≤ rs_claims s + claim_pending (rs_loop s).
Proof.
  intros Hs Hst. destruct Hs as [s|s n|s El|s n p Hl Hr|s Hl Hr|s g El|s n El Es|s n El Es|s n a k g p El Ha|s n a d p El Ha Hd
    |s n g k rel p El Hk Hset|s k g El Hk|s g El|s i b Hi|s i Hi|s i Hi];
    simpl; (split; [done|]); rewrite ?El; simpl; try lia; try congruence; try (case_match; simpl; lia);
    destruct Hl as [[-> ?]|(g & -> & _)]; simpl; lia.
Qed.

(** C13. Stop ends the claiming. From the moment Stop is called, however the loop and
    its jobs go on, at most one more claim is issued, the one the loop was already
    committed to; and once the loop has returned and the pool reads idle, as Drain
    waits for, no job runs, no permit is out, and nothing is ever claimed or started
    again. *)
Theorem stop_ends_claiming s s' :
  runner_reaches s → rs_stop s = true → rtc (rstep failClosed want) s s' →
  rs_claims s' ≤ S (rs_claims s) ∧
  (rs_loop s = LDone → po_idle (rs_pool s) = true →
     rs_acquired s = rs_released s ∧ rs_claims s' = rs_claims s ∧ rs_loop s' = LDone ∧
     count_jobs_at executing (rs_jobs s') = 0%Z).
Proof.
  intros Hre Hst Hr. split.
  - assert (rs_claims s' + claim_pending (rs_loop s') ≤ rs_claims s + claim_pending (rs_loop s)) as Hle.
    { clear Hre. induction Hr as [|s1 s2 s3 Hs _ IH]; [done|]. destruct (rstep_stopped _ _ Hs Hst) as [? ?].
      specialize (IH ltac:(done)). lia. }
    assert (claim_pending (rs_loop s) ≤ 1) by (destruct (rs_loop s); simpl; lia). lia.
  - intros Hl Hi. destruct (reaches_accounted s Hre) as [Ha _].
    assert (∀ s, accounted s → rs_loop s = LDone → po_idle (rs_pool s) = true →
      count_jobs_at has_slot (rs_jobs s) = 0%Z) as Hnone.
    { intros s1 [_ Hh _ Hi1 _ _ _ _ _ _] E E2. rewrite E in Hh. simpl in Hh. rewrite E2 in Hi1. lia. }
    assert (accounted s' ∧ rs_loop s' = LDone ∧ po_idle (rs_pool s') = true ∧ rs_claims s' = rs_claims s)
      as (Ha' & Hl' & Hi' & Hc').
    { clear Hre Hst. induction Hr as [|s1 s2 s3 Hs _ IH]; [done|].
      assert (accounted s2) as Ha2 by (by eapply rstep_accounted).
      assert (rs_loop s2 = LDone ∧ po_idle (rs_pool s2) = true ∧ rs_claims s2 = rs_claims s1) as (E1 & E2 & E3).
      { pose proof (Hnone _ Ha Hl Hi) as Hz.
        assert (∀ i j, rs_jobs s1 !! i = Some j → has_slot j = false) as Hgone.
        { intros i j Hij. pose proof (count_insert has_slot _ _ _ JGone Hij) as Hci.
          pose proof (count_nonneg has_slot (<[i:=JGone]> (rs_jobs s1))). destruct (has_slot j); [|done]. simpl in Hci. lia. }
        destruct Hs as [s0|s0 n|s0 El|s0 n p El Er|s0 El Er|s0 g El|s0 n El Es|s0 n El Es|s0 n a k g p El Ea|s0 n a d p El Ea Ed
          |s0 n g k rel p El Ek Eset|s0 k g El Ek|s0 g El|s0 i b Hij|s0 i Hij|s0 i Hij]; simpl in *;
          try done; try congruence; try (destruct El as [[? _]|(? & ? & _)]; congruence);
          try (by pose proof (Hgone _ _ Hij)).
        unfold setLimit. by case_match. }
      destruct (IH E1 E2 Ha2) as (? & ? & ? & ?). split_and!; try done. congruence. }
    pose proof (Hnone _ Ha Hl Hi). pose proof (Hnone _ Ha' Hl' Hi').
    pose proof (count_mono executing has_slot (rs_jobs s') ltac:(by intros [])).
    pose proof (count_mono has_permit has_slot (rs_jobs s) ltac:(by intros [])).
    pose proof (count_nonneg executing (rs_jobs s')). pose proof (count_nonneg has_permit (rs_jobs s)).
    pose proof (ac_permits _ Ha) as Hper. rewrite Hl in Hper. simpl in Hper.
    split_and!; try done; lia.
Qed.
End runner_theorems.
