(* ===== verification/Runner.v ===== *)
(** * The runner: configuration, ladders, dispatch, heartbeat and the poll loop

    internal/core/runner.go, lease_heartbeat.go, queue_state.go and the dispatch
    closure of registry.go, over the driver's operations of Finalize.v. What host
    code decides (a worker's answer, a Classifier, a Retryable, a clock) and what the
    random jitter draws are arguments. The pool's slots and permits are Pool.v's. *)

From S2P Require Import Prelude Types Text Fingerprint Store Plan Insert Barrier Finalize Client Pool.

(** ** Configuration *)

Definition defaultLeaseDuration : Z := 30 * second.
Definition defaultPollInterval : Z := 100 * millisecond.
Definition defaultRetryBackoffBase : Z := second.
Definition defaultMaxRetryBackoff : Z := minute.
Definition defaultMaxPollBackoff : Z := 30 * second.
Definition heartbeatDivisor : Z := 3.
Definition minHeartbeatInterval : Z := second.
Definition defaultLimiterStarvationInterval : Z := 30 * second.
Definition defaultUnknownKindGrace : Z := 15 * minute.
Definition unknownKindDeferralBase : Z := second.
Definition maxUnknownKindDeferral : Z := minute.
Definition defaultQueueStateRefresh : Z := 5 * second.

Inductive driver_kind := PostgresDriver | SQLiteDriver | OtherDriver.
#[global] Instance driver_kind_eq_dec : EqDecision driver_kind.
Proof. solve_decision. Defined.

(** [RunnerConfig]; an interface or pointer is whether it is set. *)
Record RunnerConfig := {
  rc_DB : bool; rc_Driver : option driver_kind; rc_Registry : bool; rc_UnknownKindGrace : Z;
  rc_Queues : list string; rc_QueueStateRefresh : Z; rc_ExecutorClass : string; rc_LeaseDuration : Z;
  rc_HeartbeatInterval : Z; rc_CooperativeCancel : bool; rc_PollInterval : Z; rc_MaxPollBackoff : Z;
  rc_Concurrency : Z; rc_ClaimBatchSize : Z; rc_RetryBackoffBase : Z; rc_MaxRetryBackoff : Z;
  rc_DefaultTimeout : Z; rc_Limiter : bool; rc_Resource : string; rc_LimiterFailClosed : bool;
  rc_LimiterStarvationInterval : Z
}.

Inductive runner_error :=
| errRunnerNeedsDB | errRunnerNeedsDriver | errRunnerNeedsRegistry | errRunnerNeedsQueue
| errRunnerNeedsResource | errRunnerCooperativeCancelNeedsHeartbeat | ErrSQLiteConcurrency.

(** The ceiling of the poll ladder is floored at two intervals, in int64. *)
Definition poll_ceiling (poll maxPoll : Z) : Z :=
  let floor := wrap64 (2 * poll) in if (maxPoll <? floor)%Z then floor else maxPoll.

Definition NewRunner (cfg : RunnerConfig) : result runner_error (RunnerConfig * pool) :=
  if negb (rc_DB cfg) then Err errRunnerNeedsDB
  else match rc_Driver cfg with
  | None => Err errRunnerNeedsDriver
  | Some drv =>
    if negb (rc_Registry cfg) then Err errRunnerNeedsRegistry
    else if (length (rc_Queues cfg) =? 0)%nat then Err errRunnerNeedsQueue
    else if rc_Limiter cfg && is_empty (rc_Resource cfg) then Err errRunnerNeedsResource
    else if rc_CooperativeCancel cfg && (rc_HeartbeatInterval cfg <? 0)%Z
    then Err errRunnerCooperativeCancelNeedsHeartbeat
    else if bool_decide (drv = SQLiteDriver) && (1 <? rc_Concurrency cfg)%Z then Err ErrSQLiteConcurrency
    else
      let concurrency := orDuration (rc_Concurrency cfg) 1 in
      let poll := orDuration (rc_PollInterval cfg) defaultPollInterval in
      Ok ({| rc_DB := true; rc_Driver := Some drv; rc_Registry := true;
             rc_UnknownKindGrace := rc_UnknownKindGrace cfg; rc_Queues := rc_Queues cfg;
             rc_QueueStateRefresh := rc_QueueStateRefresh cfg; rc_ExecutorClass := rc_ExecutorClass cfg;
             rc_LeaseDuration := orDuration (rc_LeaseDuration cfg) defaultLeaseDuration;
             rc_HeartbeatInterval := rc_HeartbeatInterval cfg;
             rc_CooperativeCancel := rc_CooperativeCancel cfg; rc_PollInterval := poll;
             rc_MaxPollBackoff :=
               poll_ceiling poll (orDuration (rc_MaxPollBackoff cfg) defaultMaxPollBackoff);
             rc_Concurrency := concurrency; rc_ClaimBatchSize := rc_ClaimBatchSize cfg;
             rc_RetryBackoffBase := orDuration (rc_RetryBackoffBase cfg) defaultRetryBackoffBase;
             rc_MaxRetryBackoff := orDuration (rc_MaxRetryBackoff cfg) defaultMaxRetryBackoff;
             rc_DefaultTimeout := rc_DefaultTimeout cfg; rc_Limiter := rc_Limiter cfg;
             rc_Resource := rc_Resource cfg; rc_LimiterFailClosed := rc_LimiterFailClosed cfg;
             rc_LimiterStarvationInterval := rc_LimiterStarvationInterval cfg |},
          newPool concurrency)
  end.

(** A setting whose negative value turns it off, reported as zero, and whose zero
    selects a default. *)
Definition off_or (v fallback : Z) : Z :=
  if (v <? 0)%Z then 0%Z else if (0 <? v)%Z then v else fallback.
Definition starvationInterval (cfg : RunnerConfig) : Z :=
  off_or (rc_LimiterStarvationInterval cfg) defaultLimiterStarvationInterval.
Definition unknownKindGrace (cfg : RunnerConfig) : Z := off_or (rc_UnknownKindGrace cfg) defaultUnknownKindGrace.
Definition queueStateRefresh (cfg : RunnerConfig) : Z :=
  off_or (rc_QueueStateRefresh cfg) defaultQueueStateRefresh.
Definition heartbeatInterval (cfg : RunnerConfig) : Z :=
  let interval := Z.quot (rc_LeaseDuration cfg) heartbeatDivisor in
  off_or (rc_HeartbeatInterval cfg)
    (if (minHeartbeatInterval <? interval)%Z then interval else minHeartbeatInterval).

(** ** The queue state *)

(** A job_queues row, as the refresh selects it. *)
Record queue_row := { q_Queue : string; q_PausedAt : option Z; q_MaxConcurrency : option Z }.
Record queueState := { qs_paused : gset string; qs_read : bool; qs_lastTry : option Z; qs_failing : bool }.
Definition zero_queueState : queueState :=
  {| qs_paused := ∅; qs_read := false; qs_lastTry := None; qs_failing := false |}.

Inductive refresh_read := ReadFailed | ReadCtxEnded | ReadRows (rows : list queue_row).

(** The smallest cap among the rows. *)
Definition smallest_cap (rows : list queue_row) : option Z :=
  foldl (λ capped row,
    match q_MaxConcurrency row with
    | Some c => match capped with
                | Some b => if (c <? b)%Z then Some c else Some b
                | None => Some c
                end
    | None => capped
    end) None rows.
Definition paused_set (rows : list queue_row) : gset string :=
  list_to_set (q_Queue <$> filter (λ row, is_Some (q_PausedAt row)) rows).

(** [claimable], at the monotonic instant [now] with what the read would return: the
    queues, the state and the pool. *)
Definition claimable (cfg : RunnerConfig) (now : Z) (read : refresh_read) (s : queueState) (p : pool)
  : list string * queueState * pool :=
  let refresh := queueStateRefresh cfg in
  if (refresh <=? 0)%Z then (rc_Queues cfg, s, p)
  else
    let due := match qs_lastTry s with None => true | Some t => (refresh <=? time_sub now t)%Z end in
    let '(s, p) :=
      if due then
        match read with
        | ReadFailed =>
          ({| qs_paused := qs_paused s; qs_read := qs_read s; qs_lastTry := Some now; qs_failing := true |}, p)
        | ReadCtxEnded =>
          ({| qs_paused := qs_paused s; qs_read := qs_read s; qs_lastTry := Some now;
              qs_failing := qs_failing s |}, p)
        | ReadRows rows =>
          ({| qs_paused := paused_set rows; qs_read := true; qs_lastTry := Some now; qs_failing := false |},
           setLimit (default (rc_Concurrency cfg) (smallest_cap rows)) p)
        end
      else (s, p) in
    (if negb (qs_read s) || bool_decide (qs_paused s = ∅) then rc_Queues cfg
     else filter (λ q, q ∉ qs_paused s) (rc_Queues cfg), s, p).

(** ** The poll ladder *)

Section ladders.
Context `{Backoff}.

(** [pollBackoff.next]: the failure count, the un-jittered rung and whether the
    ladder is at its ceiling. *)
Definition pollBackoff_next (base maxDelay failures : Z) : Z * Z * bool :=
  let failures := (failures + 1)%Z in
  let rung := expBackoff base maxDelay failures in
  (failures, rung, (maxDelay <=? rung)%Z).

(** ** Unknown kinds *)

(** [unknownKindDeferral]: the delay to defer by, or [None] to discard. *)
Definition unknownKindDeferral (createdAt now attempt grace : Z) : option Z :=
  if (grace <=? 0)%Z || is_zero_time createdAt then None
  else
    let age := Z.max (time_sub now createdAt) 0 in
    let remaining := (grace - age)%Z in
    if (remaining <=? 0)%Z then None
    else Some (Z.min (expBackoff unknownKindDeferralBase maxUnknownKindDeferral attempt) remaining).
End ladders.

(** [claimUnknownKindWarning] on the map of last warnings. *)
Definition claimUnknownKindWarning (kind : string) (now grace : Z) (warned : gmap string Z)
  : bool * gmap string Z :=
  match warned !! kind with
  | None => (true, <[kind := now]> warned)
  | Some last => if (time_sub now last <? grace)%Z then (false, warned) else (true, <[kind := now]> warned)
  end.

(** ** The poll loop *)

(** Why the loop returned: the caller's context, Stop under RunUntilIdle, a dispatch
    error, or the ladder's end after [n] failures. *)
Inductive run_error := RunContext | ErrRunnerStopped | RunDispatch | RunPollFailed (n : Z).
#[global] Instance run_error_eq_dec : EqDecision run_error.
Proof. solve_decision. Defined.

(** How a wait on the loop's context ended: in full, on the caller's context, on Stop. *)
Inductive wait_end := WaitDone | WaitCtx | WaitStop.
(** What an idle iteration sees, in order: the wait for the pool, the collected
    dispatch errors, the pending count ([None] when it failed) and the sleep. *)
Record idle_obs := { io_pool : wait_end; io_errs : bool; io_pending : option Z; io_sleep : wait_end }.
(** How the reservation ended: on the context or Stop, at the refresh, or with slots. *)
Inductive reserve_obs := RsvEnded (w : wait_end) | RsvRefresh | RsvSlots.
Inductive gate_obs := GatePark (w : wait_end) | GatePollErr | GateProceed (claimed : option Z).

(** One iteration's observations: the checks at its top, whether a queue is
    claimable, the reservation, the second look at Stop, the gate with the claim
    behind it ([None] when Dequeue failed), dispatch errors collected by then. *)
Record iteration := {
  it_ctx : bool; it_stop : bool; it_queues : bool; it_reserve : reserve_obs; it_stop2 : bool;
  it_gate : gate_obs; it_errs : bool; it_idle : idle_obs
}.

Section loop.
Context `{Backoff} (cfg : RunnerConfig) (untilIdle : bool).

(** An iteration ends the loop, with nil ([None]) or an error, or goes on with a
    failure count. *)
Abbreviation outcome := (option run_error + Z)%type.

Definition stopResult : option run_error := if untilIdle then Some ErrRunnerStopped else None.
(** [ended]. *)
Definition ended (w : wait_end) : option run_error :=
  match w with WaitCtx => Some RunContext | _ => stopResult end.
Definition onPollError (b : Z) : outcome :=
  let '(failures, _, saturated) := pollBackoff_next (rc_PollInterval cfg) (rc_MaxPollBackoff cfg) b in
  if untilIdle && saturated then inl (Some (RunPollFailed failures)) else inr failures.
Definition slept (w : wait_end) (b : Z) : outcome :=
  match w with WaitDone => inr b | _ => inl (ended w) end.

(** [Runner.idle]. *)
Definition idle (o : idle_obs) (b : Z) : outcome :=
  if negb untilIdle then slept (io_sleep o) 0
  else match io_pool o with
  | WaitDone =>
    if io_errs o then inl (Some RunDispatch)
    else match io_pending o with
    | None => onPollError b
    | Some pending => if (pending =? 0)%Z then inl None else slept (io_sleep o) 0
    end
  | w => inl (ended w)
  end.

(** [drainDispatchErr], then the rest. *)
Definition drained (errs : bool) (k : outcome) : outcome :=
  if errs && untilIdle then inl (Some RunDispatch) else k.

(** One iteration of [run]. *)
Definition run_iteration (o : iteration) (b : Z) : outcome :=
  if it_ctx o then inl (Some RunContext)
  else if it_stop o then inl stopResult
  else if negb (it_queues o) then idle (it_idle o) b
  else match it_reserve o with
  | RsvEnded w => inl (ended w)
  | RsvRefresh => inr b
  | RsvSlots =>
    if it_stop2 o then inl stopResult
    else match it_gate o with
    | GatePark w => drained (it_errs o) (slept w b)
    | GatePollErr => drained (it_errs o) (onPollError b)
    | GateProceed claimed =>
      drained (it_errs o)
        match claimed with
        | None => onPollError b
        | Some n => if (0 <? n)%Z then inr 0%Z else idle (it_idle o) b
        end
    end
  end.

(** [run] on the iterations it makes: the iteration that ended it and what it
    returned, or [None] while it still runs. *)
Fixpoint run (l : list iteration) (b : Z) : option (iteration * option run_error) :=
  match l with
  | [] => None
  | o :: l' => match run_iteration o b with inl e => Some (o, e) | inr b' => run l' b' end
  end.
End loop.

(** ** Workers *)

(** An error of a worker's dispatch: what the driver reads of it, and whether
    errors.Is finds ErrDecodeArgs or context.DeadlineExceeded in its chain. *)
Record work_error := { wk_err : WorkErr; wk_decode : bool; wk_deadline : bool }.
(** How Work ended. *)
Inductive worked := Returned (r : Result) (e : option work_error) | Panicked (value stack : string).

(** [registryEntry]: the decoder's error on the stored args, the worker, and the
    optional interfaces it implements. [e_Work] is called at most once per dispatch. *)
Record registryEntry := {
  e_Unmarshal : string → option WorkErr;
  e_Work : RawJob → string → worked;
  e_classifier : option (WorkErr → ErrorClass);
  e_retryable : option (WorkErr → Z → Z);
  e_defaults : option kindDefaults;
  e_timeouter : option Z
}.
Definition entries : Type := gmap string registryEntry.

(** The dispatch closure [Register] builds: decodeJobArgs, for which an empty payload
    is the zero value, then Work. *)
Definition entry_dispatch (entry : registryEntry) (raw : RawJob) (runID : string) : worked :=
  match (if is_empty (raw_Args raw) then None else e_Unmarshal entry (raw_Args raw)) with
  | Some e => Returned zero_result (Some {| wk_err := e; wk_decode := true; wk_deadline := false |})
  | None => e_Work entry raw runID
  end.

(** [runWork]: a panic becomes an error with an empty result. *)
Definition runWork (entry : registryEntry) (raw : RawJob) (runID : string) : Result * option work_error :=
  match entry_dispatch entry raw runID with
  | Returned r e => (r, e)
  | Panicked value stack =>
    (zero_result,
     Some {| wk_err := {| we_message := "jobs: worker panicked: " +:+ value; we_classified := None;
                          we_panic_stack := Some (truncate stack maxPanicStack); we_fingerprinter := None |};
             wk_decode := false; wk_deadline := false |})
  end.

(** [resolveTimeout]. *)
Definition resolveTimeout (cfg : RunnerConfig) (entry : registryEntry) (raw : RawJob) : Z :=
  let fallback := match e_timeouter entry with
                  | Some d => if (0 <? d)%Z then d else rc_DefaultTimeout cfg
                  | None => rc_DefaultTimeout cfg
                  end in
  match raw_TimeoutMs raw with
  | Some ms => if (0 <? ms)%Z then wrap64 (ms * millisecond) else fallback
  | None => fallback
  end.

Definition with_verdict (c : ErrorClass) (delay : Z) (e : WorkErr) : WorkErr :=
  {| we_message := we_message e; we_classified := Some (c, delay); we_panic_stack := we_panic_stack e;
     we_fingerprinter := we_fingerprinter e |}.

(** ** The heartbeat *)

(** Why the worker's context ended; the first cause stays. *)
Inductive cause := CauseJobCancelled | CauseDeadline | CauseHost.
#[global] Instance cause_eq_dec : EqDecision cause.
Proof. solve_decision. Defined.
(** Where the heartbeat is: renewing, its claim lost and the job's state still
    unread, or over. *)
Inductive hb_pc := HbRenewing | HbReading | HbOver.
Record heartbeat := { hb_at : hb_pc; hb_cause : option cause }.
Definition hb_move (at_ : hb_pc) (h : heartbeat) : heartbeat := {| hb_at := at_; hb_cause := hb_cause h |}.
Definition end_context (c : cause) (h : heartbeat) : heartbeat :=
  {| hb_at := hb_at h; hb_cause := match hb_cause h with Some c' => Some c' | None => Some c end |}.

(** What happens beside a worker: another session commits, the heartbeat ticks (its
    renewal or its read failing or not), the execution timeout passes, or the host
    cancels the runner's context. *)
Inductive attempt_event :=
| Others (f : db → db) | HbTick (ctx : context) (renewFails readFails : bool) | TimesOut | HostCancels.

(** [cancelIfJobCancelled], on jobs of the soft-delete scope. *)
Definition cancelIfJobCancelled (jobID : string) (readFails : bool) (h : heartbeat) (d : db) : heartbeat :=
  if readFails then hb_move HbReading h
  else match find_job d jobID with
  | None => hb_move HbOver h
  | Some row =>
    if bool_decide (j_State row = StateCancelled) then end_context CauseJobCancelled (hb_move HbOver h)
    else hb_move HbOver h
  end.

(** One tick of [startHeartbeat]'s loop, [renewOnce] included. *)
Definition hb_tick (cfg : RunnerConfig) (raw : RawJob) (ctx : context) (renewFails readFails : bool)
    (h : heartbeat) (d : db) : heartbeat * db :=
  match hb_at h with
  | HbOver => (h, d)
  | HbReading => (cancelIfJobCancelled (raw_ID raw) readFails h d, d)
  | HbRenewing =>
    if renewFails then (h, d)
    else
      let '(held, d') := RenewLease ctx (raw_ID raw) (raw_LeaseToken raw)
                           (c_Now ctx 0 + rc_LeaseDuration cfg) d in
      if held then (h, d')
      else if rc_CooperativeCancel cfg then (cancelIfJobCancelled (raw_ID raw) readFails h d', d')
      else (hb_move HbOver h, d')
  end.

(** [startHeartbeat]: off without an interval or a token. *)
Definition hb_start (cfg : RunnerConfig) (raw : RawJob) : heartbeat :=
  {| hb_at := if (heartbeatInterval cfg <=? 0)%Z || is_empty (raw_LeaseToken raw) then HbOver else HbRenewing;
     hb_cause := None |}.

Definition attempt_step (cfg : RunnerConfig) (raw : RawJob) (timeout : Z) (hd : heartbeat * db)
    (ev : attempt_event) : heartbeat * db :=
  match ev with
  | Others f => (hd.1, f hd.2)
  | HbTick ctx renewFails readFails => hb_tick cfg raw ctx renewFails readFails hd.1 hd.2
  | TimesOut => (if (0 <? timeout)%Z then end_context CauseDeadline hd.1 else hd.1, hd.2)
  | HostCancels => (end_context CauseHost hd.1, hd.2)
  end.
Definition attempt_run (cfg : RunnerConfig) (raw : RawJob) (timeout : Z) (l : list attempt_event)
    (hd : heartbeat * db) : heartbeat * db := foldl (attempt_step cfg raw timeout) hd l.

(** ** Observer events *)

Record FinishEvent := {
  fe_Outcome : RunOutcome; fe_ErrorClass : option ErrorClass; fe_State : JobState; fe_MaxAttempts : Z;
  fe_Duration : Z; fe_QueueWait : Z
}.
Inductive obs_event :=
| OnStart (jobID runID : string) (attempt : Z)
| OnFinish (e : FinishEvent)
| OnRetry (nextAttempt delay : Z) (class : option ErrorClass)
| OnSupersede (outcome : RunOutcome) (state : JobState) (duration : Z) (token : string).

Definition finish_event (raw : RawJob) (out : FinalizeOutcome) (startedAt finishedAt : Z) : FinishEvent :=
  {| fe_Outcome := fo_RunOutcome out; fe_ErrorClass := fo_ErrorClass out; fe_State := fo_State out;
     fe_MaxAttempts := raw_MaxAttempts raw; fe_Duration := time_sub finishedAt startedAt;
     fe_QueueWait := match queueWaitMs (raw_ScheduledAt raw) startedAt with
                     | Some ms => wrap64 (ms * millisecond)
                     | None => 0
                     end |}.

(** [observe]. *)
Definition observe_events (raw : RawJob) (out : FinalizeOutcome) (startedAt finishedAt : Z) : list obs_event :=
  if fo_Superseded out
  then [OnSupersede (fo_RunOutcome out) (fo_State out) (time_sub finishedAt startedAt) (raw_LeaseToken raw)]
  else
    OnFinish (finish_event raw out startedAt finishedAt) ::
    (if bool_decide (fo_State out = StateRetryable) then
       [OnRetry (raw_Attempt raw + 1)
          match fo_ScheduledAt out with Some t => time_sub t finishedAt | None => 0 end (fo_ErrorClass out)]
     else []).

(** ** Dispatch *)

(** withKindRegistry, withInsertClient and ctxutil.WithRequestID. *)
Definition entry_defaults (reg : entries) : Registry := e_defaults <$> reg.
Definition withKindRegistry (reg : Registry) (ctx : context) : context :=
  {| c_Now := c_Now ctx; c_NewID := c_NewID ctx; c_RequestID := c_RequestID ctx; c_Registry := Some reg;
     c_Hook := c_Hook ctx; c_GormNow := c_GormNow ctx |}.
Definition withInsertClient (c : option Client) (ctx : context) : context :=
  match c with
  | None => ctx
  | Some c =>
    {| c_Now := c_Now ctx; c_NewID := c_NewID ctx; c_RequestID := c_RequestID ctx;
       c_Registry := c_Registry ctx; c_Hook := cl_hook c; c_GormNow := c_GormNow ctx |}
  end.
Definition with_request_id (id : string) (ctx : context) : context :=
  if is_empty id then ctx
  else
    {| c_Now := c_Now ctx; c_NewID := c_NewID ctx; c_RequestID := id; c_Registry := c_Registry ctx;
       c_Hook := c_Hook ctx; c_GormNow := c_GormNow ctx |}.

Section dispatch.
Context `{Foundation} `{GoLib} `{Backoff}.
(** The jitter, ctxutil.RequestIDFromMetadata, and what the Runner is built from. *)
Context (jittered : Z → Z) (RequestIDFromMetadata : string → string) (opts : DriverOpts) (cfg : RunnerConfig)
        (reg : entries) (client : option Client) (execID : string).

(** [Runner.backoff] and [classify]. *)
Definition backoff (attempt : Z) : Z :=
  jittered (expBackoff (rc_RetryBackoffBase cfg) (rc_MaxRetryBackoff cfg) attempt).
Definition classify (entry : registryEntry) (e : work_error) (raw : RawJob) : WorkErr :=
  let class :=
    if wk_decode e then ErrorValidation
    else if wk_deadline e then ErrorTimeout
    else match e_classifier entry with
         | Some f => let c := f (wk_err e) in
                     if bool_decide (c = ErrorClassOther "") then ErrorTransient else c
         | None => ErrorTransient
         end in
  let delay := match e_retryable entry with Some f => f (wk_err e) (raw_Attempt raw) | None => 0%Z end in
  with_verdict class (if (delay <=? 0)%Z then backoff (raw_Attempt raw) else delay) (wk_err e).

Definition ErrUnknownKind : WorkErr :=
  {| we_message := "jobs: unknown job kind"; we_classified := None; we_panic_stack := None;
     we_fingerprinter := None |}.

(** The result and error an attempt finalizes with: [cancelled] is whether the
    attempt's context was cancelled with the cause ErrJobCancelled. *)
Definition attempt_verdict (entry : registryEntry) (raw : RawJob) (runID : string) (cancelled : bool)
  : Result * option WorkErr :=
  let '(result, workErr) := runWork entry raw runID in
  match workErr with
  | None => (result, None)
  | Some e =>
    if cancelled then
      ({| res_Output := res_Output result; res_Snooze := res_Snooze result; res_Cancel := true;
          res_FollowUps := res_FollowUps result; res_Barrier := res_Barrier result;
          res_CostMicros := res_CostMicros result |},
       Some {| we_message := "jobs: job cancelled while running: " +:+ we_message (wk_err e);
               we_classified := we_classified (wk_err e); we_panic_stack := we_panic_stack (wk_err e);
               we_fingerprinter := we_fingerprinter (wk_err e) |})
    else (result, Some (classify entry e raw))
  end.

(** The result and error of [finalizeUnknownKind], and whether it defers. *)
Definition unknown_verdict (raw : RawJob) (finishedAt : Z) : Result * WorkErr :=
  match unknownKindDeferral (raw_CreatedAt raw) finishedAt (raw_Attempt raw) (unknownKindGrace cfg) with
  | Some delay =>
    ({| res_Output := None; res_Snooze := Some delay; res_Cancel := false; res_FollowUps := [];
        res_Barrier := None; res_CostMicros := 0 |}, ErrUnknownKind)
  | None => (zero_result, with_verdict ErrorPermanent 0 ErrUnknownKind)
  end.

(** What happens beside an attempt: until its worker returns, and from there until
    the finalize. *)
Record attempt := { at_before : list attempt_event; at_after : list attempt_event }.

(** [dispatch]: the stub; for a registered kind the worker, what happens beside it
    included; the finalize; and what the observer is told. *)
Definition dispatch (ctx : context) (runID : string) (startedAt finishedAt : Z) (raw : RawJob)
    (a : attempt) (d : db) : res (list obs_event) * db :=
  match InsertRunStub ctx runID raw startedAt (rc_ExecutorClass cfg) execID d with
  | Err e => (Err e, d)
  | Ok d1 =>
    match reg !! raw_Kind raw with
    | None =>
      let d2 := (attempt_run cfg raw 0 (at_before a ++ at_after a)
                   ({| hb_at := HbOver; hb_cause := None |}, d1)).2 in
      let '(result, e) := unknown_verdict raw finishedAt in
      match Finalize opts (withInsertClient client ctx) raw runID result (Some e) finishedAt d2 with
      | Err err => (Err err, d2)
      | Ok (out, d3) => (Ok (observe_events raw out startedAt finishedAt), d3)
      end
    | Some entry =>
      let timeout := resolveTimeout cfg entry raw in
      let hd := attempt_run cfg raw timeout (at_before a) (hb_start cfg raw, d1) in
      let '(result, e) :=
        attempt_verdict entry raw runID (bool_decide (hb_cause hd.1 = Some CauseJobCancelled)) in
      let d2 := (attempt_run cfg raw timeout (at_after a) hd).2 in
      let fctx := withInsertClient client
                    (withKindRegistry (entry_defaults reg)
                       (with_request_id (RequestIDFromMetadata (raw_Metadata raw)) ctx)) in
      match Finalize opts fctx raw runID result e finishedAt d2 with
      | Err err => (Err err, d2)
      | Ok (out, d3) =>
        (Ok (OnStart (raw_ID raw) runID (raw_Attempt raw) :: observe_events raw out startedAt finishedAt), d3)
      end
    end
  end.
End dispatch.

(** ** Configuration: what NewRunner guarantees *)

Lemma orDuration_pos v fallback : (0 < fallback)%Z → (0 < orDuration v fallback)%Z.
Proof. unfold orDuration. destruct (Z.leb_spec v 0); lia. Qed.

Lemma claimLimit_bounds batch n : (1 ≤ n)%Z → (1 ≤ claimLimit batch n ≤ n)%Z.
Proof. intros. unfold claimLimit. destruct (Z.ltb_spec 0 batch), (Z.ltb_spec batch n); simpl; lia. Qed.

(** The poll ladder NewRunner leaves has a rung to climb. *)
Lemma NewRunner_ladder cfg cfg' p :
  NewRunner cfg = Ok (cfg', p) →
  (0 < rc_PollInterval cfg')%Z ∧
  ((2 * rc_PollInterval cfg' ≤ int64_max)%Z → (2 * rc_PollInterval cfg' ≤ rc_MaxPollBackoff cfg')%Z).
Proof.
  unfold NewRunner. repeat (case_match; try done). intros [= <- <-]. simpl.
  pose proof (orDuration_pos (rc_PollInterval cfg) defaultPollInterval ltac:(done)) as Hp. split; [done|].
  intros Hmax. unfold poll_ceiling. rewrite wrap64_id by (unfold in_int64, int64_min in *; lia).
  destruct (Z.ltb_spec (orDuration (rc_MaxPollBackoff cfg) defaultMaxPollBackoff)
    (2 * orDuration (rc_PollInterval cfg) defaultPollInterval)); lia.
Qed.

(** What NewRunner accepts is a runner that can run: at least one queue and one
    slot, one slot exactly under SQLite; positive lease, poll and backoff settings; a
    poll ladder whose ceiling its first rung cannot reach; a resource behind every
    limiter; a heartbeat behind every cooperative cancel; and, with the default
    heartbeat and a lease of three seconds or more, three renewals within one lease,
    so that two of them may fail. *)
Theorem runner_config_sound cfg cfg' p :
  NewRunner cfg = Ok (cfg', p) →
  rc_Queues cfg' ≠ [] ∧ (1 ≤ rc_Concurrency cfg')%Z ∧
  (rc_Driver cfg' = Some SQLiteDriver → rc_Concurrency cfg' = 1%Z) ∧
  po_size p = rc_Concurrency cfg' ∧ po_limit p = po_size p ∧ po_held p = 0%Z ∧
  (0 < rc_LeaseDuration cfg' ∧ 0 < rc_PollInterval cfg' ∧ 0 < rc_RetryBackoffBase cfg' ∧
   0 < rc_MaxRetryBackoff cfg')%Z ∧
  ((2 * rc_PollInterval cfg' ≤ int64_max)%Z → (2 * rc_PollInterval cfg' ≤ rc_MaxPollBackoff cfg')%Z) ∧
  (rc_Limiter cfg' = true → rc_Resource cfg' ≠ "") ∧
  (rc_CooperativeCancel cfg' = true → (0 < heartbeatInterval cfg')%Z) ∧
  (rc_HeartbeatInterval cfg' = 0%Z → (3 * second ≤ rc_LeaseDuration cfg')%Z →
     (second ≤ heartbeatInterval cfg' ∧ 3 * heartbeatInterval cfg' ≤ rc_LeaseDuration cfg')%Z) ∧
  (1 ≤ claimLimit (rc_ClaimBatchSize cfg') (rc_Concurrency cfg') ≤ rc_Concurrency cfg')%Z.
Proof.
  intros Hnew. pose proof (NewRunner_ladder _ _ _ Hnew) as [_ Hlad]. revert Hnew Hlad.
  unfold NewRunner. destruct (rc_DB cfg); [|done]. destruct (rc_Driver cfg) as [drv|]; [|done].
  destruct (rc_Registry cfg); [|done]. destruct (Nat.eqb_spec (length (rc_Queues cfg)) 0) as [|Hq]; [done|].
  destruct (rc_Limiter cfg && _) eqn:El; [done|]. destruct (rc_CooperativeCancel cfg && _) eqn:Ec; [done|].
  destruct (bool_decide (drv = SQLiteDriver) && _) eqn:Es; [done|]. simpl. intros [= <- <-] Hlad. simpl in *.
  pose proof (orDuration_pos (rc_Concurrency cfg) 1 ltac:(lia)) as Hc.
  pose proof (orDuration_pos (rc_PollInterval cfg) defaultPollInterval ltac:(done)) as Hp.
  unfold newPool. rewrite (proj2 (Z.ltb_ge (orDuration (rc_Concurrency cfg) 1) 1)) by lia.
  split_and!; try done; try (apply orDuration_pos; done); try lia.
  - by destruct (rc_Queues cfg).
  - intros [= ->]. rewrite bool_decide_true in Es by done. apply Z.ltb_ge in Es.
    unfold orDuration in *. destruct (Z.leb_spec (rc_Concurrency cfg) 0); lia.
  - intros Hli. rewrite Hli in El. by apply bool_decide_eq_false in El.
  - intros Hcc. rewrite Hcc in Ec. simpl in Ec. apply Z.ltb_ge in Ec. unfold heartbeatInterval, off_or. simpl.
    rewrite (proj2 (Z.ltb_ge _ _)) by done.
    destruct (Z.ltb_spec 0 (rc_HeartbeatInterval cfg)); [done|].
    destruct (Z.ltb_spec minHeartbeatInterval (Z.quot (orDuration (rc_LeaseDuration cfg) defaultLeaseDuration) heartbeatDivisor));
      unfold minHeartbeatInterval, second in *; lia.
  - intros Hh Hl. unfold heartbeatInterval, off_or. simpl. rewrite Hh. simpl. unfold heartbeatDivisor, minHeartbeatInterval.
    revert Hl. generalize (orDuration (rc_LeaseDuration cfg) defaultLeaseDuration). intros lease Hl.
    pose proof (Z.quot_rem' lease 3). pose proof (Z.rem_bound_pos lease 3 ltac:(unfold second in *; lia) ltac:(lia)).
    destruct (Z.ltb_spec second (Z.quot lease 3)); unfold second in *; lia.
  - apply claimLimit_bounds. lia.
  - apply claimLimit_bounds. lia.
Qed.

(** ** The queue state *)

Lemma smallest_cap_fold rows b :
  let f := λ capped row, match q_MaxConcurrency row with
                         | Some c => match capped with
                                     | Some b => if (c <? b)%Z then Some c else Some b
                                     | None => Some c
                                     end
                         | None => capped
                         end in
  match foldl f b rows with
  | None => b = None ∧ ∀ row, row ∈ rows → q_MaxConcurrency row = None
  | Some c => (b = Some c ∨ ∃ row, row ∈ rows ∧ q_MaxConcurrency row = Some c) ∧
              (∀ x, b = Some x → (c ≤ x)%Z) ∧
              (∀ row x, row ∈ rows → q_MaxConcurrency row = Some x → (c ≤ x)%Z)
  end.
Proof.
  intros f. revert b. induction rows as [|r rows IH]; intros b.
  - simpl. destruct b as [x|]; split; [by left| |done|by intros ? ?%not_elem_of_nil].
    split; [by intros ? [= ->]|by intros ? ? ?%not_elem_of_nil].
  - simpl. specialize (IH (f b r)). destruct (foldl f (f b r) rows) as [c|].
    + destruct IH as (H1 & H2 & H3). unfold f in H1, H2.
      destruct (q_MaxConcurrency r) as [q|] eqn:Eq.
      * assert (c ≤ q ∧ ∀ x, b = Some x → c ≤ x)%Z as [Hq Hb].
        { destruct b as [x|]; [destruct (Z.ltb_spec q x)|]; specialize (H2 _ eq_refl); split; try lia;
            intros ? [= <-]; lia. }
        split_and!; [|done|].
        -- destruct H1 as [H1|(row & ? & ?)]; [|right; exists row; split; [by right|done]].
           destruct b as [x|]; [destruct (q <? x)%Z|]; injection H1 as <-; eauto;
             right; exists r; (split; [by left|done]).
        -- intros row x [->|?]%elem_of_cons; [congruence|eauto].
      * split_and!; [|done|].
        -- destruct H1 as [->|(row & ? & ?)]; [by left|right; exists row; split; [by right|done]].
        -- intros row x [->|?]%elem_of_cons; [congruence|eauto].
    + destruct IH as [H1 H2]. unfold f in H1. destruct (q_MaxConcurrency r) as [q|] eqn:Eq.
      * destruct b as [x|]; [destruct (q <? x)%Z|]; done.
      * split; [done|]. intros row [->|?]%elem_of_cons; eauto.
Qed.

Lemma smallest_cap_spec rows :
  match smallest_cap rows with
  | None => ∀ row, row ∈ rows → q_MaxConcurrency row = None
  | Some c => (∃ row, row ∈ rows ∧ q_MaxConcurrency row = Some c) ∧
              ∀ row x, row ∈ rows → q_MaxConcurrency row = Some x → (c ≤ x)%Z
  end.
Proof.
  pose proof (smallest_cap_fold rows None) as Hf. unfold smallest_cap. cbv zeta in Hf.
  destruct (foldl _ _ _) as [c|]; [|by destruct Hf]. destruct Hf as ([?|?] & _ & ?); done.
Qed.

(** The queue state the claim loop reads. A read that is due and answers leaves
    out exactly the paused queues, keeps the configured order, and lends at most the
    smallest cap and never more than the pool; a read that fails, or is not due,
    keeps the set and the limit the last one left; and before any read has answered
    every queue is claimed. *)
Theorem claimable_reads cfg now read s p :
  (0 < queueStateRefresh cfg)%Z →
  let '(queues, s', p') := claimable cfg now read s p in
  let due := match qs_lastTry s with None => true | Some t => (queueStateRefresh cfg <=? time_sub now t)%Z end in
  queues `sublist_of` rc_Queues cfg ∧
  (∀ q, q ∈ queues ↔ q ∈ rc_Queues cfg ∧ (qs_read s' = true → q ∉ qs_paused s')) ∧
  (qs_read s = true → qs_read s' = true) ∧
  match read with
  | ReadRows rows =>
    due = true → qs_read s' = true ∧ qs_failing s' = false ∧
      (∀ q, q ∈ qs_paused s' ↔ ∃ row t, row ∈ rows ∧ q_Queue row = q ∧ q_PausedAt row = Some t) ∧
      po_limit p' = Z.min (Z.max (default (rc_Concurrency cfg) (smallest_cap rows)) 1) (po_size p)
  | _ => due = true → qs_lastTry s' = Some now ∧ qs_paused s' = qs_paused s ∧ p' = p
  end ∧
  (due = false → s' = s ∧ p' = p).
Proof.
  intros Hr. unfold claimable. cbv zeta. rewrite (proj2 (Z.leb_gt _ _) Hr).
  set (due := match qs_lastTry s with None => true | Some t => _ end).
  set (mid := if due then _ else _). destruct mid as [s1 p1] eqn:Em. unfold mid in Em. clear mid.
  assert (∀ q, q ∈ (if negb (qs_read s1) || bool_decide (qs_paused s1 = ∅) then rc_Queues cfg
      else filter (λ q0, q0 ∉ qs_paused s1) (rc_Queues cfg)) ↔
      q ∈ rc_Queues cfg ∧ (qs_read s1 = true → q ∉ qs_paused s1)) as Hq.
  { intros q. destruct (qs_read s1); simpl; [|naive_solver]. case_bool_decide as E.
    - rewrite E. set_solver.
    - rewrite list_elem_of_filter. naive_solver. }
  split_and!; [|done| | |].
  - case_match; [done|apply sublist_filter].
  - destruct due; [destruct read|]; injection Em as <- <-; simpl; done.
  - destruct read; intros Hd; rewrite Hd in Em; injection Em as <- <-; simpl; [done..|].
    split_and!; try done.
    + intros q. unfold paused_set. rewrite elem_of_list_to_set, list_elem_of_fmap. split.
      * intros (row & -> & [[t Ht] Hin]%list_elem_of_filter). eauto.
      * intros (row & t & Hin & <- & Ht). exists row. rewrite list_elem_of_filter. split_and!; [done|by rewrite Ht|done].
    + unfold setLimit. cbv zeta. destruct (Z.eqb_spec (Z.min (Z.max (default (rc_Concurrency cfg) (smallest_cap rows)) 1)
        (po_size p)) (po_limit p)); [congruence|done].
  - intros Hd. rewrite Hd in Em. by injection Em as <- <-.
Qed.

(** ** The poll loop: when it ends *)

(** An idle look that found nothing left: the pool empty, no dispatch error, no job
    pending. *)
Definition found_idle (o : idle_obs) : Prop :=
  io_pool o = WaitDone ∧ io_errs o = false ∧ io_pending o = Some 0%Z.
(** An iteration that claimed nothing: every queue paused, or an empty claim. *)
Definition claimed_nothing (o : iteration) : Prop :=
  it_ctx o = false ∧ it_stop o = false ∧
  (it_queues o = false ∨
   it_reserve o = RsvSlots ∧ it_stop2 o = false ∧ ∃ n, it_gate o = GateProceed (Some n) ∧ (n ≤ 0)%Z).
(** The caller's context, or Stop, ended the iteration. *)
Definition saw_context (o : iteration) : Prop :=
  it_ctx o = true ∨ it_reserve o = RsvEnded WaitCtx ∨ it_gate o = GatePark WaitCtx ∨
  io_pool (it_idle o) = WaitCtx ∨ io_sleep (it_idle o) = WaitCtx.
Definition saw_stop (o : iteration) : Prop :=
  it_stop o = true ∨ it_stop2 o = true ∨ (∃ w, it_reserve o = RsvEnded w ∧ w ≠ WaitCtx) ∨
  it_gate o = GatePark WaitStop ∨ io_pool (it_idle o) = WaitStop ∨ io_sleep (it_idle o) = WaitStop.

Section loop_facts.
Context `{Backoff} (cfg : RunnerConfig).

(** What a returned value says of the iteration that returned it. *)
Definition return_means (untilIdle : bool) (o : iteration) (e : option run_error) : Prop :=
  match e with
  | None => if untilIdle then claimed_nothing o ∧ found_idle (it_idle o) else saw_stop o
  | Some RunContext => saw_context o
  | Some ErrRunnerStopped => untilIdle = true ∧ saw_stop o
  | Some RunDispatch => untilIdle = true ∧ (it_errs o = true ∨ io_errs (it_idle o) = true)
  | Some (RunPollFailed n) => untilIdle = true ∧ (rc_MaxPollBackoff cfg ≤ expBackoff (rc_PollInterval cfg) (rc_MaxPollBackoff cfg) n)%Z
  end.

Lemma onPollError_means untilIdle b e :
  onPollError cfg untilIdle b = inl e →
  untilIdle = true ∧ e = Some (RunPollFailed (b + 1)) ∧
  (rc_MaxPollBackoff cfg ≤ expBackoff (rc_PollInterval cfg) (rc_MaxPollBackoff cfg) (b + 1))%Z.
Proof.
  unfold onPollError, pollBackoff_next. cbv zeta.
  destruct (Z.leb_spec (rc_MaxPollBackoff cfg) (expBackoff (rc_PollInterval cfg) (rc_MaxPollBackoff cfg) (b + 1)));
    destruct untilIdle; simpl; try done. by intros [= <-].
Qed.

(** An iteration's end by idling. *)
Lemma idle_means untilIdle o b e :
  claimed_nothing o → idle cfg untilIdle (it_idle o) b = inl e → return_means untilIdle o e.
Proof.
  intros Hn. unfold idle, slept, ended, stopResult.
  destruct untilIdle; simpl.
  - destruct (io_pool (it_idle o)) eqn:Ep.
    + destruct (io_errs (it_idle o)) eqn:Ee; [intros [= <-]; simpl; auto|].
      destruct (io_pending (it_idle o)) as [n|] eqn:En.
      * destruct (Z.eqb_spec n 0) as [->|]; [intros [= <-]; split; [done|by split_and!]|].
        destruct (io_sleep (it_idle o)) eqn:Es; try done; intros [= <-]; simpl; unfold saw_context, saw_stop; auto 8.
      * intros (_ & -> & ?)%onPollError_means. by split.
    + intros [= <-]. simpl. unfold saw_context. auto 8.
    + intros [= <-]. simpl. unfold saw_stop. auto 8.
  - destruct (io_sleep (it_idle o)) eqn:Es; try done; intros [= <-]; simpl; unfold saw_context, saw_stop; auto 8.
Qed.

Lemma run_iteration_means untilIdle o b e :
  run_iteration cfg untilIdle o b = inl e → return_means untilIdle o e.
Proof.
  assert (saw_stop o → return_means untilIdle o (stopResult untilIdle)) as Hstop.
  { unfold stopResult. by destruct untilIdle. }
  assert (∀ w, w = WaitDone ∨ saw_context o ∧ w = WaitCtx ∨ saw_stop o ∧ w = WaitStop →
    ∀ b, slept untilIdle w b = inl e → return_means untilIdle o e) as Hslept.
  { intros w [->|[[? ->]|[? ->]]] b'; simpl; [done|by intros [= <-]|intros [= <-]; auto]. }
  assert (∀ b, onPollError cfg untilIdle b = inl e → return_means untilIdle o e) as Hpoll.
  { by intros b' (-> & -> & ?)%onPollError_means. }
  unfold run_iteration. destruct (it_ctx o) eqn:E1; [intros [= <-]; by left|].
  destruct (it_stop o) eqn:E2; [intros [= <-]; apply Hstop; by left|].
  destruct (it_queues o) eqn:E3; simpl.
  2:{ apply idle_means. unfold claimed_nothing. auto. }
  destruct (it_reserve o) as [w| |] eqn:E4; [|done|].
  { intros [= <-]. assert (w ≠ WaitCtx → saw_stop o) by (unfold saw_stop; eauto 8).
    destruct w; simpl; auto. unfold saw_context. auto. }
  destruct (it_stop2 o) eqn:E5; [intros [= <-]; apply Hstop; unfold saw_stop; auto|].
  destruct (it_gate o) as [w| |claimed] eqn:E6; unfold drained;
    (destruct (it_errs o) eqn:E7, untilIdle eqn:Eu; simpl; [by intros [= <-]; simpl; auto| | |]);
    try (apply Hslept; unfold saw_stop, saw_context; destruct w; auto 9); try apply Hpoll;
    destruct claimed as [n|]; try apply Hpoll; (destruct (Z.ltb_spec 0 n); [done|]; apply idle_means;
      split_and!; try done; right; split_and!; try done; by exists n).
Qed.

(** What a return of the poll loop means, whatever it observed. RunUntilIdle
    returns nil only from an iteration that claimed nothing and then found its pool
    empty, no dispatch error and no job in a non-terminal state; Run returns nil only
    on Stop; neither swallows a context's end; and only RunUntilIdle gives up on a
    dispatch error or on a saturated poll ladder. *)
Theorem run_returns untilIdle l b :
  match run cfg untilIdle l b with
  | Some (o, e) => o ∈ l ∧ return_means untilIdle o e
  | None => True
  end.
Proof.
  revert b. induction l as [|o l IH]; intros b; simpl; [done|].
  destruct (run_iteration cfg untilIdle o b) as [e|b'] eqn:E.
  - split; [by left|by apply run_iteration_means in E].
  - specialize (IH b'). destruct (run cfg untilIdle l b') as [[o' e]|]; [|done]. destruct IH. split; [by right|done].
Qed.

(** ** The poll ladder: when it saturates *)

(** The failures after which a drain gives up. *)
Definition polls_to_give_up (base maxDelay : Z) : Z := 1 + Z.log2_up ((maxDelay + base - 1) / base).

Lemma ladder_saturates `{!BackoffLaws} base m b :
  (0 < base)%Z → (2 * base ≤ m)%Z → (0 ≤ b)%Z →
  (m ≤ expBackoff base m (b + 1))%Z ↔ (polls_to_give_up base m ≤ b + 1)%Z.
Proof.
  intros Hb Hm Hb0. rewrite expBackoff_closed by lia. replace (b + 1 - 1)%Z with b by lia.
  unfold polls_to_give_up. set (q := ((m + base - 1) / base)%Z).
  assert (base * q ≤ m + base - 1 < base * (q + 1))%Z as Hq.
  { unfold q. pose proof (Z.mul_div_le (m + base - 1) base Hb).
    pose proof (Z.mul_succ_div_gt (m + base - 1) base Hb). lia. }
  assert (0 < q)%Z by nia. pose proof (Z.log2_up_le_pow2 q b ltac:(lia)) as Hl.
  split; [intros Hx; assert (q ≤ 2 ^ b)%Z by nia; lia|]. intros Hx. assert (q ≤ 2 ^ b)%Z by lia. nia.
Qed.

Lemma polls_to_give_up_ge base m : (0 < base)%Z → (2 * base ≤ m)%Z → (2 ≤ polls_to_give_up base m)%Z.
Proof.
  intros Hb Hm. unfold polls_to_give_up.
  assert (2 ≤ (m + base - 1) / base)%Z by (apply Z.div_le_lower_bound; lia).
  pose proof (Z.log2_up_le_mono 2 ((m + base - 1) / base) ltac:(done)) as Hl. change (Z.log2_up 2) with 1%Z in Hl. lia.
Qed.

(** An iteration of a drain whose poll failed: the limiter, the claim, or the
    pending count. *)
Definition count_failed (o : idle_obs) : Prop := io_pool o = WaitDone ∧ io_errs o = false ∧ io_pending o = None.
Definition poll_failed (o : iteration) : Prop :=
  claimed_nothing o ∧ it_errs o = false ∧ count_failed (it_idle o) ∨
  it_ctx o = false ∧ it_stop o = false ∧ it_queues o = true ∧ it_reserve o = RsvSlots ∧ it_stop2 o = false ∧
  it_errs o = false ∧ (it_gate o = GatePollErr ∨ it_gate o = GateProceed None).

Lemma poll_failed_step o b : poll_failed o → run_iteration cfg true o b = onPollError cfg true b.
Proof.
  assert (count_failed (it_idle o) → idle cfg true (it_idle o) b = onPollError cfg true b) as Hidle.
  { intros (E1 & E2 & E3). unfold idle. simpl. by rewrite E1, E2, E3. }
  unfold run_iteration. intros [((-> & -> & Hn) & -> & Hc)|(-> & -> & -> & -> & -> & -> & [-> | ->])]; [|done..].
  destruct (it_queues o) eqn:Eq; simpl; [|auto].
  destruct Hn as [?|(-> & -> & n & -> & Hn)]; [done|]. unfold drained. simpl.
  rewrite (proj2 (Z.ltb_ge 0 n)) by lia. auto.
Qed.
End loop_facts.

(** A drain is bounded by its ladder, not by its context. On a runner NewRunner
    built, RunUntilIdle whose every poll fails goes on for
    1 + ceil(log2(MaxPollBackoff / PollInterval)) polls, at least two, and returns the
    poll failure at exactly that one. *)
Theorem run_until_idle_gives_up `{Backoff} `{!BackoffLaws} cfg0 cfg p l :
  NewRunner cfg0 = Ok (cfg, p) → (2 * rc_PollInterval cfg ≤ int64_max)%Z → Forall poll_failed l →
  let n := polls_to_give_up (rc_PollInterval cfg) (rc_MaxPollBackoff cfg) in
  (2 ≤ n)%Z ∧
  (if (Z.of_nat (length l) <? n)%Z then run cfg true l 0 = None
   else ∃ o, run cfg true l 0 = Some (o, Some (RunPollFailed n))).
Proof.
  intros [Hpoll Hceil]%NewRunner_ladder Hov Hl n.
  specialize (Hceil Hov). pose proof (polls_to_give_up_ge _ _ Hpoll Hceil) as Hn. fold n in Hn.
  split; [done|].
  assert (∀ b, (0 ≤ b < n)%Z → if (Z.of_nat (length l) <? n - b)%Z then run cfg true l b = None
    else ∃ o, run cfg true l b = Some (o, Some (RunPollFailed n))) as Hgen.
  2:{ specialize (Hgen 0%Z ltac:(lia)). by rewrite Z.sub_0_r in Hgen. }
  induction Hl as [|o l Ho _ IH]; intros b Hb; simpl; [by rewrite (proj2 (Z.ltb_lt _ _)) by lia|].
  rewrite poll_failed_step by done. unfold onPollError, pollBackoff_next. cbv zeta. simpl.
  pose proof (ladder_saturates _ _ b Hpoll Hceil ltac:(lia)) as Hsat. fold n in Hsat.
  destruct (Z.leb_spec (rc_MaxPollBackoff cfg)
    (expBackoff (rc_PollInterval cfg) (rc_MaxPollBackoff cfg) (b + 1))) as [E|E].
  - apply Hsat in E. replace (b + 1)%Z with n by lia. rewrite (proj2 (Z.ltb_ge _ _)) by lia. by exists o.
  - assert (b + 1 < n)%Z as Hlt by (destruct (Z.lt_ge_cases (b + 1) n) as [|Hge]; [done|]; apply Hsat in Hge; lia).
    specialize (IH (b + 1)%Z ltac:(lia)). revert IH.
    destruct (Z.ltb_spec (Z.of_nat (length l)) (n - (b + 1))), (Z.ltb_spec (Z.of_nat (S (length l))) (n - b));
      try lia; done.
Qed.

(** ** Unknown kinds: what an orphan costs *)

Section orphans.
Context `{Backoff} (cfg : RunnerConfig).

(** The runs of a job no runner registers, as claimed jobs and finish times: each
    run but the last hands the job back, it is due when its finalize says, and the
    next claim takes the next attempt. *)
Inductive orphan_runs : list (RawJob * Z) → Prop :=
| orphan_none : orphan_runs []
| orphan_last raw t : orphan_runs [(raw, t)]
| orphan_next raw t raw' t' due l :
    p_scheduledAt (planFinalize raw (unknown_verdict cfg raw t).1 (Some (unknown_verdict cfg raw t).2) t) = Some due →
    (due ≤ t')%Z → raw_CreatedAt raw' = raw_CreatedAt raw → raw_Attempt raw' = (raw_Attempt raw + 1)%Z →
    orphan_runs ((raw', t') :: l) → orphan_runs ((raw, t) :: (raw', t') :: l).

(** The delays of the first [n] deferrals. *)
Fixpoint deferral_sum (n : nat) : Z :=
  match n with O => 0 | S k => deferral_sum k + Z.min minute (second * 2 ^ Z.of_nat k) end.

(** A claim of an unregistered kind: rescheduled by the deferral, or discarded. *)
Lemma unknown_plan raw t :
  let plan := planFinalize raw (unknown_verdict cfg raw t).1 (Some (unknown_verdict cfg raw t).2) t in
  match unknownKindDeferral (raw_CreatedAt raw) t (raw_Attempt raw) (unknownKindGrace cfg) with
  | Some delay => p_jobState plan = StateScheduled ∧ p_scheduledAt plan = Some (t + delay)%Z ∧
                  p_runOutcome plan = OutcomeSnooze ∧ p_maxAttemptsDelta plan = 1%Z
  | None => p_jobState plan = StateDiscarded ∧ p_scheduledAt plan = None ∧
            p_runOutcome plan = OutcomeError ∧ p_errorClass plan = Some ErrorPermanent
  end.
Proof. unfold unknown_verdict. by destruct (unknownKindDeferral _ _ _ _). Qed.

Context `{!BackoffLaws}.

(** A deferral waits out its rung, or the window's end. *)
Lemma unknownKindDeferral_Some created t attempt grace delay :
  unknownKindDeferral created t attempt grace = Some delay → (1 ≤ attempt)%Z → (grace ≤ int64_max)%Z →
  (created ≤ t)%Z →
  (t - created < grace)%Z ∧
  delay = Z.min (Z.min minute (second * 2 ^ (attempt - 1))) (grace - (t - created)).
Proof.
  unfold unknownKindDeferral. intros Hd Ha Hg Ht. destruct (Z.leb_spec grace 0); [done|].
  destruct (is_zero_time created); [done|]. simpl in Hd.
  unfold unknownKindDeferralBase, maxUnknownKindDeferral in Hd.
  rewrite expBackoff_closed in Hd by (unfold minute, second; lia).
  revert Hd. unfold time_sub, int64_min, int64_max in *.
  destruct (Z.leb_spec (grace - Z.max (Z.max (- 2 ^ 63) (Z.min (2 ^ 63 - 1) (t - created))) 0) 0); [done|].
  intros [= <-]. lia.
Qed.

Lemma rung_mono a k : (0 ≤ k)%Z → (k + 1 ≤ a)%Z →
  (Z.min minute (second * 2 ^ k) ≤ Z.min minute (second * 2 ^ (a - 1)))%Z.
Proof. intros. pose proof (Z.pow_le_mono_r 2 k (a - 1) ltac:(lia) ltac:(lia)). unfold second. lia. Qed.

(** After [k] deferrals the job is as old as they were long, or past its window. *)
Lemma orphan_length l raw t k n :
  orphan_runs ((raw, t) :: l) → (unknownKindGrace cfg ≤ int64_max)%Z →
  (unknownKindGrace cfg ≤ deferral_sum (k + n))%Z → (Z.of_nat k + 1 ≤ raw_Attempt raw)%Z →
  (0 ≤ t - raw_CreatedAt raw)%Z →
  (Z.min (unknownKindGrace cfg) (deferral_sum k) ≤ t - raw_CreatedAt raw)%Z → length l ≤ n.
Proof.
  revert raw t k n. induction l as [|[raw' t'] l IH]; intros raw t k n Hl Hmax Hn Ha Ht0 Ht; [simpl; lia|].
  inversion Hl as [| |r1 t1 r2 t2 due l2 Hdue Hle Hc Hat Hrest]; subst.
  pose proof (unknown_plan raw t) as Hp. cbv zeta in Hp. rewrite Hdue in Hp.
  destruct (unknownKindDeferral _ _ _ _) as [delay|] eqn:Ed; [|by destruct Hp as (_ & ? & _)].
  destruct Hp as (_ & [= ->] & _).
  apply unknownKindDeferral_Some in Ed as [Hage ->]; [|lia..].
  destruct n as [|n]; [rewrite Nat.add_0_r in Hn; lia|].
  assert (length l ≤ n); [|simpl; lia].
  pose proof (rung_mono (raw_Attempt raw) (Z.of_nat k) ltac:(lia) Ha) as Hrung.
  assert (0 < Z.min minute (second * 2 ^ Z.of_nat k))%Z.
  { pose proof (Z.pow_pos_nonneg 2 (Z.of_nat k) ltac:(lia) ltac:(lia)). unfold minute, second. lia. }
  apply (IH raw' t' (S k)); [done|done|by rewrite Nat.add_succ_comm|lia|lia|].
  cbn [deferral_sum]. lia.
Qed.
End orphans.

(** What a job of a kind no runner registers costs: once the first [n] rungs of
    the deferral ladder cover the grace, it writes at most n + 1 run rows, the
    discard included, however late it is claimed each time; at the default
    fifteen minutes that is at most 21. *)
Theorem unknown_kind_rows `{Backoff} `{!BackoffLaws} cfg l raw t :
  orphan_runs cfg ((raw, t) :: l) → (1 ≤ raw_Attempt raw)%Z → (raw_CreatedAt raw ≤ t)%Z →
  (unknownKindGrace cfg ≤ int64_max)%Z →
  (∀ n, (unknownKindGrace cfg ≤ deferral_sum n)%Z → length ((raw, t) :: l) ≤ S n) ∧
  (rc_UnknownKindGrace cfg = 0%Z → length ((raw, t) :: l) ≤ 21).
Proof.
  intros Hl Ha Ht Hmax.
  assert (∀ n, (unknownKindGrace cfg ≤ deferral_sum n)%Z → length ((raw, t) :: l) ≤ S n) as Hgen.
  { intros n Hn. apply le_n_S. eapply (orphan_length cfg l raw t 0 n); simpl; try done; lia. }
  split; [done|]. intros E. apply (Hgen 20). unfold unknownKindGrace. rewrite E. done.
Qed.

(** ** The heartbeat: when an attempt is cancelled *)

#[local] Opaque RenewLease.

Section heartbeat_facts.
Context (cfg : RunnerConfig) (raw : RawJob) (timeout : Z).
Abbreviation attempted := (attempt_run cfg raw timeout).

Lemma attempt_run_app l1 l2 hd : attempted (l1 ++ l2) hd = attempted l2 (attempted l1 hd).
Proof. apply foldl_app. Qed.

(** The only step that names the cause. *)
Lemma attempt_step_cause hd ev :
  hb_cause (attempt_step cfg raw timeout hd ev).1 = Some CauseJobCancelled →
  hb_cause hd.1 = Some CauseJobCancelled ∨
  ∃ ctx renewFails r, ev = HbTick ctx renewFails false ∧
    find_job (attempt_step cfg raw timeout hd ev).2 (raw_ID raw) = Some r ∧ j_State r = StateCancelled ∧
    (hb_at hd.1 = HbRenewing → rc_CooperativeCancel cfg = true) ∧ hb_at hd.1 ≠ HbOver.
Proof.
  destruct hd as [h d].
  assert (∀ c, c ≠ CauseJobCancelled → hb_cause (end_context c h) = Some CauseJobCancelled →
    hb_cause h = Some CauseJobCancelled) as Hend.
  { intros c Hc. unfold end_context. simpl. destruct (hb_cause h); [done|]. by intros [= ->]. }
  assert (∀ rf d', hb_cause (cancelIfJobCancelled (raw_ID raw) rf h d') = Some CauseJobCancelled →
    hb_cause h = Some CauseJobCancelled ∨
    rf = false ∧ ∃ r, find_job d' (raw_ID raw) = Some r ∧ j_State r = StateCancelled) as Hread.
  { intros rf d'. unfold cancelIfJobCancelled. destruct rf; [by left|].
    destruct (find_job d' (raw_ID raw)) as [r|]; [|by left]. case_bool_decide; [|by left]. right. eauto. }
  destruct ev as [f|ctx rn rf| |]; simpl; [by left| | |by intros ?%Hend; auto].
  - unfold hb_tick. destruct (hb_at h) eqn:Eat; simpl.
    + destruct rn; [by left|]. destruct (RenewLease _ _ _ _ _) as [held d'].
      destruct held; [by left|]. destruct (rc_CooperativeCancel cfg); simpl; [|by left].
      intros [?|(-> & r & ? & ?)]%Hread; [by left|]. right. by exists ctx, false, r.
    + intros [?|(-> & r & ? & ?)]%Hread; [by left|]. right. by exists ctx, rn, r.
    + by left.
  - case_match; simpl; [|by left]. intros ?%Hend; auto.
Qed.

(** A heartbeat reads the job's state only with the cancel hook. *)
Lemma attempt_reading l hd :
  (hb_at hd.1 = HbReading → rc_CooperativeCancel cfg = true) →
  hb_at (attempted l hd).1 = HbReading → rc_CooperativeCancel cfg = true.
Proof.
  revert hd. induction l as [|ev l IH]; intros hd Hhd; [done|]. apply IH. destruct hd as [h d]. simpl in *.
  destruct ev as [f|ctx rn rf| |]; simpl; try done; [|by case_match].
  unfold hb_tick. destruct (hb_at h) eqn:Eat; simpl; try (rewrite Eat; done); [|by auto].
  destruct rn; simpl; [congruence|]. destruct (RenewLease _ _ _ _ _) as [[] d']; simpl; [congruence|].
  destruct (rc_CooperativeCancel cfg); done.
Qed.

Lemma cause_sound l d :
  hb_cause (attempted l (hb_start cfg raw, d)).1 = Some CauseJobCancelled →
  rc_CooperativeCancel cfg = true ∧
  ∃ l1 ctx renewFails l2 r, l = l1 ++ HbTick ctx renewFails false :: l2 ∧
    find_job (attempted (l1 ++ [HbTick ctx renewFails false]) (hb_start cfg raw, d)).2 (raw_ID raw) = Some r ∧
    j_State r = StateCancelled.
Proof.
  induction l as [|ev l IH] using rev_ind; [done|]. rewrite attempt_run_app. simpl.
  intros [Hc|(ctx & rn & r & -> & Hf & Hs & Hcc & Hov)]%attempt_step_cause.
  - destruct (IH Hc) as (? & l1 & ctx & rn & l2 & r & -> & ? & ?). split; [done|].
    exists l1, ctx, rn, (l2 ++ [ev]), r. by rewrite <-app_assoc.
  - split.
    + destruct (hb_at (attempted l (hb_start cfg raw, d)).1) eqn:E; [by apply Hcc| |done].
      eapply (attempt_reading l (hb_start cfg raw, d)); [|done]. simpl. by case_match.
    + exists l, ctx, rn, [], r. rewrite attempt_run_app. done.
Qed.

(** A lost claim on a cancelled job cancels the attempt at the next tick that gets
    through. *)
Lemma tick_cancels ctx h d r :
  db_wf d → rc_CooperativeCancel cfg = true → hb_at h ≠ HbOver → hb_cause h = None →
  jobs d !! raw_ID raw = Some r → not_deleted r = true → j_State r = StateCancelled →
  (hb_tick cfg raw ctx false false h d).1 = {| hb_at := HbOver; hb_cause := Some CauseJobCancelled |} ∧
  (hb_tick cfg raw ctx false false h d).2 = d.
Proof.
  intros Hwf Hcc Hat Hca Hr Hd Hs.
  assert (cancelIfJobCancelled (raw_ID raw) false h d = {| hb_at := HbOver; hb_cause := Some CauseJobCancelled |}) as Hread.
  { unfold cancelIfJobCancelled. rewrite (proj2 (find_job_Some d (raw_ID raw) r)) by done.
    rewrite bool_decide_true by done. unfold end_context, hb_move. simpl. by rewrite Hca. }
  unfold hb_tick. destruct (hb_at h); [|by rewrite Hread|done].
  destruct (RenewLease_spec ctx (raw_ID raw) (raw_LeaseToken raw) (c_Now ctx 0 + rc_LeaseDuration cfg) d Hwf)
    as (Hheld & _ & Hsame).
  assert (¬ claim_held d (raw_ID raw) (raw_LeaseToken raw)) as Hno by (intros (? & ? & _ & ? & _); congruence).
  specialize (Hsame Hno). destruct (RenewLease _ _ _ _ _) as [held d']; simpl in *. subst d'.
  destruct held; [by destruct Hno; apply Hheld|]. by rewrite Hcc, Hread.
Qed.
End heartbeat_facts.

(** ** Dispatch *)

Section dispatch_facts.
Context `{Foundation} `{GoLib} `{Backoff}.
Context (jittered : Z → Z) (RequestIDFromMetadata : string → string) (opts : DriverOpts) (cfg : RunnerConfig)
        (reg : entries) (client : option Client) (execID : string).
Abbreviation dispatched := (dispatch jittered RequestIDFromMetadata opts cfg reg client execID).
Abbreviation verdict := (attempt_verdict jittered cfg).

(** Cooperative cancellation. The attempt's context is cancelled with
    ErrJobCancelled only with the setting on, and only by a heartbeat that read the
    job's row as cancelled: a claim lost to a sweep, a retry or another runner
    cancels nothing. A job cancelled under the attempt is noticed by the first tick
    whose statements get through. A worker that then fails is recorded as cancelled
    with no error class, and one that succeeds keeps its success. *)
Theorem cooperative_cancel timeout raw l d entry runID t :
  (hb_cause (attempt_run cfg raw timeout l (hb_start cfg raw, d)).1 = Some CauseJobCancelled →
     rc_CooperativeCancel cfg = true ∧
     ∃ l1 ctx renewFails l2 r, l = l1 ++ HbTick ctx renewFails false :: l2 ∧
       find_job (attempt_run cfg raw timeout (l1 ++ [HbTick ctx renewFails false]) (hb_start cfg raw, d)).2
         (raw_ID raw) = Some r ∧ j_State r = StateCancelled) ∧
  (∀ ctx h d r, db_wf d → rc_CooperativeCancel cfg = true → hb_at h ≠ HbOver → hb_cause h = None →
     jobs d !! raw_ID raw = Some r → not_deleted r = true → j_State r = StateCancelled →
     hb_cause (hb_tick cfg raw ctx false false h d).1 = Some CauseJobCancelled ∧
     (hb_tick cfg raw ctx false false h d).2 = d) ∧
  (let '(result, we) := verdict entry raw runID true in
   let plan := planFinalize raw result we t in
   match (runWork entry raw runID).2 with
   | Some _ => p_runOutcome plan = OutcomeCancelled ∧ p_errorClass plan = None ∧ p_followUps plan = false
   | None => result = (runWork entry raw runID).1 ∧ we = None
   end).
Proof.
  split_and!.
  - apply cause_sound.
  - intros ctx h d0 r Hwf Hcc Hat Hca Hr Hd Hs. by destruct (tick_cancels cfg raw ctx h d0 r) as [-> ->].
  - unfold attempt_verdict. destruct (runWork entry raw runID) as [result [e|]]; done.
Qed.

(** What the observer is told of a settled attempt, against the tables the finalize
    left: the recorded run's outcome; superseded, nothing else; otherwise the state the
    job row now has, and a retry exactly for a retryable job, due when its row is. *)
Definition reported (raw : RawJob) (runID : string) (finishedAt : Z) (evs : list obs_event) (d d' : db) : Prop :=
  ∃ run, job_runs d' !! runID = Some run ∧ is_Some (r_FinishedAt run) ∧ r_Outcome run ≠ OutcomeStarted ∧
  (r_Superseded run = false ↔ claim_held d (raw_ID raw) (raw_LeaseToken raw)) ∧
  if r_Superseded run then
    jobs d' = jobs d ∧
    ∃ dur st, evs = [OnSupersede (r_Outcome run) st dur (raw_LeaseToken raw)] ∧
      (∀ r, find_job d (raw_ID raw) = Some r → st = j_State r)
  else
    ∃ e r', jobs d' !! raw_ID raw = Some r' ∧ fe_Outcome e = r_Outcome run ∧ r_JobState run = Some (fe_State e) ∧
      j_State r' = fe_State e ∧ j_State r' ≠ StateRunning ∧ j_LeaseToken r' = None ∧
      evs = OnFinish e ::
        (if decide (j_State r' = StateRetryable)
         then [OnRetry (raw_Attempt raw + 1) (time_sub (j_ScheduledAt r') finishedAt) (fe_ErrorClass e)] else []).

Lemma finalize_reported ctx raw runID result we startedAt t d out d' :
  Finalize opts ctx raw runID result we t d = Ok (out, d') → db_wf d →
  reported raw runID t (observe_events raw out startedAt t) d d'.
Proof.
  intros Hf Hwf. destruct (finalize_run_row _ _ _ _ _ _ _ _ _ _ Hf Hwf) as (stub & run & _ & Hruns & Ho & Hsup & _ & Hft & Hjs & _).
  destruct (Finalize_Ok _ _ _ _ _ _ _ _ _ _ Hf) as (plan & ? & ? & ? & ? & ? & Hz).
  destruct (fz_outcome _ _ _ _ _ _ _ _ _ _ _ _ _ _ _ _ Hz) as (Hro & Hec & _). rewrite (fz_plan _ _ _ _ _ _ _ _ _ _ _ _ _ _ _ _ Hz) in Hro, Hec.
  pose proof (planFinalize_ok raw result we t) as Hok.
  exists run. rewrite Hruns, lookup_insert_eq, Hft, Ho, Hsup. split_and!; [done|done|apply Hok|by eapply finalize_superseded_iff|].
  unfold observe_events. rewrite Hro. destruct (fo_Superseded out) eqn:Es.
  - destruct (finalize_jobs_superseded _ _ _ _ _ _ _ _ _ _ Hf Es) as (Hj & _ & _ & Hst). split; [done|].
    eexists _, _. split; [done|]. intros r Hr. by rewrite Hst, Hr.
  - destruct (finalize_jobs_applied _ _ _ _ _ _ _ _ _ _ Hf Hwf Es) as (r & r' & _ & Hr' & Hst & Hsc & Hs' & Ht & _ & Hsch & _).
    exists (finish_event raw out startedAt t), r'. split_and!; [done|done|by rewrite Hjs, <-Hst| |rewrite Hs'; apply Hok|done|].
    + simpl. by rewrite Hst.
    + rewrite Hs', <-Hst. f_equal. destruct (decide (fo_State out = StateRetryable)) as [E|E];
        [rewrite bool_decide_true by done|by rewrite bool_decide_false by done].
      rewrite Hsc, Hsch. destruct (planFinalize_verdict raw result we t) as (_ & _ & _ & _ & Hret & Hpsch & _).
      rewrite <-Hst, E in Hret, Hpsch. destruct (proj1 Hret eq_refl) as (_ & _ & e & -> & _).
      rewrite Hpsch. done.
Qed.

(** Another session leaves the tables well formed. *)
Definition sane (ev : attempt_event) : Prop := match ev with Others f => ∀ d, db_wf d → db_wf (f d) | _ => True end.

Lemma attempt_step_wf raw timeout hd ev : sane ev → db_wf hd.2 → db_wf (attempt_step cfg raw timeout hd ev).2.
Proof.
  destruct hd as [h d], ev as [f|ctx rn rf| |]; simpl; auto. intros _ Hwf. unfold hb_tick.
  destruct (hb_at h); [|done..]. destruct rn; [done|].
  pose proof (wf_RenewLease ctx (raw_ID raw) (raw_LeaseToken raw) (c_Now ctx 0 + rc_LeaseDuration cfg) d Hwf) as Hr.
  destruct (RenewLease _ _ _ _ _) as [[] d']; [done|]. by destruct (rc_CooperativeCancel cfg).
Qed.
Lemma attempt_run_wf raw timeout l hd : Forall sane l → db_wf hd.2 → db_wf (attempt_run cfg raw timeout l hd).2.
Proof.
  intros Hl. revert hd. induction Hl as [|ev l Hev _ IH]; intros hd Hwf; [done|].
  apply IH. by apply attempt_step_wf.
Qed.

(** The tables an attempt finalizes on, from those its stub left. *)
Definition attempt_tables (raw : RawJob) (a : attempt) (d1 : db) : db :=
  match reg !! raw_Kind raw with
  | None => (attempt_run cfg raw 0 (at_before a ++ at_after a) ({| hb_at := HbOver; hb_cause := None |}, d1)).2
  | Some entry =>
    (attempt_run cfg raw (resolveTimeout cfg entry raw) (at_before a ++ at_after a) (hb_start cfg raw, d1)).2
  end.
Definition started_events (raw : RawJob) (runID : string) : list obs_event :=
  match reg !! raw_Kind raw with Some _ => [OnStart (raw_ID raw) runID (raw_Attempt raw)] | None => [] end.

Lemma attempt_tables_wf raw a d1 : Forall sane (at_before a ++ at_after a) → db_wf d1 → db_wf (attempt_tables raw a d1).
Proof. intros Hs Hwf. unfold attempt_tables. destruct (reg !! raw_Kind raw); by apply attempt_run_wf. Qed.

(** The stages of a dispatch that returned. *)
Lemma dispatch_Ok ctx runID startedAt finishedAt raw a d evs d' :
  dispatched ctx runID startedAt finishedAt raw a d = (Ok evs, d') →
  ∃ d1 fctx result we out,
    InsertRunStub ctx runID raw startedAt (rc_ExecutorClass cfg) execID d = Ok d1 ∧
    Finalize opts fctx raw runID result we finishedAt (attempt_tables raw a d1) = Ok (out, d') ∧
    evs = started_events raw runID ++ observe_events raw out startedAt finishedAt.
Proof.
  unfold dispatch, attempt_tables, started_events.
  destruct (InsertRunStub _ _ _ _ _ _ _) as [d1|] eqn:Es; [|done].
  destruct (reg !! raw_Kind raw) as [entry|]; cbv zeta; intros Hd.
  - destruct (verdict _ _ _ _) as [result we]. rewrite <-attempt_run_app in Hd.
    destruct (Finalize _ _ _ _ _ _ _ _) as [[out d3]|] eqn:Ef; [|done]. injection Hd as <- <-.
    exists d1. eauto 8.
  - destruct (unknown_verdict _ _ _) as [result we].
    destruct (Finalize _ _ _ _ _ _ _ _) as [[out d3]|] eqn:Ef; [|done]. injection Hd as <- <-.
    exists d1. eauto 8.
Qed.

(** C14. The observer is told what was persisted. However other sessions and the
    heartbeat interleave with an attempt, a dispatch that returns leaves its run
    finished, and reports its recorded outcome: superseded, with no job touched,
    exactly when its claim was gone; otherwise the state the job row now has, never
    running, its lease given up, with a retry event exactly when it will run again,
    at the time its row says. *)
Theorem dispatch_reports ctx runID startedAt finishedAt raw a d evs d' :
  dispatched ctx runID startedAt finishedAt raw a d = (Ok evs, d') →
  db_wf d → Forall sane (at_before a ++ at_after a) →
  db_wf d' ∧
  ∃ d1 rest, InsertRunStub ctx runID raw startedAt (rc_ExecutorClass cfg) execID d = Ok d1 ∧
    evs = started_events raw runID ++ rest ∧
    reported raw runID finishedAt rest (attempt_tables raw a d1) d'.
Proof.
  intros (d1 & fctx & result & we & out & Hs & Hf & ->)%dispatch_Ok Hwf Hsane.
  assert (db_wf (attempt_tables raw a d1)) as Hwf2
    by (apply attempt_tables_wf; [done|by eapply wf_InsertRunStub]).
  split; [by eapply wf_Finalize|]. exists d1. eexists. split_and!; [done|done|by eapply finalize_reported].
Qed.

(** ** A failed attempt always settles *)

(** Nothing but the runner's own heartbeat touches the tables. *)
Definition undisturbed (a : attempt) : Prop :=
  Forall (λ ev, match ev with Others _ => False | _ => True end) (at_before a ++ at_after a).

(** The tables between claim and finalize, undisturbed: the claim is still held. *)
Record still_held (raw : RawJob) (d1 d2 : db) : Prop := {
  sh_wf : db_wf d2;
  sh_claim : claim_held d2 (raw_ID raw) (raw_LeaseToken raw);
  sh_runs : job_runs d2 = job_runs d1
}.

Lemma InsertRunStub_tables ctx runID raw startedAt class exec d d' :
  InsertRunStub ctx runID raw startedAt class exec d = Ok d' → runID ≠ "" →
  jobs d' = jobs d ∧ is_Some (job_runs d' !! runID).
Proof.
  intros Hs Hid. unfold InsertRunStub in Hs. destruct (run_BeforeCreate _ _) as [row|] eqn:Er; [|done].
  apply insert_run_Ok in Hs as (_ & _ & ->). split; [done|].
  apply run_BeforeCreate_Ok in Er as [E _]. simpl in *. unfold orString, is_empty in E.
  rewrite bool_decide_false in E by done. rewrite E, lookup_insert_eq. eauto.
Qed.

Lemma renew_keeps_claim ctx id token until d :
  db_wf d → claim_held d id token →
  (RenewLease ctx id token until d).1 = true ∧ claim_held (RenewLease ctx id token until d).2 id token ∧
  job_runs (RenewLease ctx id token until d).2 = job_runs d.
Proof.
  intros Hwf Hheld. destruct (RenewLease_spec ctx id token until d Hwf) as (H1' & Hrows & _).
  split_and!; [by apply H1'| |done]. destruct Hheld as (r & Hr & Hd & Hs & Ht).
  specialize (Hrows _ _ Hr). rewrite (proj2 (holds_claim_true _ _ _)), Hd in Hrows.
  - eexists. split_and!; [exact Hrows| | |]; done.
  - split_and!; try done. by apply (wf_keyed d Hwf).
Qed.

Lemma attempt_undisturbed raw timeout l hd :
  Forall (λ ev, match ev with Others _ => False | _ => True end) l →
  db_wf hd.2 → claim_held hd.2 (raw_ID raw) (raw_LeaseToken raw) →
  hb_at hd.1 ≠ HbReading → hb_cause hd.1 ≠ Some CauseJobCancelled →
  still_held raw hd.2 (attempt_run cfg raw timeout l hd).2 ∧
  hb_cause (attempt_run cfg raw timeout l hd).1 ≠ Some CauseJobCancelled.
Proof.
  intros Hl. revert hd. induction Hl as [|ev l Hev _ IH]; intros [h d] Hwf Hheld Hat Hca; simpl in *; [by split|].
  assert (still_held raw d (attempt_step cfg raw timeout (h, d) ev).2 ∧
    hb_at (attempt_step cfg raw timeout (h, d) ev).1 ≠ HbReading ∧
    hb_cause (attempt_step cfg raw timeout (h, d) ev).1 ≠ Some CauseJobCancelled) as ([Hw Hh Hr] & Ha & Hc).
  { assert (∀ c, c ≠ CauseJobCancelled → hb_cause (end_context c h) ≠ Some CauseJobCancelled) as Hend.
    { intros c Hc. unfold end_context. simpl. destruct (hb_cause h); [done|congruence]. }
    destruct ev as [f|ctx rn rf| |]; simpl; [done| | |].
    - unfold hb_tick. destruct (hb_at h) eqn:Eat; simpl; [|done|by split; [|simpl; rewrite Eat]].
      destruct rn; [simpl; by split; [|rewrite Eat]|].
      pose proof (wf_RenewLease ctx (raw_ID raw) (raw_LeaseToken raw) (c_Now ctx 0 + rc_LeaseDuration cfg) d Hwf) as Hw'.
      destruct (renew_keeps_claim ctx (raw_ID raw) (raw_LeaseToken raw) (c_Now ctx 0 + rc_LeaseDuration cfg) d Hwf Hheld)
        as (E1 & E2 & E3).
      destruct (RenewLease _ _ _ _ _) as [held d']. simpl in *. subst held. simpl. by split; [|rewrite Eat].
    - case_match; (split; [by split|split; [done|]]); [by apply Hend|done].
    - split; [by split|split; [done|by apply Hend]]. }
  destruct (IH _ Hw Hh Ha Hc) as [[Hw2 Hh2 Hr2] Hc2]. split; [split|]; try done. congruence.
Qed.

Lemma plan_error_no_follow raw result e t : p_followUps (planFinalize raw result (Some e) t) = false.
Proof.
  destruct (planFinalize_verdict raw result (Some e) t) as (_ & _ & Hs & _ & _ & _ & _ & Hf).
  destruct (p_followUps _); [|done]. by destruct (proj1 Hs (proj1 Hf eq_refl)) as (_ & _ & ?).
Qed.

(** A finalize of a failed attempt cannot fail. *)
Lemma Finalize_failed_total ctx raw runID result e t d stub :
  job_runs d !! runID = Some stub → raw_ParentJobID raw = None → res_Output result = None →
  ∃ out d', Finalize opts ctx raw runID result (Some e) t d = Ok (out, d').
Proof.
  intros Hs Hp Ho. unfold Finalize, finalizeColumns. rewrite Hs, plan_error_no_follow, Hp. simpl.
  unfold runFinalizeUpdate. rewrite Ho. simpl. destruct (res_Barrier result); by eauto.
Qed.

(** The attempt fails without running, by panicking, or with an error and no output
    beside it. *)
Definition attempt_fails (raw : RawJob) (runID : string) : Prop :=
  match reg !! raw_Kind raw with
  | None => True
  | Some entry => is_Some (runWork entry raw runID).2 ∧ res_Output (runWork entry raw runID).1 = None
  end.

(** The verdict a failing attempt finalizes with. *)
Definition failing_verdict (raw : RawJob) (runID : string) (finishedAt : Z) : Result * option WorkErr :=
  match reg !! raw_Kind raw with
  | None => let '(r, e) := unknown_verdict cfg raw finishedAt in (r, Some e)
  | Some entry => verdict entry raw runID false
  end.

Lemma failing_verdict_error raw runID t :
  attempt_fails raw runID →
  ∃ e, (failing_verdict raw runID t).2 = Some e ∧ res_Output (failing_verdict raw runID t).1 = None.
Proof.
  unfold attempt_fails, failing_verdict, attempt_verdict, unknown_verdict.
  destruct (reg !! raw_Kind raw) as [entry|].
  - destruct (runWork entry raw runID) as [r [e|]]; simpl; [intros [_ ?]; by eexists|by intros [[] _]].
  - intros _. destruct (unknownKindDeferral _ _ _ _); by eexists.
Qed.

End dispatch_facts.
