(* ===== verification/Limiter.v ===== *)
(** * The shared limiter: DBLimiter and its budget overrides

    internal/core/limiter_db.go over the limiter_buckets and limiter_holds tables.
    Every operation is one transaction that locks its resource's bucket row, so
    the transactions on a resource are a sequence. Go's int is int64; the
    products that could overflow are wrapped. *)

From S2P Require Import Prelude Types Store Insert Controls.

(** ** Configuration *)

Record DBLimiterConfig := {
  cfg_Rate : Z; cfg_Interval : Z; cfg_Burst : Z; cfg_MaxConcurrent : Z; cfg_HoldTTL : Z;
  cfg_SweepInterval : Z
}.
Record DBLimiter := {
  l_rate : Z; l_interval : Z; l_burst : Z; l_maxConcurrent : Z; l_holdTTL : Z; l_sweepInterval : Z
}.
Definition defaultLimiterSweepBatch : Z := 1000.
Definition defaultLimiterSweepInterval : Z := minute.

(** [NewDBLimiter] on a database handle; [None] is a refused configuration. *)
Definition NewDBLimiter (cfg : DBLimiterConfig) : option DBLimiter :=
  if (cfg_Rate cfg <? 0)%Z || (cfg_Burst cfg <? 0)%Z || (cfg_MaxConcurrent cfg <? 0)%Z then None
  else if (0 <? cfg_Rate cfg)%Z && (cfg_Interval cfg <=? 0)%Z then None
  else if (0 <? cfg_MaxConcurrent cfg)%Z && (cfg_HoldTTL cfg <=? 0)%Z then None
  else
    let burst := if (0 <? cfg_Rate cfg)%Z && (cfg_Burst cfg <=? 0)%Z then cfg_Rate cfg
                 else cfg_Burst cfg in
    let sweepInterval := orDuration (cfg_SweepInterval cfg) (cfg_HoldTTL cfg) in
    let sweepInterval := orDuration sweepInterval defaultLimiterSweepInterval in
    Some {| l_rate := cfg_Rate cfg; l_interval := cfg_Interval cfg; l_burst := burst;
            l_maxConcurrent := cfg_MaxConcurrent cfg; l_holdTTL := cfg_HoldTTL cfg;
            l_sweepInterval := sweepInterval |}.

(** ** Rows *)

Record limiterBucketRow := {
  lb_Resource : string; lb_Tokens : Z; lb_RefilledAt : Z; lb_UpdatedAt : Z;
  lb_MaxConcurrentOverride : option Z; lb_RateOverride : option Z; lb_BurstOverride : option Z
}.
Record limiterHoldRow := { lh_Token : string; lh_Resource : string; lh_N : Z; lh_ExpiresAt : Z }.

Record limiter_db := {
  limiter_buckets : gmap string limiterBucketRow;
  limiter_holds : gmap string limiterHoldRow
}.
Definition empty_limiter : limiter_db := {| limiter_buckets := ∅; limiter_holds := ∅ |}.
Definition with_bucket (resource : string) (b : limiterBucketRow) (s : limiter_db) : limiter_db :=
  {| limiter_buckets := <[resource := b]> (limiter_buckets s); limiter_holds := limiter_holds s |}.
Definition with_holds (h : gmap string limiterHoldRow) (s : limiter_db) : limiter_db :=
  {| limiter_buckets := limiter_buckets s; limiter_holds := h |}.

(** UPDATE of a bucket's tokens, refilled_at and updated_at. *)
Definition set_tokens (tokens refilledAt updatedAt : Z) (b : limiterBucketRow) : limiterBucketRow :=
  {| lb_Resource := lb_Resource b; lb_Tokens := tokens; lb_RefilledAt := refilledAt;
     lb_UpdatedAt := updatedAt; lb_MaxConcurrentOverride := lb_MaxConcurrentOverride b;
     lb_RateOverride := lb_RateOverride b; lb_BurstOverride := lb_BurstOverride b |}.

Record Grant := {
  g_Resource : string; g_N : Z; g_RetryAfter : Z; g_Token : string; g_ExpiresAt : Z
}.
Definition bare_grant (resource : string) (n : Z) : Grant :=
  {| g_Resource := resource; g_N := n; g_RetryAfter := 0; g_Token := ""; g_ExpiresAt := zero_time |}.

(** ** Caps, refill and the retry hint *)

Record limiterCaps := { c_rate : Z; c_burst : Z; c_maxConcurrent : Z }.

Definition readsBucket (l : DBLimiter) : bool :=
  (0 <? l_rate l)%Z || (0 <? l_maxConcurrent l)%Z || (0 <? l_interval l)%Z || (0 <? l_holdTTL l)%Z.

Definition capsFor (l : DBLimiter) (b : limiterBucketRow) : limiterCaps :=
  let rate := match lb_RateOverride b with
              | Some r => if (0 <? l_interval l)%Z then r else l_rate l
              | None => l_rate l
              end in
  let maxConcurrent := match lb_MaxConcurrentOverride b with
                       | Some m => if (0 <? l_holdTTL l)%Z then m else l_maxConcurrent l
                       | None => l_maxConcurrent l
                       end in
  let burst := match lb_BurstOverride b with
               | Some x => x
               | None => if (l_burst l <=? 0)%Z then rate else l_burst l
               end in
  {| c_rate := rate; c_burst := burst; c_maxConcurrent := maxConcurrent |}.

(** [refill]; Go's integer division truncates toward zero. *)
Definition refill (l : DBLimiter) (b : limiterBucketRow) (now : Z) : limiterBucketRow :=
  let c := capsFor l b in
  if (c_rate c <=? 0)%Z then b
  else
    let elapsed := time_sub now (lb_RefilledAt b) in
    if (elapsed <=? 0)%Z then b
    else
      let burstTime := Z.quot (wrap64 (c_burst c * l_interval l)) (c_rate c) in
      if (burstTime <=? elapsed)%Z then set_tokens (c_burst c) now (lb_UpdatedAt b) b
      else
        let add := Z.quot (wrap64 (elapsed * c_rate c)) (l_interval l) in
        if (add <=? 0)%Z then b
        else
          let tokens := Z.min (c_burst c) (wrap64 (lb_Tokens b + add)) in
          if (c_burst c <=? tokens)%Z then set_tokens tokens now (lb_UpdatedAt b) b
          else set_tokens tokens (lb_RefilledAt b + Z.quot (wrap64 (add * l_interval l)) (c_rate c))%Z
                 (lb_UpdatedAt b) b.

Definition retryAfter (l : DBLimiter) (tokens now refilledAt : Z) (c : limiterCaps) : Z :=
  if (c_rate c <=? 0)%Z || (1 <=? tokens)%Z then 0%Z
  else Z.max 0 (time_sub (refilledAt + Z.quot (l_interval l) (c_rate c)) now).

(** ** Acquire, Release, Sweep *)

(** SUM(n) over the holds a condition selects. *)
Definition sum_holds (P : limiterHoldRow → bool) (t : gmap string limiterHoldRow) : Z :=
  map_fold (λ _ h acc, if P h then (lh_N h + acc)%Z else acc) 0%Z t.
Definition held_on (resource : string) (h : limiterHoldRow) : bool := bool_decide (lh_Resource h = resource).

(** DELETE FROM limiter_holds WHERE resource = ? AND expires_at < now. *)
Definition reclaim_holds (resource : string) (now : Z) (t : gmap string limiterHoldRow)
  : gmap string limiterHoldRow :=
  filter (λ kv, held_on resource kv.2 && (lh_ExpiresAt kv.2 <? now)%Z = false) t.

(** The bucket row Acquire locks: seeded full when there is none. *)
Definition seed_bucket (l : DBLimiter) (resource : string) (now : Z) (s : limiter_db) : limiterBucketRow :=
  match limiter_buckets s !! resource with
  | Some b => b
  | None => {| lb_Resource := resource; lb_Tokens := l_burst l; lb_RefilledAt := now; lb_UpdatedAt := now;
               lb_MaxConcurrentOverride := None; lb_RateOverride := None; lb_BurstOverride := None |}
  end.

(** granted = min(ask, tokens, headroom), floored at zero. *)
Definition grantable (c : limiterCaps) (n tokens held : Z) : Z :=
  let granted := if (0 <? c_rate c)%Z && (tokens <? n)%Z then tokens else n in
  let granted := if (0 <? c_maxConcurrent c)%Z && (c_maxConcurrent c - held <? granted)%Z
                 then (c_maxConcurrent c - held)%Z else granted in
  if (granted <? 0)%Z then 0%Z else granted.

Definition Acquire (l : DBLimiter) (now : Z) (newID resource : string) (n : Z) (s : limiter_db)
  : res (Grant * limiter_db) :=
  if (n <=? 0)%Z then Ok (bare_grant resource 0, s)
  else if negb (readsBucket l) then Ok (bare_grant resource n, s)
  else
    let row := seed_bucket l resource now s in
    let s0 := match limiter_buckets s !! resource with Some _ => s | None => with_bucket resource row s end in
    let c := capsFor l row in
    if (c_rate c <=? 0)%Z && (c_maxConcurrent c <=? 0)%Z then Ok (bare_grant resource n, s0)
    else
      let refilled := refill l row now in
      let tokens := if (0 <? c_rate c)%Z && (c_burst c <? lb_Tokens refilled)%Z then c_burst c
                    else lb_Tokens refilled in
      let s1 := if (0 <? c_maxConcurrent c)%Z
                then with_holds (reclaim_holds resource now (limiter_holds s0)) s0 else s0 in
      let held := if (0 <? c_maxConcurrent c)%Z then sum_holds (held_on resource) (limiter_holds s1)
                  else 0%Z in
      let granted := grantable c n tokens held in
      let left := if (0 <? c_rate c)%Z then (tokens - granted)%Z else tokens in
      let s2 := with_bucket resource (set_tokens left (lb_RefilledAt refilled) now refilled) s1 in
      let hint := retryAfter l left now (lb_RefilledAt refilled) c in
      if (granted =? 0)%Z then
        Ok ({| g_Resource := resource; g_N := 0; g_RetryAfter := hint; g_Token := ""; g_ExpiresAt := zero_time |},
            s2)
      else
        let after := if (granted <? n)%Z then hint else 0%Z in
        if (0 <? c_maxConcurrent c)%Z then
          match limiter_holds s2 !! newID with
          | Some _ => Err ErrDuplicateKey
          | None =>
            let expiresAt := (now + l_holdTTL l)%Z in
            Ok ({| g_Resource := resource; g_N := granted; g_RetryAfter := after; g_Token := newID;
                   g_ExpiresAt := expiresAt |},
                with_holds (<[newID := {| lh_Token := newID; lh_Resource := resource; lh_N := granted;
                                          lh_ExpiresAt := expiresAt |}]> (limiter_holds s2)) s2)
          end
        else
          Ok ({| g_Resource := resource; g_N := granted; g_RetryAfter := after; g_Token := "";
                 g_ExpiresAt := zero_time |}, s2).

Definition Release (g : Grant) (s : limiter_db) : limiter_db :=
  if (g_N g <=? 0)%Z || is_empty (g_Token g) then s
  else match limiter_holds s !! g_Token g with
  | None => s
  | Some h =>
    let n := (lh_N h - g_N g)%Z in
    if (n <=? 0)%Z then with_holds (delete (g_Token g) (limiter_holds s)) s
    else with_holds (<[g_Token g := {| lh_Token := lh_Token h; lh_Resource := lh_Resource h; lh_N := n;
                                       lh_ExpiresAt := lh_ExpiresAt h |}]> (limiter_holds s)) s
  end.

(** WHERE expires_at < now OR n <= 0. *)
Definition reapable (now : Z) (h : limiterHoldRow) : bool :=
  (lh_ExpiresAt h <? now)%Z || (lh_N h <=? 0)%Z.

Section sweep.
Context `{RowOrder}.

Definition limiter_sweepBatch (now : Z) (limit : nat) (s : limiter_db) : nat * limiter_db :=
  let tokens := take limit (scan (filter (λ kv, reapable now kv.2 = true) (map_to_list (limiter_holds s)))).*1 in
  match tokens with
  | [] => (0, s)
  | _ => (length tokens, with_holds (filter (λ kv, str_mem kv.1 tokens = false) (limiter_holds s)) s)
  end.

(** [Sweep]: batches until one is short; [cancelled k] is ctx.Err() before the
    k-th. [None] is the fuel running out. *)
Fixpoint limiter_Sweep (fuel : nat) (cancelled : nat → bool) (k : nat) (now : Z) (s : limiter_db)
  : option (nat * option error * limiter_db) :=
  match fuel with
  | O => None
  | S fuel =>
    if cancelled k then Some (0, Some ErrContext, s)
    else
      let '(n, s1) := limiter_sweepBatch now (Z.to_nat defaultLimiterSweepBatch) s in
      if n <? Z.to_nat defaultLimiterSweepBatch then Some (n, None, s1)
      else match limiter_Sweep fuel cancelled (S k) now s1 with
           | Some (m, e, s2) => Some (n + m, e, s2)
           | None => None
           end
  end.
End sweep.

(** ** Budget overrides *)

Record LimiterBudget := { lim_MaxConcurrent : option Z; lim_Rate : option Z; lim_Burst : option Z }.
#[global] Instance LimiterBudget_eq_dec : EqDecision LimiterBudget.
Proof. solve_decision. Defined.

Definition overrides (b : limiterBucketRow) : LimiterBudget :=
  {| lim_MaxConcurrent := lb_MaxConcurrentOverride b; lim_Rate := lb_RateOverride b;
     lim_Burst := lb_BurstOverride b |}.
Definition budget_object (b : LimiterBudget) : detail :=
  DObject (map_imap (λ _ v, v)
    {["max_concurrent" := lim_MaxConcurrent b; "rate" := lim_Rate b; "burst" := lim_Burst b]}).

Definition AuditTargetLimiter := "limiter".
Definition AuditLimitsSet := "limits_set".

Definition below_one (v : option Z) : bool := match v with Some x => (x <? 1)%Z | None => false end.

(** [SetLimiterBudget]: the limiter tables and the audit of [d]. *)
Definition SetLimiterBudget (cc : control) (resource : string) (b : LimiterBudget) (s : limiter_db) (d : db)
  : res (limiter_db * db) :=
  let? actor := resolveActor cc in
  if is_empty resource then Err (ValidationError "resource")
  else if below_one (lim_MaxConcurrent b) then Err (ValidationError "max_concurrent")
  else if below_one (lim_Rate b) then Err (ValidationError "rate")
  else if below_one (lim_Burst b) then Err (ValidationError "burst")
  else match limiter_buckets s !! resource with
  | None => Err (ValidationError "resource")
  | Some row =>
    if bool_decide (overrides row = b) then Ok (s, d)
    else
      let row' := {| lb_Resource := lb_Resource row; lb_Tokens := lb_Tokens row;
                     lb_RefilledAt := lb_RefilledAt row; lb_UpdatedAt := c_GormNow (cc_ctx cc);
                     lb_MaxConcurrentOverride := lim_MaxConcurrent b; lb_RateOverride := lim_Rate b;
                     lb_BurstOverride := lim_Burst b |} in
      let? d' := recordAudit cc actor (c_Now (cc_ctx cc) 0)
        [{| ch_target := AuditTargetLimiter; ch_targetID := resource; ch_action := AuditLimitsSet;
            ch_details := {["from" := budget_object (overrides row); "to" := budget_object b]} |}] d in
      Ok (with_bucket resource row' s, d')
  end.

(** ** Sums of holds *)

Section sums.
Implicit Types (t : gmap string limiterHoldRow) (P Q : limiterHoldRow → bool).

Lemma sum_holds_empty P : sum_holds P ∅ = 0%Z.
Proof. unfold sum_holds. apply map_fold_empty. Qed.

Lemma sum_holds_insert P t k h :
  t !! k = None → sum_holds P (<[k := h]> t) = ((if P h then lh_N h else 0) + sum_holds P t)%Z.
Proof.
  intros Hk. unfold sum_holds. rewrite map_fold_insert_L; [by destruct (P h)| |done].
  intros j1 j2 z1 z2 y _ _ _. destruct (P z1), (P z2); lia.
Qed.

Lemma sum_holds_delete P t k h :
  t !! k = Some h → sum_holds P t = ((if P h then lh_N h else 0) + sum_holds P (delete k t))%Z.
Proof.
  intros Hk. rewrite <-(insert_delete_id t k h Hk) at 1. apply sum_holds_insert, lookup_delete_eq.
Qed.

Lemma sum_holds_filter P Q t :
  sum_holds P (filter (λ kv, Q kv.2 = true) t) = sum_holds (λ h, P h && Q h) t.
Proof.
  induction t as [|k h t Hk IH] using map_ind; [by rewrite map_filter_empty, !sum_holds_empty|].
  rewrite sum_holds_insert by done. destruct (Q h) eqn:E.
  - rewrite map_filter_insert_True by done. rewrite sum_holds_insert.
    + by rewrite IH, andb_true_r.
    + rewrite map_lookup_filter, Hk. done.
  - rewrite map_filter_insert_False by (simpl; congruence). rewrite delete_id by done.
    rewrite IH, andb_false_r. lia.
Qed.

Definition counts_positive t : Prop := map_Forall (λ _ h, 0 < lh_N h)%Z t.

Lemma sum_holds_mono P Q t :
  counts_positive t → (∀ h, P h = true → Q h = true) → (0 ≤ sum_holds P t ≤ sum_holds Q t)%Z.
Proof.
  intros Hpos HPQ. induction t as [|k h t Hk IH] using map_ind; [by rewrite !sum_holds_empty|].
  apply map_Forall_insert in Hpos as [Hh Hpos]; [|done]. specialize (IH Hpos).
  rewrite !sum_holds_insert by done. specialize (HPQ h). destruct (P h), (Q h); lia.
Qed.

Lemma sum_holds_ext P Q t : (∀ h, P h = Q h) → sum_holds P t = sum_holds Q t.
Proof.
  intros HPQ. induction t as [|k h t Hk IH] using map_ind; [done|].
  by rewrite !sum_holds_insert, IH, HPQ.
Qed.
End sums.

(** The permits a resource's unexpired holds keep. *)
Definition live_hold (resource : string) (now : Z) (h : limiterHoldRow) : bool :=
  held_on resource h && negb (lh_ExpiresAt h <? now)%Z.
Definition live_held (resource : string) (now : Z) (s : limiter_db) : Z :=
  sum_holds (live_hold resource now) (limiter_holds s).

Lemma reclaim_sum P resource now t :
  sum_holds P (reclaim_holds resource now t) =
  sum_holds (λ h, P h && negb (held_on resource h && (lh_ExpiresAt h <? now)%Z)) t.
Proof.
  rewrite <-(sum_holds_filter P (λ h, negb (held_on resource h && (lh_ExpiresAt h <? now)%Z))).
  f_equal. apply map_filter_ext. intros k h _. simpl. by rewrite negb_true_iff.
Qed.

(** After the inline reclaim the count is the live count; another resource's live
    count is untouched. *)
Lemma reclaim_counts resource now t :
  sum_holds (held_on resource) (reclaim_holds resource now t) = sum_holds (live_hold resource now) t.
Proof.
  rewrite reclaim_sum. apply sum_holds_ext. intros h. unfold live_hold. by destruct (held_on resource h).
Qed.

Lemma reclaim_live r resource now t :
  sum_holds (live_hold r now) (reclaim_holds resource now t) = sum_holds (live_hold r now) t.
Proof.
  rewrite reclaim_sum. apply sum_holds_ext. intros h. unfold live_hold.
  destruct (lh_ExpiresAt h <? now)%Z; [by rewrite !andb_false_r|]. by rewrite andb_false_r, andb_true_r.
Qed.

Lemma live_held_later resource now now' s :
  counts_positive (limiter_holds s) → (now ≤ now')%Z →
  (0 ≤ live_held resource now' s ≤ live_held resource now s)%Z.
Proof.
  intros Hp Ht. apply sum_holds_mono; [done|]. intros h. unfold live_hold.
  rewrite !andb_true_iff, !negb_true_iff, !Z.ltb_ge. intros [? ?]. split; [done|lia].
Qed.

(** ** What an Acquire does *)

(** The tokens an Acquire sees: refilled, and held to the burst in force. *)
Definition refilled_tokens (l : DBLimiter) (row : limiterBucketRow) (now : Z) : Z :=
  let c := capsFor l row in
  let refilled := refill l row now in
  if (0 <? c_rate c)%Z && (c_burst c <? lb_Tokens refilled)%Z then c_burst c else lb_Tokens refilled.

Record acquired (l : DBLimiter) (now : Z) (id resource : string) (n : Z) (s : limiter_db)
    (g : Grant) (s' : limiter_db) : Prop := {
  aq_resource : g_Resource g = resource;
  aq_n : g_N g = grantable (capsFor l (seed_bucket l resource now s)) n
           (refilled_tokens l (seed_bucket l resource now s) now)
           (if (0 <? c_maxConcurrent (capsFor l (seed_bucket l resource now s)))%Z
            then live_held resource now s else 0);
  aq_bucket : limiter_buckets s' =
    <[resource := set_tokens
        (if (0 <? c_rate (capsFor l (seed_bucket l resource now s)))%Z
         then refilled_tokens l (seed_bucket l resource now s) now - g_N g
         else refilled_tokens l (seed_bucket l resource now s) now)%Z
        (lb_RefilledAt (refill l (seed_bucket l resource now s) now)) now
        (refill l (seed_bucket l resource now s) now)]> (limiter_buckets s);
  aq_holds : limiter_holds s' =
    (if (0 <? c_maxConcurrent (capsFor l (seed_bucket l resource now s)))%Z then
       let t := reclaim_holds resource now (limiter_holds s) in
       if (g_N g =? 0)%Z then t
       else <[id := {| lh_Token := id; lh_Resource := resource; lh_N := g_N g;
                       lh_ExpiresAt := (now + l_holdTTL l)%Z |}]> t
     else limiter_holds s);
  aq_fresh : (0 < c_maxConcurrent (capsFor l (seed_bucket l resource now s)))%Z → g_N g ≠ 0%Z →
    reclaim_holds resource now (limiter_holds s) !! id = None;
  aq_hint : (g_N g < n)%Z → g_RetryAfter g =
    retryAfter l (if (0 <? c_rate (capsFor l (seed_bucket l resource now s)))%Z
                  then refilled_tokens l (seed_bucket l resource now s) now - g_N g
                  else refilled_tokens l (seed_bucket l resource now s) now)%Z now
      (lb_RefilledAt (refill l (seed_bucket l resource now s) now)) (capsFor l (seed_bucket l resource now s))
}.

Lemma grantable_bounds c n tokens held :
  (0 < n)%Z →
  (0 ≤ grantable c n tokens held ≤ n)%Z ∧
  ((0 < c_rate c)%Z → (grantable c n tokens held ≤ Z.max 0 tokens)%Z) ∧
  ((0 < c_maxConcurrent c)%Z → (grantable c n tokens held ≤ Z.max 0 (c_maxConcurrent c - held))%Z).
Proof.
  intros Hn. unfold grantable.
  destruct (Z.ltb_spec 0 (c_rate c)), (Z.ltb_spec tokens n), (Z.ltb_spec 0 (c_maxConcurrent c)); simpl;
    repeat match goal with |- context [(?a <? ?b)%Z] => destruct (Z.ltb_spec a b) end; lia.
Qed.

(** A limiter with a cap in force. *)
Definition capped (c : limiterCaps) : Prop := (0 < c_rate c)%Z ∨ (0 < c_maxConcurrent c)%Z.

Ltac grant_simpl :=
  cbn [g_Resource g_N g_RetryAfter g_Token limiter_buckets limiter_holds with_bucket with_holds].

Lemma Acquire_capped l now id resource n s g s' :
  (0 < n)%Z → readsBucket l = true → capped (capsFor l (seed_bucket l resource now s)) →
  Acquire l now id resource n s = Ok (g, s') → acquired l now id resource n s g s'.
Proof.
  intros Hn Hread Hcap. unfold Acquire. rewrite (proj2 (Z.leb_gt n 0)), Hread by lia. cbn [negb].
  set (row := seed_bucket l resource now s) in *. set (c := capsFor l row) in *.
  assert ((c_rate c <=? 0)%Z && (c_maxConcurrent c <=? 0)%Z = false) as ->.
  { apply andb_false_iff. rewrite !Z.leb_gt. unfold capped in Hcap. lia. }
  set (s0 := match limiter_buckets s !! resource with Some _ => s | None => _ end).
  assert (limiter_holds s0 = limiter_holds s) as Hh0.
  { unfold s0. by destruct (limiter_buckets s !! resource). }
  assert (∀ b, <[resource := b]> (limiter_buckets s0) = <[resource := b]> (limiter_buckets s)) as Hb0.
  { intros b. unfold s0. destruct (limiter_buckets s !! resource); [done|]. simpl. apply insert_insert_eq. }
  change (if (0 <? c_rate c)%Z && (c_burst c <? lb_Tokens (refill l row now))%Z then c_burst c
          else lb_Tokens (refill l row now)) with (refilled_tokens l row now).
  rewrite Hh0.
  destruct (Z.ltb_spec 0 (c_maxConcurrent c)) as [Hm|Hm].
  - cbn [limiter_holds with_holds]. rewrite reclaim_counts. fold (live_held resource now s).
    set (granted := grantable c n (refilled_tokens l row now) (live_held resource now s)).
    pose proof (grantable_bounds c n (refilled_tokens l row now) (live_held resource now s) Hn) as [Hg _].
    destruct (Z.eqb_spec granted 0) as [Hz|Hz].
    + intros [= <- <-]. split; grant_simpl; fold row c granted; rewrite ?(proj2 (Z.ltb_lt _ _) Hm); try done;
        fold granted; rewrite ?Hz, ?Hb0; done.
    + destruct (limiter_holds _ !! id) eqn:Hid; [done|]. cbn [limiter_holds with_bucket with_holds] in Hid.
      intros [= <- <-]. split; grant_simpl; fold row c; rewrite ?(proj2 (Z.ltb_lt _ _) Hm); fold granted;
        rewrite ?Hb0, ?(proj2 (Z.eqb_neq _ _) Hz); try done.
      intros Hlt. by rewrite (proj2 (Z.ltb_lt _ _) Hlt).
  - set (granted := grantable c n (refilled_tokens l row now) 0).
    destruct (Z.eqb_spec granted 0) as [Hz|Hz].
    + intros [= <- <-]. split; grant_simpl; fold row c; rewrite ?(proj2 (Z.ltb_ge _ _) Hm); fold granted; try done;
        rewrite ?Hz, ?Hb0; try done.
    + intros [= <- <-]. split; grant_simpl; fold row c; rewrite ?(proj2 (Z.ltb_ge _ _) Hm); fold granted;
        rewrite ?Hb0; try done; [lia|].
      intros Hlt. by rewrite (proj2 (Z.ltb_lt _ _) Hlt).
Qed.

(** ** Runs of the limiter *)

(** One transaction on the shared tables, by any process. *)
Inductive limiter_op :=
| OpAcquire (now : Z) (id resource : string) (n : Z)
| OpRelease (now : Z) (g : Grant)
| OpSweep (now : Z) (limit : nat).
Definition op_time (op : limiter_op) : Z :=
  match op with OpAcquire now _ _ _ | OpRelease now _ | OpSweep now _ => now end.

(** Clocks never run backwards across the sequence of transactions. *)
Fixpoint timed (t : Z) (ops : list limiter_op) : Prop :=
  match ops with [] => True | op :: ops => (t ≤ op_time op)%Z ∧ timed (op_time op) ops end.
Fixpoint end_time (t : Z) (ops : list limiter_op) : Z :=
  match ops with [] => t | op :: ops => end_time (op_time op) ops end.

Lemma timed_app t ops1 ops2 : timed t (ops1 ++ ops2) → timed t ops1 ∧ timed (end_time t ops1) ops2.
Proof. revert t. induction ops1 as [|op ops IH]; intros t; simpl; [done|]. naive_solver. Qed.

Section runs.
Context `{RowOrder} (l : DBLimiter).

(** The permits granted on a resource, and the tables left. *)
Definition limiter_step (op : limiter_op) (s : limiter_db) : option Grant * limiter_db :=
  match op with
  | OpAcquire now id resource n =>
    match Acquire l now id resource n s with Ok (g, s') => (Some g, s') | Err _ => (None, s) end
  | OpRelease _ g => (None, Release g s)
  | OpSweep now limit => (None, (limiter_sweepBatch now limit s).2)
  end.
Fixpoint limiter_run (ops : list limiter_op) (s : limiter_db) : limiter_db :=
  match ops with [] => s | op :: ops => limiter_run ops (limiter_step op s).2 end.
Definition granted_on (resource : string) (g : option Grant) : Z :=
  match g with Some g => if bool_decide (g_Resource g = resource) then g_N g else 0%Z | None => 0%Z end.
Fixpoint total_granted (resource : string) (ops : list limiter_op) (s : limiter_db) : Z :=
  match ops with
  | [] => 0%Z
  | op :: ops =>
    (granted_on resource (limiter_step op s).1 + total_granted resource ops (limiter_step op s).2)%Z
  end.

Definition no_overrides (s : limiter_db) : Prop :=
  map_Forall (λ _ b, overrides b = {| lim_MaxConcurrent := None; lim_Rate := None; lim_Burst := None |})
    (limiter_buckets s).

(** The caps of a limiter nobody overrode. *)
Definition own_caps : limiterCaps :=
  {| c_rate := l_rate l; c_burst := if (l_burst l <=? 0)%Z then l_rate l else l_burst l;
     c_maxConcurrent := l_maxConcurrent l |}.

Lemma overrides_refill b now : overrides (refill l b now) = overrides b.
Proof. unfold refill, overrides. repeat case_match; done. Qed.

Lemma seed_caps resource now s :
  no_overrides s → capsFor l (seed_bucket l resource now s) = own_caps ∧
  overrides (seed_bucket l resource now s) =
    {| lim_MaxConcurrent := None; lim_Rate := None; lim_Burst := None |}.
Proof.
  intros Hno. assert (overrides (seed_bucket l resource now s) =
    {| lim_MaxConcurrent := None; lim_Rate := None; lim_Burst := None |}) as Ho.
  { unfold seed_bucket. destruct (limiter_buckets s !! resource) as [b|] eqn:E; [by apply (Hno resource)|done]. }
  split; [|done]. unfold capsFor, overrides in *. by injection Ho as -> -> ->.
Qed.

Lemma no_overrides_acquired now id resource n s g s' :
  no_overrides s → acquired l now id resource n s g s' → no_overrides s'.
Proof.
  intros Hno Ha. unfold no_overrides. rewrite (aq_bucket _ _ _ _ _ _ _ _ Ha).
  apply map_Forall_insert_2; [|done]. destruct (seed_caps resource now s Hno) as [_ Ho].
  transitivity (overrides (refill l (seed_bucket l resource now s) now)); [done|]. by rewrite overrides_refill.
Qed.

(** A sweep drops only holds that count for nothing. *)
Lemma sweepBatch_holds now limit s k h :
  limiter_holds (limiter_sweepBatch now limit s).2 !! k = Some h → limiter_holds s !! k = Some h.
Proof.
  unfold limiter_sweepBatch. destruct (take _ _); [done|]. cbn [snd limiter_holds with_holds].
  by intros [? _]%map_lookup_filter_Some.
Qed.
Lemma sweepBatch_buckets now limit s :
  limiter_buckets (limiter_sweepBatch now limit s).2 = limiter_buckets s.
Proof. unfold limiter_sweepBatch. by destruct (take _ _). Qed.

(** ** The concurrency ceiling *)

Record within_cap (t : Z) (s : limiter_db) : Prop := {
  wc_pos : counts_positive (limiter_holds s);
  wc_over : no_overrides s;
  wc_cap : ∀ resource, (live_held resource t s ≤ l_maxConcurrent l)%Z
}.

Lemma within_cap_sub t t' s s' :
  (t ≤ t')%Z → limiter_buckets s' = limiter_buckets s → counts_positive (limiter_holds s') →
  (∀ resource, live_held resource t' s' ≤ live_held resource t' s)%Z →
  within_cap t s → within_cap t' s'.
Proof.
  intros Ht Hb Hpos Hle [Hp Ho Hc]. split; [done|by unfold no_overrides; rewrite Hb|].
  intros r. pose proof (live_held_later r t t' s Hp Ht). specialize (Hle r). specialize (Hc r). lia.
Qed.

Lemma sum_holds_subset P t1 t2 : t1 ⊆ t2 → counts_positive t2 → (sum_holds P t1 ≤ sum_holds P t2)%Z.
Proof.
  revert t2. induction t1 as [|k h t1 Hk IH] using map_ind; intros t2 Hsub Hp.
  - rewrite sum_holds_empty. by apply (sum_holds_mono P P t2).
  - assert (t2 !! k = Some h) as Hk2 by (eapply lookup_weaken; [apply lookup_insert_eq|done]).
    rewrite sum_holds_insert, (sum_holds_delete P t2 k h) by done.
    enough (sum_holds P t1 ≤ sum_holds P (delete k t2))%Z by (destruct (P h); lia).
    apply IH; [|by apply map_Forall_delete]. rewrite <-(delete_insert_id t1 k h) by done.
    by apply delete_mono.
Qed.

Lemma within_cap_acquire t now id resource n s g s' :
  (t ≤ now)%Z → (0 < l_maxConcurrent l)%Z → (0 ≤ l_holdTTL l)%Z → (0 < n)%Z →
  acquired l now id resource n s g s' → within_cap t s → within_cap now s'.
Proof.
  intros Ht Hm Httl Hn Ha [Hp Ho Hc]. destruct (seed_caps resource now s Ho) as [Hcaps _].
  assert ((0 <? c_maxConcurrent own_caps)%Z = true) as Hm' by by apply Z.ltb_lt.
  pose proof (aq_n _ _ _ _ _ _ _ _ Ha) as Hgn. pose proof (aq_holds _ _ _ _ _ _ _ _ Ha) as Hh.
  pose proof (aq_fresh _ _ _ _ _ _ _ _ Ha) as Hf. rewrite Hcaps, Hm' in *. cbv zeta in Hh.
  destruct (grantable_bounds own_caps n (refilled_tokens l (seed_bucket l resource now s) now)
    (live_held resource now s) Hn) as (Hb & _ & Hroom). rewrite <-Hgn in Hb, Hroom. specialize (Hroom Hm).
  set (t0 := reclaim_holds resource now (limiter_holds s)) in *.
  assert (counts_positive t0) as Hp0 by (intros k h [Hk _]%map_lookup_filter_Some; by eapply Hp).
  assert (∀ r, sum_holds (live_hold r now) t0 = live_held r now s) as Hl0 by (intros r; apply reclaim_live).
  assert (∀ r, live_held r now s ≤ l_maxConcurrent l)%Z as Hc'.
  { intros r. pose proof (live_held_later r t now s Hp Ht). specialize (Hc r). lia. }
  assert (no_overrides s') as Ho' by by eapply no_overrides_acquired.
  destruct (Z.eqb_spec (g_N g) 0) as [Hz|Hz].
  - split; [by rewrite Hh|done|]. intros r. unfold live_held. by rewrite Hh, Hl0.
  - specialize (Hf Hm Hz). split; [rewrite Hh; apply map_Forall_insert_2; [simpl; lia|done]|done|].
    intros r. unfold live_held. rewrite Hh, sum_holds_insert, Hl0 by done. cbn [lh_N].
    unfold live_hold, held_on. cbn [lh_Resource lh_ExpiresAt].
    rewrite (proj2 (Z.ltb_ge (now + l_holdTTL l) now)) by lia. specialize (Hc' r).
    case_bool_decide as E; [subst r|simpl; lia]. simpl in *. lia.
Qed.

Lemma within_cap_release t now g s :
  (t ≤ now)%Z → within_cap t s → within_cap now (Release g s).
Proof.
  intros Ht Hw. pose proof (wc_pos _ _ Hw) as Hp.
  assert (within_cap now s) as Hnow by by eapply (within_cap_sub t now s s).
  unfold Release. destruct (_ || _) eqn:Eg; [done|].
  apply orb_false_iff in Eg as [Hg%Z.leb_gt _].
  destruct (limiter_holds s !! g_Token g) as [h|] eqn:Eh; [|done].
  assert (counts_positive (delete (g_Token g) (limiter_holds s))) as Hpd by by apply map_Forall_delete.
  destruct (Z.leb_spec (lh_N h - g_N g) 0); (apply (within_cap_sub now now s); [lia|done| | |exact Hnow]).
  - done.
  - intros r. unfold live_held. cbn [limiter_holds with_holds]. apply sum_holds_subset; [apply delete_subseteq|done].
  - cbn [limiter_holds with_holds]. apply map_Forall_insert_2; [simpl; lia|done].
  - intros r. unfold live_held. cbn [limiter_holds with_holds]. rewrite <-insert_delete_eq.
    rewrite sum_holds_insert by apply lookup_delete_eq.
    rewrite (sum_holds_delete _ _ _ _ Eh). unfold live_hold, held_on. cbn [lh_Resource lh_ExpiresAt lh_N].
    destruct (_ && _); lia.
Qed.

Lemma within_cap_sweep t now limit s :
  (t ≤ now)%Z → within_cap t s → within_cap now (limiter_sweepBatch now limit s).2.
Proof.
  intros Ht Hw. pose proof (wc_pos _ _ Hw) as Hp.
  assert (limiter_holds (limiter_sweepBatch now limit s).2 ⊆ limiter_holds s) as Hsub.
  { apply map_subseteq_spec. intros k h. apply sweepBatch_holds. }
  apply (within_cap_sub t now s); [done|apply sweepBatch_buckets| | |exact Hw].
  - intros k h Hk. by eapply Hp, sweepBatch_holds.
  - intros r. by apply sum_holds_subset.
Qed.

Lemma within_cap_step t op s :
  (0 < l_maxConcurrent l)%Z → (0 ≤ l_holdTTL l)%Z → (t ≤ op_time op)%Z →
  within_cap t s → within_cap (op_time op) (limiter_step op s).2.
Proof.
  intros Hm Httl Ht Hw. destruct op as [now id resource n|now g|now limit]; simpl in *.
  - destruct (Acquire l now id resource n s) as [[g s']|e] eqn:Ea;
      [|by eapply (within_cap_sub t now s s); [| |apply Hw| |exact Hw]].
    destruct (Z.leb_spec n 0) as [Hn|Hn].
    { unfold Acquire in Ea. rewrite (proj2 (Z.leb_le _ _) Hn) in Ea. injection Ea as <- <-.
      by eapply (within_cap_sub t now s s); [| |apply Hw| |exact Hw]. }
    eapply within_cap_acquire; [done..| |exact Hw]. apply Acquire_capped; try done.
    + unfold readsBucket. rewrite (proj2 (Z.ltb_lt _ _) Hm), orb_true_r. done.
    + right. by destruct (seed_caps resource now s (wc_over _ _ Hw)) as [-> _].
  - by eapply within_cap_release.
  - by eapply within_cap_sweep.
Qed.

Lemma within_cap_run t ops s :
  (0 < l_maxConcurrent l)%Z → (0 ≤ l_holdTTL l)%Z → timed t ops → within_cap t s →
  within_cap (end_time t ops) (limiter_run ops s).
Proof.
  intros Hm Httl. revert t s. induction ops as [|op ops IH]; intros t s; simpl; [done|].
  intros [Ht Hops] Hw. apply IH; [done|]. by eapply within_cap_step.
Qed.
End runs.

(** ** The rate

    A bucket's potential at an instant is what it holds and what has accrued since
    its last refill, in token-nanoseconds. Refilling at whole nanoseconds can
    raise it by less than [rate], and a grant lowers it by its size. *)
Section rate.
Context `{RowOrder} (l : DBLimiter).
Abbreviation rate := (l_rate l).
Abbreviation interval := (l_interval l).
Abbreviation burst := (c_burst (own_caps l)).
Context (Hrate : (0 < rate)%Z) (Hint : (0 < interval)%Z) (Hburst : (0 < burst)%Z)
        (Hfits : (2 * burst * interval ≤ int64_max)%Z).

Definition bucket_ok (t : Z) (b : limiterBucketRow) : Prop :=
  (0 ≤ lb_Tokens b ≤ burst)%Z ∧ (lb_RefilledAt b ≤ t)%Z.
Definition potential (b : limiterBucketRow) (t : Z) : Z :=
  (lb_Tokens b * interval + rate * (t - lb_RefilledAt b))%Z.

(** What a refill does: nothing, fill the bucket, or add the whole tokens accrued
    and charge the time they cost. No product overflows. *)
Lemma refill_cases b now :
  capsFor l b = own_caps l → bucket_ok now b →
  let d := (now - lb_RefilledAt b)%Z in
  (refill l b now = b ∧ d * rate < interval)%Z ∨
  (refill l b now = set_tokens burst now (lb_UpdatedAt b) b ∧
   burst * interval < lb_Tokens b * interval + (d + 1) * rate)%Z ∨
  ∃ add, (0 < add ∧ lb_Tokens b + add < burst ∧ add * interval ≤ d * rate < (add + 1) * interval)%Z ∧
    refill l b now = set_tokens (lb_Tokens b + add) (lb_RefilledAt b + add * interval / rate)
                       (lb_UpdatedAt b) b.
Proof.
  intros Hcaps [Hb Hr] d. unfold refill. rewrite Hcaps. cbn [c_rate own_caps].
  change (c_burst (own_caps l)) with burst. rewrite (proj2 (Z.leb_gt rate 0)) by done.
  rewrite (wrap64_id (burst * interval)) by (unfold in_int64, int64_min in *; nia).
  rewrite Z.quot_div_nonneg by nia.
  assert (burst * interval / rate ≤ burst * interval)%Z as Hbt by (apply Z.div_le_upper_bound; nia).
  pose proof (Z.mul_div_le (burst * interval) rate Hrate) as Hb1.
  pose proof (Z.mul_succ_div_gt (burst * interval) rate Hrate) as Hb2.
  set (e := time_sub now (lb_RefilledAt b)).
  assert (e = Z.min int64_max d)%Z as He by (unfold e, d, time_sub, int64_min, int64_max in *; lia).
  destruct (Z.leb_spec e 0) as [He0|He0]; [left; split; [done|unfold d, int64_max in *; nia]|].
  destruct (Z.leb_spec (burst * interval / rate) e) as [Hge|Hlt]; [right; left; split; [done|nia]|].
  assert (e = d) as -> by lia. assert (d * rate < burst * interval)%Z by nia.
  rewrite (wrap64_id (d * rate)) by (unfold in_int64, int64_min in *; nia).
  rewrite Z.quot_div_nonneg by nia. set (add := (d * rate / interval)%Z).
  pose proof (Z.mul_div_le (d * rate) interval Hint) as Ha1.
  pose proof (Z.mul_succ_div_gt (d * rate) interval Hint) as Ha2. fold add in Ha1, Ha2.
  destruct (Z.leb_spec add 0) as [Ha0|Ha0]; [left; split; [done|nia]|].
  rewrite (wrap64_id (lb_Tokens b + add)) by (unfold in_int64, int64_min in *; nia).
  rewrite (wrap64_id (add * interval)) by (unfold in_int64, int64_min in *; nia).
  rewrite (Z.quot_div_nonneg (add * interval)) by nia.
  destruct (Z.leb_spec burst (Z.min burst (lb_Tokens b + add))) as [Hfull|Hpart]; right; [left|right].
  - rewrite Z.min_l by lia. split; [done|nia].
  - rewrite Z.min_r by lia. exists add. split; [split_and!; nia|done].
Qed.

Lemma refill_potential b now :
  capsFor l b = own_caps l → bucket_ok now b →
  bucket_ok now (refill l b now) ∧
  (potential (refill l b now) now ≤ potential b now + rate)%Z ∧
  (potential (refill l b now) now ≤ (burst + 1) * interval + rate)%Z.
Proof.
  intros Hcaps Hok. pose proof Hok as [Hb Hr].
  destruct (refill_cases b now Hcaps Hok) as [[-> Hd]|[[-> Hd]|(add & (Ha & Hlt & Hd) & ->)]];
    unfold bucket_ok, potential, set_tokens; cbn [lb_Tokens lb_RefilledAt].
  - split_and!; nia.
  - split_and!; nia.
  - pose proof (Z.mul_div_le (add * interval) rate Hrate). pose proof (Z.mul_succ_div_gt (add * interval) rate Hrate).
    pose proof (Z.div_pos (add * interval) rate ltac:(nia) Hrate). split_and!; nia.
Qed.

Context (Hown : l_burst l = burst).

Record rate_ok (t : Z) (s : limiter_db) : Prop := {
  ro_over : no_overrides s;
  ro_buckets : ∀ resource b, limiter_buckets s !! resource = Some b → bucket_ok t b
}.
(** What a resource may still draw at [t]; a bucket nobody seeded starts full. *)
Definition credit (resource : string) (t : Z) (s : limiter_db) : Z :=
  match limiter_buckets s !! resource with Some b => potential b t | None => (burst * interval)%Z end.

Lemma rate_ok_later t t' s : (t ≤ t')%Z → rate_ok t s → rate_ok t' s.
Proof. intros Ht [Ho Hb]. split; [done|]. intros r b Hr. destruct (Hb r b Hr). split; [done|lia]. Qed.
Lemma credit_later resource t t' s :
  (t ≤ t')%Z → (credit resource t' s ≤ credit resource t s + rate * (t' - t))%Z.
Proof. intros Ht. unfold credit. destruct (_ !! _); [unfold potential; lia|nia]. Qed.
Lemma credit_nonneg resource t s : rate_ok t s → (0 ≤ credit resource t s)%Z.
Proof.
  intros [_ Hb]. unfold credit. destruct (_ !! _) as [b|] eqn:E; [|nia].
  destruct (Hb _ _ E) as [? ?]. unfold potential. nia.
Qed.

Lemma seed_ok resource now s : rate_ok now s → bucket_ok now (seed_bucket l resource now s).
Proof.
  intros [_ Hb]. unfold seed_bucket. destruct (_ !! _) as [b|] eqn:E; [by eapply Hb|].
  split; cbn [lb_Tokens lb_RefilledAt]; [rewrite Hown|]; lia.
Qed.

Lemma rate_acquire t now id resource n s g s' :
  (t ≤ now)%Z → (0 < n)%Z → rate_ok t s → acquired l now id resource n s g s' →
  rate_ok now s' ∧ (0 ≤ g_N g)%Z ∧
  (g_N g * interval + credit resource now s' ≤ credit resource now s + rate)%Z ∧
  (g_N g * interval + credit resource now s' ≤ (burst + 1) * interval + rate)%Z ∧
  (∀ r, r ≠ resource → credit r now s' = credit r now s).
Proof.
  intros Ht Hn Hro Ha. pose proof (rate_ok_later _ _ _ Ht Hro) as [Ho Hbs].
  destruct (seed_caps l resource now s Ho) as [Hcaps _].
  pose proof (no_overrides_acquired _ _ _ _ _ _ _ _ Ho Ha) as Ho'.
  pose proof (aq_bucket _ _ _ _ _ _ _ _ Ha) as Hb. pose proof (aq_n _ _ _ _ _ _ _ _ Ha) as Hgn.
  set (row := seed_bucket l resource now s) in *.
  assert (bucket_ok now row ∧ potential row now = credit resource now s) as [Hrow Hcr].
  { unfold row, seed_bucket, credit. destruct (limiter_buckets s !! resource) as [b|] eqn:E; [by eauto|].
    unfold bucket_ok, potential. cbn [lb_Tokens lb_RefilledAt]. rewrite Hown. split_and!; lia. }
  destruct (refill_potential row now Hcaps Hrow) as (Hok & Hp1 & Hp2).
  assert ((0 <? c_rate (own_caps l))%Z = true) as Hr' by by apply Z.ltb_lt.
  rewrite Hcaps, Hr' in *. cbn [andb] in *.
  assert (refilled_tokens l row now = lb_Tokens (refill l row now)) as Htok.
  { unfold refilled_tokens. rewrite Hcaps, Hr'. cbn [andb]. destruct Hok as [[_ Hle] _].
    by rewrite (proj2 (Z.ltb_ge _ _) Hle). }
  rewrite Htok in *. destruct Hok as [[Ht0 Htb] Hra].
  destruct (grantable_bounds (own_caps l) n (lb_Tokens (refill l row now))
    (if (0 <? c_maxConcurrent (own_caps l))%Z then live_held resource now s else 0%Z) Hn) as (Hg & Hgt & _).
  rewrite <-Hgn in Hg, Hgt. specialize (Hgt Hrate). split_and!; [|lia| | |].
  - split; [done|]. intros r b. rewrite Hb. intros [[<- <-]|[_ ?]]%lookup_insert_Some; [|by eauto].
    unfold bucket_ok, set_tokens. cbn [lb_Tokens lb_RefilledAt]. lia.
  - unfold credit at 1. rewrite Hb, lookup_insert_eq, <-Hcr. unfold potential, set_tokens in *.
    cbn [lb_Tokens lb_RefilledAt] in *. nia.
  - unfold credit. rewrite Hb, lookup_insert_eq. unfold potential, set_tokens in *.
    cbn [lb_Tokens lb_RefilledAt] in *. nia.
  - intros r Hne. unfold credit. by rewrite Hb, lookup_insert_ne.
Qed.

(** How many Acquires an operation makes on a resource. *)
Definition asks (resource : string) (op : limiter_op) : Z :=
  match op with OpAcquire _ _ r _ => if bool_decide (r = resource) then 1%Z else 0%Z | _ => 0%Z end.
Fixpoint count_asks (resource : string) (ops : list limiter_op) : Z :=
  match ops with [] => 0%Z | op :: ops => (asks resource op + count_asks resource ops)%Z end.

Lemma rate_step t op s resource :
  (t ≤ op_time op)%Z → rate_ok t s →
  let '(g, s') := limiter_step l op s in
  rate_ok (op_time op) s' ∧
  (granted_on resource g * interval + credit resource (op_time op) s' ≤
     credit resource (op_time op) s + asks resource op * rate)%Z ∧
  ((granted_on resource g = 0 ∧ credit resource (op_time op) s' = credit resource (op_time op) s) ∨
   (asks resource op = 1 ∧ granted_on resource g * interval + credit resource (op_time op) s' ≤
      (burst + 1) * interval + rate))%Z.
Proof.
  intros Ht Hro. pose proof (rate_ok_later _ _ _ Ht Hro) as Hro'.
  destruct op as [now id r n|now g|now limit]; cbn [op_time asks limiter_step] in *.
  - destruct (Acquire l now id r n s) as [[g s']|e] eqn:Ea.
    2:{ cbn [granted_on]. split_and!; [done| |by left]. case_bool_decide; lia. }
    destruct (Z.leb_spec n 0) as [Hn|Hn].
    { unfold Acquire in Ea. rewrite (proj2 (Z.leb_le _ _) Hn) in Ea. injection Ea as <- <-. cbn [granted_on bare_grant g_Resource g_N].
      split_and!; [done| |left; by case_bool_decide]. repeat case_bool_decide; lia. }
    assert (acquired l now id r n s g s') as Ha.
    { apply Acquire_capped; try done.
      - unfold readsBucket. by rewrite (proj2 (Z.ltb_lt _ _) Hrate).
      - left. by destruct (seed_caps l r now s (ro_over _ _ Hro)) as [-> _]. }
    destruct (rate_acquire _ _ _ _ _ _ _ _ Ht Hn Hro Ha) as (Hok & Hg0 & Hc1 & Hc2 & Hother).
    cbn [granted_on]. rewrite (aq_resource _ _ _ _ _ _ _ _ Ha). destruct (decide (r = resource)) as [->|Hne].
    + rewrite !bool_decide_true by done. split_and!; [done|lia|]. right. lia.
    + rewrite !bool_decide_false, Hother by done. split_and!; [done|lia|by left].
  - assert (limiter_buckets (Release g s) = limiter_buckets s) as Hb by (unfold Release; by repeat case_match).
    cbn [granted_on]. unfold credit. rewrite Hb. split_and!; [|lia|by left].
    destruct Hro' as [Ho Hbs]. split; [unfold no_overrides|]; by rewrite Hb.
  - pose proof (sweepBatch_buckets now limit s) as Hb.
    cbn [granted_on]. unfold credit. rewrite Hb. split_and!; [|lia|by left].
    destruct Hro' as [Ho Hbs]. split; [unfold no_overrides|]; by rewrite Hb.
Qed.

Lemma rate_run t ops s resource :
  timed t ops → rate_ok t s →
  rate_ok (end_time t ops) (limiter_run l ops s) ∧
  (total_granted l resource ops s * interval ≤
     credit resource t s + rate * (end_time t ops - t) + count_asks resource ops * rate)%Z ∧
  (total_granted l resource ops s * interval ≤
     (burst + 1) * interval + rate * (end_time t ops - t) + count_asks resource ops * rate)%Z ∧
  (t ≤ end_time t ops)%Z ∧ (0 ≤ count_asks resource ops)%Z.
Proof.
  revert t s. induction ops as [|op ops IH]; intros t s; cbn [timed end_time limiter_run total_granted count_asks].
  - intros _ Hro. pose proof (credit_nonneg resource t s Hro). split_and!; [done|nia..].
  - intros [Ht Hops] Hro. pose proof (rate_step t op s resource Ht Hro) as Hstep.
    destruct (limiter_step l op s) as [g s'] eqn:E. destruct Hstep as (Hok & Hc & Hcase).
    destruct (IH (op_time op) s' Hops Hok) as (Hok2 & H1' & H2' & Hle & Hk).
    pose proof (credit_later resource t (op_time op) s Ht) as Hl. cbn [fst snd].
    assert (0 ≤ asks resource op)%Z as Hasks by (destruct op; cbn [asks]; try lia; by case_bool_decide).
    split_and!; [done|nia| |lia|lia].
    destruct Hcase as [[Hg Hs]|[Ha Hs]]; nia.
Qed.
(** When a token takes a whole number [p] of nanoseconds, refilling loses nothing:
    less than one token's worth is ever pending... *)
Lemma refill_pending p b now :
  capsFor l b = own_caps l → bucket_ok now b → interval = (p * rate)%Z →
  (0 < p ∧ lb_RefilledAt (refill l b now) ≤ now < lb_RefilledAt (refill l b now) + p)%Z.
Proof.
  intros Hcaps Hok Hp. pose proof Hok as [Hb Hr]. assert (0 < p)%Z as Hp0 by nia. split; [done|].
  destruct (refill_cases b now Hcaps Hok) as [[-> Hd]|[[-> Hd]|(add & (Ha & Hlt & Hd) & ->)]];
    cbn [set_tokens lb_RefilledAt]; [nia|lia|].
  replace (add * interval)%Z with (add * p * rate)%Z in * by (rewrite Hp; ring).
  rewrite Z.div_mul by lia. nia.
Qed.

(** ... and an empty bucket has its next token [p] after its last refill, no sooner. *)
Lemma refill_empty p b now :
  capsFor l b = own_caps l → bucket_ok now b → lb_Tokens b = 0%Z → interval = (p * rate)%Z →
  (if (now <? lb_RefilledAt b + p)%Z then lb_Tokens (refill l b now) = 0
   else 1 ≤ lb_Tokens (refill l b now))%Z.
Proof.
  intros Hcaps Hok Hz Hp. pose proof Hok as [Hb Hr]. assert (0 < p)%Z as Hp0 by nia.
  destruct (refill_cases b now Hcaps Hok) as [[-> Hd]|[[-> Hd]|(add & (Ha & Hlt & Hd) & ->)]];
    cbn [set_tokens lb_Tokens];
    destruct (Z.ltb_spec now (lb_RefilledAt b + p)); rewrite ?Hz in *; try lia; nia.
Qed.

(** An Acquire under the rate alone never fails: it grants what was asked or what
    the refilled bucket holds. *)
Lemma rate_only_acquire t now id resource n s :
  l_maxConcurrent l = 0%Z → (t ≤ now)%Z → (0 < n)%Z → rate_ok t s →
  let b := refill l (seed_bucket l resource now s) now in
  ∃ g s', Acquire l now id resource n s = Ok (g, s') ∧ acquired l now id resource n s g s' ∧
    g_N g = Z.min n (lb_Tokens b) ∧
    limiter_buckets s' !! resource = Some (set_tokens (lb_Tokens b - g_N g) (lb_RefilledAt b) now b) ∧
    ((g_N g < n)%Z → g_RetryAfter g = retryAfter l (lb_Tokens b - g_N g) now (lb_RefilledAt b) (own_caps l)).
Proof.
  intros Hm Ht Hn Hro b. pose proof (rate_ok_later _ _ _ Ht Hro) as Hro'.
  destruct (seed_caps l resource now s (ro_over _ _ Hro)) as [Hcaps _].
  assert (bucket_ok now b) as [Htok _].
  { apply refill_potential; [done|]. by apply seed_ok. }
  assert (refilled_tokens l (seed_bucket l resource now s) now = lb_Tokens b) as Hrt.
  { unfold refilled_tokens. rewrite Hcaps. fold b. by rewrite (proj2 (Z.ltb_ge _ _) (proj2 Htok)), andb_false_r. }
  assert (∃ g s', Acquire l now id resource n s = Ok (g, s')) as (g & s' & Ea).
  { unfold Acquire. rewrite Hcaps. cbn [c_maxConcurrent own_caps]. rewrite Hm. cbn [Z.ltb Z.compare].
    repeat (case_match; [eauto|]). eauto. }
  exists g, s'. assert (acquired l now id resource n s g s') as Ha.
  { apply Acquire_capped; try done; [unfold readsBucket; by rewrite (proj2 (Z.ltb_lt _ _) Hrate)|].
    left. by rewrite Hcaps. }
  pose proof (aq_n _ _ _ _ _ _ _ _ Ha) as Hgn. pose proof (aq_bucket _ _ _ _ _ _ _ _ Ha) as Hbk.
  pose proof (aq_hint _ _ _ _ _ _ _ _ Ha) as Hh.
  assert ((0 <? c_rate (own_caps l))%Z = true) as Hr by by apply Z.ltb_lt.
  rewrite Hcaps, Hrt, ?Hr in *. split_and!; [done|done| | |done].
  - rewrite Hgn. unfold grantable. rewrite Hr. cbn [c_maxConcurrent own_caps]. rewrite Hm. cbn [Z.ltb Z.compare andb].
    destruct (Z.ltb_spec (lb_Tokens b) n); rewrite (proj2 (Z.ltb_ge _ _)) by lia; lia.
  - rewrite Hbk. apply lookup_insert_eq.
Qed.

(** The wait a short grant hints at is when the next permit comes. *)
Lemma short_grant_hint p t now id resource n s g s' :
  l_maxConcurrent l = 0%Z → interval = (p * rate)%Z → rate_ok t s → (t ≤ now)%Z →
  Acquire l now id resource n s = Ok (g, s') → (g_N g < n)%Z →
  (0 < g_RetryAfter g ≤ p)%Z ∧
  ∀ later id', (now ≤ later)%Z → ∃ g' s'', Acquire l later id' resource 1 s' = Ok (g', s'') ∧
    g_N g' = if (later <? now + g_RetryAfter g)%Z then 0%Z else 1%Z.
Proof.
  intros Hm Hp Hro Ht Ha Hshort.
  assert (0 < n)%Z as Hn.
  { destruct (Z.leb_spec n 0) as [Hle|]; [|done]. unfold Acquire in Ha.
    rewrite (proj2 (Z.leb_le _ _) Hle) in Ha. injection Ha as <- <-. simpl in Hshort. lia. }
  destruct (rate_only_acquire t now id resource n s Hm Ht Hn Hro) as (g0 & s0 & Ha0 & Haq & Hg & Hb & Hh).
  rewrite Ha in Ha0. injection Ha0 as <- <-. specialize (Hh Hshort).
  destruct (rate_acquire _ _ _ _ _ _ _ _ Ht Hn Hro Haq) as (Hok' & _).
  destruct (seed_caps l resource now s (ro_over _ _ Hro)) as [Hcaps _].
  pose proof (rate_ok_later _ _ _ Ht Hro) as Hro'.
  pose proof (seed_ok resource now s Hro') as Hseed.
  destruct (refill_pending p _ now Hcaps Hseed Hp) as (Hp0 & Hpend).
  set (b := refill l (seed_bucket l resource now s) now) in *.
  assert (lb_Tokens b - g_N g = 0)%Z as Hz by lia. rewrite Hz in Hb, Hh.
  assert (g_RetryAfter g = lb_RefilledAt b + p - now)%Z as Hhint.
  { rewrite Hh. unfold retryAfter. cbn [c_rate own_caps]. rewrite (proj2 (Z.leb_gt _ _) Hrate). cbn [orb Z.leb Z.compare].
    replace (Z.quot interval rate) with p by (rewrite Hp, Z.quot_mul; lia).
    unfold time_sub. assert (p ≤ int64_max)%Z by nia. unfold int64_min, int64_max in *. lia. }
  split; [lia|]. intros later id' Hl.
  destruct (rate_only_acquire now later id' resource 1 s' Hm Hl ltac:(lia) Hok') as (g' & s'' & Ha' & _ & Hg' & _).
  exists g', s''. split; [done|]. rewrite Hg', Hhint.
  destruct (seed_caps l resource later s' (ro_over _ _ Hok')) as [Hcaps' _].
  unfold seed_bucket in *. rewrite Hb in *.
  assert (bucket_ok later (set_tokens 0 (lb_RefilledAt b) now b)) as Hbl.
  { split; cbn [set_tokens lb_Tokens lb_RefilledAt]; lia. }
  pose proof (refill_empty p _ later Hcaps' Hbl eq_refl Hp) as He. cbn [set_tokens lb_RefilledAt] in He.
  replace (now + (lb_RefilledAt b + p - now))%Z with (lb_RefilledAt b + p)%Z by lia.
  destruct (later <? lb_RefilledAt b + p)%Z; lia.
Qed.
End rate.

Lemma rate_ok_empty l t : rate_ok l t empty_limiter.
Proof. split; [apply map_Forall_empty|]. intros r b. simpl. by rewrite lookup_empty. Qed.

(** ** The limiter a host gets *)

Lemma NewDBLimiter_valid cfg l :
  NewDBLimiter cfg = Some l →
  l_rate l = cfg_Rate cfg ∧ l_interval l = cfg_Interval cfg ∧ l_maxConcurrent l = cfg_MaxConcurrent cfg ∧
  l_holdTTL l = cfg_HoldTTL cfg ∧ (0 ≤ cfg_MaxConcurrent cfg)%Z ∧
  ((0 < cfg_Rate cfg)%Z → (0 < cfg_Interval cfg)%Z ∧ (0 < l_burst l)%Z ∧ c_burst (own_caps l) = l_burst l) ∧
  ((0 < cfg_MaxConcurrent cfg)%Z → (0 < cfg_HoldTTL cfg)%Z).
Proof.
  unfold NewDBLimiter. destruct (_ || _) eqn:E1; [done|]. destruct (_ && (cfg_Interval _ <=? _)%Z) eqn:E2; [done|].
  destruct (_ && (cfg_HoldTTL _ <=? _)%Z) eqn:E3; [done|]. intros [= <-].
  rewrite !orb_false_iff, !Z.ltb_ge in E1. rewrite !andb_false_iff, Z.ltb_ge, Z.leb_gt in E2, E3.
  cbn [l_rate l_interval l_maxConcurrent l_holdTTL l_burst own_caps c_burst]. split_and!; try done; [lia| |lia].
  intros Hr. rewrite (proj2 (Z.ltb_lt _ _) Hr). cbn [andb].
  destruct (Z.leb_spec (cfg_Burst cfg) 0).
  - by rewrite (proj2 (Z.leb_gt _ _) Hr); split_and!; [lia| |].
  - rewrite (proj2 (Z.leb_gt _ _) H). split_and!; [lia|lia|done].
Qed.

Section promises.
Context `{RowOrder} (cfg : DBLimiterConfig) (l : DBLimiter) (Hnew : NewDBLimiter cfg = Some l).

(** C16. However the Acquires, Releases (genuine, doubled or forged) and sweeps of
    any number of processes interleave, with clocks that do not run backwards, the
    permits of the unexpired holds on a resource never exceed MaxConcurrent. *)
Theorem limiter_ceiling t ops resource :
  (0 < cfg_MaxConcurrent cfg)%Z → timed t ops →
  (live_held resource (end_time t ops) (limiter_run l ops empty_limiter) ≤ cfg_MaxConcurrent cfg)%Z.
Proof.
  intros Hm Hops. destruct (NewDBLimiter_valid _ _ Hnew) as (_ & _ & Hmax & Httl & _ & _ & Hh).
  rewrite <-Hmax. eapply wc_cap, within_cap_run; [lia|rewrite Httl; specialize (Hh Hm); lia|done|].
  split; [apply map_Forall_empty|apply map_Forall_empty|]. intros r. unfold live_held. simpl.
  rewrite sum_holds_empty. lia.
Qed.


(** When the rate divides the interval, RetryAfter is exact under the rate
    alone: after any history, an Acquire granted less than it asked returns a
    positive wait of at most one token's time, and asking again for one permit is
    denied at every instant before the wait is over and granted from then on. *)
Theorem retry_hint_exact t ops now id resource n g s' p :
  (0 < cfg_Rate cfg)%Z → cfg_MaxConcurrent cfg = 0%Z → cfg_Interval cfg = (p * cfg_Rate cfg)%Z →
  (2 * l_burst l * cfg_Interval cfg ≤ int64_max)%Z → timed t ops → (end_time t ops ≤ now)%Z →
  Acquire l now id resource n (limiter_run l ops empty_limiter) = Ok (g, s') → (g_N g < n)%Z →
  (0 < g_RetryAfter g ≤ p)%Z ∧
  ∀ later id', (now ≤ later)%Z → ∃ g' s'', Acquire l later id' resource 1 s' = Ok (g', s'') ∧
    g_N g' = if (later <? now + g_RetryAfter g)%Z then 0%Z else 1%Z.
Proof.
  intros Hr Hm Hdiv Hfit Hops Hnow Ha Hshort.
  destruct (NewDBLimiter_valid _ _ Hnew) as (Hrate & Hint & Hmax & _ & _ & Hpos & _).
  destruct (Hpos Hr) as (Hi & Hbu & Hbe). rewrite <-Hrate, <-Hint, <-Hmax, <-Hbe in *.
  destruct (rate_run l Hr Hi Hbu Hfit (eq_sym Hbe) t ops empty_limiter resource Hops (rate_ok_empty l t))
    as [Hok _].
  by eapply short_grant_hint.
Qed.
End promises.
