(* ===== verification/Quiet.v ===== *)
(** * Steps that hand out no claim

    Everything the runtime does but a claim leaves each job's attempt counter and
    parent alone and, to its lease token, can only clear it; the rows it adds have
    never been claimed. [quiet] says so of two tables, and each operation is shown
    to satisfy it. The history of claims in Machine.v rests on it. *)

From S2P Require Import Prelude Types Text Fingerprint Store Plan Insert Barrier Finalize Claim Sweep Client Controls.

Definition quiet (M : gset string) (d d' : db) : Prop :=
  ∀ id r', jobs d' !! id = Some r' →
    (∃ r, jobs d !! id = Some r ∧ j_Attempt r' = j_Attempt r ∧ j_ParentJobID r' = j_ParentJobID r ∧
          (j_LeaseToken r' = j_LeaseToken r ∨ j_LeaseToken r' = None)) ∨
    (id ∈ M ∧ id ≠ "" ∧ j_LeaseToken r' = None).

Lemma quiet_jobs M d d' : jobs d' = jobs d → quiet M d d'.
Proof. intros Hj id r Hr. rewrite Hj in Hr. left. exists r. auto. Qed.

#[global] Instance quiet_refl M : Reflexive (quiet M).
Proof. intros d. by apply quiet_jobs. Qed.

#[global] Instance quiet_trans M : Transitive (quiet M).
Proof.
  intros d1 d2 d3 H12 H23 id r3 H3. destruct (H23 _ _ H3) as [(r2 & H2 & Ha & Hp & Ht)|?]; [|auto].
  destruct (H12 _ _ H2) as [(r1 & H1 & Ha' & Hp' & Ht')|(? & ? & Ht')].
  - left. exists r1. rewrite Ha, Hp. split_and!; try done. destruct Ht as [->| ->]; auto.
  - right. split_and!; try done. destruct Ht as [->| ->]; auto.
Qed.

Lemma quiet_map M (f : jobRow → jobRow) d d' :
  (∀ id, jobs d' !! id = f <$> jobs d !! id) →
  (∀ id r, jobs d !! id = Some r → j_Attempt (f r) = j_Attempt r ∧ j_ParentJobID (f r) = j_ParentJobID r ∧
     (j_LeaseToken (f r) = j_LeaseToken r ∨ j_LeaseToken (f r) = None)) →
  quiet M d d'.
Proof.
  intros Hf Hr id r'. rewrite Hf. intros (r & Hi & ->)%fmap_Some_1. left. exists r.
  destruct (Hr _ _ Hi) as (? & ? & ?). done.
Qed.

Lemma quiet_update M P cols d :
  (∀ id r, jobs d !! id = Some r → P r = true → j_Attempt (Updates cols r) = j_Attempt r ∧
     (j_LeaseToken (Updates cols r) = j_LeaseToken r ∨ j_LeaseToken (Updates cols r) = None)) →
  quiet M d (update_jobs P cols d).
Proof.
  intros Hs. eapply quiet_map; [intros; apply lookup_update_where|]. intros id r Hr. simpl.
  destruct (P r && not_deleted r) eqn:E; [|by auto]. apply andb_true_iff in E as [E _].
  destruct (Hs _ _ Hr E). rewrite Updates_ParentJobID. done.
Qed.

Lemma quiet_insert M rows d :
  Forall (λ r, fresh_row r ∧ j_ID r ∈ M ∧ j_ID r ≠ "") rows → quiet M d (insertSkippingConflicts rows d).
Proof.
  rewrite Forall_forall. intros Hf id r [Hr|(_ & Hin & <-)]%insert_skipping_inv; [left; exists r; by auto|].
  right. destruct (Hf _ Hin) as (Hfr & ? & ?). split_and!; [done..|]. by apply Hfr.
Qed.

Section quiet_ops.
Context `{Foundation}.

(** The ids the first [n] mints of a context produce. *)
Definition minted (ctx : context) (n : nat) : gset string := list_to_set (c_NewID ctx <$> seq 0 n).

(** They are present, distinct, and none was ever used. *)
Definition fresh_mint (ctx : context) (n : nat) (used : gset string) : Prop :=
  NoDup (c_NewID ctx <$> seq 0 n) ∧ Forall (λ id, id ≠ "" ∧ id ∉ used) (c_NewID ctx <$> seq 0 n).

Lemma fresh_mint_in ctx n used k :
  fresh_mint ctx n used → k < n → c_NewID ctx k ∈ minted ctx n ∧ c_NewID ctx k ≠ "" ∧ c_NewID ctx k ∉ used.
Proof.
  intros [_ Hf] Hk. rewrite Forall_forall in Hf.
  assert (c_NewID ctx k ∈ c_NewID ctx <$> seq 0 n) as Hin by (apply list_elem_of_fmap_2, elem_of_seq; lia).
  unfold minted. rewrite elem_of_list_to_set. destruct (Hf _ Hin). done.
Qed.

Lemma fresh_mint_disjoint ctx n used : fresh_mint ctx n used → minted ctx n ## used.
Proof.
  intros [_ Hf] id Hid Hu. rewrite Forall_forall in Hf. unfold minted in Hid.
  apply elem_of_list_to_set in Hid. by destruct (Hf _ Hid).
Qed.

Lemma created_minted ctx n used rows rows' :
  fresh_mint ctx n used → Forall (λ id, id ∈ minted ctx n ∧ id ≠ "") (j_ID <$> rows) → Forall fresh_row rows →
  Forall2 (created ctx) rows rows' →
  Forall (λ r, fresh_row r ∧ j_ID r ∈ minted ctx n ∧ j_ID r ≠ "") rows'.
Proof.
  intros _ Hids Hfr Hc. pose proof (created_fresh _ _ _ Hc Hfr) as Hfr'.
  assert (j_ID <$> rows' = j_ID <$> rows) as Hsame.
  { eapply created_ids; [done|]. rewrite Forall_fmap in Hids. eapply Forall_impl; [exact Hids|].
    intros r Hr. exact (proj2 Hr). }
  rewrite <-Hsame, Forall_fmap in Hids. rewrite Forall_forall in Hids, Hfr' |- *. intros r Hr.
  split; [by apply Hfr'|]. exact (Hids r Hr).
Qed.

Lemma mint_ids ctx n used m :
  fresh_mint ctx n used → m ≤ n → Forall (λ id, id ∈ minted ctx n ∧ id ≠ "") (c_NewID ctx <$> seq 0 m).
Proof.
  intros Hf Hm. apply Forall_forall. intros id (k & -> & Hk%elem_of_seq)%list_elem_of_fmap.
  destruct (fresh_mint_in ctx n used k Hf) as (? & ? & _); [lia|done].
Qed.

Lemma quiet_fire ctx n used k pid by_ d fired d' :
  fresh_mint ctx n used → k < n → fireBarrierIfComplete ctx k pid by_ d = Ok (fired, d') →
  quiet (minted ctx n) d d'.
Proof.
  intros Hf Hk [(_ & -> & _)|(_ & _ & kind & row & _ & Hc & Hid & ->)]%fireBarrier_Ok; [done|].
  destruct (fresh_mint_in ctx n used k Hf Hk) as (Hin & Hne & _).
  etrans; [apply (quiet_insert _ [row])|apply quiet_update; by auto].
  apply Forall_singleton. split; [apply Hc|]. rewrite Hid. unfold orString.
  by rewrite (nonempty _ Hne).
Qed.

Lemma quiet_fireBarriers ctx n used k ps d d' :
  fresh_mint ctx n used → k + length ps ≤ n → fireBarriers ctx k ps d = Ok d' → quiet (minted ctx n) d d'.
Proof.
  intros Hf. revert k d. induction ps as [|[p c] ps IH]; intros k d Hlen; simpl; [by intros [= <-]|].
  destruct (fireBarrierIfComplete ctx k p c d) as [[fired d1]|] eqn:E; [|done]. intros Hps.
  simpl in Hlen. etrans; [eapply quiet_fire; [done| |done]|eapply IH; [|done]]; lia.
Qed.

Lemma quiet_insertFollowUps opts ctx n used fus pid d k d' :
  fresh_mint ctx n used → length fus ≤ n → insertFollowUps opts ctx fus pid d = Ok (k, d') →
  quiet (minted ctx n) d d'.
Proof.
  intros Hf Hlen (_ & rows & rows' & Hb & Hc & ->)%insertFollowUps_Ok.
  apply buildChildRows_Ok in Hb as (Hfr & Hids & _). apply quiet_insert.
  eapply created_minted; [done| |done|done]. rewrite Hids. by eapply mint_ids.
Qed.
End quiet_ops.

(** ** Whole operations *)

Section quiet_finalize.
Context `{Foundation} `{GoLib} `{Backoff}.

Lemma quiet_Finalize opts ctx n used raw runID result we t d out d' :
  fresh_mint ctx n used → length (res_FollowUps result) < n →
  Finalize opts ctx raw runID result we t d = Ok (out, d') → quiet (minted ctx n) d d'.
Proof.
  intros Hm Hlen (plan & stub & run & upd & d2 & d3 & Hz)%Finalize_Ok.
  destruct Hz as [-> _ Hu _ Hfo Hfi _ -> _].
  set (d1 := update_jobs _ upd d) in *.
  assert (quiet (minted ctx n) d d1) as Q1.
  { apply quiet_update. intros id r _ _.
    destruct (finalize_row _ _ _ _ _ _ _ _ r Hu) as (_ & _ & Ht & _ & _ & _ & Ha & _). auto. }
  assert (quiet (minted ctx n) d1 d2) as Q2.
  { destruct (p_followUps _ && _); [|by destruct Hfo as [_ ->]].
    eapply quiet_insertFollowUps; [done| |done]. lia. }
  assert (quiet (minted ctx n) d2 d3) as Q3.
  { clear Hfo. destruct (raw_ParentJobID raw); [|by subst]. destruct (negb _ && _); [|by subst].
    destruct Hfi as [fired Hfi]. by eapply quiet_fire. }
  etrans; [exact Q1|]. etrans; [exact Q2|]. etrans; [exact Q3|]. apply quiet_jobs.
  unfold finalizeRunRow. by destruct (r_FinishedAt run).
Qed.
End quiet_finalize.

Lemma quiet_InsertRunStub M ctx runID raw startedAt class execID d d' :
  InsertRunStub ctx runID raw startedAt class execID d = Ok d' → quiet M d d'.
Proof.
  unfold InsertRunStub. destruct (run_BeforeCreate _ _) as [row|]; [|done].
  intros (_ & _ & ->)%insert_run_Ok. by apply quiet_jobs.
Qed.

Lemma live_InsertRunStub ctx runID raw startedAt class execID d d' :
  InsertRunStub ctx runID raw startedAt class execID d = Ok d' → barriers_live d → barriers_live d'.
Proof.
  unfold InsertRunStub. destruct (run_BeforeCreate _ _) as [row|]; [|done].
  intros (_ & _ & ->)%insert_run_Ok. by apply live_jobs.
Qed.

Lemma quiet_RenewLease M ctx id token until d : quiet M d (RenewLease ctx id token until d).2.
Proof. apply quiet_update. intros i r _ _. auto. Qed.

Lemma lastDiscarded_size js : size (lastDiscarded js) ≤ length js.
Proof.
  unfold lastDiscarded.
  enough (∀ m : gmap string string, size (foldl (λ m j, match rj_ParentJobID j with
    | Some p => if bool_decide (rj_State j = StateDiscarded) then <[p := rj_ID j]> m else m
    | None => m end) m js) ≤ size m + length js) as Hm by (specialize (Hm ∅); by rewrite map_size_empty in Hm).
  induction js as [|j js IH]; intros m; simpl; [lia|]. etrans; [apply IH|].
  assert (∀ p v, size (<[p := v]> m) ≤ S (size m)) as Hins.
  { intros p v. destruct (decide (is_Some (m !! p))) as [?|Hn%eq_None_not_Some].
    - rewrite map_size_insert_Some by done. lia.
    - rewrite map_size_insert_None by done. lia. }
  case_match; [case_match|]; [|lia|lia].
  match goal with |- context [<[?p := ?v]> m] => specialize (Hins p v) end. lia.
Qed.

Lemma quiet_sweepBatch `{Foundation} dl `{!Reclaims dl} opts ctx n used locked now limit d swept d' :
  db_wf d → fresh_mint ctx n used → length swept ≤ n →
  sweepBatch dl opts ctx locked now limit d = Ok (swept, d') → quiet (minted ctx n) d d'.
Proof.
  intros Hwf Hm Hlen Hs.
  destruct (sweepBatch_Ok dl _ _ _ _ _ _ _ _ Hwf Hs) as (l' & js & d1 & rows & _ & Hrc & Hl & Hids & _ & Hcase).
  assert (quiet (minted ctx n) d d1) as Q1.
  { eapply quiet_map; [apply (rc_table _ _ _ _ _ _ _ _ Hrc)|]. intros id r _. simpl.
    destruct (decide (r ∈ rows)); [|by auto]. rewrite Updates_ParentJobID.
    destruct (reclaim_columns_row opts now d r) as (_ & Ht & _ & Ha & _). auto. }
  destruct Hcase as [[_ ->]|[_ Hf]]; [done|].
  assert (length (sorted_parents (lastDiscarded js)) ≤ n) as Hps.
  { unfold sorted_parents. rewrite (merge_sort_Permutation parent_le), length_map_to_list.
    etrans; [apply lastDiscarded_size|]. apply (f_equal length) in Hids. rewrite !length_fmap in Hids. lia. }
  etrans; [exact Q1|]. etrans; [|exact (quiet_fireBarriers ctx n used 0 _ _ _ Hm Hps Hf)].
  by apply quiet_jobs.
Qed.

(** ** Producers *)

Section quiet_producers.
Context `{Foundation} `{RowOrder}.

Lemma fresh_mint_id ctx n used d :
  fresh_mint ctx n used → 0 < n → (∀ id, is_Some (jobs d !! id) → id ∈ used) → fresh_id ctx d.
Proof.
  intros Hm Hn Hu. destruct (fresh_mint_in ctx n used 0 Hm Hn) as (_ & Hne & Hni). split; [done|].
  apply eq_None_not_Some. intros Hs. by apply Hni, Hu.
Qed.

Lemma insert_once_db c ctx kind payload o source slug d id d' :
  fresh_id ctx d → insert_once c ctx kind payload o source slug d = Ok (id, d') →
  ∃ rows, d' = insertSkippingConflicts rows d ∧ Forall fresh_row rows ∧
    Forall (λ r, j_ID r = c_NewID ctx 0) rows.
Proof.
  intros Hf (row & Hfr & Hid & _ & _ & _ & _ & Hcase)%insert_once_Ok; [|done].
  destruct id as [id|].
  - destruct Hcase as [_ Hi]. exists [row]. split_and!; try by constructor.
    simpl. unfold insert_skipping1. by rewrite Hi.
  - destruct Hcase as [_ ->]. exists []. done.
Qed.

(** The table a bulk insert leaves, whether or not a chunk failed. *)
Lemma insertManyLoop_db fuel ctx skip c rows d r e d' :
  Forall fresh_row rows → Forall (λ r, j_ID r ≠ "") rows →
  insertManyLoop fuel ctx skip c rows d = (r, e, d') →
  ∃ rows', d' = insertSkippingConflicts rows' d ∧ Forall fresh_row rows' ∧
    Forall (λ r, j_ID r ∈ j_ID <$> rows) rows'.
Proof.
  revert rows d r e d'. induction fuel as [|fuel IH]; intros rows d r e d' Hfr Hne.
  { simpl. intros [= <- <- <-]. by exists []. }
  destruct rows as [|r0 rows0] eqn:E; [simpl; intros [= <- <- <-]; by exists []|]. rewrite <-E in *.
  unfold insertManyLoop. fold insertManyLoop. rewrite E at 1.
  destruct (conflictInsertChunk ctx (take c rows) d) as [[landed d1]|err] eqn:Ech;
    [|intros [= <- <- <-]; by exists []].
  destruct (insertManyLoop fuel ctx skip c (drop c rows) d1) as [[rest e1] d2] eqn:Er.
  intros [= <- <- <-]. rewrite <-(take_drop c rows) in Hfr, Hne.
  apply Forall_app in Hfr as [Hf1 Hf2], Hne as [Hn1 Hn2].
  destruct (IH _ _ _ _ _ Hf2 Hn2 Er) as (k' & -> & Hk1 & Hk2).
  apply conflictInsertChunk_Ok in Ech as (t' & Ht & -> & _).
  exists (t' ++ k'). split; [by rewrite insert_skipping_app|]. rewrite !Forall_app. split_and!; try done.
  - by eapply created_fresh.
  - apply (created_ids ctx) in Ht as Hsame; [|done]. apply Forall_forall. intros x Hx.
    rewrite <-(take_drop c rows), fmap_app. apply elem_of_app. left. rewrite <-Hsame.
    by apply list_elem_of_fmap_2.
  - eapply Forall_impl; [exact Hk2|]. intros x Hx. rewrite <-(take_drop c rows), fmap_app.
    apply elem_of_app. by right.
Qed.

Lemma InsertMany_db c ctx dialect items o d used r e d' :
  fresh_mint ctx (length items) used → InsertMany c ctx dialect items o d = (r, e, d') →
  ∃ rows, d' = insertSkippingConflicts rows d ∧
    Forall (λ r, fresh_row r ∧ j_ID r ∈ minted ctx (length items) ∧ j_ID r ≠ "") rows.
Proof.
  intros Hm. unfold InsertMany. destruct items as [|it items]; [intros [= <- <- <-]; by exists []|].
  destruct (buildItems c ctx 0 (it :: items)) as [rows|] eqn:Eb; [|intros [= <- <- <-]; by exists []].
  apply buildItems_Ok in Eb as [Hfr Hids].
  pose proof (mint_ids ctx _ used _ Hm (le_n _)) as Hmi. rewrite <-Hids in Hmi.
  assert (Forall (λ r, j_ID r ≠ "") rows) as Hne.
  { apply Forall_fmap in Hmi. eapply Forall_impl; [exact Hmi|]. intros x Hx. exact (proj2 Hx). }
  intros (rows' & -> & Hfr' & Hin)%insertManyLoop_db; [|done|done]. exists rows'. split; [done|].
  pose proof (proj1 (Forall_forall _ _) Hmi) as Hmi'. rewrite Forall_forall in Hfr', Hin |- *.
  intros x Hx. split; [by apply Hfr'|]. by apply Hmi', Hin.
Qed.
End quiet_producers.

(** ** Controls *)

Lemma quiet_control M cc actor action id job cols details d d' :
  control_effect cc actor action id job cols details d d' →
  (∀ r, j_Attempt (Updates cols r) = j_Attempt r ∧
     (j_LeaseToken (Updates cols r) = j_LeaseToken r ∨ j_LeaseToken (Updates cols r) = None)) →
  quiet M d d'.
Proof.
  intros [_ Hj _ _ _] Hc. etrans; [apply (quiet_update M (has_id id) cols); auto|].
  by apply quiet_jobs.
Qed.

Lemma live_control cc actor action id job cols details d d' :
  keyed (jobs d) → control_effect cc actor action id job cols details d d' →
  j_BarrierKind (Updates cols job) = j_BarrierKind job →
  state_in (j_State (Updates cols job)) TerminalStates = false →
  barriers_live d → barriers_live d'.
Proof.
  intros Hk [Hf Hj _ _ _] Hb Hs Hl. eapply (live_jobs ∅ (update_jobs (has_id id) cols d)); [done|].
  apply find_job_Some in Hf as [Hr _]. apply live_update; [|done]. intros i r Hi Hid.
  unfold has_id in Hid. apply bool_decide_eq_true in Hid.
  assert (r = job) as -> by (rewrite <-Hid, (Hk _ _ Hi) in Hr; congruence).
  rewrite Hb. split; [by left|]. intros pid _. unfold pending_child.
  rewrite Updates_ParentJobID, !andb_true_iff. intros [? _]. by rewrite Hs.
Qed.

Lemma quiet_run_waiting M cc c id d d' :
  db_wf d → run_waiting cc c id d = Ok d' → quiet M d d' ∧ (barriers_live d → barriers_live d').
Proof.
  intros Hwf Hr. pose proof (wf_keyed _ Hwf) as Hk.
  destruct (run_waiting_Ok _ _ _ _ _ Hk Hr) as (actor & job & _ & Hf & Hs & [[_ ->]|[_ He]]); [done|]. split.
  - eapply quiet_control; [exact He|]. intros r. destruct c; auto.
  - eapply live_control; [done|exact He|by destruct c|]. destruct c; simpl; try done; by destruct (j_State job).
Qed.

Lemma quiet_Retry `{RowOrder} M cc id o d d' :
  db_wf d → RetryJobWithOptions cc id o d = Ok d' → quiet M d d' ∧ (barriers_live d → barriers_live d').
Proof.
  intros Hwf Hr. pose proof (wf_keyed _ Hwf) as Hk.
  destruct (Retry_Ok _ _ _ _ _ Hk Hr) as (actor & job & _ & _ & _ & _ & He). split.
  - eapply quiet_control; [exact He|]. intros r.
    destruct (retry_row (c_Now (cc_ctx cc) 0) o r) as (_ & Ht & _ & _ & _ & Ha & _). auto.
  - destruct (retry_row (c_Now (cc_ctx cc) 0) o job) as (Hst & _ & _ & _ & _ & _ & Hb & _).
    eapply live_control; [done|exact He|done|]. by rewrite Hst.
Qed.

Lemma quiet_Cancel `{Foundation} cc n used id d d' :
  db_wf d → fresh_mint (cc_ctx cc) n used → 1 < n → CancelJob cc id d = Ok d' →
  quiet (minted (cc_ctx cc) n) d d'.
Proof.
  intros Hwf Hm Hn Hc. destruct (Cancel_Ok _ _ _ _ (wf_keyed _ Hwf) Hc) as (actor & job & d2 & _ & _ & _ & Hf & ->).
  etrans; [apply (quiet_update _ (has_id id) (cancelUpdates (c_Now (cc_ctx cc) 0))); by auto|].
  etrans; [|by apply (quiet_jobs _ d2)]. destruct (j_ParentJobID job); [|by subst].
  destruct Hf as [fired Hf]. by eapply (quiet_fire (hookless (cc_ctx cc)) n used 1).
Qed.

Lemma quiet_Delete M cc id d d' : db_wf d → DeleteJob cc id d = Ok d' → quiet M d d'.
Proof.
  intros Hwf Hd. destruct (Delete_Ok _ _ _ _ (wf_keyed _ Hwf) Hd) as (actor & job & _ & _ & _ & Hj & _).
  intros i r Hr. rewrite Hj in Hr. apply lookup_delete_Some in Hr as [_ Hr]. left. exists r. auto.
Qed.

Lemma quiet_scopeBatch `{Foundation} `{RowOrder} cc actor parent t n now d sel ch fired d' m used :
  transition_ok t → db_wf d → fresh_mint (cc_ctx cc) m used → sel < m →
  scopeBatch cc actor parent t n now d = Ok (sel, ch, fired, d') → quiet (minted (cc_ctx cc) m) d d'.
Proof.
  intros Ht Hwf Hm Hlt Hb.
  destruct (scopeBatch_Ok _ _ _ _ Ht _ _ _ Hwf _ _ _ _ Hb) as (Hsel & _ & d2 & es & -> & _ & _ & Hd2).
  etrans; [|by apply (quiet_jobs _ d2)].
  assert (quiet (minted (cc_ctx cc) m) d (scope_update parent t n now d)) as Q1.
  { apply quiet_update. intros id r Hr Hin. rewrite (scope_selected parent t n d Hwf id r Hr) in Hin.
    apply bool_decide_eq_true in Hin. destruct (scope_rows_in _ _ _ _ Hwf r Hin) as (_ & _ & _ & Hs).
    destruct (tr_keeps t Ht now r) as (_ & Htok & Ha). split; [done|]. right. apply Htok.
    pose proof (row_lease _ (wf_rows _ Hwf _ _ Hr)) as Hl. unfold lease_wf in Hl.
    rewrite decide_False in Hl; [by destruct Hl|]. intros E. apply (tr_source t Ht) in Hs. by rewrite E in Hs. }
  etrans; [exact Q1|]. destruct (_ && _); [|by destruct Hd2 as [_ ->]].
  eapply (quiet_fire (hookless (cc_ctx cc)) m used (length (scope_rows parent t n d))); [done| |exact Hd2]. lia.
Qed.

(** * Recorded outcomes

    [settled d d']: every job that had reached a terminal state is still there,
    in that state and with the finish time it recorded. Every operation but a
    forced retry and a delete has it. *)

Definition settled (d d' : db) : Prop :=
  ∀ id r, jobs d !! id = Some r → isTerminalStateString (j_State r) = true →
    ∃ r', jobs d' !! id = Some r' ∧ j_State r' = j_State r ∧ j_FinalizedAt r' = j_FinalizedAt r.

Lemma settled_jobs d d' : jobs d' = jobs d → settled d d'.
Proof. intros Hj id r Hr _. exists r. by rewrite Hj. Qed.
#[global] Instance settled_refl : Reflexive settled.
Proof. intros d. by apply settled_jobs. Qed.
#[global] Instance settled_trans : Transitive settled.
Proof.
  intros d1 d2 d3 H12 H23 id r Hr Ht. destruct (H12 _ _ Hr Ht) as (r2 & Hr2 & Hs & Hf).
  destruct (H23 _ _ Hr2) as (r3 & Hr3 & Hs3 & Hf3); [by rewrite Hs|]. exists r3. split; [done|].
  split; congruence.
Qed.

Lemma settled_map (f : jobRow → jobRow) d d' :
  (∀ id, jobs d' !! id = f <$> jobs d !! id) →
  (∀ id r, jobs d !! id = Some r → isTerminalStateString (j_State r) = true →
     j_State (f r) = j_State r ∧ j_FinalizedAt (f r) = j_FinalizedAt r) → settled d d'.
Proof. intros Hf Hs id r Hr Ht. exists (f r). rewrite Hf, Hr. split; [done|]. by eapply Hs. Qed.

Lemma settled_InsertRunStub ctx runID raw startedAt class execID d d' :
  InsertRunStub ctx runID raw startedAt class execID d = Ok d' → settled d d'.
Proof.
  unfold InsertRunStub. destruct (run_BeforeCreate _ _) as [row|]; [|done].
  unfold insert_run. repeat case_match; try done. intros [= <-]. by apply settled_jobs.
Qed.

Lemma settled_update P cols d :
  (∀ id r, jobs d !! id = Some r → P r = true → isTerminalStateString (j_State r) = true →
     j_State (Updates cols r) = j_State r ∧ j_FinalizedAt (Updates cols r) = j_FinalizedAt r) →
  settled d (update_jobs P cols d).
Proof.
  intros Hs. eapply settled_map; [intros; apply lookup_update_where|]. intros id r Hr Ht. simpl.
  destruct (P r && not_deleted r) eqn:E; [|done]. apply andb_true_iff in E as [E _]. by eapply Hs.
Qed.

Lemma settled_insert rows d : settled d (insertSkippingConflicts rows d).
Proof. intros id r Hr _. exists r. by rewrite (insert_skipping_old _ _ _ _ Hr). Qed.

Section settled_ops.
Context `{Foundation} `{GoLib} `{Backoff} `{RowOrder}.

Lemma settled_fire ctx k pid by_ d fired d' :
  fireBarrierIfComplete ctx k pid by_ d = Ok (fired, d') → settled d d'.
Proof.
  intros [(_ & -> & _)|(_ & _ & kind & row & _ & _ & _ & ->)]%fireBarrier_Ok; [done|].
  etrans; [apply (settled_insert [row])|by apply settled_update].
Qed.

Lemma settled_fireBarriers ctx k ps d d' : fireBarriers ctx k ps d = Ok d' → settled d d'.
Proof.
  revert k d. induction ps as [|[p c] ps IH]; intros k d; simpl; [by intros [= <-]|].
  destruct (fireBarrierIfComplete ctx k p c d) as [[fired d1]|] eqn:E; [|done]. intros Hps.
  etrans; [by eapply settled_fire|by eapply IH].
Qed.

Lemma settled_Finalize opts ctx raw runID result we t d out d' :
  Finalize opts ctx raw runID result we t d = Ok (out, d') → settled d d'.
Proof.
  intros (plan & stub & run & upd & d2 & d3 & Hz)%Finalize_Ok.
  destruct Hz as [-> _ Hu _ Hfo Hfi _ -> _]. etrans; [apply (settled_update (holds_claim (raw_ID raw) (raw_LeaseToken raw)) upd)|].
  { intros id r _ (_ & Hrun & _)%holds_claim_true Ht. by rewrite Hrun in Ht. }
  etrans; [|by apply (settled_jobs d3); unfold finalizeRunRow; destruct (r_FinishedAt run)].
  transitivity d2.
  - destruct (p_followUps _ && _); [|by destruct Hfo as [_ ->]].
    apply insertFollowUps_Ok in Hfo as (_ & rows & rows' & _ & _ & ->). apply settled_insert.
  - clear Hfo. destruct (raw_ParentJobID raw); [|by subst]. destruct (negb _ && _); [|by subst].
    destruct Hfi as [fired Hfi]. by eapply settled_fire.
Qed.

Lemma settled_claim now lease token queues class any limit locked d raws d' rows :
  keyed (jobs d) → claim_result now lease token queues class any limit locked d raws d' rows → settled d d'.
Proof.
  intros Hk Hc. rewrite (cl_db _ _ _ _ _ _ _ _ _ _ _ _ Hc). apply settled_update. intros id r Hr Hin Ht.
  pose proof (claim_selected _ _ _ _ _ _ _ _ _ _ _ _ Hc id r Hk Hr Hin) as Hrow.
  pose proof (claim_state _ _ _ _ _ _ _ _ _ _ _ _ Hc r Hrow) as Hs. by destruct (j_State r).
Qed.

Lemma settled_sweepBatch dl `{!Reclaims dl} opts ctx locked now limit d swept d' :
  db_wf d → sweepBatch dl opts ctx locked now limit d = Ok (swept, d') → settled d d'.
Proof.
  intros Hwf Hs.
  destruct (sweepBatch_Ok dl _ _ _ _ _ _ _ _ Hwf Hs) as (l' & js & d1 & rows & _ & Hrc & _ & _ & _ & Hcase).
  assert (settled d d1) as Q1.
  { eapply settled_map; [apply (rc_table _ _ _ _ _ _ _ _ Hrc)|]. intros id r Hr Ht. simpl.
    destruct (decide (r ∈ rows)) as [Hin|]; [|done].
    destruct (rc_rows _ _ _ _ _ _ _ _ Hrc r Hin) as (_ & _ & He & _). apply expired_running in He.
    by rewrite He in Ht. }
  destruct Hcase as [[_ ->]|[_ Hf]]; [done|]. etrans; [exact Q1|].
  etrans; [|exact (settled_fireBarriers ctx 0 _ _ _ Hf)]. by apply settled_jobs.
Qed.

Lemma settled_control cc actor action id job cols details d d' :
  keyed (jobs d) → control_effect cc actor action id job cols details d d' →
  isTerminalStateString (j_State job) = false → settled d d'.
Proof.
  intros Hk [Hf Hj _ _ _] Hn. etrans; [apply (settled_update (has_id id) cols)|by apply settled_jobs].
  apply find_job_Some in Hf as [Hr _]. intros i r Hi Hid Ht. unfold has_id in Hid.
  apply bool_decide_eq_true in Hid. rewrite <-Hid, (Hk _ _ Hi) in Hr.
  assert (r = job) as -> by congruence. by rewrite Hn in Ht.
Qed.

Lemma settled_run_waiting cc c id d d' : keyed (jobs d) → run_waiting cc c id d = Ok d' → settled d d'.
Proof.
  intros Hk Hr. destruct (run_waiting_Ok _ _ _ _ _ Hk Hr) as (actor & job & _ & _ & Hs & [[_ ->]|[_ He]]); [done|].
  eapply settled_control; [done|exact He|]. by destruct (j_State job).
Qed.

Lemma settled_Retry cc id o d d' :
  keyed (jobs d) → ro_Force o = false → RetryJobWithOptions cc id o d = Ok d' → settled d d'.
Proof.
  intros Hk Hfo Hr. destruct (Retry_Ok _ _ _ _ _ Hk Hr) as (actor & job & _ & _ & Hs & _ & He).
  eapply settled_control; [done|exact He|]. unfold retryStateStrings in Hs. rewrite Hfo in Hs.
  destruct (ro_AllowRunning o); by destruct (j_State job).
Qed.

Lemma settled_Cancel cc id d d' : keyed (jobs d) → CancelJob cc id d = Ok d' → settled d d'.
Proof.
  intros Hk Hc. destruct (Cancel_Ok _ _ _ _ Hk Hc) as (actor & job & d2 & _ & Hf & Hs & Hfi & ->).
  etrans; [apply (settled_update (has_id id) (cancelUpdates (c_Now (cc_ctx cc) 0)))|].
  { apply find_job_Some in Hf as [Hr _]. intros i r Hi Hid Ht. unfold has_id in Hid.
    apply bool_decide_eq_true in Hid. rewrite <-Hid, (Hk _ _ Hi) in Hr. simplify_eq. by destruct (j_State job). }
  etrans; [|by apply (settled_jobs d2)]. destruct (j_ParentJobID job); [|by subst].
  destruct Hfi as [fired Hfi]. by eapply settled_fire.
Qed.

Lemma settled_scopeBatch cc actor parent t n now d sel ch fired d' :
  transition_ok t → db_wf d → scopeBatch cc actor parent t n now d = Ok (sel, ch, fired, d') → settled d d'.
Proof.
  intros Ht Hwf Hb.
  destruct (scopeBatch_Ok _ _ _ _ Ht _ _ _ Hwf _ _ _ _ Hb) as (Hsel & _ & d2 & es & -> & _ & _ & Hd2).
  etrans; [|by apply (settled_jobs d2)]. etrans; [apply (settled_update (λ r, id_in (j_ID <$> scope_rows parent t n d) r && state_in (j_State r) (t_source t)) (t_updates t now))|].
  { intros id r Hr [_ Hs]%andb_true_iff Htm. apply (tr_source t Ht) in Hs. by destruct (j_State r). }
  fold (scope_update parent t n now d). destruct (_ && _); [by eapply settled_fire|].
  by destruct Hd2 as [_ ->].
Qed.
End settled_ops.
