(* ===== verification/Machine.v ===== *)
(** * The runtime as a transition system

    The state is the database, the history of claims handed to runners, and every
    id ever minted (job ids and lease tokens). A step is one committed operation
    of a producer, a runner, the sweeper or an operator; operations that return an
    error roll back and are no step. The driver enters through its two contracts,
    [Claims] and [Reclaims], so everything proved here holds of both databases.
    The one assumption on NewID is that it never repeats. *)

From S2P Require Import Prelude Types Text Fingerprint Store Plan Insert Barrier Finalize Claim Sweep Client Controls Quiet.

Record state := { st_db : db; st_claims : list RawJob; st_used : gset string }.
Definition initial : state := {| st_db := empty_db; st_claims := []; st_used := ∅ |}.

Section machine.
Context `{Foundation} `{GoLib} `{Backoff} `{RowOrder}.
Context (dq : dequeuer) `{!Claims dq} (dl : dialect) `{!Reclaims dl} (opts : DriverOpts).

(** A finalize's barrier has a child that is sure to land. *)
Definition barrier_grounded (result : Result) : Prop :=
  is_Some (res_Barrier result) →
  ∃ fu, fu ∈ res_FollowUps result ∧ fu_Parent fu = true ∧ fu_UniqueKey fu = "".

Inductive step : state → state → Prop :=
| step_insert c ctx kind payload o source slug id d d' cl u :
    fresh_mint ctx 1 u →
    client_insert c ctx kind payload o source slug d = Ok (id, d') →
    step {| st_db := d; st_claims := cl; st_used := u |}
         {| st_db := d'; st_claims := cl; st_used := u ∪ minted ctx 1 |}
| step_insert_many c ctx dialect items o r e d d' cl u :
    fresh_mint ctx (length items) u →
    InsertMany c ctx dialect items o d = (r, e, d') →
    step {| st_db := d; st_claims := cl; st_used := u |}
         {| st_db := d'; st_claims := cl; st_used := u ∪ minted ctx (length items) |}
| step_dequeue ctx locked queues class claimAny limit lease raws d d' cl u :
    fresh_mint ctx 1 u →
    dq ctx locked queues class claimAny limit lease d = (raws, d') →
    step {| st_db := d; st_claims := cl; st_used := u |}
         {| st_db := d'; st_claims := raws ++ cl; st_used := u ∪ minted ctx 1 |}
| step_run_stub ctx runID raw startedAt class execID d d' cl u :
    raw ∈ cl →
    InsertRunStub ctx runID raw startedAt class execID d = Ok d' →
    step {| st_db := d; st_claims := cl; st_used := u |}
         {| st_db := d'; st_claims := cl; st_used := u |}
| step_renew ctx raw until d cl u :
    raw ∈ cl →
    step {| st_db := d; st_claims := cl; st_used := u |}
         {| st_db := (RenewLease ctx (raw_ID raw) (raw_LeaseToken raw) until d).2;
            st_claims := cl; st_used := u |}
| step_finalize ctx raw runID result we t out d d' cl u :
    raw ∈ cl → barrier_grounded result →
    fresh_mint ctx (S (length (res_FollowUps result))) u →
    Finalize opts ctx raw runID result we t d = Ok (out, d') →
    step {| st_db := d; st_claims := cl; st_used := u |}
         {| st_db := d'; st_claims := cl;
            st_used := u ∪ minted ctx (S (length (res_FollowUps result))) |}
| step_sweep ctx locked now limit swept d d' cl u :
    fresh_mint ctx (length swept) u →
    sweepBatch dl opts ctx locked now limit d = Ok (swept, d') →
    step {| st_db := d; st_claims := cl; st_used := u |}
         {| st_db := d'; st_claims := cl; st_used := u ∪ minted ctx (length swept) |}
| step_waiting cc c id d d' cl u :
    run_waiting cc c id d = Ok d' →
    step {| st_db := d; st_claims := cl; st_used := u |}
         {| st_db := d'; st_claims := cl; st_used := u |}
| step_retry cc id o d d' cl u :
    RetryJobWithOptions cc id o d = Ok d' →
    step {| st_db := d; st_claims := cl; st_used := u |}
         {| st_db := d'; st_claims := cl; st_used := u |}
| step_cancel cc id d d' cl u :
    fresh_mint (cc_ctx cc) 2 u → CancelJob cc id d = Ok d' →
    step {| st_db := d; st_claims := cl; st_used := u |}
         {| st_db := d'; st_claims := cl; st_used := u ∪ minted (cc_ctx cc) 2 |}
| step_delete cc id d d' cl u :
    DeleteJob cc id d = Ok d' →
    step {| st_db := d; st_claims := cl; st_used := u |}
         {| st_db := d'; st_claims := cl; st_used := u |}
| step_scope cc actor parent t n now sel ch fired d d' cl u :
    transition_ok t → fresh_mint (cc_ctx cc) (S sel) u →
    scopeBatch cc actor parent t n now d = Ok (sel, ch, fired, d') →
    step {| st_db := d; st_claims := cl; st_used := u |}
         {| st_db := d'; st_claims := cl; st_used := u ∪ minted (cc_ctx cc) (S sel) |}.

Inductive reachable : state → Prop :=
| reach_init : reachable initial
| reach_step s s' : reachable s → step s s' → reachable s'.

(** ** The invariant *)

(** A claim handed out still describes its job, and its token still fits only the
    attempt it was handed out for. *)
Record claim_inv (u : gset string) (d : db) (raw : RawJob) : Prop := {
  ci_id : raw_ID raw ∈ u;
  ci_token : raw_LeaseToken raw ∈ u;
  ci_row : ∀ r, jobs d !! raw_ID raw = Some r →
    (raw_Attempt raw ≤ j_Attempt r)%Z ∧ j_ParentJobID r = raw_ParentJobID raw ∧
    (j_LeaseToken r = Some (raw_LeaseToken raw) → raw_Attempt raw = j_Attempt r)
}.

Record invariant (s : state) : Prop := {
  inv_wf : db_wf (st_db s);
  inv_live : barriers_live (st_db s);
  inv_ids : ∀ id, is_Some (jobs (st_db s) !! id) → id ∈ st_used s ∧ id ≠ "";
  inv_tokens : ∀ id r t, jobs (st_db s) !! id = Some r → j_LeaseToken r = Some t → t ∈ st_used s;
  inv_claims : ∀ raw, raw ∈ st_claims s → claim_inv (st_used s) (st_db s) raw;
  inv_audit : NoDup ((λ raw, (raw_ID raw, raw_Attempt raw)) <$> st_claims s)
}.

Lemma initial_invariant : invariant initial.
Proof.
  split; simpl; try done.
  - apply wf_empty.
  - intros pid _ [k (p & Hp & _)%barrier_of_Some]. simpl in Hp. by rewrite lookup_empty in Hp.
  - intros id [r Hr]. by rewrite lookup_empty in Hr.
  - intros raw Hin. by apply not_elem_of_nil in Hin.
  - constructor.
Qed.

(** Every step but a claim. *)
Lemma quiet_invariant d d' cl u M :
  invariant {| st_db := d; st_claims := cl; st_used := u |} → quiet M d d' → M ## u →
  db_wf d' → barriers_live d' →
  invariant {| st_db := d'; st_claims := cl; st_used := u ∪ M |}.
Proof.
  intros [Hw Hl Hids Htok Hcl Hau] Hq Hdis Hw' Hl'. simpl in *. split; simpl; try done.
  - intros id [r' Hr']. destruct (Hq _ _ Hr') as [(r & Hr & _)|(? & ? & _)]; [|set_solver].
    destruct (Hids id) as [? ?]; [by eauto|]. set_solver.
  - intros id r' t Hr' Ht. destruct (Hq _ _ Hr') as [(r & Hr & _ & _ & [E|E])|(_ & _ & E)]; try congruence.
    apply elem_of_union_l. eapply Htok; [done|]. congruence.
  - intros raw Hin. destruct (Hcl raw Hin) as [Hci Hct Hcr]. split; [set_solver..|].
    intros r' Hr'. destruct (Hq _ _ Hr') as [(r & Hr & -> & -> & Ht)|(? & _ & _)]; [|set_solver].
    destruct (Hcr r Hr) as (? & ? & Himp). split_and!; [done..|]. intros E. apply Himp.
    destruct Ht as [<-|Ht]; [done|congruence].
Qed.

Lemma union_minted_0 (u : gset string) : u = u ∪ ∅. Proof. set_solver. Qed.

(** The claim: fresh token, next attempt. *)
Lemma dequeue_invariant ctx locked queues class claimAny limit lease raws d d' cl u :
  invariant {| st_db := d; st_claims := cl; st_used := u |} → fresh_mint ctx 1 u →
  dq ctx locked queues class claimAny limit lease d = (raws, d') →
  invariant {| st_db := d'; st_claims := raws ++ cl; st_used := u ∪ minted ctx 1 |}.
Proof.
  intros Hinv Hm Hq. pose proof Hinv as [Hw Hl Hids Htok Hcl Hau]. simpl in *.
  destruct (claims_ok _ _ _ _ _ _ _ _ _ _ (wf_keyed _ Hw) Hq) as (l' & rows & _ & Hc).
  destruct (fresh_mint_in ctx 1 u 0 Hm ltac:(lia)) as (Htin & Htne & Htu). set (tok := c_NewID ctx 0) in *.
  assert (∀ id r', jobs d' !! id = Some r' → ∃ r, jobs d !! id = Some r ∧
    ((r ∈ rows ∧ r' = Updates (claimUpdate (c_Now ctx 0) lease tok) r) ∨ ((r ∉ rows) ∧ r' = r))) as Hd'.
  { intros id r' Hr'. rewrite (cl_db _ _ _ _ _ _ _ _ _ _ _ _ Hc) in Hr'.
    apply lookup_update_where_Some in Hr' as (r & Hr & Hcase). exists r. split; [done|].
    rewrite (id_in_spec d rows id r (wf_keyed _ Hw)) in Hcase; [|by eapply claim_rows_stored|done].
    destruct Hcase as [[[E _]%andb_true_iff ->]|[E ->]]; [left; by apply bool_decide_eq_true in E|right].
    split; [|done]. intros Hin. destruct (cl_rows _ _ _ _ _ _ _ _ _ _ _ _ Hc r Hin) as (_ & Hd & _).
    by rewrite bool_decide_true, Hd in E. }
  split; simpl.
  - by eapply wf_claim.
  - eapply live_claim; [done|apply Hw|done].
  - intros id [r' (r & Hr & _)%Hd']. destruct (Hids id) as [? ?]; [by eauto|]. set_solver.
  - intros id r' t (r & Hr & [[_ ->]|[_ ->]])%Hd' Ht; [simpl in Ht; set_solver|].
    apply elem_of_union_l. eauto.
  - intros raw [Hin|Hin]%elem_of_app.
    + destruct (claim_holds _ _ _ _ _ _ _ _ _ _ _ _ Hc raw Hin) as (_ & _ & x & Hx & ->).
      pose proof (claim_rows_stored _ _ _ _ _ _ _ _ _ _ _ _ Hc x Hx) as Hs.
      destruct (Hids (j_ID x)) as [? ?]; [by eauto|]. split; simpl; [set_solver..|].
      rewrite (claim_taken _ _ _ _ _ _ _ _ _ _ _ _ Hc x Hx). intros r' [= <-]. simpl.
      split_and!; [lia|done|done].
    + destruct (Hcl raw Hin) as [Hci Hct Hcr]. split; [set_solver..|]. intros r' (r & Hr & Hcase)%Hd'.
      destruct (Hcr r Hr) as (Ha & Hp & Ht). destruct Hcase as [[_ ->]|[_ ->]]; [|done]. simpl.
      split_and!; [lia|done|]. intros [= E]. by rewrite <-E in Hct.
  - rewrite fmap_app. apply NoDup_app. split_and!; [| |done].
    + rewrite (cl_raws _ _ _ _ _ _ _ _ _ _ _ _ Hc), <-list_fmap_compose.
      apply (NoDup_fmap_1 fst). rewrite <-list_fmap_compose. simpl. apply Hc.
    + intros p (raw & -> & Hin)%list_elem_of_fmap (raw2 & Heq & Hin2)%list_elem_of_fmap.
      destruct (claim_holds _ _ _ _ _ _ _ _ _ _ _ _ Hc raw Hin) as (_ & _ & x & Hx & ->).
      pose proof (claim_rows_stored _ _ _ _ _ _ _ _ _ _ _ _ Hc x Hx) as Hs. simpl in Heq.
      injection Heq as Hid Hat. destruct (Hcl raw2 Hin2) as [_ _ Hcr]. rewrite <-Hid in Hcr.
      destruct (Hcr x Hs) as (Hle & _). lia.
Qed.

Lemma step_invariant s s' : step s s' → invariant s → invariant s'.
Proof.
  intros Hs Hinv. pose proof (inv_wf _ Hinv) as Hw. pose proof (inv_live _ Hinv) as Hl.
  pose proof (inv_ids _ Hinv) as Hids. pose proof (inv_claims _ Hinv) as Hcl.
  destruct Hs; simpl in *.
  - assert (fresh_id ctx d) as Hf by (eapply fresh_mint_id; [done|lia|]; intros; by apply Hids).
    rewrite client_insert_once in * by done.
    match goal with E : insert_once _ _ _ _ _ _ _ _ = _ |- _ => rename E into Ei end.
    destruct (insert_once_db _ _ _ _ _ _ _ _ _ _ Hf Ei) as (rows & -> & Hfr & Hrid).
    destruct (fresh_mint_in ctx 1 u 0) as (? & ? & _); [done|lia|].
    eapply quiet_invariant; [done| |by apply fresh_mint_disjoint| |].
    + apply quiet_insert. rewrite Forall_forall in *. intros r Hr. rewrite (Hrid _ Hr). auto.
    + apply wf_insert_skipping; [|done]. eapply Forall_impl; [exact Hfr|apply fresh_row_wf].
    + by apply live_insert.
  - edestruct InsertMany_db as (rows & -> & Hr); [done|done|].
    assert (Forall fresh_row rows) as Hfr by (eapply Forall_impl; [exact Hr|]; by intros ? [? _]).
    eapply quiet_invariant; [done|by apply quiet_insert|by apply fresh_mint_disjoint| |by apply live_insert].
    apply wf_insert_skipping; [|done]. eapply Forall_impl; [exact Hfr|apply fresh_row_wf].
  - by eapply dequeue_invariant.
  - rewrite (union_minted_0 u). eapply quiet_invariant; [done|by eapply quiet_InsertRunStub|set_solver| |].
    + by eapply wf_InsertRunStub.
    + by eapply live_InsertRunStub.
  - rewrite (union_minted_0 u). eapply quiet_invariant; [done|apply quiet_RenewLease|set_solver| |].
    + by apply wf_RenewLease.
    + by apply live_RenewLease.
  - eapply quiet_invariant; [done|eapply quiet_Finalize; [done| |done]; lia|by apply fresh_mint_disjoint| |].
    + by eapply wf_Finalize.
    + eapply live_Finalize; [done|done| |done| |done].
      * intros r Hr _. destruct (Hcl raw) as [_ _ Hcr]; [done|]. by apply Hcr.
      * match goal with E : fresh_mint _ _ _ |- _ => destruct E as [Hn Hf] end.
        rewrite seq_S, fmap_app in Hn, Hf. apply Forall_app in Hf as [Hf _].
        apply NoDup_app in Hn as [Hn _]. split; [done|]. eapply Forall_impl; [done|].
        intros id [? Hni]. split; [done|]. apply eq_None_not_Some. intros Hsome. by apply Hni, Hids.
  - eapply quiet_invariant; [done|by eapply quiet_sweepBatch|by apply fresh_mint_disjoint| |].
    + by eapply wf_sweepBatch.
    + by eapply live_sweepBatch.
  - rewrite (union_minted_0 u). edestruct quiet_run_waiting as [? ?]; [exact Hw|done|].
    eapply quiet_invariant; [done|done|set_solver|by eapply wf_run_waiting|by auto].
  - rewrite (union_minted_0 u). edestruct quiet_Retry as [? ?]; [exact Hw|done|].
    eapply quiet_invariant; [done|done|set_solver|by eapply wf_Retry|by auto].
  - eapply quiet_invariant; [done|eapply quiet_Cancel; [done|done|lia|done]|by apply fresh_mint_disjoint| |].
    + by eapply wf_Cancel.
    + by eapply live_Cancel.
  - rewrite (union_minted_0 u). eapply quiet_invariant; [done|by eapply quiet_Delete|set_solver| |].
    + by eapply wf_Delete.
    + by eapply live_Delete.
  - eapply quiet_invariant; [done|eapply quiet_scopeBatch; [done|done|done| |done]; lia|by apply fresh_mint_disjoint| |].
    + by eapply wf_scopeBatch.
    + by eapply live_scopeBatch.
Qed.

Lemma reachable_inv s : reachable s → invariant s.
Proof. induction 1; [apply initial_invariant|by eapply step_invariant]. Qed.

(** ** What the invariant gives *)

Inductive steps : state → state → Prop :=
| steps_refl s : steps s s
| steps_step s s' s'' : step s s' → steps s' s'' → steps s s''.

Lemma steps_reachable s s' : steps s s' → reachable s → reachable s'.
Proof. induction 1 as [|???? _ IH]; [done|]. intros Hr. apply IH. by eapply reach_step. Qed.

(** What any step does to the rows: nothing lasting but a new token on a waiting
    row, under the next attempt. *)
Definition row_step (u : gset string) (r r' : jobRow) : Prop :=
  (j_Attempt r ≤ j_Attempt r')%Z ∧
  (j_LeaseToken r' = j_LeaseToken r ∨ j_LeaseToken r' = None ∨
   ∃ t, j_LeaseToken r' = Some t ∧ t ∉ u).

Lemma step_rows s s' : step s s' → invariant s →
  st_used s ⊆ st_used s' ∧ (∀ raw, raw ∈ st_claims s → raw ∈ st_claims s') ∧
  ∀ id r', jobs (st_db s') !! id = Some r' → id ∈ st_used s →
    ∃ r, jobs (st_db s) !! id = Some r ∧ row_step (st_used s) r r'.
Proof.
  intros Hs Hinv. pose proof (inv_wf _ Hinv) as Hw. pose proof (inv_ids _ Hinv) as Hids.
  assert (∀ M d' (u : gset string), quiet M (st_db s) d' → M ## u → ∀ id r', jobs d' !! id = Some r' →
    id ∈ u → ∃ r, jobs (st_db s) !! id = Some r ∧ row_step u r r') as Hquiet.
  { intros M d' u Hq Hdis id r' Hr' Hid. destruct (Hq _ _ Hr') as [(r & Hr & Ha & _ & Ht)|(? & _)].
    - exists r. split; [done|]. split; [lia|]. destruct Ht; auto.
    - set_solver. }
  destruct Hs; cbn [st_db st_claims st_used] in *; (split; [set_solver|split; [set_solver|]]).
  - assert (fresh_id ctx d) as Hf by (eapply fresh_mint_id; [done|lia|]; intros; by apply Hids).
    rewrite client_insert_once in * by done.
    match goal with E : insert_once _ _ _ _ _ _ _ _ = _ |- _ => rename E into Ei end.
    destruct (insert_once_db _ _ _ _ _ _ _ _ _ _ Hf Ei) as (rows & -> & Hfr & Hrid).
    destruct (fresh_mint_in ctx 1 u 0) as (? & ? & _); [done|lia|].
    eapply (Hquiet (minted ctx 1)); [|by apply fresh_mint_disjoint].
    apply quiet_insert. rewrite Forall_forall in *. intros r Hr. rewrite (Hrid _ Hr). auto.
  - edestruct InsertMany_db as (rows & -> & Hr); [done|done|].
    eapply Hquiet; [by apply quiet_insert|by apply fresh_mint_disjoint].
  - match goal with E : dq _ _ _ _ _ _ _ _ = _ |- _ => rename E into Hq end.
    destruct (claims_ok _ _ _ _ _ _ _ _ _ _ (wf_keyed _ Hw) Hq) as (l' & rows & _ & Hc).
    destruct (fresh_mint_in ctx 1 u 0) as (_ & _ & Htu); [done|lia|].
    intros id r' Hr' _. rewrite (cl_db _ _ _ _ _ _ _ _ _ _ _ _ Hc) in Hr'.
    apply lookup_update_where_Some in Hr' as (r & Hr & [[_ ->]|[_ ->]]); exists r; (split; [done|]).
    + split; [simpl; lia|]. right. right. by exists (c_NewID ctx 0).
    + split; [done|]. by left.
  - eapply (Hquiet ∅); [by eapply quiet_InsertRunStub|set_solver].
  - eapply (Hquiet ∅); [apply quiet_RenewLease|set_solver].
  - eapply Hquiet; [eapply quiet_Finalize; [done| |done]; lia|by apply fresh_mint_disjoint].
  - eapply Hquiet; [by eapply quiet_sweepBatch|by apply fresh_mint_disjoint].
  - edestruct quiet_run_waiting as [? _]; [exact Hw|done|]. by eapply (Hquiet ∅).
  - edestruct quiet_Retry as [? _]; [exact Hw|done|]. by eapply (Hquiet ∅).
  - eapply Hquiet; [eapply quiet_Cancel; [done|done|lia|done]|by apply fresh_mint_disjoint].
  - eapply (Hquiet ∅); [by eapply quiet_Delete|set_solver].
  - eapply Hquiet; [eapply quiet_scopeBatch; [done|done|done| |done]; lia|by apply fresh_mint_disjoint].
Qed.

(** A job's row carries a token. *)
Definition token_at (d : db) (id token : string) : Prop :=
  ∃ r, jobs d !! id = Some r ∧ j_LeaseToken r = Some token.

Lemma held_token d id token : claim_held d id token → token_at d id token.
Proof. intros (r & ? & _ & _ & ?). by exists r. Qed.

Lemma steps_lost s s' id token :
  steps s s' → invariant s → id ∈ st_used s → token ∈ st_used s →
  ¬ token_at (st_db s) id token → ¬ token_at (st_db s') id token.
Proof.
  induction 1 as [|s s1 s2 Hs _ IH]; [done|]. intros Hinv Hid Htok Hn.
  destruct (step_rows _ _ Hs Hinv) as (Hu & _ & Hrows). apply IH; [by eapply step_invariant|set_solver..|].
  intros (r' & Hr' & Ht'). destruct (Hrows _ _ Hr' Hid) as (r & Hr & _ & Hcase). apply Hn. exists r.
  split; [done|]. destruct Hcase as [E|[E|(t & E & Hf)]]; [congruence|congruence|].
  assert (t = token) as -> by congruence. done.
Qed.

Lemma steps_attempt s s' id r r' :
  steps s s' → invariant s → jobs (st_db s) !! id = Some r → jobs (st_db s') !! id = Some r' →
  (j_Attempt r ≤ j_Attempt r')%Z.
Proof.
  intros Hs Hinv Hr. assert (id ∈ st_used s) as Hid by (apply (inv_ids _ Hinv); by eauto).
  assert (∀ x, jobs (st_db s) !! id = Some x → (j_Attempt r ≤ j_Attempt x)%Z) as Hle
    by (intros x Hx; simplify_eq; lia).
  clear Hr. revert Hinv Hid Hle.
  induction Hs as [s|s s1 s2 Hs _ IH]; intros Hinv Hid Hle Hr'; [by apply Hle|].
  destruct (step_rows _ _ Hs Hinv) as (Hu & _ & Hrows).
  apply IH; [by eapply step_invariant|set_solver| |done]. intros x Hx.
  destruct (Hrows _ _ Hx Hid) as (y & Hy & Hay & _). specialize (Hle y Hy). lia.
Qed.

(** The audit row of a change that undoes an outcome. *)
Definition undoes (id : string) (e : jobAuditRow) : Prop :=
  a_TargetID e = id ∧ (a_Action e = AuditRetried ∨ a_Action e = AuditDeleted).

Lemma step_settled s s' : step s s' → invariant s →
  settled (st_db s) (st_db s') ∨
  ∃ id e, job_audit (st_db s') = job_audit (st_db s) ++ [e] ∧ undoes id e ∧
    ∀ i, i ≠ id → jobs (st_db s') !! i = jobs (st_db s) !! i.
Proof.
  intros Hs Hinv. pose proof (inv_wf _ Hinv) as Hw. pose proof (inv_ids _ Hinv) as Hids.
  pose proof (wf_keyed _ Hw) as Hk. destruct Hs; cbn [st_db st_claims st_used] in *.
  - left. assert (fresh_id ctx d) as Hf by (eapply fresh_mint_id; [done|lia|]; intros; by apply Hids).
    rewrite client_insert_once in * by done.
    match goal with E : insert_once _ _ _ _ _ _ _ _ = _ |- _ => rename E into Ei end.
    destruct (insert_once_db _ _ _ _ _ _ _ _ _ _ Hf Ei) as (rows & -> & _). apply settled_insert.
  - left. match goal with Em : fresh_mint _ _ _, Ei : InsertMany _ _ _ _ _ _ = _ |- _ =>
      destruct (InsertMany_db _ _ _ _ _ _ _ _ _ _ Em Ei) as (rows & -> & _) end. apply settled_insert.
  - left. match goal with E : dq _ _ _ _ _ _ _ _ = _ |- _ => rename E into Hq end.
    destruct (claims_ok _ _ _ _ _ _ _ _ _ _ Hk Hq) as (l' & rows & _ & Hc). by eapply settled_claim.
  - left. by eapply settled_InsertRunStub.
  - left. apply settled_update. by intros i r _ (_ & Hrun & _)%holds_claim_true; rewrite Hrun.
  - left. by eapply settled_Finalize.
  - left. by eapply settled_sweepBatch.
  - left. by eapply settled_run_waiting.
  - right. match goal with E : RetryJobWithOptions _ _ _ _ = _ |- _ => rename E into Hr end.
    destruct (Retry_Ok _ _ _ _ _ Hk Hr) as (actor & job & _ & Hf & _ & _ & [_ Hj _ Ha _]).
    exists id. eexists. split; [exact Ha|]. split; [by split; [|left]|]. intros i Hi.
    rewrite Hj, lookup_update_where. destruct (jobs d !! i) as [r|] eqn:E; [|done]. simpl.
    unfold has_id. rewrite bool_decide_false; [done|]. by rewrite (Hk _ _ E).
  - left. by eapply settled_Cancel.
  - right. match goal with E : DeleteJob _ _ _ = _ |- _ => rename E into Hd end.
    destruct (Delete_Ok _ _ _ _ Hk Hd) as (actor & job & _ & Hf & _ & Hj & _ & _ & Ha).
    exists id. eexists. split; [exact Ha|]. split; [by split; [|right]|]. intros i Hi.
    by rewrite Hj, lookup_delete_ne.
  - left. by eapply settled_scopeBatch.
Qed.

(** ** The guarantees *)



(** C3. Claims are exclusive: no two claims ever handed out name the same job and
    attempt, and of the claims on one job at most one is held. *)
Theorem claims_exclusive s :
  reachable s →
  NoDup ((λ raw, (raw_ID raw, raw_Attempt raw)) <$> st_claims s) ∧
  ∀ x y, x ∈ st_claims s → y ∈ st_claims s → raw_ID x = raw_ID y →
    claim_held (st_db s) (raw_ID x) (raw_LeaseToken x) →
    claim_held (st_db s) (raw_ID y) (raw_LeaseToken y) → x = y.
Proof.
  intros Hr. pose proof (reachable_inv _ Hr) as Hinv. pose proof (inv_audit _ Hinv) as Hnd.
  split; [done|]. intros x y Hx Hy Hid (r & Hrx & _ & _ & Htx) (r2 & Hry & _ & _ & Hty).
  rewrite <-Hid in Hry. simplify_eq. destruct (inv_claims _ Hinv x Hx) as [_ _ Hcx].
  destruct (inv_claims _ Hinv y Hy) as [_ _ Hcy]. rewrite <-Hid in Hcy.
  destruct (Hcx _ Hrx) as (_ & _ & Hax), (Hcy _ Hrx) as (_ & _ & Hay).
  assert (raw_Attempt x = raw_Attempt y) as Ha by (rewrite Hax, Hay; congruence).
  apply list_elem_of_lookup_1 in Hx as [i Hi], Hy as [k Hk].
  assert (i = k) as ->; [|congruence].
  eapply (NoDup_lookup _ i k); [exact Hnd|..]; rewrite list_lookup_fmap; [by rewrite Hi|].
  rewrite Hk. simpl. by rewrite Hid, Ha.
Qed.

(** C2. A claim once lost is lost for good: from then on every renewal under it
    reports false and changes nothing, and every finalize under it is superseded
    and leaves the jobs table as it was. *)
Theorem lost_claim_stays_fenced s s' raw :
  reachable s → raw ∈ st_claims s → ¬ token_at (st_db s) (raw_ID raw) (raw_LeaseToken raw) →
  steps s s' →
  (∀ ctx until, RenewLease ctx (raw_ID raw) (raw_LeaseToken raw) until (st_db s') = (false, st_db s')) ∧
  (∀ ctx runID result we t out d',
     Finalize opts ctx raw runID result we t (st_db s') = Ok (out, d') →
     fo_Superseded out = true ∧ fo_EnqueuedChildren out = 0%Z ∧ jobs d' = jobs (st_db s')).
Proof.
  intros Hr Hin Hlost Hs. pose proof (reachable_inv _ Hr) as Hinv.
  destruct (inv_claims _ Hinv raw Hin) as [Hid Htok _].
  pose proof (steps_lost _ _ _ _ Hs Hinv Hid Htok Hlost) as Hlost'.
  pose proof (inv_wf _ (reachable_inv _ (steps_reachable _ _ Hs Hr))) as Hw.
  assert (¬ claim_held (st_db s') (raw_ID raw) (raw_LeaseToken raw)) as Hnh
    by (intros ?%held_token; done).
  split.
  - intros ctx until.
    destruct (RenewLease_spec ctx (raw_ID raw) (raw_LeaseToken raw) until (st_db s') Hw) as (Hb & _ & Hd).
    specialize (Hd Hnh). destruct (RenewLease _ _ _ _ _) as [[] d2]; simpl in *; [|by rewrite Hd].
    destruct Hnh. by apply Hb.
  - intros ctx runID result we t out d' Hf.
    assert (fo_Superseded out = true) as Hsup.
    { apply not_false_iff_true. intros E. apply Hnh. by apply (finalize_superseded_iff _ _ _ _ _ _ _ _ _ _ Hf Hw). }
    destruct (finalize_jobs_superseded _ _ _ _ _ _ _ _ _ _ Hf Hsup) as (? & ? & _). done.
Qed.


(** Attempts only count up: over any run of the system a job's attempt number
    never decreases, so a retry or a reclaim never reuses an attempt. *)
Theorem attempts_monotone s s' id r r' :
  reachable s → steps s s' → jobs (st_db s) !! id = Some r → jobs (st_db s') !! id = Some r' →
  (j_Attempt r ≤ j_Attempt r')%Z.
Proof. intros Hre Hs. apply steps_attempt; [done|by apply reachable_inv]. Qed.
End machine.
