(* ===== verification/Witnesses.v ===== *)
(** * Concrete runs

    The hypotheses of the theorems at a concrete system: go-foundation and the Go
    library instantiated by functions that satisfy their documented behaviour, one
    short run of the runtime (a parent fans out under a barrier, its child is
    claimed, loses its lease to a sweep and is finalized late), and each theorem
    that has hypotheses applied at a state of that run. *)

From stdpp Require Import pretty.
From S2P Require Import Prelude Types Text Fingerprint Store Plan Insert Barrier Finalize Seed Claim Sweep Client Controls Limiter Quiet Machine.

#[local] Instance toy_foundation : Foundation :=
  {| FieldRequestID := "request_id";
     RequestIDToMetadata id := if is_empty id then "{}" else id |}.
#[local] Existing Instance toy_golib.
#[local] Existing Instance doubling_backoff.
#[local] Existing Instance stored_order.

(** Instants, in seconds. *)
Definition secs (n : Z) : Z := (n * second)%Z.

(** A call's context: its instant, and ids of its own. *)
Definition at_ (prefix : string) (now : Z) : context :=
  {| c_Now _ := now; c_NewID n := prefix +:+ pretty n; c_RequestID := ""; c_Registry := None;
     c_Hook := None; c_GormNow := now |}.

Definition ok_db {A} (r : res (A * db)) : db := match r with Ok (_, d) => d | Err _ => empty_db end.
Definition ok_db' (r : res db) : db := match r with Ok d => d | Err _ => empty_db end.

(** Evaluates a decidable proposition about concrete tables. *)
Ltac decided := try unfold fresh_mint; refine (bool_decide_unpack _ _); vm_compute; exact I.

Definition cl0 : Client := {| cl_registry := None; cl_hook := None |}.
Definition opts0 : DriverOpts := zero_driver_opts.

(** ** The run *)

Definition ctx1 := at_ "job" (secs 10).
Definition d1 : db := ok_db (client_insert cl0 ctx1 "fanout" "{}" zero_opts InsertSourceClient "" empty_db).
Definition ctx2 := at_ "tok" (secs 20).
Definition lease0 : Z := secs 30.
Abbreviation claim1 := (sqlite_dequeuer ctx2 ∅ ["default"] "" false 10%Z lease0 d1).
Definition raw1 : RawJob := default (rawFromRow (buildRow ctx1 0 "" "" zero_opts ([], "")) 0 "") (head claim1.1).
Definition d2 : db := claim1.2.
Definition d3 : db := ok_db' (InsertRunStub ctx2 "run1" raw1 (secs 20) "" "exec" d2).
Definition child0 : FollowUp :=
  {| fu_Kind := "leaf"; fu_Args := Some "{}"; fu_Queue := ""; fu_UniqueKey := ""; fu_ScheduleAt := None;
     fu_Parent := true; fu_Priority := 0; fu_ExecutorClass := ""; fu_Tags := []; fu_Metadata := ∅ |}.
Definition result1 : Result :=
  {| res_Output := None; res_Snooze := None; res_Cancel := false; res_FollowUps := [child0];
     res_Barrier := Some {| b_Kind := "join"; b_Args := Some "{}"; b_Queue := ""; b_ExecutorClass := "";
                            b_Priority := 0 |};
     res_CostMicros := 7 |}.
Definition ctx4 := at_ "child" (secs 25).
Abbreviation fin1 := (Finalize opts0 ctx4 raw1 "run1" result1 None (secs 25) d3).
Definition d4 : db := ok_db fin1.
Definition ctx5 := at_ "tok2" (secs 26).
Abbreviation claim2 := (sqlite_dequeuer ctx5 ∅ ["default"] "" false 10%Z lease0 d4).
Definition raw2 : RawJob := default raw1 (head claim2.1).
Definition d5 : db := claim2.2.
Definition d6 : db := ok_db' (InsertRunStub ctx5 "run2" raw2 (secs 26) "" "exec" d5).
Definition ctx7 := at_ "swp" (secs 100).
Abbreviation swept7 := (sweepBatch sqlite opts0 ctx7 ∅ (secs 100) 1000 d6).
Definition d7 : db := ok_db swept7.

Definition used1 : gset string := ∅ ∪ minted ctx1 1.
Definition used2 : gset string := used1 ∪ minted ctx2 1.
Definition used4 : gset string := used2 ∪ minted ctx4 (S (length (res_FollowUps result1))).
Definition used5 : gset string := used4 ∪ minted ctx5 1.
Definition jobs7 : list SweptJob := match swept7 with Ok p => p.1 | Err _ => [] end.
Definition used7 : gset string := used5 ∪ minted ctx7 (length jobs7).

Definition s1 := {| st_db := d1; st_claims := []; st_used := used1 |}.
Definition s2 := {| st_db := d2; st_claims := claim1.1 ++ []; st_used := used2 |}.
Definition s3 := {| st_db := d3; st_claims := claim1.1 ++ []; st_used := used2 |}.
Definition s4 := {| st_db := d4; st_claims := claim1.1 ++ []; st_used := used4 |}.
Definition s5 := {| st_db := d5; st_claims := claim2.1 ++ claim1.1 ++ []; st_used := used5 |}.
Definition s6 := {| st_db := d6; st_claims := claim2.1 ++ claim1.1 ++ []; st_used := used5 |}.
Definition s7 := {| st_db := d7; st_claims := claim2.1 ++ claim1.1 ++ []; st_used := used7 |}.

Lemma raw1_in : claim1.1 = [raw1]. Proof. vm_compute. reflexivity. Qed.
Lemma raw2_in : claim2.1 = [raw2]. Proof. vm_compute. reflexivity. Qed.

(** Every step of the run is a step of the system. *)
Abbreviation run_step := (step sqlite_dequeuer sqlite opts0).
Abbreviation run_reachable := (reachable sqlite_dequeuer sqlite opts0).

Lemma step1 : run_step initial s1.
Proof.
  apply (step_insert _ _ _ cl0 ctx1 "fanout" "{}" zero_opts InsertSourceClient "" (Some "job0"));
    [decided|vm_compute; reflexivity].
Qed.
Lemma step2 : run_step s1 s2.
Proof.
  apply (step_dequeue _ _ _ ctx2 ∅ ["default"] "" false 10%Z lease0 claim1.1);
    [decided|apply surjective_pairing].
Qed.
Lemma step3 : run_step s2 s3.
Proof.
  apply (step_run_stub _ _ _ ctx2 "run1" raw1 (secs 20) "" "exec");
    [rewrite raw1_in; set_solver|vm_compute; reflexivity].
Qed.
Lemma step4 : run_step s3 s4.
Proof.
  eapply (step_finalize _ _ _ ctx4 raw1 "run1" result1 None (secs 25));
    [rewrite raw1_in; set_solver| |decided|vm_compute; reflexivity].
  intros _. exists child0. split; [left|done].
Qed.
Lemma step5 : run_step s4 s5.
Proof.
  apply (step_dequeue _ _ _ ctx5 ∅ ["default"] "" false 10%Z lease0 claim2.1);
    [decided|apply surjective_pairing].
Qed.
Lemma step6 : run_step s5 s6.
Proof.
  apply (step_run_stub _ _ _ ctx5 "run2" raw2 (secs 26) "" "exec");
    [rewrite raw2_in; set_solver|vm_compute; reflexivity].
Qed.
Lemma step7 : run_step s6 s7.
Proof.
  apply (step_sweep _ _ _ ctx7 ∅ (secs 100) 1000 jobs7);
    [decided|vm_compute; reflexivity].
Qed.

(** The states reached. *)
Lemma reach_next s s' : run_reachable s → run_step s s' → run_reachable s'.
Proof. apply reach_step. Qed.
Lemma reach4 : run_reachable s4.
Proof.
  exact (reach_next _ _ (reach_next _ _ (reach_next _ _ (reach_next _ _ (reach_init _ _ _) step1) step2) step3) step4).
Qed.
Lemma reach6 : run_reachable s6.
Proof. exact (reach_next _ _ (reach_next _ _ reach4 step5) step6). Qed.
Lemma reach7 : run_reachable s7.
Proof. exact (reach_next _ _ reach6 step7). Qed.
Lemma wf4 : db_wf d4. Proof. apply (inv_wf _ (reachable_inv _ _ _ _ reach4)). Qed.
Lemma wf6 : db_wf d6. Proof. apply (inv_wf _ (reachable_inv _ _ _ _ reach6)). Qed.
Lemma wf7 : db_wf d7. Proof. apply (inv_wf _ (reachable_inv _ _ _ _ reach7)). Qed.
Lemma wf1 : db_wf d1.
Proof. exact (inv_wf _ (reachable_inv _ _ _ _ (reach_next _ _ (reach_init _ _ _) step1))). Qed.
Lemma reach3 : run_reachable s3.
Proof. exact (reach_next _ _ (reach_next _ _ (reach_next _ _ (reach_init _ _ _) step1) step2) step3). Qed.
Lemma wf3 : db_wf d3. Proof. apply (inv_wf _ (reachable_inv _ _ _ _ reach3)). Qed.

(** A claim is held, or a token is gone, read off the row. *)
Lemma held_by_row d id token r :
  jobs d !! id = Some r → not_deleted r = true → j_State r = StateRunning → j_LeaseToken r = Some token →
  claim_held d id token.
Proof. by exists r. Qed.
Lemma token_gone d id token : (jobs d !! id ≫= j_LeaseToken) ≠ Some token → ¬ token_at d id token.
Proof. intros Hn (r & Hr & Ht). apply Hn. by rewrite Hr. Qed.

Lemma finished_none d id run :
  job_runs d !! id = Some run → job_runs d !! id ≫= r_FinishedAt = None → r_FinishedAt run = None.
Proof. by intros ->. Qed.

(** ** The system *)



Lemma claims_exclusive_witness :
  NoDup ((λ raw, (raw_ID raw, raw_Attempt raw)) <$> st_claims s6) ∧ length (st_claims s6) = 2.
Proof.
  split; [exact (proj1 (claims_exclusive sqlite_dequeuer sqlite opts0 s6 reach6))|].
  vm_compute. reflexivity.
Defined.

Lemma lost_claim_stays_fenced_witness :
  raw_ID raw2 = "child0" ∧
  ∀ ctx until, RenewLease ctx (raw_ID raw2) (raw_LeaseToken raw2) until d7 = (false, d7).
Proof.
  split; [vm_compute; reflexivity|].
  apply (lost_claim_stays_fenced sqlite_dequeuer sqlite opts0 s7 s7 raw2 reach7).
  - change (st_claims s7) with (claim2.1 ++ claim1.1 ++ []). rewrite raw2_in. left.
  - apply token_gone. vm_compute. discriminate.
  - constructor.
Defined.

Definition row_or (d : db) (id : string) : jobRow :=
  default (buildRow ctx1 0 "" "" zero_opts ([], "")) (jobs d !! id).


Lemma attempts_monotone_witness :
  (j_Attempt (row_or d4 "child0") ≤ j_Attempt (row_or d7 "child0"))%Z ∧
  j_Attempt (row_or d7 "child0") = 1%Z.
Proof.
  split; [|vm_compute; reflexivity].
  apply (attempts_monotone sqlite_dequeuer sqlite opts0 s4 s7 "child0" _ _ reach4).
  - exact (steps_step _ _ _ _ _ _ step5 (steps_step _ _ _ _ _ _ step6
             (steps_step _ _ _ _ _ _ step7 (steps_refl _ _ _ _)))).
  - vm_compute. reflexivity.
  - vm_compute. reflexivity.
Defined.

(** ** Fan-out and fan-in *)

Lemma fanout_chunking_witness :
  insertFollowUps opts0 ctx4 [child0; child0] "job0" d3 =
  (let? rows := buildChildRows ctx4 0 [child0; child0] "job0" in
   let? ' (landed, d') := conflictInsertChunk ctx4 rows d3 in
   Ok (Z.of_nat (length landed), d')).
Proof.
  rewrite (fanout_chunking opts0 ctx4 [child0; child0] "job0" d3); [reflexivity|].
  unfold fresh_context, fresh_ids. refine (bool_decide_unpack _ _). vm_compute. exact I.
Defined.

(** The child ended, its parent's check still to run. *)
Definition d8 : db := update_jobs (has_id "child0") (cancelUpdates (secs 200)) d7.
Abbreviation fired8 := (fireBarrierIfComplete (at_ "join" (secs 200)) 0 "job0" "child0" d8).


(** The parent runs again and declares its barrier a second time, with the first
    continuation still in the table. *)
Definition d9 : db :=
  update_jobs (has_id "join0") (cancelUpdates (secs 300))
    (update_jobs (has_id "job0")
       [ColBarrierKind (Some "join"); ColBarrierSpec (j_BarrierSpec (row_or d4 "job0"))]
       (ok_db fired8)).
Abbreviation fired9 := (fireBarrierIfComplete (at_ "again" (secs 400)) 0 "job0" "child0" d9).

Lemma refire_enqueues_nothing_witness :
  fired9 = Ok (true, ok_db fired9) ∧ dom (jobs (ok_db fired9)) = dom (jobs d9).
Proof.
  assert (fired9 = Ok (true, ok_db fired9)) as Hf by (vm_compute; reflexivity).
  split; [exact Hf|].
  assert (fired8 = Ok (true, ok_db fired8)) as Hf8 by (vm_compute; reflexivity).
  assert (db_wf d8) as Hw8.
  { apply wf_update_jobs; [|exact wf7]. intros i r _ _ Hw. by apply cancel_safe. }
  pose proof (wf_keyed _ (wf_fireBarrier _ _ _ _ _ _ _ Hf8 Hw8)) as Hk8.
  assert (keyed (jobs d9)) as Hk9 by exact (keyed_update_where _ _ _ (keyed_update_where _ _ _ Hk8)).
  refine (proj1 (refire_enqueues_nothing _ _ _ _ _ _ "join0" (row_or d9 "join0") Hk9 _ _ _ Hf));
    vm_compute; reflexivity.
Defined.

(** ** Finalize *)

Definition out1 : FinalizeOutcome := match fin1 with Ok p => p.1 | Err _ => {| fo_State := StateRunning;
  fo_RunOutcome := OutcomeStarted; fo_ErrorClass := None; fo_ScheduledAt := None; fo_Superseded := true;
  fo_EnqueuedChildren := 0 |} end.
Lemma fin1_ok : fin1 = Ok (out1, d4).
Proof. vm_compute. reflexivity. Qed.
Lemma held3 : claim_held d3 (raw_ID raw1) (raw_LeaseToken raw1).
Proof. apply (held_by_row _ _ _ (row_or d3 "job0")); vm_compute; reflexivity. Qed.

Lemma finalize_applies_witness :
  raw_ID raw1 = "job0" ∧ ¬ claim_held d4 (raw_ID raw1) (raw_LeaseToken raw1) ∧
  ∃ r', jobs d4 !! raw_ID raw1 = Some r' ∧ j_State r' = StateSucceeded.
Proof.
  pose proof (finalize_applies _ _ _ _ _ _ _ _ _ _ fin1_ok wf3 held3) as (_ & _ & Hn & (r & r' & _ & Hr' & Hs & _) & _).
  split; [vm_compute; reflexivity|]. split; [exact Hn|]. exists r'. split; [exact Hr'|].
  rewrite Hs. vm_compute. reflexivity.
Defined.

Lemma finalize_records_run_witness :
  ∃ run, job_runs d4 !! "run1" = Some run ∧ r_Outcome run = OutcomeSuccess ∧ r_FinishedAt run = Some (secs 25).
Proof.
  destruct (finalize_records_run _ _ _ _ _ _ _ _ _ _ fin1_ok wf3)
    as (stub & run & Hs & Hr & Ho & _ & _ & Hf & _).
  exists run. rewrite Hr, lookup_insert_eq. split; [reflexivity|]. split; [rewrite Ho; vm_compute; reflexivity|].
  rewrite Hf. assert (r_FinishedAt stub = None) as ->; [|reflexivity].
  apply (finished_none d3 "run1" stub Hs). vm_compute. reflexivity.
Defined.

(** The swept child's attempt finalizes late. *)
Abbreviation late := (Finalize opts0 (at_ "late" (secs 120)) raw2 "run2" zero_result None (secs 120) d7).
Definition late_out : FinalizeOutcome := match late with Ok p => p.1 | Err _ => {| fo_State := StateRunning;
  fo_RunOutcome := OutcomeStarted; fo_ErrorClass := None; fo_ScheduledAt := None; fo_Superseded := false;
  fo_EnqueuedChildren := 0 |} end.

Lemma finalize_fence_witness :
  late = Ok (late_out, ok_db late) ∧ fo_Superseded late_out = true ∧ jobs (ok_db late) = jobs d7.
Proof.
  assert (late = Ok (late_out, ok_db late)) as Hl by (vm_compute; reflexivity).
  split; [exact Hl|]. split; [vm_compute; reflexivity|].
  apply (proj2 (finalize_fence _ _ _ _ _ _ _ _ _ _ Hl wf7)). vm_compute. reflexivity.
Defined.

Lemma renewal_fence_witness :
  (RenewLease ctx5 "child0" (raw_LeaseToken raw2) (secs 90) d6).1 = true ∧
  (RenewLease ctx5 "child0" "stale" (secs 90) d6).2 = d6.
Proof.
  split.
  - apply (renewal_fence ctx5 "child0" (raw_LeaseToken raw2) (secs 90) d6 wf6).
    apply (held_by_row _ _ _ (row_or d6 "child0")); vm_compute; reflexivity.
  - apply (renewal_fence ctx5 "child0" "stale" (secs 90) d6 wf6).
    intros Hh. apply held_token in Hh. revert Hh. apply token_gone. vm_compute. discriminate.
Defined.

(** ** Claims *)

Lemma dequeue_contract_witness :
  ∃ rows, claim_result (secs 20) lease0 "tok0" ["default"] "" false 10 {["other"]} d1
    (postgresDequeue ctx2 {["other"]} ["default"] "" false 10 lease0 d1).1
    (postgresDequeue ctx2 {["other"]} ["default"] "" false 10 lease0 d1).2 rows.
Proof. exact (proj2 (dequeue_contract ctx2 {["other"]} ["default"] "" false 10 lease0 d1 (wf_keyed _ wf1))). Defined.

Lemma claims_never_overlap_witness :
  (raw_ID <$> claim1.1) ## (raw_ID <$> (postgres_dequeuer ctx5 ∅ ["default"] "" true 5%Z lease0 claim1.2).1) ∧
  length claim1.1 = 1.
Proof.
  split; [|vm_compute; reflexivity].
  exact (proj1 (claims_never_overlap sqlite_dequeuer postgres_dequeuer _ _ _ _ _ _ _ _ _ _ _ _ _ _ _ _ _ _ _
    (wf_keyed _ wf1) (surjective_pairing claim1)
    (surjective_pairing (postgres_dequeuer ctx5 ∅ ["default"] "" true 5%Z lease0 claim1.2)))).
Defined.

Definition snooze0 : Result :=
  {| res_Output := None; res_Snooze := Some (secs 60); res_Cancel := false; res_FollowUps := [];
     res_Barrier := None; res_CostMicros := 0 |}.
Abbreviation snoozed := (Finalize opts0 ctx4 raw1 "run1" snooze0 None (secs 25) d3).
Definition snoozed_out : FinalizeOutcome := match snoozed with Ok p => p.1 | Err _ => out1 end.

Lemma snooze_is_free_witness :
  ∃ r r3, jobs d1 !! raw_ID raw1 = Some r ∧ jobs (ok_db snoozed) !! raw_ID raw1 = Some r3 ∧
    j_State r3 = StateScheduled ∧ j_ScheduledAt r3 = (secs 25 + secs 60)%Z ∧
    (j_MaxAttempts r3 - j_Attempt r3 = j_MaxAttempts r - j_Attempt r)%Z.
Proof.
  assert (snoozed = Ok (snoozed_out, ok_db snoozed)) as Hs by (vm_compute; reflexivity).
  assert (raw1 ∈ claim1.1) as Hin by (rewrite raw1_in; left).
  assert (jobs d3 = jobs d2) as Hj by (vm_compute; reflexivity).
  exact (snooze_is_free sqlite_dequeuer _ _ _ _ _ _ _ _ _ _ raw1 _ _ _ snooze0 _ _ (secs 60) d3 _ _
    wf1 (surjective_pairing claim1) Hin Hj wf3 eq_refl eq_refl Hs).
Defined.

(** ** The sweep *)

Lemma backlog6 : size (backlog (secs 100) d6) = 1. Proof. vm_compute. reflexivity. Qed.

Lemma sweep_drains_witness :
  ∃ report e d', sweep 2 sqlite opts0 (λ _, ctx7) (λ _, false) (λ _, ∅) 0 (secs 100) d6 = Some (report, e, d') ∧
    (e = None → ∃ k : nat, backlog (secs 100) d' ⊆ (∅ : gset string)).
Proof.
  destruct (sweep_drains sqlite opts0 (λ _, ctx7) (λ _, false) (λ _, ∅) (secs 100) d6 2 wf6)
    as (report & e & d' & Hs & _ & _ & _ & _ & He).
  - rewrite backlog6. lia.
  - exists report, e, d'. split; [exact Hs|exact He].
Defined.

Lemma reclaim_contract_witness :
  ∃ rows, reclaim_result opts0 ∅ (secs 100) 10 d6 (sqliteReclaimExpired opts0 (secs 100) 10 d6).1
    (sqliteReclaimExpired opts0 (secs 100) 10 d6).2 rows.
Proof. exact (proj1 (reclaim_contract opts0 ∅ (secs 100) 10 d6 (wf_keyed _ wf6))). Defined.

Lemma dialects_agree_on_reclaims_witness :
  postgresReclaimExpired opts0 ∅ (secs 100) 10 d6 = sqliteReclaimExpired opts0 (secs 100) 10 d6 ∧
  length (sqliteReclaimExpired opts0 (secs 100) 10 d6).1 = 1.
Proof.
  split; [exact (dialects_agree_on_reclaims opts0 (secs 100) 10 d6 (wf_keyed _ wf6))|].
  vm_compute. reflexivity.
Defined.

(** ** Producers *)

Definition keyed_opts : InsertOpts :=
  {| o_Queue := ""; o_UniqueKey := ""; o_UniqueActiveKey := "nightly"; o_ScheduleAt := None; o_Parent := None;
     o_Priority := 0; o_ExecutorClass := ""; o_MaxAttempts := 0; o_Timeout := 0; o_Tx := true;
     o_RequestID := ""; o_Tags := []; o_Metadata := ∅ |}.
(** A job under a live key, and a second one refused by it. *)
Abbreviation keyed1 := (enqueue cl0 (at_ "k" (secs 1)) "report" "{}" keyed_opts empty_db).
Definition e1 : db := ok_db keyed1.
Abbreviation keyed2 := (enqueue cl0 (at_ "m" (secs 2)) "report" "{}" keyed_opts e1).

Lemma fresh_e1 : fresh_id (at_ "m" (secs 2)) e1.
Proof. unfold fresh_id. refine (bool_decide_unpack _ _). vm_compute. exact I. Qed.
Lemma fresh_e0 : fresh_id (at_ "k" (secs 1)) empty_db.
Proof. unfold fresh_id. refine (bool_decide_unpack _ _). vm_compute. exact I. Qed.
Lemma wf_e1 : db_wf e1.
Proof.
  apply (wf_insert_once cl0 (at_ "k" (secs 1)) "report" "{}" keyed_opts InsertSourceClient "" empty_db
    (Some "k0")); [exact fresh_e0| |exact wf_empty]. vm_compute. reflexivity.
Qed.


Lemma insert_paths_agree_witness :
  client_insert cl0 (at_ "m" (secs 2)) "report" "{}" keyed_opts InsertSourceClient "" e1 =
  insert_once cl0 (at_ "m" (secs 2)) "report" "{}" keyed_opts InsertSourceClient "" e1.
Proof. exact (insert_paths_agree _ _ _ _ _ _ _ _ fresh_e1). Defined.

Definition item0 : BatchItem := {| bi_Kind := "report"; bi_Args := "{}"; bi_Opts := keyed_opts |}.
Definition item1 : BatchItem := {| bi_Kind := "report"; bi_Args := "{}"; bi_Opts := zero_opts |}.
Definition bopts : BatchOpts := {| bo_ChunkSize := 1; bo_Tx := false; bo_SkipDuplicates := false |}.
Abbreviation bulk := (InsertMany cl0 (at_ "b" (secs 3)) "sqlite" [item0; item1] bopts e1).

Lemma InsertMany_accounts_witness :
  br_Inserted bulk.1.1 = 1%Z ∧
  Z.of_nat (size (jobs bulk.2)) = (Z.of_nat (size (jobs e1)) + br_Inserted bulk.1.1)%Z.
Proof.
  split; [vm_compute; reflexivity|].
  assert (bulk = (bulk.1.1, bulk.1.2, bulk.2)) as Hb by (destruct bulk as [[? ?] ?]; reflexivity).
  refine (proj1 (InsertMany_accounts cl0 (at_ "b" (secs 3)) "sqlite" [item0; item1] bopts e1 _ _ _ _ Hb)).
  unfold fresh_ids. refine (bool_decide_unpack _ _). vm_compute. exact I.
Defined.

(** ** Controls *)

Definition cc0 : control :=
  {| cc_ctx := at_ "ctl" (secs 150);
     cc_Actor := Some {| ac_Type := ActorUser; ac_ID := "ops"; ac_Reason := "test"; ac_Source := "cli";
                         ac_RequestID := "" |};
     cc_AuditHook := None |}.
Definition actor0 : Actor :=
  {| ac_Type := ActorUser; ac_ID := "ops"; ac_Reason := "test"; ac_Source := "cli"; ac_RequestID := "" |}.

Abbreviation paused := (run_waiting cc0 Pause "job0" d1).
Lemma waiting_control_effect_witness :
  paused = Ok (ok_db' paused) ∧
  ∃ actor job, resolveActor cc0 = Ok actor ∧ find_job d1 "job0" = Some job ∧
    state_in (j_State job) waitingStates = true.
Proof.
  assert (paused = Ok (ok_db' paused)) as Hp by (vm_compute; reflexivity).
  split; [exact Hp|].
  destruct (waiting_control_effect cc0 Pause "job0" d1 _ (wf_keyed _ wf1) Hp) as (actor & job & Ha & Hf & Hs & _).
  exists actor, job. split; [exact Ha|]. split; [exact Hf|exact Hs].
Defined.

Lemma waiting_control_refuses_witness : run_waiting cc0 Pause "job0" d3 = Err ErrJobRunning.
Proof.
  pose proof (waiting_control_refuses cc0 Pause "job0" d3 actor0 eq_refl ltac:(vm_compute; reflexivity)) as Hr.
  assert (find_job d3 "job0" = Some (row_or d3 "job0")) as Hf by (vm_compute; reflexivity).
  rewrite Hf in Hr. apply (proj1 Hr). vm_compute. reflexivity.
Defined.

Definition force : RetryOpts :=
  {| ro_Force := true; ro_AllowRunning := false; ro_ResetAttempts := true; ro_Budget := 3; ro_Delay := 0 |}.
Abbreviation retried := (RetryJobWithOptions cc0 "job0" force d4).
Lemma retry_effect_witness :
  retried = Ok (ok_db' retried) ∧
  jobs (ok_db' retried) = update_where (has_id "job0") (retryUpdates (secs 150) force) (jobs d4).
Proof.
  assert (retried = Ok (ok_db' retried)) as Hr by (vm_compute; reflexivity).
  split; [exact Hr|].
  destruct (retry_effect cc0 "job0" force d4 _ (wf_keyed _ wf4) Hr) as (actor & job & _ & _ & _ & _ & _ & Hj & _).
  exact Hj.
Defined.

(** The first holder of the key cancelled, and its key taken by a second job. *)
Abbreviation cancelled1 := (CancelJob cc0 "k0" e1).
Definition e2 : db := ok_db' cancelled1.
Abbreviation taken := (insert_once cl0 (at_ "m" (secs 2)) "report" "{}" keyed_opts InsertSourceClient "" e2).
Definition e3 : db := ok_db taken.
Lemma wf_e3 : db_wf e3.
Proof.
  assert (cancelled1 = Ok e2) as Hc by (vm_compute; reflexivity).
  apply (wf_insert_once cl0 (at_ "m" (secs 2)) "report" "{}" keyed_opts InsertSourceClient "" e2 (Some "m0")).
  - unfold fresh_id. refine (bool_decide_unpack _ _). vm_compute. exact I.
  - vm_compute. reflexivity.
  - exact (wf_Cancel _ _ _ _ Hc wf_e1).
Qed.

Lemma retry_names_holder_witness :
  ∃ h k, RetryJobWithOptions cc0 "k0" force e3 = Err (AlreadyEnqueuedError h k) ∧
    j_UniqueActiveKey (row_or e3 "k0") = Some k ∧ holds_active_key e3 k h.
Proof.
  apply (retry_names_holder cc0 "k0" force e3 (row_or e3 "k0") actor0 wf_e3); try (vm_compute; reflexivity).
  vm_compute. discriminate.
Defined.

Abbreviation ended := (CancelJob cc0 "child0" d7).
Lemma cancel_effect_witness :
  ended = Ok (ok_db' ended) ∧ ∃ r', jobs (ok_db' ended) !! "child0" = Some r' ∧ j_State r' = StateCancelled.
Proof.
  assert (ended = Ok (ok_db' ended)) as He by (vm_compute; reflexivity).
  split; [exact He|].
  destruct (cancel_effect cc0 "child0" d7 _ wf7 He) as (actor & job & r' & _ & _ & _ & Hr & Hs & _).
  exists r'. split; [exact Hr|exact Hs].
Defined.

Abbreviation deleted := (DeleteJob cc0 "job0" d4).
Lemma delete_effect_witness :
  deleted = Ok (ok_db' deleted) ∧ jobs (ok_db' deleted) = delete "job0" (jobs d4).
Proof.
  assert (deleted = Ok (ok_db' deleted)) as Hd by (vm_compute; reflexivity).
  split; [exact Hd|].
  destruct (delete_effect cc0 "job0" d4 _ wf4 Hd) as (actor & job & _ & _ & _ & Hj & _). exact Hj.
Defined.

Lemma scope_by_parent_ends_witness :
  ∃ r e d', scopeByParent 5 (λ _, cc0) false (λ _, false) "job0" 0 pauseTransition d7 = Some (r, e, d') ∧
    (e = None → scope_ids "job0" (t_source pauseTransition) d' = ∅).
Proof.
  destruct (scope_by_parent_ends 5 (λ _, cc0) (λ _, false) "job0" 0 pauseTransition d7 actor0)
    as (r & e & d' & Hs & _ & _ & _ & _ & He).
  - left.
  - exact wf7.
  - vm_compute. reflexivity.
  - refine (bool_decide_unpack _ _). vm_compute. exact I.
  - exists r, e, d'. split; [exact Hs|]. intros E. exact (He E eq_refl).
Defined.

Lemma fingerprint_correct_witness :
  validFingerprint (fingerprintOf "report" ErrorTransient "boom 42" None) = true.
Proof. exact (proj1 (@fingerprint_correct toy_golib toy_golib_laws "report" ErrorTransient "boom 42" None)). Defined.

(** ** The shared limiter *)

Definition lim_cfg : DBLimiterConfig :=
  {| cfg_Rate := 2; cfg_Interval := secs 10; cfg_Burst := 3; cfg_MaxConcurrent := 0; cfg_HoldTTL := 0;
     cfg_SweepInterval := 0 |}.
Definition lim : DBLimiter :=
  {| l_rate := 2; l_interval := secs 10; l_burst := 3; l_maxConcurrent := 0; l_holdTTL := 0;
     l_sweepInterval := minute |}.
Definition cap_cfg : DBLimiterConfig :=
  {| cfg_Rate := 0; cfg_Interval := 0; cfg_Burst := 0; cfg_MaxConcurrent := 2; cfg_HoldTTL := secs 30;
     cfg_SweepInterval := 0 |}.
Definition cap : DBLimiter :=
  {| l_rate := 0; l_interval := 0; l_burst := 0; l_maxConcurrent := 2; l_holdTTL := secs 30;
     l_sweepInterval := secs 30 |}.
Definition cap_ops : list limiter_op :=
  [OpAcquire (secs 1) "h1" "api" 1; OpAcquire (secs 2) "h2" "api" 3; OpSweep (secs 3) 10].

Lemma limiter_ceiling_witness :
  live_held "api" (secs 3) (limiter_run cap cap_ops empty_limiter) = 2%Z ∧
  (live_held "api" (secs 3) (limiter_run cap cap_ops empty_limiter) ≤ 2)%Z.
Proof.
  split; [vm_compute; reflexivity|].
  exact (limiter_ceiling cap_cfg cap eq_refl (secs 0) cap_ops "api" eq_refl ltac:(repeat split; vm_compute; discriminate)).
Defined.

Definition lim_before : list limiter_op := [OpAcquire (secs 1) "" "api" 2].
Definition lim_ops : list limiter_op := [OpAcquire (secs 2) "" "api" 2; OpAcquire (secs 7) "" "api" 2].

Abbreviation short := (Acquire lim (secs 3) "" "api" 5 (limiter_run lim lim_before empty_limiter)).
Definition short_grant : Grant := match short with Ok (g, _) => g | Err _ => bare_grant "" 0 end.
Definition short_state : limiter_db := match short with Ok (_, s) => s | Err _ => empty_limiter end.
Lemma retry_hint_exact_witness :
  short = Ok (short_grant, short_state) ∧ g_N short_grant = 1%Z ∧ g_RetryAfter short_grant = secs 3 ∧
  ∃ g' s'', Acquire lim (secs 6) "" "api" 1 short_state = Ok (g', s'') ∧ g_N g' = 1%Z.
Proof.
  assert (short = Ok (short_grant, short_state)) as Hs by (vm_compute; reflexivity).
  split; [exact Hs|]. split; [vm_compute; reflexivity|]. split; [vm_compute; reflexivity|].
  destruct (retry_hint_exact lim_cfg lim eq_refl (secs 0) lim_before (secs 3) "" "api" 5 short_grant short_state (secs 5))
    as [_ Hlater]; [reflexivity|reflexivity|reflexivity|vm_compute; discriminate| | |exact Hs|vm_compute; reflexivity|].
  - repeat split; vm_compute; discriminate.
  - vm_compute. discriminate.
  - destruct (Hlater (secs 6) "" ltac:(vm_compute; discriminate)) as (g' & s'' & Ha & Hn).
    exists g', s''. split; [exact Ha|]. rewrite Hn. vm_compute. reflexivity.
Defined.

(** When the rate does not divide the interval the hint is rounded down: three
    permits per ten nanoseconds take four nanoseconds each, the hint says three,
    and asking then is denied again with no hint at all. *)
Definition odd_lim : DBLimiter :=
  {| l_rate := 3; l_interval := 10; l_burst := 2; l_maxConcurrent := 0; l_holdTTL := 0;
     l_sweepInterval := minute |}.
Example retry_hint_rounds_down :
  let ask t n s := match Acquire odd_lim t "" "api" n s with
                    | Ok (g, s') => Some (g_N g, g_RetryAfter g, s') | Err _ => None end in
  match ask 0%Z 2%Z empty_limiter with
  | Some (2%Z, _, s1) =>
    match ask 0%Z 1%Z s1 with
    | Some (0%Z, 3%Z, s2) => match ask 3%Z 1%Z s2 with Some (0%Z, 0%Z, _) => True | _ => False end
    | _ => False
    end
  | _ => False
  end.
Proof. vm_compute. exact I. Qed.

(** ** A barrier over children that never land *)

Definition dup_opts : InsertOpts :=
  {| o_Queue := "elsewhere"; o_UniqueKey := "dup"; o_UniqueActiveKey := ""; o_ScheduleAt := None;
     o_Parent := None; o_Priority := 0; o_ExecutorClass := ""; o_MaxAttempts := 0; o_Timeout := 0;
     o_Tx := false; o_RequestID := ""; o_Tags := []; o_Metadata := ∅ |}.
Definition f1 : db := ok_db (client_insert cl0 (at_ "dup" (secs 5)) "leaf" "{}" dup_opts InsertSourceClient "" d3).
Definition dup_result : Result :=
  {| res_Output := None; res_Snooze := None; res_Cancel := false;
     res_FollowUps := [{| fu_Kind := "leaf"; fu_Args := Some "{}"; fu_Queue := ""; fu_UniqueKey := "dup";
                          fu_ScheduleAt := None; fu_Parent := true; fu_Priority := 0;
                          fu_ExecutorClass := ""; fu_Tags := []; fu_Metadata := ∅ |}];
     res_Barrier := res_Barrier result1; res_CostMicros := 0 |}.
Abbreviation stranded := (Finalize opts0 ctx4 raw1 "run1" dup_result None (secs 25) f1).

(** The parent's only child claims a key another job holds, so the fan-out skips
    it; the barrier is declared all the same, with no child whose end could fire
    it. *)
Example barrier_over_skipped_children :
  stranded = Ok (match stranded with Ok p => p.1 | Err _ => out1 end, ok_db stranded) ∧
  barrier_of (ok_db stranded) "job0" = Some "join" ∧
  count_jobs (pending_child "job0") (ok_db stranded) = 0%Z.
Proof. vm_compute. done. Qed.

(** ** Seeded runs *)

(** The claimed job's attempt, seeded as finished with no outcome. *)
Definition seed0 : RunSeed :=
  {| sd_JobID := raw_ID raw1; sd_Attempt := 1; sd_ExecutorClass := ""; sd_ExecutorID := "import";
     sd_Outcome := OutcomeOther ""; sd_StartedAt := secs 20; sd_FinishedAt := Some (secs 21); sd_Output := None;
     sd_ErrorMessage := "" |}.
Definition failed_seed : RunSeed :=
  {| sd_JobID := raw_ID raw1; sd_Attempt := 1; sd_ExecutorClass := ""; sd_ExecutorID := "import";
     sd_Outcome := OutcomeError; sd_StartedAt := secs 20; sd_FinishedAt := Some (secs 21); sd_Output := None;
     sd_ErrorMessage := "boom" |}.
Definition ctx_seed := at_ "seed" (secs 22).
Definition seeded_db (seed : RunSeed) : db := ok_db (SeedRun ctx_seed seed d2).
Definition seeded_swept (seed : RunSeed) : db := ok_db (sweepBatch sqlite opts0 ctx7 ∅ (secs 100) 1000 (seeded_db seed)).


(** A seed finished without an outcome reads started, so the sweep that reclaims its
    attempt ends it again: the log then holds two finishes of one run. *)
Lemma seed_finish_logged_twice :
  InsertRunStub ctx2 "run1" raw1 (secs 20) "" "exec" (seeded_db seed0) = Err ErrDuplicateKey ∧
  job_run_finishes (seeded_db seed0) = {[(secs 21, "seed0")]} ∧
  job_run_finishes (seeded_swept seed0) = {[(secs 21, "seed0"); (secs 100, "seed0")]} ∧
  (job_runs (seeded_swept seed0) !! "seed0" ≫= r_FinishedAt) = Some (secs 100).
Proof. split; [vm_compute; reflexivity|]. split; [decided|]. split; [decided|vm_compute; reflexivity]. Qed.
