(* ===== verification/MaintenanceRuns.v ===== *)
(** * Concrete runs: periodics, retention, configuration, histograms

    The theorems of Periodic, Scheduler, Retention, Maintenance and Hist that have
    hypotheses, applied at concrete tables. robfig/cron is instantiated by a parser
    of two expressions: one that matches every hour and one that matches no time. *)

From Stdlib Require Import Ascii.
From stdpp Require Import pretty.
From S2P Require Import Prelude Types Text Json Fingerprint Store Plan Insert Barrier Finalize Claim Sweep Client Controls Periodic Scheduler Retention Hist Maintenance Quiet Machine Witnesses.

#[local] Existing Instance toy_foundation.
#[local] Existing Instance toy_golib.
#[local] Existing Instance doubling_backoff.
#[local] Existing Instance stored_order.

Definition never_expr := "0 0 30 2 *".
Definition hourly_expr := "0 * * * *".
#[local] Instance toy_cron : Cron :=
  {| ParseStandard e :=
       if bool_decide (e = hourly_expr) then Some (λ t, ((t / secs 3600 + 1) * secs 3600)%Z)
       else if bool_decide (e = never_expr) then Some (λ _, zero_time) else None |}.
#[local] Instance toy_cron_laws : CronLaws.
Proof.
  split. intros e next t. simpl. case_bool_decide; [intros [= <-]; right|case_bool_decide; [intros [= <-]; by left|done]].
  unfold secs, second. pose proof (Z.mul_succ_div_gt t (3600 * 1000000000) ltac:(lia)). lia.
Qed.

(** ** Periodics *)

Definition every60 : PeriodicSpec :=
  {| ps_Slug := "digest"; ps_Kind := "report"; ps_Queue := ""; ps_ArgsTemplate := ""; ps_Cron := "";
     ps_Every := secs 60; ps_Active := true |}.
Definition every90 : PeriodicSpec :=
  {| ps_Slug := "digest"; ps_Kind := "report"; ps_Queue := ""; ps_ArgsTemplate := ""; ps_Cron := "";
     ps_Every := secs 90; ps_Active := true |}.
Definition hourly : PeriodicSpec :=
  {| ps_Slug := "rollup"; ps_Kind := "sum"; ps_Queue := ""; ps_ArgsTemplate := "[1]"; ps_Cron := hourly_expr;
     ps_Every := 0; ps_Active := true |}.
Definition never : PeriodicSpec :=
  {| ps_Slug := "digest"; ps_Kind := "report"; ps_Queue := ""; ps_ArgsTemplate := ""; ps_Cron := never_expr;
     ps_Every := 0; ps_Active := true |}.

Definition pctx := at_ "per" (secs 100).
Abbreviation inserted := (insertPeriodic pctx every60 PeriodicUpserted (secs 100) ∅).
Definition t1 : periodics := match inserted with Ok (_, t) => t | Err _ => ∅ end.
Definition no_row : jobPeriodicRow :=
  {| p_ID := ""; p_Slug := ""; p_Kind := ""; p_ArgsTemplate := ""; p_Queue := ""; p_CronExpr := None;
     p_IntervalSeconds := None; p_NextRunAt := 0; p_LastEnqueuedAt := None; p_IsActive := false;
     p_Source := ""; p_PausedAt := None; p_PausedByType := ""; p_PausedByID := ""; p_PausedReason := "";
     p_RecentJobs := None; p_CreatedAt := 0; p_UpdatedAt := 0 |}.
Definition r1 : jobPeriodicRow := default no_row (t1 !! "per0").

Lemma pstep1 : pstep EvOther (∅, empty_db) (t1, empty_db).
Proof.
  apply (ps_insert pctx every60 PeriodicUpserted (secs 100) (Some r1)); [done|vm_compute; reflexivity..].
Qed.
Lemma t1_wf : periodics_wf t1.
Proof. exact (wf_pstep _ _ _ _ _ pstep1 periodics_wf_empty). Qed.
Lemma t1_row : t1 !! "per0" = Some r1.
Proof. vm_compute. reflexivity. Qed.

Lemma t1_only : t1 = {["per0" := r1]}.
Proof. vm_compute. reflexivity. Qed.

Lemma periodics_reachable_wf_witness : p_Slug r1 = "digest" ∧ periodics_wf t1.
Proof.
  split; [vm_compute; reflexivity|].
  apply (periodics_reachable_wf empty_db t1 empty_db). apply rtc_once. exists EvOther. split; [exact I|exact pstep1].
Defined.

Lemma due_buckets_recent_witness :
  due_buckets 10 2 r1 (secs 300) = Some (Ok ([secs 220; secs 280], secs 340)).
Proof.
  apply (due_buckets_recent r1 (secs 300) 2 (λ t, t + 60 * second)%Z [secs 160; secs 220; secs 280] (secs 340) 10).
  - exact (pwf_rows _ t1_wf _ _ t1_row).
  - vm_compute. reflexivity.
  - vm_compute. repeat split; discriminate.
  - replace (p_NextRunAt r1) with (secs 160) by (vm_compute; reflexivity).
    repeat (apply missed_fire; [vm_compute; discriminate|]). apply missed_none. vm_compute. reflexivity.
  - simpl. lia.
Defined.

(** Each call of a pass under an id of its own. *)
Definition nth_ctx (prefix : ascii) (now : Z) (k : nat) : context :=
  {| c_Now _ := now; c_NewID _ := String prefix (pretty k); c_RequestID := ""; c_Registry := None;
     c_Hook := None; c_GormNow := now |}.

Abbreviation tick1 := (Tick 10 cl0 10 (λ i, nth_ctx "f" (secs 300)) (secs 300) t1 empty_db).
Definition tick1_out : nat * list error * periodics * db := default (0, [], ∅, empty_db) tick1.
Lemma tick_drains_witness :
  tick1_out.1.1.1 = 3 ∧ periodics_wf tick1_out.1.2 ∧ map_Forall (λ _ r, due (secs 300) r = false) tick1_out.1.2.
Proof.
  split; [vm_compute; reflexivity|].
  destruct (tick_drains 10 cl0 10 (λ i, nth_ctx "f" (secs 300)) (secs 300) t1 empty_db tick1_out.1.1.1 tick1_out.1.1.2
    tick1_out.1.2 tick1_out.2) as (Hwf & _ & _ & Hdue).
  - exact t1_wf.
  - rewrite t1_only. apply map_Forall_singleton. vm_compute. repeat split; discriminate.
  - vm_compute. reflexivity.
  - split; [exact Hwf|]. apply Hdue. vm_compute. reflexivity.
Defined.

Abbreviation fire1 := (fire 10 cl0 10 (nth_ctx "f" (secs 300)) r1 (secs 300) t1 empty_db).
Definition fire1_out : nat * option error * periodics * db := default (0, None, ∅, empty_db) fire1.
Abbreviation fire2 := (fire 10 cl0 10 (nth_ctx "g" (secs 301)) r1 (secs 300) t1 fire1_out.2).
Lemma nth_ctx_fresh p now d :
  (∀ k : nat, jobs d !! String p (pretty k) = None) → fresh_ctxs (nth_ctx p now) 0 d.
Proof. intros Hd. split; [intros k _; split; [done|apply Hd]|]. simpl. intros j k [= E]. by apply (inj pretty). Qed.
Definition starts_with (c : ascii) (id : string) : bool :=
  match id with String a _ => bool_decide (a = c) | EmptyString => false end.
Lemma fire1_ids : map_Forall (λ id _, starts_with "f" id = true) (jobs fire1_out.2).
Proof. refine (bool_decide_unpack _ _). vm_compute. exact I. Qed.
Lemma bucket_fires_once_witness :
  size (jobs fire1_out.2) = 3 ∧
  match fire2 with Some (n, _, _, d) => n = 0 ∧ d = fire1_out.2 | None => False end.
Proof.
  destruct (bucket_fires_once 10 cl0 10 (nth_ctx "f" (secs 300)) r1 (secs 300) t1 empty_db 3 fire1_out.1.2 fire1_out.2)
    as (_ & _ & Hagain).
  - apply nth_ctx_fresh. intros k. apply lookup_empty.
  - vm_compute. reflexivity.
  - split; [vm_compute; reflexivity|]. destruct fire2 as [[[[n e] t] d]|] eqn:E.
    + apply (Hagain cl0 (nth_ctx "g" (secs 301)) t1 fire1_out.2 n e t d).
      * intros k i Hi. exists i. exact Hi.
      * apply nth_ctx_fresh. intros k. destruct (jobs fire1_out.2 !! String "g" (pretty k)) as [r|] eqn:Er; [|done].
        by pose proof (fire1_ids _ _ Er).
      * exact E.
    + assert (is_Some fire2) as [? Hs] by (vm_compute; eauto). congruence.
Defined.

(** A pause, then a change of schedule by another host. *)
Abbreviation paused := (PausePeriodic cc0 "digest" t1 empty_db).
Definition t2 : periodics := match paused with Ok (t, _) => t | Err _ => ∅ end.
Definition pd2 : db := match paused with Ok (_, d) => d | Err _ => empty_db end.
Definition r2 : jobPeriodicRow := default no_row (t2 !! "per0").
Lemma t2_wf : periodics_wf t2.
Proof.
  refine (wf_pstep EvOther t1 empty_db t2 pd2 _ t1_wf). apply (ps_pause cc0 "digest"). vm_compute. reflexivity.
Qed.
Abbreviation updated := (updatePeriodic r2 every90 PeriodicDeclared (secs 160) t2).
Definition t3 : periodics := match updated with Ok t => t | Err _ => ∅ end.
Lemma pause_holds_witness :
  ∃ r', t3 !! "per0" = Some r' ∧ p_IntervalSeconds r' = Some 90%Z ∧ p_PausedAt r' = Some (secs 150) ∧
    due (secs 9999) r' = false.
Proof.
  destruct (pause_holds t2 pd2 t3 pd2 "per0" r2) as (r' & Hr & _ & Hp & Hdue).
  - exact t2_wf.
  - vm_compute. reflexivity.
  - vm_compute. eauto.
  - apply rtc_once. exists EvOther. split; [split; discriminate|].
    apply (ps_update r2 every90 PeriodicDeclared (secs 160)); vm_compute; reflexivity.
  - exists r'. split; [exact Hr|]. split; [|split; [|apply Hdue]].
    + assert (p_IntervalSeconds <$> t3 !! "per0" = Some (Some 90%Z)) as E by (vm_compute; reflexivity).
      rewrite Hr in E. by injection E.
    + assert (pause_of r2 = (Some (secs 150), "user", "ops", "test")) as E by (vm_compute; reflexivity).
      rewrite E in Hp. by injection Hp.
Defined.

Definition cc9 : control := {| cc_ctx := at_ "ctl9" (secs 1000); cc_Actor := cc_Actor cc0; cc_AuditHook := None |}.
Abbreviation resumed := (ResumePeriodic cc9 "digest" t2 pd2).
Definition t9 : periodics := match resumed with Ok (t, _) => t | Err _ => ∅ end.
Definition pd9 : db := match resumed with Ok (_, d) => d | Err _ => empty_db end.
Lemma resume_skips_backlog_witness :
  ∃ r, t9 !! "per0" = Some r ∧ p_PausedAt r = None ∧ p_NextRunAt r = secs 1060 ∧ due (secs 1000) r = false.
Proof.
  destruct (resume_skips_backlog cc9 "digest" t2 pd2 t9 pd9 r2) as (_ & _ & _ & r & Hr & Hp & _ & Hdue & _).
  - exact t2_wf.
  - vm_compute. reflexivity.
  - vm_compute. eauto.
  - vm_compute. repeat split; discriminate.
  - vm_compute. reflexivity.
  - exists r. replace (p_ID r2) with "per0" in Hr by (vm_compute; reflexivity).
    split; [exact Hr|]. split; [exact Hp|]. split; [|exact Hdue].
    assert (p_NextRunAt <$> t9 !! "per0" = Some (secs 1060)) as E by (vm_compute; reflexivity).
    rewrite Hr in E. by injection E.
Defined.

Definition decl0 : declared :=
  {| sd_periodics := [every60; hourly]; sd_reconcileInterval := minute; sd_pending := []; sd_applyFailed := false |}.
Abbreviation reconciled :=
  (ReconcilePeriodics (nth_ctx "r" (secs 500)) (λ _, None) (λ _, false) (secs 500) (λ t, t) decl0 t1).
Lemma reconcile_only_inserts_witness :
  reconciled.1.1 = 1 ∧ t1 ⊆ reconciled.2 ∧ size reconciled.2 = 2 ∧ periodics_wf reconciled.2.
Proof.
  split; [vm_compute; reflexivity|].
  destruct (reconcile_only_inserts (nth_ctx "r" (secs 500)) (λ _, None) (λ _, false) (secs 500) (λ t, t) decl0 t1
    reconciled.1.1 reconciled.1.2 reconciled.2) as (Hsub & Hsize & Hwf & _).
  - repeat constructor.
  - exact t1_wf.
  - split.
    + intros k _. split; [done|]. rewrite t1_only. apply lookup_singleton_ne. discriminate.
    + simpl. intros j k [= E]. by apply (inj pretty).
  - by destruct reconciled as [[? ?] ?].
  - split; [exact Hsub|]. split; [|exact Hwf]. vm_compute. reflexivity.
Defined.

Lemma impossible_cron_hangs_witness :
  insertPeriodic pctx never PeriodicUpserted (secs 100) ∅ = Err (ValidationError "next_run_at") ∧
  ∃ t', UpsertPeriodic pctx (λ _ t, t) never t1 = Ok t' ∧
    ∀ fuel, Tick fuel cl0 10 (λ i, nth_ctx "f" (secs 300)) (secs 300) t' empty_db = None.
Proof.
  apply (impossible_cron_hangs pctx never (λ _, zero_time) t1 r1 cl0 10 (λ i, nth_ctx "f" (secs 300)) (secs 300) empty_db);
    first [exact t1_wf|vm_compute; reflexivity|vm_compute; discriminate].
Defined.

(** ** Retention *)

Definition keep_failures : RetentionRule :=
  {| rule_Kind := ""; rule_State := StateDiscarded; rule_MaxAge := secs 9000 |}.
Definition drop_fanouts : RetentionRule :=
  {| rule_Kind := "fanout"; rule_State := StateOther ""; rule_MaxAge := secs 60 |}.
Definition keep_fanouts : RetentionRule :=
  {| rule_Kind := "fanout"; rule_State := StateSucceeded; rule_MaxAge := secs 900 |}.
Definition retain1 : RetentionOpts :=
  {| rt_BatchSize := 1; rt_MaxBatches := 0; rt_HoldForStatsRollup := false; rt_Rules := [keep_failures; drop_fanouts] |}.
Definition job0 : jobRow := default (buildRow ctx1 0 "" "" zero_opts ([], "")) (jobs d4 !! "job0").

Lemma most_specific_rule_decides_witness :
  retentionCutoff (secs 1000) 0 [drop_fanouts; keep_failures; keep_fanouts] (λ t, t) job0 = true ∧
  retentionCutoff (secs 900) 0 [keep_fanouts; drop_fanouts; keep_failures] (λ t, t) job0 = false ∧
  retentionCutoff (secs 900) 0 [drop_fanouts; keep_failures; keep_fanouts] (λ t, t) job0 = false.
Proof.
  split; [vm_compute; reflexivity|]. split; [vm_compute; reflexivity|].
  destruct (most_specific_rule_decides (secs 900) 0 [keep_fanouts; drop_fanouts; keep_failures] (λ t, t) job0
    ltac:(vm_compute; reflexivity)) as [_ Hperm].
  rewrite (Hperm [drop_fanouts; keep_failures; keep_fanouts]).
  - vm_compute. reflexivity.
  - apply (Permutation_cons_append [drop_fanouts; keep_failures]).
  - vm_compute. reflexivity.
Defined.

Lemma retention_prunes_exactly_witness :
  ∃ d', DeleteFinishedJobsWithOptions 10 (λ _, false) (secs 1000) None 0 retain1 d4 = Some (1%Z, None, d') ∧
    jobs d' !! "job0" = None ∧ size (jobs d') = 1 ∧ db_wf d'.
Proof.
  destruct (retention_prunes_exactly 10 (λ _, false) (secs 1000) None 0 retain1 (λ t, t) d4) as (d' & Hd & Hj & _ & _ & Hwf).
  - vm_compute. reflexivity.
  - reflexivity.
  - vm_compute. discriminate.
  - reflexivity.
  - exact wf4.
  - vm_compute. reflexivity.
  - vm_compute. repeat constructor.
  - exists d'. split; [rewrite Hd; vm_compute; reflexivity|]. rewrite Hj.
    split; [vm_compute; reflexivity|]. split; [vm_compute; reflexivity|exact Hwf].
Defined.

Definition retain2 : RetentionOpts :=
  {| rt_BatchSize := 1; rt_MaxBatches := 1; rt_HoldForStatsRollup := false; rt_Rules := [] |}.
Lemma retention_partial_pass_witness :
  ∃ n d', DeleteFinishedJobsWithOptions 10 (λ _, false) 0 None (secs 30) retain2 d4 = Some (n, None, d') ∧
    (n ≤ 1)%Z ∧ jobs d' ⊆ jobs d4 ∧ db_wf d'.
Proof.
  destruct (retention_partial_pass 10 (λ _, false) 0 None (secs 30) retain2 (λ t, t) d4)
    as (n & e & d' & Hd & Hwf & _ & Hsub & _ & _ & Hmax & He & _).
  - reflexivity.
  - reflexivity.
  - exact wf4.
  - vm_compute. reflexivity.
  - vm_compute. repeat constructor.
  - vm_compute. discriminate.
  - exists n, d'. destruct He as [->|[_ [k Hk]]]; [|discriminate]. split; [exact Hd|].
    split; [exact (Hmax ltac:(reflexivity))|]. split; [exact Hsub|exact Hwf].
Defined.

(** ** Configuration *)

Definition cfg0 : SchedulerConfig :=
  {| sc_DB := true; sc_Client := true; sc_Driver := true; sc_BackfillCap := 0; sc_TickInterval := 0;
     sc_SweepInterval := 0; sc_RetentionMaxAge := secs 7200; sc_RetentionRules := [keep_failures];
     sc_RetentionInterval := 0; sc_RetentionBatchSize := 0; sc_RetentionMaxBatches := 0; sc_AuditRetention := 0;
     sc_HealthSampleInterval := 0; sc_QueueSampleInterval := 0; sc_QueueSampleRetention := 0;
     sc_StatsRollupInterval := minute; sc_StatsRollupGrace := 0; sc_StatsMaxHoursPerPass := 0;
     sc_StatsRetention := 0; sc_Periodics := [every60; hourly]; sc_ReconcileInterval := 0 |}.
Abbreviation configured := (NewSchedulerWithConfig cfg0).
Definition no_scheduler : SchedulerState :=
  {| ss_backfillCap := 0; ss_tickInterval := 0; ss_sweepInterval := 0; ss_retentionMaxAge := 0;
     ss_auditRetention := 0; ss_retentionInterval := 0; ss_retentionOpts := zero_retention;
     ss_healthSampleInterval := 0; ss_queueSampleInterval := 0; ss_queueSampleRetention := 0;
     ss_statsInterval := 0; ss_statsCfg := {| rc_grace := 0; rc_maxHours := 0; rc_retention := 0 |};
     ss_declared := decl0 |}.
Definition sched0 : SchedulerState := match configured with Ok s => s | Err _ => no_scheduler end.
Lemma sched0_ok : configured = Ok sched0.
Proof. vm_compute. reflexivity. Qed.

Lemma scheduler_config_sound_witness :
  act_name <$> activities sched0 = ["periodic"; "sweep"; "retention"; "stats"; "reconcile"] ∧
  ∀ a, a ∈ activities sched0 → (0 < act_interval a)%Z.
Proof.
  split; [vm_compute; reflexivity|].
  destruct (scheduler_config_sound cfg0 sched0) as [Hpos _].
  - exact sched0_ok.
  - vm_compute. split; discriminate.
  - exact Hpos.
Defined.

Definition progress0 : statsProgress := {| sp_From := 0; sp_To := secs 3600; sp_RetainFrom := 0; sp_Version := 1 |}.
Lemma prune_respects_windows_witness :
  ∃ n e d', PruneRetention 10 (λ _, false) (secs 8000) (secs 8000) (Some progress0) sched0 d4 = Some (n, e, d') ∧
    jobs d' !! "job0" = None ∧ finalized_before (secs 3600) job0 = true ∧ db_wf d'.
Proof.
  destruct (prune_respects_windows cfg0 sched0 10 (λ _, false) (secs 8000) (secs 8000) (Some progress0) d4 "job0" job0)
    as (n & e & d' & Hd & Hwf & Hgone).
  - exact sched0_ok.
  - exact wf4.
  - vm_compute. reflexivity.
  - vm_compute. repeat constructor.
  - vm_compute. reflexivity.
  - assert (jobs d' !! "job0" = None) as Hn.
    { assert (match PruneRetention 10 (λ _, false) (secs 8000) (secs 8000) (Some progress0) sched0 d4 with
              | Some (_, _, x) => jobs x !! "job0" = None | None => False end) as E by (vm_compute; reflexivity).
      by rewrite Hd in E. }
    exists n, e, d'. split; [exact Hd|]. split; [exact Hn|]. split; [|exact Hwf].
    destruct (Hgone Hn) as (_ & _ & _ & Hst). destruct (Hst ltac:(vm_compute; reflexivity)) as (p & Hp & _ & Hf).
    injection Hp as <-. exact Hf.
Defined.

(** ** Histograms *)

Definition hist0 : list Z := observe_all newHistogram [0; 3; 1500; 1500; 90000000]%Z.
Lemma hist_roundtrip_witness :
  marshal hist0 = "[[0,1],[2,1],[38,2],[102,1]]" ∧ parseSparseHist (marshal hist0) = Ok hist0.
Proof.
  split; [vm_compute; reflexivity|].
  apply (hist_roundtrip hist0); [vm_compute; reflexivity|].
  refine (bool_decide_unpack _ _). vm_compute. exact I.
Defined.
