(* ===== verification/RunnerRuns.v ===== *)
(** * Concrete runs of the runner

    The theorems of Pool and Runner that have hypotheses, applied at concrete
    configurations, loops and attempts: a pool that claims, is stopped and drains; a
    job of no kind; a drain against a dead database; a worker that panics, and one
    whose job an operator cancels under it. *)

From S2P Require Import Prelude Types Text Fingerprint Store Plan Insert Barrier Finalize Claim Sweep Client Controls Pool Runner Quiet Machine Witnesses.

#[local] Existing Instance toy_foundation.
#[local] Existing Instance toy_golib.
#[local] Existing Instance doubling_backoff.
#[local] Existing Instance doubling_backoff_laws.
#[local] Existing Instance stored_order.

(** ** The pool *)

(** Two slots: one job claimed under one of two permits, Stop, and the drain. *)
Abbreviation pool_step1 := (rstep true 2).
Definition pool_path : list (runner_st → runner_st) :=
  [ (λ s, loop_to (match reserve 2 (rs_pool s) with Some (_, p) => p | None => rs_pool s end) (LHeld 2) 0 0 s);
    (λ s, loop_to (rs_pool s) (LChecked 2) 0 0 s);
    (λ s, loop_to (runner_admit true (LimiterGranted 2) 2 (rs_pool s)).2 (LGranted 2 2) 2 0 s);
    (λ s, claimed 2 1 (loop_to (settle_claim 2 2 1 (rs_pool s)).2 (LStart 1 1) 0 1 s));
    (λ s, {| rs_pool := with_running 1 (rs_pool s); rs_loop := LStart 0 0; rs_jobs := rs_jobs s ++ [JRun true];
             rs_acquired := rs_acquired s; rs_released := rs_released s; rs_stop := rs_stop s;
             rs_claims := rs_claims s; rs_over := rs_over s |});
    (λ s, {| rs_pool := rs_pool s; rs_loop := rs_loop s; rs_jobs := rs_jobs s; rs_acquired := rs_acquired s;
             rs_released := rs_released s; rs_stop := true; rs_claims := rs_claims s; rs_over := rs_over s |});
    (λ s, loop_to (rs_pool s) LTop 0 0 s);
    (λ s, loop_to (rs_pool s) LDone 0 0 s);
    (λ s, job_to (rs_pool s) 0 JEnded 1 s);
    (λ s, job_to (with_running (-1) (rs_pool s)) 0 JFree 0 s);
    (λ s, job_to (release 1 (rs_pool s)) 0 JGone 0 s) ].
Definition pool_at (n : nat) : runner_st := foldl (λ s f, f s) (runner_init 2) (take n pool_path).

Lemma pool_moves n : n < 11 → pool_step1 (pool_at n) (pool_at (S n)).
Proof.
  intros Hn. destruct n as [|[|[|[|[|[|[|[|[|[|[|n]]]]]]]]]]]; [clear Hn..|lia].
  - eapply rs_reserve; [by left|reflexivity].
  - by apply rs_checked.
  - by eapply (rs_admit _ _ _ 2 (LimiterGranted 2)).
  - by apply (rs_claim _ _ (pool_at 3) 2 2 1 1).
  - by apply (rs_start _ _ (pool_at 4) 1 1).
  - apply rs_stops.
  - by eapply rs_started.
  - by apply rs_end.
  - by apply (rs_job_ends _ _ _ 0 true).
  - by apply rs_job_counted.
  - by apply rs_job_freed.
Qed.
Lemma pool_reaches n m : n ≤ m → m ≤ 11 → rtc pool_step1 (pool_at n) (pool_at m).
Proof.
  induction m as [|m IH]; intros Hn Hm; [by replace n with 0 by lia|].
  destruct (decide (n = S m)) as [->|]; [done|]. eapply rtc_r; [apply IH; lia|apply pool_moves; lia].
Qed.

Lemma runner_accounts_witness :
  po_held (rs_pool (pool_at 5)) = 1%Z ∧ po_running (rs_pool (pool_at 5)) = 1%Z ∧
  (rs_acquired (pool_at 5) - rs_released (pool_at 5) = 1)%Z ∧
  (0 ≤ po_running (rs_pool (pool_at 5)) ≤ po_held (rs_pool (pool_at 5)))%Z.
Proof.
  destruct (runner_accounts true 2 2 (pool_at 5) (pool_reaches 0 5 ltac:(lia) ltac:(lia)))
    as (_ & Hh & Hr & Hle & _ & _ & Hp & _). rewrite Hh, Hr, Hp. split_and!; first [reflexivity|apply Hle|done].
Defined.

Lemma stop_ends_claiming_witness :
  rs_claims (pool_at 11) ≤ S (rs_claims (pool_at 6)) ∧
  count_jobs_at executing (rs_jobs (pool_at 11)) = 0%Z ∧ rs_acquired (pool_at 11) = rs_released (pool_at 11).
Proof.
  destruct (stop_ends_claiming true 2 2 (pool_at 6) (pool_at 11)) as [Hc _];
    [apply (pool_reaches 0 6); lia|reflexivity|apply pool_reaches; lia|].
  destruct (stop_ends_claiming true 2 2 (pool_at 11) (pool_at 11)) as [_ Hd];
    [apply (pool_reaches 0 11); lia|reflexivity|apply rtc_refl|].
  destruct (Hd eq_refl eq_refl) as (He & _ & _ & Hx). split_and!; done.
Defined.

(** ** Configuration and the poll loop *)

Definition zero_config : RunnerConfig :=
  {| rc_DB := true; rc_Driver := Some PostgresDriver; rc_Registry := true; rc_UnknownKindGrace := 0;
     rc_Queues := ["default"; "mail"]; rc_QueueStateRefresh := 0; rc_ExecutorClass := ""; rc_LeaseDuration := 0;
     rc_HeartbeatInterval := 0; rc_CooperativeCancel := true; rc_PollInterval := 0; rc_MaxPollBackoff := 0;
     rc_Concurrency := 4; rc_ClaimBatchSize := 0; rc_RetryBackoffBase := 0; rc_MaxRetryBackoff := 0;
     rc_DefaultTimeout := 0; rc_Limiter := false; rc_Resource := ""; rc_LimiterFailClosed := false;
     rc_LimiterStarvationInterval := 0 |}.
Definition cfg1 : RunnerConfig := match NewRunner zero_config with Ok (c, _) => c | Err _ => zero_config end.
Definition pool1 : pool := match NewRunner zero_config with Ok (_, p) => p | Err _ => newPool 0 end.

Lemma runner_config_sound_witness :
  po_size pool1 = 4%Z ∧ rc_MaxPollBackoff cfg1 = secs 30 ∧ heartbeatInterval cfg1 = secs 10 ∧
  (2 * rc_PollInterval cfg1 ≤ rc_MaxPollBackoff cfg1)%Z.
Proof.
  destruct (runner_config_sound zero_config cfg1 pool1 eq_refl) as (_ & _ & _ & Hs & _ & _ & _ & Hl & _).
  rewrite Hs. split_and!; [reflexivity..|]. by apply Hl.
Defined.

Definition paused_row : queue_row := {| q_Queue := "mail"; q_PausedAt := Some (secs 1); q_MaxConcurrency := Some 2%Z |}.
Definition seen := claimable cfg1 (secs 5) (ReadRows [paused_row]) zero_queueState pool1.
Lemma claimable_reads_witness : seen.1.1 = ["default"] ∧ po_limit seen.2 = 2%Z.
Proof.
  pose proof (claimable_reads cfg1 (secs 5) (ReadRows [paused_row]) zero_queueState pool1 ltac:(done)) as Hc.
  change (claimable _ _ _ _ _) with seen in Hc. destruct seen as [[q s] p] eqn:E.
  destruct Hc as (_ & _ & _ & Hrows & _). destruct (Hrows eq_refl) as (_ & _ & _ & Hl).
  cbn [fst snd]. split; [|by rewrite Hl]. vm_compute in E. by injection E as <- _ _.
Defined.

Definition nothing_idle : idle_obs :=
  {| io_pool := WaitDone; io_errs := false; io_pending := None; io_sleep := WaitDone |}.
Definition dead_poll : iteration :=
  {| it_ctx := false; it_stop := false; it_queues := true; it_reserve := RsvSlots; it_stop2 := false;
     it_gate := GateProceed None; it_errs := false; it_idle := nothing_idle |}.
Lemma run_until_idle_gives_up_witness :
  polls_to_give_up (rc_PollInterval cfg1) (rc_MaxPollBackoff cfg1) = 10%Z ∧
  run cfg1 true (replicate 9 dead_poll) 0 = None ∧
  ∃ o, run cfg1 true (replicate 12 dead_poll) 0 = Some (o, Some (RunPollFailed 10)).
Proof.
  assert (∀ n, Forall poll_failed (replicate n dead_poll)) as Hall.
  { intros n. apply Forall_replicate. right. by auto 10. }
  split; [reflexivity|]. split.
  - exact (proj2 (run_until_idle_gives_up zero_config cfg1 pool1 (replicate 9 dead_poll) eq_refl ltac:(done) (Hall 9))).
  - exact (proj2 (run_until_idle_gives_up zero_config cfg1 pool1 (replicate 12 dead_poll) eq_refl ltac:(done) (Hall 12))).
Defined.

(** ** A job of no kind *)

Definition orphan (attempt : Z) : RawJob := rawFromRow (buildRow ctx1 0 "ghost" "" zero_opts ([], "")) attempt "tok".
(** The instant the ladder's n-th claim finds the job due. *)
Definition due_at (n : nat) : Z := (raw_CreatedAt (orphan 1) + Z.min (unknownKindGrace cfg1) (deferral_sum n))%Z.
Definition orphan_history (n k : nat) : list (RawJob * Z) :=
  (λ i, (orphan (Z.of_nat i + 1), due_at i)) <$> seq k n.

Lemma orphan_history_runs : orphan_runs cfg1 (orphan_history 21 0).
Proof.
  repeat first [ apply orphan_none | apply orphan_last
               | eapply orphan_next; [vm_compute; reflexivity|vm_compute; discriminate|reflexivity|reflexivity|] ].
Qed.

Lemma unknown_kind_rows_witness :
  length (orphan_history 21 0) = 21 ∧ length (orphan_history 21 0) ≤ 21.
Proof.
  split; [reflexivity|].
  refine (proj2 (unknown_kind_rows cfg1 (tail (orphan_history 21 0)) (orphan 1) (due_at 0) orphan_history_runs _ _ _) _);
    vm_compute; done.
Defined.

(** ** Attempts *)

Definition boom : registryEntry :=
  {| e_Unmarshal := λ _, None; e_Work := λ _ _, Panicked "boom" "main.go:1"; e_classifier := None;
     e_retryable := None; e_defaults := None; e_timeouter := None |}.
Definition reg1 : entries := {[ "fanout" := boom ]}.
Definition ticking : attempt := {| at_before := [HbTick (at_ "hb" (secs 22)) false false]; at_after := [HostCancels] |}.
Abbreviation dispatch1 := (dispatch id (λ _, "") opts0 cfg1 reg1 None "exec").

Lemma wf2 : db_wf d2.
Proof. apply (inv_wf s2), (step_invariant _ _ _ s1 s2 step2), (step_invariant _ _ _ initial s1 step1), initial_invariant. Qed.


(** An operator cancels the job while its worker runs; the next heartbeat notices. *)
Definition operator_cancels (d : db) : db :=
  match CancelJob cc0 (raw_ID raw1) d with Ok d' => d' | Err _ => d end.
Definition cancelled_under : attempt :=
  {| at_before := [Others operator_cancels; HbTick (at_ "hb" (secs 22)) false false]; at_after := [] |}.
Definition cancelled_run := dispatch1 ctx2 "run1" (secs 20) (secs 25) raw1 cancelled_under d2.
Definition cancelled_evs : list obs_event := match cancelled_run.1 with Ok evs => evs | Err _ => [] end.

Lemma operator_cancels_sane : sane (Others operator_cancels).
Proof.
  intros d Hd. unfold operator_cancels. destruct (CancelJob _ _ _) as [d'|] eqn:E; [|done]. by eapply wf_Cancel.
Qed.

Lemma dispatch_reports_witness :
  ∃ run, job_runs cancelled_run.2 !! "run1" = Some run ∧ r_Superseded run = true ∧
    cancelled_evs = [OnStart (raw_ID raw1) "run1" 1; OnSupersede OutcomeCancelled StateCancelled (secs 5) "tok0"].
Proof.
  destruct (dispatch_reports id (λ _, "") opts0 cfg1 reg1 None "exec" ctx2 "run1" (secs 20) (secs 25) raw1
    cancelled_under d2 cancelled_evs cancelled_run.2) as (_ & d1' & rest & Hs & _ & run & Hrun & _ & _ & Hheld & _).
  - vm_compute. reflexivity.
  - apply wf2.
  - constructor; [apply operator_cancels_sane|by repeat constructor].
  - exists run. split_and!; [done| |vm_compute; reflexivity].
    revert Hrun. vm_compute. by intros [= <-].
Defined.
