(* ===== verification/BulkRuns.v ===== *)
(** * Concrete replays, bulk runs, listings and ids

    The theorems of the replay, bulk, query and id files applied at small tables:
    three jobs, two of them cancelled under one active key, replayed, retried in
    bulk one per batch, and listed page by page. *)

From Stdlib Require Import Ascii.
From stdpp Require Import pretty countable.
From S2P Require Import Prelude Types Text Json Fingerprint Store Plan Insert Barrier Finalize Claim Sweep Client Controls Retention Batch Replay Ids Base64 Query Bulk BulkWalk BulkRun Witnesses.

#[local] Existing Instance toy_foundation.
#[local] Existing Instance toy_golib.
#[local] Existing Instance doubling_backoff.
#[local] Existing Instance stored_order.

(** ** A cursor codec *)

(** A number as binary digits, and back. *)
Fixpoint bits (p : positive) : string :=
  match p with
  | xH => ""
  | xO p => String "0"%char (bits p)
  | xI p => String "1"%char (bits p)
  end.
Fixpoint unbits (s : string) : positive :=
  match s with
  | String c s => if Ascii.eqb c "0"%char then xO (unbits s) else xI (unbits s)
  | EmptyString => xH
  end.
Lemma unbits_bits p : unbits (bits p) = p.
Proof. induction p as [p IH|p IH|]; simpl; by rewrite ?IH. Qed.

Definition sort_code (s : JobSort) : nat + string :=
  match s with
  | JobSortNewest => inl 0 | JobSortOldest => inl 1 | JobSortFinished => inl 2 | JobSortScheduled => inl 3
  | JobSortOther s => inr s
  end.
Definition sort_of (c : nat + string) : JobSort :=
  match c with
  | inl 0 => JobSortNewest | inl 1 => JobSortOldest | inl 2 => JobSortFinished | inl _ => JobSortScheduled
  | inr s => JobSortOther s
  end.
Lemma sort_of_code s : sort_of (sort_code s) = s. Proof. by destruct s. Qed.

#[local] Instance toy_query : QueryLib :=
  {| jsonb_contains _ _ := true; ilike text pattern := bool_decide (text = pattern);
     marshalCursor c := Some (bits (encode (sort_code (qc_Sort c), qc_Time c, qc_ID c)));
     unmarshalCursor s :=
       '(k, t, id) ← decode (A := (nat + string) * option Z * string) (unbits s);
       Some {| qc_Sort := sort_of k; qc_Time := t; qc_ID := id |} |}.
#[local] Instance toy_query_laws : QueryLibLaws.
Proof.
  intros [s t id] b [= <-]. simpl. rewrite unbits_bits, countable.decode_encode. simpl. by rewrite sort_of_code.
Qed.

(** ** The tables *)

Definition cancel_m : db := ok_db' (CancelJob cc0 "m0" e3).
Abbreviation third := (insert_once cl0 (at_ "n" (secs 3)) "report" "{}" zero_opts InsertSourceClient "" cancel_m).
Definition e5 : db := ok_db third.
Lemma wf_e5 : db_wf e5.
Proof.
  assert (CancelJob cc0 "m0" e3 = Ok cancel_m) as Hc by (vm_compute; reflexivity).
  apply (wf_insert_once cl0 (at_ "n" (secs 3)) "report" "{}" zero_opts InsertSourceClient "" cancel_m (Some "n0")).
  - unfold fresh_id. refine (bool_decide_unpack _ _). vm_compute. exact I.
  - vm_compute. reflexivity.
  - exact (wf_Cancel _ _ _ _ Hc wf_e3).
Qed.

Definition ccs0 : nat → control := λ _, cc0.
Definition uncancelled : nat → bool := λ _, false.
(** The second attempt meets a deadlock; no one else writes. *)
Definition one_deadlock : nat → interference := λ k,
  {| iv_read := id; iv_lock := id; iv_update := id; iv_fail := if k =? 1 then Some ErrDeadlock else None |}.
Lemma one_deadlock_patient : patient one_deadlock.
Proof.
  split.
  - done.
  - intros k e. simpl. destruct (k =? 1); [by intros [= <-]|done].
  - intros k. destruct (Nat.eqb_spec k 1) as [->|Hk].
    + by exists 1; split; [unfold replayBatchRetries; lia|].
    + exists 0. split; [lia|]. simpl. rewrite Nat.add_0_r. by rewrite (proj2 (Nat.eqb_neq _ _) Hk).
Qed.

(** ** Bulk *)

Definition reports : JobQuery :=
  {| q_IDs := []; q_States := []; q_Kinds := ["report"]; q_Queues := []; q_Tags := []; q_ParentJobID := "";
     q_PriorityMin := None; q_PriorityMax := None; q_AttemptMin := None; q_AttemptMax := None;
     q_CreatedFrom := zero_time; q_CreatedTo := zero_time; q_ScheduledFrom := zero_time;
     q_ScheduledTo := zero_time; q_FinalizedFrom := zero_time; q_FinalizedTo := zero_time;
     q_ArgsContains := ""; q_MetadataContains := ""; q_ErrorClasses := []; q_Fingerprint := "";
     q_ErrorContains := ""; q_Sort := JobSortOther ""; q_Cursor := ""; q_Limit := 2 |}.
Definition retry_all (max : Z) : BulkSpec :=
  {| bk_Query := reports; bk_IDs := []; bk_Action := BulkRetry; bk_DryRun := false; bk_MaxJobs := max;
     bk_BatchSize := 1; bk_After := ""; bk_MaxID := ""; bk_OperationID := "op"; bk_RescheduleAt := zero_time;
     bk_Retry := force; bk_Stagger := secs 30 |}.
Definition run_of (r : res bulkRun) : option bulkRun := match r with Ok run => Some run | Err _ => None end.
Definition resolved_run (s : BulkSpec) : bulkRun :=
  default {| br_spec := s; br_actor := actor0; br_maxJobs := 0; br_batchSize := 0; br_ids := []; br_sources := [];
             br_now := 0 |} (run_of (newBulkRun cc0 "postgres" s)).
Abbreviation run5 b := (resolved_run (with_dry b (retry_all 10))).



Lemma bulk_too_large_witness :
  ∃ res, BulkJobs 10 ccs0 one_deadlock false uncancelled "postgres" (with_dry false (retry_all 2)) e5 =
      Some (res, Some ErrBulkTooLarge, e5) ∧ bu_Matched res = 2%Z ∧ bu_Changed res = 0%Z.
Proof.
  destruct (bulk_too_large ccs0 one_deadlock uncancelled "postgres" (retry_all 2) e5)
    with (fuel := 10) (run' := resolved_run (with_dry false (retry_all 2))) as (res & Hr & Hm & _ & Hc & _).
  - exact wf_e5.
  - vm_compute. reflexivity.
  - refine (bool_decide_unpack _ _). vm_compute. exact I.
  - exists res. split; [exact Hr|]. split; [exact Hm|exact Hc].
Defined.

Abbreviation bulk5 := (BulkJobs 10 ccs0 one_deadlock false uncancelled "postgres" (with_dry false (retry_all 10)) e5).
Definition bulk5_out : BulkResult * option error * db := default (zero_bulk, None, e5) bulk5.
Lemma bulk_within_limit_witness : db_wf bulk5_out.2 ∧ (0 ≤ bu_Changed bulk5_out.1.1 ≤ 10)%Z.
Proof.
  destruct (bulk_within_limit 10 ccs0 one_deadlock false uncancelled "postgres" (with_dry false (retry_all 10)) (run5 false)
    e5 bulk5_out.1.1 bulk5_out.1.2 bulk5_out.2) as (Hwf & Hch & _).
  - vm_compute. reflexivity.
  - intros k d Hd. split_and!; exact Hd.
  - exact wf_e5.
  - vm_compute. reflexivity.
  - split; [exact Hwf|exact Hch].
Defined.

(** Another connection enqueues a third job under the key between the batch's lock
    and its UPDATE. *)
Definition rival : db → db := λ d,
  ok_db (insert_once cl0 (at_ "z" (secs 160)) "report" "{}" keyed_opts InsertSourceClient "" d).
Definition rival_iv : interference := {| iv_read := id; iv_lock := id; iv_update := rival; iv_fail := None |}.
Definition st5 : bulkState := start_state (run5 false) 3.
Abbreviation raced := (applyBatch cc0 rival_iv (run5 false) st5 ["k0"] e5).
Lemma wf_rival : db_wf (rival e5).
Proof.
  apply (wf_insert_once cl0 (at_ "z" (secs 160)) "report" "{}" keyed_opts InsertSourceClient "" e5 (Some "z0")).
  - unfold fresh_id. refine (bool_decide_unpack _ _). vm_compute. exact I.
  - vm_compute. reflexivity.
  - exact wf_e5.
Qed.

Lemma bulk_batch_safe_witness :
  ∃ b, raced.1 = Ok b ∧ db_wf raced.2 ∧ length (ba_changed b) + length (ba_skips b) ≤ length (ba_rows b).
Proof.
  assert (resolved (run5 false)) as Hrv.
  { apply (newBulkRun_resolved cc0 "postgres" (with_dry false (retry_all 10))). vm_compute. reflexivity. }
  destruct raced as [out d'] eqn:E.
  destruct (bulk_batch_safe cc0 rival_iv (run5 false) st5 ["k0"] e5 out d' Hrv E) as [Hwf Hout].
  - exact wf_e5.
  - exact wf_rival.
  - intros c Hc. vm_compute in Hc. apply list_elem_of_singleton in Hc as ->. vm_compute. reflexivity.
  - destruct out as [b|e].
    + exists b. split; [reflexivity|]. split; [exact Hwf|exact (proj1 Hout)].
    + exfalso. apply (f_equal fst) in E. vm_compute in E. discriminate E.
Defined.

(** The raced job is tallied by state and by kind, but is neither among the changed
    nor given a skip reason. *)
Theorem raced_job_unaccounted :
  ∃ b, raced.1 = Ok b ∧ length (ba_rows b) = 1 ∧ ba_changed b = [] ∧ ba_skips b = [].
Proof.
  destruct raced.1 as [b|e] eqn:E; vm_compute in E; [|discriminate E]. injection E as <-.
  eexists. split; [reflexivity|]. split_and!; reflexivity.
Qed.

(** ** Replay *)

Definition replay_reports : ReplayOpts :=
  {| rp_Retry := force; rp_States := [StateCancelled]; rp_Kinds := ["report"]; rp_FailedSince := zero_time;
     rp_Stagger := secs 30; rp_BatchSize := 1 |}.
Abbreviation scope5 := (applyKindFilter ["report"]).
Definition via5 : auditScope := {| as_via := "replay"; as_parentJobID := "" |}.
Lemma replay_admitted : admitted replay_reports.
Proof. split; [reflexivity|]. left. reflexivity. Qed.


Abbreviation replay_raced :=
  (replayBatch cc0 rival_iv scope5 replay_reports "" 1 (secs 150) (secs 150) 2 0 actor0 via5 e5).
Lemma replay_batch_safe_witness : db_wf replay_raced.2.
Proof.
  destruct replay_raced as [out d'] eqn:E.
  destruct (replay_batch_safe cc0 rival_iv scope5 replay_reports "" 1 (secs 150) (secs 150) 2 0 actor0 via5 e5 out d'
    replay_admitted E) as [Hwf _].
  - exact wf_e5.
  - exact wf_rival.
  - exact Hwf.
Defined.

(** ** Listing *)

Definition newest_reports : JobQuery := with_cursor "" reports.

Definition cursor_k0 : queryCursor := {| qc_Sort := JobSortScheduled; qc_Time := Some (secs 1); qc_ID := "k0" |}.
Definition raw_k0 : string := match encodeQueryCursor cursor_k0 with Ok raw => raw | Err _ => "" end.
