(* ===== verification/StatsRuns.v ===== *)
(** * Concrete runs: the stats rollup and the stats reads

    Two jobs and three finished runs over six hours, rolled up and read back. *)

From stdpp Require Import pretty.
From S2P Require Import Prelude Types Text Json Fingerprint Store Plan Insert Barrier Finalize Claim Sweep Client Controls Periodic Scheduler Retention Ids Hist Maintenance Rollup RollupFacts RollupWindows GroupFacts RollupHours Stats StatsFacts RollupWalks RollupPass RollupRebuild Quiet Machine Witnesses.

#[local] Existing Instance toy_foundation.
#[local] Existing Instance toy_golib.
#[local] Existing Instance stored_order.

Local Open Scope Z_scope.

Definition sa_job1 : string := "00000000-0000-7000-8000-000000000001".
Definition sa_job2 : string := "0000006d-dd05-7000-8000-000000000002".
Definition sa_ctx (id : string) (now : Z) : context :=
  {| c_Now _ := now; c_NewID _ := id; c_RequestID := ""; c_Registry := None; c_Hook := None; c_GormNow := now |}.
Definition sa_jobs : db :=
  ok_db (client_insert cl0 (sa_ctx sa_job2 (2 * hour)) "mail" "{}" zero_opts InsertSourceClient ""
    (ok_db (client_insert cl0 (sa_ctx sa_job1 0) "report" "{}" zero_opts InsertSourceClient "" empty_db))).
Definition sa_run (id job kind : string) (outcome : RunOutcome) (finished : Z) (dur : option Z) : jobRunRow :=
  {| r_ID := id; r_JobID := job; r_Attempt := 1; r_Kind := kind; r_Queue := "default"; r_ExecutorClass := "";
     r_ExecutorID := "exec"; r_StartedAt := finished - second; r_FinishedAt := Some finished; r_Outcome := outcome;
     r_ErrorClass := None; r_ErrorMessage := None; r_ErrorPayload := None; r_Output := None; r_DurationMs := dur;
     r_QueueWaitMs := Some 40; r_CostMicros := Some 7; r_EnqueuedChildren := 0; r_ErrorFingerprint := None;
     r_JobState := Some StateSucceeded; r_Superseded := false; r_CreatedAt := finished - second |}.
Definition sa_db : db :=
  with_finishes {[ (hour + secs 10, "run-a"); (2 * hour + secs 1, "run-b"); (5 * hour, "run-c") ]}
    (with_runs
       (<["run-a" := sa_run "run-a" sa_job1 "report" OutcomeSuccess (hour + secs 10) (Some 5000)]>
        (<["run-b" := sa_run "run-b" sa_job2 "mail" OutcomeTimeout (2 * hour + secs 1) (Some 30)]>
         {["run-c" := sa_run "run-c" sa_job2 "mail" OutcomeSuccess (5 * hour) (Some 900)]})) sa_jobs).

Lemma sa_regular : regular sa_db.
Proof.
  split.
  - assert (map_Forall (λ _ r, id_shaped (j_ID r) = true) (jobs sa_db)) as Hm; [|exact Hm].
    apply (bool_decide_unpack _). vm_compute. exact I.
  - assert (map_Forall (λ _ r, j_Kind r ≠ "" ∧ j_Queue r ≠ "") (jobs sa_db)) as Hm; [|exact Hm].
    apply (bool_decide_unpack _). vm_compute. exact I.
  - assert (map_Forall (λ _ r, 0 ≤ default 0 (r_DurationMs r)) (job_runs sa_db)) as Hm.
    { apply (bool_decide_unpack _). vm_compute. exact I. }
    intros id r ms Hr Hms. specialize (Hm id r Hr). simpl in Hm. by rewrite Hms in Hm.
  - vm_compute. discriminate.
Qed.

(** The world in which nothing else happens. *)
Definition sa_world : world := {| w_db _ := sa_db; w_others _ s := s; w_cancelled _ := false |}.
Definition sa_now : Z := 6 * hour + 10 * minute.
Definition sa_cfg : rollupConfig := {| rc_grace := 5 * minute; rc_maxHours := 10; rc_retention := 24 * hour |}.
Definition sa_pass (cfg : rollupConfig) (s : rollups) : option (RollupResult * option error * rollups) :=
  rollupPass 40 sa_world sa_now cfg 0 s.
Definition sa_state (o : option (RollupResult * option error * rollups)) : rollups :=
  match o with Some (_, _, s) => s | None => no_rollups end.
Definition sa_result (o : option (RollupResult * option error * rollups)) : RollupResult :=
  match o with Some (r, _, _) => r | None => zero_rollup end.
Definition sa_rolled : rollups := sa_state (sa_pass sa_cfg no_rollups).
Definition sa_report : RollupResult := sa_result (sa_pass sa_cfg no_rollups).

Example sa_report_hours : rs_Rolled sa_report = [0; hour; 2 * hour; 5 * hour] ∧ rs_CaughtUp sa_report = true.
Proof. vm_compute. done. Qed.

Lemma sa_pass_eq : sa_pass sa_cfg no_rollups = Some (sa_report, None, sa_rolled).
Proof. vm_compute. reflexivity. Qed.
Lemma sa_same a b n : same_hours a b sa_db (w_db sa_world n).
Proof. intros h _ _ _. by split. Qed.


Lemma pass_ends_witness : ∃ fuel0, ∀ fuel, (fuel0 ≤ fuel)%nat → rollupPass fuel sa_world sa_now sa_cfg 0 no_rollups ≠ None.
Proof. exact (pass_ends sa_world sa_db (λ _, sa_regular) (λ _ s Hs, Hs) sa_now sa_cfg 0 no_rollups (no_rollups_sound sa_db)). Defined.

Lemma pass_reports_witness :
  rs_Hours sa_report ≤ 10 ∧ ∃ q, ro_progress sa_rolled = Some q ∧ sp_From q ≤ -18 * hour ∧ 6 * hour ≤ sp_To q.
Proof.
  destruct (pass_reports sa_world 40 sa_now sa_cfg 0 no_rollups sa_report sa_rolled) as (Hb & _ & Hc).
  - intros n s. apply widens_refl.
  - exact sa_pass_eq.
  - split; [apply Hb; done|]. destruct Hc as [(q & Hq & Hf & Ht) _]; [vm_compute; reflexivity|].
    exists q. split; [done|]. split; [exact Hf|exact Ht].
Defined.

(** A range rolled by a walk, read back over a window that starts and ends inside an hour. *)
Definition sa_start : rollups := ensureStatsProgress 0 no_rollups.
Definition sa_walk : option walk_result := rollForward sa_world sa_now false 0 20 0 (6 * hour) (walk_from 0) sa_start.
Definition sa_walked : rollups := match sa_walk with Some (_, _, _, s) => s | None => no_rollups end.
Definition sa_walk_end : rollWalk * nat :=
  match sa_walk with Some (a, _, n, _) => (a, n) | None => (walk_from 0, 0%nat) end.
Lemma sa_walk_eq :
  rollForward sa_world sa_now false 0 20 0 (6 * hour) (walk_from 0) sa_start =
  Some (sa_walk_end.1, None, sa_walk_end.2, sa_walked).
Proof. vm_compute. reflexivity. Qed.
Lemma sa_walked_sound : sound sa_db sa_walked.
Proof.
  refine (rollForward_sound sa_world sa_now false sa_db (λ _, sa_regular) (λ _ s Hs, Hs) 0 20 0 (6 * hour)
    (walk_from 0) sa_start _ _ _ _ _ _ (sa_same _ _) _ sa_walk_eq).
  - by exists 0.
  - by exists 6.
  - apply ensure_sound; [apply no_rollups_sound|by exists 0].
Qed.
Definition sa_params : StatsParams :=
  {| pa_From := 30 * minute; pa_To := 6 * hour + 5 * minute; pa_Kind := ""; pa_Queue := ""; pa_MaxRawSpan := hour;
     pa_GroupBy := "" |}.
Definition sa_stats : StatsResult :=
  match Stats sa_db sa_walked sa_params with
  | Ok r => r
  | Err _ => {| sr_From := 0; sr_To := 0; sr_Kinds := []; sr_Total := kindStatsFromAgg (newRunAgg "" "");
                sr_Coverage := {| co_RolledFrom := 0; co_RolledThrough := 0; co_RawFrom := 0; co_RawTo := 0;
                                  co_RawSpan := 0 |} |}
  end.
Lemma stats_hybrid_witness :
  ((λ k, (ks_Kind k, ks_Attempts k, ks_Enqueued k)) <$> sr_Kinds sa_stats) = [("mail", 2, 1); ("report", 1, 0)] ∧
  co_RolledThrough (sr_Coverage sa_stats) = 6 * hour ∧ co_RawSpan (sr_Coverage sa_stats) = 35 * minute ∧
  ∃ r', read_raw sa_db sa_params = Ok r' ∧ sr_Kinds sa_stats = sr_Kinds r' ∧ sr_Total sa_stats = sr_Total r'.
Proof.
  split; [vm_compute; reflexivity|]. split; [vm_compute; reflexivity|]. split; [vm_compute; reflexivity|].
  assert (Stats sa_db sa_walked sa_params = Ok sa_stats) as He by (vm_compute; reflexivity).
  pose proof (stats_hybrid sa_db sa_regular sa_walked sa_params sa_walked_sound ltac:(vm_compute; reflexivity)) as Hh.
  rewrite He in Hh. exact Hh.
Defined.

(** ** Rebuilds *)

Definition sa_opts : RebuildOpts := {| ro_From := hour; ro_To := 3 * hour; ro_Grace := 0; ro_ForceRebuild := false |}.
Abbreviation sa_rebuild := (RebuildStats 20 sa_world sa_now sa_opts).
Definition sa_rebuilt (s : rollups) : rollups := match sa_rebuild s with Some (_, _, s') => s' | None => no_rollups end.
Definition sa_rebuild_result (s : rollups) : RebuildResult :=
  match sa_rebuild s with Some (r, _, _) => r | None => zero_rebuild end.

Lemma rebuild_sound_witness :
  ro_progress (sa_rebuilt no_rollups) = Some {| sp_From := hour; sp_To := 3 * hour; sp_RetainFrom := hour; sp_Version := 3 |} ∧
  sound sa_db (sa_rebuilt no_rollups).
Proof.
  split; [vm_compute; reflexivity|].
  apply (rebuild_sound sa_world sa_db (λ _, sa_regular) (λ _ s Hs, Hs) 20 sa_now sa_opts no_rollups
    (sa_rebuild_result no_rollups) None).
  - apply no_rollups_sound.
  - intros m. apply sa_same.
  - vm_compute. reflexivity.
Defined.
Lemma rebuild_ends_witness : ∃ fuel0, ∀ fuel, (fuel0 ≤ fuel)%nat → RebuildStats fuel sa_world sa_now sa_opts no_rollups ≠ None.
Proof. exact (rebuild_ends sa_world sa_db (λ _, sa_regular) (λ _ s Hs, Hs) sa_now sa_opts no_rollups (no_rollups_sound sa_db)). Defined.

(** The same request once retention has deleted a run: the rebuild stops at its hour. *)
Definition sa_pruned : db := with_runs (delete "run-b" (job_runs sa_db)) sa_db.
Definition sa_later : world := {| w_db _ := sa_pruned; w_others _ s := s; w_cancelled _ := false |}.
Definition sa_refusal : RebuildResult * option error * rollups :=
  default (zero_rebuild, None, no_rollups) (RebuildStats 20 sa_later sa_now sa_opts sa_walked).
Definition sa_refused : rollups := sa_refusal.2.
Lemma sa_refusal_eq :
  RebuildStats 20 sa_later sa_now sa_opts sa_walked = Some (sa_refusal.1.1, sa_refusal.1.2, sa_refused).
Proof. vm_compute. reflexivity. Qed.
Lemma sa_pruned_regular : regular sa_pruned.
Proof.
  destruct sa_regular as [H1 H2 H3 H4]. split; [exact H1|exact H2| |exact H4].
  intros id r ms Hr. apply (H3 id r ms). cbn in Hr. by apply lookup_delete_Some in Hr as [_ Hr].
Qed.
Lemma rebuild_never_shrinks_witness :
  sa_refusal.1.2 = Some (ValidationError "rebuild range") ∧ stored_total (2 * hour) sa_refused = (1, 1) ∧
  totals_le sa_walked sa_refused.
Proof.
  split; [vm_compute; reflexivity|]. split; [vm_compute; reflexivity|].
  exact (rebuild_never_shrinks sa_later 20 sa_now sa_opts sa_walked _ _ _ (λ _, sa_pruned_regular)
    (λ _ s, totals_refl s) eq_refl sa_refusal_eq).
Defined.
