(* ===== verification/FeedRuns.v ===== *)
(** * Concrete runs: a reader of the finish feed *)

From S2P Require Import Prelude Types Text Json Fingerprint Store Plan Sweep Retention Ids Hist Maintenance Rollup Feed Witnesses StatsRuns.

#[local] Existing Instance toy_foundation.
#[local] Existing Instance toy_golib.
#[local] Existing Instance stored_order.

Local Open Scope Z_scope.

(** Two kinds of job and three finishes, of which the reader wants the mails, one a page. *)
Definition fr_params : ListRunFinishesParams :=
  {| fp_After := ""; fp_Since := hour; fp_Settle := 0; fp_Kinds := ["mail"]; fp_Queues := []; fp_Limit := 1 |}.
Definition fr_before : db := with_finishes {[ (hour + secs 10, "run-a"); (2 * hour + secs 1, "run-b") ]} sa_db.

Definition polled (s : fstate) : fstate := match feed_poll fr_params s with Ok s' => s' | Err _ => s end.
Lemma polled_step s : (match feed_poll fr_params s with Ok _ => true | Err _ => false end) = true → feed_step fr_params s (polled s).
Proof. intros Hp. apply feed_read. unfold polled. by destruct (feed_poll fr_params s). Qed.

Definition fr0 : fstate := {| fs_db := fr_before; fs_now := 3 * hour; fs_After := ""; fs_start := None; fs_seen := [] |}.
Definition at_time (t : Z) (s : fstate) : fstate :=
  {| fs_db := fs_db s; fs_now := t; fs_After := fs_After s; fs_start := fs_start s; fs_seen := fs_seen s |}.
Definition committed (d : db) (s : fstate) : fstate :=
  {| fs_db := d; fs_now := fs_now s; fs_After := fs_After s; fs_start := fs_start s; fs_seen := fs_seen s |}.
Definition fr1 : fstate := at_time (5 * hour + secs 2) (polled fr0).
(** run-c commits two seconds after its finish, inside the settle window. *)
Definition fr2 : fstate := at_time (5 * hour + secs 6) (polled (committed sa_db fr1)).
Definition fr3 : fstate := polled fr2.

Lemma fr_commits : feed_commits fr_params (5 * hour + secs 2) fr_before sa_db.
Proof.
  intros e He. assert (e ∈ job_run_finishes fr_before ∨ e = (5 * hour, "run-c")) as [Hb| ->].
  { unfold sa_db, fr_before in *. cbn [job_run_finishes with_finishes] in *. rewrite !elem_of_union, !elem_of_singleton in *. tauto. }
  - right. split; [done|]. intros f Hf. exact Hf.
  - left. vm_compute. done.
Qed.
Lemma fr3_reachable : feed_reachable fr_params fr3.
Proof.
  assert (∀ s s', feed_reachable fr_params s → feed_step fr_params s s' → feed_reachable fr_params s') as More by (intros s s'; apply feed_more).
  assert (feed_reachable fr_params fr0) as R0 by (apply feed_init; by vm_compute).
  assert (feed_reachable fr_params fr1) as R1.
  { eapply More; [eapply More; [exact R0|apply polled_step; by vm_compute]|]. apply feed_tick; by vm_compute. }
  assert (feed_reachable fr_params (committed sa_db fr1)) as R2 by (eapply More; [exact R1|apply feed_commit, fr_commits]).
  eapply More; [|apply polled_step; by vm_compute]. eapply More; [eapply More; [exact R2|apply polled_step; by vm_compute]|].
  apply feed_tick; by vm_compute.
Qed.

Lemma feed_exactly_once_witness :
  (finish_pos <$> fs_seen fr3) = [(2 * hour + secs 1, "run-b"); (5 * hour, "run-c")] ∧
  StronglySorted pos_after (finish_pos <$> fs_seen fr3) ∧
  ∀ f, feed_wanted fr_params (fs_db fr3) (5 * hour, "run-c") = Some f → f ∈ fs_seen fr3.
Proof.
  split; [by vm_compute|].
  destruct (feed_exactly_once fr_params ltac:(by intros _; vm_compute) fr3 (hour, "") fr3_reachable ltac:(by vm_compute)) as (cur & Hc & Hs & _ & Hall).
  assert (cur = (5 * hour, "run-c")) as ->.
  { assert (decodeFeedCursor (fs_After fr3) = Ok (5 * hour, "run-c")) as E by by vm_compute. rewrite E in Hc. by injection Hc. }
  split; [exact Hs|]. intros f Hf. refine (Hall (5 * hour, "run-c") f _ _ _ Hf).
  - apply (bool_decide_unpack _). by vm_compute.
  - apply (bool_decide_unpack (¬ pos_le _ _)). by vm_compute.
  - apply pos_le_refl.
Defined.

(** The reader of small pages catches up from a cold start. *)
Definition fr_cold : fstate := {| fs_db := sa_db; fs_now := 6 * hour; fs_After := ""; fs_start := None; fs_seen := [] |}.
Lemma feed_drains_witness :
  ∃ s', feed_polls fr_params (S (size (job_run_finishes sa_db))) fr_cold = Ok s' ∧
    ∃ start, fs_start s' = Some start ∧
    ∀ e f, e ∈ job_run_finishes sa_db → pos_after start e → e.1 ≤ 6 * hour - 5 * second → feed_wanted fr_params sa_db e = Some f → f ∈ fs_seen s'.
Proof.
  destruct (feed_drains fr_params ltac:(by intros _; vm_compute) fr_cold) as (s' & start & Hp & Hs & _ & Hall); [apply feed_init; by vm_compute|by vm_compute|].
  exists s'. split; [exact Hp|]. exists start. split; [exact Hs|exact Hall].
Defined.

(** A [Since] before 1678 is not where the second poll resumes: the cursor carries it as
    int64 nanoseconds, which wrap to one in the next century. *)
Example since_wraps :
  let since := 2 ^ 62 - 2 ^ 64 in
  decodeFeedCursor (encodeFeedCursor (since, "")) = Ok (2 ^ 62, "") ∧ since < - 2 ^ 63 ∧ 50000 * 24 * hour < 2 ^ 62.
Proof. by vm_compute. Qed.
