(* ===== verification/SeriesRuns.v ===== *)
(** * Concrete runs: time series, time zones, baselines and error groups *)

From stdpp Require Import pretty.
From S2P Require Import Prelude Types Text Json Fingerprint Store Plan Insert Barrier Finalize Claim Sweep Client Controls Periodic Scheduler Retention Ids Hist Maintenance Rollup RollupFacts RollupWindows GroupFacts RollupHours Stats StatsFacts Series Baselines ErrorGroups ErrorGroupReads RollupWalks RollupPass RollupRebuild Backfill Quiet Machine Witnesses StatsRuns.

#[local] Existing Instance toy_foundation.
#[local] Existing Instance toy_golib.
#[local] Existing Instance stored_order.

Local Open Scope Z_scope.

(** ** Zones: Europe/Berlin and Atlantic/Azores in 2026, Asia/Amman in 2021,
    Pacific/Apia in 2011. *)

Definition spring2026 : Z := 1774746000 * second.
Definition autumn2026 : Z := 1792890000 * second.
Definition berlin : Location := {| loc_first := 3600; loc_changes := [(spring2026, 7200); (autumn2026, 3600)] |}.
Definition azores : Location := {| loc_first := -3600; loc_changes := [(spring2026, 0); (autumn2026, -3600)] |}.
Definition autumn2021 : Z := 1635458400 * second.
Definition amman : Location := {| loc_first := 10800; loc_changes := [(autumn2021, 7200)] |}.
Definition dateline : Z := 1325239200 * second.
Definition apia : Location := {| loc_first := -36000; loc_changes := [(dateline, 50400)] |}.

Ltac zone_cases :=
  unfold local_of, Date, offset_at, zone_at; cbn [loc_first loc_changes lookup_zone berlin];
  unfold spring2026, autumn2026, autumn2021, dateline, day, hour, minute, second;
  repeat (match goal with |- context [?a <? ?b] => destruct (Z.ltb_spec a b)
                     | |- context [?a <=? ?b] => destruct (Z.leb_spec a b) end; cbn [fst snd orb Z.eqb]); lia.

Lemma berlin_narrow : narrow berlin.
Proof. intros t t'. zone_cases. Qed.
Lemma berlin_midnights : midnights berlin.
Proof. intros k. zone_cases. Qed.

(** Four days in Berlin around the change to summer time, the third 23 hours long. *)
Definition berlin_from : Z := spring2026 - 30 * hour.
Definition berlin_days : list segment :=
  match seriesBuckets berlin_from (spring2026 + 40 * hour) "day" berlin with Ok bs => bs | Err _ => [] end.
Lemma series_buckets_witness :
  ((λ b : segment, (b.2 - b.1) / hour) <$> berlin_days) = [24; 24; 23; 24] ∧
  (∃ a z, chain a berlin_days z ∧ spring2026 + 40 * hour ≤ z ∧ (length berlin_days ≤ maxSeriesPoints)%nat ∧
     (∀ b, b ∈ berlin_days → b.1 < spring2026 + 40 * hour) ∧ ("day" ≠ "day" → a ≤ berlin_from < a + hour)) ∧
  ("day" = "day" → midnights berlin →
   berlin_days = (λ i : nat, (Date berlin ((local_of berlin berlin_from / day + Z.of_nat i) * day),
                     Date berlin ((local_of berlin berlin_from / day + Z.of_nat i + 1) * day))) <$> seq 0 (length berlin_days)).
Proof.
  split; [vm_compute; reflexivity|].
  apply (series_buckets berlin_from (spring2026 + 40 * hour) "day" berlin); [exact berlin_narrow|vm_compute; reflexivity].
Defined.

(** ** A series read from rollups and raw runs *)

Definition sa_series : SeriesParams :=
  {| se_From := 30 * minute; se_To := 6 * hour + 5 * minute; se_Kind := "mail"; se_Queue := ""; se_Interval := "";
     se_Location := None; se_MaxRawSpan := hour |}.
Definition sa_points : list StatsPoint :=
  match StatsSeries sa_db sa_walked sa_series with Ok pts => pts | Err _ => [] end.
Definition sa_layout : list segment := (λ i : nat, (Z.of_nat i * hour, Z.of_nat i * hour + hour)) <$> seq 0 7.
Lemma UTC_narrow : narrow UTC.
Proof. intros t t'. vm_compute. reflexivity. Qed.
Lemma sa_layout_eq : seriesBuckets (30 * minute) (6 * hour + 5 * minute) "" UTC = Ok sa_layout.
Proof. vm_compute. reflexivity. Qed.
Lemma series_hybrid_witness :
  ((λ pt, (ks_Kind (pt_Stats pt), ks_Attempts (pt_Stats pt), ks_Enqueued (pt_Stats pt))) <$> sa_points) =
    [("mail", 0, 0); ("mail", 0, 0); ("mail", 1, 1); ("mail", 0, 0); ("mail", 0, 0); ("mail", 1, 0); ("mail", 0, 0)] ∧
  ∃ bs, seriesBuckets (30 * minute) (6 * hour + 5 * minute) "" UTC = Ok bs ∧
    Forall2 (λ (b : segment) pt, pt_Start pt = b.1 ∧ pt_End pt = b.2 ∧
      ∃ r, read_raw sa_db (point_window sa_series b) = Ok r ∧ pt_Stats pt = with_kind "mail" (sr_Total r)) bs sa_points.
Proof.
  split; [vm_compute; reflexivity|].
  assert (StatsSeries sa_db sa_walked sa_series = Ok sa_points) as He by (vm_compute; reflexivity).
  assert (∀ bs, seriesBuckets (30 * minute) (6 * hour + 5 * minute) "" UTC = Ok bs →
                Forall (λ b : segment, zero_time < b.1) bs) as Hz.
  { intros bs Hbs. rewrite sa_layout_eq in Hbs. injection Hbs as <-. repeat constructor. }
  pose proof (series_hybrid sa_db sa_regular sa_walked sa_series sa_walked_sound UTC_narrow Hz) as Hh.
  rewrite He in Hh. exact Hh.
Defined.

(** ** Zones that skip or repeat a midnight *)

Definition local_hours (loc : Location) (bs : res (list segment)) : list (Z * Z) :=
  match bs with
  | Ok bs => (λ b : segment, (local_of loc b.1 / hour mod 24, local_of loc b.2 / hour mod 24)) <$> bs
  | Err _ => []
  end.
Definition zone_series (from to : Z) (loc : Location) : SeriesParams :=
  {| se_From := from; se_To := to; se_Kind := ""; se_Queue := ""; se_Interval := "day"; se_Location := Some loc;
     se_MaxRawSpan := 0 |}.


(** ** Baselines, memoized *)

Definition sa_baselines : list Baseline :=
  match (Baselines (Some 0%nat) 0 sa_walked ∅ sa_walked ∅).1 with Ok bs => bs | Err _ => [] end.
Lemma baselines_of_runs_witness :
  ((λ b, (bl_Kind b, bl_Samples b, bl_MaxMs b, bl_Jobs b)) <$> sa_baselines) = [("mail", 1, 900, 1); ("report", 1, 5000, 1)] ∧
  ∃ bs, (Baselines (Some 0%nat) 0 sa_walked ∅ sa_walked ∅).1 = Ok bs ∧ StronglySorted baseline_le bs ∧ NoDup (bl_Kind <$> bs) ∧
    ∀ b, b ∈ bs ↔ ∃ k, kind_runs sa_db k 0 (6 * hour) ≠ [] ∧
      b = baselineFromAgg k (agg_spec k "" (kind_runs sa_db k 0 (6 * hour)) 0) 0 (6 * hour).
Proof.
  split; [vm_compute; reflexivity|].
  assert (default zero_progress (ro_progress sa_walked) =
          {| sp_From := 0; sp_To := 6 * hour; sp_RetainFrom := 0; sp_Version := 5 |}) as Hp by (vm_compute; reflexivity).
  pose proof (baselines_of_runs sa_db sa_walked 0 (Some 0%nat) ∅ ∅ sa_regular sa_walked_sound
    ltac:(rewrite Hp; vm_compute; reflexivity) (λ i, lookup_empty _)) as Hb.
  cbv zeta in Hb. rewrite Hp in Hb. exact Hb.
Defined.

Lemma sa_readable : readable sa_walked.
Proof. apply readable_check, (bool_decide_unpack _). vm_compute. exact I. Qed.

(** One call loads and puts; the next finds the result. *)
Definition memo0 : bstate := {| bs_dbs _ := sa_walked; bs_memo := ∅; bs_calls := ∅ |}.
Definition first_call : call := begin_call memo0 0 true 0.
Definition memo1 : bstate := with_calls (insert 0%nat first_call) memo0.
Definition memo2 : bstate := with_calls (insert 0%nat (in_phase Missed first_call)) memo1.
Definition memo3 : bstate := with_calls (insert 0%nat (in_phase (Loaded sa_baselines) (in_phase Missed first_call))) memo2.
Definition memo4 : bstate :=
  {| bs_dbs := bs_dbs memo3; bs_memo := put memo3 (in_phase (Loaded sa_baselines) (in_phase Missed first_call)) sa_baselines;
     bs_calls := delete 0%nat (bs_calls memo3) |}.
Definition second_call : call := begin_call memo4 0 true 0.
Definition memo5 : bstate := with_calls (insert 1%nat second_call) memo4.
Lemma memo5_reachable : breachable memo5.
Proof.
  apply (b_next memo4 None); [apply (b_next memo3 (Some (in_phase (Loaded sa_baselines) (in_phase Missed first_call), Ok sa_baselines)));
    [apply (b_next memo2 None); [apply (b_next memo1 None); [apply (b_next memo0 None); [apply b_start; intros _; exact sa_readable|]|]|]|]|].
  - apply (b_begin memo0 0 0 true 0); vm_compute; reflexivity.
  - apply (b_miss memo1 0 first_call); vm_compute; reflexivity.
  - apply (b_load memo2 0 (in_phase Missed first_call) sa_baselines); vm_compute; reflexivity.
  - apply (b_put memo3 0); vm_compute; reflexivity.
  - apply (b_begin memo4 1 0 true 0); vm_compute; reflexivity.
Qed.
Lemma memo_transparent_witness :
  bs_memo memo5 !! (0%nat, 7 * 24 * hour) ≠ None ∧
  (∃ s0 rest, ca_seen second_call = s0 :: rest ∧ default zero_progress (ro_progress s0) = ca_progress second_call) ∧
  (if covered (ca_progress second_call)
   then ∃ s, s ∈ ca_seen second_call ∧ (Ok sa_baselines : res (list Baseline)) = load_baselines s (ca_progress second_call) (ca_window second_call)
   else (Ok sa_baselines : res (list Baseline)) = Ok []).
Proof.
  split; [vm_compute; discriminate|].
  apply (memo_transparent memo5 second_call (Ok sa_baselines) (with_calls (delete 1%nat) memo5)).
  - exact memo5_reachable.
  - apply (b_hit memo5 1); vm_compute; reflexivity.
Defined.

(** ** Error groups: two failures, three hours apart, of one group *)

Definition eg_db : db :=
  with_runs (<["run-c" := sa_run "run-c" sa_job2 "mail" OutcomeTimeout (5 * hour) (Some 900)]> (job_runs sa_db)) sa_db.
Lemma eg_regular : regular eg_db.
Proof.
  destruct sa_regular as [H1 H2 H3 H4]. split; [exact H1|exact H2| |vm_compute; discriminate].
  intros id r ms Hr. cbn [eg_db with_runs job_runs] in Hr. apply lookup_insert_Some in Hr as [[_ <-]|[_ Hr]]; [by intros [= <-]|by apply (H3 id r ms)].
Qed.
Lemma eg_keyed : runs_keyed (job_runs eg_db).
Proof.
  assert (map_Forall (λ id r, r_ID r = id) (job_runs eg_db)) as Hm; [|exact Hm]. apply (bool_decide_unpack _). vm_compute. exact I.
Qed.
Lemma eg_finishes : finishes_ok eg_db.
Proof.
  assert (set_Forall (λ e : Z * string, (job_runs eg_db !! e.2 ≫= r_FinishedAt) = Some e.1) (job_run_finishes eg_db)) as Hs.
  { apply (bool_decide_unpack _). vm_compute. exact I. }
  assert (map_Forall (λ id r, ∀ t, r_FinishedAt r = Some t → (t, id) ∈ job_run_finishes eg_db) (job_runs eg_db)) as Hr.
  { intros id r Hr t Ht. assert (map_Forall (λ id r, from_option (λ t, bool_decide ((t, id) ∈ job_run_finishes eg_db)) true (r_FinishedAt r) = true) (job_runs eg_db)) as Hm.
    { apply (bool_decide_unpack _). vm_compute. exact I. }
    specialize (Hm id r Hr). cbn beta in Hm. rewrite Ht in Hm. by apply bool_decide_eq_true in Hm. }
  intros t id. split.
  - intros Hin. specialize (Hs _ Hin). cbn [fst snd] in Hs. by apply bind_Some in Hs.
  - intros (r & Hj & Ht). by apply (Hr id r Hj).
Qed.
(** The hours of a table rolled by a walk of six hours. *)
Definition walk_of (d : db) : option walk_result := rollForward (alone d) sa_now false 0 20 0 (6 * hour) (walk_from 0) sa_start.
Definition walked (d : db) : rollups := match walk_of d with Some (_, _, _, s) => s | None => no_rollups end.
Lemma walked_sound d : regular d → sound d (walked d).
Proof.
  intros Hd. unfold walked. destruct (walk_of d) as [[[[a e] n] s]|] eqn:Ew; [|apply no_rollups_sound].
  refine (rollForward_sound (alone d) sa_now false d (λ _, Hd) (λ _ s Hs, Hs) 0 20 0 (6 * hour)
    (walk_from 0) sa_start _ _ _ _ _ _ _ _ Ew).
  - by exists 0.
  - by exists 6.
  - intros m h _ _ _. by split.
  - apply ensure_sound; [apply no_rollups_sound|by exists 0].
Qed.
Definition eg_walked : rollups := walked eg_db.
(** A window that holds the second failure only. *)
Definition eg_params : ErrorGroupsParams :=
  {| ep_From := 4 * hour + 30 * minute; ep_To := 6 * hour + 5 * minute; ep_Kind := ""; ep_Fingerprint := ""; ep_Limit := 0;
     ep_WithHourly := true; ep_MaxRawSpan := hour |}.
Definition eg_groups : ErrorGroupsResult :=
  match ErrorGroups eg_db eg_walked eg_params with
  | Ok r => r
  | Err _ => {| ey_Groups := []; ey_Coverage := sr_Coverage sa_stats |}
  end.
Lemma error_groups_hybrid_witness :
  ((λ g, (er_Kind g, er_Failures g, er_FirstSeen g, er_LastSeen g, er_Hourly g)) <$> ey_Groups eg_groups) =
    [("mail", 1, 2 * hour + second, 5 * hour, [0; 1; 0])] ∧
  ∃ r', ErrorGroups eg_db no_rollups (raw_window eg_params) = Ok r' ∧
    Forall2 (λ g g', g = with_first (er_FirstSeen g) (er_FirstRunID g) g' ∧
      ∃ v, first_sighting eg_db eg_walked (er_Kind g, er_Fingerprint g) (wanted eg_db eg_params) (6 * hour + 5 * minute) v ∧
        er_FirstSeen g = rv_FinishedAt v ∧ er_FirstRunID g = rv_ID v) (ey_Groups eg_groups) (ey_Groups r').
Proof.
  split; [vm_compute; reflexivity|].
  assert (ErrorGroups eg_db eg_walked eg_params = Ok eg_groups) as He by (vm_compute; reflexivity).
  pose proof (error_groups_hybrid eg_db eg_regular eg_keyed eg_finishes ltac:(vm_compute; reflexivity) eg_walked eg_params
    (walked_sound eg_db eg_regular) ltac:(vm_compute; reflexivity)) as Hh.
  rewrite He in Hh. exact Hh.
Defined.

(** ** An upgrade: a run an older release left out of the finish log *)

Definition bf_run : jobRunRow := sa_run "run-b" sa_job2 "" OutcomeTimeout (2 * hour + secs 1) (Some 30).
Definition bf_db : db :=
  with_finishes {[ (hour + secs 10, "run-a"); (5 * hour, "run-c") ]} (with_runs (<["run-b" := bf_run]> (job_runs sa_db)) sa_db).
Lemma regular_with d id0 r0 F :
  regular d → 0 ≤ default 0 (r_DurationMs r0) → Z.of_nat (size F) ≤ int64_max →
  regular (with_finishes F (with_runs (<[id0 := r0]> (job_runs d)) d)).
Proof.
  intros [H1 H2 H3 H4] Hr0 HF. split; [exact H1|exact H2| |exact HF].
  intros id r ms Hr Hms. cbn [with_finishes with_runs job_runs] in Hr.
  apply lookup_insert_Some in Hr as [[_ <-]|[_ Hr]]; [by rewrite Hms in Hr0|by apply (H3 id r ms)].
Qed.
Lemma bf_regular : regular bf_db.
Proof. apply regular_with; [exact sa_regular|vm_compute; discriminate..]. Qed.
Lemma bf_legacy : legacy_log bf_db.
Proof.
  split.
  - assert (map_Forall (λ id r, r_ID r = id) (job_runs bf_db)) as Hm; [|exact Hm]. apply (bool_decide_unpack _). vm_compute. exact I.
  - vm_compute. reflexivity.
  - assert (set_Forall (λ e : Z * string, finish_of bf_db e.2 = Some e.1) (job_run_finishes bf_db)) as Hs.
    { apply (bool_decide_unpack _). vm_compute. exact I. }
    intros t id Hin. exact (Hs (t, id) Hin).
  - assert (map_Forall (λ id r, r_Kind r = "" ∨ from_option (λ t, bool_decide ((t, id) ∈ job_run_finishes bf_db)) true (r_FinishedAt r) = true)
      (job_runs bf_db)) as Hm by (apply (bool_decide_unpack _); vm_compute; exact I).
    intros id r t Hr Ht Hk. destruct (Hm id r Hr) as [Hx|Hx]; [exfalso; exact (Hk Hx)|]. rewrite Ht in Hx. exact (proj1 (bool_decide_eq_true _) Hx).
Qed.
Lemma sealed_check p s :
  ro_progress s = Some p →
  map_Forall (λ k _, covers p k.1 = true) (ro_hourly s) → map_Forall (λ k _, covers p k.1 = true) (ro_groups s) → sealed s.
Proof.
  intros Hp H1 H2 h Hst. exists p. split; [done|].
  destruct Hst as [(g & r & Hr)|(k & r & Hr)]; [exact (H1 (h, g) r Hr)|exact (H2 (h, k) r Hr)].
Qed.
Lemma bf_sealed : sealed (walked bf_db).
Proof.
  apply (sealed_check (default zero_progress (ro_progress (walked bf_db)))).
  - vm_compute. reflexivity.
  - apply (bool_decide_unpack _). vm_compute. exact I.
  - apply (bool_decide_unpack _). vm_compute. exact I.
Qed.
Definition first_pass (fuel : nat) : option (RollupResult * option error * statsState * tables) :=
  RollupStats undisturbed_by fuel alone 0 minute sa_now sa_cfg {| bk_backfills := 0; bk_first := 0 |} (bf_db, walked bf_db).
